(* ===== verification/_CoqProject ===== *)
-Q . S2P
Prelude.v
Sums.v
Capacity.v
ByteStrings.v
Transactions.v
Blocks.v
Fixtures.v
Protocol.v
CellSet.v
LiveCells.v
CellPersistence.v
CellOverlay.v
Cells.v
Epochs.v
ChainStore.v
Fork.v
VerifyErrors.v
ProposalTable.v
Dao.v
Reward.v
MedianTime.v
HeaderVerify.v
Scripts.v
TxVerify.v
BlockVerify.v
SyncHeaders.v
SyncPeers.v
LinkedMap.v
ProposedPool.v
PoolLinks.v
PoolCommit.v
TxPool.v
Compact.v
MessageTypes.v
OrphanPool.v
ChainPool.v
ChainService.v
TxExecutor.v
SyncState.v
Synchronizer.v
Relayer.v
ChainInvariant.v
ChainReach.v
ChainApi.v
SyncInvariant.v
SyncRefinement.v
RelayRefinement.v
SyncProgress.v
SyncFetch.v
Node.v
SyncStall.v
NodeChain.v
NodeGaps.v
NodeExample.v
PoolTemplate.v
PoolSafety.v
Cuckoo.v
CuckooSolve.v
CuckooSound.v
JsonTypes.v
BlockAssembler.v
Miner.v
MinerSound.v
AssemblerSound.v
Syscalls.v
SyscallsSound.v
PeerStore.v
PeerRegistry.v
Network.v
RegistrySound.v
NetworkSound.v
PeerGaps.v
FlatBody.v
KeyValue.v
StoreBytes.v
StoreRefines.v
StoreSound.v
Bech32.v
NetTime.v
Alerts.v
