(* ===== verification/Prelude.v ===== *)
(** * A verification of the CKB node

    The development models the consensus core of the node and the protocols that
    feed it: what a block is, when it is valid, which cells are live, how the
    chain is reorganised, what is paid to whom, and how headers, blocks and
    transactions come in from peers.  A message is read ([protocol/src]) and
    handled by the synchronizer or the relayer ([sync/src]), which work on one
    shared state.  A block that they accept arrives at the chain service ([chain/src/chain.rs]),
    is checked on its own and against the chain ([verification/src]), its
    transactions are resolved against the live cells ([core/src/cell.rs],
    [shared/src]), their scripts are run ([script/src]), and the index, the cell
    set and the proposal table follow the new best chain ([store/src],
    [shared/src]).  Transactions enter the pool through its executor
    ([shared/tx-pool-executor]).  The block assembler makes templates from the
    pool and the chain, and the miner ([miner/src]) seals them with a proof of work
    ([pow/src]) and hands them in as JSON ([util/jsonrpc-types]).  Below the
    protocols, the network ([network/src]) keeps the registry and the store of the
    peers it accepts, dials, evicts and bans.  Below the chain, the store writes
    blocks, indices and cells as bytes to the columns of a database ([store/src],
    [db/src]).  Beside these, peers relay signed alerts ([util/network-alert]) and
    compare their clocks.

    ** Conventions

    Integers are [Z] with their width written out: [a +64 b] and its companions
    panic on overflow, because the release profile turns overflow checks on, and
    [cast] is a truncating [as].  A fallible operation returns an [outcome]: [Ok],
    [Err] for a [Result::Err] or a [None], [Panic] for a failed [expect], an index
    out of range or an overflow.  Hash maps and sets are [gmap] and [gset]; where
    their iteration order matters it is an argument.  Code of other packages is
    an argument of the definitions that use it: the blake2b digest, bincode, the
    merkle root of [merkle_cbt], siphash, the reading of numbers of [numext], the
    LRU cache, the virtual machine and the clock.  The virtual machine is the class
    [SupportMachine] of its registers and memory with the laws [MachineLaws], and
    the running of a program an argument; hexadecimal coding, the bytes of a
    flatbuffers table and the reading of addresses ([P2pUtils]) are arguments too.
    The surroundings of a call of the network, its clocks, random choices and
    orders of iteration, are the record [Env].  The theorems on nodes assume that
    the digest of a header is free of collisions; the witnesses are for a digest
    that is.  The bincode encoding of a stored value is the classes [BodyCodecs]
    and [StoreCodecs], with the law that a value is read back from the front of
    its bytes; the calls of the package rocksdb are [RocksApi] with [RocksLaws], and
    the recovery of a key from a signature is an argument.

    ** Files

    - [Prelude], [Sums]: outcomes, machine arithmetic, tactics, sums over ranges.
    - [Capacity], [ByteStrings], [Transactions], [Blocks]: the data of
      [util/occupied-capacity] and [core/src]; [Fixtures]: data for examples.
    - [CellSet]: [shared/src/cell_set.rs] and [ChainState::update_tip].
      [LiveCells] relates it to applying transactions one by one,
      [CellPersistence] to the copy on disk, [CellOverlay] to the overlay blocks
      are verified against.
    - [Cells]: cell and header providers and [resolve_transaction] of
      [core/src/cell.rs].
    - [Epochs]: epochs and parameters of [core/src/extras.rs] and
      [spec/src/consensus.rs].
    - [ChainStore]: [store/src/store.rs] as one map per column, and
      [Shared::get_ancestor]; [Fork]: [find_fork] and [update_index] of
      [chain/src/chain.rs].
    - [VerifyErrors]: the errors of [verification/src/error.rs] and [script/src/lib.rs].
    - [ProposalTable]: [shared/src/tx_proposal_table.rs] and [CommitVerifier].
    - [Dao], [Reward]: [util/dao], [util/reward-calculator].
    - [MedianTime], [HeaderVerify]: median time and the checks of headers.
    - [Scripts]: [script/src/verify.rs]; [TxVerify]:
      [verification/src/transaction_verifier.rs].
    - [BlockVerify]: [block_verifier.rs], [uncles_verifier.rs] and
      [contextual_block_verifier.rs] of [verification/src].
    - [SyncHeaders], [SyncPeers]: [sync/src/types.rs], the header map with its
      skip list and the locators, and the peers with the blocks in flight.
    - [LinkedMap]: the interfaces of the maps in insertion order and of the LRU
      cache, and [util/src/linked_hash_set.rs].
    - [ProposedPool], [TxPool]: [shared/src/tx_pool]; [ChainPool]: the handlers
      of [shared/src/chain_state.rs] on the pool.  [PoolLinks], [PoolCommit] hold
      the invariant of the proposed pool, [PoolTemplate] the blocks made from it,
      [PoolSafety] what follows.
    - [ChainService]: [process_block] of [chain/src/chain.rs] with everything it
      calls, and the start of a node; [ChainInvariant] relates the store, the
      index and the state of the tip, [ChainReach] has the reachable states.
    - [Protocol]: the tables of [protocol/src/protocol.fbs], [builder.rs] and
      [convert.rs]; [MessageTypes] states the types of tables and data.
      [Compact]: compact blocks ([sync/src/relayer/compact_block*.rs] and
      [reconstruct_block]).
    - [TxExecutor]: [shared/tx-pool-executor]; its three phases run on the states
      of their times.
    - [SyncState]: [SyncSharedState] of [sync/src/types.rs]; [OrphanPool]:
      [block_pool.rs]; [Synchronizer], [Relayer]: the handlers of
      [sync/src/synchronizer] and [sync/src/relayer].  [process], the chain
      service, is an argument; [ChainApi] has its interface [ChainLaws], which
      [process_block] implements.
    - [SyncInvariant]: the abstract operations on the shared state and the
      invariant they keep; [SyncRefinement], [RelayRefinement]: the handlers are
      made of these operations.  [SyncProgress]: they return; [SyncFetch]: the
      blocks that are asked for.
    - [Node]: the two protocols and [submit_block] of [rpc/src/module/miner.rs]
      on one state, and the reachable states.  [NodeChain] puts the chain service
      in; [SyncStall], [NodeGaps]: what goes wrong between the parts;
      [NodeExample]: a small node.
    - [Cuckoo]: the proof of work engines of [pow/src]; [CuckooSolve]: the search of
      [miner/src/worker/cuckoo_simple.rs]; [CuckooSound]: what it finds.
    - [JsonTypes]: [util/jsonrpc-types]; [BlockAssembler]:
      [miner/src/block_assembler.rs]; [Miner]: [miner/src/miner.rs] and
      [client.rs].  [MinerSound] follows a block from the template to the node,
      [AssemblerSound] relates templates to the verification of blocks.
    - [Syscalls]: [script/src/syscalls] and [cost_model.rs]; [SyscallsSound]: what
      the calls copy into the machine.
    - [PeerStore]: [network_group.rs], [peer_store.rs] and [peer_store] of
      [network/src], the tables of SQLite as lists of rows; [PeerRegistry]:
      [peer.rs] and [peer_registry.rs]; [Network]: [network.rs], [config.rs],
      [services/outbound_peer.rs] and the protocols ping, feeler, discovery and
      identify as one step function on events.  [RegistrySound] has the invariant of
      the registry and the eviction, [NetworkSound] the reachable states of the
      network, [PeerGaps] what it fails to do and a small network.  The module
      [Compress] of [Network] is [compress.rs].
    - [FlatBody]: [store/src/flat_block_body.rs], the layout of the body of a block.
      [KeyValue]: the interface of [db/src/lib.rs] with its laws, and its three
      implementations [memorydb.rs], [rocksdb.rs] and [cachedb.rs].  [StoreBytes]:
      [store/src/store.rs] again, as calls of a database on encoded keys and
      values, with its caches.  [StoreRefines] relates a batch of bytes to the
      operations of [ChainStore], [StoreSound] whole runs and all reads.
    - [Bech32]: [util/crypto/src/bech32]; [NetTime]: [sync/src/net_time_checker.rs].
    - [Alerts]: [util/multisig], [core/src/alert.rs], [util/network-alert] and the
      calls of the RPC that send and show alerts.

    ** What the theorems show

    - Cells ([LiveCells], [CellPersistence], [CellOverlay], [Cells]): the cell set
      after a reorganisation holds the cells of the new chain and survives a
      restart; the overlay agrees with it under a stated condition and not
      without; resolution is characterised and spends no out point twice, though
      one cell can be named by two out points.
    - The chain ([Epochs], [ChainStore], [Fork], [ChainReach]): bounds and absence
      of overflow of the adjustment of epochs, the indexed ancestor search
      against the walk along parents, the fork that is found and the index it
      leaves; from these, for every sequence of blocks handed to [process_block]:
      the tip has the most work of all stored blocks, a refused block changes
      nothing, and a restart gives the same state back.
    - Proposals ([ProposalTable]): the table follows the chain and agrees with the
      commit rule in the stated range, with the two places where it does not.
    - Issuance and rewards ([Dao], [Reward]): an epoch issues exactly its rewards,
      deposits are returned with their share, fees are paid at most once; the
      cases in which the calculator departs from the rule.
    - Headers, scripts and transactions ([HeaderVerify], [Scripts], [TxVerify]):
      what is accepted, exactly; monotony of time locks; independence from the
      order of groups; and the inputs that panic or pass over a rule.
    - Blocks ([BlockVerify]): what a block must satisfy on its own, that uncles are
      included once along a fork, and what the cache of transactions leaves out.
    - Synchronisation ([SyncHeaders], [SyncPeers]): the skip list finds the
      ancestors that the parents lead to, the answer to a locator starts at the
      last common block, and the two indices of the blocks in flight agree.
    - Messages ([Protocol], [MessageTypes], [Compact]): what is sent is what is
      received; what is received has its type, whatever was sent; a compact block
      that passes its checks is put together or names what it misses.
    - The node ([Node], [NodeChain], [SyncStall], [NodeGaps]): for every order of
      events, each handler is a sequence of abstract operations that keep the
      invariant (a refinement); with the chain service behind the interface, the
      tip has the most work of all stored blocks as long as no stored block is
      handed in again.  The timers return, the counter of the peers is exact, and
      the fetcher asks for new blocks only.  And what the separate records of the
      two protocols miss: a relayed block needs no proof of work of its own, a
      block can reach the chain twice and lose its fees, orphans stay behind, and
      one header stops the synchronization of a fresh node.
    - The executor ([TxExecutor]): a batch does what its transactions one by one
      would do.
    - The pool ([PoolSafety]): no double spend in any reachable state of the
      proposed pool, removal takes exactly the descendants, and the transactions
      of a block template resolve in the verification of the block; and the ways
      around this that reorganisations and cellbase-shaped transactions open.
    - Mining ([Cuckoo], [CuckooSound], [MinerSound], [AssemblerSound]): what a proof
      is, exactly; the search returns and finds proofs only; whatever the order of
      works and seals, a submitted block has its proof of work; and the block made
      from a template passes the verification of blocks.
    - The RPC types ([JsonTypes]): blocks and strings are read back as written.
    - System calls ([SyscallsSound]): which bytes of which cell a program of a script
      group gets, that one handler reacts to a call, and the arguments that panic.
    - The network ([RegistrySound], [NetworkSound], [PeerGaps]): for every sequence of
      events, connections stay within the limits and a ban keeps an address out
      until it ends, also over a restart; who can be evicted; and that feeler
      connections are never made and a peer that is removed early is not dialled
      again.  Compressed messages are received as they were sent.
    - The store on bytes ([FlatBody], [KeyValue], [StoreSound]): a stored body is
      read back whole and in parts; a cache in front of a database cannot be
      observed; and on every database that keeps the laws, in memory, in RocksDB or
      behind a cache, each commit and each read of the store does what the typed
      maps of [ChainStore] do (a refinement) for data within their widths, so that
      the maps stand for the bytes in the other files.  The cache of outputs is the
      one exception: it may answer for a detached block.
    - Addresses, clocks and alerts ([Bech32], [NetTime], [Alerts]): an address is
      decoded to what was encoded; the majority of the samples decides about the
      clock; only alerts that enough different keys signed are stored and shown;
      and the inputs that make these parts panic or accept too much.

    ** Fuel

    Loops over numbers run on the block number, which bounds their iterations:
    [walk_parents], [attach_above], [find_fork_until_latest_common],
    [collect_proposals], [ancestor_loop], [locator_loop] and [locate_loop] descend
    with every step.  [competing_loop] has the number of the parent as fuel and
    gives [Panic] when it is used up; the theorems on rewards prove that on a main
    chain it is not.  The loops over the pool, [remove_loop], [recursion_loop] and
    [ancestor_queue], consume an edge of the pool for every transaction they
    queue; their fuel is the number of edges, and that it suffices is
    [remove_takes_descendants], [recursion_remove_total] and
    [remove_by_ancestor_total].  [orphan_loop] queues the hash of every orphan
    once, so their number is enough ([remove_blocks_by_parent_spec]);
    [common_loop] and [fetch_loop] run on block numbers ([timers_return]).
    [cycle_walk] visits a nonce of the proof with every step and has their number as
    fuel ([cuckoo_verify_exact]); the walks along the graph of the search have its
    number of nodes ([solver_sound]).  [display_uint] writes at most twenty digits,
    [is_utf8] consumes a byte with every step, and [debug_loop] reads at most the
    memory of the machine ([debug_loop_returns]).

    ** Not modelled

    The opening of a RocksDB with its options and the check of its version, the
    package [p2p] and the seeds from DNS, the server of the RPC, keys and the
    making of signatures, bloom filters, which no handler uses, start up and
    logging: input and output, or calls of other packages.  Threads and locks:
    the operations of the chain state and of the shared state of the protocols
    run one after the other, as their locks make them; the phases of the executor
    are separate steps, with any events in between.  Transactions of a
    block are verified in parallel by the code; when several fail, the model
    gives the error of the first.  The serialization of a single value
    (bincode, flatbuffers) appears as its size or as an argument with its law. *)
From stdpp Require Export base tactics numbers option list gmap sets fin_sets fin_maps strings sorting.
From Stdlib Require Export ZArith Lia.

#[global] Open Scope Z_scope.

(** ** Names of the integer types

    Every machine integer of the sources is a [Z]; its width appears in the
    operation that is applied to it.  A 256-bit hash is the number its
    big-endian bytes spell, which is the order [H256: Ord] compares them in. *)
Abbreviation H256 := Z (only parsing).
Abbreviation U64_SIZE := 18446744073709551616 (only parsing).
Abbreviation U32_SIZE := 4294967296 (only parsing).
Abbreviation U256_SIZE := 115792089237316195423570985008687907853269984665640564039457584007913129639936 (only parsing).
Abbreviation Bytes := (list Z) (only parsing).

(** ** Outcomes of fallible code

    A Rust function that returns a [Result] may also panic: by [expect] and
    [unwrap], by an index out of range, and, since the release profile sets
    [overflow-checks = true], by plain integer arithmetic that overflows. *)
Inductive outcome (E A : Type) : Type :=
| Ok (a : A)
| Err (e : E)
| Panic.
Arguments Ok {E A} a.
Arguments Err {E A} e.
Arguments Panic {E A}.

#[export] Instance outcome_ret {E} : MRet (outcome E) := fun A a => Ok a.
#[export] Instance outcome_bind {E} : MBind (outcome E) := fun A B f m =>
  match m with Ok a => f a | Err e => Err e | Panic => Panic end.
#[export] Instance outcome_fmap {E} : FMap (outcome E) := fun A B f m =>
  match m with Ok a => Ok (f a) | Err e => Err e | Panic => Panic end.
#[export] Instance outcome_eq_dec {E A} `{EqDecision E, EqDecision A} :
  EqDecision (outcome E A).
Proof. solve_decision. Defined.

(** [Option::ok_or], [Result::map_err], [Option::expect], [assert!] and the
    early return [if b { Err(e)? }]. *)
Definition ok_or {E A} (o : option A) (e : E) : outcome E A :=
  match o with Some a => Ok a | None => Err e end.
Definition map_err {E F A} (f : E -> F) (m : outcome E A) : outcome F A :=
  match m with Ok a => Ok a | Err e => Err (f e) | Panic => Panic end.
Definition expect {E A} (o : option A) : outcome E A :=
  match o with Some a => Ok a | None => Panic end.
Definition unwrap {E F A} (m : outcome E A) : outcome F A :=
  match m with Ok a => Ok a | _ => Panic end.
Definition ensure {E} (b : bool) (e : E) : outcome E unit :=
  if b then Ok tt else Err e.
Definition assert {E} (b : bool) : outcome E unit :=
  if b then Ok tt else Panic.
Definition is_ok {E A} (m : outcome E A) : bool :=
  match m with Ok _ => true | _ => false end.

(** [Iterator::try_fold], and the [for] loop with [?] in its body. *)
Fixpoint try_fold {E A B} (f : B -> A -> outcome E B) (b : B) (l : list A)
    : outcome E B :=
  match l with
  | [] => Ok b
  | a :: l => b ← f b a; try_fold f b l
  end.

(** [for x in l { f(x)?; }] for a body without state, and
    [l.iter().map(f).collect::<Result<Vec<_>, _>>()]. *)
Fixpoint try_for_each {E A} (f : A -> outcome E unit) (l : list A)
    : outcome E unit :=
  match l with
  | [] => Ok tt
  | a :: l => _ ← f a; try_for_each f l
  end.
Fixpoint try_map {E A B} (f : A -> outcome E B) (l : list A)
    : outcome E (list B) :=
  match l with
  | [] => Ok []
  | a :: l => b ← f a; bs ← try_map f l; Ok (b :: bs)
  end.

(** ** Unsigned arithmetic at a width

    [add_w], [sub_w] and [mul_w] are the operators [+], [-] and [*] of an
    unsigned type with [size] values; the [checked_], [saturating_] and
    [wrapping_] methods are written out separately. *)
Definition in_range (size x : Z) : Prop := 0 <= x < size.
Definition add_w {E} (size a b : Z) : outcome E Z :=
  if decide (a + b < size) then Ok (a + b) else Panic.
Definition sub_w {E} (a b : Z) : outcome E Z :=
  if decide (b <= a) then Ok (a - b) else Panic.
Definition mul_w {E} (size a b : Z) : outcome E Z :=
  if decide (a * b < size) then Ok (a * b) else Panic.
Definition div_w {E} (a b : Z) : outcome E Z :=
  if decide (b = 0) then Panic else Ok (a / b).
Definition rem_w {E} (a b : Z) : outcome E Z :=
  if decide (b = 0) then Panic else Ok (a mod b).
Definition checked_add (size a b : Z) : option Z :=
  if decide (a + b < size) then Some (a + b) else None.
Definition checked_sub (a b : Z) : option Z :=
  if decide (b <= a) then Some (a - b) else None.
Definition checked_mul (size a b : Z) : option Z :=
  if decide (a * b < size) then Some (a * b) else None.
Definition saturating_sub (a b : Z) : Z := Z.max 0 (a - b).
Definition saturating_add (size a b : Z) : Z := Z.min (size - 1) (a + b).
Definition wrapping_add (size a b : Z) : Z := (a + b) mod size.
Definition wrapping_sub (size a b : Z) : Z := (a - b) mod size.
Definition wrapping_mul (size a b : Z) : Z := (a * b) mod size.
Definition cast (size a : Z) : Z := a mod size.

Abbreviation u64 := (in_range U64_SIZE) (only parsing).
Abbreviation u32 := (in_range U32_SIZE) (only parsing).
Abbreviation u256 := (in_range U256_SIZE) (only parsing).

Declare Scope rust_scope.
Delimit Scope rust_scope with rust.
Notation "a '+64' b" := (add_w U64_SIZE a b) (at level 50) : rust_scope.
Notation "a '-64' b" := (sub_w a b) (at level 50) : rust_scope.
Notation "a '*64' b" := (mul_w U64_SIZE a b) (at level 40) : rust_scope.
#[global] Open Scope rust_scope.

(** [Vec::len] and friends, as the [usize] they return. *)
Definition len {A} (l : list A) : Z := Z.of_nat (length l).
Definition sum_z (l : list Z) : Z := foldr Z.add 0 l.
Arguments len {A} l : simpl never.

(** ** Lemmas on outcomes *)
Section outcomes.
Context {E : Type}.

Lemma bind_ret_l {A B} (a : A) (f : A -> outcome E B) : Ok a ≫= f = f a.
Proof. done. Qed.

Lemma bind_Ok {A B} (m : outcome E A) (f : A -> outcome E B) b :
  m ≫= f = Ok b <-> exists a, m = Ok a /\ f a = Ok b.
Proof. destruct m; naive_solver. Qed.

Lemma bind_Err {A B} (m : outcome E A) (f : A -> outcome E B) e :
  m ≫= f = Err e <-> m = Err e \/ exists a, m = Ok a /\ f a = Err e.
Proof. destruct m; naive_solver. Qed.

Lemma bind_Panic {A B} (m : outcome E A) (f : A -> outcome E B) :
  m ≫= f = Panic <-> m = Panic \/ exists a, m = Ok a /\ f a = Panic.
Proof. destruct m; naive_solver. Qed.

Lemma ok_or_Ok {A} (o : option A) (e : E) a : ok_or o e = Ok a <-> o = Some a.
Proof. destruct o; naive_solver. Qed.

Lemma expect_Ok {A} (o : option A) a :
  expect (E := E) o = Ok a <-> o = Some a.
Proof. destruct o; naive_solver. Qed.

Lemma map_err_Ok {F A} (f : F -> E) (m : outcome F A) a :
  map_err f m = Ok a <-> m = Ok a.
Proof. destruct m; naive_solver. Qed.

Lemma ensure_Ok b (e : E) u : ensure b e = Ok u <-> b = true.
Proof. destruct b, u; naive_solver. Qed.

Lemma assert_Ok b u : assert (E := E) b = Ok u <-> b = true.
Proof. destruct b, u; naive_solver. Qed.

Lemma add_w_Ok size a b r :
  add_w (E := E) size a b = Ok r <-> r = a + b /\ a + b < size.
Proof. unfold add_w. case_decide; naive_solver. Qed.

Lemma sub_w_Ok a b r : sub_w (E := E) a b = Ok r <-> r = a - b /\ b <= a.
Proof. unfold sub_w. case_decide; naive_solver. Qed.

Lemma mul_w_Ok size a b r :
  mul_w (E := E) size a b = Ok r <-> r = a * b /\ a * b < size.
Proof. unfold mul_w. case_decide; naive_solver. Qed.

Lemma div_w_Ok a b r : div_w (E := E) a b = Ok r <-> r = a / b /\ b <> 0.
Proof. unfold div_w. case_decide; naive_solver. Qed.

Lemma rem_w_Ok a b r : rem_w (E := E) a b = Ok r <-> r = a mod b /\ b <> 0.
Proof. unfold rem_w. case_decide; naive_solver. Qed.

Lemma add_w_eq size a b : a + b < size -> add_w (E := E) size a b = Ok (a + b).
Proof. intros. by apply add_w_Ok. Qed.
Lemma sub_w_eq a b : b <= a -> sub_w (E := E) a b = Ok (a - b).
Proof. intros. by apply sub_w_Ok. Qed.
Lemma mul_w_eq size a b : a * b < size -> mul_w (E := E) size a b = Ok (a * b).
Proof. intros. by apply mul_w_Ok. Qed.
Lemma div_w_eq a b : b <> 0 -> div_w (E := E) a b = Ok (a / b).
Proof. intros. by apply div_w_Ok. Qed.
Lemma rem_w_eq a b : b <> 0 -> rem_w (E := E) a b = Ok (a mod b).
Proof. intros. by apply rem_w_Ok. Qed.

Lemma try_for_each_Ok {A} (f : A -> outcome E unit) l :
  try_for_each f l = Ok tt <-> Forall (fun a => f a = Ok tt) l.
Proof.
  induction l as [|a l IH]; simpl; [by rewrite Forall_nil|].
  rewrite Forall_cons, <- IH, bind_Ok. split; [intros ([] & ? & ?)|]; naive_solver.
Qed.

Lemma try_map_Ok {A B} (f : A -> outcome E B) l bs :
  try_map f l = Ok bs <-> Forall2 (fun a b => f a = Ok b) l bs.
Proof.
  revert bs. induction l as [|a l IH]; intros bs; simpl.
  - split; [intros [= <-]; constructor|]. by intros ->%Forall2_nil_inv_l.
  - rewrite bind_Ok. setoid_rewrite bind_Ok. split.
    + intros (b & ? & bs' & ?%IH & [= <-]). by constructor.
    + intros (b & bs' & ? & ?%IH & ->)%Forall2_cons_inv_l. eauto 10.
Qed.

(** The invariant rule of a [for] loop that returns early on an error. *)
Lemma try_fold_inv {A B} (f : B -> A -> outcome E B) (P : list A -> B -> Prop) l b b' :
  P [] b ->
  (forall done a b b', P done b -> f b a = Ok b' -> P (done ++ [a]) b') ->
  try_fold f b l = Ok b' -> P l b'.
Proof.
  intros H0 Hstep Hl.
  cut (forall done b, P done b -> try_fold f b l = Ok b' -> P (done ++ l) b').
  { intros Hgen. exact (Hgen [] b H0 Hl). }
  clear b H0 Hl. induction l as [|a l IH]; intros done b H0; simpl.
  - intros [= <-]. by rewrite app_nil_r.
  - rewrite bind_Ok. intros (b1 & Hf & Hl).
    rewrite cons_middle, app_assoc. eauto.
Qed.

Lemma try_fold_app {A B} (f : B -> A -> outcome E B) l1 l2 b :
  try_fold f b (l1 ++ l2) = (b ← try_fold f b l1; try_fold f b l2).
Proof.
  revert b. induction l1 as [|a l1 IH]; intros b; simpl; [done|].
  destruct (f b a); simpl; auto.
Qed.
End outcomes.

(** Take every [Ok] hypothesis about a sequence apart, step by step. *)
Ltac outcome_inv :=
  repeat match goal with
  | H : _ ≫= _ = Ok _ |- _ =>
      let x := fresh "x" in let H1 := fresh "H" in
      apply bind_Ok in H as (x & H1 & H)
  | H : ok_or _ _ = Ok _ |- _ => apply ok_or_Ok in H
  | H : expect _ = Ok _ |- _ => apply expect_Ok in H
  | H : map_err _ _ = Ok _ |- _ => apply map_err_Ok in H
  | H : ensure _ _ = Ok _ |- _ => apply ensure_Ok in H
  | H : assert _ = Ok _ |- _ => apply assert_Ok in H
  | H : add_w _ _ _ = Ok _ |- _ => apply add_w_Ok in H as [? ?]
  | H : sub_w _ _ = Ok _ |- _ => apply sub_w_Ok in H as [? ?]
  | H : mul_w _ _ _ = Ok _ |- _ => apply mul_w_Ok in H as [? ?]
  | H : div_w _ _ = Ok _ |- _ => apply div_w_Ok in H as [? ?]
  | H : rem_w _ _ = Ok _ |- _ => apply rem_w_Ok in H as [? ?]
  | H : Ok _ = Ok _ |- _ => injection H as H
  | H : Err _ = Ok _ |- _ => discriminate H
  | H : Panic = Ok _ |- _ => discriminate H
  | H : mret _ = Ok _ |- _ => injection H as H
  | x : unit |- _ => destruct x
  end.

(** Build a sequence that succeeds from the facts [outcome_inv] gives. *)
Ltac outcome_build :=
  repeat (apply bind_Ok; eexists; split;
    [first [apply ok_or_Ok; eassumption|apply expect_Ok; eassumption|apply (ensure_Ok _ _ tt); eassumption]|]).

(** Run the arithmetic of a sequence whose side conditions [lia] decides. *)
Ltac outcome_arith :=
  repeat first
  [ rewrite bind_ret_l
  | rewrite add_w_eq by lia | rewrite sub_w_eq by lia | rewrite mul_w_eq by lia
  | rewrite div_w_eq by lia | rewrite rem_w_eq by lia ].

(** ** Lemmas on lengths and sums *)
Lemma len_nil {A} : len (@nil A) = 0.
Proof. done. Qed.
Lemma len_cons {A} (a : A) l : len (a :: l) = 1 + len l.
Proof. unfold len. simpl. lia. Qed.
Lemma len_app {A} (l1 l2 : list A) : len (l1 ++ l2) = len l1 + len l2.
Proof. unfold len. rewrite length_app. lia. Qed.
Lemma len_nonneg {A} (l : list A) : 0 <= len l.
Proof. unfold len. lia. Qed.
Lemma sum_z_app l1 l2 : sum_z (l1 ++ l2) = sum_z l1 + sum_z l2.
Proof. induction l1 as [|a l IH]; simpl; lia. Qed.
Lemma sum_z_nonneg l : Forall (fun x => 0 <= x) l -> 0 <= sum_z l.
Proof. induction 1; simpl; lia. Qed.
Lemma sum_z_perm l1 l2 : l1 ≡ₚ l2 -> sum_z l1 = sum_z l2.
Proof. induction 1; simpl; lia. Qed.

(** ** Lemmas on lists *)
Lemma elem_of_join_fmap {A B} (f : A -> list B) l y :
  y ∈ mjoin (f <$> l) <-> exists x, x ∈ l /\ y ∈ f x.
Proof.
  rewrite list_elem_of_join. setoid_rewrite list_elem_of_fmap. naive_solver.
Qed.

(** [iter().enumerate()]. *)
Definition enumerate {A} (l : list A) : list (nat * A) := imap pair l.

Lemma range_check (P : Z -> Prop) a b :
  Forall P (seqZ a (b - a + 1)) -> forall n, a <= n <= b -> P n.
Proof. rewrite Forall_forall. intros H n Hn. apply H, elem_of_seqZ. lia. Qed.

Lemma elem_of_enumerate {A} (l : list A) i x : (i, x) ∈ enumerate l <-> l !! i = Some x.
Proof.
  unfold enumerate. rewrite list_elem_of_lookup. setoid_rewrite list_lookup_imap. split.
  - intros [j Hj]. destruct (l !! j) eqn:Hl; naive_solver.
  - intros Hx. exists i. by rewrite Hx.
Qed.

Lemma Forall2_perm {A B} (P : A -> B -> Prop) l l' k :
  Forall2 P l k -> l ≡ₚ l' -> exists k', k ≡ₚ k' /\ Forall2 P l' k'.
Proof.
  intros H Hp. revert k H. induction Hp as [|x l l' _ IH|x y l|l1 l2 l3 _ IH1 _ IH2]; intros k H.
  - exists k. split; [done|]. done.
  - inversion H as [|? b ? k0 Hb Hk]; subst. destruct (IH _ Hk) as (k' & ? & ?). exists (b :: k').
    split; [by constructor|by constructor].
  - inversion H as [|? b ? k0 Hb Hk]; subst. inversion Hk as [|? b' ? k1 Hb' Hk']; subst.
    exists (b' :: b :: k1). split; [constructor|by repeat constructor].
  - destruct (IH1 _ H) as (k1 & ? & H1). destruct (IH2 _ H1) as (k2 & ? & ?). exists k2.
    split; [by etransitivity|done].
Qed.

(** Collecting pairs with distinct keys into a map. *)
Definition insert_all {V} (m : gmap Z V) (l : list (Z * V)) : gmap Z V :=
  fold_left (fun m '(k, v) => <[k := v]> m) l m.

Lemma insert_all_lookup {V} (l : list (Z * V)) (m : gmap Z V) k v :
  NoDup l.*1 ->
  insert_all m l !! k = Some v <-> (k, v) ∈ l \/ ((k ∉ l.*1) /\ m !! k = Some v).
Proof.
  unfold insert_all. revert m. induction l as [|[h x] l IH]; intros m Hnd; simpl; [set_solver|].
  apply NoDup_cons in Hnd as [Hn Hnd]. rewrite IH by done. rewrite lookup_insert_Some.
  assert ((h, v) ∈ l -> h ∈ l.*1) by (intros ?; by eapply (list_elem_of_fmap_2' fst)).
  simpl in Hn. rewrite elem_of_cons, not_elem_of_cons.
  destruct (decide (k = h)) as [->|]; naive_solver.
Qed.

Create HintDb ckb.
Create Rewrite HintDb ckb.
#[export] Hint Rewrite @len_nil @len_cons @len_app sum_z_app : ckb.
#[export] Hint Resolve len_nonneg sum_z_nonneg : ckb.

Lemma size_list_to_set_le {A} `{Countable A} (l : list A) : (size (list_to_set l : gset A) <= length l)%nat.
Proof.
  induction l as [|x l IH]; [done|]. cbn [list_to_set length].
  pose proof (size_union_alt ({[x]} : gset A) (list_to_set l)) as Hs. rewrite size_singleton in Hs.
  assert (size (list_to_set l ∖ {[x]} : gset A) <= size (list_to_set l : gset A))%nat by (apply subseteq_size; set_solver). lia.
Qed.
