(* ===== verification/Sums.v ===== *)
(** * Finite sums

    Sums of a function over a list and over a range of integers: congruence,
    monotonicity, exchange of two sums, and the sum of an indicator. *)
From S2P Require Import Prelude.

Definition sum_of {A} (f : A -> Z) (l : list A) : Z := sum_z (f <$> l).
Definition range_sum (f : Z -> Z) (a b : Z) : Z := sum_of f (seqZ a (b - a + 1)).

Section sums.
Context {A : Type}.
Implicit Types (f g : A -> Z) (l : list A).

Lemma sum_of_cons f x l : sum_of f (x :: l) = f x + sum_of f l.
Proof. done. Qed.
Lemma sum_of_app f l1 l2 : sum_of f (l1 ++ l2) = sum_of f l1 + sum_of f l2.
Proof. unfold sum_of. by rewrite fmap_app, sum_z_app. Qed.
Lemma sum_of_le f g l : (forall x, x ∈ l -> f x <= g x) -> sum_of f l <= sum_of g l.
Proof.
  induction l as [|x l IH]; intros H; [done|]. rewrite !sum_of_cons.
  pose proof (H x (list_elem_of_here _ _)). specialize (IH (fun y Hy => H y (list_elem_of_further _ _ _ Hy))).
  lia.
Qed.
Lemma sum_of_ext f g l : (forall x, x ∈ l -> f x = g x) -> sum_of f l = sum_of g l.
Proof. intros H. apply Z.le_antisymm; apply sum_of_le; intros x Hx; by rewrite (H x Hx). Qed.
Lemma sum_of_zero l : sum_of (fun _ : A => 0) l = 0.
Proof. induction l as [|x l IH]; [done|]. by rewrite sum_of_cons, IH. Qed.
Lemma sum_of_nonneg f l : (forall x, x ∈ l -> 0 <= f x) -> 0 <= sum_of f l.
Proof. intros H. rewrite <- (sum_of_zero l). by apply sum_of_le. Qed.
Lemma sum_of_add f g l : sum_of (fun x => f x + g x) l = sum_of f l + sum_of g l.
Proof. induction l as [|x l IH]; [done|]. rewrite !sum_of_cons, IH. lia. Qed.
Lemma sum_of_elem f l x : (forall y, y ∈ l -> 0 <= f y) -> x ∈ l -> f x <= sum_of f l.
Proof.
  intros Hf Hx. apply list_elem_of_split in Hx as (l1 & l2 & ->).
  rewrite sum_of_app, sum_of_cons.
  pose proof (sum_of_nonneg f l1 ltac:(set_solver)). pose proof (sum_of_nonneg f l2 ltac:(set_solver)). lia.
Qed.

(** A value that is taken for at most one element. *)
Lemma sum_of_unique (P : A -> Prop) `{!forall x, Decision (P x)} v l :
  0 <= v -> NoDup l -> (forall x y, x ∈ l -> y ∈ l -> P x -> P y -> x = y) ->
  sum_of (fun x => if decide (P x) then v else 0) l <= v.
Proof.
  intros Hv. induction 1 as [|x l Hx Hnd IH]; intros Hu; [done|]. rewrite sum_of_cons.
  destruct (decide (P x)) as [HP|]; [|apply IH; set_solver].
  enough (sum_of (fun y => if decide (P y) then v else 0) l = 0) by lia.
  transitivity (sum_of (fun _ : A => 0) l); [|apply sum_of_zero].
  apply sum_of_ext. intros y Hy. case_decide as HPy; [|done].
  destruct Hx. by rewrite (Hu x y) by set_solver.
Qed.
End sums.

Lemma sum_of_swap {A B} (f : A -> B -> Z) (l : list A) (k : list B) :
  sum_of (fun x => sum_of (f x) k) l = sum_of (fun y => sum_of (fun x => f x y) l) k.
Proof.
  induction l as [|x l IH]; [by rewrite sum_of_zero|].
  rewrite sum_of_cons, IH, <- sum_of_add. by apply sum_of_ext.
Qed.

Section ranges.
Implicit Types (f g : Z -> Z).

Lemma elem_of_range a b x : x ∈ seqZ a (b - a + 1) <-> a <= x <= b.
Proof. rewrite elem_of_seqZ. lia. Qed.
Lemma range_sum_empty f a b : b < a -> range_sum f a b = 0.
Proof. intros H. unfold range_sum. by rewrite seqZ_nil by lia. Qed.
Lemma range_sum_first f a b : a <= b -> range_sum f a b = f a + range_sum f (a + 1) b.
Proof.
  intros H. unfold range_sum. rewrite seqZ_cons by lia. rewrite sum_of_cons.
  do 3 f_equal. lia.
Qed.
Lemma range_sum_split f a m b :
  a <= m + 1 -> m <= b -> range_sum f a b = range_sum f a m + range_sum f (m + 1) b.
Proof.
  intros H1 H2. unfold range_sum. rewrite <- sum_of_app. f_equal.
  replace (b - a + 1) with ((m - a + 1) + (b - (m + 1) + 1)) by lia.
  rewrite seqZ_app by lia. do 2 f_equal. lia.
Qed.
Lemma range_sum_one f a : range_sum f a a = f a.
Proof. rewrite range_sum_first, range_sum_empty by lia. lia. Qed.
Lemma range_sum_last f a b : a <= b -> range_sum f a b = range_sum f a (b - 1) + f b.
Proof.
  intros H. rewrite (range_sum_split f a (b - 1) b) by lia.
  replace (b - 1 + 1) with b by lia. by rewrite range_sum_one.
Qed.
Lemma range_sum_le f g a b : (forall x, a <= x <= b -> f x <= g x) -> range_sum f a b <= range_sum g a b.
Proof. intros H. apply sum_of_le. intros x Hx%elem_of_range. by apply H. Qed.
Lemma range_sum_ext f g a b : (forall x, a <= x <= b -> f x = g x) -> range_sum f a b = range_sum g a b.
Proof. intros H. apply sum_of_ext. intros x Hx%elem_of_range. by apply H. Qed.
Lemma range_sum_nonneg f a b : (forall x, a <= x <= b -> 0 <= f x) -> 0 <= range_sum f a b.
Proof. intros H. apply sum_of_nonneg. intros x Hx%elem_of_range. by apply H. Qed.
Lemma range_sum_add f g a b : range_sum (fun x => f x + g x) a b = range_sum f a b + range_sum g a b.
Proof. apply sum_of_add. Qed.
Lemma range_sum_sub f a m n b :
  a <= m -> n <= b -> (forall x, a <= x <= b -> 0 <= f x) -> range_sum f m n <= range_sum f a b.
Proof.
  intros Ha Hb Hf. destruct (decide (m <= n)).
  - rewrite (range_sum_split f a (m - 1) b), (range_sum_split f (m - 1 + 1) n b) by lia.
    replace (m - 1 + 1) with m by lia.
    pose proof (range_sum_nonneg f a (m - 1) ltac:(intros; apply Hf; lia)).
    pose proof (range_sum_nonneg f (n + 1) b ltac:(intros; apply Hf; lia)). lia.
  - rewrite range_sum_empty by lia. by apply range_sum_nonneg.
Qed.

(** A sum over a part of a range, as an indicator on the whole. *)
Lemma range_sum_indicator f a m n b :
  a <= m -> n <= b ->
  range_sum f m n = range_sum (fun x => if decide (m <= x <= n) then f x else 0) a b.
Proof.
  intros Ha Hb. destruct (decide (m <= n)) as [Hmn|Hmn].
  - rewrite (range_sum_split _ a (m - 1) b), (range_sum_split _ (m - 1 + 1) n b) by lia.
    replace (m - 1 + 1) with m by lia.
    rewrite (range_sum_ext _ (fun _ => 0) a (m - 1)) by (intros; apply decide_False; lia).
    rewrite (range_sum_ext _ (fun _ => 0) (n + 1) b) by (intros; apply decide_False; lia).
    unfold range_sum at 2 4. rewrite !sum_of_zero.
    rewrite (range_sum_ext (fun x => if decide (m <= x <= n) then f x else 0) f m n)
      by (intros; by rewrite decide_True). lia.
  - rewrite range_sum_empty by lia. symmetry.
    rewrite (range_sum_ext _ (fun _ => 0)) by (intros; apply decide_False; lia). apply sum_of_zero.
Qed.
End ranges.
