(* ===== verification/Capacity.v ===== *)
(** * Capacities

    [util/occupied-capacity/core]: the newtype [Capacity(u64)] of an amount of
    shannons with its checked operations ([units.rs]), the trait
    [OccupiedCapacity] with its instances for the standard types ([traits.rs])
    and the sum the derive macro generates for a struct ([macros]).  The class
    [OccupiedSpec] is what an instance promises to its clients: the capacity of
    a value is its size in bytes, at [BYTE_SHANNONS] shannons a byte, or the
    error [Overflow] when that is not a [u64]. *)
From S2P Require Import Prelude.

Abbreviation Capacity := Z (only parsing).

Record Ratio := mkRatio { numer : Z; denom : Z }.

Inductive CapacityError := Overflow.

#[export] Instance CapacityError_eq_dec : EqDecision CapacityError.
Proof. solve_decision. Defined.

Definition BYTE_SHANNONS : Z := 100000000.

Module CapacityOps.

Definition bytes (val : Z) : outcome CapacityError Capacity :=
  ok_or (checked_mul U64_SIZE val BYTE_SHANNONS) Overflow.

Definition safe_add (self rhs : Capacity) : outcome CapacityError Capacity :=
  ok_or (checked_add U64_SIZE self rhs) Overflow.

Definition safe_sub (self rhs : Capacity) : outcome CapacityError Capacity :=
  ok_or (checked_sub self rhs) Overflow.

Definition safe_mul (self rhs : Capacity) : outcome CapacityError Capacity :=
  ok_or (checked_mul U64_SIZE self rhs) Overflow.

Definition checked_div (a b : Z) : option Z :=
  if decide (b = 0) then None else Some (a / b).

Definition safe_mul_ratio (self : Capacity) (ratio : Ratio)
    : outcome CapacityError Capacity :=
  ok_or (ret ← checked_mul U64_SIZE self (numer ratio); checked_div ret (denom ratio))
    Overflow.

(** The sums the sources write as [try_fold(Capacity::zero(), Capacity::safe_add)]. *)
Definition safe_sum (l : list Capacity) : outcome CapacityError Capacity :=
  try_fold safe_add 0 l.

End CapacityOps.
Export CapacityOps.

(** ** The trait [OccupiedCapacity] *)
Class OccupiedCapacity (A : Type) :=
  occupied_capacity : A -> outcome CapacityError Capacity.

#[export] Instance occupied_vec {A} `{OccupiedCapacity A} : OccupiedCapacity (list A) :=
  fun self => try_fold (fun acc x => rhs ← occupied_capacity x; safe_add acc rhs) 0 self.

#[export] Instance occupied_option {A} `{OccupiedCapacity A} : OccupiedCapacity (option A) :=
  fun self => match self with None => Ok 0 | Some a => occupied_capacity a end.

Definition occupied_h256 (_ : H256) : outcome CapacityError Capacity := bytes 32.
Definition occupied_u64 (_ : Z) : outcome CapacityError Capacity := bytes 8.
Definition occupied_bytes (self : Bytes) : outcome CapacityError Capacity := bytes (len self).

(** What the derive macro expands to: each field in order is measured and
    added to the sum of the fields before it. *)
Definition derive_occupied_capacity (fields : list (outcome CapacityError Capacity))
    : outcome CapacityError Capacity :=
  fold_left (fun x field => x ← x; y ← field; safe_add x y) fields (Ok 0).

(** ** The contract of an instance *)
Class OccupiedSpec (A : Type) `{OccupiedCapacity A} (sz : A -> Z) := {
  occ_size_nonneg : forall a, 0 <= sz a;
  occ_spec : forall a, occupied_capacity a = bytes (sz a)
}.

(** ** Lemmas *)
Lemma bytes_Ok n r : bytes n = Ok r <-> r = n * BYTE_SHANNONS /\ n * BYTE_SHANNONS < U64_SIZE.
Proof. unfold bytes, checked_mul. case_decide; naive_solver. Qed.

Lemma safe_add_Ok a b r : safe_add a b = Ok r <-> r = a + b /\ a + b < U64_SIZE.
Proof. unfold safe_add, checked_add. case_decide; naive_solver. Qed.

Lemma safe_sub_Ok a b r : safe_sub a b = Ok r <-> r = a - b /\ b <= a.
Proof. unfold safe_sub, checked_sub. case_decide; naive_solver. Qed.

Lemma safe_mul_Ok a b r : safe_mul a b = Ok r <-> r = a * b /\ a * b < U64_SIZE.
Proof. unfold safe_mul, checked_mul. case_decide; naive_solver. Qed.

Lemma safe_mul_ratio_Ok a q r :
  safe_mul_ratio a q = Ok r <->
  r = a * numer q / denom q /\ a * numer q < U64_SIZE /\ denom q <> 0.
Proof.
  unfold safe_mul_ratio, checked_mul, checked_div. repeat case_decide; naive_solver.
Qed.

Ltac capacity_inv :=
  repeat (outcome_inv;
  match goal with
  | H : bytes _ = Ok _ |- _ => apply bytes_Ok in H as [? ?]
  | H : safe_add _ _ = Ok _ |- _ => apply safe_add_Ok in H as [? ?]
  | H : safe_sub _ _ = Ok _ |- _ => apply safe_sub_Ok in H as [? ?]
  | H : safe_mul _ _ = Ok _ |- _ => apply safe_mul_Ok in H as [? ?]
  | H : safe_mul_ratio _ _ = Ok _ |- _ => apply safe_mul_ratio_Ok in H as (? & ? & ?)
  end); outcome_inv.

(** Measuring two parts and adding them is measuring the whole. *)
Lemma bytes_add m n :
  0 <= m -> 0 <= n -> (x ← bytes m; y ← bytes n; safe_add x y) = bytes (m + n).
Proof.
  intros Hm Hn. unfold bytes, safe_add, checked_mul, checked_add, BYTE_SHANNONS.
  repeat (case_decide; simpl); try done; try lia; by rewrite Z.mul_add_distr_r.
Qed.

Lemma try_fold_occupied {A} `{!OccupiedCapacity A} {sz : A -> Z} `{!OccupiedSpec A sz} (l : list A) m :
  0 <= m ->
  (acc ← bytes m; try_fold (fun acc x => rhs ← occupied_capacity x; safe_add acc rhs) acc l)
  = bytes (m + sum_z (sz <$> l)).
Proof.
  revert m. induction l as [|a l IH]; intros m Hm; simpl.
  - rewrite Z.add_0_r. by destruct (bytes m).
  - pose proof (occ_size_nonneg a) as Ha. rewrite occ_spec.
    rewrite Z.add_assoc, <- IH, <- (bytes_add m) by lia.
    destruct (bytes m); simpl; [|done..]. by destruct (bytes (sz a)).
Qed.

#[export] Instance occupied_vec_spec {A} `{!OccupiedCapacity A} {sz : A -> Z} `{!OccupiedSpec A sz} :
  OccupiedSpec (list A) (fun l => sum_z (sz <$> l)).
Proof.
  split.
  - intros l. apply sum_z_nonneg, Forall_fmap, Forall_true. intros; apply occ_size_nonneg.
  - intros l. exact (try_fold_occupied l 0 ltac:(lia)).
Qed.

#[export] Instance occupied_option_spec {A} `{!OccupiedCapacity A} {sz : A -> Z} `{!OccupiedSpec A sz} :
  OccupiedSpec (option A) (from_option sz 0).
Proof.
  split; intros [a|]; simpl; try done.
  - exact (occ_size_nonneg a).
  - exact (occ_spec (A := A) a).
Qed.

Lemma derive_occupied_bytes sizes m :
  0 <= m -> Forall (fun n => 0 <= n) sizes ->
  fold_left (fun x field => x ← x; y ← field; safe_add x y) (bytes <$> sizes) (bytes m)
  = bytes (m + sum_z sizes).
Proof.
  intros Hm Hs. revert m Hm. induction Hs as [|n l Hn _ IH]; intros m Hm; simpl.
  - by rewrite Z.add_0_r.
  - rewrite bytes_add by lia. rewrite IH by lia. f_equal. lia.
Qed.

(** The capacity a derived instance computes is that of the total size of its fields. *)
Lemma derive_occupied_spec sizes :
  Forall (fun n => 0 <= n) sizes ->
  derive_occupied_capacity (bytes <$> sizes) = bytes (sum_z sizes).
Proof. exact (derive_occupied_bytes sizes 0 ltac:(lia)). Qed.

Lemma try_fold_safe_add l m :
  0 <= m < U64_SIZE -> Forall (fun x => 0 <= x) l ->
  try_fold safe_add m l =
  if decide (m + sum_z l < U64_SIZE) then Ok (m + sum_z l) else Err Overflow.
Proof.
  intros Hm Hl. revert m Hm. induction Hl as [|a l Ha Hl IH]; intros m Hm; simpl.
  - rewrite Z.add_0_r. by rewrite decide_True by lia.
  - pose proof (sum_z_nonneg l Hl). unfold safe_add at 2, checked_add.
    case_decide; simpl.
    + rewrite IH, Z.add_assoc by lia. done.
    + by rewrite decide_False by lia.
Qed.

(** A sum of capacities is exact, or it is the error [Overflow]: never a
    wrapped value, never a panic, whatever the order of the summands. *)
Lemma safe_sum_spec l :
  Forall (fun x => 0 <= x) l ->
  safe_sum l = if decide (sum_z l < U64_SIZE) then Ok (sum_z l) else Err Overflow.
Proof. intros Hl. exact (try_fold_safe_add l 0 ltac:(lia) Hl). Qed.

Lemma safe_sum_Ok l r :
  Forall (fun x => 0 <= x) l -> safe_sum l = Ok r -> r = sum_z l /\ sum_z l < U64_SIZE.
Proof. intros Hl. rewrite safe_sum_spec by done. case_decide; naive_solver. Qed.
