(* ===== verification/ByteStrings.v ===== *)
(** * Byte strings

    The conversions between machine integers and bytes the sources take from
    the standard library ([to_le_bytes], [from_le_bytes]) and from the fixed
    hash type ([as_bytes], [from_slice]): [le_split n x] is the [n] low bytes
    of [x], least significant first, and [le_combine] reads them back. *)
From S2P Require Import Prelude.

Definition is_byte (b : Z) : Prop := 0 <= b < 256.

Fixpoint le_split (n : nat) (x : Z) : Bytes :=
  match n with
  | O => []
  | S n => x mod 256 :: le_split n (x / 256)
  end.

Fixpoint le_combine (l : Bytes) : Z :=
  match l with
  | [] => 0
  | b :: l => b + 256 * le_combine l
  end.

(** [u32::to_le_bytes], [u64::to_le_bytes] and their inverses on slices; the
    conversion of a slice of the wrong length to an array fails. *)
Definition u32_to_le_bytes (x : Z) : Bytes := le_split 4 x.
Definition u64_to_le_bytes (x : Z) : Bytes := le_split 8 x.

(** [H256::as_bytes] and [H256::from_slice]. *)
Definition h256_as_bytes (h : H256) : Bytes := reverse (le_split 32 h).
Definition h256_from_slice (b : Bytes) : option H256 :=
  if decide (length b = 32%nat) then Some (le_combine (reverse b)) else None.

(** The slice [l[a..b]] of a vector, which panics when it is out of range. *)
Definition slice {E A} (l : list A) (a b : nat) : outcome E (list A) :=
  if decide (a <= b /\ b <= length l)%nat then Ok (take (b - a) (drop a l)) else Panic.

Arguments h256_as_bytes h : simpl never.
Arguments h256_from_slice b : simpl never.
Arguments u32_to_le_bytes x : simpl never.
Arguments u64_to_le_bytes x : simpl never.

(** ** Lemmas *)
Lemma length_le_split n x : length (le_split n x) = n.
Proof. revert x. induction n as [|n IH]; intros x; simpl; auto. Qed.

Lemma le_split_bytes n x : Forall is_byte (le_split n x).
Proof.
  revert x. induction n as [|n IH]; intros x; simpl; constructor; auto.
  unfold is_byte. pose proof (Z.mod_pos_bound x 256). lia.
Qed.

Lemma le_combine_split n x : le_combine (le_split n x) = x mod 256 ^ Z.of_nat n.
Proof.
  revert x. induction n as [|n IH]; intros x.
  - simpl. by rewrite Z.mod_1_r.
  - simpl le_split. simpl le_combine. rewrite IH.
    rewrite Nat2Z.inj_succ, Z.pow_succ_r by lia.
    rewrite Z.rem_mul_r by (lia || (apply Z.pow_nonzero; lia)). lia.
Qed.

Lemma le_split_combine l :
  Forall is_byte l -> le_split (length l) (le_combine l) = l.
Proof.
  induction 1 as [|b l Hb _ IH]; simpl; [done|]. unfold is_byte in Hb.
  assert ((b + 256 * le_combine l) mod 256 = b) as ->.
  { rewrite Z.mul_comm, Z.mod_add by lia. by apply Z.mod_small. }
  assert ((b + 256 * le_combine l) / 256 = le_combine l) as ->; [|by rewrite IH].
  rewrite Z.mul_comm, Z.div_add, (Z.div_small b) by lia. lia.
Qed.

Lemma le_combine_bound l :
  Forall is_byte l -> 0 <= le_combine l < 256 ^ len l.
Proof.
  unfold len. induction 1 as [|b l Hb _ IH]; simpl length; [simpl; lia|].
  unfold is_byte in Hb. simpl le_combine.
  rewrite Nat2Z.inj_succ, Z.pow_succ_r by lia. lia.
Qed.

Lemma le_combine_split_range n x :
  0 <= x < 256 ^ Z.of_nat n -> le_combine (le_split n x) = x.
Proof. intros. rewrite le_combine_split. by apply Z.mod_small. Qed.

Lemma length_h256_as_bytes h : length (h256_as_bytes h) = 32%nat.
Proof. unfold h256_as_bytes. by rewrite length_reverse, length_le_split. Qed.

Lemma h256_from_as_bytes h : u256 h -> h256_from_slice (h256_as_bytes h) = Some h.
Proof.
  intros Hh. unfold h256_from_slice. rewrite decide_True by apply length_h256_as_bytes.
  unfold h256_as_bytes. rewrite reverse_involutive. f_equal.
  by apply le_combine_split_range.
Qed.

Lemma h256_as_from_slice b h :
  Forall is_byte b -> h256_from_slice b = Some h -> h256_as_bytes h = b /\ u256 h.
Proof.
  unfold h256_from_slice. intros Hb. case_decide as Hl; intros [= <-].
  apply Forall_reverse in Hb as Hr.
  unfold h256_as_bytes. split.
  - rewrite <- Hl, <- length_reverse, le_split_combine by done. apply reverse_involutive.
  - pose proof (le_combine_bound _ Hr) as Hc. unfold len in Hc.
    by rewrite length_reverse, Hl in Hc.
Qed.

Lemma slice_Ok {E A} (l : list A) a b s :
  slice (E := E) l a b = Ok s <-> s = take (b - a) (drop a l) /\ (a <= b /\ b <= length l)%nat.
Proof. unfold slice. case_decide; naive_solver. Qed.

#[export] Hint Rewrite length_le_split length_h256_as_bytes : ckb.
#[export] Hint Resolve le_split_bytes : ckb.
