(* ===== verification/Transactions.v ===== *)
(** * Scripts, out points, cells and transactions

    [core/src/script.rs] and [core/src/transaction.rs]: the data of a
    transaction, the sizes and capacities computed from it, the key a cell is
    stored under and the identifiers the rest of the node uses.  The hash
    function [blake2b_256] and the encoder [bincode::serialize] are code of
    other packages: they are arguments of the definitions that call them. *)
From S2P Require Import Prelude Capacity ByteStrings.

(** ** Scripts *)
Record Script := mkScript { script_args : list Bytes; script_code_hash : H256 }.

#[export] Instance Script_eq_dec : EqDecision Script.
Proof. solve_decision. Defined.

(** "NERVOSDAOCODE0001" and "NERVOSDAOINPUT0001" in hexadecimal. *)
Definition DAO_CODE_HASH : H256 := 0x4e4552564f5344414f434f444530303031.
Definition ISSUING_DAO_HASH : H256 := 0x4e4552564f5344414f494e50555430303031.
Definition TX_VERSION : Z := 0.

Definition into_witness (self : Script) : list Bytes :=
  h256_as_bytes (script_code_hash self) :: script_args self.

Definition from_witness (witness : list Bytes) : option Script :=
  match witness with
  | [] => None
  | code_hash :: args =>
      code_hash ← h256_from_slice code_hash; Some (mkScript args code_hash)
  end.

(** [blake2b] is the digest of the bytes fed to the hasher, in order. *)
Definition Script_hash (blake2b : Bytes -> H256) (self : Script) : H256 :=
  blake2b (h256_as_bytes (script_code_hash self) ++ concat (script_args self)).

Definition Script_serialized_size (self : Script) : Z :=
  sum_z (len <$> script_args self) + 32.

Definition Script_occupied_capacity (self : Script) : outcome CapacityError Capacity :=
  derive_occupied_capacity
    [@occupied_vec Bytes occupied_bytes (script_args self);
     occupied_h256 (script_code_hash self)].
#[export] Instance Script_occupied : OccupiedCapacity Script := Script_occupied_capacity.

(** ** Out points *)
Record CellOutPoint := mkCellOutPoint { cop_tx_hash : H256; cop_index : Z }.
Record OutPoint := mkOutPoint { op_cell : option CellOutPoint; op_block_hash : option H256 }.

#[export] Instance CellOutPoint_eq_dec : EqDecision CellOutPoint.
Proof. solve_decision. Defined.
#[export] Instance CellOutPoint_countable : Countable CellOutPoint.
Proof.
  refine (inj_countable' (fun o => (cop_tx_hash o, cop_index o))
            (fun p => mkCellOutPoint p.1 p.2) _). by intros [].
Defined.
#[export] Instance OutPoint_eq_dec : EqDecision OutPoint.
Proof. solve_decision. Defined.
#[export] Instance OutPoint_countable : Countable OutPoint.
Proof.
  refine (inj_countable' (fun o => (op_cell o, op_block_hash o))
            (fun p => mkOutPoint p.1 p.2) _). by intros [].
Defined.

Definition OutPoint_new (block_hash tx_hash : H256) (index : Z) : OutPoint :=
  mkOutPoint (Some (mkCellOutPoint tx_hash index)) (Some block_hash).
Definition new_cell (tx_hash : H256) (index : Z) : OutPoint :=
  mkOutPoint (Some (mkCellOutPoint tx_hash index)) None.
Definition new_block_hash (block_hash : H256) : OutPoint :=
  mkOutPoint None (Some block_hash).
Definition new_issuing_dao : OutPoint := new_cell ISSUING_DAO_HASH 0.
Definition OutPoint_null : OutPoint := mkOutPoint None None.

Definition is_null (self : OutPoint) : bool :=
  match op_cell self, op_block_hash self with None, None => true | _, _ => false end.

Definition is_issuing_dao (self : OutPoint) : bool :=
  match op_block_hash self, op_cell self with
  | None, Some cell =>
      bool_decide (cop_tx_hash cell = ISSUING_DAO_HASH) && bool_decide (cop_index cell = 0)
  | _, _ => false
  end.

Definition OutPoint_serialized_size (self : OutPoint) : Z :=
  from_option (fun _ => 36) 0 (op_cell self) + from_option (fun _ => 32) 0 (op_block_hash self).

(** *** The key of a cell in the store *)
Definition CellKey_calculate (tx_hash : H256) (index : Z) : Bytes :=
  h256_as_bytes tx_hash ++ u32_to_le_bytes index.

Definition CellKey_deconstruct {E} (bytes : Bytes) : outcome E CellOutPoint :=
  h ← slice bytes 0 32;
  tx_hash ← expect (h256_from_slice h);
  le_bytes ← slice bytes 32 36;
  Ok (mkCellOutPoint tx_hash (le_combine le_bytes)).

(** ** Inputs and outputs *)
Record CellInput := mkCellInput { ci_previous_output : OutPoint; ci_since : Z }.
Record CellOutput := mkCellOutput {
  co_capacity : Capacity; co_data : Bytes; co_lock : Script; co_type : option Script }.

#[export] Instance CellInput_eq_dec : EqDecision CellInput.
Proof. solve_decision. Defined.
#[export] Instance CellOutput_eq_dec : EqDecision CellOutput.
Proof. solve_decision. Defined.

Definition new_cellbase_input (block_number : Z) : CellInput :=
  mkCellInput OutPoint_null block_number.

Definition CellInput_serialized_size (self : CellInput) : Z :=
  OutPoint_serialized_size (ci_previous_output self) + 8.

Definition CellOutput_serialized_size (self : CellOutput) : Z :=
  8 + len (co_data self) + Script_serialized_size (co_lock self)
  + from_option Script_serialized_size 0 (co_type self).

Definition CellOutput_occupied_capacity (self : CellOutput) : outcome CapacityError Capacity :=
  derive_occupied_capacity
    [occupied_u64 (co_capacity self); occupied_bytes (co_data self);
     occupied_capacity (co_lock self); occupied_capacity (co_type self)].
#[export] Instance CellOutput_occupied : OccupiedCapacity CellOutput :=
  CellOutput_occupied_capacity.

Definition is_lack_of_capacity (self : CellOutput) : outcome CapacityError bool :=
  cap ← occupied_capacity self; Ok (bool_decide (co_capacity self < cap)).

Definition data_hash (blake2b_256 : Bytes -> H256) (self : CellOutput) : H256 :=
  blake2b_256 (co_data self).

(** ** Transactions *)
Record Transaction := mkTransaction {
  tx_version : Z;
  tx_deps : list OutPoint;
  tx_inputs : list CellInput;
  tx_outputs : list CellOutput;
  tx_witnesses : list (list Bytes);
  tx_hash : H256;
  tx_witness_hash : H256
}.
Record RawTransaction := mkRawTransaction {
  raw_tx_version : Z; raw_tx_deps : list OutPoint;
  raw_tx_inputs : list CellInput; raw_tx_outputs : list CellOutput }.

#[export] Instance Transaction_eq_dec : EqDecision Transaction.
Proof. solve_decision. Defined.

(** [serialize_tx] encodes the fields of a transaction that are not marked
    [serde(skip)], that is all but the two hashes. *)
Definition Transaction_new (blake2b_256 : Bytes -> H256)
    (serialize_raw : RawTransaction -> Bytes)
    (serialize_tx : RawTransaction -> list (list Bytes) -> Bytes)
    (version : Z) (deps : list OutPoint) (inputs : list CellInput)
    (outputs : list CellOutput) (witnesses : list (list Bytes)) : Transaction :=
  let raw := mkRawTransaction version deps inputs outputs in
  mkTransaction version deps inputs outputs witnesses
    (blake2b_256 (serialize_raw raw)) (blake2b_256 (serialize_tx raw witnesses)).

(** [PartialEq for Transaction]. *)
Definition Transaction_eqb (self other : Transaction) : bool :=
  bool_decide (tx_witness_hash self = tx_witness_hash other).

Definition is_cellbase (self : Transaction) : bool :=
  bool_decide (length (tx_inputs self) = 1%nat)
  && bool_decide (length (tx_outputs self) = 1%nat)
  && bool_decide (length (tx_witnesses self) = 1%nat)
  && from_option (fun i => is_null (ci_previous_output i)) false (head (tx_inputs self)).

Definition is_withdrawing_from_dao (self : Transaction) : bool :=
  existsb (fun input => is_issuing_dao (ci_previous_output input)) (tx_inputs self).

Definition output_pts (self : Transaction) : list OutPoint :=
  (fun x => new_cell (tx_hash self) (cast U32_SIZE (Z.of_nat x)))
    <$> seq 0 (length (tx_outputs self)).

Definition input_pts (self : Transaction) : list OutPoint :=
  ci_previous_output <$> tx_inputs self.

Definition tx_is_empty (self : Transaction) : bool :=
  match tx_inputs self, tx_outputs self with
  | _ :: _, _ :: _ => false | _, _ => true
  end.

Definition get_output (self : Transaction) (i : Z) : option CellOutput :=
  tx_outputs self !! Z.to_nat i.

Definition outputs_capacity (self : Transaction) : outcome CapacityError Capacity :=
  safe_sum (co_capacity <$> tx_outputs self).

Definition Transaction_serialized_size (self : Transaction) : Z :=
  4 + sum_z (OutPoint_serialized_size <$> tx_deps self)
  + sum_z (CellInput_serialized_size <$> tx_inputs self)
  + sum_z (CellOutput_serialized_size <$> tx_outputs self)
  + sum_z (len <$> concat (tx_witnesses self)).

(** *** Proposal short ids: the first ten bytes of the hash *)
Definition from_tx_hash (h : H256) : Bytes := take 10 (h256_as_bytes h).
Definition proposal_short_id (self : Transaction) : Bytes := from_tx_hash (tx_hash self).

(** ** Lemmas *)
Lemma bytes_occupied_spec : @OccupiedSpec Bytes occupied_bytes len.
Proof. split; [apply len_nonneg|done]. Qed.

Lemma Script_serialized_size_nonneg s : 0 <= Script_serialized_size s.
Proof.
  unfold Script_serialized_size.
  pose proof (@occ_size_nonneg _ _ _
    (@occupied_vec_spec Bytes occupied_bytes len bytes_occupied_spec) (script_args s)).
  simpl in *. lia.
Qed.

#[export] Instance Script_occupied_spec : OccupiedSpec Script Script_serialized_size.
Proof.
  split; [apply Script_serialized_size_nonneg|]. intros s.
  unfold occupied_capacity, Script_occupied, Script_occupied_capacity.
  pose proof (@occupied_vec_spec Bytes occupied_bytes len bytes_occupied_spec) as Hvec.
  pose proof (@occ_spec _ _ _ Hvec (script_args s)) as Hargs.
  pose proof (@occ_size_nonneg _ _ _ Hvec (script_args s)) as Hnn.
  unfold occupied_capacity in Hargs. rewrite Hargs.
  unfold occupied_h256.
  etransitivity; [apply (derive_occupied_spec [sum_z (len <$> script_args s); 32])|].
  - repeat constructor; try done; lia.
  - f_equal.
Qed.

#[export] Instance CellOutput_occupied_spec : OccupiedSpec CellOutput CellOutput_serialized_size.
Proof.
  split.
  - intros o. unfold CellOutput_serialized_size.
    pose proof (len_nonneg (co_data o)). pose proof (occ_size_nonneg (co_lock o)).
    pose proof (occ_size_nonneg (co_type o)). simpl in *. lia.
  - intros o. unfold occupied_capacity, CellOutput_occupied, CellOutput_occupied_capacity.
    rewrite (occ_spec (co_lock o)), (occ_spec (co_type o)).
    unfold occupied_u64, occupied_bytes.
    etransitivity; [apply (derive_occupied_spec [8; len (co_data o); _; _])|].
    + repeat constructor; auto using len_nonneg, Script_serialized_size_nonneg; try lia.
      apply (occ_size_nonneg (co_type o)).
    + f_equal. unfold CellOutput_serialized_size. simpl. lia.
Qed.

(** The size a cell must pay for is its serialized size. *)
Lemma is_lack_of_capacity_spec o :
  is_lack_of_capacity o =
  if decide (CellOutput_serialized_size o * BYTE_SHANNONS < U64_SIZE)
  then Ok (bool_decide (co_capacity o < CellOutput_serialized_size o * BYTE_SHANNONS))
  else Err Overflow.
Proof.
  unfold is_lack_of_capacity. rewrite occ_spec. unfold bytes, checked_mul.
  by case_decide.
Qed.

Lemma CellKey_calculate_deconstruct {E} h i :
  u256 h -> u32 i -> CellKey_deconstruct (E := E) (CellKey_calculate h i) = Ok (mkCellOutPoint h i).
Proof.
  intros Hh Hi. unfold CellKey_deconstruct, CellKey_calculate, slice, u32_to_le_bytes.
  rewrite !decide_True
    by (rewrite length_app, length_h256_as_bytes, length_le_split; lia).
  rewrite bind_ret_l, drop_0, take_app_length' by (rewrite length_h256_as_bytes; lia).
  rewrite h256_from_as_bytes by done. unfold expect. rewrite !bind_ret_l.
  rewrite drop_app_length' by (by rewrite length_h256_as_bytes).
  rewrite take_ge by (rewrite length_le_split; lia).
  by rewrite le_combine_split_range.
Qed.

Lemma CellKey_deconstruct_calculate {E} b o :
  length b = 36%nat -> Forall is_byte b -> CellKey_deconstruct (E := E) b = Ok o ->
  CellKey_calculate (cop_tx_hash o) (cop_index o) = b.
Proof.
  intros Hlen Hb H. unfold CellKey_deconstruct in H. outcome_inv.
  apply slice_Ok in H0 as [-> _], H2 as [-> _]. subst o.
  rewrite drop_0, Nat.sub_0_r in H1.
  apply h256_as_from_slice in H1 as [H1 _]; [|by apply Forall_take].
  unfold CellKey_calculate, u32_to_le_bytes. cbn [cop_tx_hash cop_index].
  assert (length (drop 32 b) = 4%nat) as Hd by (rewrite length_drop; lia).
  rewrite (take_ge (drop 32 b)) by lia.
  pose proof (le_split_combine (drop 32 b) (Forall_drop _ _ _ Hb)) as Hs.
  rewrite Hd in Hs. rewrite H1, Hs. apply take_drop.
Qed.

Lemma from_into_witness s :
  u256 (script_code_hash s) -> from_witness (into_witness s) = Some s.
Proof. intros Hs. unfold from_witness, into_witness. rewrite h256_from_as_bytes by done. by destruct s. Qed.

Lemma into_from_witness w s :
  Forall (Forall is_byte) w -> from_witness w = Some s -> into_witness s = w.
Proof.
  destruct w as [|c args]; [done|]. intros [Hc _]%Forall_cons. unfold from_witness.
  destruct (h256_from_slice c) as [h|] eqn:Hh; [|done]. intros [= <-].
  apply h256_as_from_slice in Hh as [Hh _]; [|done]. unfold into_witness; simpl. by f_equal.
Qed.

Lemma length_output_pts tx : length (output_pts tx) = length (tx_outputs tx).
Proof. unfold output_pts. by rewrite length_fmap, length_seq. Qed.

Lemma is_cellbase_inv tx :
  is_cellbase tx = true -> exists i o w,
    tx_inputs tx = [i] /\ tx_outputs tx = [o] /\ tx_witnesses tx = [w] /\
    ci_previous_output i = OutPoint_null.
Proof.
  unfold is_cellbase. rewrite !andb_true_iff, !bool_decide_eq_true.
  intros [[[Hi Ho] Hw] Hn].
  destruct (tx_inputs tx) as [|[[[] []] s] []], (tx_outputs tx) as [|? []],
    (tx_witnesses tx) as [|? []]; simplify_eq/=. eauto 10.
Qed.
