(* ===== verification/Blocks.v ===== *)
(** * Headers, uncles and blocks

    [core/src/header.rs], [core/src/uncle.rs], [core/src/block.rs] and the
    extra data a block is stored with ([core/src/extras.rs]).  As in
    [Transactions], the hash function and the encoder are arguments. *)
From S2P Require Import Prelude Capacity ByteStrings Transactions.

Definition HEADER_VERSION : Z := 0.

Record Seal := mkSeal { seal_nonce : Z; seal_proof : Bytes }.

Record RawHeader := mkRawHeader {
  raw_version : Z;
  raw_parent_hash : H256;
  raw_timestamp : Z;
  raw_number : Z;
  raw_transactions_root : H256;
  raw_proposals_hash : H256;
  raw_witnesses_root : H256;
  raw_difficulty : Z;
  raw_uncles_hash : H256;
  raw_uncles_count : Z;
  raw_epoch : Z
}.

Record Header := mkHeader { h_raw : RawHeader; h_seal : Seal; h_hash : H256 }.

#[export] Instance Seal_eq_dec : EqDecision Seal.
Proof. solve_decision. Defined.
#[export] Instance RawHeader_eq_dec : EqDecision RawHeader.
Proof. solve_decision. Defined.
#[export] Instance Header_eq_dec : EqDecision Header.
Proof. solve_decision. Defined.

Definition pow_hash (blake2b_256 : Bytes -> H256) (serialize : RawHeader -> Bytes)
    (self : RawHeader) : H256 := blake2b_256 (serialize self).

(** [serialize] encodes the raw header and the seal; the hash is skipped. *)
Definition Header_new (blake2b_256 : Bytes -> H256) (serialize : RawHeader -> Seal -> Bytes)
    (raw : RawHeader) (seal : Seal) : Header :=
  mkHeader raw seal (blake2b_256 (serialize raw seal)).

Definition h_version (self : Header) : Z := raw_version (h_raw self).
Definition h_number (self : Header) : Z := raw_number (h_raw self).
Definition h_epoch (self : Header) : Z := raw_epoch (h_raw self).
Definition h_difficulty (self : Header) : Z := raw_difficulty (h_raw self).
Definition h_timestamp (self : Header) : Z := raw_timestamp (h_raw self).
Definition h_parent_hash (self : Header) : H256 := raw_parent_hash (h_raw self).
Definition h_transactions_root (self : Header) : H256 := raw_transactions_root (h_raw self).
Definition h_witnesses_root (self : Header) : H256 := raw_witnesses_root (h_raw self).
Definition h_proposals_hash (self : Header) : H256 := raw_proposals_hash (h_raw self).
Definition h_uncles_hash (self : Header) : H256 := raw_uncles_hash (h_raw self).
Definition h_uncles_count (self : Header) : Z := raw_uncles_count (h_raw self).
Definition h_is_genesis (self : Header) : bool := bool_decide (h_number self = 0).

Definition RawHeader_serialized_size : Z := 4 + 32 * 5 + 32 + 8 * 3 + 4.
Definition Header_serialized_size (proof_size : Z) : Z :=
  RawHeader_serialized_size + proof_size + 8.

(** ** Uncles *)
Record UncleBlock := mkUncleBlock { uncle_header : Header; uncle_proposals : list Bytes }.

Definition uncle_hash (self : UncleBlock) : H256 := h_hash (uncle_header self).
Definition uncle_number (self : UncleBlock) : Z := h_number (uncle_header self).

Definition UncleBlock_serialized_size (self : UncleBlock) (proof_size : Z) : Z :=
  Header_serialized_size proof_size.

Definition uncles_hash (blake2b_256 : Bytes -> H256) (serialize : list UncleBlock -> Bytes)
    (uncles : list UncleBlock) : H256 :=
  match uncles with [] => 0 | _ => blake2b_256 (serialize uncles) end.

(** ** Blocks *)
Record Block := mkBlock {
  b_header : Header;
  b_uncles : list UncleBlock;
  b_transactions : list Transaction;
  b_proposals : list Bytes
}.

#[export] Instance UncleBlock_eq_dec : EqDecision UncleBlock.
Proof. solve_decision. Defined.
#[export] Instance Block_eq_dec : EqDecision Block.
Proof. solve_decision. Defined.

Definition b_hash (self : Block) : H256 := h_hash (b_header self).
Definition b_number (self : Block) : Z := h_number (b_header self).
Definition b_parent (self : Block) : H256 := h_parent_hash (b_header self).

Definition uncle_from_block (block : Block) : UncleBlock :=
  mkUncleBlock (b_header block) (b_proposals block).

(** [blake2b] is the digest of the ids fed to the hasher one after the other. *)
Definition cal_proposals_hash (blake2b : Bytes -> H256) (vec : list Bytes) : H256 :=
  match vec with [] => 0 | _ => blake2b (concat vec) end.
Definition cal_transactions_root (merkle_root : list H256 -> H256) (vec : list Transaction) : H256 :=
  merkle_root (tx_hash <$> vec).
Definition cal_witnesses_root (merkle_root : list H256 -> H256) (vec : list Transaction) : H256 :=
  merkle_root (tx_witness_hash <$> vec).

Definition cellbase {E} (self : Block) : outcome E Transaction :=
  expect (head (b_transactions self)).

Definition union_proposal_ids (self : Block) : gset Bytes :=
  fold_left (fun ids uc => ids ∪ list_to_set (uncle_proposals uc)) (b_uncles self)
    (list_to_set (b_proposals self)).

Definition Block_serialized_size (self : Block) (proof_size : Z) : Z :=
  Header_serialized_size proof_size
  + sum_z ((fun u => UncleBlock_serialized_size u proof_size) <$> b_uncles self)
  + len (b_proposals self) * 10
  + sum_z (Transaction_serialized_size <$> b_transactions self).

Definition Block_outputs_capacity (self : Block) : outcome CapacityError Capacity :=
  try_fold (fun capacity tx => c ← outputs_capacity tx; safe_add capacity c)
    0 (b_transactions self).

(** [BlockBuilder::build]: the header is given the roots of the body. *)
Definition BlockBuilder_build (blake2b_256 : Bytes -> H256)
    (serialize : RawHeader -> Seal -> Bytes) (serialize_uncles : list UncleBlock -> Bytes)
    (merkle_root : list H256 -> H256)
    (raw : RawHeader) (seal : Seal) (uncles : list UncleBlock)
    (transactions : list Transaction) (proposals : list Bytes) : Block :=
  let transactions_root := cal_transactions_root merkle_root transactions in
  let witnesses_root := cal_witnesses_root merkle_root transactions in
  let proposals_hash := cal_proposals_hash blake2b_256 proposals in
  let uncles_hash := uncles_hash blake2b_256 serialize_uncles uncles in
  let raw := mkRawHeader (raw_version raw) (raw_parent_hash raw) (raw_timestamp raw)
    (raw_number raw) transactions_root proposals_hash witnesses_root (raw_difficulty raw)
    uncles_hash (cast U32_SIZE (len uncles)) (raw_epoch raw) in
  mkBlock (Header_new blake2b_256 serialize raw seal) uncles transactions proposals.

(** ** What is stored beside a block *)
Record DaoStats := mkDaoStats { accumulated_rate : Z; accumulated_capacity : Z }.
Record BlockExt := mkBlockExt {
  received_at : Z;
  total_difficulty : Z;
  total_uncles_count : Z;
  verified : option bool;
  dao_stats : DaoStats;
  txs_fees : list Capacity
}.
Definition DEFAULT_ACCUMULATED_RATE : Z := 10000000000000000.

#[export] Instance DaoStats_eq_dec : EqDecision DaoStats.
Proof. solve_decision. Defined.
#[export] Instance BlockExt_eq_dec : EqDecision BlockExt.
Proof. solve_decision. Defined.

(** ** Lemmas *)
Lemma elem_of_union_proposal_ids b id :
  id ∈ union_proposal_ids b <->
  id ∈ b_proposals b \/ exists u, u ∈ b_uncles b /\ id ∈ uncle_proposals u.
Proof.
  unfold union_proposal_ids.
  cut (forall (acc : gset Bytes) us,
    id ∈ fold_left (fun ids uc => ids ∪ list_to_set (uncle_proposals uc)) us acc <->
    id ∈ acc \/ exists u, u ∈ us /\ id ∈ uncle_proposals u).
  { intros H. rewrite H. by rewrite elem_of_list_to_set. }
  intros acc us. revert acc. induction us as [|u us IH]; intros acc; simpl; [set_solver|].
  rewrite IH. set_solver.
Qed.

(** Per-transaction sums never hide an overflow: the capacity of a block is
    the sum of all its outputs or the error. *)
Lemma Block_outputs_capacity_Ok b r :
  Forall (fun tx => Forall (fun o => 0 <= co_capacity o) (tx_outputs tx)) (b_transactions b) ->
  Block_outputs_capacity b = Ok r ->
  r = sum_z (co_capacity <$> mjoin (tx_outputs <$> b_transactions b)) /\ r < U64_SIZE.
Proof.
  unfold Block_outputs_capacity. intros Hnn Hr.
  cut (Forall (fun tx => Forall (fun o => 0 <= co_capacity o) (tx_outputs tx)) (b_transactions b)
       -> r = sum_z (co_capacity <$> mjoin (tx_outputs <$> b_transactions b)) /\ r < U64_SIZE);
    [by auto|]. clear Hnn.
  refine (try_fold_inv _ (fun txs acc =>
    Forall (fun tx => Forall (fun o => 0 <= co_capacity o) (tx_outputs tx)) txs ->
    acc = sum_z (co_capacity <$> mjoin (tx_outputs <$> txs)) /\ acc < U64_SIZE) _ _ _ _ _ Hr).
  - done.
  - intros done tx acc acc' IH Hacc [Hd [Ht _]%Forall_cons]%Forall_app. capacity_inv.
    destruct (IH Hd) as [-> _]. apply safe_sum_Ok in H as [-> _]; [|by apply Forall_fmap].
    rewrite fmap_app, join_app, fmap_app, sum_z_app. simpl. rewrite app_nil_r. lia.
Qed.
