(* ===== verification/Fixtures.v ===== *)
(** * Small transactions and blocks

    Concrete data for the witnesses of the theorems: transactions identified by
    a small number as their hash, with plain outputs, and blocks of them; and
    the tactic that decides a closed, decidable statement by computation. *)
From S2P Require Import Prelude Capacity Transactions Blocks.

Ltac by_compute := refine (bool_decide_unpack _ _); vm_compute; exact I.

Definition simple_script : Script := mkScript [] 0.
Definition simple_output (capacity : Z) : CellOutput := mkCellOutput capacity [] simple_script None.
Definition simple_tx (hash : H256) (inputs : list OutPoint) (outputs : nat) : Transaction :=
  mkTransaction 0 [] ((fun o => mkCellInput o 0) <$> inputs)
    (replicate outputs (simple_output 10000000000)) [] hash hash.
Definition simple_header (number : Z) (parent hash : H256) : Header :=
  mkHeader (mkRawHeader 0 parent (1000 * number) number 0 0 0 1 0 0 0) (mkSeal 0 []) hash.
Definition simple_block (number : Z) (parent hash : H256) (txs : list Transaction) : Block :=
  mkBlock (simple_header number parent hash) [] txs [].

(** The value of an outcome that is known to be one. *)
Definition ok_value {E A} (d : A) (m : outcome E A) : A := match m with Ok a => a | _ => d end.

Lemma ok_value_eq {E A} (d : A) (m : outcome E A) : is_ok m = true -> m = Ok (ok_value d m).
Proof. by destruct m. Qed.

Lemma ok_pair_eq {E A B} (d : A * B) (m : outcome E (A * B)) :
  is_ok m = true -> m = Ok ((ok_value d m).1, (ok_value d m).2).
Proof. by destruct m as [[]| |]. Qed.
