(* ===== verification/Protocol.v ===== *)
(** * The messages of the network

    [protocol/src/protocol.fbs] declares the tables and structs of the messages,
    [builder.rs] fills them and [convert.rs] reads them back.  A field of a
    table that holds an offset may be absent, so it is an [option]; a struct has
    all of its bytes.  The bytes on the wire, written and checked by the package
    [flatbuffers] and by generated code, are not modelled. *)
From S2P Require Import Prelude Capacity ByteStrings Transactions Blocks Fixtures.

(** ** The tables *)
Abbreviation FbsH256 := Bytes (only parsing).
Abbreviation FbsProposalShortId := Bytes (only parsing).

Record FbsBytes := mkFbsBytes { fb_seq : option Bytes }.
Record FbsHeader := mkFbsHeader {
  fh_version : Z;
  fh_parent_hash : option FbsH256;
  fh_timestamp : Z;
  fh_number : Z;
  fh_transactions_root : option FbsH256;
  fh_witnesses_root : option FbsH256;
  fh_proposals_hash : option FbsH256;
  fh_difficulty : option FbsBytes;
  fh_nonce : Z;
  fh_proof : option FbsBytes;
  fh_uncles_hash : option FbsH256;
  fh_uncles_count : Z;
  fh_epoch : Z
}.
Record FbsUncleBlock := mkFbsUncle { fu_header : option FbsHeader; fu_proposals : option (list FbsProposalShortId) }.
Record FbsScript := mkFbsScript { fs_args : option (list FbsBytes); fs_code_hash : option FbsH256 }.
Record FbsOutPoint := mkFbsOutPoint { fo_block_hash : option FbsH256; fo_tx_hash : option FbsH256; fo_index : Z }.
Record FbsCellInput := mkFbsCellInput {
  fi_block_hash : option FbsH256; fi_tx_hash : option FbsH256; fi_index : Z; fi_since : Z }.
Record FbsCellOutput := mkFbsCellOutput {
  fc_capacity : Z; fc_data : option FbsBytes; fc_lock : option FbsScript; fc_type : option FbsScript }.
Record FbsWitness := mkFbsWitness { fw_data : option (list FbsBytes) }.
Record FbsTransaction := mkFbsTransaction {
  ft_version : Z;
  ft_deps : option (list FbsOutPoint);
  ft_inputs : option (list FbsCellInput);
  ft_outputs : option (list FbsCellOutput);
  ft_witnesses : option (list FbsWitness)
}.
Record FbsBlock := mkFbsBlock {
  fbk_header : option FbsHeader;
  fbk_uncles : option (list FbsUncleBlock);
  fbk_transactions : option (list FbsTransaction);
  fbk_proposals : option (list FbsProposalShortId)
}.
Record FbsIndexTransaction := mkFbsIndexTx { fx_index : Z; fx_transaction : option FbsTransaction }.
Record FbsCompactBlock := mkFbsCompact {
  fk_header : option FbsHeader;
  fk_nonce : Z;
  fk_short_ids : option (list FbsBytes);
  fk_prefilled_transactions : option (list FbsIndexTransaction);
  fk_uncles : option (list FbsUncleBlock);
  fk_proposals : option (list FbsProposalShortId)
}.
Record FbsRelayTransaction := mkFbsRelayTx { fr_cycles : Z; fr_transaction : option FbsTransaction }.

(** The payloads of the two protocols.  A payload of another kind, or none, is
    an error for the receiver. *)
Inductive FbsSyncMessage :=
| FbsGetHeaders (version : Z) (block_locator_hashes : option (list FbsH256))
| FbsHeaders (headers : option (list FbsHeader))
| FbsGetBlocks (block_hashes : option (list FbsH256))
| FbsSyncBlock (block : FbsBlock)
| FbsSyncOther.
Inductive FbsRelayMessage :=
| FbsRelayCompactBlock (block : FbsCompactBlock)
| FbsRelayTx (tx : FbsRelayTransaction)
| FbsRelayTransactionHash (tx_hash : option FbsH256)
| FbsGetRelayTransaction (tx_hash : option FbsH256)
| FbsGetBlockTransactions (block_hash : option FbsH256) (indexes : option (list Z))
| FbsBlockTransactions (block_hash : option FbsH256) (transactions : option (list FbsTransaction))
| FbsGetBlockProposal (block_number : Z) (proposals : option (list FbsProposalShortId))
| FbsBlockProposal (transactions : option (list FbsTransaction))
| FbsRelayNone.

Inductive ConvertError := Malformed | InvalidSlice.

(** [cast!] *)
Definition fbs_cast {A} (o : option A) : outcome ConvertError A := ok_or o Malformed.

(** ** [builder.rs] *)
Definition uint_to_bytes (uint : Z) : Bytes := le_split 32 uint.
Definition fbs_bytes (seq : Bytes) : FbsBytes := mkFbsBytes (Some seq).
Definition fbs_h256 (h256 : H256) : FbsH256 := h256_as_bytes h256.
Definition fbs_short_id (short_id : Bytes) : FbsProposalShortId := short_id.

Definition fbs_header (header : Header) : FbsHeader :=
  mkFbsHeader (h_version header) (Some (fbs_h256 (h_parent_hash header))) (h_timestamp header) (h_number header)
    (Some (fbs_h256 (h_transactions_root header))) (Some (fbs_h256 (h_witnesses_root header)))
    (Some (fbs_h256 (h_proposals_hash header))) (Some (fbs_bytes (uint_to_bytes (h_difficulty header))))
    (seal_nonce (h_seal header)) (Some (fbs_bytes (seal_proof (h_seal header))))
    (Some (fbs_h256 (h_uncles_hash header))) (h_uncles_count header) (h_epoch header).

Definition fbs_uncle (uncle_block : UncleBlock) : FbsUncleBlock :=
  mkFbsUncle (Some (fbs_header (uncle_header uncle_block))) (Some (fbs_short_id <$> uncle_proposals uncle_block)).

Definition fbs_script (script : Script) : FbsScript :=
  mkFbsScript (Some (fbs_bytes <$> script_args script)) (Some (fbs_h256 (script_code_hash script))).

(** An index that is not added has the default of the schema. *)
Definition fbs_out_point (out_point : OutPoint) : FbsOutPoint :=
  mkFbsOutPoint (fbs_h256 <$> op_block_hash out_point)
    ((fun cell => fbs_h256 (cop_tx_hash cell)) <$> op_cell out_point)
    (from_option cop_index 0 (op_cell out_point)).

Definition fbs_cell_input (cell_input : CellInput) : FbsCellInput :=
  let previous_output := ci_previous_output cell_input in
  mkFbsCellInput (fbs_h256 <$> op_block_hash previous_output)
    ((fun cell => fbs_h256 (cop_tx_hash cell)) <$> op_cell previous_output)
    (from_option cop_index 0 (op_cell previous_output)) (ci_since cell_input).

Definition fbs_cell_output (cell_output : CellOutput) : FbsCellOutput :=
  mkFbsCellOutput (co_capacity cell_output) (Some (fbs_bytes (co_data cell_output)))
    (Some (fbs_script (co_lock cell_output))) (fbs_script <$> co_type cell_output).

Definition fbs_witness (witness : list Bytes) : FbsWitness := mkFbsWitness (Some (fbs_bytes <$> witness)).

Definition fbs_transaction (transaction : Transaction) : FbsTransaction :=
  mkFbsTransaction (tx_version transaction) (Some (fbs_out_point <$> tx_deps transaction))
    (Some (fbs_cell_input <$> tx_inputs transaction)) (Some (fbs_cell_output <$> tx_outputs transaction))
    (Some (fbs_witness <$> tx_witnesses transaction)).

Definition fbs_block (block : Block) : FbsBlock :=
  mkFbsBlock (Some (fbs_header (b_header block))) (Some (fbs_uncle <$> b_uncles block))
    (Some (fbs_transaction <$> b_transactions block)) (Some (fbs_short_id <$> b_proposals block)).

Definition fbs_relay_transaction (transaction : Transaction) (cycles : Z) : FbsRelayTransaction :=
  mkFbsRelayTx cycles (Some (fbs_transaction transaction)).

(** *** The messages *)
Definition build_get_headers (block_locator_hashes : list H256) : FbsSyncMessage :=
  FbsGetHeaders 0 (Some (fbs_h256 <$> block_locator_hashes)).
Definition build_headers (headers : list Header) : FbsSyncMessage := FbsHeaders (Some (fbs_header <$> headers)).
Definition build_get_blocks (block_hashes : list H256) : FbsSyncMessage :=
  FbsGetBlocks (Some (fbs_h256 <$> block_hashes)).
Definition build_block (block : Block) : FbsSyncMessage := FbsSyncBlock (fbs_block block).
Definition build_transaction (transaction : Transaction) (cycles : Z) : FbsRelayMessage :=
  FbsRelayTx (fbs_relay_transaction transaction cycles).
Definition build_transaction_hash (tx_hash : H256) : FbsRelayMessage := FbsRelayTransactionHash (Some (fbs_h256 tx_hash)).
Definition build_get_transaction (tx_hash : H256) : FbsRelayMessage := FbsGetRelayTransaction (Some (fbs_h256 tx_hash)).
Definition build_get_block_transactions (block_hash : H256) (indexes : list Z) : FbsRelayMessage :=
  FbsGetBlockTransactions (Some (fbs_h256 block_hash)) (Some indexes).
Definition build_block_transactions (block_hash : H256) (transactions : list Transaction) : FbsRelayMessage :=
  FbsBlockTransactions (Some (fbs_h256 block_hash)) (Some (fbs_transaction <$> transactions)).
Definition build_get_block_proposal (block_number : Z) (proposals : list Bytes) : FbsRelayMessage :=
  FbsGetBlockProposal block_number (Some (fbs_short_id <$> proposals)).
Definition build_block_proposal (transactions : list Transaction) : FbsRelayMessage :=
  FbsBlockProposal (Some (fbs_transaction <$> transactions)).

(** ** [convert.rs] *)
Definition h256_try_from (h256 : FbsH256) : outcome ConvertError H256 := ok_or (h256_from_slice h256) InvalidSlice.
Definition short_id_try_from (short_id : FbsProposalShortId) : outcome ConvertError Bytes :=
  fbs_cast (if decide (length short_id = 10%nat) then Some short_id else None).
Definition seq_try_from (b : FbsBytes) : outcome ConvertError Bytes := fbs_cast (fb_seq b).

Definition script_try_from (script : FbsScript) : outcome ConvertError Script :=
  args ← fbs_cast (fs_args script);
  code_hash ← match fs_code_hash script with
              | Some code_hash => h ← h256_try_from code_hash; Ok (Some h)
              | None => Ok None
              end;
  args ← try_map seq_try_from args;
  code_hash ← fbs_cast (code_hash : option H256);
  Ok (mkScript args code_hash).

Definition point_try_from (block_hash tx_hash : option FbsH256) (index : Z) : outcome ConvertError OutPoint :=
  cell ← match tx_hash with
         | Some tx_hash => h ← h256_try_from tx_hash; Ok (Some (mkCellOutPoint h index))
         | None => Ok None
         end;
  block_hash ← match block_hash with
               | Some block_hash => h ← h256_try_from block_hash; Ok (Some h)
               | None => Ok None
               end;
  Ok (mkOutPoint cell block_hash).

Definition out_point_try_from (out_point : FbsOutPoint) : outcome ConvertError OutPoint :=
  point_try_from (fo_block_hash out_point) (fo_tx_hash out_point) (fo_index out_point).

Definition cell_input_try_from (cell_input : FbsCellInput) : outcome ConvertError CellInput :=
  previous_output ← point_try_from (fi_block_hash cell_input) (fi_tx_hash cell_input) (fi_index cell_input);
  Ok (mkCellInput previous_output (fi_since cell_input)).

Definition cell_output_try_from (cell_output : FbsCellOutput) : outcome ConvertError CellOutput :=
  lock ← fbs_cast (fc_lock cell_output);
  type_ ← match fc_type cell_output with
          | Some type_ => s ← script_try_from type_; Ok (Some s)
          | None => Ok None
          end;
  data ← fbs_cast (fc_data cell_output ≫= fb_seq);
  lock ← script_try_from lock;
  Ok (mkCellOutput (fc_capacity cell_output) data lock type_).

Definition witness_try_from (wit : FbsWitness) : outcome ConvertError (list Bytes) :=
  data ← fbs_cast (fw_data wit); try_map seq_try_from data.

Section convert.
(** The digest, the encodings it is taken of, the Merkle root, and the reading
    of a number of the package [numext]. *)
Context (blake2b : Bytes -> H256) (serialize_raw : RawTransaction -> Bytes)
  (serialize_tx : RawTransaction -> list (list Bytes) -> Bytes) (serialize_header : RawHeader -> Seal -> Bytes)
  (serialize_uncles : list UncleBlock -> Bytes) (merkle_root : list H256 -> H256)
  (from_little_endian : Bytes -> option Z).

Definition transaction_try_from (transaction : FbsTransaction) : outcome ConvertError Transaction :=
  deps ← fbs_cast (ft_deps transaction);
  inputs ← fbs_cast (ft_inputs transaction);
  outputs ← fbs_cast (ft_outputs transaction);
  witnesses ← fbs_cast (ft_witnesses transaction);
  deps ← try_map out_point_try_from deps;
  inputs ← try_map cell_input_try_from inputs;
  outputs ← try_map cell_output_try_from outputs;
  witnesses ← try_map witness_try_from witnesses;
  Ok (Transaction_new blake2b serialize_raw serialize_tx (ft_version transaction) deps inputs outputs witnesses).

Definition header_try_from (header : FbsHeader) : outcome ConvertError Header :=
  parent_hash ← fbs_cast (fh_parent_hash header);
  transactions_root ← fbs_cast (fh_transactions_root header);
  witnesses_root ← fbs_cast (fh_witnesses_root header);
  proposals_hash ← fbs_cast (fh_proposals_hash header);
  uncles_hash ← fbs_cast (fh_uncles_hash header);
  parent_hash ← h256_try_from parent_hash;
  transactions_root ← h256_try_from transactions_root;
  witnesses_root ← h256_try_from witnesses_root;
  proposals_hash ← h256_try_from proposals_hash;
  difficulty ← fbs_cast (fh_difficulty header ≫= fb_seq);
  difficulty ← ok_or (from_little_endian difficulty) InvalidSlice;
  uncles_hash ← h256_try_from uncles_hash;
  proof ← fbs_cast (fh_proof header ≫= fb_seq);
  Ok (Header_new blake2b serialize_header
        (mkRawHeader (fh_version header) parent_hash (fh_timestamp header) (fh_number header) transactions_root
           proposals_hash witnesses_root difficulty uncles_hash (fh_uncles_count header) (fh_epoch header))
        (mkSeal (fh_nonce header) proof)).

Definition uncle_try_from (uncle_block : FbsUncleBlock) : outcome ConvertError UncleBlock :=
  proposals ← fbs_cast (fu_proposals uncle_block);
  header ← fbs_cast (fu_header uncle_block);
  header ← header_try_from header;
  proposals ← try_map short_id_try_from proposals;
  Ok (mkUncleBlock header proposals).

(** The builder of the block gives the header the roots of the body. *)
Definition block_try_from (block : FbsBlock) : outcome ConvertError Block :=
  transactions ← fbs_cast (fbk_transactions block);
  uncles ← fbs_cast (fbk_uncles block);
  proposals ← fbs_cast (fbk_proposals block);
  header ← fbs_cast (fbk_header block);
  header ← header_try_from header;
  uncles ← try_map uncle_try_from uncles;
  transactions ← try_map transaction_try_from transactions;
  proposals ← try_map short_id_try_from proposals;
  Ok (BlockBuilder_build blake2b serialize_header serialize_uncles merkle_root (h_raw header) (h_seal header)
        uncles transactions proposals).

Definition relay_transaction_try_from (vtx : FbsRelayTransaction) : outcome ConvertError (Transaction * Z) :=
  tx ← fbs_cast (fr_transaction vtx);
  tx ← transaction_try_from tx;
  Ok (tx, fr_cycles vtx).

Definition hash_message_try_from (tx_hash : option FbsH256) : outcome ConvertError H256 :=
  tx_hash ← fbs_cast tx_hash; h256_try_from tx_hash.
End convert.

(** ** What is sent is what is received

    [RoundTrip] is the promise of a pair of functions: reading gives back what
    was written.  The instances follow the structure of the tables. *)
Class RoundTrip {A F E : Type} (ok : A -> Prop) (build : A -> F) (convert : F -> outcome E A) : Prop :=
  round_trip a : ok a -> convert (build a) = Ok a.

#[export] Instance list_round_trip {A F E : Type} (ok : A -> Prop) (build : A -> F) (convert : F -> outcome E A) :
  RoundTrip ok build convert -> RoundTrip (Forall ok) (fmap build : list A -> list F) (try_map convert).
Proof.
  intros Hrt l Hl. induction Hl as [|a l Ha _ IH]; [done|]. rewrite fmap_cons. cbn [try_map].
  by rewrite (round_trip a Ha), bind_ret_l, IH.
Qed.

(** The data that has its type: hashes of 256 bits, ids of ten bytes, and the
    digests that the constructors compute. *)
Definition hash_ok (h : H256) : Prop := u256 h.
Definition if_some {A} (P : A -> Prop) (o : option A) : Prop := match o with Some a => P a | None => True end.
Definition point_ok (o : OutPoint) : Prop :=
  if_some (fun cell => hash_ok (cop_tx_hash cell)) (op_cell o) /\ if_some hash_ok (op_block_hash o).
Definition script_ok (s : Script) : Prop := hash_ok (script_code_hash s).
Definition output_ok (o : CellOutput) : Prop := script_ok (co_lock o) /\ if_some script_ok (co_type o).
Definition short_id_ok (id : Bytes) : Prop := length id = 10%nat.

#[export] Instance hash_ok_dec h : Decision (hash_ok h).
Proof. unfold hash_ok. apply _. Defined.
#[export] Instance if_some_dec {A} (P : A -> Prop) `{forall a, Decision (P a)} o : Decision (if_some P o).
Proof. destruct o; cbn; apply _. Defined.
#[export] Instance point_ok_dec o : Decision (point_ok o).
Proof. unfold point_ok. apply _. Defined.
#[export] Instance script_ok_dec s : Decision (script_ok s).
Proof. unfold script_ok. apply _. Defined.
#[export] Instance output_ok_dec o : Decision (output_ok o).
Proof. unfold output_ok. apply _. Defined.
#[export] Instance short_id_ok_dec id : Decision (short_id_ok id).
Proof. unfold short_id_ok. apply _. Defined.

#[export] Instance h256_round_trip : RoundTrip hash_ok fbs_h256 h256_try_from.
Proof. intros h Hh. unfold h256_try_from, fbs_h256. by rewrite h256_from_as_bytes. Qed.
#[export] Instance bytes_round_trip : RoundTrip (fun _ => True) fbs_bytes seq_try_from.
Proof. done. Qed.
#[export] Instance short_id_round_trip : RoundTrip short_id_ok fbs_short_id short_id_try_from.
Proof. intros id Hid. unfold short_id_try_from, fbs_short_id. by rewrite decide_True. Qed.

Arguments fbs_h256 : simpl never.
Arguments h256_try_from : simpl never.
Arguments hash_ok : simpl never.

(** Rewrites with the round trips of the parts. *)
Ltac trip :=
  repeat first
    [ rewrite bind_ret_l
    | match goal with
      | |- context [mbind _ ?m] => eassert (m = Ok _) as -> by (apply round_trip; first [done | by apply Forall_true])
      end ].

#[export] Instance script_round_trip : RoundTrip script_ok fbs_script script_try_from.
Proof. intros [args code_hash] Hs. unfold script_try_from. cbn [fbs_script fs_args fs_code_hash]. cbn -[mbind]. by trip. Qed.

Lemma point_round_trip o : point_ok o ->
  point_try_from (fbs_h256 <$> op_block_hash o) ((fun cell => fbs_h256 (cop_tx_hash cell)) <$> op_cell o)
    (from_option cop_index 0 (op_cell o)) = Ok o.
Proof.
  destruct o as [cell bh]. unfold point_ok. cbn [op_cell op_block_hash]. intros [Hc Hb]. unfold point_try_from.
  destruct cell as [[h i]|], bh as [bh|]; cbn [fmap option_fmap option_map from_option cop_index cop_tx_hash if_some] in *.
  all: by trip.
Qed.

#[export] Instance out_point_round_trip : RoundTrip point_ok fbs_out_point out_point_try_from.
Proof. intros o Ho. by apply point_round_trip. Qed.
#[export] Instance cell_input_round_trip :
  RoundTrip (fun i => point_ok (ci_previous_output i)) fbs_cell_input cell_input_try_from.
Proof. intros [o since] Ho. unfold cell_input_try_from. cbn [fi_block_hash fi_tx_hash fi_index fi_since fbs_cell_input ci_previous_output ci_since] in *. by rewrite point_round_trip. Qed.
#[export] Instance cell_output_round_trip : RoundTrip output_ok fbs_cell_output cell_output_try_from.
Proof.
  intros [c d l t] [Hl Ht]. unfold cell_output_try_from. destruct t as [t|]; cbn -[mbind script_try_from] in *; by trip.
Qed.
#[export] Instance witness_round_trip : RoundTrip (fun _ => True) fbs_witness witness_try_from.
Proof. intros w _. unfold witness_try_from. cbn [fbs_witness fw_data fbs_cast ok_or]. rewrite bind_ret_l. apply round_trip. by apply Forall_true. Qed.

Section round_trips.
Context (blake2b : Bytes -> H256) (serialize_raw : RawTransaction -> Bytes)
  (serialize_tx : RawTransaction -> list (list Bytes) -> Bytes) (serialize_header : RawHeader -> Seal -> Bytes)
  (serialize_uncles : list UncleBlock -> Bytes) (merkle_root : list H256 -> H256)
  (from_little_endian : Bytes -> option Z).
(** [U256::from_little_endian] reads what [into_little_endian] writes. *)
Definition reads_little_endian : Prop := forall x, u256 x -> from_little_endian (uint_to_bytes x) = Some x.

(** A transaction and a header as their constructors make them. *)
Definition transaction_ok (tx : Transaction) : Prop :=
  Forall point_ok (tx_deps tx) /\ Forall (fun i => point_ok (ci_previous_output i)) (tx_inputs tx) /\
  Forall output_ok (tx_outputs tx) /\
  tx = Transaction_new blake2b serialize_raw serialize_tx (tx_version tx) (tx_deps tx) (tx_inputs tx) (tx_outputs tx)
         (tx_witnesses tx).
Definition header_ok (h : Header) : Prop :=
  Forall hash_ok [h_parent_hash h; h_transactions_root h; h_witnesses_root h; h_proposals_hash h; h_uncles_hash h] /\
  u256 (h_difficulty h) /\ h = Header_new blake2b serialize_header (h_raw h) (h_seal h).
Definition uncle_ok (u : UncleBlock) : Prop := header_ok (uncle_header u) /\ Forall short_id_ok (uncle_proposals u).
(** The header has the roots of the body. *)
Definition roots_ok (h : Header) (uncles : list UncleBlock) (transactions : list Transaction) (proposals : list Bytes) : Prop :=
  BlockBuilder_build blake2b serialize_header serialize_uncles merkle_root (h_raw h) (h_seal h) uncles transactions proposals =
  mkBlock h uncles transactions proposals.
Definition block_ok (b : Block) : Prop :=
  header_ok (b_header b) /\ Forall uncle_ok (b_uncles b) /\ Forall transaction_ok (b_transactions b) /\
  Forall short_id_ok (b_proposals b) /\ roots_ok (b_header b) (b_uncles b) (b_transactions b) (b_proposals b).

#[export] Instance transaction_ok_dec tx : Decision (transaction_ok tx).
Proof. unfold transaction_ok. apply _. Defined.
#[export] Instance header_ok_dec h : Decision (header_ok h).
Proof. unfold header_ok. apply _. Defined.
#[export] Instance uncle_ok_dec u : Decision (uncle_ok u).
Proof. unfold uncle_ok. apply _. Defined.
#[export] Instance block_ok_dec b : Decision (block_ok b).
Proof. unfold block_ok, roots_ok. apply _. Defined.

#[local] Abbreviation tx_from := (transaction_try_from blake2b serialize_raw serialize_tx).
#[local] Abbreviation header_from := (header_try_from blake2b serialize_header from_little_endian).
#[local] Abbreviation uncle_from := (uncle_try_from blake2b serialize_header from_little_endian).
#[local] Abbreviation block_from :=
  (block_try_from blake2b serialize_raw serialize_tx serialize_header serialize_uncles merkle_root from_little_endian).

#[export] Instance transaction_round_trip : RoundTrip transaction_ok fbs_transaction tx_from.
Proof.
  intros tx (Hd & Hi & Ho & Htx). unfold transaction_try_from, fbs_transaction.
  cbn [ft_version ft_deps ft_inputs ft_outputs ft_witnesses fbs_cast ok_or]. trip. by rewrite <- Htx.
Qed.

Context (Hle : reads_little_endian).

#[export] Instance header_round_trip : RoundTrip header_ok fbs_header header_from.
Proof.
  intros h (Hh & Hd & Hhash). apply Forall_cons in Hh as [H1 Hh]. apply Forall_cons in Hh as [H2 Hh].
  apply Forall_cons in Hh as [H3 Hh]. apply Forall_cons in Hh as [H4 Hh]. apply Forall_cons in Hh as [H5 _].
  unfold header_try_from, fbs_header.
  cbn [fh_version fh_parent_hash fh_timestamp fh_number fh_transactions_root fh_witnesses_root fh_proposals_hash fh_difficulty
       fh_nonce fh_proof fh_uncles_hash fh_uncles_count fh_epoch fbs_cast ok_or]. trip.
  cbn [mbind outcome_bind option_bind fbs_bytes fb_seq fbs_cast ok_or]. rewrite Hle by done. cbn [ok_or].
  rewrite Hhash. by destruct h as [[] []].
Qed.

#[export] Instance uncle_round_trip : RoundTrip uncle_ok fbs_uncle uncle_from.
Proof.
  intros [h ps] [Hh Hps]. unfold uncle_try_from. cbn [fbs_uncle fu_header fu_proposals fbs_cast ok_or uncle_header uncle_proposals] in *.
  by trip.
Qed.

#[export] Instance block_round_trip : RoundTrip block_ok fbs_block block_from.
Proof.
  intros [h us txs ps] (Hh & Hu & Ht & Hp & Hr). unfold block_try_from.
  cbn [fbs_block fbk_header fbk_uncles fbk_transactions fbk_proposals fbs_cast ok_or b_header b_uncles b_transactions b_proposals] in *.
  trip. by rewrite Hr.
Qed.
End round_trips.

(** C23. What is sent is what is received.  A block, a list of headers and a
    transaction, as their constructors make them, are read back by the receiver
    of their message; the digests and the roots are computed again and agree. *)
Theorem messages_round_trip blake2b serialize_raw serialize_tx serialize_header serialize_uncles merkle_root from_little_endian :
  reads_little_endian from_little_endian ->
  (forall b, block_ok blake2b serialize_raw serialize_tx serialize_header serialize_uncles merkle_root b ->
     block_try_from blake2b serialize_raw serialize_tx serialize_header serialize_uncles merkle_root from_little_endian
       (fbs_block b) = Ok b) /\
  (forall hs, Forall (header_ok blake2b serialize_header) hs ->
     try_map (header_try_from blake2b serialize_header from_little_endian) (fbs_header <$> hs) = Ok hs) /\
  (forall tx cycles, transaction_ok blake2b serialize_raw serialize_tx tx ->
     relay_transaction_try_from blake2b serialize_raw serialize_tx (fbs_relay_transaction tx cycles) = Ok (tx, cycles)).
Proof.
  intros Hle. pose proof (header_round_trip blake2b serialize_header _ Hle) as Hh. split_and!.
  - intros b Hb. by apply block_round_trip.
  - intros hs Hhs. by apply (list_round_trip (header_ok blake2b serialize_header) fbs_header), Hhs.
  - intros tx cycles Htx. unfold relay_transaction_try_from. cbn [fbs_relay_transaction fr_transaction fr_cycles fbs_cast ok_or].
    by trip.
Qed.

Module ProtocolExample.
Definition digest (bs : Bytes) : H256 := le_combine (take 31 bs).
Definition encode_raw (raw : RawTransaction) : Bytes := [len (raw_tx_inputs raw); len (raw_tx_outputs raw)].
Definition encode_tx (raw : RawTransaction) (w : list (list Bytes)) : Bytes := encode_raw raw ++ [len w].
Definition encode_header (raw : RawHeader) (seal : Seal) : Bytes := raw_number raw :: h256_as_bytes (raw_transactions_root raw).
Definition encode_uncles (us : list UncleBlock) : Bytes := [len us].
Definition root (l : list H256) : H256 := default 0 (last l).
Definition from_le (bs : Bytes) : option Z := if decide (length bs = 32%nat) then Some (le_combine bs) else None.

Lemma from_le_reads : reads_little_endian from_le.
Proof.
  intros x Hx. unfold from_le, uint_to_bytes. rewrite decide_True by apply length_le_split.
  by rewrite le_combine_split_range.
Qed.

Definition tx (n : Z) (inputs : list OutPoint) (outputs : nat) : Transaction :=
  Transaction_new digest encode_raw encode_tx 0 [] ((fun o => mkCellInput o n) <$> inputs)
    (replicate outputs (simple_output 100)) [[[n]]].
Definition build (number : Z) (uncles : list UncleBlock) (txs : list Transaction) (proposals : list Bytes) : Block :=
  BlockBuilder_build digest encode_header encode_uncles root (mkRawHeader 0 5 1000 number 0 0 0 7 0 0 0) (mkSeal 3 [1; 2])
    uncles txs proposals.
Definition uncle : UncleBlock := uncle_from_block (build 1 [] [] [[0; 1; 2; 3; 4; 5; 6; 7; 8; 9]]).
Definition block : Block := build 2 [uncle] [tx 2 [OutPoint_null] 1; tx 0 [new_cell 9 1; mkOutPoint None (Some 4)] 3] [replicate 10 1].
End ProtocolExample.

Section witnesses.
Import ProtocolExample.

Lemma messages_round_trip_witness :
  reads_little_endian from_le /\ length (b_transactions block) = 2%nat /\
  block_try_from digest encode_raw encode_tx encode_header encode_uncles root from_le (fbs_block block) = Ok block.
Proof.
  split; [exact from_le_reads|]. split; [done|].
  apply (messages_round_trip digest encode_raw encode_tx encode_header encode_uncles root from_le from_le_reads). by_compute.
Defined.
End witnesses.
