(* ===== verification/CellSet.v ===== *)
(** * The set of live cells

    [core/src/transaction_meta.rs], [shared/src/cell_set.rs] and
    [ChainState::update_tip] of [shared/src/chain_state.rs].  The cell set maps
    the hash of a transaction to a [TransactionMeta] whose bit vector tells
    which of its outputs are dead.  A block that joins or leaves the main chain
    is recorded in a [CellSetDiff]; [new_overlay] is the view of the set a diff
    would give, and [update_tip] applies the diff to the set in memory and to
    its copy on disk.  The iteration order of a hash set is unspecified, so the
    operations that iterate take the order as an argument ([DiffOrder]). *)
From S2P Require Import Prelude Capacity Transactions Blocks.

(** ** [TransactionMeta] *)
Record TransactionMeta := mkMeta {
  meta_block_number : Z;
  meta_epoch_number : Z;
  meta_cellbase : bool;
  dead_cell : list bool
}.

#[export] Instance TransactionMeta_eq_dec : EqDecision TransactionMeta.
Proof. solve_decision. Defined.

Definition TransactionMeta_new (block_number epoch_number : Z) (outputs_count : nat)
    (all_dead : bool) : TransactionMeta :=
  mkMeta block_number epoch_number false (replicate outputs_count all_dead).

Definition TransactionMeta_new_cellbase (block_number epoch_number : Z) (outputs_count : nat)
    (all_dead : bool) : TransactionMeta :=
  mkMeta block_number epoch_number true (replicate outputs_count all_dead).

Definition is_dead (self : TransactionMeta) (index : nat) : option bool :=
  dead_cell self !! index.

Definition all_dead (self : TransactionMeta) : bool := forallb id (dead_cell self).

Definition with_dead (self : TransactionMeta) (index : nat) (b : bool) : TransactionMeta :=
  if decide (index < length (dead_cell self))%nat
  then mkMeta (meta_block_number self) (meta_epoch_number self) (meta_cellbase self)
         (<[index:=b]> (dead_cell self))
  else self.
Definition set_dead (self : TransactionMeta) (index : nat) : TransactionMeta :=
  with_dead self index true.
Definition unset_dead (self : TransactionMeta) (index : nat) : TransactionMeta :=
  with_dead self index false.

(** ** Diffs *)
Definition OutputInfo : Type := Z * Z * bool * nat.

Record CellSetDiff := mkDiff {
  old_inputs : gset OutPoint;
  old_outputs : gset H256;
  new_inputs : gset OutPoint;
  new_outputs : gmap H256 OutputInfo
}.

Definition empty_diff : CellSetDiff := mkDiff ∅ ∅ ∅ ∅.

Definition push_new (self : CellSetDiff) (block : Block) : CellSetDiff :=
  fold_left (fun self tx =>
    mkDiff (old_inputs self) (old_outputs self)
      (new_inputs self ∪ list_to_set (input_pts tx))
      (<[tx_hash tx := (h_number (b_header block), h_epoch (b_header block),
                        is_cellbase tx, length (tx_outputs tx))]> (new_outputs self)))
    (b_transactions block) self.

Definition push_old (self : CellSetDiff) (block : Block) : CellSetDiff :=
  fold_left (fun self tx =>
    mkDiff (old_inputs self ∪ list_to_set (input_pts tx))
      ({[tx_hash tx]} ∪ old_outputs self) (new_inputs self) (new_outputs self))
    (b_transactions block) self.

(** One order in which the sets of a diff are iterated. *)
Record DiffOrder := mkOrder {
  ord_old_inputs : list OutPoint;
  ord_old_outputs : list H256;
  ord_new_inputs : list OutPoint;
  ord_new_outputs : list (H256 * OutputInfo)
}.
Definition enumerates (o : DiffOrder) (d : CellSetDiff) : Prop :=
  ord_old_inputs o ≡ₚ elements (old_inputs d) /\
  ord_old_outputs o ≡ₚ elements (old_outputs d) /\
  ord_new_inputs o ≡ₚ elements (new_inputs d) /\
  ord_new_outputs o ≡ₚ map_to_list (new_outputs d).
Definition some_order (d : CellSetDiff) : DiffOrder :=
  mkOrder (elements (old_inputs d)) (elements (old_outputs d))
    (elements (new_inputs d)) (map_to_list (new_outputs d)).

(** ** The cell set *)
Abbreviation CellSet := (gmap Z TransactionMeta) (only parsing).

Inductive CellSetOpr := OprDelete | OprUpdate (meta : TransactionMeta).

Definition cell_index (cell : CellOutPoint) : nat := Z.to_nat (cop_index cell).

Definition new_meta (number epoch : Z) (cellbase : bool) (len : nat) (dead : bool)
    : TransactionMeta :=
  if cellbase then TransactionMeta_new_cellbase number epoch len dead
  else TransactionMeta_new number epoch len dead.

Definition insert_cell (self : CellSet) (cell : CellOutPoint) (number epoch : Z)
    (cellbase : bool) (outputs_len : nat) : CellSet * TransactionMeta :=
  let meta := unset_dead (new_meta number epoch cellbase outputs_len true) (cell_index cell) in
  (<[cop_tx_hash cell := meta]> self, meta).

Definition insert_transaction (self : CellSet) (tx_hash : H256) (number epoch : Z)
    (cellbase : bool) (outputs_len : nat) : CellSet * TransactionMeta :=
  let meta := new_meta number epoch cellbase outputs_len false in
  (<[tx_hash := meta]> self, meta).

Definition mark_dead (self : CellSet) (cell : CellOutPoint) : CellSet * option CellSetOpr :=
  match self !! cop_tx_hash cell with
  | Some meta =>
      let meta := set_dead meta (cell_index cell) in
      (<[cop_tx_hash cell := meta]> self,
       Some (if all_dead meta then OprDelete else OprUpdate meta))
  | None => (self, None)
  end.

Definition try_mark_live (self : CellSet) (cell : CellOutPoint)
    : CellSet * option TransactionMeta :=
  match self !! cop_tx_hash cell with
  | Some meta =>
      let meta := unset_dead meta (cell_index cell) in
      (<[cop_tx_hash cell := meta]> self, Some meta)
  | None => (self, None)
  end.

(** ** The overlay of a diff *)
Record CellSetOverlay := mkOverlay {
  ov_origin : gmap Z TransactionMeta;
  ov_new : gmap Z TransactionMeta;
  ov_removed : gset H256
}.

Definition overlay_get (self : CellSetOverlay) (hash : H256) : option TransactionMeta :=
  if decide (hash ∈ ov_removed self) then None
  else match ov_new self !! hash with
       | Some m => Some m
       | None => ov_origin self !! hash
       end.

(** [new.entry(h).or_insert_with(|| meta.clone())] followed by a bit update,
    for an input whose transaction is in the set [inner]. *)
Definition overlay_touch (inner : CellSet) (f : TransactionMeta -> nat -> TransactionMeta)
    (new : gmap Z TransactionMeta) (input : OutPoint) : gmap Z TransactionMeta :=
  match op_cell input with
  | None => new
  | Some cell =>
      match inner !! cop_tx_hash cell with
      | None => new
      | Some meta =>
          <[cop_tx_hash cell :=
             f (default meta (new !! cop_tx_hash cell)) (cell_index cell)]> new
      end
  end.

Definition overlay_insert (st : gmap Z TransactionMeta * gset H256) (out : H256 * OutputInfo)
    : gmap Z TransactionMeta * gset H256 :=
  let '(new, removed) := st in
  let '(hash, (number, epoch, cellbase, len)) := out in
  (<[hash := new_meta number epoch cellbase len false]> new, removed ∖ {[hash]}).

Definition new_overlay (self : CellSet) (o : DiffOrder) : CellSetOverlay :=
  let removed : gset H256 := fold_left (fun removed hash =>
    match self !! hash with Some _ => {[hash]} ∪ removed | None => removed end)
    (ord_old_outputs o) ∅ in
  let '(new, removed) := fold_left overlay_insert (ord_new_outputs o) (∅, removed) in
  let new := fold_left (overlay_touch self unset_dead) (ord_old_inputs o) new in
  let new := fold_left (overlay_touch self set_dead) (ord_new_inputs o) new in
  mkOverlay self new removed.

(** ** [ChainState::update_tip]

    The store functions are those of [ChainStore]; the writes of the batch are
    applied to [ts_disk], the column of the cell set, and always succeed. *)
Record TipState := mkTipState {
  ts_tip_header : Header;
  ts_total_difficulty : Z;
  ts_cell_set : gmap Z TransactionMeta;
  ts_disk : gmap Z TransactionMeta
}.

Section update_tip.
Context {E : Type}.
Context (get_transaction : H256 -> option (Transaction * H256)).
Context (get_block : H256 -> option Block).

Abbreviation Updates := (list (H256 * TransactionMeta)) (only parsing).

Definition update_old_input (st : gmap Z TransactionMeta * Updates) (out_point : OutPoint)
    : outcome E (gmap Z TransactionMeta * Updates) :=
  let '(cell_set, updated) := st in
  match op_cell out_point with
  | None => Ok (cell_set, updated)
  | Some cell =>
      match try_mark_live cell_set cell with
      | (cell_set, Some tx_meta) => Ok (cell_set, updated ++ [(cop_tx_hash cell, tx_meta)])
      | (cell_set, None) =>
          '(tx, block_hash) ← expect (get_transaction (cop_tx_hash cell));
          block ← expect (get_block block_hash);
          first ← expect (head (b_transactions block));
          let cellbase := bool_decide (tx_hash first = tx_hash tx) in
          let '(cell_set, tx_meta) :=
            insert_cell cell_set cell (h_number (b_header block)) (h_epoch (b_header block))
              cellbase (length (tx_outputs tx)) in
          Ok (cell_set, updated ++ [(cop_tx_hash cell, tx_meta)])
      end
  end.

Definition remove_old_output (st : gmap Z TransactionMeta * list H256) (tx_hash : H256)
    : gmap Z TransactionMeta * list H256 :=
  let '(cell_set, removed) := st in
  match cell_set !! tx_hash with
  | Some _ => (delete tx_hash cell_set, removed ++ [tx_hash])
  | None => (cell_set, removed)
  end.

Definition insert_new_output (st : gmap Z TransactionMeta * Updates)
    (out : H256 * OutputInfo) : gmap Z TransactionMeta * Updates :=
  let '(cell_set, inserted) := st in
  let '(tx_hash, (number, epoch, cellbase, len)) := out in
  let '(cell_set, tx_meta) := insert_transaction cell_set tx_hash number epoch cellbase len in
  (cell_set, inserted ++ [(tx_hash, tx_meta)]).

Definition mark_new_input (st : gmap Z TransactionMeta * Updates * list H256)
    (out_point : OutPoint) : gmap Z TransactionMeta * Updates * list H256 :=
  let '(cell_set, updated, removed) := st in
  match op_cell out_point with
  | None => st
  | Some cell =>
      match mark_dead cell_set cell with
      | (cell_set, None) => (cell_set, updated, removed)
      | (cell_set, Some OprDelete) => (cell_set, updated, removed ++ [cop_tx_hash cell])
      | (cell_set, Some (OprUpdate tx_meta)) =>
          (cell_set, updated ++ [(cop_tx_hash cell, tx_meta)], removed)
      end
  end.

(** The batch: [update_cell_set] for every pair, [delete_cell_set] for every hash. *)
Definition batch_update (disk : gmap Z TransactionMeta) (l : Updates) : gmap Z TransactionMeta :=
  fold_left (fun disk '(h, m) => <[h := m]> disk) l disk.
Definition batch_delete (disk : gmap Z TransactionMeta) (l : list H256) : gmap Z TransactionMeta :=
  fold_left (fun disk h => delete h disk) l disk.

Definition update_tip (self : TipState) (header : Header) (total_difficulty : Z)
    (txo_diff : DiffOrder) : outcome E TipState :=
  '(cell_set, updated_old_inputs) ←
    try_fold update_old_input (ts_cell_set self, []) (ord_old_inputs txo_diff);
  let '(cell_set, removed_old_outputs) :=
    fold_left remove_old_output (ord_old_outputs txo_diff) (cell_set, []) in
  let '(cell_set, inserted_new_outputs) :=
    fold_left insert_new_output (ord_new_outputs txo_diff) (cell_set, []) in
  let '(cell_set, updated_new_inputs, removed_new_inputs) :=
    fold_left mark_new_input (ord_new_inputs txo_diff) (cell_set, [], []) in
  let disk := batch_update (ts_disk self) updated_old_inputs in
  let disk := batch_delete disk removed_old_outputs in
  let disk := batch_update disk inserted_new_outputs in
  let disk := batch_update disk updated_new_inputs in
  let disk := batch_delete disk removed_new_inputs in
  Ok (mkTipState header total_difficulty cell_set disk).

End update_tip.

(** [init_cell_set]: the cell set a node loads when it starts is every entry
    of the column, in the order of the traversal. *)
Definition init_cell_set (entries : list (H256 * TransactionMeta)) : gmap Z TransactionMeta :=
  insert_all ∅ entries.

(** ** Liveness of a cell

    The abstraction of a cell set is the set of its live cells, a cell being a
    transaction hash and an output index. *)
Definition live (cs : gmap Z TransactionMeta) (c : H256 * nat) : Prop :=
  exists m, cs !! c.1 = Some m /\ dead_cell m !! c.2 = Some false.

Definition cell_id (cell : CellOutPoint) : H256 * nat := (cop_tx_hash cell, cell_index cell).
Definition point_id (o : OutPoint) : option (H256 * nat) := cell_id <$> op_cell o.
Definition point_ids (l : list OutPoint) : gset (H256 * nat) :=
  list_to_set (omap point_id l).

Lemma elem_of_point_ids c l :
  c ∈ point_ids l <-> exists o, o ∈ l /\ point_id o = Some c.
Proof. unfold point_ids. by rewrite elem_of_list_to_set, list_elem_of_omap. Qed.

Lemma point_ids_app l1 l2 : point_ids (l1 ++ l2) = point_ids l1 ∪ point_ids l2.
Proof. unfold point_ids. by rewrite omap_app, list_to_set_app_L. Qed.

Lemma point_ids_cons o l :
  point_ids (o :: l) =
  match point_id o with Some c => {[c]} ∪ point_ids l | None => point_ids l end.
Proof. unfold point_ids. simpl. by destruct (point_id o). Qed.

(** *** Bits *)
Lemma dead_cell_with_dead m i b j :
  dead_cell (with_dead m i b) !! j =
  if decide (j = i) then (fun _ => b) <$> dead_cell m !! i else dead_cell m !! j.
Proof.
  unfold with_dead. case_decide as Hi; simpl.
  - case_decide as Hj; subst.
    + rewrite list_lookup_insert_eq by done.
      by destruct (lookup_lt_is_Some_2 _ _ Hi) as [x ->].
    + by rewrite list_lookup_insert_ne by done.
  - case_decide; subst; [|done]. by rewrite lookup_ge_None_2 by lia.
Qed.

Lemma length_with_dead m i b : length (dead_cell (with_dead m i b)) = length (dead_cell m).
Proof. unfold with_dead. case_decide; simpl; [apply length_insert|done]. Qed.

Lemma all_dead_spec m : all_dead m = true <-> forall i, dead_cell m !! i <> Some false.
Proof.
  unfold all_dead. rewrite forallb_forall. setoid_rewrite <- list_elem_of_In. split.
  - intros H i Hi. apply list_elem_of_lookup_2 in Hi. by apply H in Hi.
  - intros H [] Hb; [done|]. apply list_elem_of_lookup in Hb as [i ?]. naive_solver.
Qed.

Lemma all_dead_set_dead m i : all_dead m = true -> all_dead (set_dead m i) = true.
Proof.
  rewrite !all_dead_spec. intros H j. unfold set_dead. rewrite dead_cell_with_dead.
  case_decide; [|done]. by destruct (dead_cell m !! i).
Qed.

Lemma new_meta_dead_cell n e c len dead : dead_cell (new_meta n e c len dead) = replicate len dead.
Proof. by destruct c. Qed.

(** *** One update of one entry *)
Lemma live_insert cs h m c :
  live (<[h := m]> cs) c <->
  if decide (c.1 = h) then dead_cell m !! c.2 = Some false else live cs c.
Proof.
  unfold live. case_decide as Hh.
  - rewrite Hh, lookup_insert_eq. naive_solver.
  - by rewrite lookup_insert_ne by done.
Qed.

Lemma live_delete cs h c : live (delete h cs) c <-> c.1 <> h /\ live cs c.
Proof.
  unfold live. destruct (decide (c.1 = h)) as [->|].
  - rewrite lookup_delete_eq. naive_solver.
  - rewrite lookup_delete_ne by done. naive_solver.
Qed.

Lemma live_mark_dead cs cell c :
  live (mark_dead cs cell).1 c <-> live cs c /\ c <> cell_id cell.
Proof.
  unfold mark_dead. destruct c as [h i].
  destruct (cs !! cop_tx_hash cell) as [m|] eqn:Hm; simpl.
  - rewrite live_insert. simpl. unfold set_dead. rewrite dead_cell_with_dead.
    unfold live, cell_id. simpl. case_decide as Hh; [subst h; rewrite Hm|].
    + case_decide as Hi; [subst i|]; [|naive_solver].
      destruct (dead_cell m !! cell_index cell); naive_solver.
    + naive_solver.
  - split; [|tauto]. intros Hl. split; [done|]. intros [= -> ->].
    unfold live in Hl. simpl in Hl. rewrite Hm in Hl. naive_solver.
Qed.

(** *** The phases of [update_tip] that cannot fail *)
Lemma live_remove_old_outputs l cs rm c :
  live (fold_left remove_old_output l (cs, rm)).1 c <-> live cs c /\ c.1 ∉ l.
Proof.
  revert cs rm. induction l as [|h l IH]; intros cs rm; simpl; [set_solver|].
  destruct (cs !! h) eqn:Hh; rewrite IH; [rewrite live_delete; set_solver|].
  split; [|set_solver]. intros [Hl Hc]. split; [done|].
  assert (c.1 <> h) by (intros <-; destruct Hl as (? & ? & ?); congruence). set_solver.
Qed.

Lemma live_insert_new_outputs l cs ins c :
  NoDup l.*1 ->
  live (fold_left insert_new_output l (cs, ins)).1 c <->
  (exists n e b len, (c.1, (n, e, b, len)) ∈ l /\ (c.2 < len)%nat) \/
  ((c.1 ∉ l.*1) /\ live cs c).
Proof.
  revert cs ins. induction l as [|[h [[[n e] b] len]] l IH]; intros cs ins; simpl.
  { set_solver. }
  intros [Hh Hnd]%NoDup_cons. rewrite IH, live_insert by done. clear IH.
  rewrite new_meta_dead_cell, not_elem_of_cons. case_decide as Hc.
  - subst h. rewrite lookup_replicate. split.
    + intros [(n' & e' & b' & len' & Hin & Hlt)|[_ [_ Hlt]]].
      * left. exists n', e', b', len'. set_solver.
      * left. exists n, e, b, len. set_solver.
    + intros [(n' & e' & b' & len' & [Heq|Hin]%elem_of_cons & Hlt)|[[] _]]; [| |done].
      * right. naive_solver.
      * left. eauto 10.
  - split.
    + intros [(n' & e' & b' & len' & Hin & Hlt)|[]]; [left|right; done].
      exists n', e', b', len'. set_solver.
    + intros [(n' & e' & b' & len' & [Heq|Hin]%elem_of_cons & Hlt)|[[]]].
      * naive_solver.
      * left. eauto 10.
      * right. done.
Qed.

Lemma live_mark_new_inputs l cs up rm c :
  live (fold_left mark_new_input l (cs, up, rm)).1.1 c <-> (live cs c /\ c ∉ point_ids l).
Proof.
  revert cs up rm. induction l as [|o l IH]; intros cs up rm; simpl.
  { unfold point_ids; set_solver. }
  rewrite point_ids_cons. unfold point_id. destruct (op_cell o) as [cell|]; simpl; [|by rewrite IH].
  pose proof (live_mark_dead cs cell c) as Hm.
  destruct (mark_dead cs cell) as [cs' [[|m]|]]; simpl in *; rewrite IH, Hm; set_solver.
Qed.

(** *** The phase that restores spent cells

    [tx_len] is the number of outputs of the transaction with a given hash. *)
Section metas.
Context (tx_len : H256 -> option nat).

Definition metas_ok (cs : gmap Z TransactionMeta) : Prop :=
  forall h m, cs !! h = Some m -> tx_len h = Some (length (dead_cell m)).
Definition in_tx (c : H256 * nat) : Prop :=
  exists n, tx_len c.1 = Some n /\ (c.2 < n)%nat.

Lemma unset_dead_live cs h m i c :
  metas_ok cs -> cs !! h = Some m ->
  live (<[h := unset_dead m i]> cs) c <-> live cs c \/ (c = (h, i) /\ in_tx c).
Proof.
  intros Hwf Hm. destruct c as [h' j]. rewrite live_insert. simpl.
  unfold unset_dead. rewrite dead_cell_with_dead. unfold live, in_tx; simpl.
  case_decide as Hh; [subst h'|naive_solver].
  rewrite Hm, (Hwf _ _ Hm). case_decide as Hj; [subst j|naive_solver].
  destruct (dead_cell m !! i) eqn:Hi; simpl.
  - apply lookup_lt_Some in Hi. split; [|done]. intros _. right. eauto.
  - apply lookup_ge_None_1 in Hi. split; [done|].
    intros [(m' & [= <-] & ?%lookup_lt_Some)|(_ & n & [= <-] & ?)]; lia.
Qed.

Lemma metas_ok_insert cs h m :
  metas_ok cs -> tx_len h = Some (length (dead_cell m)) -> metas_ok (<[h := m]> cs).
Proof.
  intros Hwf Hm h' m'. destruct (decide (h = h')) as [->|].
  - rewrite lookup_insert_eq. by intros [= <-].
  - rewrite lookup_insert_ne by done. apply Hwf.
Qed.
End metas.

Section restore.
Context {E : Type}.
Context (tx_len : H256 -> option nat).
Context (get_transaction : H256 -> option (Transaction * H256)).
Context (get_block : H256 -> option Block).
Abbreviation metas_ok := (metas_ok tx_len) (only parsing).
Abbreviation in_tx := (in_tx tx_len) (only parsing).

Definition store_ok : Prop :=
  forall h tx bh, get_transaction h = Some (tx, bh) -> tx_len h = Some (length (tx_outputs tx)).

(** What [update_tip] needs to restore a spent cell: its transaction is still
    in the set, or the store finds it and its block. *)
Definition restorable (cs : gmap Z TransactionMeta) (o : OutPoint) : Prop :=
  forall c, point_id o = Some c ->
    is_Some (cs !! c.1) \/
    exists tx bh b t, get_transaction c.1 = Some (tx, bh) /\ get_block bh = Some b /\
                      head (b_transactions b) = Some t.

Lemma update_old_input_spec cs up o cs' up' :
  metas_ok cs -> store_ok ->
  update_old_input (E := E) get_transaction get_block (cs, up) o = Ok (cs', up') ->
  metas_ok cs' /\
  forall c, live cs' c <-> live cs c \/ (point_id o = Some c /\ in_tx c).
Proof.
  intros Hwf Hst H. unfold update_old_input, point_id in *.
  destruct (op_cell o) as [cell|]; simpl; [|simplify_eq/=; naive_solver].
  unfold try_mark_live in H. destruct (cs !! cop_tx_hash cell) as [m|] eqn:Hm.
  - simplify_eq/=. split.
    + apply metas_ok_insert; [done|]. unfold unset_dead. rewrite length_with_dead. by apply Hwf.
    + intros c. rewrite (unset_dead_live _ _ _ m _ c Hwf Hm). unfold cell_id. naive_solver.
  - outcome_inv. destruct x as [tx bh]. outcome_inv. simplify_eq/=.
    set (m0 := new_meta _ _ _ _ _) in *.
    assert (tx_len (cop_tx_hash cell) = Some (length (dead_cell m0))) as Hm0.
    { unfold m0. rewrite new_meta_dead_cell, length_replicate. by eapply Hst. }
    split.
    + apply metas_ok_insert; [done|]. unfold unset_dead. by rewrite length_with_dead.
    + intros c.
      assert (<[cop_tx_hash cell := unset_dead m0 (cell_index cell)]> cs =
              <[cop_tx_hash cell := unset_dead m0 (cell_index cell)]>
                (<[cop_tx_hash cell := m0]> cs)) as -> by (by rewrite insert_insert_eq).
      rewrite (unset_dead_live tx_len _ _ m0 _ c);
        [|by apply metas_ok_insert|apply lookup_insert_eq].
      rewrite live_insert. unfold cell_id.
      assert (~ exists i, live cs (cop_tx_hash cell, i)) as Hno.
      { intros (i & m' & ? & ?). simpl in *. congruence. }
      unfold m0. rewrite new_meta_dead_cell. case_decide as Hc; [|naive_solver].
      rewrite lookup_replicate. destruct c as [h i]; simpl in *; subst h. naive_solver.
Qed.

Lemma update_old_inputs_spec l cs up cs' up' :
  metas_ok cs -> store_ok ->
  try_fold (update_old_input (E := E) get_transaction get_block) (cs, up) l = Ok (cs', up') ->
  metas_ok cs' /\ forall c, live cs' c <-> live cs c \/ (c ∈ point_ids l /\ in_tx c).
Proof.
  intros Hwf Hst. revert cs up Hwf. induction l as [|o l IH]; intros cs up Hwf H; simpl in H.
  { simplify_eq/=. unfold point_ids. set_solver. }
  outcome_inv. destruct x as [cs1 up1].
  apply update_old_input_spec in H0 as [Hwf1 Hl1]; [|done..].
  apply IH in H as [Hwf' Hl']; [|done]. split; [done|]. intros c.
  rewrite Hl', Hl1, point_ids_cons. destruct (point_id o); set_solver.
Qed.

Lemma update_old_input_total cs up o :
  restorable cs o ->
  exists cs' up', update_old_input (E := E) get_transaction get_block (cs, up) o = Ok (cs', up') /\
    (forall o', restorable cs o' -> restorable cs' o').
Proof.
  unfold restorable, point_id, update_old_input, try_mark_live. intros H.
  destruct (op_cell o) as [cell|]; simpl; [|eauto].
  assert (forall m, forall o' : OutPoint,
    (forall c, cell_id <$> op_cell o' = Some c -> is_Some (cs !! c.1) \/
       exists tx bh b t, get_transaction c.1 = Some (tx, bh) /\ get_block bh = Some b /\
         head (b_transactions b) = Some t) ->
    (forall c, cell_id <$> op_cell o' = Some c -> is_Some (<[cop_tx_hash cell := m]> cs !! c.1) \/
       exists tx bh b t, get_transaction c.1 = Some (tx, bh) /\ get_block bh = Some b /\
         head (b_transactions b) = Some t)) as Hmono.
  { intros m o' Ho' c Hc. rewrite lookup_insert_is_Some'. specialize (Ho' c Hc). tauto. }
  destruct (cs !! cop_tx_hash cell) as [m|] eqn:Hm; [by eauto|].
  destruct (H _ eq_refl) as [[? Hs]|(tx & bh & b & t & Htx & Hb & Ht)]; simpl in *.
  { rewrite Hm in Hs. done. }
  rewrite Htx. simpl. rewrite Hb. simpl. rewrite Ht. simpl. eauto.
Qed.

Lemma update_old_inputs_total l cs up :
  Forall (restorable cs) l ->
  exists r, try_fold (update_old_input (E := E) get_transaction get_block) (cs, up) l = Ok r.
Proof.
  revert cs up. induction l as [|o l IH]; intros cs up; [by eauto|].
  intros [Ho Hl]%Forall_cons. cbn [try_fold].
  destruct (update_old_input_total cs up o Ho) as (cs' & up' & -> & Hmono). rewrite bind_ret_l.
  apply IH. by eapply Forall_impl.
Qed.
End restore.
