(* ===== verification/LiveCells.v ===== *)
(** * The cell set implements the live cells of the main chain

    The specification of the cell set is the set of unspent outputs: a
    transaction removes the cells it spends and adds its outputs, block after
    block.  [update_tip] applies a whole reorganisation at once, from a diff of
    unordered sets; the theorems of this file relate the two, and relate the
    set in memory to its copy on disk. *)
From S2P Require Import Prelude Capacity Transactions Blocks Fixtures CellSet.

(** ** The specification *)
Abbreviation cell := (H256 * nat)%type (only parsing).

(** The marker input of a withdrawal from the DAO spends no cell. *)
Definition dao_cell : H256 * nat := (ISSUING_DAO_HASH, 0%nat).

Definition tx_ins (tx : Transaction) : gset cell :=
  point_ids (input_pts tx) ∖ {[dao_cell]}.
Definition tx_outs (tx : Transaction) : gset cell :=
  list_to_set (pair (tx_hash tx) <$> seq 0 (length (tx_outputs tx))).
Definition tx_apply (A : gset cell) (tx : Transaction) : gset cell :=
  (A ∖ tx_ins tx) ∪ tx_outs tx.
Definition txs_apply (A : gset cell) (txs : list Transaction) : gset cell :=
  fold_left tx_apply txs A.

(** Every transaction spends cells that are live when its turn comes. *)
Fixpoint txs_valid (A : gset cell) (txs : list Transaction) : Prop :=
  match txs with
  | [] => True
  | tx :: txs => tx_ins tx ⊆ A /\ txs_valid (tx_apply A tx) txs
  end.

Definition blocks_txs (bs : list Block) : list Transaction := mjoin (b_transactions <$> bs).

(** Transactions are new: they are pairwise distinct, and none has cells in [A]. *)
Definition txs_fresh (A : gset cell) (txs : list Transaction) : Prop :=
  NoDup (tx_hash <$> txs) /\ forall tx i, tx ∈ txs -> (tx_hash tx, i) ∉ A.

Definition all_ins (txs : list Transaction) : gset cell := ⋃ (tx_ins <$> txs).
Definition all_outs (txs : list Transaction) : gset cell := ⋃ (tx_outs <$> txs).

(** The diff of a reorganisation that detaches and attaches blocks. *)
Definition reorg_diff (detached attached : list Block) : CellSetDiff :=
  fold_left push_new attached (fold_left push_old detached empty_diff).

(** ** Lemmas on the specification *)
Lemma elem_of_tx_outs c tx :
  c ∈ tx_outs tx <-> c.1 = tx_hash tx /\ (c.2 < length (tx_outputs tx))%nat.
Proof.
  unfold tx_outs. rewrite elem_of_list_to_set, list_elem_of_fmap.
  setoid_rewrite elem_of_seq. destruct c as [h i]; simpl. split.
  - intros (j & [= -> ->] & ?). split; [done|lia].
  - intros [-> ?]. exists i. split; [done|lia].
Qed.

Lemma elem_of_all_outs c txs :
  c ∈ all_outs txs <-> exists tx, tx ∈ txs /\ c ∈ tx_outs tx.
Proof.
  unfold all_outs. rewrite elem_of_union_list. setoid_rewrite list_elem_of_fmap. naive_solver.
Qed.

Lemma elem_of_all_ins c txs :
  c ∈ all_ins txs <-> exists tx, tx ∈ txs /\ c ∈ tx_ins tx.
Proof.
  unfold all_ins. rewrite elem_of_union_list. setoid_rewrite list_elem_of_fmap. naive_solver.
Qed.

Lemma txs_valid_ins A txs : txs_valid A txs -> all_ins txs ⊆ A ∪ all_outs txs.
Proof.
  revert A. induction txs as [|tx txs IH]; intros A; simpl; [set_solver|].
  intros [Hin Hv]. apply IH in Hv. unfold all_ins, all_outs, tx_apply in *. simpl. set_solver.
Qed.

(** Applying a valid sequence of new transactions in order is adding all
    outputs and then removing all inputs: what the diff computes. *)
Lemma txs_apply_batch A txs :
  txs_fresh A txs -> txs_valid A txs ->
  txs_apply A txs = (A ∪ all_outs txs) ∖ all_ins txs.
Proof.
  unfold txs_apply, txs_fresh. intros [Hnd Hf] Hv. revert A Hnd Hf Hv.
  induction txs as [|tx txs IH]; intros A Hnd Hf Hv; simpl; [unfold all_outs, all_ins; set_solver|].
  destruct Hv as [Hin Hv]. apply NoDup_cons in Hnd as [Hn Hnd].
  assert (forall c, c ∈ tx_outs tx -> c.1 = tx_hash tx) as Hown
    by (intros c [? _]%elem_of_tx_outs; done).
  assert (forall c t, t ∈ txs -> c ∈ tx_outs t -> c.1 <> tx_hash tx) as Hother.
  { intros c t Ht [-> _]%elem_of_tx_outs Heq. apply Hn. rewrite <- Heq.
    by apply list_elem_of_fmap_2. }
  assert (forall c, c ∈ A -> c.1 <> tx_hash tx) as HA.
  { intros [h i] Hc Heq. simpl in Heq. subst h. apply (Hf tx i); [set_solver|done]. }
  rewrite IH; [|done| |done].
  - pose proof (elem_of_all_outs) as Ho. pose proof (txs_valid_ins _ _ Hv) as Hi.
    unfold tx_apply in *. apply set_eq. intros c.
    change (all_outs (tx :: txs)) with (tx_outs tx ∪ all_outs txs).
    change (all_ins (tx :: txs)) with (tx_ins tx ∪ all_ins txs).
    assert (c ∈ tx_ins tx -> c ∈ all_outs txs -> False).
    { intros H1%Hin (t & Ht & H2)%elem_of_all_outs. destruct c as [h i].
      apply elem_of_tx_outs in H2 as [H2 _]. simpl in H2. subst h.
      apply (Hf t i); [set_solver|done]. }
    assert (c ∈ tx_ins tx -> c ∈ tx_outs tx -> False).
    { intros H1%Hin%HA H2%Hown. done. }
    set_solver.
  - intros t i Ht Hc. unfold tx_apply in Hc. apply elem_of_union in Hc as [Hc|Hc].
    + apply (Hf t i); set_solver.
    + apply Hn. apply elem_of_tx_outs in Hc as [Hc _]. simpl in Hc. rewrite <- Hc.
      by apply list_elem_of_fmap_2.
Qed.

(** Taking the blocks back gives the set they were applied to. *)
Lemma txs_undo A txs c :
  txs_fresh A txs -> txs_valid A txs ->
  (c ∈ txs_apply A txs \/ c ∈ all_ins txs) /\ c.1 ∉ (tx_hash <$> txs) <-> c ∈ A.
Proof.
  intros Hf Hv. rewrite txs_apply_batch by done. pose proof (txs_valid_ins _ _ Hv) as Hi.
  assert (c ∈ all_outs txs -> c.1 ∈ (tx_hash <$> txs)).
  { intros (t & Ht & [-> _]%elem_of_tx_outs)%elem_of_all_outs. by apply list_elem_of_fmap_2. }
  assert (c ∈ A -> c.1 ∉ (tx_hash <$> txs)).
  { intros Hc (t & Heq & Ht)%list_elem_of_fmap. destruct Hf as [_ Hf], c as [h i].
    simpl in Heq. subst h. by apply (Hf t i). }
  split.
  - intros [[Hc|Hc%Hi] Hh]; set_solver.
  - intros Hc. split; [|auto]. destruct (decide (c ∈ all_ins txs)); set_solver.
Qed.

(** ** Lemmas on the diff of a reorganisation *)
Definition block_txs (b : Block) : list (Block * Transaction) := pair b <$> b_transactions b.
Definition output_info (b : Block) (tx : Transaction) : OutputInfo :=
  (h_number (b_header b), h_epoch (b_header b), is_cellbase tx, length (tx_outputs tx)).

Lemma push_old_spec bs d :
  let d' := fold_left push_old bs d in
  old_inputs d' = old_inputs d ∪ list_to_set (mjoin (input_pts <$> blocks_txs bs)) /\
  old_outputs d' = old_outputs d ∪ list_to_set (tx_hash <$> blocks_txs bs) /\
  new_inputs d' = new_inputs d /\ new_outputs d' = new_outputs d.
Proof.
  assert (forall txs d, let d' := fold_left (fun self tx =>
      mkDiff (old_inputs self ∪ list_to_set (input_pts tx))
        ({[tx_hash tx]} ∪ old_outputs self) (new_inputs self) (new_outputs self)) txs d in
    old_inputs d' = old_inputs d ∪ list_to_set (mjoin (input_pts <$> txs)) /\
    old_outputs d' = old_outputs d ∪ list_to_set (tx_hash <$> txs) /\
    new_inputs d' = new_inputs d /\ new_outputs d' = new_outputs d) as Hblock.
  { induction txs as [|tx txs IH]; intros d0; simpl; [set_solver|].
    destruct (IH (mkDiff (old_inputs d0 ∪ list_to_set (input_pts tx))
      ({[tx_hash tx]} ∪ old_outputs d0) (new_inputs d0) (new_outputs d0))) as (-> & -> & -> & ->).
    simpl. rewrite list_to_set_app_L. set_solver. }
  revert d. induction bs as [|b bs IH]; intros d; simpl; [unfold blocks_txs; set_solver|].
  destruct (IH (push_old d b)) as (-> & -> & -> & ->).
  destruct (Hblock (b_transactions b) d) as (Ha & Hb & Hc & Hd).
  unfold push_old. rewrite Ha, Hb, Hc, Hd. unfold blocks_txs. simpl.
  rewrite fmap_app, join_app, list_to_set_app_L, fmap_app, list_to_set_app_L. set_solver.
Qed.

Lemma push_new_block txs n e d :
  let d' := fold_left (fun self tx =>
      mkDiff (old_inputs self) (old_outputs self)
        (new_inputs self ∪ list_to_set (input_pts tx))
        (<[tx_hash tx := (n, e, is_cellbase tx, length (tx_outputs tx))]> (new_outputs self)))
      txs d in
  old_inputs d' = old_inputs d /\ old_outputs d' = old_outputs d /\
  new_inputs d' = new_inputs d ∪ list_to_set (mjoin (input_pts <$> txs)) /\
  (NoDup (tx_hash <$> txs) -> forall h info, new_outputs d' !! h = Some info <->
     (exists tx, tx ∈ txs /\ h = tx_hash tx /\
        info = (n, e, is_cellbase tx, length (tx_outputs tx))) \/
     ((h ∉ (tx_hash <$> txs)) /\ new_outputs d !! h = Some info)).
Proof.
  revert d. induction txs as [|tx txs IH]; intros d; simpl.
  { split_and!; [done..|set_solver|set_solver]. }
  destruct (IH (mkDiff (old_inputs d) (old_outputs d)
    (new_inputs d ∪ list_to_set (input_pts tx))
    (<[tx_hash tx := (n, e, is_cellbase tx, length (tx_outputs tx))]> (new_outputs d))))
    as (-> & -> & -> & Hout). simpl in *.
  split_and!; [done..|rewrite list_to_set_app_L; set_solver|].
  intros [Hn Hnd]%NoDup_cons h info. rewrite Hout by done.
  rewrite not_elem_of_cons. split.
  - intros [(t & ? & ?)|[Hh Hl]]; [left; set_solver|].
    apply lookup_insert_Some in Hl as [[<- <-]|[? ?]]; [left; set_solver|right; naive_solver].
  - intros [(t & [->|Ht]%elem_of_cons & -> & ->)|[[? ?] ?]].
    + right. split; [done|]. apply lookup_insert_eq.
    + left. eauto.
    + right. split; [done|]. by rewrite lookup_insert_ne by done.
Qed.

Lemma push_new_spec bs d :
  let d' := fold_left push_new bs d in
  old_inputs d' = old_inputs d /\ old_outputs d' = old_outputs d /\
  new_inputs d' = new_inputs d ∪ list_to_set (mjoin (input_pts <$> blocks_txs bs)) /\
  (NoDup (tx_hash <$> blocks_txs bs) -> forall h info, new_outputs d' !! h = Some info <->
     (exists b tx, b ∈ bs /\ tx ∈ b_transactions b /\ h = tx_hash tx /\ info = output_info b tx) \/
     ((h ∉ (tx_hash <$> blocks_txs bs)) /\ new_outputs d !! h = Some info)).
Proof.
  revert d. induction bs as [|b bs IH]; intros d; simpl.
  { unfold blocks_txs. split_and!; [done..|set_solver|set_solver]. }
  destruct (IH (push_new d b)) as (-> & -> & -> & Hout).
  destruct (push_new_block (b_transactions b) (h_number (b_header b)) (h_epoch (b_header b)) d)
    as (Ha & Hb & Hc & Hd).
  unfold push_new in *. rewrite Ha, Hb, Hc. unfold blocks_txs in *. simpl.
  rewrite !fmap_app, join_app, list_to_set_app_L.
  split_and!; [done..|set_solver|].
  intros (Hnd1 & Hdisj & Hnd2)%NoDup_app h info. rewrite Hout, Hd by done.
  rewrite elem_of_app. split.
  - intros [(b' & tx & ? & ? & ?)|[Hh [(tx & Ht & -> & ->)|[? ?]]]].
    + left. exists b', tx. set_solver.
    + left. exists b, tx. set_solver.
    + right. set_solver.
  - intros [(b' & tx & [->|Hb']%elem_of_cons & Ht & -> & ->)|[Hh Hl]].
    + right. split; [|left; eauto]. apply Hdisj. by apply list_elem_of_fmap_2.
    + left. exists b', tx. done.
    + right. split; [set_solver|]. right. set_solver.
Qed.

Lemma elem_of_blocks_txs tx bs :
  tx ∈ blocks_txs bs <-> exists b, b ∈ bs /\ tx ∈ b_transactions b.
Proof. apply elem_of_join_fmap. Qed.

(** The cells a diff creates are the outputs of the attached transactions. *)
Lemma reorg_diff_new_outputs D N c :
  NoDup (tx_hash <$> blocks_txs N) ->
  (exists n e b len, new_outputs (reorg_diff D N) !! c.1 = Some (n, e, b, len) /\ (c.2 < len)%nat)
  <-> c ∈ all_outs (blocks_txs N).
Proof.
  intros Hnd. unfold reorg_diff.
  destruct (push_old_spec D empty_diff) as (_ & _ & _ & Hno).
  destruct (push_new_spec N (fold_left push_old D empty_diff)) as (_ & _ & _ & Hout).
  setoid_rewrite Hout; [|done]. rewrite Hno, elem_of_all_outs. simpl. clear Hout Hno. split.
  - intros (n & e & b & len & [(bl & tx & Hb & Ht & Hh & [= -> -> -> ->])|[_ []%lookup_empty_Some]] & Hlt).
    exists tx. rewrite elem_of_blocks_txs, elem_of_tx_outs. eauto.
  - intros (tx & (bl & Hb & Ht)%elem_of_blocks_txs & [Hh Hlt]%elem_of_tx_outs).
    do 4 eexists. split; [left; by exists bl, tx|done].
Qed.

Lemma reorg_diff_new_hashes D N h :
  NoDup (tx_hash <$> blocks_txs N) ->
  is_Some (new_outputs (reorg_diff D N) !! h) <-> h ∈ (tx_hash <$> blocks_txs N).
Proof.
  intros Hnd. unfold reorg_diff.
  destruct (push_old_spec D empty_diff) as (_ & _ & _ & Hno).
  destruct (push_new_spec N (fold_left push_old D empty_diff)) as (_ & _ & _ & Hout).
  unfold is_Some. setoid_rewrite Hout; [|done]. rewrite Hno, list_elem_of_fmap.
  simpl. clear Hout Hno. setoid_rewrite elem_of_blocks_txs. split.
  - intros (info & [(b & tx & ? & ? & ? & ?)|[_ []%lookup_empty_Some]]). eauto.
  - intros (tx & -> & b & ? & ?). eexists. left. by exists b, tx.
Qed.

Lemma elem_of_reorg_inputs c bs (l : list OutPoint) :
  l ≡ₚ elements (list_to_set (mjoin (input_pts <$> blocks_txs bs)) : gset OutPoint) ->
  c <> dao_cell -> c ∈ point_ids l <-> c ∈ all_ins (blocks_txs bs).
Proof.
  intros Hl Hd. rewrite elem_of_point_ids, elem_of_all_ins.
  assert (forall o, o ∈ l <-> exists tx, tx ∈ blocks_txs bs /\ o ∈ input_pts tx) as Ho.
  { intros o. by rewrite Hl, elem_of_elements, elem_of_list_to_set, elem_of_join_fmap. }
  unfold tx_ins. setoid_rewrite elem_of_difference. setoid_rewrite elem_of_point_ids.
  setoid_rewrite elem_of_singleton. setoid_rewrite Ho. naive_solver.
Qed.

(** ** What [update_tip] does to the live cells *)
Section update_tip_live.
Context {E : Type}.
Context (tx_len : H256 -> option nat).
Context (get_transaction : H256 -> option (Transaction * H256)).
Context (get_block : H256 -> option Block).

Lemma live_update_tip st hd td o st' :
  metas_ok tx_len (ts_cell_set st) -> store_ok tx_len get_transaction ->
  NoDup (ord_new_outputs o).*1 ->
  update_tip (E := E) get_transaction get_block st hd td o = Ok st' ->
  forall c, live (ts_cell_set st') c <->
    ((exists n e b len, (c.1, (n, e, b, len)) ∈ ord_new_outputs o /\ (c.2 < len)%nat) \/
     ((c.1 ∉ (ord_new_outputs o).*1) /\
      (live (ts_cell_set st) c \/ (c ∈ point_ids (ord_old_inputs o) /\ in_tx tx_len c)) /\
      (c.1 ∉ ord_old_outputs o))) /\
    (c ∉ point_ids (ord_new_inputs o)).
Proof.
  intros Hwf Hst Hnd H c. unfold update_tip in H. outcome_inv. destruct x as [cs1 up1].
  apply (update_old_inputs_spec tx_len) in H0 as [_ Hl1]; [|done..].
  pose proof (live_remove_old_outputs (ord_old_outputs o) cs1 [] c) as Hl2.
  destruct (fold_left remove_old_output _ _) as [cs2 rm2].
  pose proof (live_insert_new_outputs (ord_new_outputs o) cs2 [] c Hnd) as Hl3.
  destruct (fold_left insert_new_output _ _) as [cs3 in3].
  pose proof (live_mark_new_inputs (ord_new_inputs o) cs3 [] [] c) as Hl4.
  destruct (fold_left mark_new_input _ _) as [[cs4 up4] rm4].
  simpl in *. injection H as <-. simpl. rewrite Hl4, Hl3, Hl2, Hl1. done.
Qed.

(** The situation of a reorganisation: the main chain is the blocks that gave
    [A], followed by the blocks [D]; the blocks [N] replace the latter. *)
Record reorg_scenario (A : gset cell) (D N : list Block) (st : TipState) (o : DiffOrder) : Prop := {
  rs_old_fresh : txs_fresh A (blocks_txs D);
  rs_old_valid : txs_valid A (blocks_txs D);
  rs_new_fresh : txs_fresh A (blocks_txs N);
  rs_new_valid : txs_valid A (blocks_txs N);
  rs_live : forall c, live (ts_cell_set st) c <-> c ∈ txs_apply A (blocks_txs D);
  rs_metas : metas_ok tx_len (ts_cell_set st);
  rs_store : store_ok tx_len get_transaction;
  rs_len : forall c, c ∈ A ∪ all_outs (blocks_txs D) ∪ all_outs (blocks_txs N) -> in_tx tx_len c;
  rs_dao : tx_len ISSUING_DAO_HASH = None;
  rs_order : enumerates o (reorg_diff D N);
  rs_restorable : Forall (restorable get_transaction get_block (ts_cell_set st)) (ord_old_inputs o)
}.

Lemma enumerates_new_outputs o D N :
  enumerates o (reorg_diff D N) -> NoDup (tx_hash <$> blocks_txs N) ->
  NoDup (ord_new_outputs o).*1 /\
  (forall h, h ∈ (ord_new_outputs o).*1 <-> h ∈ (tx_hash <$> blocks_txs N)) /\
  (forall c, (exists n e b len, (c.1, (n, e, b, len)) ∈ ord_new_outputs o /\ (c.2 < len)%nat)
     <-> c ∈ all_outs (blocks_txs N)).
Proof.
  intros (_ & _ & _ & Ho) Hnd. split_and!.
  - rewrite Ho. apply NoDup_fst_map_to_list.
  - intros h. rewrite Ho, <- reorg_diff_new_hashes with (D := D) by done.
    rewrite <- elem_of_dom, dom_alt, elem_of_list_to_set. done.
  - intros c. setoid_rewrite Ho. setoid_rewrite elem_of_map_to_list.
    by apply reorg_diff_new_outputs.
Qed.

Lemma enumerates_inputs o D N :
  enumerates o (reorg_diff D N) ->
  (forall c, c <> dao_cell -> c ∈ point_ids (ord_old_inputs o) <-> c ∈ all_ins (blocks_txs D)) /\
  (forall c, c <> dao_cell -> c ∈ point_ids (ord_new_inputs o) <-> c ∈ all_ins (blocks_txs N)) /\
  (forall h, h ∈ ord_old_outputs o <-> h ∈ (tx_hash <$> blocks_txs D)).
Proof.
  intros (Ho1 & Ho2 & Ho3 & _).
  destruct (push_old_spec D empty_diff) as (Hd1 & Hd2 & Hd3 & _).
  destruct (push_new_spec N (fold_left push_old D empty_diff)) as (He1 & He2 & He3 & _).
  change (old_inputs empty_diff) with (∅ : gset OutPoint) in Hd1.
  change (old_outputs empty_diff) with (∅ : gset H256) in Hd2.
  change (new_inputs empty_diff) with (∅ : gset OutPoint) in Hd3.
  unfold reorg_diff in *. rewrite He1, Hd1, union_empty_l_L in Ho1.
  rewrite He2, Hd2, union_empty_l_L in Ho2. rewrite He3, Hd3, union_empty_l_L in Ho3.
  split_and!.
  - intros c. by apply elem_of_reorg_inputs.
  - intros c. by apply elem_of_reorg_inputs.
  - intros h. by rewrite Ho2, elem_of_elements, elem_of_list_to_set.
Qed.

Lemma update_tip_total st o hd td :
  Forall (restorable get_transaction get_block (ts_cell_set st)) (ord_old_inputs o) ->
  exists st', update_tip (E := E) get_transaction get_block st hd td o = Ok st' /\
    ts_tip_header st' = hd /\ ts_total_difficulty st' = td.
Proof.
  intros Hres. unfold update_tip.
  destruct (update_old_inputs_total (E := E) get_transaction get_block
              (ord_old_inputs o) (ts_cell_set st) [] Hres) as [[cs up] ->].
  rewrite bind_ret_l.
  destruct (fold_left remove_old_output _ _) as [cs2 rm2].
  destruct (fold_left insert_new_output _ _) as [cs3 in3].
  destruct (fold_left mark_new_input _ _) as [[cs4 up4] rm4]. eauto.
Qed.

(** C1.  A reorganisation leaves exactly the live cells of the new chain.  If the
    cell set holds the unspent outputs of the old chain and the blocks to
    attach are valid one after the other on top of the fork point, then
    [update_tip] with the diff of the reorganisation returns, for every order
    in which the sets of the diff are iterated, and the live cells of the
    result are those that applying the attached blocks transaction by
    transaction, from the fork point, gives. *)
Theorem update_tip_reorg A D N st o hd td :
  reorg_scenario A D N st o ->
  exists st', update_tip (E := E) get_transaction get_block st hd td o = Ok st' /\
    ts_tip_header st' = hd /\ ts_total_difficulty st' = td /\
    forall c, live (ts_cell_set st') c <-> c ∈ txs_apply A (blocks_txs N).
Proof.
  intros [Hof Hov Hnf Hnv Hlive Hwf Hst Hlen Hdao Hord Hres].
  destruct (enumerates_new_outputs o D N Hord (proj1 Hnf)) as (Hnd & Hhash & Houts).
  destruct (enumerates_inputs o D N Hord) as (Hoi & Hni & Hoo).
  destruct (update_tip_total st o hd td Hres) as (st' & Hst' & Hh & Ht).
  exists st'. split_and!; [done..|]. intros c.
  rewrite (live_update_tip _ _ _ _ _ Hwf Hst Hnd Hst' c), Houts, Hhash, Hlive, Hoo.
  pose proof (txs_undo A _ c Hof Hov) as Hundo.
  assert (c ∈ A -> c.1 ∉ (tx_hash <$> blocks_txs N)) as HAN.
  { intros Hc (t & Heq & Htx)%list_elem_of_fmap. destruct c as [h i]. simpl in Heq. subst h.
    by apply (proj2 Hnf t i). }
  pose proof (Hlen c) as Hc. rewrite !elem_of_union in Hc.
  pose proof (txs_valid_ins _ _ Hov c) as Hins. rewrite elem_of_union in Hins.
  rewrite !txs_apply_batch, !elem_of_difference, !elem_of_union in * by done.
  destruct (decide (c = dao_cell)) as [->|Hd].
  { assert (~ in_tx tx_len dao_cell) by (intros (? & ? & ?); simpl in *; congruence). tauto. }
  rewrite (Hoi c Hd), (Hni c Hd).
  assert (c ∈ all_outs (blocks_txs N) -> c.1 ∈ (tx_hash <$> blocks_txs N)).
  { intros (t & Htx & [-> _]%elem_of_tx_outs)%elem_of_all_outs. by apply list_elem_of_fmap_2. }
  tauto.
Qed.
End update_tip_live.

(** ** The live cells, computed *)
Definition meta_live (p : H256 * TransactionMeta) : list cell :=
  pair p.1 <$> filter (fun i => dead_cell p.2 !! i = Some false) (seq 0 (length (dead_cell p.2))).
Definition live_cells (cs : gmap Z TransactionMeta) : gset cell :=
  list_to_set (mjoin (meta_live <$> map_to_list cs)).

Lemma elem_of_live_cells cs c : c ∈ live_cells cs <-> live cs c.
Proof.
  unfold live_cells, live. rewrite elem_of_list_to_set, elem_of_join_fmap.
  unfold meta_live. setoid_rewrite list_elem_of_fmap.
  setoid_rewrite list_elem_of_filter. setoid_rewrite elem_of_seq. split.
  - intros ([h m] & Hm%elem_of_map_to_list & i & -> & Hi & _). simpl in *. eauto.
  - intros (m & Hm & Hd). destruct c as [h i]. exists (h, m). simpl in *.
    rewrite elem_of_map_to_list. split; [done|]. exists i. apply lookup_lt_Some in Hd as ?.
    split_and!; [done..|lia|lia].
Qed.

(** ** Deciding the hypotheses on concrete data *)
#[export] Instance txs_valid_dec A txs : Decision (txs_valid A txs).
Proof.
  revert A. induction txs as [|tx txs IH]; intros A; simpl; [left; exact I|].
  apply and_dec; [apply _|apply IH].
Defined.

#[export] Instance in_tx_dec tx_len c : Decision (in_tx tx_len c).
Proof.
  unfold in_tx. destruct (tx_len c.1) as [n|].
  - destruct (decide (c.2 < n)%nat); [left; eauto|right; naive_solver].
  - right. naive_solver.
Defined.

Lemma txs_fresh_check A txs :
  NoDup (tx_hash <$> txs) /\ Forall (fun tx => tx_hash tx ∉ (elements A).*1) txs ->
  txs_fresh A txs.
Proof.
  intros [Hnd Hf]. split; [done|]. intros tx i Htx Hin.
  rewrite Forall_forall in Hf. apply (Hf tx); [done|].
  by apply (list_elem_of_fmap_2' fst _ (tx_hash tx, i)); [apply elem_of_elements|].
Qed.

(** ** A reorganisation of one block against two *)
Module ReorgExample.
Definition base : gset cell := {[(10, 0%nat)]}.
Definition old_chain : list Block := [simple_block 1 100 101 [simple_tx 20 [new_cell 10 0] 1]].
Definition new_chain : list Block :=
  [simple_block 1 100 201 [simple_tx 30 [new_cell 10 0] 2];
   simple_block 2 201 202 [simple_tx 31 [new_cell 30 0; new_issuing_dao] 1]].
Definition state : TipState :=
  mkTipState (simple_header 1 100 101) 1
    {[10 := mkMeta 0 0 false [true]; 20 := mkMeta 1 0 false [false]]}
    {[20 := mkMeta 1 0 false [false]]}.
Definition tx_len (h : H256) : option nat :=
  if decide (h = 30) then Some 2%nat
  else if decide (h ∈ [10; 20; 31]) then Some 1%nat else None.
Definition no_tx (h : H256) : option (Transaction * H256) := None.
Definition no_block (h : H256) : option Block := None.
Definition order : DiffOrder := some_order (reorg_diff old_chain new_chain).

Lemma scenario : reorg_scenario tx_len no_tx no_block base old_chain new_chain state order.
Proof.
  split.
  - apply txs_fresh_check. by_compute.
  - by_compute.
  - apply txs_fresh_check. by_compute.
  - by_compute.
  - intros c. rewrite <- elem_of_live_cells.
    assert (live_cells (ts_cell_set state) = txs_apply base (blocks_txs old_chain)) as ->
      by by_compute. done.
  - change (map_Forall (fun h m => tx_len h = Some (length (dead_cell m))) (ts_cell_set state)).
    by_compute.
  - done.
  - change (set_Forall (in_tx tx_len)
      (base ∪ all_outs (blocks_txs old_chain) ∪ all_outs (blocks_txs new_chain))). by_compute.
  - reflexivity.
  - done.
  - assert (ord_old_inputs order = [new_cell 10 0]) as -> by by_compute.
    apply Forall_singleton. intros c [= <-]. left. eexists. vm_compute. reflexivity.
Qed.
End ReorgExample.

Lemma update_tip_reorg_witness :
  exists st', update_tip (E := unit) ReorgExample.no_tx ReorgExample.no_block
      ReorgExample.state (simple_header 2 201 202) 2 ReorgExample.order = Ok st' /\
    ts_tip_header st' = simple_header 2 201 202 /\ ts_total_difficulty st' = 2 /\
    forall c, live (ts_cell_set st') c <->
      c ∈ txs_apply ReorgExample.base (blocks_txs ReorgExample.new_chain).
Proof.
  apply (update_tip_reorg ReorgExample.tx_len ReorgExample.no_tx ReorgExample.no_block
           ReorgExample.base ReorgExample.old_chain ReorgExample.new_chain).
  exact ReorgExample.scenario.
Defined.
