(* ===== verification/CellPersistence.v ===== *)
(** * The cell set on disk

    [update_tip] of [shared/src/chain_state.rs] collects the entries it changed
    and writes them in one batch; [init_cell_set] loads them back when the node
    starts.  An entry whose cells are all dead is deleted from the disk and kept
    in memory. *)
From S2P Require Import Prelude Capacity Transactions Blocks Fixtures CellSet LiveCells.

Definition persisted_at (disk cs : gmap Z TransactionMeta) (h : H256) : Prop :=
  disk !! h = cs !! h \/
  (disk !! h = None /\ exists m, cs !! h = Some m /\ all_dead m = true).
(** The disk holds every entry of the set, but those whose cells are all dead
    may be missing. *)
Definition persisted (disk cs : gmap Z TransactionMeta) : Prop :=
  forall h, persisted_at disk cs h.

Lemma persisted_insert disk cs h m :
  persisted disk cs -> persisted (<[h := m]> disk) (<[h := m]> cs).
Proof.
  intros H h'. unfold persisted_at. destruct (decide (h = h')) as [->|].
  - rewrite !lookup_insert_eq. by left.
  - rewrite !lookup_insert_ne by done. apply H.
Qed.

Lemma persisted_delete disk cs h :
  persisted disk cs -> persisted (delete h disk) (delete h cs).
Proof.
  intros H h'. unfold persisted_at. destruct (decide (h = h')) as [->|].
  - rewrite !lookup_delete_eq. by left.
  - rewrite !lookup_delete_ne by done. apply H.
Qed.

Lemma batch_update_snoc disk l h m :
  batch_update disk (l ++ [(h, m)]) = <[h := m]> (batch_update disk l).
Proof. unfold batch_update. by rewrite fold_left_app. Qed.

Lemma batch_delete_snoc disk l h : batch_delete disk (l ++ [h]) = delete h (batch_delete disk l).
Proof. unfold batch_delete. by rewrite fold_left_app. Qed.

Lemma batch_delete_lookup disk l h :
  batch_delete disk l !! h = if decide (h ∈ l) then None else disk !! h.
Proof.
  unfold batch_delete. revert disk. induction l as [|h' l IH]; intros disk; cbn [fold_left].
  - by rewrite decide_False by set_solver.
  - rewrite IH. destruct (decide (h ∈ l)); [by rewrite decide_True by set_solver|].
    destruct (decide (h = h')) as [->|].
    + rewrite decide_True by set_solver. apply lookup_delete_eq.
    + rewrite decide_False by set_solver. by rewrite lookup_delete_ne by done.
Qed.

Section persistence.
Context {E : Type}.
Context (get_transaction : H256 -> option (Transaction * H256)).
Context (get_block : H256 -> option Block).

Lemma persisted_old_inputs l disk cs up cs' up' :
  persisted (batch_update disk up) cs ->
  try_fold (update_old_input (E := E) get_transaction get_block) (cs, up) l = Ok (cs', up') ->
  persisted (batch_update disk up') cs'.
Proof.
  revert cs up. induction l as [|o l IH]; intros cs up Hp H; simpl in H; [by simplify_eq|].
  outcome_inv. destruct x as [cs1 up1]. apply (IH cs1 up1); [|done]. clear IH H.
  unfold update_old_input, try_mark_live in H0.
  destruct (op_cell o) as [c|]; [|by simplify_eq].
  destruct (cs !! cop_tx_hash c) as [m|].
  - simplify_eq/=. rewrite batch_update_snoc. by apply persisted_insert.
  - outcome_inv. destruct x as [tx bh]. outcome_inv. simplify_eq/=.
    rewrite batch_update_snoc. by apply persisted_insert.
Qed.

Lemma persisted_old_outputs l disk cs rm :
  persisted (batch_delete disk rm) cs ->
  let r := fold_left remove_old_output l (cs, rm) in persisted (batch_delete disk r.2) r.1.
Proof.
  revert cs rm. induction l as [|h l IH]; intros cs rm Hp; simpl; [done|].
  destruct (cs !! h); apply IH; [|done].
  rewrite batch_delete_snoc. by apply persisted_delete.
Qed.

Lemma persisted_new_outputs l disk cs ins :
  persisted (batch_update disk ins) cs ->
  let r := fold_left insert_new_output l (cs, ins) in persisted (batch_update disk r.2) r.1.
Proof.
  revert cs ins. induction l as [|[h [[[n e] b] len]] l IH]; intros cs ins Hp; simpl; [done|].
  apply IH. rewrite batch_update_snoc. by apply persisted_insert.
Qed.

(** While inputs are marked, the entries to delete are those already all dead. *)
Definition marking (disk cs : gmap Z TransactionMeta) (up : list (H256 * TransactionMeta))
    (rm : list H256) : Prop :=
  forall h, if decide (h ∈ rm) then exists m, cs !! h = Some m /\ all_dead m = true
            else persisted_at (batch_update disk up) cs h.

Lemma marking_step disk cs up rm o :
  marking disk cs up rm ->
  let r := mark_new_input (cs, up, rm) o in marking disk r.1.1 r.1.2 r.2.
Proof.
  intros Hm. unfold mark_new_input, mark_dead.
  destruct (op_cell o) as [c|]; [|done]. set (h := cop_tx_hash c).
  destruct (cs !! h) as [m|] eqn:Hh; [|done]. simpl.
  pose proof (Hm h) as Hmh. set (m' := set_dead m (cell_index c)).
  destruct (all_dead m') eqn:Hall; simpl; intros h'; specialize (Hm h').
  - destruct (decide (h = h')) as [<-|Hne].
    + rewrite decide_True by set_solver. rewrite lookup_insert_eq. eauto.
    + destruct (decide (h' ∈ rm)).
      * rewrite decide_True by set_solver. by rewrite lookup_insert_ne.
      * rewrite decide_False by set_solver. unfold persisted_at in *. by rewrite lookup_insert_ne.
  - destruct (decide (h = h')) as [<-|Hne].
    + destruct (decide (h ∈ rm)) as [Hin|].
      * destruct Hmh as (m0 & ? & ?). simplify_eq.
        unfold m' in Hall. by rewrite all_dead_set_dead in Hall.
      * unfold persisted_at. rewrite batch_update_snoc, !lookup_insert_eq. by left.
    + destruct (decide (h' ∈ rm)); [by rewrite lookup_insert_ne|].
      unfold persisted_at in *. by rewrite batch_update_snoc, !lookup_insert_ne.
Qed.

Lemma marking_new_inputs l disk cs up rm :
  marking disk cs up rm ->
  let r := fold_left mark_new_input l (cs, up, rm) in marking disk r.1.1 r.1.2 r.2.
Proof.
  revert cs up rm. induction l as [|o l IH]; intros cs up rm Hm; [done|].
  cbn [fold_left]. pose proof (marking_step disk cs up rm o Hm) as Hs.
  destruct (mark_new_input (cs, up, rm) o) as [[cs1 up1] rm1]. by apply IH.
Qed.

Lemma marking_persisted disk cs up rm :
  marking disk cs up rm -> persisted (batch_delete (batch_update disk up) rm) cs.
Proof.
  intros Hm h. specialize (Hm h). unfold persisted_at. rewrite batch_delete_lookup.
  case_decide; [by right|done].
Qed.

Lemma update_tip_persisted st hd td o st' :
  persisted (ts_disk st) (ts_cell_set st) ->
  update_tip (E := E) get_transaction get_block st hd td o = Ok st' ->
  persisted (ts_disk st') (ts_cell_set st').
Proof.
  intros Hp H. unfold update_tip in H. outcome_inv. destruct x as [cs1 up1].
  apply (persisted_old_inputs _ (ts_disk st)) in H0; [|done].
  pose proof (persisted_old_outputs (ord_old_outputs o) _ cs1 [] H0) as H2.
  destruct (fold_left remove_old_output _ _) as [cs2 rm2].
  pose proof (persisted_new_outputs (ord_new_outputs o) _ cs2 [] H2) as H3.
  destruct (fold_left insert_new_output _ _) as [cs3 in3].
  assert (marking (batch_update (batch_delete (batch_update (ts_disk st) up1) rm2) in3) cs3 [] [])
    as H4 by (intros h; rewrite decide_False by set_solver; apply H3).
  apply (marking_new_inputs (ord_new_inputs o)) in H4.
  destruct (fold_left mark_new_input _ _) as [[cs4 up4] rm4].
  apply marking_persisted in H4. simpl in *. by injection H as <-.
Qed.
End persistence.

(** What a restarted node loads. *)
Lemma init_cell_set_lookup entries disk :
  entries ≡ₚ map_to_list disk -> init_cell_set entries = disk.
Proof.
  intros Hp. change (insert_all ∅ entries = disk). apply map_eq. intros h.
  apply option_eq. intros x.
  rewrite insert_all_lookup by (rewrite Hp; apply NoDup_fst_map_to_list).
  rewrite lookup_empty, Hp, elem_of_map_to_list. naive_solver.
Qed.

Lemma persisted_live disk cs c : persisted disk cs -> live disk c <-> live cs c.
Proof.
  intros Hp. unfold live. destruct (Hp c.1) as [->|[-> (m & -> & Hm)]]; [done|].
  rewrite all_dead_spec in Hm. naive_solver.
Qed.

(** C2.  The cell set survives a restart.  Whenever the disk holds the cell set
    up to entries without live cells, it does so again after [update_tip], for
    every iteration order of the diff; and a node that restarts there loads a
    cell set with exactly the live cells the running node has. *)
Theorem update_tip_restart {E} get_transaction get_block st hd td o st' entries :
  persisted (ts_disk st) (ts_cell_set st) ->
  update_tip (E := E) get_transaction get_block st hd td o = Ok st' ->
  entries ≡ₚ map_to_list (ts_disk st') ->
  persisted (ts_disk st') (ts_cell_set st') /\
  forall c, live (init_cell_set entries) c <-> live (ts_cell_set st') c.
Proof.
  intros Hp Hu He. apply update_tip_persisted in Hu; [|done]. split; [done|].
  intros c. rewrite (init_cell_set_lookup _ _ He). by apply persisted_live.
Qed.

Lemma example_persisted : persisted (ts_disk ReorgExample.state) (ts_cell_set ReorgExample.state).
Proof.
  intros h. unfold persisted_at, ReorgExample.state; simpl.
  destruct (decide (h = 10)) as [->|]; [right; split; [done|]; by eexists|].
  left. by rewrite lookup_insert_ne by done.
Qed.

Lemma update_tip_restart_witness :
  exists st',
    update_tip (E := unit) ReorgExample.no_tx ReorgExample.no_block
      ReorgExample.state (simple_header 2 201 202) 2 ReorgExample.order = Ok st' /\
    persisted (ts_disk st') (ts_cell_set st') /\
    forall c, live (init_cell_set (map_to_list (ts_disk st'))) c <-> live (ts_cell_set st') c.
Proof.
  destruct (update_tip (E := unit) ReorgExample.no_tx ReorgExample.no_block
      ReorgExample.state (simple_header 2 201 202) 2 ReorgExample.order) as [st'|e|] eqn:Hu.
  - exists st'. split; [done|].
    exact (update_tip_restart _ _ _ _ _ _ _ _ example_persisted Hu (Permutation_refl _)).
  - exfalso. vm_compute in Hu. discriminate Hu.
  - exfalso. vm_compute in Hu. discriminate Hu.
Defined.
