(* ===== verification/CellOverlay.v ===== *)
(** * The overlay against the update

    During a reorganisation the blocks to attach are verified one after the
    other against [CellSet::new_overlay] of the diff collected so far; once all
    are verified [update_tip] applies that diff.  This file compares the two:
    they give the same live cells when every input of the diff refers to a
    transaction of the cell set, and not otherwise. *)
From S2P Require Import Prelude Capacity Transactions Blocks Fixtures CellSet LiveCells.

Definition overlay_live (ov : CellSetOverlay) (c : H256 * nat) : Prop :=
  exists m, overlay_get ov c.1 = Some m /\ dead_cell m !! c.2 = Some false.

Lemma overlay_live_union ov c :
  overlay_live ov c <-> (c.1 ∉ ov_removed ov) /\ live (ov_new ov ∪ ov_origin ov) c.
Proof.
  unfold overlay_live, overlay_get, live. rewrite lookup_union.
  case_decide; [naive_solver|].
  destruct (ov_new ov !! c.1), (ov_origin ov !! c.1); naive_solver.
Qed.

(** ** Bit updates of the overlay *)
Lemma overlay_touch_union inner f new o :
  overlay_touch inner f new o ∪ inner =
  match op_cell o with
  | Some cell =>
      match (new ∪ inner) !! cop_tx_hash cell, inner !! cop_tx_hash cell with
      | Some m, Some _ => <[cop_tx_hash cell := f m (cell_index cell)]> (new ∪ inner)
      | _, _ => new ∪ inner
      end
  | None => new ∪ inner
  end.
Proof.
  unfold overlay_touch. destruct (op_cell o) as [cell|]; [|done].
  rewrite lookup_union. destruct (inner !! cop_tx_hash cell) as [m|] eqn:Hm; simpl.
  - destruct (new !! cop_tx_hash cell); simpl; by rewrite insert_union_l.
  - by destruct (new !! cop_tx_hash cell).
Qed.

Lemma lookup_union_is_Some_r (m1 m2 : gmap Z TransactionMeta) h :
  is_Some (m2 !! h) -> exists m, (m1 ∪ m2) !! h = Some m.
Proof. intros [m Hm]. rewrite lookup_union, Hm. destruct (m1 !! h); simpl; eauto. Qed.

Lemma live_touch_set_dead inner new l c :
  live (fold_left (overlay_touch inner set_dead) l new ∪ inner) c <->
  live (new ∪ inner) c /\ ~ (c ∈ point_ids l /\ is_Some (inner !! c.1)).
Proof.
  revert new. induction l as [|o l IH]; intros new; cbn [fold_left].
  { unfold point_ids. set_solver. }
  rewrite IH, point_ids_cons, overlay_touch_union. clear IH.
  unfold point_id. destruct (op_cell o) as [cell|]; simpl; [|done].
  destruct (inner !! cop_tx_hash cell) as [m0|] eqn:Hin.
  - destruct (lookup_union_is_Some_r new inner (cop_tx_hash cell)) as [m Hm]; [by eauto|].
    pose proof (live_mark_dead (new ∪ inner) cell c) as Hd. unfold mark_dead in Hd.
    rewrite Hm in Hd |- *. simpl in Hd. rewrite Hd.
    rewrite elem_of_union, elem_of_singleton.
    assert (c = cell_id cell -> is_Some (inner !! c.1)) by (intros ->; eauto). tauto.
  - assert (c = cell_id cell -> ~ is_Some (inner !! c.1)) as Hno.
    { intros -> [? ?]. simpl in *. congruence. }
    rewrite elem_of_union, elem_of_singleton.
    destruct ((new ∪ inner) !! cop_tx_hash cell); tauto.
Qed.

Section unset.
Context (tx_len : H256 -> option nat).

Lemma live_touch_unset_dead inner new l c :
  metas_ok tx_len (new ∪ inner) ->
  live (fold_left (overlay_touch inner unset_dead) l new ∪ inner) c <->
  live (new ∪ inner) c \/ (c ∈ point_ids l /\ is_Some (inner !! c.1) /\ in_tx tx_len c).
Proof.
  revert new. induction l as [|o l IH]; intros new Hwf; cbn [fold_left].
  { unfold point_ids. set_solver. }
  assert (metas_ok tx_len (overlay_touch inner unset_dead new o ∪ inner) /\
    (live (overlay_touch inner unset_dead new o ∪ inner) c <->
     live (new ∪ inner) c \/ (point_id o = Some c /\ is_Some (inner !! c.1) /\ in_tx tx_len c)))
    as [Hwf' Hl].
  { rewrite overlay_touch_union. unfold point_id. destruct (op_cell o) as [cell|]; simpl;
      [|naive_solver].
    destruct (inner !! cop_tx_hash cell) as [m0|] eqn:Hin.
    - destruct (lookup_union_is_Some_r new inner (cop_tx_hash cell)) as [m Hm]; [by eauto|].
      rewrite Hm. split.
      + apply metas_ok_insert; [done|]. unfold unset_dead. rewrite length_with_dead. by apply Hwf.
      + rewrite (unset_dead_live tx_len _ _ m _ c Hwf Hm). unfold cell_id.
        assert (c = (cop_tx_hash cell, cell_index cell) -> is_Some (inner !! c.1))
          by (intros ->; eauto). naive_solver.
    - assert (Some (cell_id cell) = Some c -> ~ is_Some (inner !! c.1)) as Hno.
      { intros [= <-] [? ?]. simpl in *. congruence. }
      destruct ((new ∪ inner) !! cop_tx_hash cell); (split; [done|tauto]). }
  rewrite IH, Hl, point_ids_cons by done. destruct (point_id o); set_solver.
Qed.
End unset.

(** ** The removed and the new transactions *)
Lemma overlay_removed (inner : gmap Z TransactionMeta) l (acc : gset H256) h :
  h ∈ fold_left (fun (removed : gset H256) hash =>
    match inner !! hash with
    | Some _ => {[hash]} ∪ removed | None => removed end) l acc
  <-> h ∈ acc \/ (h ∈ l /\ is_Some (inner !! h)).
Proof.
  revert acc. induction l as [|h' l IH]; intros acc; simpl; [set_solver|]. rewrite IH.
  rewrite elem_of_cons.
  destruct (inner !! h') eqn:Hh; [rewrite elem_of_union, elem_of_singleton|].
  - split; [|naive_solver]. intros [[->|]|]; [|tauto..]. right. split; [by left|eauto].
  - split; [tauto|]. intros [|[[->|] [? ?]]]; [tauto|congruence|].
    right. split; [done|]. by eexists.
Qed.

Lemma overlay_inserted l new rm :
  NoDup l.*1 ->
  let r := fold_left overlay_insert l (new, rm) in
  (forall h, h ∈ r.2 <-> h ∈ rm /\ (h ∉ l.*1)) /\
  (forall h m, r.1 !! h = Some m <->
     (exists n e b len, (h, (n, e, b, len)) ∈ l /\ m = new_meta n e b len false) \/
     ((h ∉ l.*1) /\ new !! h = Some m)).
Proof.
  revert new rm. induction l as [|[h0 [[[n e] b] len]] l IH]; intros new rm Hnd; simpl.
  { split; set_solver. }
  apply NoDup_cons in Hnd as [Hn Hnd].
  destruct (IH (<[h0 := new_meta n e b len false]> new) (rm ∖ {[h0]}) Hnd) as [H1 H2].
  split; [intros h; rewrite H1; set_solver|].
  intros h m. rewrite H2, lookup_insert_Some. clear IH H1 H2. split.
  - intros [(n' & e' & b' & len' & Hin & ->)|[Hh [[-> <-]|[? ?]]]].
    + left. exists n', e', b', len'. set_solver.
    + left. exists n, e, b, len. set_solver.
    + right. set_solver.
  - intros [(n' & e' & b' & len' & [Heq|Hin]%elem_of_cons & ->)|[Hh ?]].
    + right. naive_solver.
    + left. eauto 10.
    + right. set_solver.
Qed.

(** ** The live cells of the overlay *)
Section overlay.
Context {E : Type}.
Context (tx_len : H256 -> option nat).
Context (get_transaction : H256 -> option (Transaction * H256)).
Context (get_block : H256 -> option Block).

(** The diff announces the number of outputs every transaction really has. *)
Definition outputs_ok (o : DiffOrder) : Prop :=
  forall h n e b len, (h, (n, e, b, len)) ∈ ord_new_outputs o -> tx_len h = Some len.

Lemma overlay_new_live (new cs : gmap Z TransactionMeta) (l : list (H256 * OutputInfo)) c :
  (forall h m, new !! h = Some m <->
     (exists n e b len, (h, (n, e, b, len)) ∈ l /\ m = new_meta n e b len false) \/
     ((h ∉ l.*1) /\ (∅ : gmap Z TransactionMeta) !! h = Some m)) ->
  live (new ∪ cs) c <->
    (exists n e b len, (c.1, (n, e, b, len)) ∈ l /\ (c.2 < len)%nat) \/
    ((c.1 ∉ l.*1) /\ live cs c).
Proof.
  intros Hnew. unfold live. setoid_rewrite lookup_union_Some_raw. setoid_rewrite Hnew. split.
  - intros (m & [[(n & e & b & len & Hin & ->)|[_ []%lookup_empty_Some]]|[Hn Hm]] & Hd).
    + left. rewrite new_meta_dead_cell in Hd. apply lookup_replicate in Hd as [_ ?]. eauto 10.
    + right. split; [|eauto]. intros (y & Hy & Hin)%list_elem_of_fmap.
      destruct y as [h [[[n e] b] len]]. simpl in Hy. subst h.
      assert (new !! c.1 = Some (new_meta n e b len false)) by (apply Hnew; left; eauto 10).
      congruence.
  - intros [(n & e & b & len & Hin & Hlt)|[Hn (m & Hm & Hd)]].
    + exists (new_meta n e b len false). split; [left; left; eauto 10|].
      by rewrite new_meta_dead_cell, lookup_replicate.
    + exists m. split; [|done]. right. split; [|done]. destruct (new !! c.1) eqn:Hx; [|done].
      apply Hnew in Hx as [(n & e & b & len & Hin & ->)|[_ []%lookup_empty_Some]].
      exfalso. apply Hn. by eapply (list_elem_of_fmap_2' fst).
Qed.

Lemma overlay_live_spec cs o c :
  metas_ok tx_len cs -> outputs_ok o -> NoDup (ord_new_outputs o).*1 ->
  overlay_live (new_overlay cs o) c <->
    ((exists n e b len, (c.1, (n, e, b, len)) ∈ ord_new_outputs o /\ (c.2 < len)%nat) \/
     ((c.1 ∉ (ord_new_outputs o).*1) /\
      (live cs c \/ (c ∈ point_ids (ord_old_inputs o) /\ is_Some (cs !! c.1) /\ in_tx tx_len c)) /\
      ~ (c.1 ∈ ord_old_outputs o /\ is_Some (cs !! c.1)))) /\
    ~ (c ∈ point_ids (ord_new_inputs o) /\ is_Some (cs !! c.1)).
Proof.
  intros Hwf Hout Hnd. rewrite overlay_live_union. unfold new_overlay.
  set (removed := fold_left _ (ord_old_outputs o) ∅).
  destruct (overlay_inserted (ord_new_outputs o) ∅ removed Hnd) as [Hrm Hnew].
  destruct (fold_left overlay_insert _ _) as [new rm]. cbn [fst snd] in *.
  cbn [ov_new ov_origin ov_removed]. rewrite live_touch_set_dead.
  assert (metas_ok tx_len (new ∪ cs)) as Hwf'.
  { intros h m. rewrite lookup_union_Some_raw, Hnew.
    intros [[(n & e & b & len & Hin & ->)|[_ []%lookup_empty_Some]]|[_ ?]]; [|by apply Hwf].
    rewrite new_meta_dead_cell, length_replicate. by eapply Hout. }
  rewrite (live_touch_unset_dead tx_len) by done. rewrite Hrm.
  unfold removed. rewrite overlay_removed.
  rewrite (overlay_new_live new cs _ c Hnew).
  assert ((exists n e b len, (c.1, (n, e, b, len)) ∈ ord_new_outputs o /\ (c.2 < len)%nat) ->
    c.1 ∈ (ord_new_outputs o).*1) as Hfst.
  { intros (n & e & b & len & Hin & _). by eapply (list_elem_of_fmap_2' fst). }
  assert (c.1 ∈ (ord_new_outputs o).*1 -> in_tx tx_len c ->
    exists n e b len, (c.1, (n, e, b, len)) ∈ ord_new_outputs o /\ (c.2 < len)%nat) as Hrng.
  { intros ([h [[[n e] b] len]] & Hh & Hin)%list_elem_of_fmap (k & Hk & Hlt). simpl in Hh. subst h.
    rewrite (Hout _ _ _ _ _ Hin) in Hk. injection Hk as <-. eauto 10. }
  rewrite elem_of_empty. destruct (decide (c.1 ∈ (ord_new_outputs o).*1)); tauto.
Qed.

(** The overlay foresees the update.  If every input of a diff refers to
    a transaction of the cell set (or, for the detached blocks, to one they
    created), the overlay of the diff shows a cell as live exactly when
    [update_tip] with that diff leaves it live. *)
Theorem overlay_agrees st hd td o st' :
  metas_ok tx_len (ts_cell_set st) -> store_ok tx_len get_transaction ->
  outputs_ok o -> NoDup (ord_new_outputs o).*1 ->
  (forall c, c ∈ point_ids (ord_new_inputs o) ->
     is_Some (ts_cell_set st !! c.1) \/ c.1 ∉ (ord_new_outputs o).*1) ->
  (forall c, c ∈ point_ids (ord_old_inputs o) ->
     is_Some (ts_cell_set st !! c.1) \/ c.1 ∈ ord_old_outputs o) ->
  update_tip (E := E) get_transaction get_block st hd td o = Ok st' ->
  forall c, overlay_live (new_overlay (ts_cell_set st) o) c <-> live (ts_cell_set st') c.
Proof.
  intros Hwf Hst Hout Hnd Hnew Hold Hu c.
  rewrite overlay_live_spec by done.
  rewrite (live_update_tip tx_len _ _ _ _ _ _ _ Hwf Hst Hnd Hu c).
  specialize (Hnew c). specialize (Hold c).
  assert (live (ts_cell_set st) c -> is_Some (ts_cell_set st !! c.1))
    by (intros (m & Hm & _); eauto).
  assert ((exists n e b len, (c.1, (n, e, b, len)) ∈ ord_new_outputs o /\ (c.2 < len)%nat) ->
    c.1 ∈ (ord_new_outputs o).*1).
  { intros (n & e & b & len & Hin & _). by eapply (list_elem_of_fmap_2' fst). }
  tauto.
Qed.

(** The overlay shows a spent cell as live.  When an attached block
    creates a transaction and a later attached block spends one of its
    outputs, the overlay of the two still has that output live, so a third
    block that spends it again passes the check; [update_tip] with the same
    diff has it dead.  [CellSet::new_overlay] looks the spent transaction up in
    the cell set only, and not among the outputs of the diff. *)
Theorem overlay_misses_spent_output st hd td o st' c n e b len :
  metas_ok tx_len (ts_cell_set st) -> store_ok tx_len get_transaction ->
  outputs_ok o -> NoDup (ord_new_outputs o).*1 ->
  ts_cell_set st !! c.1 = None ->
  (c.1, (n, e, b, len)) ∈ ord_new_outputs o -> (c.2 < len)%nat ->
  c ∈ point_ids (ord_new_inputs o) ->
  update_tip (E := E) get_transaction get_block st hd td o = Ok st' ->
  overlay_live (new_overlay (ts_cell_set st) o) c /\ ~ live (ts_cell_set st') c.
Proof.
  intros Hwf Hst Hout Hnd Hnone Hin Hlt Hspent Hu.
  rewrite overlay_live_spec by done.
  rewrite (live_update_tip tx_len _ _ _ _ _ _ _ Hwf Hst Hnd Hu c), Hnone.
  split; [|tauto]. split; [left; eauto 10|]. intros [_ [? ?]]. done.
Qed.

(** ** Detaching a block *)
Lemma update_old_input_not_err st o e :
  update_old_input (E := E) get_transaction get_block st o <> Err e.
Proof.
  unfold update_old_input. destruct st as [cs up], (op_cell o); [|done].
  destruct (try_mark_live cs _) as [? []]; [done|].
  destruct (get_transaction _) as [[tx bh]|]; simpl; [|done].
  destruct (get_block bh) as [bl|]; simpl; [|done]. by destruct (head (b_transactions bl)).
Qed.

Lemma update_old_inputs_missing l cs up o c :
  o ∈ l -> point_id o = Some c -> cs !! c.1 = None -> get_transaction c.1 = None ->
  try_fold (update_old_input (E := E) get_transaction get_block) (cs, up) l = Panic.
Proof.
  intros Hin Hc. revert cs up. induction l as [|o' l IH]; intros cs up Hcs Htx; [set_solver|].
  cbn [try_fold]. apply elem_of_cons in Hin as [<-|Hin].
  - unfold point_id in Hc. destruct (op_cell o) as [cell|] eqn:Hcell; simplify_eq/=.
    unfold update_old_input. rewrite Hcell. unfold try_mark_live. simpl in *.
    by rewrite Hcs, Htx.
  - destruct (update_old_input _ _ (cs, up) o') as [[cs1 up1]|e|] eqn:Hs.
    + rewrite bind_ret_l. apply IH; [done| |done]. unfold update_old_input, try_mark_live in Hs.
      destruct (op_cell o') as [cell'|]; [|by simplify_eq].
      destruct (decide (c.1 = cop_tx_hash cell')) as [Heq|Hne].
      * rewrite <- Heq, Hcs, Htx in Hs. done.
      * destruct (cs !! cop_tx_hash cell').
        -- simplify_eq/=. by rewrite lookup_insert_ne by done.
        -- outcome_inv. destruct x as [tx bh]. outcome_inv. simplify_eq/=.
           by rewrite lookup_insert_ne by done.
    + by apply update_old_input_not_err in Hs.
    + done.
Qed.

(** Detaching a withdrawal from the DAO stops the node.  If one of the
    detached blocks has a transaction with the marker input of the DAO, then
    [update_tip] panics, whatever the other blocks and the iteration order
    are: the marker is looked up like a spent cell, and no transaction has its
    hash. *)
Theorem detached_dao_withdrawal_panics D N st hd td o tx :
  tx ∈ blocks_txs D -> is_withdrawing_from_dao tx = true ->
  ts_cell_set st !! ISSUING_DAO_HASH = None ->
  get_transaction ISSUING_DAO_HASH = None ->
  enumerates o (reorg_diff D N) ->
  update_tip (E := E) get_transaction get_block st hd td o = Panic.
Proof.
  intros Htx Hdao Hcs Hget (Ho & _). unfold update_tip.
  apply existsb_exists in Hdao as (i & Hi%list_elem_of_In & Hdao).
  rewrite (update_old_inputs_missing _ _ _ (ci_previous_output i) dao_cell); [done|..| |done|done].
  - destruct (push_old_spec D empty_diff) as (Hd1 & _).
    destruct (push_new_spec N (fold_left push_old D empty_diff)) as (He1 & _).
    unfold reorg_diff in Ho. rewrite Ho, He1, Hd1, elem_of_elements.
    apply elem_of_union_r, elem_of_list_to_set, elem_of_join_fmap.
    exists tx. split; [done|]. by apply list_elem_of_fmap_2.
  - unfold is_issuing_dao in Hdao. unfold point_id.
    destruct (op_block_hash _); [done|]. destruct (op_cell _) as [cell|]; [|done].
    apply andb_true_iff in Hdao as [H1%bool_decide_eq_true H2%bool_decide_eq_true].
    simpl. unfold cell_id, cell_index. by rewrite H1, H2.
Qed.
End overlay.

(** ** Examples *)
Module OverlayExample.
Export ReorgExample.
Definition first_only : DiffOrder := some_order (reorg_diff old_chain (take 1 new_chain)).
Definition dao_chain : list Block :=
  [simple_block 1 100 101 [simple_tx 20 [new_cell 10 0; new_issuing_dao] 1]].
Definition dao_order : DiffOrder := some_order (reorg_diff dao_chain new_chain).
Definition result (o : DiffOrder) : TipState :=
  match update_tip (E := unit) no_tx no_block state (simple_header 2 201 202) 2 o with
  | Ok st => st
  | _ => state
  end.
Definition output_len_ok (p : H256 * OutputInfo) : Prop := tx_len p.1 = Some p.2.2.

Lemma metas : metas_ok tx_len (ts_cell_set state).
Proof.
  change (map_Forall (fun h m => tx_len h = Some (length (dead_cell m))) (ts_cell_set state)).
  by_compute.
Qed.

Lemma outputs_ok_check o : Forall output_len_ok (ord_new_outputs o) -> outputs_ok tx_len o.
Proof. rewrite Forall_forall. intros H h n e b len Hin. exact (H _ Hin). Qed.
End OverlayExample.

Lemma overlay_agrees_witness :
  overlay_live (new_overlay (ts_cell_set ReorgExample.state) OverlayExample.first_only) (30, 1%nat)
    <-> live (ts_cell_set (OverlayExample.result OverlayExample.first_only)) (30, 1%nat).
Proof.
  apply (overlay_agrees (E := unit) ReorgExample.tx_len ReorgExample.no_tx ReorgExample.no_block
    _ (simple_header 2 201 202) 2).
  - exact OverlayExample.metas.
  - done.
  - apply OverlayExample.outputs_ok_check. by_compute.
  - by_compute.
  - change (set_Forall (fun c => is_Some (ts_cell_set ReorgExample.state !! c.1) \/
      c.1 ∉ (ord_new_outputs OverlayExample.first_only).*1)
      (point_ids (ord_new_inputs OverlayExample.first_only))). by_compute.
  - change (set_Forall (fun c => is_Some (ts_cell_set ReorgExample.state !! c.1) \/
      c.1 ∈ ord_old_outputs OverlayExample.first_only)
      (point_ids (ord_old_inputs OverlayExample.first_only))). by_compute.
  - vm_compute. reflexivity.
Defined.

Lemma overlay_misses_spent_output_witness :
  overlay_live (new_overlay (ts_cell_set ReorgExample.state) ReorgExample.order) (30, 0%nat) /\
  ~ live (ts_cell_set (OverlayExample.result ReorgExample.order)) (30, 0%nat).
Proof.
  apply (overlay_misses_spent_output (E := unit) ReorgExample.tx_len ReorgExample.no_tx
    ReorgExample.no_block _ (simple_header 2 201 202) 2 _ _ (30, 0%nat) 1 0 false 2%nat).
  - exact OverlayExample.metas.
  - done.
  - apply OverlayExample.outputs_ok_check. by_compute.
  - by_compute.
  - by_compute.
  - by_compute.
  - by_compute.
  - by_compute.
  - vm_compute. reflexivity.
Defined.

Lemma detached_dao_withdrawal_panics_witness :
  update_tip (E := unit) ReorgExample.no_tx ReorgExample.no_block ReorgExample.state
    (simple_header 2 201 202) 2 OverlayExample.dao_order = Panic.
Proof.
  apply (detached_dao_withdrawal_panics _ _ OverlayExample.dao_chain ReorgExample.new_chain
    _ _ _ _ (simple_tx 20 [new_cell 10 0; new_issuing_dao] 1)).
  - by_compute.
  - vm_compute. reflexivity.
  - by_compute.
  - reflexivity.
  - split_and!; reflexivity.
Defined.
