(* ===== verification/Cells.v ===== *)
(** * Resolving transactions

    [core/src/cell.rs]: what a cell provider answers about an out point, the
    providers of a block, of its headers and of the chain state
    ([shared/src/chain_state.rs]), and [resolve_transaction], which looks up
    every input and every dependency of a transaction.  A provider is a function
    from out points to statuses that may panic. *)
From S2P Require Import Prelude Capacity Transactions Blocks Fixtures CellSet.

Record BlockInfo := mkBlockInfo { bi_number : Z; bi_epoch : Z }.

Record CellMeta := mkCellMeta {
  cm_cell_output : option CellOutput;
  cm_out_point : CellOutPoint;
  cm_block_info : option BlockInfo;
  cm_cellbase : bool;
  cm_capacity : Capacity;
  cm_data_hash : option H256
}.

Inductive CellStatus :=
| CellLive (meta : CellMeta)
| CellDead
| CellUnknown
| CellUnspecified.

Inductive HeaderStatus :=
| HeaderLive (header : Header)
| HeaderInclusionFaliure
| HeaderUnknown
| HeaderUnspecified.

Inductive ResolvedCell :=
| ResolvedMeta (meta : CellMeta)
| IssuingDaoInput
| ResolvedNull.

Record ResolvedOutPoint := mkResolved {
  ro_cell : ResolvedCell;
  ro_header : option Header
}.

Record ResolvedTransaction := mkResolvedTx {
  rtx_transaction : Transaction;
  rtx_inputs : list ResolvedOutPoint;
  rtx_deps : list ResolvedOutPoint
}.

Inductive UnresolvableError :=
| UnresolvableEmpty
| UnspecifiedInputCell (o : OutPoint)
| InvalidHeader (o : OutPoint)
| UnresolvableDead (o : OutPoint)
| UnresolvableUnknown (l : list OutPoint)
| OutOfOrder (o : OutPoint).

#[export] Instance BlockInfo_eq_dec : EqDecision BlockInfo.
Proof. solve_decision. Defined.
#[export] Instance CellMeta_eq_dec : EqDecision CellMeta.
Proof. solve_decision. Defined.
#[export] Instance ResolvedCell_eq_dec : EqDecision ResolvedCell.
Proof. solve_decision. Defined.
#[export] Instance ResolvedOutPoint_eq_dec : EqDecision ResolvedOutPoint.
Proof. solve_decision. Defined.

Definition issuing_dao : ResolvedOutPoint := mkResolved IssuingDaoInput None.
Definition cell_only (cell : CellMeta) : ResolvedOutPoint := mkResolved (ResolvedMeta cell) None.
Definition header_only (header : Header) : ResolvedOutPoint := mkResolved ResolvedNull (Some header).
Definition cell_and_header (cell : CellMeta) (header : Header) : ResolvedOutPoint :=
  mkResolved (ResolvedMeta cell) (Some header).
Definition cell_meta (self : ResolvedCell) : option CellMeta :=
  match self with ResolvedMeta m => Some m | _ => None end.
Definition from_cell_output (output : CellOutput) (out_point : CellOutPoint) (info : BlockInfo)
    (cellbase : bool) : CellMeta :=
  mkCellMeta (Some output) out_point (Some info) cellbase (co_capacity output) None.

(** ** Providers *)
Definition CellProvider : Type := OutPoint -> outcome UnresolvableError CellStatus.
Definition HeaderProvider : Type := OutPoint -> outcome UnresolvableError HeaderStatus.

Definition OverlayCellProvider (overlay cell_provider : CellProvider) : CellProvider :=
  fun out_point =>
    status ← overlay out_point;
    match status with
    | CellLive m => Ok (CellLive m)
    | CellDead => Ok CellDead
    | CellUnknown => cell_provider out_point
    | CellUnspecified => Ok CellUnspecified
    end.

Definition OverlayHeaderProvider (overlay header_provider : HeaderProvider) : HeaderProvider :=
  fun out_point =>
    status ← overlay out_point;
    match status with
    | HeaderLive h => Ok (HeaderLive h)
    | HeaderInclusionFaliure => Ok HeaderInclusionFaliure
    | HeaderUnknown => header_provider out_point
    | HeaderUnspecified => Ok HeaderUnspecified
    end.

(** *** The cells of a block *)
Definition output_indices (block : Block) : gmap Z nat :=
  insert_all ∅ (imap (fun idx tx => (tx_hash tx, idx)) (b_transactions block)).

Definition check_order (indices : gmap Z nat) (idx : nat) (o : OutPoint)
    : outcome UnresolvableError unit :=
  match (cell ← op_cell o; indices !! cop_tx_hash cell) with
  | Some output_idx => ensure (bool_decide (output_idx < idx)%nat) (OutOfOrder o)
  | None => Ok tt
  end.

Definition check_tx_order (indices : gmap Z nat) (p : nat * Transaction)
    : outcome UnresolvableError unit :=
  _ ← try_for_each (check_order indices p.1) (tx_deps p.2);
  try_for_each (check_order indices p.1) (input_pts p.2).

Definition BlockCellProvider_new (block : Block) : outcome UnresolvableError (gmap Z nat) :=
  let indices := output_indices block in
  _ ← try_for_each (check_tx_order indices) (enumerate (b_transactions block));
  Ok indices.

Definition BlockCellProvider (block : Block) (indices : gmap Z nat) : CellProvider :=
  fun out_point =>
    match op_cell out_point with
    | None => Ok CellUnspecified
    | Some cell =>
        match indices !! cop_tx_hash cell with
        | None => Ok CellUnknown
        | Some i =>
            tx ← expect (b_transactions block !! i);
            match tx_outputs tx !! cell_index cell with
            | None => Ok CellUnknown
            | Some output =>
                Ok (CellLive (mkCellMeta (Some output) cell
                  (Some (mkBlockInfo (h_number (b_header block)) (h_epoch (b_header block))))
                  (bool_decide (i = 0%nat)) (co_capacity output) None))
            end
        end
    end.

(** *** The headers of the attached and detached blocks *)
Record BlockHeadersProvider := mkBlockHeaders {
  attached_indices : gmap Z Header;
  attached_transaction_blocks : gmap Z H256;
  detached_indices : gmap Z Header
}.

Definition push_attached (self : BlockHeadersProvider) (block : Block) : BlockHeadersProvider :=
  mkBlockHeaders (<[b_hash block := b_header block]> (attached_indices self))
    (fold_left (fun (acc : gmap Z H256) tx => <[tx_hash tx := b_hash block]> acc)
       (b_transactions block) (attached_transaction_blocks self))
    (detached_indices self).

Definition push_detached (self : BlockHeadersProvider) (block : Block) : BlockHeadersProvider :=
  mkBlockHeaders (attached_indices self) (attached_transaction_blocks self)
    (<[b_hash block := b_header block]> (detached_indices self)).

Definition BlockHeadersProvider_header (self : BlockHeadersProvider) : HeaderProvider :=
  fun out_point =>
    match op_block_hash out_point with
    | None => Ok HeaderUnspecified
    | Some block_hash =>
        match detached_indices self !! block_hash with
        | Some _ => Ok HeaderUnknown
        | None =>
            match attached_indices self !! block_hash with
            | None => Ok HeaderUnknown
            | Some header =>
                match op_cell out_point with
                | None => Ok (HeaderLive header)
                | Some cell =>
                    match attached_transaction_blocks self !! cop_tx_hash cell with
                    | Some tx_block_hash =>
                        if decide (tx_block_hash = block_hash) then Ok (HeaderLive header)
                        else Ok HeaderInclusionFaliure
                    | None => Ok HeaderInclusionFaliure
                    end
                end
            end
        end
    end.

(** *** The chain state: the cell set, and the store for the data of a cell *)
Section chain_providers.
Context (get_cell_meta : H256 -> Z -> option CellMeta).
Context (get_block_header : H256 -> option Header).
Context (get_transaction_address : H256 -> option H256).

Definition meta_status (found : option CellMeta) (meta : option TransactionMeta)
    (cell : CellOutPoint) : outcome UnresolvableError CellStatus :=
  match meta with
  | None => Ok CellUnknown
  | Some tx_meta =>
      match is_dead tx_meta (cell_index cell) with
      | Some false => m ← expect found; Ok (CellLive m)
      | Some true => Ok CellDead
      | None => Ok CellUnknown
      end
  end.

Definition ChainState_cell (cell_set : gmap Z TransactionMeta) : CellProvider :=
  fun out_point =>
    match op_cell out_point with
    | None => Ok CellUnspecified
    | Some cell =>
        meta_status (get_cell_meta (cop_tx_hash cell) (cop_index cell))
          (cell_set !! cop_tx_hash cell) cell
    end.

(** [outputs[index]] of the attached outputs panics out of range. *)
Definition ChainCellSetOverlay_cell (overlay : CellSetOverlay)
    (outputs : gmap Z (list CellOutput)) : CellProvider :=
  fun out_point =>
    match op_cell out_point with
    | None => Ok CellUnspecified
    | Some cell =>
        let meta := overlay_get overlay (cop_tx_hash cell) in
        let found :=
          match outputs !! cop_tx_hash cell, meta with
          | Some outs, Some tx_meta =>
              output ← outs !! cell_index cell;
              Some (from_cell_output output cell
                (mkBlockInfo (meta_block_number tx_meta) (meta_epoch_number tx_meta))
                (meta_cellbase tx_meta))
          | _, _ => get_cell_meta (cop_tx_hash cell) (cop_index cell)
          end in
        meta_status found meta cell
    end.

Definition ChainState_header : HeaderProvider :=
  fun out_point =>
    match op_block_hash out_point with
    | None => Ok HeaderUnspecified
    | Some block_hash =>
        match get_block_header block_hash with
        | None => Ok HeaderUnknown
        | Some header =>
            match op_cell out_point with
            | None => Ok (HeaderLive header)
            | Some cell =>
                match get_transaction_address (cop_tx_hash cell) with
                | Some address_block =>
                    if decide (address_block = block_hash) then Ok (HeaderLive header)
                    else Ok HeaderInclusionFaliure
                | None => Ok HeaderInclusionFaliure
                end
            end
        end
    end.
End chain_providers.

(** ** [resolve_transaction] *)
Section resolve.
Context (cell_provider : CellProvider) (header_provider : HeaderProvider).

Record ResolveState := mkResolveState {
  rs_seen : gset OutPoint;
  rs_unknown : list OutPoint;
  rs_resolved : list ResolvedOutPoint
}.

Definition push_resolved (st : ResolveState) (r : ResolvedOutPoint) : ResolveState :=
  mkResolveState (rs_seen st) (rs_unknown st) (rs_resolved st ++ [r]).
Definition push_unknown (st : ResolveState) (o : OutPoint) : ResolveState :=
  mkResolveState (rs_seen st) (rs_unknown st ++ [o]) (rs_resolved st).

Definition resolve_input (st : ResolveState) (out_point : OutPoint)
    : outcome UnresolvableError ResolveState :=
  if is_issuing_dao out_point then Ok (push_resolved st issuing_dao)
  else
    '(cell_status, header_status) ←
      (if decide (out_point ∈ rs_seen st) then Ok (CellDead, HeaderUnknown)
       else c ← cell_provider out_point; h ← header_provider out_point; Ok (c, h));
    let st := mkResolveState ({[out_point]} ∪ rs_seen st) (rs_unknown st) (rs_resolved st) in
    match cell_status, header_status with
    | CellDead, _ => Err (UnresolvableDead out_point)
    | CellUnknown, _ => Ok (push_unknown st out_point)
    | CellUnspecified, _ => Err (UnspecifiedInputCell out_point)
    | _, HeaderUnknown => Err (InvalidHeader out_point)
    | _, HeaderInclusionFaliure => Err (InvalidHeader out_point)
    | CellLive m, HeaderLive h => Ok (push_resolved st (cell_and_header m h))
    | CellLive m, HeaderUnspecified => Ok (push_resolved st (cell_only m))
    end.

Definition resolve_dep (st : ResolveState) (out_point : OutPoint)
    : outcome UnresolvableError ResolveState :=
  cell_status ← cell_provider out_point;
  header_status ← header_provider out_point;
  match cell_status, header_status with
  | CellDead, _ => Err (UnresolvableDead out_point)
  | CellUnknown, _ => Ok (push_unknown st out_point)
  | _, HeaderUnknown => Err (InvalidHeader out_point)
  | _, HeaderInclusionFaliure => Err (InvalidHeader out_point)
  | CellLive m, h =>
      if decide (out_point ∈ rs_seen st) then Err (UnresolvableDead out_point)
      else match h with
           | HeaderLive h => Ok (push_resolved st (cell_and_header m h))
           | _ => Ok (push_resolved st (cell_only m))
           end
  | CellUnspecified, HeaderLive h => Ok (push_resolved st (header_only h))
  | CellUnspecified, HeaderUnspecified => Err UnresolvableEmpty
  end.

Definition resolve_transaction (seen_inputs : gset OutPoint) (transaction : Transaction)
    : outcome UnresolvableError (gset OutPoint * ResolvedTransaction) :=
  st ← (if is_cellbase transaction then Ok (mkResolveState seen_inputs [] [])
        else try_fold resolve_input (mkResolveState seen_inputs [] []) (input_pts transaction));
  let resolved_inputs := rs_resolved st in
  st ← try_fold resolve_dep (mkResolveState (rs_seen st) (rs_unknown st) []) (tx_deps transaction);
  match rs_unknown st with
  | [] => Ok (rs_seen st, mkResolvedTx transaction resolved_inputs (rs_resolved st))
  | unknown => Err (UnresolvableUnknown unknown)
  end.

(** The transactions of a block, with one set of seen inputs. *)
Fixpoint resolve_transactions (seen_inputs : gset OutPoint) (txs : list Transaction)
    : outcome UnresolvableError (list ResolvedTransaction) :=
  match txs with
  | [] => Ok []
  | tx :: txs =>
      '(seen, rtx) ← resolve_transaction seen_inputs tx;
      rtxs ← resolve_transactions seen txs;
      Ok (rtx :: rtxs)
  end.
End resolve.

Definition rtx_is_cellbase (self : ResolvedTransaction) : bool :=
  match rtx_inputs self with [] => true | _ => false end.

Definition inputs_capacity (self : ResolvedTransaction) : outcome CapacityError Capacity :=
  safe_sum ((fun o => from_option cm_capacity 0 (cell_meta (ro_cell o))) <$> rtx_inputs self).

(** ** What a successful resolution means *)
Definition non_dao (l : list OutPoint) : list OutPoint :=
  filter (fun o => is_issuing_dao o = false) l.

(** The out points a transaction spends: all inputs but the marker of the DAO,
    and none for a cellbase. *)
Definition spent_points (tx : Transaction) : list OutPoint :=
  if is_cellbase tx then [] else non_dao (input_pts tx).

Section resolve_spec.
Context (cell_provider : CellProvider) (header_provider : HeaderProvider).

Definition found (o : OutPoint) (m : CellMeta) (r : ResolvedOutPoint) : Prop :=
  cell_provider o = Ok (CellLive m) /\
  ((exists h, header_provider o = Ok (HeaderLive h) /\ r = cell_and_header m h) \/
   (header_provider o = Ok HeaderUnspecified /\ r = cell_only m)).

Definition input_resolves (o : OutPoint) (r : ResolvedOutPoint) : Prop :=
  if is_issuing_dao o then r = issuing_dao else exists m, found o m r.

Definition dep_resolves (seen : gset OutPoint) (o : OutPoint) (r : ResolvedOutPoint) : Prop :=
  ((o ∉ seen) /\ exists m, found o m r) \/
  (cell_provider o = Ok CellUnspecified /\
   exists h, header_provider o = Ok (HeaderLive h) /\ r = header_only h).

Definition seen_after (seen : gset OutPoint) (o : OutPoint) : gset OutPoint :=
  if is_issuing_dao o then seen else {[o]} ∪ seen.

Lemma resolve_input_Ok seen unk res o st :
  (resolve_input cell_provider header_provider (mkResolveState seen unk res) o = Ok st /\
   rs_unknown st = []) <->
  unk = [] /\ (is_issuing_dao o = true \/ o ∉ seen) /\
  exists r, input_resolves o r /\ st = mkResolveState (seen_after seen o) [] (res ++ [r]).
Proof.
  unfold resolve_input, input_resolves, seen_after, found, push_resolved, push_unknown.
  destruct (is_issuing_dao o); [naive_solver|]. simpl. case_decide as Hs; simpl; [naive_solver|].
  destruct (cell_provider o) as [[m| | |]|e|] eqn:Hc; simpl; try naive_solver.
  all: destruct (header_provider o) as [[h| | |]|e|] eqn:Hh; simpl; try naive_solver.
  all: split; [intros [[= <-] Hu]; simpl in Hu; by destruct unk|naive_solver].
Qed.

Lemma resolve_dep_Ok seen unk res o st :
  (resolve_dep cell_provider header_provider (mkResolveState seen unk res) o = Ok st /\
   rs_unknown st = []) <->
  unk = [] /\
  exists r, dep_resolves seen o r /\ st = mkResolveState seen [] (res ++ [r]).
Proof.
  unfold resolve_dep, dep_resolves, found, push_resolved, push_unknown. simpl.
  destruct (cell_provider o) as [[m| | |]|e|] eqn:Hc; simpl; try naive_solver.
  all: destruct (header_provider o) as [[h| | |]|e|] eqn:Hh; simpl; try naive_solver.
  all: try (split; [intros [[= <-] Hu]; simpl in Hu; by destruct unk|naive_solver]).
  all: case_decide; naive_solver.
Qed.

Lemma resolve_step_unknown (f : ResolveState -> OutPoint -> outcome UnresolvableError ResolveState) l st st' :
  (forall st o st', f st o = Ok st' -> rs_unknown st' = [] -> rs_unknown st = []) ->
  try_fold f st l = Ok st' -> rs_unknown st' = [] -> rs_unknown st = [].
Proof.
  intros Hf. revert st. induction l as [|o l IH]; intros st; simpl; [naive_solver|].
  intros (st1 & H1 & H2)%bind_Ok Hu. eauto.
Qed.

Lemma resolve_input_unknown st o st' :
  resolve_input cell_provider header_provider st o = Ok st' ->
  rs_unknown st' = [] -> rs_unknown st = [].
Proof.
  destruct st as [s u r]. intros H Hu.
  by destruct (proj1 (resolve_input_Ok _ _ _ _ _) (conj H Hu)) as [? _].
Qed.

Lemma resolve_dep_unknown st o st' :
  resolve_dep cell_provider header_provider st o = Ok st' ->
  rs_unknown st' = [] -> rs_unknown st = [].
Proof.
  destruct st as [s u r]. intros H Hu.
  by destruct (proj1 (resolve_dep_Ok _ _ _ _ _) (conj H Hu)) as [? _].
Qed.

Lemma non_dao_cons o l :
  non_dao (o :: l) = if is_issuing_dao o then non_dao l else o :: non_dao l.
Proof. unfold non_dao. rewrite filter_cons. destruct (is_issuing_dao o); by case_decide. Qed.

Lemma resolve_inputs_Ok l seen res st :
  (try_fold (resolve_input cell_provider header_provider) (mkResolveState seen [] res) l = Ok st /\
   rs_unknown st = []) <->
  exists rs, Forall2 input_resolves l rs /\ NoDup (non_dao l) /\
    (forall o, o ∈ non_dao l -> o ∉ seen) /\
    st = mkResolveState (seen ∪ list_to_set (non_dao l)) [] (res ++ rs).
Proof.
  revert seen res. induction l as [|o l IH]; intros seen res; simpl.
  { split.
    - intros [[= <-] _]. exists []. rewrite app_nil_r, union_empty_r_L.
      split_and!; [constructor..|set_solver|done].
    - intros (rs & ->%Forall2_nil_inv_l & _ & _ & ->). rewrite app_nil_r.
      unfold non_dao; simpl. by rewrite union_empty_r_L. }
  rewrite non_dao_cons. split.
  - intros [(st1 & H1 & H2)%bind_Ok Hu].
    assert (rs_unknown st1 = []) as Hu1
      by (eapply resolve_step_unknown; [apply resolve_input_unknown|done..]).
    destruct (proj1 (resolve_input_Ok seen [] res o st1) (conj H1 Hu1)) as (_ & Hs & r & Hr & ->).
    destruct (proj1 (IH _ _) (conj H2 Hu)) as (rs & Hrs & Hnd & Hd & ->).
    exists (r :: rs). rewrite <- app_assoc. unfold seen_after in *.
    destruct (is_issuing_dao o).
    + split_and!; [by constructor|done..].
    + split_and!; [by constructor|constructor; set_solver|set_solver|].
      f_equal. simpl. set_solver.
  - intros (rrs & (r & rs & Hr & Hrs & ->)%Forall2_cons_inv_l & Hnd & Hd & ->).
    assert (resolve_input cell_provider header_provider (mkResolveState seen [] res) o =
      Ok (mkResolveState (seen_after seen o) [] (res ++ [r]))) as Hstep.
    { apply (proj2 (resolve_input_Ok seen [] res o _)). split; [done|]. split; [|eauto].
      destruct (is_issuing_dao o); [by left|right; set_solver]. }
    rewrite Hstep, bind_ret_l. apply IH. exists rs. rewrite <- app_assoc. unfold seen_after.
    destruct (is_issuing_dao o).
    + split_and!; done.
    + apply NoDup_cons in Hnd as [? ?]. split_and!; [done..|set_solver|].
      f_equal. simpl. set_solver.
Qed.

Lemma resolve_deps_Ok l seen res st :
  (try_fold (resolve_dep cell_provider header_provider) (mkResolveState seen [] res) l = Ok st /\
   rs_unknown st = []) <->
  exists rs, Forall2 (dep_resolves seen) l rs /\ st = mkResolveState seen [] (res ++ rs).
Proof.
  revert res. induction l as [|o l IH]; intros res; simpl.
  { split.
    - intros [[= <-] _]. exists []. by rewrite app_nil_r.
    - intros (rs & ->%Forall2_nil_inv_l & ->). by rewrite app_nil_r. }
  split.
  - intros [(st1 & H1 & H2)%bind_Ok Hu].
    assert (rs_unknown st1 = []) as Hu1
      by (eapply resolve_step_unknown; [apply resolve_dep_unknown|done..]).
    destruct (proj1 (resolve_dep_Ok seen [] res o st1) (conj H1 Hu1)) as (_ & r & Hr & ->).
    destruct (proj1 (IH _) (conj H2 Hu)) as (rs & Hrs & ->).
    exists (r :: rs). rewrite <- app_assoc. split; [by constructor|done].
  - intros (rrs & (r & rs & Hr & Hrs & ->)%Forall2_cons_inv_l & ->).
    assert (resolve_dep cell_provider header_provider (mkResolveState seen [] res) o =
      Ok (mkResolveState seen [] (res ++ [r]))) as Hstep
      by (apply (proj2 (resolve_dep_Ok seen [] res o _)); eauto).
    rewrite Hstep, bind_ret_l. apply IH. exists rs. by rewrite <- app_assoc.
Qed.

(** The result of a resolution, read off the providers. *)
Definition resolves (seen : gset OutPoint) (tx : Transaction) (seen' : gset OutPoint)
    (rtx : ResolvedTransaction) : Prop :=
  rtx_transaction rtx = tx /\
  (if is_cellbase tx then rtx_inputs rtx = []
   else Forall2 input_resolves (input_pts tx) (rtx_inputs rtx)) /\
  NoDup (spent_points tx) /\ (forall o, o ∈ spent_points tx -> o ∉ seen) /\
  seen' = seen ∪ list_to_set (spent_points tx) /\
  Forall2 (dep_resolves seen') (tx_deps tx) (rtx_deps rtx).

Lemma resolve_transaction_Ok seen tx seen' rtx :
  resolve_transaction cell_provider header_provider seen tx = Ok (seen', rtx) <->
  resolves seen tx seen' rtx.
Proof.
  unfold resolve_transaction, resolves, spent_points. split.
  - intros (st & H1 & (st' & H2 & H3)%bind_Ok)%bind_Ok.
    destruct (rs_unknown st') eqn:Hu'; [|done]. injection H3 as <- <-.
    assert (rs_unknown st = []) as Hu
      by (apply (resolve_step_unknown _ _ _ _ resolve_dep_unknown H2 Hu')).
    rewrite Hu in H2. destruct (proj1 (resolve_deps_Ok _ _ _ _) (conj H2 Hu')) as (ds & Hds & ->).
    simpl. destruct (is_cellbase tx).
    + injection H1 as <-. simpl in *. rewrite union_empty_r_L.
      split_and!; [done|done|constructor|set_solver|done|done].
    + destruct (proj1 (resolve_inputs_Ok _ _ _ _) (conj H1 Hu)) as (rs & Hrs & Hnd & Hd & ->).
      simpl in *. done.
  - intros (Ht & Hi & Hnd & Hd & -> & Hdeps). destruct rtx as [tx' ins deps]; simpl in *; subst tx'.
    apply bind_Ok.
    exists (mkResolveState (seen ∪ list_to_set (if is_cellbase tx then [] else non_dao (input_pts tx)))
              [] ins). split.
    + destruct (is_cellbase tx).
      * subst ins. do 2 f_equal. set_solver.
      * apply (proj2 (resolve_inputs_Ok (input_pts tx) seen [] _)). eauto.
    + simpl. apply bind_Ok. eexists. split.
      * apply (proj2 (resolve_deps_Ok (tx_deps tx) _ [] _)). eauto.
      * done.
Qed.

Lemma resolve_transactions_Ok seen txs rtxs :
  resolve_transactions cell_provider header_provider seen txs = Ok rtxs ->
  rtx_transaction <$> rtxs = txs /\
  NoDup (mjoin (spent_points <$> txs)) /\
  (forall o, o ∈ mjoin (spent_points <$> txs) -> o ∉ seen) /\
  Forall2 (fun tx rtx => exists s s', resolves s tx s' rtx) txs rtxs.
Proof.
  revert seen rtxs. induction txs as [|tx txs IH]; intros seen rtxs; simpl.
  { intros [= <-]. split_and!; [done|constructor|set_solver|constructor]. }
  intros ([seen' rtx] & H1%resolve_transaction_Ok & (rs & H2 & [= <-])%bind_Ok)%bind_Ok.
  apply IH in H2 as (Hmap & Hnd2 & Hdis2 & Hall). pose proof H1 as Hres.
  destruct H1 as (Htx & _ & Hnd & Hdis & -> & _). csimpl. split_and!.
  - by rewrite Htx, Hmap.
  - apply NoDup_app. split_and!; [done| |done].
    intros o Ho Ho'. apply (Hdis2 o Ho'). set_solver.
  - intros o [Ho|Ho]%elem_of_app; [by apply Hdis|]. apply Hdis2 in Ho. set_solver.
  - constructor; [eauto|done].
Qed.
End resolve_spec.

(** ** The order of a block *)
Lemma output_indices_lookup block h j :
  NoDup (tx_hash <$> b_transactions block) ->
  output_indices block !! h = Some j <->
  exists tx, b_transactions block !! j = Some tx /\ tx_hash tx = h.
Proof.
  intros Hnd. unfold output_indices. rewrite insert_all_lookup.
  - rewrite lookup_empty, list_elem_of_lookup. setoid_rewrite list_lookup_imap. split.
    + intros [[i Hi]|[_ ?]]; [|done].
      destruct (b_transactions block !! i) eqn:Hl; naive_solver.
    + intros (tx & Htx & Hh). left. exists j. rewrite Htx. simpl. by rewrite Hh.
  - replace ((imap (fun idx tx => (tx_hash tx, idx)) (b_transactions block)).*1)
      with (tx_hash <$> b_transactions block); [done|].
    apply list_eq. intros i. rewrite !list_lookup_fmap, list_lookup_imap.
    by destruct (b_transactions block !! i).
Qed.

Lemma check_order_Ok indices idx o :
  check_order indices idx o = Ok tt <->
  forall cell j, op_cell o = Some cell -> indices !! cop_tx_hash cell = Some j -> (j < idx)%nat.
Proof.
  unfold check_order. destruct (op_cell o) as [cell|]; simpl; [|naive_solver].
  destruct (indices !! cop_tx_hash cell) as [j|] eqn:Hj; [|naive_solver].
  rewrite ensure_Ok, bool_decide_eq_true. naive_solver.
Qed.

Lemma BlockCellProvider_new_ok block :
  NoDup (tx_hash <$> b_transactions block) ->
  is_ok (BlockCellProvider_new block) = true <->
  forall idx tx o cell j tx',
    b_transactions block !! idx = Some tx -> o ∈ tx_deps tx ++ input_pts tx ->
    op_cell o = Some cell ->
    b_transactions block !! j = Some tx' -> tx_hash tx' = cop_tx_hash cell -> (j < idx)%nat.
Proof.
  intros Hnd. unfold BlockCellProvider_new.
  assert (is_ok (_ ← try_for_each (check_tx_order (output_indices block))
                       (enumerate (b_transactions block));
                 Ok (output_indices block)) = true <->
    try_for_each (check_tx_order (output_indices block)) (enumerate (b_transactions block)) = Ok tt)
    as ->.
  { destruct (try_for_each _ _) as [[]| |]; simpl; naive_solver. }
  rewrite try_for_each_Ok, Forall_forall. split.
  - intros H idx tx o cell j tx' Htx Ho Hc Hj Hh.
    specialize (H (idx, tx)). rewrite elem_of_enumerate in H. specialize (H Htx).
    unfold check_tx_order in H. apply bind_Ok in H as ([] & Hd & Hi).
    rewrite try_for_each_Ok, Forall_forall in Hd, Hi.
    assert (check_order (output_indices block) idx o = Ok tt) as Hok
      by (apply elem_of_app in Ho as [?|?]; auto).
    rewrite check_order_Ok in Hok. apply (Hok cell); [done|].
    apply output_indices_lookup; eauto.
  - intros H [idx tx] Htx%elem_of_enumerate. unfold check_tx_order.
    apply bind_Ok. exists tt. rewrite !try_for_each_Ok, !Forall_forall. simpl.
    setoid_rewrite check_order_Ok. setoid_rewrite output_indices_lookup; [|done..].
    split; intros o Ho cell j Hc (tx' & Hj & Hh); eapply H; eauto; set_solver.
Qed.

(** A block is accepted by [BlockCellProvider::new] exactly when each of
    its transactions refers, among the transactions of the block, to earlier
    ones only, in its inputs and in its dependencies. *)
Theorem BlockCellProvider_new_order block :
  NoDup (tx_hash <$> b_transactions block) ->
  is_ok (BlockCellProvider_new block) = true <->
  forall idx tx o cell j tx',
    b_transactions block !! idx = Some tx -> o ∈ tx_deps tx ++ input_pts tx ->
    op_cell o = Some cell ->
    b_transactions block !! j = Some tx' -> tx_hash tx' = cop_tx_hash cell -> (j < idx)%nat.
Proof. apply BlockCellProvider_new_ok. Qed.

(**  [resolve_transaction] accepts a transaction exactly when every input
    is live with an acceptable header and is spent for the first time, and
    every dependency is live and not spent; the result lists what the
    providers answered, in order, and the seen inputs grow by the inputs
    spent.  In every other case it returns an error or a provider panics. *)
Theorem resolve_transaction_iff cell_provider header_provider seen tx seen' rtx :
  resolve_transaction cell_provider header_provider seen tx = Ok (seen', rtx) <->
  rtx_transaction rtx = tx /\
  (if is_cellbase tx then rtx_inputs rtx = []
   else Forall2 (input_resolves cell_provider header_provider) (input_pts tx) (rtx_inputs rtx)) /\
  NoDup (spent_points tx) /\ (forall o, o ∈ spent_points tx -> o ∉ seen) /\
  seen' = seen ∪ list_to_set (spent_points tx) /\
  Forall2 (dep_resolves cell_provider header_provider seen') (tx_deps tx) (rtx_deps rtx).
Proof. exact (resolve_transaction_Ok cell_provider header_provider seen tx seen' rtx). Qed.

(** C12.  When all transactions of a block resolve, no out point is spent twice
    in the block, and each transaction is resolved by what the providers say
    of its inputs and dependencies. *)
Theorem resolve_transactions_no_double_spend cell_provider header_provider txs rtxs :
  resolve_transactions cell_provider header_provider ∅ txs = Ok rtxs ->
  rtx_transaction <$> rtxs = txs /\
  NoDup (mjoin (spent_points <$> txs)) /\
  Forall2 (fun tx rtx => is_cellbase tx = false ->
    Forall2 (input_resolves cell_provider header_provider) (input_pts tx) (rtx_inputs rtx)) txs rtxs.
Proof.
  intros (Hmap & Hnd & _ & Hall)%resolve_transactions_Ok. split_and!; [done..|].
  eapply Forall2_impl; [exact Hall|].
  intros tx rtx (s & s' & _ & Hi & _) Hc. by rewrite Hc in Hi.
Qed.

(** A transaction that names one cell twice, with and without the hash of
    its block. *)
Definition spend_twice (cell : CellOutPoint) (block_hash : H256) (outputs : list CellOutput)
    (witnesses : list (list Bytes)) (hash : H256) : Transaction :=
  mkTransaction 0 []
    [mkCellInput (mkOutPoint (Some cell) None) 0;
     mkCellInput (mkOutPoint (Some cell) (Some block_hash)) 0]
    outputs witnesses hash hash.

(** One cell can be spent twice by one transaction.  For every live cell
    of the chain, the transaction that lists it once by its cell alone and
    once with the hash of the block it is in resolves, and its capacity counts
    twice: the inputs seen are compared as whole out points, not as cells. *)
Theorem same_cell_resolves_twice get_cell_meta get_block_header get_transaction_address
    cs cell meta header block_hash outputs witnesses hash :
  live cs (cell_id cell) -> cop_tx_hash cell <> ISSUING_DAO_HASH ->
  get_cell_meta (cop_tx_hash cell) (cop_index cell) = Some meta ->
  get_block_header block_hash = Some header ->
  get_transaction_address (cop_tx_hash cell) = Some block_hash ->
  0 <= cm_capacity meta -> 2 * cm_capacity meta < U64_SIZE ->
  exists seen rtx,
    resolve_transaction (ChainState_cell get_cell_meta cs)
      (ChainState_header get_block_header get_transaction_address) ∅
      (spend_twice cell block_hash outputs witnesses hash) = Ok (seen, rtx) /\
    inputs_capacity rtx = Ok (2 * cm_capacity meta).
Proof.
  intros (m & Hm & Hd) Hdao Hmeta Hhdr Haddr Hc0 Hc.
  set (o1 := mkOutPoint (Some cell) None). set (o2 := mkOutPoint (Some cell) (Some block_hash)).
  assert (is_issuing_dao o1 = false /\ is_issuing_dao o2 = false) as [Hd1 Hd2].
  { split; [|done]. unfold is_issuing_dao, o1. cbn [op_block_hash op_cell].
    by rewrite bool_decide_eq_false_2. }
  assert (forall o, op_cell o = Some cell ->
    ChainState_cell get_cell_meta cs o = Ok (CellLive meta)) as Hcell.
  { intros o Ho. unfold ChainState_cell, meta_status, is_dead. rewrite Ho. simpl in Hm, Hd.
    by rewrite Hm, Hd, Hmeta. }
  set (tx := spend_twice cell block_hash outputs witnesses hash).
  assert (is_cellbase tx = false) as Hcb by done.
  assert (spent_points tx = [o1; o2]) as Hsp.
  { unfold spent_points, non_dao. rewrite Hcb. change (input_pts tx) with [o1; o2].
    by rewrite !filter_cons, Hd1, Hd2. }
  exists (∅ ∪ list_to_set [o1; o2]), (mkResolvedTx tx [cell_only meta; cell_and_header meta header] []).
  split.
  - apply resolve_transaction_Ok. unfold resolves. rewrite Hcb, Hsp.
    change (input_pts tx) with [o1; o2].
    split_and!; [reflexivity| | | |reflexivity|constructor].
    + repeat constructor; unfold input_resolves; rewrite ?Hd1, ?Hd2; exists meta;
        (split; [by apply Hcell|]); [by right|left; exists header].
      unfold ChainState_header. simpl. by rewrite Hhdr, Haddr, decide_True.
    + constructor; [by rewrite list_elem_of_singleton|apply NoDup_singleton].
    + set_solver.
  - unfold inputs_capacity. simpl. rewrite safe_sum_spec by (repeat constructor; done).
    simpl. rewrite decide_True by lia. f_equal. lia.
Qed.

(** ** Examples *)
Module CellsExample.
Definition cells : gmap Z TransactionMeta := {[10 := mkMeta 0 0 false [false]]}.
Definition get_cell_meta (h : H256) (i : Z) : option CellMeta :=
  Some (from_cell_output (simple_output 500) (mkCellOutPoint h i) (mkBlockInfo 0 0) false).
Definition get_block_header (h : H256) : option Header :=
  if decide (h = 100) then Some (simple_header 0 0 100) else None.
Definition get_transaction_address (h : H256) : option H256 :=
  if decide (h = 10) then Some 100 else None.
Definition block : Block :=
  simple_block 1 100 101 [simple_tx 30 [new_cell 10 0] 2; simple_tx 31 [new_cell 30 0] 1].
Definition cell_provider : CellProvider :=
  OverlayCellProvider (BlockCellProvider block (output_indices block))
    (ChainState_cell get_cell_meta cells).
Definition header_provider : HeaderProvider :=
  ChainState_header get_block_header get_transaction_address.
Definition resolved : list ResolvedTransaction :=
  match resolve_transactions cell_provider header_provider ∅ (b_transactions block) with
  | Ok l => l
  | _ => []
  end.
End CellsExample.

Lemma BlockCellProvider_new_order_witness :
  NoDup (tx_hash <$> b_transactions CellsExample.block) /\
  (is_ok (BlockCellProvider_new CellsExample.block) = true <->
   forall idx tx o cell j tx',
    b_transactions CellsExample.block !! idx = Some tx -> o ∈ tx_deps tx ++ input_pts tx ->
    op_cell o = Some cell ->
    b_transactions CellsExample.block !! j = Some tx' -> tx_hash tx' = cop_tx_hash cell ->
    (j < idx)%nat).
Proof.
  split; [by_compute|]. apply (BlockCellProvider_new_order CellsExample.block). by_compute.
Defined.

Lemma resolve_transactions_no_double_spend_witness :
  length CellsExample.resolved = 2%nat /\
  rtx_transaction <$> CellsExample.resolved = b_transactions CellsExample.block /\
  NoDup (mjoin (spent_points <$> b_transactions CellsExample.block)) /\
  Forall2 (fun tx rtx => is_cellbase tx = false ->
    Forall2 (input_resolves CellsExample.cell_provider CellsExample.header_provider)
      (input_pts tx) (rtx_inputs rtx))
    (b_transactions CellsExample.block) CellsExample.resolved.
Proof.
  split; [vm_compute; reflexivity|].
  apply (resolve_transactions_no_double_spend CellsExample.cell_provider
           CellsExample.header_provider).
  vm_compute. reflexivity.
Defined.

Lemma same_cell_resolves_twice_witness :
  exists seen rtx,
    resolve_transaction (ChainState_cell CellsExample.get_cell_meta CellsExample.cells)
      (ChainState_header CellsExample.get_block_header CellsExample.get_transaction_address) ∅
      (spend_twice (mkCellOutPoint 10 0) 100 [simple_output 1000] [] 40) = Ok (seen, rtx) /\
    inputs_capacity rtx = Ok 1000.
Proof.
  apply (same_cell_resolves_twice CellsExample.get_cell_meta CellsExample.get_block_header
    CellsExample.get_transaction_address CellsExample.cells (mkCellOutPoint 10 0)
    (from_cell_output (simple_output 500) (mkCellOutPoint 10 0) (mkBlockInfo 0 0) false)
    (simple_header 0 0 100)); try reflexivity; try by_compute.
  eexists. split; reflexivity.
Defined.
