(* ===== verification/Epochs.v ===== *)
(** * Epochs and consensus parameters

    [EpochExt] of [core/src/extras.rs] and [Consensus] of
    [spec/src/consensus.rs]: the constants, the window between proposal and
    commitment, the target of a finalized reward, and the computation of the
    next epoch, with the arithmetic at its width. *)
From S2P Require Import Prelude Capacity Transactions Blocks Fixtures.

Record EpochExt := mkEpochExt {
  ep_number : Z;
  ep_block_reward : Capacity;
  ep_remainder_reward : Capacity;
  ep_last_block_hash_in_previous_epoch : H256;
  ep_start_number : Z;
  ep_length : Z;
  ep_difficulty : Z
}.

#[export] Instance EpochExt_eq_dec : EqDecision EpochExt.
Proof. solve_decision. Defined.

(** [EpochExt::block_reward]: the first blocks of an epoch get one shannon of
    the remainder each. *)
Definition block_reward (self : EpochExt) (number : Z) : outcome CapacityError Capacity :=
  if decide (ep_start_number self <= number) then
    limit ← ep_start_number self +64 ep_remainder_reward self;
    if decide (number < limit) then safe_add (ep_block_reward self) 1
    else Ok (ep_block_reward self)
  else Ok (ep_block_reward self).

Definition ep_is_genesis (self : EpochExt) : bool := bool_decide (ep_number self = 0).

(** ** Constants *)
Definition DEFAULT_SECONDARY_EPOCH_REWARD : Z := 600000 * BYTE_SHANNONS.
Definition DEFAULT_EPOCH_REWARD : Z := 1250000 * BYTE_SHANNONS.
Definition MAX_UNCLE_NUM : Z := 2.
Definition CELLBASE_MATURITY : Z := 100.
Definition MEDIAN_TIME_BLOCK_COUNT : Z := 11.
Definition ORPHAN_RATE_TARGET_RECIP : Z := 20.
Definition MAX_BLOCK_INTERVAL : Z := 60 * 1000.
Definition MIN_BLOCK_INTERVAL : Z := 8 * 1000.
Definition TWO_IN_TWO_OUT_CYCLES : Z := 2580000.
Definition EPOCH_DURATION_TARGET : Z := 4 * 60 * 60 * 1000.
Definition MAX_EPOCH_LENGTH : Z := EPOCH_DURATION_TARGET / MIN_BLOCK_INTERVAL.
Definition MIN_EPOCH_LENGTH : Z := EPOCH_DURATION_TARGET / MAX_BLOCK_INTERVAL.
Definition GENESIS_EPOCH_LENGTH : Z := 1250.
Definition MAX_BLOCK_BYTES : Z := 2000000.
Definition MAX_BLOCK_CYCLES : Z := TWO_IN_TWO_OUT_CYCLES * 200 * 8.
Definition MAX_BLOCK_PROPOSALS_LIMIT : Z := 3000.
Definition BLOCK_VERSION : Z := 0.
Definition PROPOSER_REWARD_RATIO : Ratio := mkRatio 4 10.

Record ProposalWindow := mkWindow { closest : Z; farthest : Z }.
Definition TX_PROPOSAL_WINDOW : ProposalWindow := mkWindow 2 10.
Definition window_length {E} (self : ProposalWindow) : outcome E Z :=
  d ← farthest self -64 closest self; d +64 1.

(** The part of [Consensus] the components below read; the proof of work
    engine is a component of its own. *)
Record Consensus := mkConsensus {
  genesis_block : Block;
  genesis_hash : H256;
  epoch_reward : Capacity;
  secondary_epoch_reward : Capacity;
  max_uncles_num : Z;
  orphan_rate_target_recip : Z;
  epoch_duration_target : Z;
  tx_proposal_window : ProposalWindow;
  proposer_reward_ratio : Ratio;
  cellbase_maturity : Z;
  median_time_block_count : Z;
  max_block_cycles : Z;
  max_block_bytes : Z;
  block_version : Z;
  max_block_proposals_limit : Z;
  genesis_epoch_ext : EpochExt;
  bootstrap_lock : Script
}.

Definition Consensus_default (genesis : Block) : Consensus :=
  mkConsensus genesis (b_hash genesis) DEFAULT_EPOCH_REWARD DEFAULT_SECONDARY_EPOCH_REWARD
    MAX_UNCLE_NUM ORPHAN_RATE_TARGET_RECIP EPOCH_DURATION_TARGET TX_PROPOSAL_WINDOW
    PROPOSER_REWARD_RATIO CELLBASE_MATURITY MEDIAN_TIME_BLOCK_COUNT MAX_BLOCK_CYCLES
    MAX_BLOCK_BYTES BLOCK_VERSION MAX_BLOCK_PROPOSALS_LIMIT
    (mkEpochExt 0 (DEFAULT_EPOCH_REWARD / GENESIS_EPOCH_LENGTH)
       (DEFAULT_EPOCH_REWARD mod GENESIS_EPOCH_LENGTH) 0 0 GENESIS_EPOCH_LENGTH
       (h_difficulty (b_header genesis)))
    (mkScript [] 0).

Definition finalization_delay_length {E} (self : Consensus) : outcome E Z :=
  farthest (tx_proposal_window self) +64 1.

Definition reserve_number {E} (self : Consensus) : outcome E Z := finalization_delay_length self.

Definition finalize_target {E} (self : Consensus) (block_number : Z) : outcome E (option Z) :=
  delay ← finalization_delay_length self;
  Ok (target ← checked_sub block_number delay;
      if decide (target < 1) then None else Some target).

Definition min_difficulty (self : Consensus) : Z := h_difficulty (b_header (genesis_block self)).

Definition revision_epoch_length (raw : Z) : Z :=
  Z.max (Z.min MAX_EPOCH_LENGTH raw) MIN_EPOCH_LENGTH.

Definition revision_epoch_difficulty {E} (self : Consensus) (last raw : Z) : outcome E Z :=
  let min := Z.max (min_difficulty self) (last / 2) in
  max ← mul_w U256_SIZE last 2;
  if decide (max < raw) then Ok max
  else if decide (raw < min) then Ok min
  else Ok raw.

Section next_epoch.
Context {E : Type}.
Context (self : Consensus).
Context (get_block_header : H256 -> option Header).
Context (total_uncles_count : H256 -> option Z).

(** The epoch that starts after [header], for a length and a difficulty. *)
Definition build_epoch (last_epoch : EpochExt) (header : Header) (next_epoch_length difficulty : Z)
    : outcome E (option EpochExt) :=
  reward ← div_w (epoch_reward self) next_epoch_length;
  remainder ← rem_w (epoch_reward self) next_epoch_length;
  number ← ep_number last_epoch +64 1;
  start ← h_number header +64 1;
  Ok (Some (mkEpochExt number reward remainder (h_hash header) start next_epoch_length difficulty)).

Definition adjust_epoch (last_epoch : EpochExt) (header : Header)
    (last_uncles_count last_epoch_duration : Z) : outcome E (option EpochExt) :=
  a ← last_uncles_count +64 ep_length last_epoch;
  a ← a *64 epoch_duration_target self;
  numerator ← a *64 ep_length last_epoch;
  b ← orphan_rate_target_recip self +64 1;
  b ← b *64 last_uncles_count;
  denominator ← b *64 last_epoch_duration;
  raw_next_epoch_length ← div_w numerator denominator;
  let next_epoch_length := revision_epoch_length raw_next_epoch_length in
  c ← mul_w U256_SIZE (h_difficulty header) last_uncles_count;
  c ← mul_w U256_SIZE c (orphan_rate_target_recip self);
  raw_difficulty ← div_w c (ep_length last_epoch);
  difficulty ← revision_epoch_difficulty self (h_difficulty header) raw_difficulty;
  build_epoch last_epoch header next_epoch_length difficulty.

Definition next_epoch_ext (last_epoch : EpochExt) (header : Header) : outcome E (option EpochExt) :=
  e ← ep_start_number last_epoch +64 ep_length last_epoch;
  last ← e -64 1;
  if negb (bool_decide (h_number header = last)) then Ok None
  else
    match (if ep_is_genesis last_epoch then Some (b_header (genesis_block self))
           else get_block_header (ep_last_block_hash_in_previous_epoch last_epoch)) with
    | None => Ok None
    | Some prev =>
        start_uncles ← expect (total_uncles_count (h_hash prev));
        last_uncles ← expect (total_uncles_count (h_hash header));
        last_uncles_count ← last_uncles -64 start_uncles;
        if decide (0 < last_uncles_count) then
          let last_epoch_duration := saturating_sub (h_timestamp header) (h_timestamp prev) in
          if decide (last_epoch_duration = 0) then Ok None
          else adjust_epoch last_epoch header last_uncles_count last_epoch_duration
        else
          build_epoch last_epoch header MAX_EPOCH_LENGTH
            (Z.max (min_difficulty self) (h_difficulty header / 2))
    end.
End next_epoch.

(** ** Lemmas *)
Lemma epoch_length_bounds : MIN_EPOCH_LENGTH = 240 /\ MAX_EPOCH_LENGTH = 1800.
Proof. done. Qed.

Lemma revision_epoch_length_bounds raw :
  MIN_EPOCH_LENGTH <= revision_epoch_length raw <= MAX_EPOCH_LENGTH.
Proof. unfold revision_epoch_length. destruct epoch_length_bounds as [-> ->]. lia. Qed.

Lemma revision_epoch_difficulty_bounds {E} c last raw d :
  0 < min_difficulty c <= last -> revision_epoch_difficulty (E := E) c last raw = Ok d ->
  min_difficulty c <= d /\ last / 2 <= d <= 2 * last.
Proof.
  unfold revision_epoch_difficulty. intros Hmin H. outcome_inv. subst x.
  pose proof (Z.div_le_upper_bound last 2 last).
  repeat case_decide; outcome_inv; subst d; lia.
Qed.

(** The rewards of consecutive blocks, in order. *)
Definition epoch_rewards (e : EpochExt) (from : Z) (n : nat) : outcome CapacityError (list Capacity) :=
  try_map (block_reward e) (Z.add from ∘ Z.of_nat <$> seq 0 n).

Lemma block_reward_in_epoch e number :
  0 <= ep_remainder_reward e <= ep_length e ->
  ep_start_number e + ep_length e < U64_SIZE -> ep_block_reward e + 1 < U64_SIZE ->
  ep_start_number e <= number ->
  block_reward e number =
  Ok (ep_block_reward e + if decide (number < ep_start_number e + ep_remainder_reward e) then 1 else 0).
Proof.
  intros Hr Hs Hb Hn. unfold block_reward, add_w. rewrite decide_True by done.
  rewrite decide_True by lia. simpl. case_decide.
  - unfold safe_add, checked_add. by rewrite decide_True by lia.
  - by rewrite Z.add_0_r.
Qed.

Lemma sum_epoch_rewards b r (n : nat) :
  0 <= r ->
  sum_z ((fun i => b + if decide (Z.of_nat i < r) then 1 else 0) <$> seq 0 n)
  = b * Z.of_nat n + Z.min r (Z.of_nat n).
Proof.
  intros Hr. induction n as [|n IH]; [simpl; lia|].
  rewrite seq_S, fmap_app, sum_z_app, IH. simpl. case_decide; lia.
Qed.

Lemma epoch_rewards_sum e n :
  0 <= ep_remainder_reward e <= ep_length e ->
  ep_start_number e + ep_length e < U64_SIZE -> ep_block_reward e + 1 < U64_SIZE ->
  exists l, epoch_rewards e (ep_start_number e) n = Ok l /\
    sum_z l = ep_block_reward e * Z.of_nat n + Z.min (ep_remainder_reward e) (Z.of_nat n).
Proof.
  intros Hr Hs Hb.
  exists ((fun i => ep_block_reward e +
    if decide (Z.of_nat i < ep_remainder_reward e) then 1 else 0) <$> seq 0 n).
  split; [|apply sum_epoch_rewards; lia].
  unfold epoch_rewards. apply try_map_Ok. rewrite Forall2_fmap. apply Forall2_same_length_lookup.
  split; [done|]. intros i x y Hx Hy. simplify_eq.
  rewrite block_reward_in_epoch by (simpl; lia). unfold compose. do 2 f_equal.
  repeat case_decide; lia.
Qed.

Lemma build_epoch_spec {E} c last_epoch header len d e :
  0 <= epoch_reward c < U64_SIZE -> MIN_EPOCH_LENGTH <= len <= MAX_EPOCH_LENGTH ->
  h_number header + 1 + MAX_EPOCH_LENGTH < U64_SIZE ->
  build_epoch (E := E) c last_epoch header len d = Ok (Some e) ->
  ep_number e = ep_number last_epoch + 1 /\ ep_start_number e = h_number header + 1 /\
  ep_last_block_hash_in_previous_epoch e = h_hash header /\
  ep_length e = len /\ ep_difficulty e = d /\
  exists l, epoch_rewards e (ep_start_number e) (Z.to_nat (ep_length e)) = Ok l /\
    sum_z l = epoch_reward c.
Proof.
  destruct epoch_length_bounds as [Hmin Hmax]. rewrite Hmin, Hmax. intros Hr Hlen Hnum H.
  unfold build_epoch in H. outcome_inv. simplify_eq. simpl. split_and!; [done..|].
  pose proof (Z.mod_pos_bound (epoch_reward c) len). pose proof (Z.div_mod (epoch_reward c) len).
  assert (epoch_reward c / len < U64_SIZE - 1) by (apply Z.div_lt_upper_bound; lia).
  set (e := mkEpochExt _ _ _ _ _ _ _).
  destruct (epoch_rewards_sum e (Z.to_nat len)) as (l & Hl & Hsum); simpl; try lia.
  exists l. split; [exact Hl|]. rewrite Hsum. simpl. rewrite Z2Nat.id by lia. lia.
Qed.

(** C33.  The next epoch is well formed and issues exactly the epoch reward.
    When [next_epoch_ext] starts an epoch, it is the one that follows: it
    starts where the last one ends, has between 240 and 1800 blocks, and its
    difficulty is at least the minimum and at least half, at most twice, that
    of the last block; and the rewards [block_reward] gives to its blocks, one
    after the other, sum up to the epoch reward of the consensus. *)
Theorem next_epoch_ext_spec {E} c get_block_header total_uncles_count last_epoch header e :
  0 <= epoch_reward c < U64_SIZE ->
  0 < min_difficulty c <= h_difficulty header ->
  h_number header + 1 + MAX_EPOCH_LENGTH < U64_SIZE ->
  next_epoch_ext (E := E) c get_block_header total_uncles_count last_epoch header = Ok (Some e) ->
  ep_number e = ep_number last_epoch + 1 /\
  ep_start_number e = ep_start_number last_epoch + ep_length last_epoch /\
  ep_last_block_hash_in_previous_epoch e = h_hash header /\
  240 <= ep_length e <= 1800 /\
  min_difficulty c <= ep_difficulty e /\
  h_difficulty header / 2 <= ep_difficulty e <= 2 * h_difficulty header /\
  exists l, epoch_rewards e (ep_start_number e) (Z.to_nat (ep_length e)) = Ok l /\
    sum_z l = epoch_reward c.
Proof.
  intros Hr Hd Hnum H. unfold next_epoch_ext in H. outcome_inv. subst.
  destruct (negb _) eqn:Hlast; [done|].
  apply negb_false_iff, bool_decide_eq_true in Hlast.
  destruct (if ep_is_genesis last_epoch then _ else _) as [prev|]; [|done]. outcome_inv.
  assert (h_number header + 1 = ep_start_number last_epoch + ep_length last_epoch) as Hstart by lia.
  case_decide as Hu.
  - case_decide; [done|]. unfold adjust_epoch in H. outcome_inv.
    match goal with Hrev : revision_epoch_difficulty _ _ _ = Ok _ |- _ =>
      apply revision_epoch_difficulty_bounds in Hrev; [|done] end.
    apply build_epoch_spec in H as (-> & -> & -> & -> & -> & Hsum); [|done| |done].
    + match goal with |- context [revision_epoch_length ?r] =>
        pose proof (revision_epoch_length_bounds r) as Hl end.
      destruct epoch_length_bounds as [Hmn Hmx]. rewrite Hmn, Hmx in Hl.
      split_and!; try done; lia.
    + apply revision_epoch_length_bounds.
  - apply build_epoch_spec in H as (-> & -> & -> & -> & -> & Hsum); [|done| |done].
    + destruct epoch_length_bounds as [_ ->].
      pose proof (Z.div_le_upper_bound (h_difficulty header) 2 (h_difficulty header)).
      split_and!; try done; lia.
    + destruct epoch_length_bounds as [-> ->]. lia.
Qed.

(** With the default parameters the computation of the next epoch does not
    overflow: for an epoch of at most 1800 blocks with at most two uncles a
    block, block timestamps below 2^47 milliseconds, and a difficulty below
    2^239, [next_epoch_ext] returns without a panic. *)
Theorem next_epoch_ext_no_panic {E} genesis get_block_header total_uncles_count last_epoch header :
  let c := Consensus_default genesis in
  0 < ep_length last_epoch <= MAX_EPOCH_LENGTH ->
  0 <= ep_start_number last_epoch < 2 ^ 62 -> 0 <= ep_number last_epoch < 2 ^ 62 ->
  0 <= h_difficulty header < 2 ^ 239 -> h_timestamp header < 2 ^ 47 ->
  (forall hash prev, get_block_header hash = Some prev -> 0 <= h_timestamp prev) ->
  0 <= h_timestamp (b_header genesis) ->
  (forall prev, (ep_is_genesis last_epoch = true /\ prev = b_header genesis) \/
      (get_block_header (ep_last_block_hash_in_previous_epoch last_epoch) = Some prev) ->
    exists a b, total_uncles_count (h_hash prev) = Some a /\
      total_uncles_count (h_hash header) = Some b /\ a <= b <= a + 2 * ep_length last_epoch) ->
  exists r, next_epoch_ext (E := E) c get_block_header total_uncles_count last_epoch header = Ok r.
Proof.
  intros c Hlen Hstart Hnum Hdiff Hts Hprev Hgen Hunc.
  destruct epoch_length_bounds as [Hmn Hmx]. rewrite Hmx in Hlen.
  unfold next_epoch_ext. outcome_arith. destruct (negb _) eqn:Hneg; [by eauto|].
  apply negb_false_iff, bool_decide_eq_true in Hneg.
  assert (forall len d, 0 < len -> exists r,
    build_epoch (E := E) c last_epoch header len d = Ok r) as Hbuild.
  { intros len d Hl. unfold build_epoch. outcome_arith. eauto. }
  destruct (if ep_is_genesis last_epoch then _ else _) as [prev|] eqn:Hp; [|by eauto].
  assert (0 <= h_timestamp prev) as Htp.
  { destruct (ep_is_genesis last_epoch); [by injection Hp as <-|by eapply Hprev]. }
  destruct (Hunc prev) as (a & b & Ha & Hb & Hab).
  { destruct (ep_is_genesis last_epoch); [left; by injection Hp as <-|by right]. }
  rewrite Ha, Hb. unfold expect. outcome_arith. case_decide as Hu; [|apply Hbuild; rewrite Hmx; lia]. case_decide as Hdur; [by eauto|].
  unfold saturating_sub in *. set (u := b - a) in *. set (dur := Z.max 0 _) in *.
  assert (0 < dur < 2 ^ 47) as Hdb by lia.
  unfold adjust_epoch. cbn [c Consensus_default epoch_duration_target orphan_rate_target_recip].
  unfold EPOCH_DURATION_TARGET, ORPHAN_RATE_TARGET_RECIP.
  assert (0 <= (u + ep_length last_epoch) * (4 * 60 * 60 * 1000) * ep_length last_epoch < U64_SIZE)
    by nia.
  assert (0 < (20 + 1) * u * dur < U64_SIZE) by nia.
  assert (0 <= h_difficulty header * u < 2 ^ 251) by nia.
  unfold revision_epoch_difficulty. outcome_arith.
  pose proof (revision_epoch_length_bounds
    ((u + ep_length last_epoch) * (4 * 60 * 60 * 1000) * ep_length last_epoch
     / ((20 + 1) * u * dur))) as Hrl.
  rewrite Hmn in Hrl.
  repeat case_decide; rewrite bind_ret_l; apply Hbuild; lia.
Qed.

(** ** Example: the end of the genesis epoch, with forty uncles *)
Module EpochExample.
Definition genesis : Block := simple_block 0 0 1000 [].
Definition consensus : Consensus := Consensus_default genesis.
Definition last : Header :=
  mkHeader (mkRawHeader 0 2248 14000000 1249 0 0 0 100 0 0 0) (mkSeal 0 []) 2249.
Definition headers (h : H256) : option Header := None.
Definition uncles (h : H256) : option Z :=
  if decide (h = 1000) then Some 0 else if decide (h = 2249) then Some 40 else None.
Definition next : EpochExt :=
  mkEpochExt 1 (DEFAULT_EPOCH_REWARD / 1800) (DEFAULT_EPOCH_REWARD mod 1800) 2249 1250 1800 64.
End EpochExample.

Lemma next_epoch_ext_spec_witness :
  next_epoch_ext (E := unit) EpochExample.consensus EpochExample.headers EpochExample.uncles
    (genesis_epoch_ext EpochExample.consensus) EpochExample.last = Ok (Some EpochExample.next) /\
  240 <= ep_length EpochExample.next <= 1800.
Proof.
  assert (next_epoch_ext (E := unit) EpochExample.consensus EpochExample.headers
    EpochExample.uncles (genesis_epoch_ext EpochExample.consensus) EpochExample.last
    = Ok (Some EpochExample.next)) as H by (vm_compute; reflexivity).
  split; [exact H|].
  refine (proj1 (proj2 (proj2 (proj2 (next_epoch_ext_spec EpochExample.consensus
    EpochExample.headers EpochExample.uncles (genesis_epoch_ext EpochExample.consensus)
    EpochExample.last EpochExample.next _ _ _ H))))); by_compute.
Defined.

Lemma next_epoch_ext_no_panic_witness :
  exists r, next_epoch_ext (E := unit) EpochExample.consensus EpochExample.headers
    EpochExample.uncles (genesis_epoch_ext EpochExample.consensus) EpochExample.last = Ok r.
Proof.
  apply (next_epoch_ext_no_panic EpochExample.genesis); try by_compute.
  - intros hash prev H. discriminate H.
  - intros prev [[_ ->]|H]; [|discriminate H]. exists 0, 40. by_compute.
Defined.
