(* ===== verification/ChainStore.v ===== *)
(** * The chain store

    [store/src/store.rs]: the columns of the key-value store as maps from
    decoded keys to decoded values, the lookups of [ChainStore] and the writes
    of [StoreBatch].  The columns of header, uncles, proposals, body and
    transaction addresses are written together for a block and never deleted:
    they are one map here.  [StoreBytes] has the same operations on the bytes of
    a database with their caches, and [StoreSound] proves that they implement
    these. *)
From S2P Require Import Prelude Capacity Transactions Blocks Fixtures CellSet Cells Epochs.

Record StoreData := mkStore {
  sd_blocks : gmap Z Block;
  sd_ext : gmap Z BlockExt;
  sd_hash_of : gmap Z H256;
  sd_number_of : gmap Z Z;
  sd_uncles : gset H256;
  sd_tx_addr : gmap Z (H256 * nat);
  sd_cell_meta : gmap (Z * Z) CellMeta;
  sd_epoch_ext : gmap Z EpochExt;
  sd_epoch_index : gmap Z H256;
  sd_block_epoch : gmap Z H256;
  sd_tip : option H256;
  sd_current_epoch : option EpochExt
}.

(** ** [ChainStore] *)
Definition get_block (s : StoreData) (h : H256) : option Block := sd_blocks s !! h.
Definition get_block_header (s : StoreData) (h : H256) : option Header :=
  b_header <$> sd_blocks s !! h.
Definition get_block_body (s : StoreData) (h : H256) : option (list Transaction) :=
  b_transactions <$> sd_blocks s !! h.
Definition get_block_txs_hashes (s : StoreData) (h : H256) : option (list H256) :=
  (fun b => tx_hash <$> b_transactions b) <$> sd_blocks s !! h.
Definition get_block_uncles (s : StoreData) (h : H256) : option (list UncleBlock) :=
  b_uncles <$> sd_blocks s !! h.
Definition get_block_proposal_txs_ids (s : StoreData) (h : H256) : option (list Bytes) :=
  b_proposals <$> sd_blocks s !! h.
Definition get_block_ext (s : StoreData) (h : H256) : option BlockExt := sd_ext s !! h.
Definition get_block_hash (s : StoreData) (number : Z) : option H256 := sd_hash_of s !! number.
Definition get_block_number (s : StoreData) (h : H256) : option Z := sd_number_of s !! h.
Definition is_uncle (s : StoreData) (h : H256) : bool := bool_decide (h ∈ sd_uncles s).
Definition get_transaction (s : StoreData) (h : H256) : option (Transaction * H256) :=
  '(block_hash, i) ← sd_tx_addr s !! h;
  b ← sd_blocks s !! block_hash;
  tx ← b_transactions b !! i;
  Some (tx, block_hash).
Definition get_transaction_address (s : StoreData) (h : H256) : option H256 :=
  fst <$> sd_tx_addr s !! h.
Definition get_cell_meta (s : StoreData) (h : H256) (index : Z) : option CellMeta :=
  sd_cell_meta s !! (h, index).
Definition get_cell_output (s : StoreData) (h : H256) (index : Z) : option CellOutput :=
  '(block_hash, i) ← sd_tx_addr s !! h;
  b ← sd_blocks s !! block_hash;
  tx ← b_transactions b !! i;
  tx_outputs tx !! Z.to_nat index.
Definition get_cellbase (s : StoreData) (h : H256) : option Transaction :=
  b ← sd_blocks s !! h; head (b_transactions b).
Definition get_epoch_ext (s : StoreData) (h : H256) : option EpochExt := sd_epoch_ext s !! h.
Definition get_epoch_index (s : StoreData) (number : Z) : option H256 := sd_epoch_index s !! number.
Definition get_block_epoch_index (s : StoreData) (h : H256) : option H256 := sd_block_epoch s !! h.
Definition get_tip_header (s : StoreData) : option Header :=
  h ← sd_tip s; get_block_header s h.

(** ** [StoreBatch] *)
Definition insert_block (block : Block) (s : StoreData) : StoreData :=
  mkStore (<[b_hash block := block]> (sd_blocks s)) (sd_ext s) (sd_hash_of s) (sd_number_of s)
    (sd_uncles s) (sd_tx_addr s) (sd_cell_meta s) (sd_epoch_ext s) (sd_epoch_index s)
    (sd_block_epoch s) (sd_tip s) (sd_current_epoch s).

Definition insert_block_ext (h : H256) (ext : BlockExt) (s : StoreData) : StoreData :=
  mkStore (sd_blocks s) (<[h := ext]> (sd_ext s)) (sd_hash_of s) (sd_number_of s)
    (sd_uncles s) (sd_tx_addr s) (sd_cell_meta s) (sd_epoch_ext s) (sd_epoch_index s)
    (sd_block_epoch s) (sd_tip s) (sd_current_epoch s).

Definition insert_tip_header (header : Header) (s : StoreData) : StoreData :=
  mkStore (sd_blocks s) (sd_ext s) (sd_hash_of s) (sd_number_of s)
    (sd_uncles s) (sd_tx_addr s) (sd_cell_meta s) (sd_epoch_ext s) (sd_epoch_index s)
    (sd_block_epoch s) (Some (h_hash header)) (sd_current_epoch s).

Definition insert_current_epoch_ext (epoch : EpochExt) (s : StoreData) : StoreData :=
  mkStore (sd_blocks s) (sd_ext s) (sd_hash_of s) (sd_number_of s)
    (sd_uncles s) (sd_tx_addr s) (sd_cell_meta s) (sd_epoch_ext s) (sd_epoch_index s)
    (sd_block_epoch s) (sd_tip s) (Some epoch).

Definition insert_block_epoch_index (block_hash epoch_hash : H256) (s : StoreData) : StoreData :=
  mkStore (sd_blocks s) (sd_ext s) (sd_hash_of s) (sd_number_of s)
    (sd_uncles s) (sd_tx_addr s) (sd_cell_meta s) (sd_epoch_ext s) (sd_epoch_index s)
    (<[block_hash := epoch_hash]> (sd_block_epoch s)) (sd_tip s) (sd_current_epoch s).

Definition insert_epoch_ext (h : H256) (epoch : EpochExt) (s : StoreData) : StoreData :=
  mkStore (sd_blocks s) (sd_ext s) (sd_hash_of s) (sd_number_of s)
    (sd_uncles s) (sd_tx_addr s) (sd_cell_meta s) (<[h := epoch]> (sd_epoch_ext s))
    (<[ep_number epoch := h]> (sd_epoch_index s)) (sd_block_epoch s) (sd_tip s)
    (sd_current_epoch s).

Section attach.
Context (blake2b_256 : Bytes -> H256).

(** The metadata stored for the outputs of the transaction at a position. *)
Definition tx_cell_metas (block : Block) (id : nat) (tx : Transaction) : list (Z * Z * CellMeta) :=
  imap (fun index output =>
    let out_point := mkCellOutPoint (tx_hash tx) (cast U32_SIZE (Z.of_nat index)) in
    ((tx_hash tx, cop_index out_point),
     mkCellMeta None out_point
       (Some (mkBlockInfo (h_number (b_header block)) (h_epoch (b_header block))))
       (bool_decide (id = 0%nat)) (co_capacity output)
       (Some (data_hash blake2b_256 output)))) (tx_outputs tx).

Definition attach_tx (block : Block)
    (st : gmap Z (H256 * nat) * gmap (Z * Z) CellMeta) (p : nat * Transaction)
    : gmap Z (H256 * nat) * gmap (Z * Z) CellMeta :=
  (<[tx_hash p.2 := (b_hash block, p.1)]> st.1,
   fold_left (fun m '(k, v) => <[k := v]> m) (tx_cell_metas block p.1 p.2) st.2).

Definition attach_block (block : Block) (s : StoreData) : StoreData :=
  let '(tx_addr, cell_meta) :=
    fold_left (attach_tx block) (enumerate (b_transactions block))
      (sd_tx_addr s, sd_cell_meta s) in
  mkStore (sd_blocks s) (sd_ext s) (<[b_number block := b_hash block]> (sd_hash_of s))
    (<[b_hash block := b_number block]> (sd_number_of s))
    (sd_uncles s ∪ list_to_set (uncle_hash <$> b_uncles block)) tx_addr cell_meta
    (sd_epoch_ext s) (sd_epoch_index s) (sd_block_epoch s) (sd_tip s) (sd_current_epoch s).

Definition detach_tx (st : gmap Z (H256 * nat) * gmap (Z * Z) CellMeta) (tx : Transaction)
    : gmap Z (H256 * nat) * gmap (Z * Z) CellMeta :=
  (delete (tx_hash tx) st.1,
   fold_left (fun m index => delete (tx_hash tx, cast U32_SIZE (Z.of_nat index)) m)
     (seq 0 (length (tx_outputs tx))) st.2).

Definition detach_block (block : Block) (s : StoreData) : StoreData :=
  let '(tx_addr, cell_meta) :=
    fold_left detach_tx (b_transactions block) (sd_tx_addr s, sd_cell_meta s) in
  mkStore (sd_blocks s) (sd_ext s) (delete (b_number block) (sd_hash_of s))
    (delete (b_hash block) (sd_number_of s))
    (sd_uncles s ∖ list_to_set (uncle_hash <$> b_uncles block)) tx_addr cell_meta
    (sd_epoch_ext s) (sd_epoch_index s) (sd_block_epoch s) (sd_tip s) (sd_current_epoch s).
End attach.

(** [Shared::get_ancestor] of [shared/src/shared.rs]: on the main chain by the
    number index, on a fork by walking to the parents. *)
Fixpoint walk_parents (s : StoreData) (steps : nat) (index_walk : Header) : option Header :=
  match steps with
  | O => Some index_walk
  | S steps =>
      header ← get_block_header s (h_parent_hash index_walk);
      walk_parents s steps header
  end.

Definition get_ancestor (s : StoreData) (base : H256) (number : Z) : option Header :=
  match get_block_number s base with
  | Some n_number =>
      if decide (n_number < number) then None
      else hash ← get_block_hash s number; get_block_header s hash
  | None =>
      header ← get_block_header s base;
      if decide (h_number header < number) then None
      else walk_parents s (Z.to_nat (h_number header - number)) header
  end.

Definition get_block_epoch (s : StoreData) (h : H256) : option EpochExt :=
  index ← get_block_epoch_index s h; get_epoch_ext s index.

(** ** The main chain *)
Definition blocks_ok (s : StoreData) : Prop :=
  forall h b, sd_blocks s !! h = Some b -> b_hash b = h /\ 0 <= b_number b.

(** The block with a number on the main chain. *)
Definition main_block (s : StoreData) (n : Z) : option Block :=
  h ← sd_hash_of s !! n; sd_blocks s !! h.

(** The index lists the blocks [0 .. tip] of one chain, and the two halves of
    the index are inverse to each other. *)
Record is_main (s : StoreData) (tip : Z) : Prop := {
  im_range : forall n h, sd_hash_of s !! n = Some h -> 0 <= n <= tip;
  im_block : forall n, 0 <= n <= tip -> exists b,
    sd_hash_of s !! n = Some (b_hash b) /\ sd_blocks s !! b_hash b = Some b /\ b_number b = n /\
    (0 < n -> sd_hash_of s !! (n - 1) = Some (b_parent b));
  im_inverse : forall h n, sd_number_of s !! h = Some n <-> sd_hash_of s !! n = Some h
}.

Lemma main_block_Some s tip n :
  is_main s tip -> 0 <= n <= tip -> exists b, main_block s n = Some b /\
    sd_hash_of s !! n = Some (b_hash b) /\ sd_blocks s !! b_hash b = Some b /\ b_number b = n /\
    (0 < n -> sd_hash_of s !! (n - 1) = Some (b_parent b)).
Proof.
  intros Hm Hn. destruct (im_block _ _ Hm n Hn) as (b & Hh & Hb & Hnum & Hp).
  exists b. unfold main_block. rewrite Hh. simpl. eauto.
Qed.

(** ** Ancestors *)
Definition reference_ancestor (s : StoreData) (base : H256) (number : Z) : option Header :=
  header ← get_block_header s base;
  if decide (h_number header < number) then None
  else walk_parents s (Z.to_nat (h_number header - number)) header.

Lemma walk_parents_main s tip b (k : nat) :
  is_main s tip -> main_block s (b_number b) = Some b -> Z.of_nat k <= b_number b <= tip ->
  walk_parents s k (b_header b) = b_header <$> main_block s (b_number b - Z.of_nat k).
Proof.
  intros Hm. revert b. induction k as [|k IH]; intros b Hb Hk; simpl.
  { by rewrite Z.sub_0_r, Hb. }
  destruct (main_block_Some s tip (b_number b) Hm ltac:(lia)) as (b0 & Hb0 & _ & _ & _ & Hp).
  rewrite Hb in Hb0. injection Hb0 as <-. specialize (Hp ltac:(lia)).
  destruct (main_block_Some s tip (b_number b - 1) Hm ltac:(lia))
    as (p & Hmp & Hph & Hpb & Hpn & _).
  rewrite Hp in Hph. injection Hph as Hph.
  change (h_parent_hash (b_header b)) with (b_parent b). unfold get_block_header.
  rewrite Hph, Hpb. simpl. rewrite IH by (rewrite Hpn; done || lia).
  rewrite Hpn. do 2 f_equal. lia.
Qed.

Lemma get_ancestor_main s tip b number :
  is_main s tip -> main_block s (b_number b) = Some b -> 0 <= number <= b_number b ->
  b_number b <= tip ->
  get_ancestor s (b_hash b) number = b_header <$> main_block s number.
Proof.
  intros Hm Hb Hn Ht.
  destruct (main_block_Some s tip (b_number b) Hm ltac:(lia)) as (b' & Hb' & Hh & _).
  rewrite Hb in Hb'. injection Hb' as <-. apply (im_inverse _ _ Hm) in Hh.
  unfold get_ancestor, get_block_number. rewrite Hh. simpl.
  rewrite decide_False by lia. unfold get_block_hash, get_block_header, main_block.
  by destruct (sd_hash_of s !! number).
Qed.

(** The ancestor found by the index is the ancestor found by following
    the parents: on a consistent main chain, [get_ancestor] answers, for every
    base and every number, what walking from the base does, also when the base
    is not stored or the number is too large. *)
Theorem get_ancestor_reference s tip base number :
  is_main s tip -> 0 <= number ->
  get_ancestor s base number = reference_ancestor s base number.
Proof.
  intros Hm Hn. unfold get_ancestor, reference_ancestor, get_block_number.
  destruct (sd_number_of s !! base) as [n|] eqn:Hbase; [|done].
  apply (im_inverse _ _ Hm) in Hbase. pose proof (im_range _ _ Hm _ _ Hbase) as Hr.
  destruct (main_block_Some s tip n Hm Hr) as (b & Hb & Hh & Hbl & Hnum & _).
  rewrite Hbase in Hh. injection Hh as Hbh. subst base n.
  unfold get_block_header at 2. rewrite Hbl. simpl.
  change (h_number (b_header b)) with (b_number b).
  case_decide; [done|].
  rewrite (walk_parents_main s tip) by (done || lia).
  rewrite Z2Nat.id by lia. replace (b_number b - (b_number b - number)) with number by lia.
  unfold get_block_hash, get_block_header, main_block.
  by destruct (sd_hash_of s !! number).
Qed.

(** ** Checking the invariant on concrete data *)
Definition main_ok_at (s : StoreData) (n : Z) : bool :=
  match main_block s n with
  | Some b =>
      bool_decide (sd_hash_of s !! n = Some (b_hash b))
      && bool_decide (sd_blocks s !! b_hash b = Some b) && bool_decide (b_number b = n)
      && (bool_decide (n <= 0) || bool_decide (sd_hash_of s !! (n - 1) = Some (b_parent b)))
  | None => false
  end.

Lemma is_main_check s tip :
  map_Forall (fun n h => 0 <= n <= tip /\ sd_number_of s !! h = Some n) (sd_hash_of s) /\
  map_Forall (fun h n => sd_hash_of s !! n = Some h) (sd_number_of s) /\
  Forall (fun n => main_ok_at s n = true) (seqZ 0 (tip + 1)) ->
  is_main s tip.
Proof.
  intros (H1 & H2 & H3). rewrite Forall_forall in H3. split.
  - intros n h Hh. by apply H1 in Hh as [? _].
  - intros n Hn. specialize (H3 n). rewrite elem_of_seqZ in H3. specialize (H3 ltac:(lia)).
    unfold main_ok_at in H3. destruct (main_block s n) as [b|]; [|done]. exists b.
    rewrite !andb_true_iff, orb_true_iff, !bool_decide_eq_true in H3.
    destruct H3 as [[[? ?] ?] Hp]. split_and!; [done..|]. intros. destruct Hp; [lia|done].
  - intros h n. split; [by apply H2|]. intros Hh. by apply H1 in Hh as [_ ?].
Qed.

Lemma blocks_ok_check s :
  map_Forall (fun h b => b_hash b = h /\ 0 <= b_number b) (sd_blocks s) -> blocks_ok s.
Proof. intros H h b. apply H. Qed.

(** A main chain of three blocks with a fork of one. *)
Module StoreExample.
Definition main0 : Block := simple_block 0 0 100 [].
Definition main1 : Block := simple_block 1 100 101 [simple_tx 20 [new_cell 10 0] 1].
Definition main2 : Block := simple_block 2 101 102 [].
Definition fork1 : Block := simple_block 1 100 201 [simple_tx 30 [new_cell 10 0] 2].
Definition fork2 : Block := simple_block 2 201 202 [simple_tx 31 [new_cell 30 0] 1].
Definition ext (v : option bool) : BlockExt := mkBlockExt 0 1 0 v (mkDaoStats 0 0) [].
Definition store : StoreData :=
  mkStore {[100 := main0; 101 := main1; 102 := main2; 201 := fork1]}
    {[100 := ext (Some true); 101 := ext (Some true); 102 := ext (Some true); 201 := ext None]}
    {[0 := 100; 1 := 101; 2 := 102]} {[100 := 0; 101 := 1; 102 := 2]} ∅
    {[20 := (101, 0%nat)]} ∅ ∅ ∅ ∅ (Some 102) None.

Lemma store_main : is_main store 2.
Proof. apply is_main_check. by_compute. Qed.
Lemma store_blocks_ok : blocks_ok store.
Proof. apply blocks_ok_check. by_compute. Qed.
End StoreExample.

Lemma get_ancestor_reference_witness :
  get_ancestor StoreExample.store 102 1 = reference_ancestor StoreExample.store 102 1 /\
  get_ancestor StoreExample.store 102 1 = Some (b_header StoreExample.main1).
Proof.
  split; [|vm_compute; reflexivity].
  apply (get_ancestor_reference StoreExample.store 2); [exact StoreExample.store_main|lia].
Defined.
