(* ===== verification/Fork.v ===== *)
(** * Finding the fork

    [ForkChanges], [GlobalIndex] and the functions [find_fork],
    [alignment_fork], [find_fork_until_latest_common] and [update_index] of
    [chain/src/chain.rs].  The loops count the number of the walked block down
    to zero, so they are recursive functions of that number. *)
From S2P Require Import Prelude Capacity Transactions Blocks Fixtures CellSet Cells Epochs ChainStore.

Record ForkChanges := mkFork {
  attached_blocks : list Block;
  detached_blocks : list Block;
  dirty_exts : list BlockExt
}.

Definition push_attached_front (b : Block) (f : ForkChanges) : ForkChanges :=
  mkFork (b :: attached_blocks f) (detached_blocks f) (dirty_exts f).
Definition push_detached_front (b : Block) (f : ForkChanges) : ForkChanges :=
  mkFork (attached_blocks f) (b :: detached_blocks f) (dirty_exts f).
Definition push_ext_front (e : BlockExt) (f : ForkChanges) : ForkChanges :=
  mkFork (attached_blocks f) (detached_blocks f) (e :: dirty_exts f).

Definition has_detached (f : ForkChanges) : bool :=
  match detached_blocks f with [] => false | _ => true end.
Definition verified_len {E} (f : ForkChanges) : outcome E Z :=
  len (attached_blocks f) -64 len (dirty_exts f).

Record GlobalIndex := mkIndex { gi_number : nat; gi_hash : H256; gi_unseen : bool }.

Section find_fork.
Context {E : Type}.
Context (s : StoreData).

(** The extra data of a block to attach is collected until a block that was
    verified before. *)
Definition see_ext (fork : ForkChanges) (hash : H256) (unseen : bool)
    : outcome E (ForkChanges * bool) :=
  if unseen then
    ext ← expect (get_block_ext s hash);
    match verified ext with
    | None => Ok (push_ext_front ext fork, true)
    | Some _ => Ok (fork, false)
    end
  else Ok (fork, false).

(** [for bn in new_tip_number..=current_tip_number] *)
Definition detach_range (fork : ForkChanges) (new_tip_number current_tip_number : Z)
    : outcome E ForkChanges :=
  try_fold (fun fork bn =>
      hash ← expect (get_block_hash s bn);
      old_block ← expect (get_block s hash);
      Ok (push_detached_front old_block fork))
    fork (seqZ new_tip_number (current_tip_number - new_tip_number + 1)).

(** [while index.number > current_tip_number] *)
Fixpoint attach_above (current_tip_number : Z) (number : nat) (hash : H256) (unseen : bool)
    (fork : ForkChanges) : outcome E (ForkChanges * GlobalIndex) :=
  match number with
  | O => Ok (fork, mkIndex O hash unseen)
  | S number' =>
      if decide (current_tip_number < Z.of_nat number) then
        '(fork, unseen) ← see_ext fork hash unseen;
        new_block ← expect (get_block s hash);
        attach_above current_tip_number number' (b_parent new_block) unseen
          (push_attached_front new_block fork)
      else Ok (fork, mkIndex number hash unseen)
  end.

Definition alignment_fork (fork : ForkChanges) (index : GlobalIndex)
    (new_tip_number current_tip_number : Z) : outcome E (ForkChanges * GlobalIndex) :=
  if decide (new_tip_number <= current_tip_number) then
    fork ← detach_range fork new_tip_number current_tip_number;
    Ok (fork, index)
  else attach_above current_tip_number (gi_number index) (gi_hash index) (gi_unseen index) fork.

Fixpoint find_fork_until_latest_common (number : nat) (hash : H256) (unseen : bool)
    (fork : ForkChanges) : outcome E ForkChanges :=
  match number with
  | O => Ok fork
  | S number' =>
      detached_hash ← expect (get_block_hash s (Z.of_nat number));
      if decide (detached_hash = hash) then Ok fork
      else
        detached_block ← expect (get_block s detached_hash);
        '(fork, unseen) ← see_ext (push_detached_front detached_block fork) hash unseen;
        attached_block ← expect (get_block s hash);
        find_fork_until_latest_common number' (b_parent attached_block) unseen
          (push_attached_front attached_block fork)
  end.

Definition find_fork (current_tip_number : Z) (new_tip_block : Block) (new_tip_ext : BlockExt)
    : outcome E ForkChanges :=
  let new_tip_number := b_number new_tip_block in
  let fork := mkFork [new_tip_block] [] [new_tip_ext] in
  n ← new_tip_number -64 1;
  let index := mkIndex (Z.to_nat n) (b_parent new_tip_block) true in
  '(fork, index) ← alignment_fork fork index new_tip_number current_tip_number;
  find_fork_until_latest_common (gi_number index) (gi_hash index) (gi_unseen index) fork.
End find_fork.

Definition update_index (blake2b_256 : Bytes -> H256) (detached attached : list Block)
    (s : StoreData) : StoreData :=
  let s := fold_left (fun s b => detach_block b s) detached s in
  fold_left (fun s b => attach_block blake2b_256 b s) attached s.

(** ** The specification: the path from the main chain to a block

    [fork_path s n h k path]: following the parents from the block [h] with
    number [n], the first block on the main chain has number [k]; [path] are
    the blocks above it, in ascending order. *)
Inductive fork_path (s : StoreData) : nat -> H256 -> nat -> list Block -> Prop :=
| fork_path_main n h :
    sd_hash_of s !! Z.of_nat n = Some h -> fork_path s n h n []
| fork_path_step n h b k path :
    sd_hash_of s !! Z.of_nat (S n) <> Some h -> sd_blocks s !! h = Some b ->
    b_number b = Z.of_nat (S n) -> is_Some (sd_ext s !! h) ->
    fork_path s n (b_parent b) k path ->
    fork_path s (S n) h k (path ++ [b]).

(** The blocks [a .. b] of the main chain. *)
Definition main_blocks (s : StoreData) (a b : Z) : list Block :=
  omap (main_block s) (seqZ a (b - a + 1)).

(** The extra data of the unverified blocks at the end of a path, given from
    the top. *)
Fixpoint unverified_top (s : StoreData) (unseen : bool) (from_top : list Block) : list BlockExt :=
  match from_top with
  | [] => []
  | b :: rest =>
      match unseen, sd_ext s !! b_hash b with
      | true, Some ext =>
          match verified ext with
          | None => ext :: unverified_top s true rest
          | Some _ => []
          end
      | _, _ => []
      end
  end.

Section fork_lemmas.
Context {E : Type}.
Context (s : StoreData) (tip : Z).
Context (Hok : blocks_ok s) (Hmain : is_main s tip).

Lemma fork_path_le n h k path : fork_path s n h k path -> (k <= n)%nat.
Proof using. induction 1; lia. Qed.

Lemma fork_path_main_le n h k path :
  fork_path s n h k path -> exists c, sd_hash_of s !! Z.of_nat k = Some c.
Proof using. induction 1; eauto. Qed.

Lemma main_blocks_empty a b : b < a -> main_blocks s a b = [].
Proof using. intros H. unfold main_blocks. by rewrite seqZ_nil by lia. Qed.

Lemma main_blocks_snoc a b x :
  a <= b + 1 -> main_block s (b + 1) = Some x ->
  main_blocks s a (b + 1) = main_blocks s a b ++ [x].
Proof using.
  intros Hab Hx. unfold main_blocks.
  replace (b + 1 - a + 1) with ((b - a + 1) + 1) by lia.
  rewrite seqZ_app by lia. rewrite omap_app. f_equal.
  rewrite (seqZ_cons _ 1), seqZ_nil by lia. simpl.
  replace (a + (b - a + 1)) with (b + 1) by lia. by rewrite Hx.
Qed.

Lemma main_blocks_app a b c :
  a <= b + 1 -> b <= c -> main_blocks s a c = main_blocks s a b ++ main_blocks s (b + 1) c.
Proof using.
  intros Hab Hbc. unfold main_blocks. rewrite <- omap_app. f_equal.
  replace (c - a + 1) with ((b - a + 1) + (c - (b + 1) + 1)) by lia.
  rewrite seqZ_app by lia. do 2 f_equal. lia.
Qed.

Lemma see_ext_spec fork b unseen :
  is_Some (sd_ext s !! b_hash b) ->
  exists unseen', see_ext (E := E) s fork (b_hash b) unseen =
    Ok (mkFork (attached_blocks fork) (detached_blocks fork)
          (firstn 1 (unverified_top s unseen [b]) ++ dirty_exts fork), unseen') /\
    forall rest, unverified_top s unseen (b :: rest) =
      firstn 1 (unverified_top s unseen [b]) ++ unverified_top s unseen' rest.
Proof using.
  intros [ext Hext]. unfold see_ext, get_block_ext. simpl. rewrite Hext.
  assert (forall rest, unverified_top s false rest = []) as Hf by (by destruct rest).
  destruct unseen; simpl.
  - destruct (verified ext).
    + exists false. destruct fork. split; [done|]. intros rest. by rewrite Hf.
    + exists true. by destruct fork.
  - exists false. destruct fork. split; [done|]. intros rest. by rewrite Hf.
Qed.

(** What the walk down to the latest common block adds to a fork. *)
Definition grown (fork : ForkChanges) (path det : list Block) (unseen : bool) : ForkChanges :=
  mkFork (path ++ attached_blocks fork) (det ++ detached_blocks fork)
    (reverse (unverified_top s unseen (reverse path)) ++ dirty_exts fork).

Lemma grown_step fork path b det d unseen unseen' :
  (forall rest, unverified_top s unseen (b :: rest) =
     firstn 1 (unverified_top s unseen [b]) ++ unverified_top s unseen' rest) ->
  grown (push_attached_front b (mkFork (attached_blocks fork) (d ++ detached_blocks fork)
          (firstn 1 (unverified_top s unseen [b]) ++ dirty_exts fork))) path det unseen'
  = grown fork (path ++ [b]) (det ++ d) unseen.
Proof using.
  intros Hu. unfold grown, push_attached_front. simpl.
  rewrite reverse_snoc, Hu, reverse_app, <- !app_assoc.
  assert (reverse (firstn 1 (unverified_top s unseen [b])) = firstn 1 (unverified_top s unseen [b]))
    as -> by (by destruct (unverified_top s unseen [b])).
  done.
Qed.

Lemma until_spec n h k path :
  fork_path s n h k path -> Z.of_nat n <= tip -> forall unseen fork,
  find_fork_until_latest_common (E := E) s n h unseen fork =
  Ok (grown fork path (main_blocks s (Z.of_nat k + 1) (Z.of_nat n)) unseen).
Proof using Hok Hmain.
  induction 1 as [n h Hh|n h b k path Hne Hb Hnum Hext Hpath IH]; intros Hn unseen fork.
  - rewrite main_blocks_empty by lia.
    assert (grown fork [] [] unseen = fork) as -> by (by destruct fork).
    destruct n as [|n]; [done|]. cbn [find_fork_until_latest_common].
    unfold get_block_hash. rewrite Hh. simpl. by rewrite decide_True.
  - destruct (main_block_Some s tip (Z.of_nat (S n)) Hmain ltac:(lia))
      as (d & Hd & Hdh & Hdb & _ & _).
    pose proof (Hok _ _ Hb) as [<- _].
    cbn [find_fork_until_latest_common]. unfold get_block_hash, get_block.
    rewrite Hdh. cbn [expect]. rewrite bind_ret_l.
    rewrite decide_False by congruence. rewrite Hdb. cbn [expect]. rewrite bind_ret_l.
    destruct (see_ext_spec (push_detached_front d fork) b unseen Hext) as (unseen' & -> & Hu).
    rewrite bind_ret_l, Hb. cbn [expect]. rewrite bind_ret_l.
    rewrite IH by lia. f_equal.
    apply fork_path_le in Hpath.
    rewrite Nat2Z.inj_succ, <- Z.add_1_r, (main_blocks_snoc _ _ d) by
      (lia || by rewrite Z.add_1_r, <- Nat2Z.inj_succ).
    exact (grown_step fork path b _ [d] unseen unseen' Hu).
Qed.

Lemma attach_then_until n h k path :
  fork_path s n h k path -> forall unseen fork,
  ('(fork, index) ← attach_above (E := E) s tip n h unseen fork;
   find_fork_until_latest_common s (gi_number index) (gi_hash index) (gi_unseen index) fork)
  = Ok (grown fork path (main_blocks s (Z.of_nat k + 1) (Z.min (Z.of_nat n) tip)) unseen).
Proof using Hok Hmain.
  induction 1 as [n h Hh|n h b k path Hne Hb Hnum Hext Hpath IH]; intros unseen fork.
  - pose proof (im_range _ _ Hmain _ _ Hh). rewrite Z.min_l by lia.
    assert (attach_above (E := E) s tip n h unseen fork = Ok (fork, mkIndex n h unseen)) as ->.
    { destruct n as [|n]; [done|]. cbn [attach_above]. by rewrite decide_False by lia. }
    rewrite bind_ret_l. apply until_spec; [by constructor|lia].
  - cbn [attach_above]. case_decide as Hcase.
    + pose proof (Hok _ _ Hb) as [<- _].
      destruct (see_ext_spec fork b unseen Hext) as (unseen' & -> & Hu).
      rewrite bind_ret_l. unfold get_block. rewrite Hb. cbn [expect]. rewrite bind_ret_l, IH.
      f_equal. replace (Z.min (Z.of_nat (S n)) tip) with (Z.min (Z.of_nat n) tip) by lia.
      rewrite <- (app_nil_r (main_blocks _ _ _)) at 2.
      rewrite <- (grown_step fork path b _ [] unseen unseen' Hu). by destruct fork.
    + rewrite bind_ret_l. rewrite Z.min_l by lia.
      apply until_spec; [by eapply fork_path_step|lia].
Qed.

Lemma detach_range_spec fork a :
  0 <= a <= tip + 1 ->
  detach_range (E := E) s fork a tip =
  Ok (mkFork (attached_blocks fork) (reverse (main_blocks s a tip) ++ detached_blocks fork)
        (dirty_exts fork)).
Proof using Hok Hmain.
  intros Ha. unfold detach_range, main_blocks, get_block_hash, get_block. remember (tip - a + 1) as m eqn:Hm.
  assert (forall i, i ∈ seqZ a m -> exists b, main_block s i = Some b /\
    sd_hash_of s !! i = Some (b_hash b) /\ sd_blocks s !! b_hash b = Some b) as Hall.
  { intros i Hi%elem_of_seqZ.
    destruct (main_block_Some s tip i Hmain ltac:(lia)) as (b & ? & ? & ? & _). eauto. }
  revert fork. generalize dependent (seqZ a m). clear Ha Hm. intros l.
  induction l as [|i l IH]; intros Hall fork; [by destruct fork|].
  destruct (Hall i) as (b & Hb & Hh & Hbl); [set_solver|].
  cbn [try_fold]. rewrite Hh. cbn [expect].
  rewrite bind_ret_l, Hbl. cbn [expect]. rewrite !bind_ret_l. rewrite IH by set_solver.
  simpl. rewrite Hb. by rewrite reverse_cons, <- app_assoc.
Qed.
End fork_lemmas.

Lemma find_fork_eq {E} s tip nb ext k path :
  blocks_ok s -> is_main s tip -> 0 < b_number nb ->
  fork_path s (Z.to_nat (b_number nb - 1)) (b_parent nb) k path ->
  find_fork (E := E) s tip nb ext = Ok (mkFork (path ++ [nb])
    (main_blocks s (Z.of_nat k + 1) (Z.min (b_number nb - 1) tip)
       ++ reverse (main_blocks s (b_number nb) tip))
    (reverse (unverified_top s true (reverse path)) ++ [ext])).
Proof.
  intros Hok Hm Hpos Hpath. unfold find_fork, alignment_fork. outcome_arith. simpl.
  case_decide as Hcase.
  - rewrite (detach_range_spec s tip Hok Hm) by lia.
    rewrite !bind_ret_l. rewrite (until_spec s tip Hok Hm _ _ _ _ Hpath) by lia.
    unfold grown. simpl. rewrite app_nil_r, Z2Nat.id, Z.min_l by lia. done.
  - rewrite (attach_then_until s tip Hok Hm _ _ _ _ Hpath).
    unfold grown. simpl. rewrite Z2Nat.id by lia.
    by rewrite (main_blocks_empty s (b_number nb)) by lia.
Qed.

(**  [find_fork] finds the latest common block.  On a consistent main chain
    up to [tip], for a new block whose parents lead to the main block [k], it
    returns the blocks between [k] and the new block in ascending order as
    attached, and the main chain blocks above [k] as detached: first those
    below the number of the new block in ascending order, then the rest in
    descending order.  The extra data collected are those of the blocks on top
    that were never verified, with that of the new block last. *)
Theorem find_fork_spec {E} s tip nb ext k path :
  blocks_ok s -> is_main s tip -> 0 < b_number nb ->
  fork_path s (Z.to_nat (b_number nb - 1)) (b_parent nb) k path ->
  find_fork (E := E) s tip nb ext = Ok (mkFork (path ++ [nb])
    (main_blocks s (Z.of_nat k + 1) (Z.min (b_number nb - 1) tip)
       ++ reverse (main_blocks s (b_number nb) tip))
    (reverse (unverified_top s true (reverse path)) ++ [ext])).
Proof. apply find_fork_eq. Qed.

(** ** The index after the reorganisation *)
Section index.
Context (blake2b_256 : Bytes -> H256).

Lemma detach_block_index b s :
  sd_blocks (detach_block b s) = sd_blocks s /\
  sd_hash_of (detach_block b s) = delete (b_number b) (sd_hash_of s) /\
  sd_number_of (detach_block b s) = delete (b_hash b) (sd_number_of s).
Proof. unfold detach_block. by destruct (fold_left detach_tx _ _). Qed.

Lemma attach_block_index b s :
  sd_blocks (attach_block blake2b_256 b s) = sd_blocks s /\
  sd_hash_of (attach_block blake2b_256 b s) = <[b_number b := b_hash b]> (sd_hash_of s) /\
  sd_number_of (attach_block blake2b_256 b s) = <[b_hash b := b_number b]> (sd_number_of s).
Proof. unfold attach_block. by destruct (fold_left (attach_tx _ _) _ _). Qed.

Lemma detach_blocks_index det s :
  let s' := fold_left (fun s b => detach_block b s) det s in
  sd_blocks s' = sd_blocks s /\
  (forall n, sd_hash_of s' !! n = if decide (n ∈ b_number <$> det) then None else sd_hash_of s !! n) /\
  (forall h, sd_number_of s' !! h = if decide (h ∈ b_hash <$> det) then None else sd_number_of s !! h).
Proof.
  revert s. induction det as [|b det IH]; intros s; cbn [fold_left].
  { split_and!; [done|..]; intros ?; by rewrite decide_False by set_solver. }
  destruct (IH (detach_block b s)) as (H1 & H2 & H3).
  destruct (detach_block_index b s) as (Hb & Hh & Hn).
  rewrite H1, Hb. split_and!; [done|..].
  - intros n. rewrite H2, Hh. destruct (decide (n = b_number b)) as [->|].
    + rewrite lookup_delete_eq, (decide_True (P := _ ∈ b_number <$> (b :: det))) by set_solver.
      by case_decide.
    + rewrite lookup_delete_ne by done. repeat case_decide; set_solver.
  - intros h. rewrite H3, Hn. destruct (decide (h = b_hash b)) as [->|].
    + rewrite lookup_delete_eq, (decide_True (P := _ ∈ b_hash <$> (b :: det))) by set_solver.
      by case_decide.
    + rewrite lookup_delete_ne by done. repeat case_decide; set_solver.
Qed.

Lemma elem_of_main_blocks s a b x :
  x ∈ main_blocks s a b <-> exists n, a <= n <= b /\ main_block s n = Some x.
Proof.
  unfold main_blocks. rewrite list_elem_of_omap. setoid_rewrite elem_of_seqZ.
  split; intros (n & ? & ?); exists n; (split; [lia|done]).
Qed.

(** Detaching the blocks above [k], in any order, leaves the chain up to [k]. *)
Lemma detach_main s tip k det :
  is_main s tip -> 0 <= k <= tip -> det ≡ₚ main_blocks s (k + 1) tip ->
  is_main (fold_left (fun s b => detach_block b s) det s) k /\
  forall n, 0 <= n <= k ->
    sd_hash_of (fold_left (fun s b => detach_block b s) det s) !! n = sd_hash_of s !! n.
Proof.
  intros Hm Hk Hdet.
  destruct (detach_blocks_index det s) as (Hb & Hh & Hn).
  assert (forall b, b ∈ det <-> exists n, k + 1 <= n <= tip /\ main_block s n = Some b) as Hin
    by (intros b; by rewrite Hdet, elem_of_main_blocks).
  assert (forall n, n ∈ (b_number <$> det) <-> k + 1 <= n <= tip) as Hnum.
  { intros n. rewrite list_elem_of_fmap. split.
    - intros (b & -> & (m & Hmr & Hmb)%Hin).
      destruct (main_block_Some s tip m Hm ltac:(lia)) as (b' & ? & _ & _ & ? & _). naive_solver lia.
    - intros Hr. destruct (main_block_Some s tip n Hm ltac:(lia)) as (b & ? & _ & _ & ? & _).
      exists b. split; [done|]. apply Hin. eauto. }
  assert (forall n, 0 <= n <= k -> n ∉ (b_number <$> det)) as Hlow by (intros n ?; rewrite Hnum; lia).
  split; [split|].
  - intros n h. rewrite Hh. case_decide as Hd; [done|]. intros Hx.
    pose proof (im_range _ _ Hm _ _ Hx). rewrite Hnum in Hd. lia.
  - intros n Hr. destruct (im_block _ _ Hm n ltac:(lia)) as (b & H1 & H2 & H3 & H4).
    exists b. rewrite Hb, !Hh. rewrite decide_False by (by apply Hlow). split_and!; [done..|].
    intros Hpos. rewrite decide_False by (apply Hlow; lia). auto.
  - intros h n. rewrite Hn, Hh.
    assert (sd_hash_of s !! n = Some h -> h ∈ (b_hash <$> det) <-> n ∈ (b_number <$> det)) as Hiff.
    { intros Hx. pose proof (im_range _ _ Hm _ _ Hx).
      destruct (main_block_Some s tip n Hm ltac:(lia)) as (b & Hb1 & Hb2 & _ & Hb4 & _).
      rewrite Hx in Hb2. injection Hb2 as ->. split.
      - intros (b' & Hbh & (m & Hmr & Hmb)%Hin)%list_elem_of_fmap. apply Hnum.
        destruct (main_block_Some s tip m Hm ltac:(lia)) as (b'' & ? & Hh'' & _ & _).
        assert (b'' = b') as -> by congruence. rewrite <- Hbh in Hh''.
        apply (im_inverse _ _ Hm) in Hh'', Hx. rewrite Hx in Hh''. injection Hh'' as ->. lia.
      - intros Hr%Hnum. apply list_elem_of_fmap. exists b. split; [done|]. apply Hin. eauto. }
    pose proof (im_inverse _ _ Hm h n) as Hinv. repeat case_decide; naive_solver.
  - intros n Hr. rewrite Hh. by rewrite decide_False by (by apply Hlow).
Qed.

(** Attaching a stored child of the last block extends the chain by it. *)
Lemma attach_main s tip b :
  blocks_ok s -> is_main s tip -> 0 <= tip -> sd_blocks s !! b_hash b = Some b ->
  b_number b = tip + 1 -> sd_hash_of s !! tip = Some (b_parent b) ->
  is_main (attach_block blake2b_256 b s) (tip + 1).
Proof.
  intros Hok Hm Ht Hb Hnum Hpar.
  destruct (attach_block_index b s) as (Hbl & Hh & Hn).
  assert (sd_number_of s !! b_hash b = None) as Hfresh.
  { destruct (sd_number_of s !! b_hash b) as [n|] eqn:Hx; [|done].
    apply (im_inverse _ _ Hm) in Hx. pose proof (im_range _ _ Hm _ _ Hx).
    destruct (main_block_Some s tip n Hm ltac:(lia)) as (b' & _ & Hh' & Hb' & Hn' & _).
    rewrite Hx in Hh'. injection Hh' as Hh'. rewrite <- Hh', Hb in Hb'. injection Hb' as <-. lia. }
  split.
  - intros n h. rewrite Hh, Hnum. intros [[<- <-]|[? Hx]]%lookup_insert_Some; [lia|].
    pose proof (im_range _ _ Hm _ _ Hx). lia.
  - intros n Hr. rewrite Hh, Hbl, Hnum. destruct (decide (n = tip + 1)) as [->|].
    + exists b. rewrite lookup_insert_eq, lookup_insert_ne by lia. split_and!; [done..|].
      intros _. by replace (tip + 1 - 1) with tip by lia.
    + destruct (im_block _ _ Hm n ltac:(lia)) as (b' & ? & ? & ? & ?). exists b'.
      rewrite !lookup_insert_ne by lia. done.
  - intros h n. rewrite Hh, Hn, Hnum, !lookup_insert_Some.
    pose proof (im_inverse _ _ Hm h n) as Hinv.
    split; (intros [[<- <-]|[Hne Hx]]; [by left|]; right).
    + apply Hinv in Hx. pose proof (im_range _ _ Hm _ _ Hx). split; [lia|done].
    + apply Hinv in Hx. split; [intros <-; congruence|done].
Qed.

(** Blocks that follow one another from a block with number [n] and hash [c]. *)
Fixpoint chain_from (n : Z) (c : H256) (l : list Block) : Prop :=
  match l with
  | [] => True
  | b :: l => b_number b = n + 1 /\ b_parent b = c /\ chain_from (n + 1) (b_hash b) l
  end.

Lemma chain_from_snoc n c l b :
  chain_from n c (l ++ [b]) <->
  chain_from n c l /\ b_number b = n + len l + 1 /\
  b_parent b = default c (b_hash <$> last l).
Proof.
  revert n c. induction l as [|a l IH]; intros n c; [simpl; rewrite len_nil; naive_solver lia|].
  cbn [chain_from app]. rewrite IH, last_cons, len_cons.
  destruct (last l); simpl; naive_solver lia.
Qed.

Lemma fork_path_chain s n h k path :
  fork_path s n h k path -> blocks_ok s ->
  exists c, sd_hash_of s !! Z.of_nat k = Some c /\ chain_from (Z.of_nat k) c path /\
    default c (b_hash <$> last path) = h /\ Z.of_nat k + len path = Z.of_nat n /\
    Forall (fun b => sd_blocks s !! b_hash b = Some b) path.
Proof.
  intros Hp Hok. induction Hp as [n h Hh|n h b k path Hne Hb Hnum Hext Hpath IH].
  { exists h. rewrite len_nil. split_and!; [done..|lia|constructor]. }
  destruct IH as (c & Hc & Hch & Hlast & Hlen & Hst). pose proof (Hok _ _ Hb) as [<- _].
  exists c. rewrite chain_from_snoc, last_snoc, len_app, len_cons, len_nil, Forall_app, Hlast.
  split_and!; [done|done|lia|done|done|lia|done|by apply Forall_singleton].
Qed.

Lemma attach_chain l s tip c :
  blocks_ok s -> is_main s tip -> 0 <= tip -> sd_hash_of s !! tip = Some c ->
  chain_from tip c l -> Forall (fun b => sd_blocks s !! b_hash b = Some b) l ->
  let s' := fold_left (fun s b => attach_block blake2b_256 b s) l s in
  is_main s' (tip + len l) /\ sd_blocks s' = sd_blocks s /\
  (forall n, n <= tip -> sd_hash_of s' !! n = sd_hash_of s !! n) /\
  (forall i b, l !! i = Some b -> main_block s' (tip + 1 + Z.of_nat i) = Some b).
Proof.
  revert s tip c. induction l as [|b l IH]; intros s tip c Hok Hm Ht Hc Hch Hst;
    cbn [fold_left].
  { rewrite len_nil, Z.add_0_r. done. }
  destruct Hch as (Hnum & Hpar & Hch). apply Forall_cons in Hst as [Hb Hst]. subst c.
  pose proof (attach_main s tip b Hok Hm Ht Hb Hnum Hc) as Hm'.
  destruct (attach_block_index b s) as (Hbl & Hh & _).
  destruct (IH (attach_block blake2b_256 b s) (tip + 1) (b_hash b)) as (H1 & H2 & H3 & H4).
  - intros h x. rewrite Hbl. apply Hok.
  - done.
  - lia.
  - by rewrite Hh, Hnum, lookup_insert_eq.
  - done.
  - by rewrite Hbl.
  - rewrite len_cons, Z.add_assoc. rewrite H2, Hbl. split_and!; [done|done|..].
    + intros n Hn. rewrite H3, Hh, Hnum, lookup_insert_ne by lia. done.
    + intros [|i] x Hx; simpl in Hx.
      * injection Hx as <-. unfold main_block. rewrite Z.add_0_r, H3, Hh, Hnum, lookup_insert_eq by lia.
        simpl. by rewrite H2, Hbl.
      * rewrite <- (H4 i x Hx). f_equal. lia.
Qed.

Lemma insert_block_main s tip nb :
  is_main s tip -> sd_blocks s !! b_hash nb = None \/ sd_blocks s !! b_hash nb = Some nb ->
  is_main (insert_block nb s) tip.
Proof.
  intros [H1 H2 H3] Hnb. split; [done| |done]. intros n Hn.
  destruct (H2 n Hn) as (b & Hh & Hb & ? & ?). exists b. simpl. split_and!; [done| |done..].
  destruct (decide (b_hash nb = b_hash b)) as [Heq|]; [|by rewrite lookup_insert_ne].
  rewrite Heq, lookup_insert_eq. rewrite Heq in Hnb. destruct Hnb; congruence.
Qed.

Lemma insert_block_blocks_ok s nb :
  blocks_ok s -> 0 <= b_number nb -> blocks_ok (insert_block nb s).
Proof.
  intros Hok Hn h b. simpl. intros [[<- <-]|[_ ?]]%lookup_insert_Some; [done|by apply Hok].
Qed.

Lemma main_block_insert s tip nb n :
  is_main s tip -> sd_blocks s !! b_hash nb = None \/ sd_blocks s !! b_hash nb = Some nb ->
  main_block (insert_block nb s) n = main_block s n.
Proof.
  intros Hm Hnb. unfold main_block. simpl. destruct (sd_hash_of s !! n) as [h|] eqn:Hh; [|done].
  simpl. destruct (decide (b_hash nb = h)) as [<-|]; [|by rewrite lookup_insert_ne].
  pose proof (im_range _ _ Hm _ _ Hh).
  destruct (im_block _ _ Hm n ltac:(lia)) as (b & Hh' & Hb & _). rewrite Hh in Hh'.
  injection Hh' as Hh'. rewrite lookup_insert_eq. rewrite <- Hh' in Hb. destruct Hnb; congruence.
Qed.
End index.

Lemma update_index_is_main blake2b_256 s tip nb k path det :
  blocks_ok s -> is_main s tip -> 0 < b_number nb ->
  (sd_blocks s !! b_hash nb = None \/ sd_blocks s !! b_hash nb = Some nb) ->
  fork_path s (Z.to_nat (b_number nb - 1)) (b_parent nb) k path ->
  det ≡ₚ main_blocks s (Z.of_nat k + 1) tip ->
  let s' := update_index blake2b_256 det (path ++ [nb]) (insert_block nb s) in
  is_main s' (b_number nb) /\
  (forall n, 0 <= n <= Z.of_nat k -> main_block s' n = main_block s n) /\
  (forall i b, (path ++ [nb]) !! i = Some b ->
     main_block s' (Z.of_nat k + 1 + Z.of_nat i) = Some b).
Proof.
  intros Hok Hm Hpos Hnb Hpath Hdet. unfold update_index.
  destruct (fork_path_chain s _ _ _ _ Hpath Hok) as (c & Hc & Hch & Hlast & Hlen & Hst).
  rewrite Z2Nat.id in Hlen by lia.
  pose proof (im_range _ _ Hm _ _ Hc) as Hk.
  set (s0 := insert_block nb s). set (s1 := fold_left (fun s b => detach_block b s) det s0).
  assert (det ≡ₚ main_blocks s0 (Z.of_nat k + 1) tip) as Hdet0.
  { rewrite Hdet. unfold main_blocks. apply reflexive_eq, list_omap_ext.
    apply Forall_Forall2_diag, Forall_true. intros n. symmetry. by apply (main_block_insert s tip). }
  destruct (detach_main s0 tip (Z.of_nat k) det
    (insert_block_main s tip nb Hm Hnb) ltac:(lia) Hdet0) as [Hm1 Hlow]. fold s1 in Hm1, Hlow.
  destruct (detach_blocks_index det s0) as (Hb1 & _ & _). fold s1 in Hb1.
  destruct (attach_chain blake2b_256 (path ++ [nb]) s1 (Z.of_nat k) c) as (H1 & H2 & H3 & H4).
  - intros h b. rewrite Hb1. by apply insert_block_blocks_ok; [|lia].
  - done.
  - lia.
  - rewrite Hlow by lia. done.
  - apply chain_from_snoc. split_and!; [done|lia|by rewrite Hlast].
  - rewrite Hb1. apply Forall_app. split; [|apply Forall_singleton; apply lookup_insert_eq].
    eapply Forall_impl; [exact Hst|]. intros b Hb. simpl.
    destruct (decide (b_hash nb = b_hash b)) as [Heq|]; [|by rewrite lookup_insert_ne].
    rewrite Heq, lookup_insert_eq. rewrite Heq in Hnb. destruct Hnb; congruence.
  - rewrite len_app, len_cons, len_nil in H1.
    replace (Z.of_nat k + (len path + (1 + 0))) with (b_number nb) in H1 by lia.
    split_and!; [done| |done]. intros n Hn. unfold main_block. rewrite H3, H2, Hb1, Hlow by lia.
    exact (main_block_insert s tip nb n Hm Hnb).
Qed.

(** A reorganisation replaces the main chain.  When the index describes
    one chain up to [tip] and the blocks [find_fork] found are detached and
    attached, the index describes one chain up to the new block: below the
    common block it is unchanged, and above it are the attached blocks in
    order. *)
Theorem update_index_main blake2b_256 s tip nb k path det :
  blocks_ok s -> is_main s tip -> 0 < b_number nb ->
  (sd_blocks s !! b_hash nb = None \/ sd_blocks s !! b_hash nb = Some nb) ->
  fork_path s (Z.to_nat (b_number nb - 1)) (b_parent nb) k path ->
  det ≡ₚ main_blocks s (Z.of_nat k + 1) tip ->
  let s' := update_index blake2b_256 det (path ++ [nb]) (insert_block nb s) in
  is_main s' (b_number nb) /\
  (forall n, 0 <= n <= Z.of_nat k -> main_block s' n = main_block s n) /\
  (forall i b, (path ++ [nb]) !! i = Some b ->
     main_block s' (Z.of_nat k + 1 + Z.of_nat i) = Some b).
Proof. apply update_index_is_main. Qed.

(** What [find_fork] detaches is the main chain above the common block. *)
Lemma detached_perm s k n tip :
  0 <= k -> k <= n - 1 -> k <= tip ->
  main_blocks s (k + 1) (Z.min (n - 1) tip) ++ reverse (main_blocks s n tip)
  ≡ₚ main_blocks s (k + 1) tip.
Proof.
  intros Hk Hn Ht. rewrite reverse_Permutation.
  destruct (decide (n <= tip)).
  - rewrite Z.min_l by lia. rewrite (main_blocks_app s (k + 1) (n - 1) tip) by lia.
    by replace (n - 1 + 1) with n by lia.
  - rewrite Z.min_r by lia. by rewrite (main_blocks_empty s n) by lia; rewrite app_nil_r.
Qed.

Module ForkExample.
Export StoreExample.
Lemma path : fork_path store 1 201 0 [fork1].
Proof.
  apply (fork_path_step store 0 201 fork1 0 []); try by_compute.
  constructor. by_compute.
Qed.
End ForkExample.

Lemma find_fork_spec_witness :
  find_fork (E := unit) StoreExample.store 2 StoreExample.fork2 (StoreExample.ext None) =
  Ok (mkFork [StoreExample.fork1; StoreExample.fork2] [StoreExample.main1; StoreExample.main2]
        [StoreExample.ext None; StoreExample.ext None]).
Proof.
  rewrite (find_fork_spec StoreExample.store 2 StoreExample.fork2 (StoreExample.ext None)
             0 [StoreExample.fork1]).
  - vm_compute. reflexivity.
  - exact StoreExample.store_blocks_ok.
  - exact StoreExample.store_main.
  - by_compute.
  - exact ForkExample.path.
Defined.

Lemma update_index_main_witness :
  let s' := update_index (fun _ => 0) [StoreExample.main2; StoreExample.main1]
    [StoreExample.fork1; StoreExample.fork2]
    (insert_block StoreExample.fork2 StoreExample.store) in
  is_main s' 2 /\
  (forall n, 0 <= n <= 0 -> main_block s' n = main_block StoreExample.store n) /\
  (forall i b, [StoreExample.fork1; StoreExample.fork2] !! i = Some b ->
     main_block s' (0 + 1 + Z.of_nat i) = Some b).
Proof.
  apply (update_index_main (fun _ => 0) StoreExample.store 2 StoreExample.fork2 0
           [StoreExample.fork1]).
  - exact StoreExample.store_blocks_ok.
  - exact StoreExample.store_main.
  - by_compute.
  - by_compute.
  - exact ForkExample.path.
  - vm_compute. constructor.
Defined.
