(* ===== verification/VerifyErrors.v ===== *)
(** * Verification errors

    The error types of [verification/src/error.rs] and of [script/src/lib.rs]. *)
From S2P Require Import Prelude Capacity.

(** The payload of [VMError] is an error of the virtual machine package, kept
    as a code. *)
Inductive ScriptError :=
| NoScript
| InvalidReferenceIndex
| ArgumentError
| ValidationFailure (code : Z)
| VMError (code : Z)
| ScriptExceededMaximumCycles
| InvalidIssuingDaoInput
| ScriptIOError
| InvalidDaoDepositHeader
| InvalidDaoWithdrawHeader
| ScriptCapacityOverflow
| InterestCalculation
| ScriptInvalidSince
| InvalidInterest
| InvalidPubkeyHash
| ScriptSecp
| ArgumentNumber
| NoWitness.

Inductive CommitError := CommitAncestorNotFound | CommitInvalid.

Inductive CellbaseError :=
| CellbaseInvalidInput
| InvalidRewardAmount
| InvalidRewardTarget
| CellbaseInvalidWitness
| InvalidTypeScript
| InvalidQuantity
| InvalidPosition.

Inductive UnclesError :=
| OverCount (max actual : Z)
| MissMatchCount (expected actual : Z)
| InvalidDepth (max min actual : Z)
| UnclesInvalidHash (expected actual : H256)
| UnclesInvalidNumber
| InvalidDifficulty
| InvalidDifficultyEpoch
| UnclesInvalidProof
| UnclesProposalsHash
| UnclesProposalDuplicate
| UnclesDuplicate (h : H256)
| DoubleInclusion (h : H256)
| InvalidCellbase
| UnclesExceededMaximumProposalsLimit.

Inductive PowError :=
| PowBoundary (expected actual : Z)
| PowInvalidProof.

Inductive TimestampError :=
| BlockTimeTooOld (min found : Z)
| BlockTimeTooNew (max found : Z).

Inductive EpochError :=
| DifficultyMismatch (expected actual : Z)
| NumberMismatch (expected actual : Z)
| EpochAncestorNotFound.

Inductive TransactionError :=
| TxCapacityOverflow
| InsufficientCellCapacity
| DuplicateDeps
| TxEmpty
| OutputsSumOverflow
| InvalidScript
| ScriptFailure (e : ScriptError)
| InvalidSignature
| TxVersion
| Immature
| InvalidSince
| CellbaseImmaturity
| TxExceededMaximumBlockBytes.

Inductive VerifyError :=
| ErrPow (e : PowError)
| ErrTimestamp (e : TimestampError)
| ErrNumber (expected actual : Z)
| ErrEpoch (e : EpochError)
| ErrTransactions (index : nat) (e : TransactionError)
| ErrChain (message : Bytes)
| ErrProposalTransactionDuplicate
| ErrCommitTransactionDuplicate
| ErrProposalTransactionsRoot
| ErrCommitTransactionsRoot
| ErrWitnessesMerkleRoot
| ErrUnknownParent (h : H256)
| ErrUncles (e : UnclesError)
| ErrCellbase (e : CellbaseError)
| ErrCommit (e : CommitError)
| ErrExceededMaximumCycles
| ErrExceededMaximumProposalsLimit
| ErrExceededMaximumBlockBytes
| ErrVersion
| ErrCapacityOverflow
| ErrCannotFetchBlockReward
| ErrFeeCalculation.

#[export] Instance ScriptError_eq_dec : EqDecision ScriptError.
Proof. solve_decision. Defined.
#[export] Instance CommitError_eq_dec : EqDecision CommitError.
Proof. solve_decision. Defined.
#[export] Instance CellbaseError_eq_dec : EqDecision CellbaseError.
Proof. solve_decision. Defined.
#[export] Instance UnclesError_eq_dec : EqDecision UnclesError.
Proof. solve_decision. Defined.
#[export] Instance PowError_eq_dec : EqDecision PowError.
Proof. solve_decision. Defined.
#[export] Instance TimestampError_eq_dec : EqDecision TimestampError.
Proof. solve_decision. Defined.
#[export] Instance EpochError_eq_dec : EqDecision EpochError.
Proof. solve_decision. Defined.
#[export] Instance TransactionError_eq_dec : EqDecision TransactionError.
Proof. solve_decision. Defined.
#[export] Instance VerifyError_eq_dec : EqDecision VerifyError.
Proof. solve_decision. Defined.

(** The conversions [From<occupied_capacity::Error>]. *)
Definition tx_capacity_error (e : CapacityError) : TransactionError :=
  match e with Overflow => TxCapacityOverflow end.
Definition capacity_error (e : CapacityError) : VerifyError :=
  match e with Overflow => ErrCapacityOverflow end.

Definition is_bad_tx (self : TransactionError) : bool :=
  match self with
  | TxCapacityOverflow | DuplicateDeps | TxEmpty | OutputsSumOverflow | InvalidScript
  | ScriptFailure _ | InvalidSignature | InvalidSince => true
  | _ => false
  end.
