(* ===== verification/ProposalTable.v ===== *)
(** * Proposals and commitments

    [shared/src/tx_proposal_table.rs], its initialisation by
    [ChainState::init_proposal_ids] ([shared/src/chain_state.rs]) and its update
    by a reorganisation ([chain/src/chain.rs]), and [CommitVerifier] of
    [verification/src/contextual_block_verifier.rs]: which transactions may be
    committed in the next block, once kept incrementally for the pool and the
    miner, and once read off the chain for the verification of a block. *)
From S2P Require Import Prelude Capacity ByteStrings Transactions Blocks Fixtures Epochs ChainStore Fork VerifyErrors.

Record TxProposalTable := mkTable {
  pt_table : gmap Z (gset Bytes);
  pt_gap : gset Bytes;
  pt_set : gset Bytes;
  pt_window : ProposalWindow
}.

#[export] Instance ProposalWindow_eq_dec : EqDecision ProposalWindow.
Proof. solve_decision. Defined.
#[export] Instance TxProposalTable_eq_dec : EqDecision TxProposalTable.
Proof. solve_decision. Defined.

Definition TxProposalTable_new (window : ProposalWindow) : TxProposalTable :=
  mkTable ∅ ∅ ∅ window.

Definition table_insert (self : TxProposalTable) (number : Z) (ids : gset Bytes)
    : TxProposalTable * bool :=
  (mkTable (<[number := ids]> (pt_table self)) (pt_gap self) (pt_set self) (pt_window self),
   bool_decide (pt_table self !! number = None)).

Definition table_remove (self : TxProposalTable) (number : Z) : TxProposalTable :=
  mkTable (delete number (pt_table self)) (pt_gap self) (pt_set self) (pt_window self).

Definition table_contains (self : TxProposalTable) (id : Bytes) : bool :=
  bool_decide (id ∈ pt_set self).
Definition table_contains_gap (self : TxProposalTable) (id : Bytes) : bool :=
  bool_decide (id ∈ pt_gap self).

(** [table.range(..)] flattened into a set of ids. *)
Definition range_ids (table : gmap Z (gset Bytes)) (p : Z -> bool) : gset Bytes :=
  ⋃ (snd <$> filter (fun kv => p kv.1 = true) (map_to_list table)).

Definition finalize {E} (self : TxProposalTable) (number : Z)
    : outcome E (TxProposalTable * gset Bytes) :=
  proposal_start ← saturating_sub number (farthest (pt_window self)) +64 1;
  proposal_end ← saturating_sub number (closest (pt_window self)) +64 1;
  let table := filter (fun kv => proposal_start <= kv.1) (pt_table self) in
  let new_ids := range_ids table (fun n => bool_decide (n <= proposal_end)) in
  let gap := range_ids table (fun n => bool_decide (proposal_end < n)) in
  let removed_ids := pt_set self ∖ new_ids in
  Ok (mkTable table gap new_ids (pt_window self), removed_ids).

(** [ChainState::init_proposal_ids] *)
Definition init_block_ids (s : StoreData) (hash : H256) : gset Bytes :=
  let ids_set : gset Bytes :=
    match get_block_proposal_txs_ids s hash with Some ids => list_to_set ids | None => ∅ end in
  match get_block_uncles s hash with
  | Some us => fold_left (fun acc u => acc ∪ list_to_set (uncle_proposals u)) us ids_set
  | None => ids_set
  end.

Definition init_proposal_ids {E} (s : StoreData) (window : ProposalWindow) (tip_number : Z)
    : outcome E TxProposalTable :=
  let proposal_start := saturating_sub tip_number (farthest window) in
  let proposal_ids := fold_left (fun t bn =>
      match get_block_hash s bn with
      | Some hash => (table_insert t bn (init_block_ids s hash)).1
      | None => t
      end) (seqZ proposal_start (tip_number - proposal_start + 1)) (TxProposalTable_new window) in
  r ← finalize proposal_ids tip_number;
  Ok r.1.

(** [ChainService::update_proposal_ids] *)
Definition update_proposal_ids (self : TxProposalTable) (detached attached : list Block)
    : TxProposalTable :=
  let self := fold_left (fun t b => table_remove t (b_number b)) detached self in
  fold_left (fun t b => (table_insert t (b_number b) (union_proposal_ids b)).1) attached self.

(** ** [CommitVerifier] *)
Fixpoint collect_proposals (s : StoreData) (proposal_end : nat) (proposal_start : Z)
    (block_hash : H256) (ids : gset Bytes) : outcome VerifyError (gset Bytes) :=
  if decide (proposal_start <= Z.of_nat proposal_end) then
    header ← ok_or (get_block_header s block_hash) (ErrCommit CommitAncestorNotFound);
    if h_is_genesis header then Ok ids
    else
      let ids : gset Bytes := match get_block_proposal_txs_ids s block_hash with
                 | Some l => ids ∪ list_to_set l
                 | None => ids
                 end in
      let ids : gset Bytes := match get_block_uncles s block_hash with
                 | Some us => fold_left (fun acc u => acc ∪ list_to_set (uncle_proposals u)) us ids
                 | None => ids
                 end in
      match proposal_end with
      | O => Panic
      | S n => collect_proposals s n proposal_start (h_parent_hash header) ids
      end
  else Ok ids.

Definition committed_ids (block : Block) : gset Bytes :=
  list_to_set (proposal_short_id <$> drop 1 (b_transactions block)).

Definition CommitVerifier_verify (s : StoreData) (window : ProposalWindow) (block : Block)
    : outcome VerifyError unit :=
  if h_is_genesis (b_header block) then Ok tt
  else
    let block_number := b_number block in
    let proposal_start := saturating_sub block_number (farthest window) in
    let proposal_end := saturating_sub block_number (closest window) in
    block_hash ← ok_or (h_hash <$> get_ancestor s (b_parent block) proposal_end)
                   (ErrCommit CommitAncestorNotFound);
    proposal_txs_ids ← collect_proposals s (Z.to_nat proposal_end) proposal_start block_hash ∅;
    ensure (bool_decide (committed_ids block ∖ proposal_txs_ids = ∅)) (ErrCommit CommitInvalid).

(** ** Lemmas *)
Lemma elem_of_range_ids table p id :
  id ∈ range_ids table p <-> exists n ids, table !! n = Some ids /\ p n = true /\ id ∈ ids.
Proof.
  unfold range_ids. rewrite elem_of_union_list. split.
  - intros (X & HX & Hid). apply list_elem_of_fmap in HX as ([n ids] & -> & Hin).
    apply list_elem_of_filter in Hin as [Hp Hin%elem_of_map_to_list]. eauto.
  - intros (n & ids & Hn & Hp & Hid). exists ids. split; [|done].
    apply list_elem_of_fmap. exists (n, ids). split; [done|].
    apply list_elem_of_filter. split; [done|]. by apply elem_of_map_to_list.
Qed.

Lemma finalize_Ok {E} self number r :
  finalize (E := E) self number = Ok r ->
  let start := saturating_sub number (farthest (pt_window self)) + 1 in
  let end_ := saturating_sub number (closest (pt_window self)) + 1 in
  pt_window r.1 = pt_window self /\
  (forall n, pt_table r.1 !! n = if decide (start <= n) then pt_table self !! n else None) /\
  (forall id, id ∈ pt_set r.1 <->
     exists n ids, start <= n <= end_ /\ pt_table self !! n = Some ids /\ id ∈ ids) /\
  (forall id, id ∈ pt_gap r.1 <->
     exists n ids, start <= n /\ end_ < n /\ pt_table self !! n = Some ids /\ id ∈ ids) /\
  r.2 = pt_set self ∖ pt_set r.1.
Proof.
  intros H. unfold finalize in H. outcome_inv. subst. simpl.
  assert (forall n ids, filter (fun kv : Z * gset Bytes =>
      saturating_sub number (farthest (pt_window self)) + 1 <= kv.1) (pt_table self) !! n = Some ids
    <-> pt_table self !! n = Some ids /\
        saturating_sub number (farthest (pt_window self)) + 1 <= n) as Hf
    by (intros; by rewrite map_lookup_filter_Some).
  split_and!; [done| | | |done].
  - intros n. apply option_eq. intros ids. rewrite Hf. case_decide; naive_solver.
  - intros id. rewrite elem_of_range_ids. setoid_rewrite Hf.
    setoid_rewrite bool_decide_eq_true. naive_solver.
  - intros id. rewrite elem_of_range_ids. setoid_rewrite Hf.
    setoid_rewrite bool_decide_eq_true. naive_solver.
Qed.

Lemma elem_of_init_block_ids s h b id :
  sd_blocks s !! h = Some b -> id ∈ init_block_ids s h <-> id ∈ union_proposal_ids b.
Proof.
  intros Hb. unfold init_block_ids, get_block_proposal_txs_ids, get_block_uncles. by rewrite Hb.
Qed.

Lemma collect_block_ids (b : Block) (ids : gset Bytes) id :
  id ∈ fold_left (fun acc u => acc ∪ list_to_set (uncle_proposals u)) (b_uncles b)
         (ids ∪ list_to_set (b_proposals b)) <->
  id ∈ ids \/ id ∈ union_proposal_ids b.
Proof.
  unfold union_proposal_ids. generalize (list_to_set (b_proposals b) : gset Bytes) as ps.
  revert ids. induction (b_uncles b) as [|u us IH]; intros ids ps; simpl; [set_solver|].
  rewrite <- (assoc_L (∪)). rewrite IH. done.
Qed.

(** The ids proposed by the main chain block with a number, and its uncles. *)
Definition main_ids (s : StoreData) (n : Z) : gset Bytes :=
  from_option union_proposal_ids ∅ (main_block s n).

Lemma collect_proposals_main s tip (n : nat) start h ids :
  is_main s tip -> 0 <= start -> Z.of_nat n <= tip ->
  sd_hash_of s !! Z.of_nat n = Some h ->
  exists r, collect_proposals s n start h ids = Ok r /\
    forall id, id ∈ r <-> id ∈ ids \/ exists i, Z.max 1 start <= i <= Z.of_nat n /\ id ∈ main_ids s i.
Proof.
  intros Hm Hs. revert h ids. induction n as [|n IH]; intros h ids Hn Hh;
    cbn [collect_proposals].
  - case_decide; [|exists ids; split; [done|]; intros; naive_solver lia].
    destruct (main_block_Some s tip 0 Hm ltac:(lia)) as (b & _ & Hbh & Hbl & Hbn & _).
    change (Z.of_nat 0) with 0 in Hh. rewrite Hbh in Hh. injection Hh as <-.
    unfold get_block_header. rewrite Hbl. cbn [fmap option_fmap option_map ok_or].
    rewrite bind_ret_l. unfold h_is_genesis. change (h_number (b_header b)) with (b_number b).
    rewrite bool_decide_eq_true_2 by done. exists ids. split; [done|]. intros; naive_solver lia.
  - case_decide; [|exists ids; split; [done|]; intros; naive_solver lia].
    destruct (main_block_Some s tip (Z.of_nat (S n)) Hm ltac:(lia))
      as (b & Hmb & Hbh & Hbl & Hbn & Hp).
    rewrite Hbh in Hh. injection Hh as <-. specialize (Hp ltac:(lia)).
    replace (Z.of_nat (S n) - 1) with (Z.of_nat n) in Hp by lia.
    unfold get_block_header, get_block_proposal_txs_ids, get_block_uncles. rewrite Hbl.
    cbn [fmap option_fmap option_map ok_or].
    rewrite bind_ret_l. unfold h_is_genesis. change (h_number (b_header b)) with (b_number b).
    rewrite bool_decide_eq_false_2 by lia.
    destruct (IH (b_parent b) (fold_left (fun acc u => acc ∪ list_to_set (uncle_proposals u))
      (b_uncles b) (ids ∪ list_to_set (b_proposals b))) ltac:(lia) Hp) as (r & Hr & Hin).
    exists r. split; [exact Hr|]. intros id. rewrite Hin, collect_block_ids.
    assert (id ∈ union_proposal_ids b <-> id ∈ main_ids s (Z.of_nat (S n))) as ->
      by (unfold main_ids; by rewrite Hmb).
    split.
    + intros [[?|?]|(i & ? & ?)]; [by left|right; exists (Z.of_nat (S n)); split; [lia|done]|].
      right. exists i. split; [lia|done].
    + intros [?|(i & Hi & Hid)]; [by left; left|].
      destruct (decide (i = Z.of_nat (S n))) as [->|]; [by left; right|].
      right. exists i. split; [lia|done].
Qed.

(** ** The table follows the main chain *)
Definition window_start (w : ProposalWindow) (tip : Z) : Z := saturating_sub tip (farthest w) + 1.
Definition window_end (w : ProposalWindow) (tip : Z) : Z := saturating_sub tip (closest w) + 1.

(** [table_tracks w s tip lo t]: the table holds the proposals of the main
    chain blocks [lo .. tip], the set those in the window of the next block and
    the gap the later ones. *)
Record table_tracks (w : ProposalWindow) (s : StoreData) (tip lo : Z) (t : TxProposalTable)
    : Prop := {
  tt_window : pt_window t = w;
  tt_table : forall n, pt_table t !! n =
    if decide (lo <= n <= tip) then Some (main_ids s n) else None;
  tt_set : forall id, id ∈ pt_set t <->
    exists n, lo <= n <= Z.min tip (window_end w tip) /\ id ∈ main_ids s n;
  tt_gap : forall id, id ∈ pt_gap t <->
    exists n, lo <= n <= tip /\ window_end w tip < n /\ id ∈ main_ids s n
}.

(** Finalizing a table that holds the blocks [lo .. tip]. *)
Lemma finalize_tracks {E} w s tip lo t :
  0 <= tip < U64_SIZE - 1 -> 0 <= farthest w -> 0 <= closest w -> pt_window t = w ->
  (forall n, pt_table t !! n = if decide (lo <= n <= tip) then Some (main_ids s n) else None) ->
  exists t', finalize (E := E) t tip = Ok (t', pt_set t ∖ pt_set t') /\
    table_tracks w s tip (Z.max lo (window_start w tip)) t'.
Proof.
  intros Ht Hf Hc Hw Htab.
  destruct (finalize (E := E) t tip) as [[t' rem]| |] eqn:Hfin.
  - apply finalize_Ok in Hfin as (H1 & H2 & H3 & H4 & H5). simpl in *. subst rem.
    exists t'. split; [done|]. unfold window_start, window_end. subst w. split; [done|..].
    + intros n. rewrite H2, Htab. repeat case_decide; done || lia.
    + intros id. rewrite H3. setoid_rewrite Htab. split.
      * intros (n & ids & Hn & Hd & Hid). case_decide; [|done]. injection Hd as <-.
        exists n. split; [unfold window_end; lia|done].
      * intros (n & Hn & Hid). unfold window_end in Hn. exists n, (main_ids s n).
        rewrite decide_True by lia. split_and!; done || lia.
    + intros id. rewrite H4. setoid_rewrite Htab. split.
      * intros (n & ids & Hn & Hn' & Hd & Hid). case_decide; [|done]. injection Hd as <-.
        exists n. unfold window_end. split_and!; [lia..|done].
      * intros (n & Hn & Hn' & Hid). unfold window_end in Hn'. exists n, (main_ids s n).
        rewrite decide_True by lia. split_and!; try done; unfold window_start in Hn; lia.
  - exfalso. revert Hfin. unfold finalize, saturating_sub. subst w. by outcome_arith.
  - exfalso. revert Hfin. unfold finalize, saturating_sub. subst w. by outcome_arith.
Qed.

Lemma remove_blocks_lookup det t n :
  let t' := fold_left (fun t b => table_remove t (b_number b)) det t in
  pt_window t' = pt_window t /\ pt_set t' = pt_set t /\
  pt_table t' !! n =
    if decide (n ∈ b_number <$> det) then None else pt_table t !! n.
Proof.
  revert t. induction det as [|b det IH]; intros t; csimpl; [done|].
  destruct (IH (table_remove t (b_number b))) as (-> & -> & ->). split_and!; [done..|].
  simpl. destruct (decide (n = b_number b)) as [->|Hne].
  - rewrite lookup_delete_eq. rewrite (decide_True (P := b_number b ∈ b_number b :: _)) by set_solver.
    by case_decide.
  - rewrite lookup_delete_ne by done. repeat case_decide; set_solver.
Qed.

Lemma insert_blocks_lookup att t n :
  NoDup (b_number <$> att) ->
  let t' := fold_left (fun t b => (table_insert t (b_number b) (union_proposal_ids b)).1) att t in
  pt_window t' = pt_window t /\ pt_set t' = pt_set t /\
  (forall b, b ∈ att -> b_number b = n -> pt_table t' !! n = Some (union_proposal_ids b)) /\
  (n ∉ b_number <$> att -> pt_table t' !! n = pt_table t !! n).
Proof.
  revert t. induction att as [|b att IH]; intros t.
  { intros _. split_and!; set_solver. }
  rewrite fmap_cons. cbn [fold_left].
  intros [Hni Hnd]%NoDup_cons. destruct (IH (table_insert t (b_number b) (union_proposal_ids b)).1 Hnd)
    as (-> & -> & H1 & H2). split_and!; [done..| |].
  - intros b' [->|Hin]%elem_of_cons Hn; [|by apply H1].
    subst n. rewrite H2 by done. apply lookup_insert_eq.
  - intros [Hne Hni']%not_elem_of_cons. rewrite H2 by done. by apply lookup_insert_ne.
Qed.

Lemma elem_of_main_numbers s tip a n :
  is_main s tip -> 0 <= a -> n ∈ b_number <$> main_blocks s a tip <-> a <= n <= tip.
Proof.
  intros Hm Ha. rewrite list_elem_of_fmap. split.
  - intros (b & -> & (m & Hr & Hb)%elem_of_main_blocks).
    destruct (main_block_Some s tip m Hm ltac:(lia)) as (b' & Hb' & _ & _ & Hn & _).
    rewrite Hb in Hb'. injection Hb' as <-. lia.
  - intros Hr. destruct (main_block_Some s tip n Hm ltac:(lia)) as (b & Hb & _ & _ & Hn & _).
    exists b. split; [done|]. apply elem_of_main_blocks. eauto.
Qed.

Lemma main_numbers_NoDup s tip a :
  is_main s tip -> 0 <= a -> NoDup (b_number <$> main_blocks s a tip).
Proof.
  intros Hm Ha. unfold main_blocks.
  assert (b_number <$> omap (main_block s) (seqZ a (tip - a + 1)) = seqZ a (tip - a + 1)) as ->;
    [|apply NoDup_seqZ].
  assert (Forall (fun n => 0 <= n <= tip) (seqZ a (tip - a + 1))) as H.
  { apply Forall_forall. intros n. rewrite elem_of_seqZ. lia. }
  induction H as [|n l Hn _ IH]; [done|]. csimpl.
  destruct (main_block_Some s tip n Hm Hn) as (b & -> & _ & _ & Hnum & _). csimpl. by rewrite Hnum, IH.
Qed.

(** The table after a reorganisation, also one below the first block it
    knows. *)
Lemma update_proposal_ids_from {E} w s tip s' tip' k lo t det att :
  is_main s tip -> is_main s' tip' -> 0 <= farthest w -> 0 <= closest w ->
  0 <= k <= tip -> k <= tip' < U64_SIZE - 1 -> 0 <= lo ->
  (forall n, 0 <= n <= k -> main_block s' n = main_block s n) ->
  det ≡ₚ main_blocks s (k + 1) tip -> att = main_blocks s' (k + 1) tip' ->
  table_tracks w s tip lo t ->
  exists t', finalize (E := E) (update_proposal_ids t det att) tip' = Ok (t', pt_set t ∖ pt_set t') /\
    table_tracks w s' tip' (Z.max (Z.min lo (k + 1)) (window_start w tip')) t'.
Proof.
  intros Hm Hm' Hf Hc Hk Ht Hlo0 Hlow Hdet Hatt [Hw Htab _ _].
  pose proof (main_numbers_NoDup s' tip' (k + 1) Hm' ltac:(lia)) as Hnd. rewrite <- Hatt in Hnd.
  assert (pt_set (update_proposal_ids t det att) = pt_set t) as <-.
  { unfold update_proposal_ids. destruct (insert_blocks_lookup att
      (fold_left (fun t b => table_remove t (b_number b)) det t) 0 Hnd) as (_ & -> & _).
    by destruct (remove_blocks_lookup det t 0) as (_ & -> & _). }
  apply finalize_tracks; [lia|done|done| |].
  { unfold update_proposal_ids. destruct (insert_blocks_lookup att
      (fold_left (fun t b => table_remove t (b_number b)) det t) 0 Hnd) as (-> & _).
    by destruct (remove_blocks_lookup det t 0) as (-> & _). }
  intros n. unfold update_proposal_ids. destruct (insert_blocks_lookup att
      (fold_left (fun t b => table_remove t (b_number b)) det t) n Hnd) as (_ & _ & H1 & H2).
  destruct (decide (k + 1 <= n <= tip')) as [Hin|Hout].
  - rewrite decide_True by lia.
    destruct (main_block_Some s' tip' n Hm' ltac:(lia)) as (b & Hb & _ & _ & Hn & _).
    unfold main_ids. rewrite Hb. apply H1; [|done]. subst att. apply elem_of_main_blocks. eauto.
  - rewrite H2 by (subst att; rewrite elem_of_main_numbers by (done || lia); lia).
    destruct (remove_blocks_lookup det t n) as (_ & _ & ->).
    assert (n ∈ b_number <$> det <-> k + 1 <= n <= tip) as Hd
      by (rewrite Hdet; apply elem_of_main_numbers; done || lia).
    rewrite Htab. unfold main_ids.
    destruct (decide (0 <= n <= k)) as [Hle|]; [rewrite (Hlow n Hle)|];
      repeat case_decide; try done; rewrite Hd in *; lia.
Qed.

(** C34.  The proposal table follows a reorganisation: removing the detached
    blocks, inserting the attached ones and finalizing at the new tip leaves in
    the table the proposals of the new main chain, in the set exactly those the
    next block may commit and in the gap those it may not yet, and returns the
    ids that left the set.  The first block the table knows only moves up, so
    that nothing is missing while tips do not get lower. *)
Theorem update_proposal_ids_tracks {E} w s tip s' tip' k lo t det att :
  is_main s tip -> is_main s' tip' -> 0 <= farthest w -> 0 <= closest w ->
  0 <= k <= tip -> k <= tip' < U64_SIZE - 1 -> lo <= k + 1 -> 0 <= lo ->
  (forall n, 0 <= n <= k -> main_block s' n = main_block s n) ->
  det ≡ₚ main_blocks s (k + 1) tip -> att = main_blocks s' (k + 1) tip' ->
  table_tracks w s tip lo t ->
  exists t', finalize (E := E) (update_proposal_ids t det att) tip' = Ok (t', pt_set t ∖ pt_set t') /\
    table_tracks w s' tip' (Z.max lo (window_start w tip')) t'.
Proof.
  intros Hm Hm' Hf Hc Hk Ht Hlo Hlo0 Hlow Hdet Hatt Htr. rewrite <- (Z.min_l lo (k + 1)) by done.
  by apply (update_proposal_ids_from w s tip s' tip' k lo t det att).
Qed.

Lemma init_fold s t0 ns n :
  NoDup ns ->
  let t := fold_left (fun t bn =>
      match get_block_hash s bn with
      | Some hash => (table_insert t bn (init_block_ids s hash)).1
      | None => t
      end) ns t0 in
  pt_window t = pt_window t0 /\
  pt_table t !! n =
    if decide (n ∈ ns)
    then match get_block_hash s n with
         | Some hash => Some (init_block_ids s hash)
         | None => pt_table t0 !! n
         end
    else pt_table t0 !! n.
Proof.
  revert t0. induction ns as [|m ns IH]; intros t0; [done|]. cbn [fold_left].
  intros [Hni Hnd]%NoDup_cons.
  destruct (IH (match get_block_hash s m with
      | Some hash => (table_insert t0 m (init_block_ids s hash)).1
      | None => t0 end) Hnd) as [-> ->].
  split; [by destruct (get_block_hash s m)|].
  destruct (decide (n = m)) as [->|Hne].
  - rewrite decide_False by done. rewrite decide_True by set_solver.
    destruct (get_block_hash s m); [apply lookup_insert_eq|done].
  - rewrite (decide_ext (n ∈ m :: ns) (n ∈ ns)) by set_solver.
    destruct (get_block_hash s m) as [h|]; [|done]. cbn [table_insert fst pt_table].
    by rewrite lookup_insert_ne.
Qed.

(** After a start the table is that of the stored main chain: it holds
    the proposals of every block the next block can refer to. *)
Theorem init_proposal_ids_tracks {E} w s tip :
  is_main s tip -> 0 <= tip < U64_SIZE - 1 -> 0 <= farthest w -> 0 <= closest w ->
  exists t, init_proposal_ids (E := E) s w tip = Ok t /\
    table_tracks w s tip (window_start w tip) t.
Proof.
  intros Hm Ht Hf Hc. unfold init_proposal_ids. set (start := saturating_sub tip (farthest w)).
  assert (0 <= start <= tip) by (unfold start, saturating_sub; lia).
  set (t0 := fold_left _ _ _).
  pose proof (fun n => init_fold s (TxProposalTable_new w) (seqZ start (tip - start + 1)) n
    (NoDup_seqZ _ _)) as Hinit. cbn zeta in Hinit. fold t0 in Hinit.
  destruct (finalize_tracks (E := E) w s tip start t0) as (t & Hfin & Htr); [done..| | |].
  - by destruct (Hinit 0) as [-> _].
  - intros n. destruct (Hinit n) as [_ ->].
    destruct (decide (start <= n <= tip)) as [Hn|Hn];
      [|by rewrite decide_False by (rewrite elem_of_seqZ; lia)].
    rewrite decide_True by (apply elem_of_seqZ; lia).
    destruct (main_block_Some s tip n Hm ltac:(lia)) as (b & Hb & Hh & Hbl & _).
    unfold get_block_hash, main_ids. rewrite Hh, Hb. f_equal. apply set_eq. intros id.
    by apply elem_of_init_block_ids.
  - exists t. rewrite Hfin, bind_ret_l. split; [done|].
    by replace (window_start w tip) with (Z.max start (window_start w tip))
      by (unfold window_start; lia).
Qed.

(** The pool and the verifier agree on what the next block may commit:
    for a block on top of the main chain, once the chain is as long as the
    closest distance, [CommitVerifier] accepts exactly the blocks whose
    transactions, the cellbase apart, are all in the set of the proposal
    table. *)
Theorem commit_window_agrees w s tip t block :
  is_main s tip -> table_tracks w s tip (window_start w tip) t ->
  0 <= farthest w -> 1 <= closest w <= tip ->
  b_number block = tip + 1 -> sd_hash_of s !! tip = Some (b_parent block) ->
  CommitVerifier_verify s w block =
    if decide (committed_ids block ⊆ pt_set t) then Ok tt else Err (ErrCommit CommitInvalid).
Proof.
  intros Hm Ht Hf Hc Hn Hp. unfold CommitVerifier_verify, h_is_genesis.
  change (h_number (b_header block)) with (b_number block).
  rewrite bool_decide_eq_false_2 by lia. rewrite Hn.
  destruct (main_block_Some s tip tip Hm ltac:(lia)) as (tb & Htb & Hth & _ & Htn & _).
  rewrite Hp in Hth. injection Hth as Hth. rewrite Hth.
  assert (saturating_sub (tip + 1) (closest w) = window_end w tip /\ 0 < window_end w tip <= tip)
    as [-> Hend] by (unfold window_end, saturating_sub; lia).
  rewrite (get_ancestor_main s tip) by (done || congruence || lia).
  destruct (main_block_Some s tip (window_end w tip) Hm ltac:(lia)) as (eb & Heb & Heh & _).
  rewrite Heb. cbn [fmap option_fmap option_map ok_or]. rewrite bind_ret_l.
  destruct (collect_proposals_main s tip (Z.to_nat (window_end w tip))
    (saturating_sub (tip + 1) (farthest w)) (b_hash eb) ∅ Hm)
    as (ids & Hids & Hin); [unfold saturating_sub; lia|lia|by rewrite Z2Nat.id by lia|].
  change (h_hash (b_header eb)) with (b_hash eb). rewrite Hids, bind_ret_l.
  assert (ids = pt_set t) as ->.
  { apply set_eq. intros id. rewrite Hin, (tt_set _ _ _ _ _ Ht), Z2Nat.id by lia.
    rewrite Z.min_r by lia. unfold window_start, saturating_sub. split.
    - intros [?|(i & ? & ?)]; [set_solver|]. exists i. split; [lia|done].
    - intros (i & ? & ?). right. exists i. split; [lia|done]. }
  unfold ensure. case_decide as Hsub.
  - by rewrite bool_decide_eq_true_2 by set_solver.
  - rewrite bool_decide_eq_false_2; [done|]. intros He. apply Hsub. intros id Hid.
    destruct (decide (id ∈ pt_set t)); [done|]. set_solver.
Qed.

(** ** Examples *)
Lemma table_tracks_check w s tip lo t :
  (0 <= tip < U64_SIZE - 1 /\ 0 <= farthest w /\ 0 <= closest w /\ pt_window t = w) /\
  map_Forall (fun n ids => lo <= n <= tip /\ ids = main_ids s n) (pt_table t) /\
  Forall (fun n => is_Some (pt_table t !! n)) (seqZ lo (tip - lo + 1)) /\
  finalize (E := unit) t tip = Ok (t, ∅) ->
  table_tracks w s tip (Z.max lo (window_start w tip)) t.
Proof.
  intros ((Ht & Hf & Hc & Hw) & Hall & Hsome & Hfin). rewrite Forall_forall in Hsome.
  destruct (finalize_tracks (E := unit) w s tip lo t) as (t' & Ht' & Htr); try done.
  - intros n. destruct (pt_table t !! n) as [ids|] eqn:Hn.
    + apply Hall in Hn as [? ->]. by rewrite decide_True.
    + rewrite decide_False; [done|]. intros Hr. destruct (Hsome n) as [? ?]; [|congruence].
      apply elem_of_seqZ. lia.
  - rewrite Hfin in Ht'. by injection Ht' as <- _.
Qed.

Module ProposalExample.
(** A transaction whose short id starts with the byte [n]. *)
Definition tx (n : Z) : Transaction := simple_tx (n * 2 ^ 248) [new_cell 10 0] 1.
Definition id (n : Z) : Bytes := proposal_short_id (tx n).
Definition blk (n parent hash : Z) (txs : list Transaction) (ids : list Z) : Block :=
  mkBlock (simple_header n parent hash) [] txs (id <$> ids).
Definition chain (n : Z) : list Block :=
  (fun i => blk i (99 + i) (100 + i) [] [200 + i]) <$> seqZ 0 (n + 1).
Definition store_of (l : list Block) : StoreData :=
  mkStore (list_to_map ((fun b => (b_hash b, b)) <$> l)) ∅
    (list_to_map ((fun b => (b_number b, b_hash b)) <$> l))
    (list_to_map ((fun b => (b_hash b, b_number b)) <$> l)) ∅ ∅ ∅ ∅ ∅ ∅ None None.
Definition w : ProposalWindow := mkWindow 2 3.
Definition table_of (s : StoreData) (w : ProposalWindow) (tip : Z) : TxProposalTable :=
  match init_proposal_ids (E := unit) s w tip with Ok t => t | _ => TxProposalTable_new w end.
Definition s6 : StoreData := store_of (chain 6).
Lemma s6_main : is_main s6 6.
Proof. apply is_main_check. by_compute. Qed.
Lemma s6_tracks : table_tracks w s6 6 4 (table_of s6 w 6).
Proof. apply (table_tracks_check w s6 6 4). by_compute. Qed.

(** A heavier branch of lower height. *)
Definition heavy5 : Block := blk 5 104 305 [] [55].
Definition s5 : StoreData := store_of (chain 4 ++ [heavy5]).
Lemma s5_main : is_main s5 5.
Proof. apply is_main_check. by_compute. Qed.
Definition commit (n parent : Z) (i : Z) : Block :=
  blk n parent 400 [simple_tx 1 [] 1; tx i] [].
End ProposalExample.
Import ProposalExample.

Lemma update_proposal_ids_tracks_witness :
  exists t', finalize (E := unit) (update_proposal_ids (table_of s6 w 6)
      (main_blocks s6 5 6) (main_blocks s5 5 5)) 5 =
      Ok (t', pt_set (table_of s6 w 6) ∖ pt_set t') /\
    table_tracks w s5 5 4 t'.
Proof.
  apply (update_proposal_ids_tracks w s6 6 s5 5 4 4 (table_of s6 w 6));
    [exact s6_main|exact s5_main|by_compute..| |done|done|exact s6_tracks].
  apply (range_check _ 0 4). by_compute.
Defined.

Lemma init_proposal_ids_tracks_witness :
  exists t, init_proposal_ids (E := unit) s6 w 6 = Ok t /\ table_tracks w s6 6 4 t.
Proof.
  apply (init_proposal_ids_tracks w s6 6); [exact s6_main|by_compute..].
Defined.

Lemma commit_window_agrees_witness :
  CommitVerifier_verify s6 w (commit 7 106 205) = Ok tt /\
  CommitVerifier_verify s6 w (commit 7 106 206) = Err (ErrCommit CommitInvalid).
Proof.
  split.
  - rewrite (commit_window_agrees w s6 6 (table_of s6 w 6) (commit 7 106 205));
      [by_compute|exact s6_main|exact s6_tracks|by_compute..].
  - rewrite (commit_window_agrees w s6 6 (table_of s6 w 6) (commit 7 106 206));
      [by_compute|exact s6_main|exact s6_tracks|by_compute..].
Defined.

(** The two disagree on the second block: with the window [(2, 10)] of
    the specification and a chain whose tip is block 1, the table already lists
    what block 1 proposes as ready to be committed, and the verifier rejects a
    block 2 that commits it. *)
Theorem second_block_divergence :
  exists s t block,
    is_main s 1 /\ init_proposal_ids (E := unit) s TX_PROPOSAL_WINDOW 1 = Ok t /\
    b_number block = 2 /\ sd_hash_of s !! 1 = Some (b_parent block) /\
    committed_ids block ⊆ pt_set t /\
    CommitVerifier_verify s TX_PROPOSAL_WINDOW block = Err (ErrCommit CommitInvalid).
Proof.
  exists (store_of (chain 1)), (table_of (store_of (chain 1)) TX_PROPOSAL_WINDOW 1), (commit 2 101 201).
  split; [apply is_main_check; by_compute|]. by_compute.
Qed.

(** A reorganisation to a heavier branch of lower height loses
    proposals: the table was cut for the higher tip, so that a transaction which
    the verifier accepts in the next block is not in the set, and is in the set
    of a table read from the same chain at a start. *)
Theorem lower_tip_loses_proposals :
  exists w s s' t t' block,
    is_main s 6 /\ is_main s' 5 /\
    (forall n, 0 <= n <= 4 -> main_block s' n = main_block s n) /\
    init_proposal_ids (E := unit) s w 6 = Ok t /\
    finalize (E := unit) (update_proposal_ids t (main_blocks s 5 6) (main_blocks s' 5 5)) 5
      = Ok (t', pt_set t ∖ pt_set t') /\
    b_number block = 6 /\ sd_hash_of s' !! 5 = Some (b_parent block) /\
    CommitVerifier_verify s' w block = Ok tt /\ ~ committed_ids block ⊆ pt_set t' /\
    committed_ids block ⊆ pt_set (table_of s' w 5).
Proof.
  pose (upd := update_proposal_ids (table_of s6 w 6) (main_blocks s6 5 6) (main_blocks s5 5 5)).
  exists w, s6, s5, (table_of s6 w 6),
    (match finalize (E := unit) upd 5 with Ok r => r.1 | _ => upd end), (commit 6 305 203).
  split; [exact s6_main|]. split; [exact s5_main|].
  split; [apply (range_check _ 0 4); by_compute|].
  unfold upd. by_compute.
Qed.
