(* ===== verification/Dao.v ===== *)
(** * The DAO

    The accumulated rate and capacity of [util/dao/src/lib.rs] and the fee of a
    transaction with withdrawals of [util/dao/utils/src/lib.rs].  The products
    are computed in 128 bits and cut to 64 bits at the end. *)
From S2P Require Import Prelude Capacity ByteStrings Transactions Blocks Fixtures CellSet Cells Epochs ChainStore.

Definition U128_SIZE : Z := 2 ^ 128.

Definition calculate_g2 (block_number : Z) (current_epoch_ext : EpochExt)
    (secondary_epoch_reward : Capacity) : outcome CapacityError Capacity :=
  let epoch_length := ep_length current_epoch_ext in
  g2 ← div_w secondary_epoch_reward epoch_length;
  if decide (ep_start_number current_epoch_ext = block_number) then
    r ← rem_w secondary_epoch_reward epoch_length; safe_add g2 r
  else Ok g2.

Definition calculate_dao_data (parent_block_number : Z) (parent_block_epoch_ext : EpochExt)
    (parent_dao_stats : DaoStats) (secondary_epoch_reward : Capacity)
    : outcome CapacityError (Z * Capacity) :=
  let parent_c := accumulated_capacity parent_dao_stats in
  parent_g2 ← calculate_g2 parent_block_number parent_block_epoch_ext secondary_epoch_reward;
  reward ← block_reward parent_block_epoch_ext parent_block_number;
  parent_g ← safe_add reward parent_g2;
  current_c ← safe_add parent_c parent_g;
  let parent_ar := accumulated_rate parent_dao_stats in
  s ← safe_add parent_c parent_g2;
  p ← mul_w U128_SIZE parent_ar s;
  current_ar ← div_w p (Z.max parent_c 1);
  Ok (cast U64_SIZE current_ar, current_c).

Definition calculate_maximum_withdraw (output : CellOutput) (deposit_dao_stats withdraw_dao_stats : DaoStats)
    : outcome CapacityError Capacity :=
  occupied_capacity ← CellOutput_occupied_capacity output;
  counted_capacity ← safe_sub (co_capacity output) occupied_capacity;
  p ← mul_w U128_SIZE counted_capacity (accumulated_rate withdraw_dao_stats);
  withdraw_counted_capacity ← div_w p (accumulated_rate deposit_dao_stats);
  safe_add (cast U64_SIZE withdraw_counted_capacity) occupied_capacity.

(** ** The fee of a transaction

    A [DataLoader] gives the output of a cell, where [None] is the panic of a
    missing cell, and the extra data of a block. *)
Record DataLoader := mkLoader {
  lazy_load_cell_output : CellMeta -> option CellOutput;
  loader_block_ext : H256 -> option BlockExt
}.

Definition DataLoaderWrapper (s : StoreData) : DataLoader := {|
  lazy_load_cell_output := fun cell =>
    match cm_cell_output cell with
    | Some output => Some output
    | None => get_cell_output s (cop_tx_hash (cm_out_point cell)) (cop_index (cm_out_point cell))
    end;
  loader_block_ext := get_block_ext s
|}.

Section fee.
Context (data_loader : DataLoader).

(** What an input adds to the capacity a transaction can spend; the absence of
    a value is [Err tt]. *)
Definition input_value (tx : Transaction) (i : nat) (input : CellInput) (resolved_input : ResolvedOutPoint)
    : outcome unit Capacity :=
  match ro_cell resolved_input with
  | IssuingDaoInput => Ok 0
  | ResolvedNull => Err tt
  | ResolvedMeta cell_meta =>
      output ← expect (lazy_load_cell_output data_loader cell_meta);
      if decide (script_code_hash (co_lock output) = DAO_CODE_HASH) then
        let deposit_ext := op_block_hash (ci_previous_output input) ≫= loader_block_ext data_loader in
        let withdraw_ext := witness ← tx_witnesses tx !! i; arg ← witness !! 2%nat;
                            block_hash ← h256_from_slice arg; loader_block_ext data_loader block_hash in
        match deposit_ext, withdraw_ext with
        | Some deposit_ext, Some withdraw_ext =>
            map_err (fun _ => tt)
              (calculate_maximum_withdraw output (dao_stats deposit_ext) (dao_stats withdraw_ext))
        | _, _ => Err tt
        end
      else Ok (co_capacity output)
  end.

Definition calculate_transaction_fee (rtx : ResolvedTransaction) : outcome unit Capacity :=
  let tx := rtx_transaction rtx in
  x ← try_fold (fun input_capacities '((i, input), resolved_input) =>
        c ← input_value tx i input resolved_input;
        map_err (fun _ => tt) (safe_add c input_capacities))
      0 (zip (enumerate (tx_inputs tx)) (rtx_inputs rtx));
  y ← map_err (fun _ => tt) (outputs_capacity tx);
  if decide (y < x) then map_err (fun _ => tt) (safe_sub x y) else Ok 0.
End fee.

(** ** The accumulated rate and capacity *)

(** One block: the statistics of the child of the block [number] of the epoch. *)
Definition dao_step (e : EpochExt) (secondary : Capacity) (number : Z) (st : DaoStats)
    : outcome CapacityError DaoStats :=
  '(ar, c) ← calculate_dao_data number e st secondary; Ok (mkDaoStats ar c).

Definition dao_run (e : EpochExt) (secondary : Capacity) (st : DaoStats) (from : Z) (n : nat)
    : outcome CapacityError DaoStats :=
  try_fold (fun st number => dao_step e secondary number st) st (Z.add from ∘ Z.of_nat <$> seq 0 n).

(** The rate is positive and at most the capacity. *)
Definition dao_ok (st : DaoStats) : Prop :=
  0 < accumulated_rate st <= accumulated_capacity st /\ accumulated_capacity st < U64_SIZE.

(** The rate grows, and no faster than the capacity. *)
Definition dao_le (a b : DaoStats) : Prop :=
  accumulated_rate a <= accumulated_rate b /\
  accumulated_rate b * accumulated_capacity a <= accumulated_rate a * accumulated_capacity b.

Definition epoch_ok (e : EpochExt) : Prop :=
  0 < ep_length e /\ 0 <= ep_remainder_reward e <= ep_length e /\ 0 <= ep_block_reward e /\
  ep_block_reward e + 1 < U64_SIZE /\
  0 <= ep_start_number e /\ ep_start_number e + ep_length e < U64_SIZE.

Lemma dao_le_refl a : dao_le a a.
Proof. unfold dao_le. lia. Qed.

Lemma dao_le_trans a b c : dao_ok a -> dao_ok b -> dao_ok c -> dao_le a b -> dao_le b c -> dao_le a c.
Proof.
  unfold dao_ok, dao_le. intros Ha Hb Hc [H1 H2] [H3 H4]. split; [lia|].
  apply (Z.mul_le_mono_pos_r _ _ (accumulated_capacity b)); [lia|].
  transitivity (accumulated_rate b * accumulated_capacity c * accumulated_capacity a); nia.
Qed.

Lemma calculate_g2_Ok number e secondary g2 :
  0 <= secondary -> 0 < ep_length e ->
  calculate_g2 number e secondary = Ok g2 ->
  g2 = secondary / ep_length e +
    (if decide (ep_start_number e = number) then secondary mod ep_length e else 0) /\ 0 <= g2.
Proof.
  intros Hs Hl H. unfold calculate_g2 in H. outcome_inv. subst.
  pose proof (Z.div_pos secondary (ep_length e)). pose proof (Z.mod_pos_bound secondary (ep_length e)).
  case_decide; outcome_inv; [apply safe_add_Ok in H as [-> ?]|]; lia.
Qed.

Lemma block_reward_Ok e number r :
  epoch_ok e -> ep_start_number e <= number -> block_reward e number = Ok r ->
  r = ep_block_reward e + (if decide (number < ep_start_number e + ep_remainder_reward e) then 1 else 0) /\
  0 <= r.
Proof.
  intros (? & ? & ? & ? & ? & ?) Hn. rewrite block_reward_in_epoch by lia.
  intros [= <-]. case_decide; lia.
Qed.

Lemma dao_step_Ok e secondary number st st' :
  epoch_ok e -> 0 <= secondary -> ep_start_number e <= number -> dao_ok st ->
  dao_step e secondary number st = Ok st' ->
  exists g2 reward, calculate_g2 number e secondary = Ok g2 /\ block_reward e number = Ok reward /\
    accumulated_capacity st' = accumulated_capacity st + reward + g2 /\
    accumulated_rate st' =
      accumulated_rate st * (accumulated_capacity st + g2) / accumulated_capacity st /\
    dao_ok st' /\ dao_le st st'.
Proof.
  intros He Hs Hn Hok H. unfold dao_step, calculate_dao_data in H. outcome_inv.
  match goal with Hg : calculate_g2 _ _ _ = Ok ?g, Hr : block_reward _ _ = Ok ?r |- _ =>
    exists g, r; rename g into g2; rename r into rw; pose proof (calculate_g2_Ok _ _ _ _ Hs (proj1 He) Hg) as [_ Hg0];
    pose proof (block_reward_Ok _ _ _ He Hn Hr) as [_ Hr0] end.
  repeat match goal with Ha : safe_add _ _ = Ok _ |- _ => apply safe_add_Ok in Ha as [-> ?] end.
  simplify_eq. destruct Hok as [[Ha Hac] Hc]. rewrite Z.max_l in * by lia.
  set (ar := accumulated_rate st) in *. set (c := accumulated_capacity st) in *.
  set (q := ar * (c + g2) / c).
  assert (q * c <= ar * (c + g2)) as Hq by (unfold q; rewrite Z.mul_comm; apply Z.mul_div_le; lia).
  assert (ar <= q) by (apply Z.div_le_lower_bound; nia).
  assert (q <= c + g2) by (apply Z.div_le_upper_bound; nia).
  unfold cast, dao_ok, dao_le. simpl. rewrite (Z.mod_small q) by lia. fold ar c.
  split_and!; done || nia.
Qed.

Lemma dao_run_S e secondary st from n :
  dao_run e secondary st from (S n) =
  st' ← dao_run e secondary st from n; dao_step e secondary (from + Z.of_nat n) st'.
Proof.
  unfold dao_run. rewrite seq_S, fmap_app, try_fold_app. simpl.
  destruct (try_fold _ _ _); simpl; [|done|done]. by destruct (dao_step _ _ _ _).
Qed.

(** The capacity issued by the first [n] blocks of an epoch. *)
Lemma dao_run_Ok e secondary st n st' :
  epoch_ok e -> 0 <= secondary -> dao_ok st ->
  dao_run e secondary st (ep_start_number e) n = Ok st' ->
  dao_ok st' /\ dao_le st st' /\
  accumulated_capacity st' = accumulated_capacity st
    + ep_block_reward e * Z.of_nat n + Z.min (ep_remainder_reward e) (Z.of_nat n)
    + secondary / ep_length e * Z.of_nat n
    + (if decide (n = 0%nat) then 0 else secondary mod ep_length e).
Proof.
  intros He Hs Hok. revert st'. induction n as [|n IH]; intros st'.
  { intros [= <-]. split_and!; [done|apply dao_le_refl|]. destruct He. simpl. lia. }
  rewrite dao_run_S. intros H. outcome_inv. destruct (IH _ H0) as (Hok1 & Hle1 & Hc1).
  apply dao_step_Ok in H as (g2 & rw & Hg2 & Hrw & Hc & _ & Hok' & Hle'); [|done|done|lia|done].
  split_and!; [done|by apply (dao_le_trans _ x)|].
  apply calculate_g2_Ok in Hg2 as [-> _]; [|done|apply He].
  apply block_reward_Ok in Hrw as [-> _]; [|done|lia].
  rewrite Hc, Hc1. destruct He as (? & ? & _). repeat case_decide; lia.
Qed.


(** ** Deposits and withdrawals *)

(** The statistics of a block and of one of its descendants, through epochs
    that change. *)
Inductive dao_reach (secondary : Capacity) : DaoStats -> DaoStats -> Prop :=
| dao_reach_refl st : dao_reach secondary st st
| dao_reach_step st st1 st2 e number :
    dao_reach secondary st st1 -> epoch_ok e -> ep_start_number e <= number ->
    dao_step e secondary number st1 = Ok st2 -> dao_reach secondary st st2.

Lemma dao_reach_le secondary st st' :
  0 <= secondary -> dao_ok st -> dao_reach secondary st st' -> dao_ok st' /\ dao_le st st'.
Proof.
  intros Hs Hok H. induction H as [|st st1 st2 e n _ IH He Hn Hst]; [split; [done|apply dao_le_refl]|].
  destruct (IH Hok) as [Hok1 Hle1].
  apply dao_step_Ok in Hst as (_ & _ & _ & _ & _ & _ & Hok2 & Hle2); [|done..].
  split; [done|by apply (dao_le_trans _ st1)].
Qed.

Lemma dao_run_reach e secondary st n st' :
  epoch_ok e -> dao_run e secondary st (ep_start_number e) n = Ok st' -> dao_reach secondary st st'.
Proof.
  intros He. revert st'. induction n as [|n IH]; intros st' H.
  - injection H as <-. constructor.
  - rewrite dao_run_S in H. outcome_inv. econstructor; eauto. lia.
Qed.

(** A deposit loses nothing and earns exactly its share.  Between a block
    and any descendant, whatever the epochs, [calculate_maximum_withdraw] does
    not panic and its 64 bit cast does not cut for a cell that is not larger
    than the capacity issued at the deposit: the counted part of the capacity
    grows by the quotient of the two rates, the occupied part is returned
    unchanged, and the result is at least the deposit and at most the capacity
    issued at the withdrawal plus the occupied part.  The only error is an
    occupied part larger than the capacity or a sum that does not fit. *)
Theorem withdraw_after_deposit secondary output occupied deposit withdraw :
  0 <= secondary -> dao_ok deposit -> dao_reach secondary deposit withdraw ->
  CellOutput_occupied_capacity output = Ok occupied -> 0 <= occupied <= co_capacity output ->
  co_capacity output <= accumulated_capacity deposit ->
  let counted := co_capacity output - occupied in
  let gain := counted * accumulated_rate withdraw / accumulated_rate deposit in
  counted <= gain <= accumulated_capacity withdraw /\
  calculate_maximum_withdraw output deposit withdraw =
    if decide (gain + occupied < U64_SIZE) then Ok (gain + occupied) else Err Overflow.
Proof.
  intros Hs Hok Hreach Hocc Ho Hcap counted gain.
  destruct (dao_reach_le _ _ _ Hs Hok Hreach) as [Hok' [Hle1 Hle2]].
  destruct Hok as [[Ha1 Ha2] Ha3], Hok' as [[Hb1 Hb2] Hb3].
  assert (counted <= gain) as Hlow by (apply Z.div_le_lower_bound; nia).
  assert (gain <= accumulated_capacity withdraw) as Hup
    by (apply Z.div_le_upper_bound; unfold counted; nia).
  split; [done|]. unfold calculate_maximum_withdraw. rewrite Hocc, bind_ret_l.
  unfold safe_sub, checked_sub. rewrite decide_True by lia. cbn [ok_or]. rewrite bind_ret_l.
  fold counted. rewrite mul_w_eq by (unfold U128_SIZE, counted; nia).
  rewrite bind_ret_l, div_w_eq, bind_ret_l by lia. fold gain.
  unfold cast. rewrite Z.mod_small by (unfold counted in *; lia).
  unfold safe_add, checked_add. by case_decide.
Qed.

Lemma input_values_fold dl tx ins acc x :
  acc < U64_SIZE ->
  try_fold (fun input_capacities '((i, input), resolved_input) =>
      c ← input_value dl tx i input resolved_input;
      map_err (fun _ => tt) (safe_add c input_capacities)) acc ins = Ok x <->
  exists values,
    Forall2 (fun '((i, input), r) v => input_value dl tx i input r = Ok v) ins values /\
    (forall k, acc + sum_z (take k values) < U64_SIZE) /\
    x = acc + sum_z values.
Proof.
  revert acc. induction ins as [|[[i input] r] ins IH]; intros acc Hacc; cbn [try_fold].
  - split.
    + intros [= <-]. exists []. split_and!; [done|intros [|k]; simpl; lia|simpl; lia].
    + intros (values & Hv & _ & ->). apply Forall2_nil_inv_l in Hv as ->. simpl. f_equal. lia.
  - rewrite bind_Ok. split.
    + intros (acc' & Hadd & H). outcome_inv. apply safe_add_Ok in Hadd as [-> Hlt].
      apply IH in H as (values & Hv & Hfit & ->); [|lia]. exists (x0 :: values).
      split_and!; [by constructor| |simpl; lia].
      intros [|k]; simpl; [lia|]. specialize (Hfit k). lia.
    + intros (values & Hv & Hfit & ->). inversion Hv as [|? v ? vs Hx Hvs]; subst. rewrite Hx.
      assert (v + acc < U64_SIZE) as Hlt by (specialize (Hfit 1%nat); destruct vs; simpl in Hfit; lia).
      exists (v + acc). rewrite bind_ret_l. split.
      * unfold safe_add, checked_add. by rewrite decide_True by lia.
      * apply IH; [lia|]. exists vs. split_and!; [done| |simpl; lia].
        intros k. specialize (Hfit (S k)). simpl in Hfit. lia.
Qed.

(** The fee of a transaction is what its inputs are worth beyond its
    outputs: every input has a value, a withdrawal with its interest, and the
    fee is the difference of the sums, or nothing when the outputs are larger.
    When an input has no value, or a sum does not fit into 64 bits, there is no
    fee. *)
Theorem calculate_transaction_fee_iff dl rtx fee :
  Forall (fun o => 0 <= co_capacity o) (tx_outputs (rtx_transaction rtx)) ->
  calculate_transaction_fee dl rtx = Ok fee <->
  exists values,
    Forall2 (fun '((i, input), r) v => input_value dl (rtx_transaction rtx) i input r = Ok v)
      (zip (enumerate (tx_inputs (rtx_transaction rtx))) (rtx_inputs rtx)) values /\
    (forall k, sum_z (take k values) < U64_SIZE) /\
    sum_z (co_capacity <$> tx_outputs (rtx_transaction rtx)) < U64_SIZE /\
    fee = Z.max 0 (sum_z values - sum_z (co_capacity <$> tx_outputs (rtx_transaction rtx))).
Proof.
  intros Hout. unfold calculate_transaction_fee, outputs_capacity.
  set (tx := rtx_transaction rtx). set (ins := zip _ _).
  rewrite safe_sum_spec by (by apply Forall_fmap).
  rewrite bind_Ok. setoid_rewrite (fun x => input_values_fold dl tx ins 0 x ltac:(lia)). split.
  - intros (x & (values & Hv & Hfit & ->) & H).
    destruct (decide (sum_z (co_capacity <$> tx_outputs tx) < U64_SIZE)); [|done].
    exists values. rewrite Z.add_0_l in H. split_and!; [done|exact Hfit|done|].
    cbn [map_err] in H. rewrite bind_ret_l in H. case_decide; [|by injection H as <-; lia].
    outcome_inv. apply safe_sub_Ok in H as [-> _]. lia.
  - intros (values & Hv & Hfit & Ho & ->). exists (0 + sum_z values). split; [eauto|].
    rewrite Z.add_0_l. rewrite decide_True by done. cbn [map_err]. rewrite bind_ret_l.
    case_decide; [|f_equal; lia].
    unfold safe_sub, checked_sub. rewrite decide_True by lia. simpl. f_equal. lia.
Qed.

(** ** Examples *)
Module DaoExample.
Definition epoch : EpochExt := mkEpochExt 3 100000000000 3 77 1000 4 1.
Definition start : DaoStats := mkDaoStats DEFAULT_ACCUMULATED_RATE 500000000000000000.
Definition secondary : Capacity := 60000000000002.
Definition finish : DaoStats :=
  match dao_run epoch secondary start 1000 4 with Ok st => st | _ => start end.
Lemma start_ok : dao_ok start.
Proof. split; by_compute. Qed.
Lemma example_epoch_ok : epoch_ok epoch.
Proof. repeat split; by_compute. Qed.
Definition deposit : CellOutput := mkCellOutput 100000000000000 [1; 2] simple_script None.
Definition rtx : ResolvedTransaction :=
  mkResolvedTx (simple_tx 5 [new_cell 10 0] 1)
    [cell_only (mkCellMeta (Some (simple_output 10000001000)) (mkCellOutPoint 10 0) None false 10000001000 None)] [].
End DaoExample.


Lemma withdraw_after_deposit_witness :
  calculate_maximum_withdraw DaoExample.deposit DaoExample.start DaoExample.finish
    = Ok 100011999492400.
Proof.
  rewrite (proj2 (withdraw_after_deposit DaoExample.secondary DaoExample.deposit 4200000000
    DaoExample.start DaoExample.finish ltac:(by_compute) DaoExample.start_ok
    (dao_run_reach DaoExample.epoch DaoExample.secondary DaoExample.start 4 DaoExample.finish
       DaoExample.example_epoch_ok ltac:(by_compute))
    ltac:(by_compute) ltac:(by_compute) ltac:(by_compute))).
  by_compute.
Defined.

Lemma calculate_transaction_fee_iff_witness :
  calculate_transaction_fee (DataLoaderWrapper StoreExample.store) DaoExample.rtx = Ok 1000.
Proof.
  apply (calculate_transaction_fee_iff (DataLoaderWrapper StoreExample.store) DaoExample.rtx 1000).
  - by_compute.
  - exists [10000001000]. split_and!; [|intros [|[|k]]; vm_compute; reflexivity|by_compute..].
    repeat constructor.
Defined.
