(* ===== verification/Reward.v ===== *)
(** * Block rewards

    [util/reward-calculator/src/lib.rs]: what the cellbase of a block pays to
    the block it finalizes.  A block gets its base reward, the miner's part of
    the fees of the transactions it commits, and the proposer's part of the
    fees of the transactions it was the first to propose. *)
From S2P Require Import Prelude Sums Capacity ByteStrings Transactions Blocks Fixtures CellSet Cells Epochs ChainStore Fork ProposalTable.

Inductive RewardError :=
| RewardTarget (number : Z)
| RewardScript (h : H256)
| RewardCapacity (e : CapacityError).

#[export] Instance RewardError_eq_dec : EqDecision RewardError.
Proof. solve_decision. Defined.

Definition shared_next_epoch_ext {E} (c : Consensus) (s : StoreData) (last_epoch : EpochExt) (header : Header)
    : outcome E (option EpochExt) :=
  next_epoch_ext c (get_block_header s) (fun hash => total_uncles_count <$> get_block_ext s hash)
    last_epoch header.

Section reward.
Context (c : Consensus) (s : StoreData).

Definition get_proposal_ids_by_hash (hash : H256) : gset Bytes :=
  let ids_set : gset Bytes :=
    match get_block_proposal_txs_ids s hash with Some ids => list_to_set ids | None => ∅ end in
  match get_block_uncles s hash with
  | Some us => fold_left (fun acc u => acc ∪ list_to_set (uncle_proposals u)) us ids_set
  | None => ids_set
  end.

(** The transactions a block commits, by short id, with their fees. *)
Definition fee_entries {E} (hash : H256) : outcome E (list (Bytes * Capacity)) :=
  hashes ← expect (get_block_txs_hashes s hash);
  ext ← expect (get_block_ext s hash);
  Ok (zip (from_tx_hash <$> drop 1 hashes) (txs_fees ext)).

Definition pay_miner (acc tx_fee : Capacity) : outcome CapacityError Capacity :=
  proposer ← safe_mul_ratio tx_fee (proposer_reward_ratio c);
  miner ← safe_sub tx_fee proposer;
  safe_add acc miner.

Definition reward_txs_fees (target : Header) : outcome RewardError Capacity :=
  target_ext ← expect (get_block_ext s (h_hash target));
  map_err RewardCapacity (try_fold pay_miner 0 (txs_fees target_ext)).

(** The body of both loops of [proposal_reward]; in the first one nothing is
    proposed earlier. *)
Definition pay_proposer (proposed : gset Bytes) (st : gset Bytes * Capacity) (entry : Bytes * Capacity)
    : outcome CapacityError (gset Bytes * Capacity) :=
  let '(target_proposals, reward) := st in
  let '(id, tx_fee) := entry in
  if decide (id ∈ target_proposals) then
    let target_proposals := target_proposals ∖ {[id]} in
    if decide (id ∈ proposed) then Ok (target_proposals, reward)
    else
      part ← safe_mul_ratio tx_fee (proposer_reward_ratio c);
      reward ← safe_add reward part;
      Ok (target_proposals, reward)
  else Ok (target_proposals, reward).

(** [while index.number() > competing_commit_start], with the number of
    iterations left. *)
Fixpoint competing_loop (fuel : nat) (competing_commit_start : Z) (index : Header)
    (target_proposals proposed : gset Bytes) (reward : Capacity) : outcome RewardError Capacity :=
  if decide (competing_commit_start < h_number index) then
    match fuel with
    | O => Panic
    | S fuel =>
        index ← expect (get_block_header s (h_parent_hash index));
        let competing_proposal_start :=
          Z.max (saturating_sub (h_number index) (farthest (tx_proposal_window c))) 1 in
        previous_ids ← expect (get_proposal_ids_by_hash <$> get_block_hash s competing_proposal_start);
        let proposed := proposed ∪ previous_ids in
        entries ← fee_entries (h_hash index);
        '(target_proposals, reward) ← map_err RewardCapacity
          (try_fold (pay_proposer proposed) (target_proposals, reward) entries);
        competing_loop fuel competing_commit_start index target_proposals proposed reward
    end
  else Ok reward.

Definition proposal_reward (parent target : Header) : outcome RewardError Capacity :=
  let target_proposals := get_proposal_ids_by_hash (h_hash target) in
  let proposal_window := tx_proposal_window c in
  block_number ← h_number parent +64 1;
  length ← window_length proposal_window;
  first ← 1 +64 closest proposal_window;
  let competing_commit_start := Z.max (saturating_sub block_number length) first in
  entries ← fee_entries (h_hash parent);
  '(target_proposals, reward) ← map_err RewardCapacity
    (try_fold (pay_proposer ∅) (target_proposals, 0) entries);
  competing_loop (Z.to_nat (h_number parent)) competing_commit_start parent target_proposals ∅ reward.

Definition base_block_reward (target : Header) : outcome RewardError Capacity :=
  let target_parent_hash := h_parent_hash target in
  target_parent_epoch ← expect (get_block_epoch s target_parent_hash);
  target_parent ← expect (get_block_header s target_parent_hash);
  next ← shared_next_epoch_ext c s target_parent_epoch target_parent;
  map_err RewardCapacity (block_reward (default target_parent_epoch next) (h_number target)).

Definition finalize_block_reward (parent : Header) : outcome RewardError (Script * Capacity) :=
  block_number ← h_number parent +64 1;
  number ← finalize_target c block_number;
  target_number ← ok_or number (RewardTarget block_number);
  target ← ok_or (get_ancestor s (h_hash parent) target_number) (RewardTarget block_number);
  cellbase ← expect (get_cellbase s (h_hash target));
  witness ← expect (tx_witnesses cellbase !! 0%nat);
  target_lock ← ok_or (from_witness witness) (RewardScript (h_hash target));
  txs_fees ← reward_txs_fees target;
  proposal_reward ← proposal_reward parent target;
  base_block_reward ← base_block_reward target;
  reward ← map_err RewardCapacity (safe_add txs_fees proposal_reward);
  reward ← map_err RewardCapacity (safe_add reward base_block_reward);
  Ok (target_lock, reward).
End reward.

(** ** What the rewards should be *)
Definition part (ratio : Ratio) (fee : Capacity) : Capacity := fee * numer ratio / denom ratio.

(** The transactions committed by a block of the main chain. *)
Definition commits (s : StoreData) (n : Z) : list (Bytes * Capacity) :=
  match main_block s n with
  | Some b => zip (proposal_short_id <$> drop 1 (b_transactions b))
                (from_option txs_fees [] (get_block_ext s (b_hash b)))
  | None => []
  end.

(** The ids proposed before block [t] by the blocks that can propose for block
    [n]. *)
Definition earlier_ids (s : StoreData) (w : ProposalWindow) (t n : Z) : gset Bytes :=
  ⋃ (main_ids s <$> seqZ (Z.max (n - farthest w) 1) (t - Z.max (n - farthest w) 1)).

Definition paid (ratio : Ratio) (ids proposed : gset Bytes) (entries : list (Bytes * Capacity)) : Capacity :=
  sum_of (fun e => if decide (e.1 ∈ ids /\ (e.1 ∉ proposed)) then part ratio e.2 else 0) entries.

(** What block [t] gets for the transactions block [n] commits. *)
Definition proposer_part (c : Consensus) (s : StoreData) (t n : Z) : Capacity :=
  paid (proposer_reward_ratio c) (main_ids s t) (earlier_ids s (tx_proposal_window c) t n) (commits s n).

Definition miner_part (c : Consensus) (s : StoreData) (n : Z) : Capacity :=
  sum_of (fun e => e.2 - part (proposer_reward_ratio c) e.2) (commits s n).

(** The main chain has its extra data, with one fee a transaction; the fees of
    the blocks [a .. b] are such that no sum overflows, and a short id is
    committed once. *)
Record fees_ok (c : Consensus) (s : StoreData) (a b : Z) : Prop := {
  fo_ext : forall n blk, a <= n <= b -> main_block s n = Some blk ->
    exists ext, get_block_ext s (b_hash blk) = Some ext /\
      length (txs_fees ext) = length (drop 1 (b_transactions blk));
  fo_fee : forall n e, a <= n <= b -> e ∈ commits s n ->
    0 <= e.2 /\ e.2 * numer (proposer_reward_ratio c) < U64_SIZE;
  fo_sum : range_sum (fun n => sum_of snd (commits s n)) a b < U64_SIZE;
  fo_nodup : forall n, a <= n <= b -> NoDup (commits s n).*1;
  fo_disjoint : forall n n' id, a <= n < n' -> n' <= b ->
    id ∈ (commits s n).*1 -> id ∈ (commits s n').*1 -> False
}.

Definition ratio_ok (r : Ratio) : Prop := 0 <= numer r <= denom r /\ 0 < denom r.

Lemma part_bounds r fee : ratio_ok r -> 0 <= fee -> 0 <= part r fee <= fee.
Proof.
  intros [Hn Hd] Hf. unfold part. split; [apply Z.div_pos; nia|apply Z.div_le_upper_bound; nia].
Qed.

Lemma safe_mul_part r fee :
  ratio_ok r -> fee * numer r < U64_SIZE -> safe_mul_ratio fee r = Ok (part r fee).
Proof. intros [_ Hd] Hm. apply safe_mul_ratio_Ok. split_and!; [done|done|lia]. Qed.

Lemma paid_bounds r ids proposed entries :
  ratio_ok r -> (forall e, e ∈ entries -> 0 <= e.2) ->
  0 <= paid r ids proposed entries <= sum_of snd entries.
Proof.
  intros Hr He. unfold paid. split; [apply sum_of_nonneg|apply sum_of_le];
    intros e Hin; pose proof (part_bounds r e.2 Hr (He e Hin)); case_decide; lia.
Qed.

Lemma pay_proposer_fold c proposed entries ids reward :
  ratio_ok (proposer_reward_ratio c) -> NoDup entries.*1 ->
  (forall e, e ∈ entries -> 0 <= e.2 /\ e.2 * numer (proposer_reward_ratio c) < U64_SIZE) ->
  reward + sum_of snd entries < U64_SIZE ->
  try_fold (pay_proposer c proposed) (ids, reward) entries =
  Ok (ids ∖ list_to_set entries.*1, reward + paid (proposer_reward_ratio c) ids proposed entries).
Proof.
  intros Hr. revert ids reward. induction entries as [|[id fee] entries IH]; intros ids reward Hnd He Hsum.
  { cbn [try_fold]. unfold paid, sum_of. simpl. f_equal. f_equal; [set_solver|lia]. }
  rewrite fmap_cons in Hnd |- *. apply NoDup_cons in Hnd as [Hid Hnd]. cbn [fst] in *.
  rewrite sum_of_cons in Hsum. simpl in Hsum.
  pose proof (He (id, fee) ltac:(set_solver)) as [Hfee Hmul]. simpl in Hfee, Hmul.
  assert (forall e, e ∈ entries -> 0 <= e.2 /\ e.2 * numer (proposer_reward_ratio c) < U64_SIZE) as He'
    by (intros; apply He; set_solver).
  assert (0 <= sum_of snd entries) by (apply sum_of_nonneg; intros e ?; by apply He').
  pose proof (part_bounds _ fee Hr Hfee) as Hpart.
  assert (paid (proposer_reward_ratio c) (ids ∖ {[id]}) proposed entries =
    paid (proposer_reward_ratio c) ids proposed entries) as Hd.
  { apply sum_of_ext. intros e Hin.
    assert (e.1 ≠ id) by (intros <-; apply Hid; by apply list_elem_of_fmap_2).
    repeat case_decide; set_solver. }
  cbn [try_fold pay_proposer]. unfold paid. rewrite sum_of_cons. cbn [fst snd]. fold (paid (proposer_reward_ratio c) ids proposed entries).
  case_decide as Hin; [case_decide as Hp|]; rewrite ?bind_ret_l.
  - rewrite (IH _ _ Hnd He') by lia. rewrite decide_False by naive_solver. rewrite Hd.
    do 2 f_equal; first [lia|set_solver].
  - rewrite (safe_mul_part _ fee Hr Hmul), bind_ret_l.
    rewrite (proj2 (safe_add_Ok reward _ _)) by (split; [done|lia]). rewrite !bind_ret_l.
    rewrite (IH _ _ Hnd He') by lia. rewrite decide_True by done. rewrite Hd.
    do 2 f_equal; first [lia|set_solver].
  - rewrite (IH _ _ Hnd He') by lia. rewrite decide_False by naive_solver.
    do 2 f_equal; first [lia|set_solver].
Qed.

Lemma fee_entries_main {E} c s a b n blk :
  fees_ok c s a b -> a <= n <= b -> main_block s n = Some blk -> sd_blocks s !! b_hash blk = Some blk ->
  fee_entries (E := E) s (b_hash blk) = Ok (commits s n).
Proof.
  intros Hf Hn Hm Hb. destruct (fo_ext _ _ _ _ Hf n blk Hn Hm) as (ext & Hext & _).
  unfold fee_entries, commits, get_block_txs_hashes, get_block_body. rewrite Hb, Hm, Hext. simpl.
  do 2 f_equal. rewrite <- !fmap_drop. by rewrite <- list_fmap_compose.
Qed.

Lemma get_proposal_ids_main s tip n blk :
  is_main s tip -> main_block s n = Some blk -> sd_blocks s !! b_hash blk = Some blk ->
  get_proposal_ids_by_hash s (b_hash blk) = main_ids s n.
Proof.
  intros Hm Hn Hb. unfold get_proposal_ids_by_hash, get_block_proposal_txs_ids, get_block_uncles, main_ids.
  by rewrite Hb, Hn.
Qed.

Lemma elem_of_earlier_ids s w t n id :
  id ∈ earlier_ids s w t n <->
  exists h, Z.max (n - farthest w) 1 <= h < t /\ id ∈ main_ids s h.
Proof.
  unfold earlier_ids. rewrite elem_of_union_list. split.
  - intros (X & HX & Hid). apply list_elem_of_fmap in HX as (h & -> & Hh%elem_of_seqZ).
    exists h. split; [lia|done].
  - intros (h & Hh & Hid). exists (main_ids s h). split; [|done].
    apply list_elem_of_fmap_2, elem_of_seqZ. lia.
Qed.

(** One more block back adds the proposals of the first block of its window. *)
Lemma earlier_ids_step s w t n :
  2 <= t -> n - 1 - farthest w < t ->
  earlier_ids s w t n ∪ main_ids s (Z.max (saturating_sub (n - 1) (farthest w)) 1)
  = earlier_ids s w t (n - 1).
Proof.
  intros Ht Hn. apply set_eq. intros id. rewrite elem_of_union, !elem_of_earlier_ids.
  unfold saturating_sub. set (m := n - 1 - farthest w) in *.
  replace (Z.max (Z.max 0 m) 1) with (Z.max m 1) by lia.
  replace (n - farthest w) with (m + 1) by lia. split.
  - intros [(h & ? & ?)|?]; [exists h; split; [lia|done]|]. exists (Z.max m 1). split; [lia|done].
  - intros (h & Hh & Hid). destruct (decide (h = Z.max m 1)) as [->|]; [by right|].
    left. exists h. split; [lia|done].
Qed.

(** Ids committed later are not counted again. *)
Lemma paid_after_removal (c : Consensus) (s : StoreData) (a b t n : Z) (removed proposed : gset Bytes) :
  fees_ok c s a b -> a <= n <= b ->
  (forall id, id ∈ removed -> exists n', n < n' <= b /\ id ∈ (commits s n').*1) ->
  paid (proposer_reward_ratio c) (main_ids s t ∖ removed) proposed (commits s n) =
  paid (proposer_reward_ratio c) (main_ids s t) proposed (commits s n).
Proof.
  intros Hf Hn Hrem. apply sum_of_ext. intros e He.
  assert (e.1 ∉ removed).
  { intros (n' & Hn' & Hin)%Hrem. apply (fo_disjoint _ _ _ _ Hf n n' e.1); [lia|lia| |done].
    by apply list_elem_of_fmap_2. }
  repeat case_decide; set_solver.
Qed.

Section loop.
Context (c : Consensus) (s : StoreData) (tip start t p : Z).
Context (Hm : is_main s tip) (Hr : ratio_ok (proposer_reward_ratio c)).
Context (Hf : fees_ok c s start p) (Hp : p <= tip) (Hstart : 1 <= start).
Context (Ht : 2 <= t) (Hfar : 0 <= farthest (tx_proposal_window c)) (Hwin : p <= t + farthest (tx_proposal_window c)).

Lemma entries_fit n reward :
  start <= n <= p -> 0 <= reward <= range_sum (fun n => sum_of snd (commits s n)) (n + 1) p ->
  reward + sum_of snd (commits s n) < U64_SIZE.
Proof using Hf.
  intros Hn Hrew. pose proof (fo_sum _ _ _ _ Hf) as Hs.
  assert (forall x, start <= x <= p -> 0 <= sum_of snd (commits s x)).
  { intros x Hx. apply sum_of_nonneg. intros e He. by apply (fo_fee _ _ _ _ Hf x). }
  pose proof (range_sum_sub (fun n => sum_of snd (commits s n)) start n p p ltac:(lia) ltac:(lia) H).
  rewrite (range_sum_first _ n p) in H0 by lia. lia.
Qed.

Lemma competing_loop_main k : forall fuel n blk (removed : gset Bytes) proposed reward,
  n - start = Z.of_nat k -> (k <= fuel)%nat -> start <= n <= p -> main_block s n = Some blk ->
  (forall id, id ∈ removed -> exists n', n <= n' <= p /\ id ∈ (commits s n').*1) ->
  proposed = earlier_ids s (tx_proposal_window c) t n ->
  0 <= reward <= range_sum (fun n => sum_of snd (commits s n)) n p ->
  competing_loop c s fuel start (b_header blk) (main_ids s t ∖ removed) proposed reward =
  Ok (reward + range_sum (proposer_part c s t) start (n - 1)).
Proof.
  induction k as [|k IH]; intros fuel n blk removed proposed reward Hk Hfuel Hn Hblk Hrem Hprop Hrew;
    destruct (main_block_Some s tip n Hm ltac:(lia)) as (blk' & Hblk' & _ & _ & Hnum & Hpar);
    rewrite Hblk in Hblk'; injection Hblk' as <-.
  - destruct fuel; cbn [competing_loop]; change (h_number (b_header blk)) with (b_number blk);
      rewrite decide_False by lia; rewrite range_sum_empty by lia; f_equal; lia.
  - destruct fuel as [|fuel]; [lia|]. cbn [competing_loop].
    change (h_number (b_header blk)) with (b_number blk). rewrite decide_True by lia.
    specialize (Hpar ltac:(lia)).
    destruct (main_block_Some s tip (n - 1) Hm ltac:(lia)) as (pb & Hpb & Hph & Hpl & Hpn & _).
    rewrite Hpar in Hph. injection Hph as Hph.
    change (h_parent_hash (b_header blk)) with (b_parent blk). unfold get_block_header. rewrite Hph, Hpl.
    cbn [fmap option_fmap option_map expect]. rewrite bind_ret_l.
    change (h_number (b_header pb)) with (b_number pb). rewrite Hpn.
    set (ps := Z.max (saturating_sub (n - 1) (farthest (tx_proposal_window c))) 1).
    assert (1 <= ps <= n - 1) as Hps by (unfold ps, saturating_sub; lia).
    destruct (main_block_Some s tip ps Hm ltac:(lia)) as (sb & Hsb & Hsh & Hsl & _).
    unfold get_block_hash. rewrite Hsh. cbn [fmap option_fmap option_map expect]. rewrite bind_ret_l.
    rewrite (get_proposal_ids_main s tip ps) by done.
    change (h_hash (b_header pb)) with (b_hash pb).
    rewrite (fee_entries_main c s start p (n - 1)) by (done || lia). rewrite bind_ret_l.
    subst proposed. unfold ps. rewrite earlier_ids_step by lia.
    rewrite pay_proposer_fold;
      [|done|by apply (fo_nodup _ _ _ _ Hf); lia|intros e He; apply (fo_fee _ _ _ _ Hf (n - 1)); [lia|done]
       |apply entries_fit; [lia|by replace (n - 1 + 1) with n by lia]].
    cbn [map_err]. rewrite bind_ret_l.
    rewrite (paid_after_removal c s start p);
      [|done|lia|intros id (n' & ? & ?)%Hrem; exists n'; split; [lia|done]].
    fold (proposer_part c s t (n - 1)). rewrite difference_difference_l_L.
    rewrite (IH fuel (n - 1) pb); [|lia|lia|lia|done| |done|].
    + rewrite (range_sum_last _ start (n - 1)) by lia. f_equal. lia.
    + intros id [(n' & ? & ?)%Hrem|Hin%elem_of_list_to_set]%elem_of_union;
        [exists n'|exists (n - 1)]; (split; [lia|done]).
    + rewrite (range_sum_first _ (n - 1) p) by lia. replace (n - 1 + 1) with n by lia.
      pose proof (paid_bounds _ (main_ids s t) (earlier_ids s (tx_proposal_window c) t (n - 1))
        (commits s (n - 1)) Hr ltac:(intros e He; by apply (fo_fee _ _ _ _ Hf (n - 1)); [lia|])) as Hpd.
      unfold proposer_part. lia.
Qed.
End loop.

Definition window_ok (w : ProposalWindow) : Prop := 1 <= closest w <= farthest w.

Lemma fees_ok_sub c s a b a' b' : fees_ok c s a b -> a <= a' -> b' <= b -> fees_ok c s a' b'.
Proof.
  intros [H1 H2 H3 H4 H5] Ha Hb. split; intros.
  - apply (H1 n); [lia|done].
  - apply (H2 n); [lia|done].
  - apply (Z.le_lt_trans _ (range_sum (fun n => sum_of snd (commits s n)) a b)); [|done].
    apply range_sum_sub; [lia|lia|]. intros x Hx. apply sum_of_nonneg. intros e He. by apply (H2 x).
  - apply H4; lia.
  - apply (H5 n n' id); (lia || done).
Qed.

Lemma main_header s tip n b :
  is_main s tip -> main_block s n = Some b -> sd_blocks s !! b_hash b = Some b /\ b_number b = n /\ 0 <= n <= tip.
Proof.
  intros Hm Hb. assert (0 <= n <= tip) as Hn.
  { unfold main_block in Hb. destruct (sd_hash_of s !! n) eqn:Hh; [|done]. by apply (im_range _ _ Hm _ _ Hh). }
  destruct (main_block_Some s tip n Hm Hn) as (b' & Hb' & _ & Hl & Hnum & _).
  rewrite Hb in Hb'. injection Hb' as <-. done.
Qed.

Lemma proposal_reward_main c s tip t pb tb :
  is_main s tip -> window_ok (tx_proposal_window c) -> ratio_ok (proposer_reward_ratio c) ->
  2 <= t -> t + farthest (tx_proposal_window c) < U64_SIZE - 1 ->
  main_block s (t + farthest (tx_proposal_window c)) = Some pb -> main_block s t = Some tb ->
  fees_ok c s (t + closest (tx_proposal_window c)) (t + farthest (tx_proposal_window c)) ->
  proposal_reward c s (b_header pb) (b_header tb) =
  Ok (range_sum (proposer_part c s t) (t + closest (tx_proposal_window c))
        (t + farthest (tx_proposal_window c))).
Proof.
  intros Hm [Hc Hcf] Hr Ht Hbig Hpb Htb Hf. set (w := tx_proposal_window c) in *.
  destruct (main_header _ _ _ _ Hm Hpb) as (Hpl & Hpn & Hpr).
  destruct (main_header _ _ _ _ Hm Htb) as (Htl & Htn & _).
  unfold proposal_reward, window_length. change (h_number (b_header pb)) with (b_number pb).
  change (h_hash (b_header pb)) with (b_hash pb). change (h_hash (b_header tb)) with (b_hash tb).
  fold w. rewrite Hpn. outcome_arith.
  assert (Z.max (saturating_sub (t + farthest w + 1) (farthest w - closest w + 1)) (1 + closest w)
    = t + closest w) as -> by (unfold saturating_sub; lia).
  rewrite (fee_entries_main c s (t + closest w) (t + farthest w) (t + farthest w)) by (done || lia).
  rewrite bind_ret_l, (get_proposal_ids_main s tip t) by done.
  rewrite pay_proposer_fold; [|done|apply (fo_nodup _ _ _ _ Hf); lia
    |intros e He; apply (fo_fee _ _ _ _ Hf (t + farthest w)); [lia|done]
    |apply (entries_fit c s (t + closest w) (t + farthest w) Hf); [lia|rewrite range_sum_empty by lia; lia]].
  cbn [map_err]. rewrite bind_ret_l.
  assert (earlier_ids s w t (t + farthest w) = ∅) as Hempty.
  { apply elem_of_equiv_empty_L. intros id. rewrite elem_of_earlier_ids. intros (h & ? & _). lia. }
  rewrite (competing_loop_main c s tip (t + closest w) t (t + farthest w) Hm Hr Hf ltac:(lia) ltac:(lia) Ht
    ltac:(fold w; lia) ltac:(fold w; lia) (Z.to_nat (farthest w - closest w)) _ (t + farthest w)).
  - rewrite (range_sum_last _ (t + closest w) (t + farthest w)) by lia.
    unfold proposer_part at 3. fold w. rewrite Hempty. f_equal. lia.
  - lia.
  - lia.
  - lia.
  - done.
  - intros id Hid%elem_of_list_to_set. exists (t + farthest w). split; [lia|done].
  - fold w. by rewrite Hempty.
  - rewrite range_sum_one. rewrite Z.add_0_l. apply paid_bounds; [done|].
    intros e He. by apply (fo_fee _ _ _ _ Hf (t + farthest w)); [lia|].
Qed.

Lemma pay_miner_fold c fees acc :
  ratio_ok (proposer_reward_ratio c) ->
  (forall f, f ∈ fees -> 0 <= f /\ f * numer (proposer_reward_ratio c) < U64_SIZE) ->
  acc + sum_z fees < U64_SIZE ->
  try_fold (pay_miner c) acc fees =
  Ok (acc + sum_of (fun f => f - part (proposer_reward_ratio c) f) fees).
Proof.
  intros Hr. revert acc. induction fees as [|f fees IH]; intros acc Hfees Hsum;
    cbn [try_fold]; [unfold sum_of; simpl; f_equal; lia|].
  destruct (Hfees f (list_elem_of_here _ _)) as [Hf Hmul].
  pose proof (part_bounds _ f Hr Hf). unfold sum_z in Hsum. cbn [foldr] in Hsum. fold (sum_z fees) in Hsum.
  assert (0 <= sum_z fees) by (apply sum_z_nonneg, Forall_forall; intros x Hx; apply Hfees; set_solver).
  assert (pay_miner c acc f = Ok (acc + (f - part (proposer_reward_ratio c) f))) as ->.
  { unfold pay_miner. rewrite (safe_mul_part _ f Hr Hmul), bind_ret_l.
    rewrite (proj2 (safe_sub_Ok f _ _)) by (split; [done|lia]). rewrite bind_ret_l.
    apply safe_add_Ok. split; [done|lia]. }
  rewrite bind_ret_l.
  rewrite IH by (try lia; intros; apply Hfees; set_solver). rewrite sum_of_cons. f_equal. lia.
Qed.

Lemma commits_fees c s a b n blk ext :
  fees_ok c s a b -> a <= n <= b -> main_block s n = Some blk -> get_block_ext s (b_hash blk) = Some ext ->
  (commits s n).*2 = txs_fees ext.
Proof.
  intros Hf Hn Hb Hext. destruct (fo_ext _ _ _ _ Hf n blk Hn Hb) as (ext' & Hext' & Hlen).
  rewrite Hext in Hext'. injection Hext' as <-. unfold commits. rewrite Hb, Hext. simpl.
  apply snd_zip. rewrite length_fmap. lia.
Qed.

Lemma reward_txs_fees_main c s tip t tb :
  is_main s tip -> ratio_ok (proposer_reward_ratio c) -> main_block s t = Some tb -> fees_ok c s t t ->
  reward_txs_fees c s (b_header tb) = Ok (miner_part c s t).
Proof.
  intros Hm Hr Htb Hf. destruct (fo_ext _ _ _ _ Hf t tb ltac:(lia) Htb) as (ext & Hext & _).
  pose proof (commits_fees c s t t t tb ext Hf ltac:(lia) Htb Hext) as Hfees.
  unfold reward_txs_fees. change (h_hash (b_header tb)) with (b_hash tb). rewrite Hext.
  cbn [expect]. rewrite bind_ret_l. rewrite <- Hfees, pay_miner_fold; [|done|..].
  - cbn [map_err]. unfold miner_part, sum_of. by rewrite <- list_fmap_compose.
  - intros f Hin. apply list_elem_of_fmap in Hin as (e & -> & He). by apply (fo_fee _ _ _ _ Hf t); [lia|].
  - pose proof (fo_sum _ _ _ _ Hf) as Hs. by rewrite range_sum_one in Hs.
Qed.

(** The reward of a block.  On a main chain whose fees fit, the cellbase
    of the block after [parent] owes the block [t], one more than the farthest
    distance below it, exactly its base reward, the miner's part of the fees it
    commits, and the proposer's part of the fees of the transactions that are
    committed in the window of [t] and were proposed by [t] and by no earlier
    block of the committing block's window; it is paid to the lock in the
    witness of the cellbase of [t]. *)
Theorem finalize_block_reward_spec c s tip t pb tb cellbase witness lock base :
  is_main s tip -> window_ok (tx_proposal_window c) -> ratio_ok (proposer_reward_ratio c) ->
  2 <= t -> t + farthest (tx_proposal_window c) < U64_SIZE - 1 ->
  main_block s (t + farthest (tx_proposal_window c)) = Some pb -> main_block s t = Some tb ->
  fees_ok c s t (t + farthest (tx_proposal_window c)) ->
  head (b_transactions tb) = Some cellbase -> tx_witnesses cellbase !! 0%nat = Some witness ->
  from_witness witness = Some lock -> base_block_reward c s (b_header tb) = Ok base ->
  let reward := miner_part c s t + range_sum (proposer_part c s t)
      (t + closest (tx_proposal_window c)) (t + farthest (tx_proposal_window c)) + base in
  0 <= base -> reward < U64_SIZE ->
  finalize_block_reward c s (b_header pb) = Ok (lock, reward).
Proof.
  intros Hm Hw Hr Ht Hbig Hpb Htb Hf Hcb Hwit Hlock Hbase reward Hb0 Hfit.
  destruct (main_header _ _ _ _ Hm Hpb) as (Hpl & Hpn & Hpr).
  destruct (main_header _ _ _ _ Hm Htb) as (Htl & Htn & _).
  unfold finalize_block_reward, finalize_target, finalization_delay_length.
  change (h_number (b_header pb)) with (b_number pb). rewrite Hpn.
  destruct Hw as [Hc1 Hcf]. outcome_arith. unfold checked_sub. rewrite decide_True by lia.
  cbn [mbind option_bind].
  replace (t + farthest (tx_proposal_window c) + 1 - (farthest (tx_proposal_window c) + 1)) with t by lia.
  rewrite decide_False by lia. cbn [ok_or]. rewrite !bind_ret_l.
  change (h_hash (b_header pb)) with (b_hash pb).
  rewrite (get_ancestor_main s tip pb) by (rewrite ?Hpn; done || lia). rewrite Htb. cbn [fmap option_fmap option_map ok_or].
  rewrite bind_ret_l. change (h_hash (b_header tb)) with (b_hash tb). unfold get_cellbase.
  rewrite Htl. cbn [mbind option_bind]. rewrite Hcb. cbn [expect]. rewrite bind_ret_l, Hwit.
  cbn [expect]. rewrite bind_ret_l, Hlock. cbn [ok_or]. rewrite bind_ret_l.
  rewrite (reward_txs_fees_main c s tip t) by (done || apply (fees_ok_sub _ _ _ _ _ _ Hf); lia).
  rewrite bind_ret_l.
  rewrite (proposal_reward_main c s tip t)
    by (done || (apply (fees_ok_sub _ _ _ _ _ _ Hf); lia)).
  rewrite bind_ret_l, Hbase, bind_ret_l.
  rewrite (proj2 (safe_add_Ok (miner_part c s t) _ _)) by (split; [done|unfold reward in Hfit; lia]).
  cbn [map_err]. rewrite bind_ret_l.
  by rewrite (proj2 (safe_add_Ok _ base _)) by (split; [done|exact Hfit]).
Qed.

(** At most one block is the first to propose a transaction. *)
Lemma first_proposer_unique s w n t t' id :
  1 <= t -> 1 <= t' -> n - farthest w <= t -> n - farthest w <= t' ->
  id ∈ main_ids s t -> (id ∉ earlier_ids s w t n) ->
  id ∈ main_ids s t' -> (id ∉ earlier_ids s w t' n) -> t = t'.
Proof.
  rewrite !elem_of_earlier_ids. intros Ht Ht' Hn Hn' Hi He Hi' He'.
  destruct (Z.lt_trichotomy t t') as [Hlt|[?|Hlt]]; [|done|].
  - exfalso. apply He'. exists t. split; [lia|done].
  - exfalso. apply He. exists t'. split; [lia|done].
Qed.

(** The proposer's parts paid to the blocks [a .. b] for one committing block
    are at most the parts of its fees. *)
Lemma proposer_parts_bound c s lo hi n a b :
  ratio_ok (proposer_reward_ratio c) -> fees_ok c s lo hi -> lo <= n <= hi -> 1 <= a ->
  range_sum (fun t => if decide (t + closest (tx_proposal_window c) <= n <= t + farthest (tx_proposal_window c))
                      then proposer_part c s t n else 0) a b
  <= sum_of (fun e => part (proposer_reward_ratio c) e.2) (commits s n).
Proof.
  intros Hr Hf Hn Ha. set (w := tx_proposal_window c).
  transitivity (range_sum (fun t => sum_of (fun e =>
    if decide ((t + closest w <= n <= t + farthest w) /\ e.1 ∈ main_ids s t /\ (e.1 ∉ earlier_ids s w t n))
    then part (proposer_reward_ratio c) e.2 else 0) (commits s n)) a b).
  - apply range_sum_le. intros t Ht. case_decide as Hin.
    + apply sum_of_le. intros e He. repeat case_decide; try lia; naive_solver.
    + apply sum_of_nonneg. intros e He.
      pose proof (part_bounds _ e.2 Hr (proj1 (fo_fee _ _ _ _ Hf n e Hn He))). case_decide; lia.
  - unfold range_sum. rewrite sum_of_swap. apply sum_of_le. intros e He.
    apply sum_of_unique.
    + apply (part_bounds _ e.2 Hr). by apply (fo_fee _ _ _ _ Hf n e).
    + apply NoDup_seqZ.
    + intros x y Hx%elem_of_range Hy%elem_of_range (? & ? & ?) (? & ? & ?).
      apply (first_proposer_unique s w n x y e.1); done || lia.
Qed.

(** C32.  Fees are paid out at most once.  Over any blocks [a .. b] whose
    rewards can be finalized, both parts of the fee rewards are computed
    without an error, and their sum over these blocks is at most the sum of the
    fees of the transactions committed from [a] on up to the last block that
    can commit a proposal of [b]. *)
Theorem fee_rewards_conserved c s tip a b :
  is_main s tip -> window_ok (tx_proposal_window c) -> ratio_ok (proposer_reward_ratio c) ->
  2 <= a <= b -> b + farthest (tx_proposal_window c) <= tip < U64_SIZE - 1 ->
  fees_ok c s a (b + farthest (tx_proposal_window c)) ->
  exists miner proposer,
    (forall t tb pb, a <= t <= b -> main_block s t = Some tb ->
       main_block s (t + farthest (tx_proposal_window c)) = Some pb ->
       reward_txs_fees c s (b_header tb) = Ok (miner t) /\
       proposal_reward c s (b_header pb) (b_header tb) = Ok (proposer t)) /\
    range_sum (fun t => miner t + proposer t) a b <=
    range_sum (fun n => sum_of snd (commits s n)) a (b + farthest (tx_proposal_window c)).
Proof.
  intros Hm Hw Hr Hab Htip Hf. set (w := tx_proposal_window c) in *. destruct Hw as [Hc1 Hcf].
  set (parts := fun n => sum_of (fun e => part (proposer_reward_ratio c) e.2) (commits s n)).
  exists (miner_part c s), (fun t => range_sum (proposer_part c s t) (t + closest w) (t + farthest w)).
  split.
  { intros t tb pb Ht Htb Hpb. split.
    - apply (reward_txs_fees_main c s tip); [done..|]. apply (fees_ok_sub _ _ _ _ _ _ Hf); lia.
    - apply (proposal_reward_main c s tip); try done; fold w; [lia|lia|].
      apply (fees_ok_sub _ _ _ _ _ _ Hf); lia. }
  assert (forall n, a <= n <= b + farthest w -> 0 <= miner_part c s n /\ 0 <= parts n /\
    miner_part c s n + parts n = sum_of snd (commits s n)) as Hsum.
  { intros n Hn. unfold miner_part, parts. rewrite <- sum_of_add.
    assert (forall e, e ∈ commits s n -> 0 <= part (proposer_reward_ratio c) e.2 <= e.2) as Hp.
    { intros e He. apply part_bounds; [done|]. by apply (fo_fee _ _ _ _ Hf n). }
    split_and!; [apply sum_of_nonneg|apply sum_of_nonneg|apply sum_of_ext]; intros e He;
      specialize (Hp e He); lia. }
  rewrite range_sum_add.
  rewrite (range_sum_ext (fun t => range_sum (proposer_part c s t) (t + closest w) (t + farthest w))
    (fun t => range_sum (fun n => if decide (t + closest w <= n <= t + farthest w)
       then proposer_part c s t n else 0) a (b + farthest w)))
    by (intros t Ht; apply range_sum_indicator; lia).
  unfold range_sum at 2 3. rewrite sum_of_swap.
  transitivity (range_sum (miner_part c s) a (b + farthest w) + range_sum parts a (b + farthest w)).
  - apply Z.add_le_mono; [apply range_sum_sub; [lia|lia|]; intros n Hn; by apply Hsum|].
    apply sum_of_le. intros n Hn%elem_of_range.
    apply (proposer_parts_bound c s a (b + farthest w)); (done || lia).
  - rewrite <- range_sum_add. apply range_sum_le. intros n Hn. destruct (Hsum n Hn) as (_ & _ & ->). done.
Qed.

Lemma paid_subset (r : Ratio) (ids proposed : gset Bytes) entries : ids ⊆ proposed -> paid r ids proposed entries = 0.
Proof.
  intros Hsub. unfold paid. rewrite (sum_of_ext _ (fun _ => 0)); [apply sum_of_zero|]. intros e _. rewrite decide_False; [done|]. set_solver.
Qed.

Lemma competing_loop_first c s tip start p k :
  is_main s tip -> ratio_ok (proposer_reward_ratio c) -> fees_ok c s start p -> p <= tip -> 1 <= start ->
  0 <= farthest (tx_proposal_window c) ->
  forall fuel n blk (ids proposed : gset Bytes) reward,
  n - start = Z.of_nat k -> (k <= fuel)%nat -> start <= n <= p -> n <= 1 + farthest (tx_proposal_window c) ->
  main_block s n = Some blk -> ids ⊆ main_ids s 1 ->
  0 <= reward <= range_sum (fun n => sum_of snd (commits s n)) n p ->
  competing_loop c s fuel start (b_header blk) ids proposed reward = Ok reward.
Proof.
  intros Hm Hr Hf Hp Hstart Hfar. induction k as [|k IH];
    intros fuel n blk ids proposed reward Hk Hfuel Hn Hnf Hblk Hids Hrew;
    destruct (main_block_Some s tip n Hm ltac:(lia)) as (blk' & Hblk' & _ & _ & Hnum & Hpar);
    rewrite Hblk in Hblk'; injection Hblk' as <-.
  - destruct fuel; cbn [competing_loop]; change (h_number (b_header blk)) with (b_number blk);
      by rewrite decide_False by lia.
  - destruct fuel as [|fuel]; [lia|]. cbn [competing_loop].
    change (h_number (b_header blk)) with (b_number blk). rewrite decide_True by lia.
    specialize (Hpar ltac:(lia)).
    destruct (main_block_Some s tip (n - 1) Hm ltac:(lia)) as (pb & Hpb & Hph & Hpl & Hpn & _).
    rewrite Hpar in Hph. injection Hph as Hph.
    change (h_parent_hash (b_header blk)) with (b_parent blk). unfold get_block_header. rewrite Hph, Hpl.
    cbn [fmap option_fmap option_map expect]. rewrite bind_ret_l.
    change (h_number (b_header pb)) with (b_number pb). rewrite Hpn.
    replace (Z.max (saturating_sub (n - 1) (farthest (tx_proposal_window c))) 1) with 1
      by (unfold saturating_sub; lia).
    destruct (main_block_Some s tip 1 Hm ltac:(lia)) as (sb & Hsb & Hsh & Hsl & _).
    unfold get_block_hash. rewrite Hsh. cbn [fmap option_fmap option_map expect]. rewrite bind_ret_l.
    rewrite (get_proposal_ids_main s tip 1) by done.
    change (h_hash (b_header pb)) with (b_hash pb).
    rewrite (fee_entries_main c s start p (n - 1)) by (done || lia). rewrite bind_ret_l.
    rewrite pay_proposer_fold;
      [|done|by apply (fo_nodup _ _ _ _ Hf); lia|intros e He; apply (fo_fee _ _ _ _ Hf (n - 1)); [lia|done]
       |apply (entries_fit c s start p Hf); [lia|by replace (n - 1 + 1) with n by lia]].
    cbn [map_err]. rewrite bind_ret_l, paid_subset by set_solver. rewrite Z.add_0_r.
    apply (IH fuel (n - 1)); try done; try lia; [set_solver|].
    split; [lia|]. etransitivity; [apply Hrew|]. apply range_sum_sub; [lia|lia|].
    intros x Hx. apply sum_of_nonneg. intros e He. by apply (fo_fee _ _ _ _ Hf x); [lia|].
Qed.

(** The first block is not paid for what it proposes, but for the
    transactions committed in the last block of its window: for every earlier
    one the search for an earlier proposer ends at block 1, the target itself,
    and takes it for a competitor. *)
Theorem first_block_proposals_unpaid c s tip pb tb :
  is_main s tip -> window_ok (tx_proposal_window c) -> ratio_ok (proposer_reward_ratio c) ->
  1 + farthest (tx_proposal_window c) < U64_SIZE - 1 ->
  main_block s (1 + farthest (tx_proposal_window c)) = Some pb -> main_block s 1 = Some tb ->
  fees_ok c s (1 + closest (tx_proposal_window c)) (1 + farthest (tx_proposal_window c)) ->
  proposal_reward c s (b_header pb) (b_header tb) =
  Ok (proposer_part c s 1 (1 + farthest (tx_proposal_window c))).
Proof.
  intros Hm [Hc Hcf] Hr Hbig Hpb Htb Hf. set (w := tx_proposal_window c) in *.
  destruct (main_header _ _ _ _ Hm Hpb) as (Hpl & Hpn & Hpr).
  destruct (main_header _ _ _ _ Hm Htb) as (Htl & Htn & _).
  unfold proposal_reward, window_length. change (h_number (b_header pb)) with (b_number pb).
  change (h_hash (b_header pb)) with (b_hash pb). change (h_hash (b_header tb)) with (b_hash tb).
  fold w. rewrite Hpn. outcome_arith.
  assert (Z.max (saturating_sub (1 + farthest w + 1) (farthest w - closest w + 1)) (1 + closest w)
    = 1 + closest w) as -> by (unfold saturating_sub; lia).
  rewrite (fee_entries_main c s (1 + closest w) (1 + farthest w) (1 + farthest w)) by (done || lia).
  rewrite bind_ret_l, (get_proposal_ids_main s tip 1) by done.
  rewrite pay_proposer_fold; [|done|apply (fo_nodup _ _ _ _ Hf); lia
    |intros e He; apply (fo_fee _ _ _ _ Hf (1 + farthest w)); [lia|done]
    |apply (entries_fit c s (1 + closest w) (1 + farthest w) Hf); [lia|rewrite range_sum_empty by lia; lia]].
  cbn [map_err]. rewrite bind_ret_l.
  assert (earlier_ids s w 1 (1 + farthest w) = ∅) as Hempty.
  { apply elem_of_equiv_empty_L. intros id. rewrite elem_of_earlier_ids. intros (h & ? & _). lia. }
  unfold proposer_part. fold w. rewrite Hempty, Z.add_0_l.
  apply (competing_loop_first c s tip (1 + closest w) (1 + farthest w) (Z.to_nat (farthest w - closest w)))
    with (n := 1 + farthest w); try done; try (fold w; lia); [set_solver|].
  rewrite range_sum_one. apply paid_bounds; [done|].
  intros e He. by apply (fo_fee _ _ _ _ Hf (1 + farthest w)); [lia|].
Qed.

(** ** Examples *)
Definition ext_len_ok (s : StoreData) (n : Z) : bool :=
  match main_block s n with
  | Some blk =>
      match get_block_ext s (b_hash blk) with
      | Some ext => bool_decide (length (txs_fees ext) = length (drop 1 (b_transactions blk)))
      | None => false
      end
  | None => true
  end.

Lemma fees_ok_check c s a b :
  Forall (fun n => ext_len_ok s n = true /\
      Forall (fun e => 0 <= e.2 /\ e.2 * numer (proposer_reward_ratio c) < U64_SIZE) (commits s n) /\
      NoDup (commits s n).*1 /\
      Forall (fun n' => Forall (fun id => ~ id ∈ (commits s n').*1) (commits s n).*1) (seqZ (n + 1) (b - n)))
    (seqZ a (b - a + 1)) /\
  range_sum (fun n => sum_of snd (commits s n)) a b < U64_SIZE ->
  fees_ok c s a b.
Proof.
  intros [H Hsum]. rewrite Forall_forall in H.
  assert (forall n, a <= n <= b -> n ∈ seqZ a (b - a + 1)) as Hin by (intros; apply elem_of_seqZ; lia).
  split.
  - intros n blk Hn Hb. destruct (H n (Hin n Hn)) as (He & _). unfold ext_len_ok in He. rewrite Hb in He.
    destruct (get_block_ext s (b_hash blk)) as [ext|]; [|done]. apply bool_decide_eq_true in He. eauto.
  - intros n e Hn He. destruct (H n (Hin n Hn)) as (_ & Hf & _). rewrite Forall_forall in Hf. by apply Hf.
  - done.
  - intros n Hn. by destruct (H n (Hin n Hn)) as (_ & _ & ? & _).
  - intros n n' id Hn Hn' H1 H2. destruct (H n (Hin n ltac:(lia))) as (_ & _ & _ & Hd).
    rewrite Forall_forall in Hd. specialize (Hd n'). rewrite elem_of_seqZ, Forall_forall in Hd.
    by apply (Hd ltac:(lia) id).
Qed.

Module RewardExample.
Definition lock : Script := mkScript [[7]] 9.
Definition cb (n : Z) : Transaction :=
  mkTransaction 0 [] [new_cellbase_input n] [] [into_witness lock] (900 + n) 0.
Definition proposals (n : Z) : list Z :=
  if decide (n = 1) then [1] else if decide (n = 2) then [1; 2] else [].
Definition committed (n : Z) : list (Z * Capacity) :=
  if decide (n = 4) then [(2, 1000)] else if decide (n = 5) then [(1, 500)] else [].
Definition blk (n : Z) : Block :=
  mkBlock (simple_header n (99 + n) (100 + n)) []
    (cb n :: ((fun e => ProposalExample.tx e.1) <$> committed n)) (ProposalExample.id <$> proposals n).
Definition chain : list Block := blk <$> seqZ 0 13.
Definition consensus : Consensus := Consensus_default (blk 0).
(** [known n]: the fees of block [n] are stored. *)
Definition store (known : Z -> bool) : StoreData :=
  mkStore (list_to_map ((fun b => (b_hash b, b)) <$> chain))
    (list_to_map ((fun b => (b_hash b, mkBlockExt 0 1 0 (if known (b_number b) then Some true else None)
       (mkDaoStats 1 1) (if known (b_number b) then (committed (b_number b)).*2 else []))) <$> chain))
    (list_to_map ((fun b => (b_number b, b_hash b)) <$> chain))
    (list_to_map ((fun b => (b_hash b, b_number b)) <$> chain))
    ∅ ∅ ∅ {[0 := genesis_epoch_ext consensus]} ∅ (list_to_map ((fun b => (b_hash b, 0)) <$> chain)) None None.
Definition s : StoreData := store (fun _ => true).
Definition base : Capacity := 100000000000.

Lemma s_main : is_main s 12.
Proof. apply is_main_check. by_compute. Qed.
Lemma s_fees : fees_ok consensus s 2 12.
Proof. apply fees_ok_check. by_compute. Qed.
Lemma ex_window : window_ok (tx_proposal_window consensus).
Proof. unfold window_ok. by_compute. Qed.
Lemma ex_ratio : ratio_ok (proposer_reward_ratio consensus).
Proof. unfold ratio_ok. by_compute. Qed.
End RewardExample.
Import RewardExample.

Lemma finalize_block_reward_spec_witness :
  finalize_block_reward consensus s (b_header (RewardExample.blk 12)) = Ok (lock, 400 + base).
Proof.
  rewrite (finalize_block_reward_spec consensus s 12 2 (RewardExample.blk 12) (RewardExample.blk 2)
    (cb 2) (into_witness lock) lock base);
    first [exact s_main|exact ex_window|exact ex_ratio|exact s_fees|by_compute].
Defined.

Lemma fee_rewards_conserved_witness :
  exists miner proposer,
    (forall t tb pb, 2 <= t <= 2 -> main_block s t = Some tb ->
       main_block s (t + farthest (tx_proposal_window consensus)) = Some pb ->
       reward_txs_fees consensus s (b_header tb) = Ok (miner t) /\
       proposal_reward consensus s (b_header pb) (b_header tb) = Ok (proposer t)) /\
    range_sum (fun t => miner t + proposer t) 2 2 <=
    range_sum (fun n => sum_of snd (commits s n)) 2 (2 + farthest (tx_proposal_window consensus)).
Proof.
  apply (fee_rewards_conserved consensus s 12 2 2);
    [exact s_main|exact ex_window|exact ex_ratio|by_compute..|exact s_fees].
Defined.

Lemma first_block_proposals_unpaid_witness :
  proposal_reward consensus s (b_header (RewardExample.blk 11)) (b_header (RewardExample.blk 1)) = Ok 0 /\
  commits s 5 = [(ProposalExample.id 1, 500)] /\ ProposalExample.id 1 ∈ main_ids s 1.
Proof.
  split_and!; [|by_compute..].
  rewrite (first_block_proposals_unpaid consensus s 12 (RewardExample.blk 11) (RewardExample.blk 1));
    [by_compute|exact s_main|exact ex_window|exact ex_ratio|by_compute..|].
  apply (fees_ok_sub _ _ _ _ _ _ s_fees); by_compute.
Defined.

(** The reward of a block depends on fees that a reorganisation has not
    stored yet.  With the same blocks and the same index, but the extra data of
    blocks 3 to 12 as the chain service stores it for a side branch, without
    fees, the reward owed to block 2 is lower: a valid branch is judged by
    another reward when it is verified in one reorganisation than when its
    blocks are verified one by one. *)
Theorem unverified_branch_reward_differs :
  exists c s s' parent lock reward reward',
    sd_blocks s = sd_blocks s' /\ is_main s 12 /\ is_main s' 12 /\
    (forall n, 0 <= n <= 12 -> main_block s n = main_block s' n) /\
    (forall n, 0 <= n <= 2 ->
       (b ← main_block s n; get_block_ext s' (b_hash b)) = (b ← main_block s n; get_block_ext s (b_hash b))) /\
    (forall n, 3 <= n <= 12 ->
       txs_fees <$> (b ← main_block s n; get_block_ext s' (b_hash b)) = Some []) /\
    finalize_block_reward c s parent = Ok (lock, reward) /\
    finalize_block_reward c s' parent = Ok (lock, reward') /\ reward' < reward.
Proof.
  set (s' := store (fun n => bool_decide (n <= 2))).
  exists consensus, s, s', (b_header (RewardExample.blk 12)), lock, (400 + base), base.
  split; [done|]. split; [exact s_main|]. split; [apply is_main_check; by_compute|].
  split; [apply (range_check _ 0 12); by_compute|]. split; [apply (range_check _ 0 2); by_compute|].
  split; [apply (range_check _ 3 12); by_compute|]. by_compute.
Qed.
