(* ===== verification/MedianTime.v ===== *)
(** * Median time

    [traits/src/block_median_time_context.rs]: the median of the timestamps of a
    block and its predecessors, and the contexts it is computed in. *)
From stdpp Require Import sorting.
From S2P Require Import Prelude Capacity Transactions Blocks Fixtures Epochs ChainStore.

(** The trait: the number of blocks of the median, the timestamp and the parent
    of a block, where [None] is the panic on a missing block, and the block with
    a number. *)
Record BlockMedianTimeContext := mkMedianContext {
  median_block_count : Z;
  timestamp_and_parent : H256 -> option (Z * H256);
  median_get_block_hash : Z -> option H256
}.

Fixpoint collect_timestamps {E} (ctx : BlockMedianTimeContext) (n : nat) (block_hash : H256)
    : outcome E (list Z) :=
  match n with
  | O => Ok []
  | S n =>
      '(timestamp, parent_hash) ← expect (timestamp_and_parent ctx block_hash);
      timestamps ← collect_timestamps ctx n parent_hash;
      Ok (timestamp :: timestamps)
  end.

(** [timestamps[timestamps.len() / 2]] of the sorted list. *)
Definition median (timestamps : list Z) : option Z :=
  merge_sort Z.le timestamps !! (length timestamps / 2)%nat.

Definition block_median_time {E} (ctx : BlockMedianTimeContext) (block_number : Z) (block_hash : H256)
    : outcome E Z :=
  n ← block_number +64 1;
  let median_time_span := Z.min n (median_block_count ctx) in
  timestamps ← collect_timestamps ctx (Z.to_nat median_time_span) block_hash;
  expect (median timestamps).

(** The contexts that read the store only: [ChainState] and
    [StoreBlockMedianTimeContext]. *)
Definition ChainState_median_context (c : Consensus) (s : StoreData) : BlockMedianTimeContext := {|
  median_block_count := median_time_block_count c;
  timestamp_and_parent := fun block_hash =>
    (fun header => (h_timestamp header, h_parent_hash header)) <$> get_block_header s block_hash;
  median_get_block_hash := get_block_hash s
|}.

(** The context of a fork: the blocks attached so far come first. *)
Record ForkContext := mkForkContext {
  fc_attached_blocks : list Block;
  fc_detached_blocks : list Block;
  fc_store : StoreData
}.

Definition fork_get_block_header (ctx : ForkContext) (block_hash : H256) : option Header :=
  match list_find (fun b => b_hash b = block_hash) (fc_attached_blocks ctx) with
  | Some (_, b) => Some (b_header b)
  | None => get_block_header (fc_store ctx) block_hash
  end.

Definition ForkContext_median_context (c : Consensus) (ctx : ForkContext) : BlockMedianTimeContext := {|
  median_block_count := median_time_block_count c;
  timestamp_and_parent := fun block_hash =>
    (fun header => (h_timestamp header, h_parent_hash header)) <$> fork_get_block_header ctx block_hash;
  median_get_block_hash := fun block_number =>
    match list_find (fun b => b_number b = block_number) (fc_attached_blocks ctx) with
    | Some (_, b) => Some (b_hash b)
    | None => get_block_hash (fc_store ctx) block_number
    end
|}.

(** ** The median *)
Definition below (bound : Z) (l : list Z) : nat := length (filter (fun t => t < bound) l).

Lemma below_cons bound x l : below bound (x :: l) = ((if decide (x < bound)%Z then 1 else 0) + below bound l)%nat.
Proof. unfold below. rewrite filter_cons. by case_decide. Qed.

Lemma below_app bound l1 l2 : below bound (l1 ++ l2) = (below bound l1 + below bound l2)%nat.
Proof. unfold below. by rewrite filter_app, length_app. Qed.

Lemma below_perm bound l1 l2 : l1 ≡ₚ l2 -> below bound l1 = below bound l2.
Proof. induction 1; rewrite ?below_cons in *; lia. Qed.

Lemma below_sorted l k m bound :
  StronglySorted Z.le l -> l !! k = Some m -> bound <= m <-> (below bound l <= k)%nat.
Proof.
  intros Hs. revert k. induction Hs as [|x l Hs IH Hall]; intros k Hk; [done|].
  rewrite below_cons. rewrite Forall_forall in Hall.
  assert (bound <= x -> below bound l = 0%nat) as Hempty.
  { intros Hx. unfold below. apply length_zero_iff_nil, elem_of_nil_inv.
    intros y [Hy Hin]%list_elem_of_filter. specialize (Hall y Hin). lia. }
  destruct k as [|k]; simpl in Hk.
  - injection Hk as ->. case_decide; [lia|]. rewrite Hempty by lia. lia.
  - case_decide.
    + rewrite (IH k Hk). lia.
    + rewrite Hempty by lia. apply list_elem_of_lookup_2 in Hk. specialize (Hall m Hk). lia.
Qed.

Lemma median_spec l m bound :
  median l = Some m -> bound <= m <-> (below bound l <= length l / 2)%nat.
Proof.
  intros Hm. unfold median in Hm. rewrite (below_sorted _ _ _ bound (StronglySorted_merge_sort Z.le l) Hm).
  by rewrite (below_perm bound _ _ (merge_sort_Permutation _ l)).
Qed.

Lemma median_Some l : l <> [] -> exists m, median l = Some m /\ m ∈ l.
Proof.
  intros Hl. unfold median. destruct (lookup_lt_is_Some_2 (merge_sort Z.le l) (length l / 2)%nat) as [m Hm].
  - rewrite (merge_sort_Permutation Z.le l). destruct l; [done|]. apply Nat.div_lt; simpl; lia.
  - exists m. split; [done|]. apply list_elem_of_lookup_2 in Hm.
    by rewrite (merge_sort_Permutation Z.le l) in Hm.
Qed.

(** A new timestamp above the median, in front of what remains of the list. *)
Lemma median_step l k t m m' :
  median l = Some m -> median (t :: take k l) = Some m' -> m < t -> (length l <= S k)%nat -> m <= m'.
Proof.
  intros Hm Hm' Ht Hk. apply (median_spec _ m' m Hm'). rewrite below_cons, decide_False by lia.
  assert (below m l <= length l / 2)%nat as Hb by (apply (median_spec l m m Hm); lia).
  assert (below m (take k l) <= below m l)%nat as Htk
    by (rewrite <- (take_drop k l) at 2; rewrite below_app; lia).
  assert (length l / 2 <= length (t :: take k l) / 2)%nat
    by (apply Nat.Div0.div_le_mono; rewrite length_cons, length_take; lia).
  lia.
Qed.

(** ** The timestamps of a main chain *)
Definition main_timestamp (s : StoreData) (n : Z) : Z :=
  from_option (fun b => h_timestamp (b_header b)) 0 (main_block s n).

(** The last [k] timestamps, from block [n] down. *)
Definition past_timestamps (s : StoreData) (n : Z) (k : nat) : list Z :=
  (fun i => main_timestamp s (n - Z.of_nat i)) <$> seq 0 k.

Lemma past_timestamps_S s n k :
  past_timestamps s n (S k) = main_timestamp s n :: past_timestamps s (n - 1) k.
Proof.
  unfold past_timestamps. cbn [seq]. rewrite <- fmap_S_seq, fmap_cons, <- list_fmap_compose. f_equal.
  - f_equal. lia.
  - apply list_fmap_ext. intros i x _. unfold compose. f_equal. lia.
Qed.

Lemma length_past_timestamps s n k : length (past_timestamps s n k) = k.
Proof. unfold past_timestamps. by rewrite length_fmap, length_seq. Qed.

Lemma take_past_timestamps s n j k : (j <= k)%nat -> take j (past_timestamps s n k) = past_timestamps s n j.
Proof. intros H. unfold past_timestamps. rewrite <- fmap_take, take_seq. by rewrite Nat.min_l. Qed.

Lemma collect_timestamps_main {E} ctx s tip (k : nat) : forall n b,
  is_main s tip ->
  (forall h, timestamp_and_parent ctx h =
     (fun header => (h_timestamp header, h_parent_hash header)) <$> get_block_header s h) ->
  main_block s n = Some b -> Z.of_nat k <= n + 1 -> n <= tip ->
  collect_timestamps (E := E) ctx k (b_hash b) = Ok (past_timestamps s n k).
Proof.
  induction k as [|k IH]; intros n b Hm Hctx Hb Hk Hn; [done|].
  destruct (main_block_Some s tip n Hm ltac:(lia)) as (b' & Hb' & _ & Hl & _ & Hp).
  rewrite Hb in Hb'. injection Hb' as <-. cbn [collect_timestamps]. rewrite Hctx.
  unfold get_block_header. rewrite Hl. cbn [fmap option_fmap option_map expect]. rewrite bind_ret_l.
  rewrite past_timestamps_S. unfold main_timestamp at 1. rewrite Hb. simpl from_option.
  destruct (decide (k = 0%nat)) as [->|Hk0]; [done|]. specialize (Hp ltac:(lia)).
  destruct (main_block_Some s tip (n - 1) Hm ltac:(lia)) as (pb & Hpb & Hph & _).
  rewrite Hp in Hph. injection Hph as Hph. change (h_parent_hash (b_header b)) with (b_parent b).
  rewrite Hph, (IH (n - 1) pb) by (done || lia). done.
Qed.

(** The number of blocks of the median at block [n]. *)
Definition median_span (count n : Z) : nat := Z.to_nat (Z.min (n + 1) count).

Lemma block_median_time_main {E} ctx s tip n b :
  is_main s tip ->
  (forall h, timestamp_and_parent ctx h =
     (fun header => (h_timestamp header, h_parent_hash header)) <$> get_block_header s h) ->
  main_block s n = Some b -> 0 <= n <= tip -> tip < U64_SIZE - 1 -> 0 < median_block_count ctx ->
  exists m, block_median_time (E := E) ctx n (b_hash b) = Ok m /\
    median (past_timestamps s n (median_span (median_block_count ctx) n)) = Some m.
Proof.
  intros Hm Hctx Hb Hn Ht Hc. unfold block_median_time. outcome_arith.
  fold (median_span (median_block_count ctx) n).
  assert (1 <= median_span (median_block_count ctx) n)%nat by (unfold median_span; lia).
  rewrite (collect_timestamps_main ctx s tip _ n) by (done || (unfold median_span; lia)).
  destruct (median_Some (past_timestamps s n (median_span (median_block_count ctx) n))) as (m & Hmm & _).
  { intros Hnil. apply (f_equal length) in Hnil. rewrite length_past_timestamps in Hnil. simpl in Hnil. lia. }
  exists m. by rewrite bind_ret_l, Hmm.
Qed.
