(* ===== verification/HeaderVerify.v ===== *)
(** * Verification of headers

    [verification/src/header_verifier.rs] with the resolver of
    [verification/src/block_verifier.rs].  The proof of work engine is the
    record of the trait's methods. *)
From S2P Require Import Prelude Capacity Transactions Blocks Fixtures Epochs ChainStore VerifyErrors Reward MedianTime.

Definition ALLOWED_FUTURE_BLOCKTIME : Z := 15 * 1000.

Record PowEngine := mkPowEngine {
  verify_header : Header -> bool;
  proof_size : Z
}.

Record HeaderResolver := mkResolver {
  hr_header : Header;
  hr_parent : option Header;
  hr_epoch : option EpochExt
}.

Definition HeaderResolverWrapper_new {E} (c : Consensus) (s : StoreData) (header : Header)
    : outcome E HeaderResolver :=
  let parent := get_block_header s (h_parent_hash header) in
  epoch ← match (parent ← parent; ext ← get_block_epoch s (h_hash parent); Some (parent, ext)) with
          | Some (parent, last_epoch) =>
              next ← shared_next_epoch_ext c s last_epoch parent;
              Ok (Some (default last_epoch next))
          | None => Ok None
          end;
  Ok (mkResolver header parent epoch).

Definition HeaderVersion_verify (header : Header) : outcome VerifyError unit :=
  if decide (h_version header ≠ HEADER_VERSION) then Err ErrVersion else Ok tt.

Definition PowVerifier_verify (pow : PowEngine) (header : Header) : outcome VerifyError unit :=
  if verify_header pow header then Ok tt else Err (ErrPow PowInvalidProof).

Definition NumberVerifier_verify (parent header : Header) : outcome VerifyError unit :=
  expected ← h_number parent +64 1;
  if decide (h_number header ≠ expected) then Err (ErrNumber expected (h_number header)) else Ok tt.

Definition TimestampVerifier_verify (ctx : BlockMedianTimeContext) (now : Z) (header : Header)
    : outcome VerifyError unit :=
  if h_is_genesis header then Ok tt
  else
    parent_number ← h_number header -64 1;
    min ← block_median_time ctx parent_number (h_parent_hash header);
    if decide (h_timestamp header <= min) then
      Err (ErrTimestamp (BlockTimeTooOld min (h_timestamp header)))
    else
      max ← now +64 ALLOWED_FUTURE_BLOCKTIME;
      if decide (max < h_timestamp header) then
        Err (ErrTimestamp (BlockTimeTooNew max (h_timestamp header)))
      else Ok tt.

Definition EpochVerifier_verify (target : HeaderResolver) : outcome VerifyError unit :=
  epoch ← ok_or (hr_epoch target) (ErrEpoch EpochAncestorNotFound);
  let actual_epoch_number := h_epoch (hr_header target) in
  if decide (actual_epoch_number ≠ ep_number epoch) then
    Err (ErrEpoch (NumberMismatch (ep_number epoch) actual_epoch_number))
  else
    let actual_difficulty := h_difficulty (hr_header target) in
    if decide (ep_difficulty epoch ≠ actual_difficulty) then
      Err (ErrEpoch (DifficultyMismatch (ep_difficulty epoch) actual_difficulty))
    else Ok tt.

Definition HeaderVerifier_verify (pow : PowEngine) (ctx : BlockMedianTimeContext) (now : Z)
    (target : HeaderResolver) : outcome VerifyError unit :=
  let header := hr_header target in
  _ ← HeaderVersion_verify header;
  _ ← PowVerifier_verify pow header;
  parent ← ok_or (hr_parent target) (ErrUnknownParent (h_parent_hash header));
  _ ← NumberVerifier_verify parent header;
  _ ← TimestampVerifier_verify ctx now header;
  EpochVerifier_verify target.

(** ** Lemmas *)
Lemma TimestampVerifier_Ok ctx now header :
  0 < h_number header ->
  TimestampVerifier_verify ctx now header = Ok tt <->
  now + ALLOWED_FUTURE_BLOCKTIME < U64_SIZE /\
  exists min, block_median_time (E := VerifyError) ctx (h_number header - 1) (h_parent_hash header) = Ok min /\
    min < h_timestamp header <= now + ALLOWED_FUTURE_BLOCKTIME.
Proof.
  intros Hn. unfold TimestampVerifier_verify, h_is_genesis. rewrite bool_decide_eq_false_2 by lia.
  outcome_arith. split.
  - intros H. outcome_inv. case_decide; [done|]. outcome_inv. subst. case_decide; [done|].
    split; [done|]. eexists. split; [done|lia].
  - intros (Hmax & min & -> & Hmin). rewrite bind_ret_l, decide_False by lia. outcome_arith.
    by rewrite decide_False by lia.
Qed.

(** A header is accepted exactly when the version, the proof, the
    parent, the number, the timestamp and the epoch are right: it is one above
    its parent, later than the median of the blocks before it and at most
    fifteen seconds ahead, and carries the number and the difficulty of the
    epoch that follows from its parent. *)
Theorem HeaderVerifier_iff pow ctx now target parent :
  hr_parent target = Some parent -> 0 <= h_number parent < U64_SIZE - 1 ->
  now + ALLOWED_FUTURE_BLOCKTIME < U64_SIZE ->
  HeaderVerifier_verify pow ctx now target = Ok tt <->
  h_version (hr_header target) = HEADER_VERSION /\
  verify_header pow (hr_header target) = true /\
  h_number (hr_header target) = h_number parent + 1 /\
  (exists min, block_median_time (E := VerifyError) ctx (h_number parent) (h_parent_hash (hr_header target)) = Ok min /\
     min < h_timestamp (hr_header target) <= now + ALLOWED_FUTURE_BLOCKTIME) /\
  exists epoch, hr_epoch target = Some epoch /\
    ep_number epoch = h_epoch (hr_header target) /\ ep_difficulty epoch = h_difficulty (hr_header target).
Proof.
  intros Hp Hn Hnow. unfold HeaderVerifier_verify. rewrite Hp. cbn [ok_or].
  unfold HeaderVersion_verify, PowVerifier_verify, NumberVerifier_verify, EpochVerifier_verify. split.
  - intros H. case_decide as Hv; [done|].  rewrite bind_ret_l in H.
    destruct (verify_header pow (hr_header target)) eqn:Hpow; [|done]. rewrite !bind_ret_l in H.
    rewrite add_w_eq, bind_ret_l in H by lia.
    case_decide as Hnum; [done|].  rewrite bind_ret_l in H.
    apply bind_Ok in H as ([] & Hts & H). apply bind_Ok in H as (epoch & He%ok_or_Ok & H).
    apply TimestampVerifier_Ok in Hts as (_ & min & Hm & Hb); [|lia].
    replace (h_number (hr_header target) - 1) with (h_number parent) in Hm by lia.
    case_decide as Hen; [done|]. case_decide as Hed; [done|].
    split_and!; [done|done|done|by eauto|]. exists epoch.
    split_and!; done.
  - intros (Hv & Hpow & Hnum & (min & Hmed & Hmin) & epoch & He & Hen & Hed).
    rewrite decide_False by (by intros ?). rewrite bind_ret_l, Hpow, !bind_ret_l. outcome_arith.
    rewrite decide_False by (by intros ?). rewrite bind_ret_l.
    rewrite (proj2 (TimestampVerifier_Ok ctx now (hr_header target) ltac:(lia))).
    + rewrite bind_ret_l, He. cbn [ok_or]. rewrite bind_ret_l, Hen, Hed.
      by rewrite !decide_False by (by intros ?).
    + split; [done|]. exists min. replace (h_number (hr_header target) - 1) with (h_number parent) by lia.
      done.
Qed.

(** The median time of a chain never goes back.  If every header of the
    main chain passed the timestamp check, at whatever time it was received,
    then the median time of a block is at most that of every later block, so
    that an input whose time lock is over stays spendable. *)
Theorem median_time_monotone c s tip i j bi bj :
  is_main s tip -> tip < U64_SIZE - 1 -> 0 < median_time_block_count c ->
  (forall n b, 0 < n <= tip -> main_block s n = Some b ->
     exists now, TimestampVerifier_verify (ChainState_median_context c s) now (b_header b) = Ok tt) ->
  0 <= i <= j -> j <= tip -> main_block s i = Some bi -> main_block s j = Some bj ->
  exists mi mj,
    block_median_time (E := VerifyError) (ChainState_median_context c s) i (b_hash bi) = Ok mi /\
    block_median_time (E := VerifyError) (ChainState_median_context c s) j (b_hash bj) = Ok mj /\ mi <= mj.
Proof.
  intros Hm Ht Hc Hok Hij Hj Hbi Hbj. set (ctx := ChainState_median_context c s).
  destruct (block_median_time_main (E := VerifyError) ctx s tip i bi) as (mi & Hmi & Hmedi); try done; [lia|].
  exists mi. revert bj Hbj. replace j with (i + Z.of_nat (Z.to_nat (j - i))) in * by lia.
  induction (Z.to_nat (j - i)) as [|k IH]; intros bj Hbj.
  { exists mi. rewrite Z.add_0_r in *. rewrite Hbi in Hbj. injection Hbj as <-. done. }
  set (n := i + Z.of_nat k) in *. replace (i + Z.of_nat (S k)) with (n + 1) in * by lia.
  destruct (main_block_Some s tip n Hm ltac:(lia)) as (b & Hb & Hh & _).
  destruct (main_block_Some s tip (n + 1) Hm ltac:(lia)) as (b1 & Hb1 & _ & _ & Hnum & Hp).
  rewrite Hbj in Hb1. injection Hb1 as <-. specialize (Hp ltac:(lia)).
  replace (n + 1 - 1) with n in Hp by lia. rewrite Hh in Hp. injection Hp as Hp.
  destruct (IH ltac:(lia) ltac:(lia) b Hb) as (m & _ & Hmb & Hle).
  destruct (block_median_time_main (E := VerifyError) ctx s tip n b) as (m0 & Hm0 & Hmed); try done; [lia|].
  rewrite Hmb in Hm0. injection Hm0 as <-.
  destruct (block_median_time_main (E := VerifyError) ctx s tip (n + 1) bj) as (mj & Hmj & Hmedj); try done; [lia|].
  exists mj. split_and!; [done|done|]. transitivity m; [done|].
  destruct (Hok (n + 1) bj ltac:(lia) Hbj) as (now & Hnow).
  change (b_number bj) with (h_number (b_header bj)) in Hnum.
  apply TimestampVerifier_Ok in Hnow as (_ & min & Hmin & Hts & _); [|lia].
  rewrite Hnum in Hmin. replace (n + 1 - 1) with n in Hmin by lia.
  change (h_parent_hash (b_header bj)) with (b_parent bj) in Hmin. rewrite <- Hp in Hmin.
  fold ctx in Hmin. rewrite Hmb in Hmin. injection Hmin as <-.
  set (count := median_block_count ctx) in *. assert (0 < count) as Hcount by exact Hc.
  assert (median_span count (n + 1) = S (Nat.min (median_span count n) (median_span count (n + 1) - 1))) as Hspan
    by (unfold median_span; lia).
  rewrite Hspan, past_timestamps_S in Hmedj. replace (n + 1 - 1) with n in Hmedj by lia.
  rewrite <- (take_past_timestamps s n _ (median_span count n)) in Hmedj by lia.
  apply (median_step _ _ _ _ _ Hmed Hmedj).
  - unfold main_timestamp. by rewrite Hbj.
  - rewrite length_past_timestamps. unfold median_span. lia.
Qed.

(** ** Examples: on the chain of the reward example, with timestamps 1000 ms
    apart *)
Module HeaderExample.
Export RewardExample.
Definition pow : PowEngine := mkPowEngine (fun _ => true) 0.
Definition ctx : BlockMedianTimeContext := ChainState_median_context consensus s.
Definition header13 : Header :=
  mkHeader (mkRawHeader 0 112 12500 13 0 0 0 1 0 0 0) (mkSeal 0 []) 113.
Definition target : HeaderResolver :=
  match HeaderResolverWrapper_new (E := unit) consensus s header13 with
  | Ok t => t
  | _ => mkResolver header13 None None
  end.
End HeaderExample.

Lemma HeaderVerifier_iff_witness :
  HeaderVerifier_verify HeaderExample.pow HeaderExample.ctx 12000 HeaderExample.target = Ok tt.
Proof.
  apply (HeaderVerifier_iff HeaderExample.pow HeaderExample.ctx 12000 HeaderExample.target
           (b_header (RewardExample.blk 12))); [vm_compute; reflexivity|by_compute|by_compute|].
  split_and!; [by_compute|by_compute|by_compute| |].
  - exists 7000. by_compute.
  - exists (genesis_epoch_ext RewardExample.consensus). by_compute.
Defined.

Lemma median_time_monotone_witness :
  exists mi mj,
    block_median_time (E := VerifyError) HeaderExample.ctx 4 104 = Ok mi /\
    block_median_time (E := VerifyError) HeaderExample.ctx 12 112 = Ok mj /\ mi <= mj.
Proof.
  apply (median_time_monotone RewardExample.consensus RewardExample.s 12 4 12
           (RewardExample.blk 4) (RewardExample.blk 12));
    [exact RewardExample.s_main|by_compute|by_compute| |by_compute..].
  intros n b Hn Hb. exists 20000. assert (1 <= n <= 12) as Hn1 by lia. clear Hn. revert n Hn1 b Hb.
  apply (range_check (fun n => forall b, main_block RewardExample.s n = Some b ->
    TimestampVerifier_verify HeaderExample.ctx 20000 (b_header b) = Ok tt) 1 12).
  repeat (constructor; [intros b Hb; vm_compute in Hb; injection Hb as <-; vm_compute; reflexivity|]).
  constructor.
Defined.
