(* ===== verification/Scripts.v ===== *)
(** * Verification of scripts

    [TransactionScriptsVerifier] of [script/src/verify.rs]: the scripts of a
    transaction are grouped by their hash and every group is run once.  The
    virtual machine, which is a package of its own, and the bundled program of
    the default lock are arguments; so is the digest. *)
From S2P Require Import Prelude Sums Capacity ByteStrings Transactions Blocks Fixtures CellSet Cells Epochs ChainStore VerifyErrors Dao.

Definition SYSTEM_DAO_CYCLES : Z := 5000.
Definition DAO_LOCK_PERIOD_BLOCKS : Z := 10.
Definition DAO_MATURITY_BLOCKS : Z := 5.

Record ScriptGroup := mkGroup {
  sg_script : Script;
  sg_input_indices : list nat;
  sg_output_indices : list nat
}.

Definition ScriptGroup_new (script : Script) : ScriptGroup := mkGroup script [] [].

Section verifier.
(** The digest of [Script::hash] and of [CellOutput::data_hash]. *)
Context (blake2b : Bytes -> H256).
(** What the virtual machine does with a program, the arguments and the system
    calls of a group, and a limit of cycles: an error of the machine or an exit
    code and the cycles used. *)
Context (machine_run : ResolvedTransaction -> Bytes -> ScriptGroup -> Z -> Z + (Z * Z)).
(** The bundled program of the default lock. *)
Context (default_lock_program : option Bytes).
Context (data_loader : DataLoader).

(** [entry(hash).or_insert_with(..)], then a push of the index. *)
Definition group_entry (groups : gmap Z ScriptGroup) (script : Script) : ScriptGroup :=
  default (ScriptGroup_new script) (groups !! Script_hash blake2b script).
Definition push_input (groups : gmap Z ScriptGroup) (script : Script) (i : nat) : gmap Z ScriptGroup :=
  let g := group_entry groups script in
  <[Script_hash blake2b script := mkGroup (sg_script g) (sg_input_indices g ++ [i]) (sg_output_indices g)]> groups.
Definition push_output (groups : gmap Z ScriptGroup) (script : Script) (i : nat) : gmap Z ScriptGroup :=
  let g := group_entry groups script in
  <[Script_hash blake2b script := mkGroup (sg_script g) (sg_input_indices g) (sg_output_indices g ++ [i])]> groups.

Definition add_block_data (block_data : gmap Z (Z * BlockExt)) (header : option Header)
    : gmap Z (Z * BlockExt) :=
  match header with
  | Some header =>
      match loader_block_ext data_loader (h_hash header) with
      | Some block_ext => <[h_hash header := (h_number header, block_ext)]> block_data
      | None => block_data
      end
  | None => block_data
  end.

Record VerifierState := mkVerifier {
  vs_rtx : ResolvedTransaction;
  vs_binary_index : gmap Z nat;
  vs_block_data : gmap Z (Z * BlockExt);
  vs_lock_groups : gmap Z ScriptGroup;
  vs_type_groups : gmap Z ScriptGroup
}.

Definition index_dep (binary_index : gmap Z nat) (d : nat * ResolvedOutPoint)
    : outcome ScriptError (gmap Z nat) :=
  match cell_meta (ro_cell d.2) with
  | Some meta =>
      match cm_data_hash meta with
      | Some hash => Ok (<[hash := d.1]> binary_index)
      | None =>
          output ← expect (lazy_load_cell_output data_loader meta);
          Ok (<[data_hash blake2b output := d.1]> binary_index)
      end
  | None => Ok binary_index
  end.

Definition add_input (st : gmap Z (Z * BlockExt) * gmap Z ScriptGroup * gmap Z ScriptGroup)
    (d : nat * ResolvedOutPoint)
    : outcome ScriptError (gmap Z (Z * BlockExt) * gmap Z ScriptGroup * gmap Z ScriptGroup) :=
  let '(block_data, lock_groups, type_groups) := st in
  let '(i, resolved_input) := d in
  let block_data := add_block_data block_data (ro_header resolved_input) in
  match cell_meta (ro_cell resolved_input) with
  | Some meta =>
      output ← expect (lazy_load_cell_output data_loader meta);
      let lock_groups := push_input lock_groups (co_lock output) i in
      let type_groups := match co_type output with
                         | Some t => push_input type_groups t i
                         | None => type_groups
                         end in
      Ok (block_data, lock_groups, type_groups)
  | None => Ok (block_data, lock_groups, type_groups)
  end.

Definition add_output (type_groups : gmap Z ScriptGroup) (d : nat * CellOutput) : gmap Z ScriptGroup :=
  match co_type d.2 with
  | Some t => push_output type_groups t d.1
  | None => type_groups
  end.

Definition TransactionScriptsVerifier_new (rtx : ResolvedTransaction) : outcome ScriptError VerifierState :=
  binary_index ← try_fold index_dep ∅ (enumerate (rtx_deps rtx));
  '(block_data, lock_groups, type_groups) ← try_fold add_input (∅, ∅, ∅) (enumerate (rtx_inputs rtx));
  let type_groups := fold_left add_output (enumerate (tx_outputs (rtx_transaction rtx))) type_groups in
  let block_data := fold_left (fun m dep => add_block_data m (ro_header dep)) (rtx_deps rtx) block_data in
  Ok (mkVerifier rtx binary_index block_data lock_groups type_groups).

Definition extract_script (self : VerifierState) (script : Script) : outcome ScriptError Bytes :=
  match (index ← vs_binary_index self !! script_code_hash script;
         dep ← rtx_deps (vs_rtx self) !! index; cell_meta (ro_cell dep)) with
  | Some meta => output ← expect (lazy_load_cell_output data_loader meta); Ok (co_data output)
  | None => Err InvalidReferenceIndex
  end.

Definition run (self : VerifierState) (program : Bytes) (script_group : ScriptGroup) (max_cycles : Z)
    : outcome ScriptError Z :=
  match machine_run (vs_rtx self) program script_group max_cycles with
  | inl e => Err (VMError e)
  | inr (code, cycles) => if decide (code = 0) then Ok cycles else Err (ValidationFailure code)
  end.

Definition verify_default_lock (self : VerifierState) (script_group : ScriptGroup) (max_cycles : Z)
    : outcome ScriptError Z :=
  program ← ok_or default_lock_program ScriptIOError;
  run self program script_group max_cycles.

(** One input of a group locked by the DAO: the capacity it may withdraw. *)
Definition dao_input (self : VerifierState) (input_index : nat) : outcome ScriptError Capacity :=
  witness ← ok_or (tx_witnesses (rtx_transaction (vs_rtx self)) !! input_index) NoWitness;
  _ ← ensure (bool_decide (length witness = 3%nat)) ArgumentNumber;
  arg ← expect (witness !! 2%nat);
  withdraw_header_hash ← ok_or (h256_from_slice arg) ScriptIOError;
  '(withdraw_block_number, withdraw_block_ext) ←
    ok_or (vs_block_data self !! withdraw_header_hash) InvalidDaoWithdrawHeader;
  input ← ok_or (tx_inputs (rtx_transaction (vs_rtx self)) !! input_index) ArgumentError;
  resolved_input ← ok_or (rtx_inputs (vs_rtx self) !! input_index) ArgumentError;
  meta ← ok_or (cell_meta (ro_cell resolved_input)) ArgumentError;
  output ← expect (lazy_load_cell_output data_loader meta);
  _ ← ensure (bool_decide (script_code_hash (co_lock output) = DAO_CODE_HASH)) ArgumentError;
  header ← ok_or (ro_header resolved_input) InvalidDaoDepositHeader;
  '(deposit_block_number, deposit_block_ext) ←
    ok_or (vs_block_data self !! h_hash header) InvalidDaoDepositHeader;
  _ ← ensure (bool_decide (deposit_block_number < withdraw_block_number)) InvalidDaoWithdrawHeader;
  distance ← withdraw_block_number -64 deposit_block_number;
  windowleft ← DAO_LOCK_PERIOD_BLOCKS -64 (distance mod DAO_LOCK_PERIOD_BLOCKS);
  since ← withdraw_block_number +64 Z.min DAO_MATURITY_BLOCKS windowleft;
  minimal_since ← since +64 1;
  _ ← ensure (bool_decide (minimal_since <= ci_since input)) ScriptInvalidSince;
  map_err (fun _ => InterestCalculation)
    (calculate_maximum_withdraw output (dao_stats deposit_block_ext) (dao_stats withdraw_block_ext)).

Definition verify_dao (self : VerifierState) (script_group : ScriptGroup) (max_cycles : Z)
    : outcome ScriptError Z :=
  _ ← ensure (bool_decide (length (script_args (sg_script script_group)) = 1%nat)) ArgumentNumber;
  lock_cycles ← verify_default_lock self script_group max_cycles;
  cycles ← ok_or (checked_add U64_SIZE lock_cycles SYSTEM_DAO_CYCLES) ScriptExceededMaximumCycles;
  _ ← ensure (bool_decide (cycles <= max_cycles)) ScriptExceededMaximumCycles;
  maximum_output_capacities ← try_fold (fun acc input_index =>
      maximum_withdraw ← dao_input self input_index;
      map_err (fun _ => ScriptCapacityOverflow) (safe_add acc maximum_withdraw))
    0 (sg_input_indices script_group);
  output_capacities ← map_err (fun _ => ScriptCapacityOverflow)
    (safe_sum (co_capacity <$> tx_outputs (rtx_transaction (vs_rtx self))));
  _ ← ensure (bool_decide (output_capacities <= maximum_output_capacities)) InvalidInterest;
  Ok cycles.

Definition verify_group (self : VerifierState) (group : ScriptGroup) (max_cycles : Z)
    : outcome ScriptError Z :=
  if decide (script_code_hash (sg_script group) = DAO_CODE_HASH) then verify_dao self group max_cycles
  else program ← extract_script self (sg_script group); run self program group max_cycles.

Fixpoint verify_groups (self : VerifierState) (max_cycles : Z) (cycles : Z) (groups : list ScriptGroup)
    : outcome ScriptError Z :=
  match groups with
  | [] => Ok cycles
  | group :: groups =>
      cycle ← verify_group self group max_cycles;
      current_cycles ← ok_or (checked_add U64_SIZE cycles cycle) ScriptExceededMaximumCycles;
      _ ← ensure (bool_decide (current_cycles <= max_cycles)) ScriptExceededMaximumCycles;
      verify_groups self max_cycles current_cycles groups
  end.

Fixpoint valid_dao_withdraw_transaction (resolved_inputs : list ResolvedOutPoint) : outcome ScriptError bool :=
  match resolved_inputs with
  | [] => Ok false
  | input :: l =>
      found ← match cell_meta (ro_cell input) with
              | Some cell =>
                  output ← expect (lazy_load_cell_output data_loader cell);
                  Ok (bool_decide (script_code_hash (co_lock output) = DAO_CODE_HASH))
              | None => Ok false
              end;
      if (found : bool) then Ok true else valid_dao_withdraw_transaction l
  end.

Definition is_issuing_dao_input (self : ResolvedCell) : bool :=
  match self with IssuingDaoInput => true | _ => false end.

Definition check_resolved (self : VerifierState) (resolved_input : ResolvedOutPoint) : outcome ScriptError unit :=
  if is_issuing_dao_input (ro_cell resolved_input) then
    valid ← valid_dao_withdraw_transaction (rtx_inputs (vs_rtx self));
    ensure valid InvalidIssuingDaoInput
  else ensure (bool_decide (is_Some (cell_meta (ro_cell resolved_input)))) NoScript.

(** The groups are given in the order in which the two hash maps list them. *)
Definition TransactionScriptsVerifier_verify (self : VerifierState) (lock_values type_values : list ScriptGroup)
    (max_cycles : Z) : outcome ScriptError Z :=
  _ ← try_for_each (check_resolved self) (rtx_inputs (vs_rtx self));
  verify_groups self max_cycles 0 (lock_values ++ type_values).

(** Creating the verifier and running it, with the orders as functions of the
    maps. *)
Definition verify_scripts (values : gmap Z ScriptGroup -> list ScriptGroup) (rtx : ResolvedTransaction)
    (max_cycles : Z) : outcome ScriptError Z :=
  self ← TransactionScriptsVerifier_new rtx;
  TransactionScriptsVerifier_verify self (values (vs_lock_groups self)) (values (vs_type_groups self)) max_cycles.
End verifier.

(** ** The groups *)
Section groups.
Context (blake2b : Bytes -> H256).
Local Abbreviation hash := (Script_hash blake2b).

(** The groups of a map are the classes of scripts with equal hashes: [ins] and
    [outs] are the scripts seen so far, with their indices. *)
Record grouped (ins outs : list (nat * Script)) (m : gmap Z ScriptGroup) : Prop := {
  gr_script : forall h g, m !! h = Some g ->
    hash (sg_script g) = h /\ exists i, (i, sg_script g) ∈ ins ++ outs;
  gr_inputs : forall h g i, m !! h = Some g ->
    i ∈ sg_input_indices g <-> exists s, (i, s) ∈ ins /\ hash s = h;
  gr_outputs : forall h g i, m !! h = Some g ->
    i ∈ sg_output_indices g <-> exists s, (i, s) ∈ outs /\ hash s = h;
  gr_all : forall i s, (i, s) ∈ ins ++ outs -> is_Some (m !! hash s)
}.

Lemma grouped_empty : grouped [] [] ∅.
Proof. split; set_solver. Qed.

Lemma group_entry_grouped ins outs m s :
  grouped ins outs m ->
  hash (sg_script (group_entry blake2b m s)) = hash s /\
  (sg_script (group_entry blake2b m s) = s \/
   exists i, (i, sg_script (group_entry blake2b m s)) ∈ ins ++ outs) /\
  (forall i, i ∈ sg_input_indices (group_entry blake2b m s) <-> exists s', (i, s') ∈ ins /\ hash s' = hash s) /\
  (forall i, i ∈ sg_output_indices (group_entry blake2b m s) <-> exists s', (i, s') ∈ outs /\ hash s' = hash s).
Proof.
  intros [H1 H2 H3 H4]. unfold group_entry. destruct (m !! hash s) as [g|] eqn:Hg; simpl.
  - destruct (H1 _ _ Hg) as [Hh Hin]. split_and!; [done|by right|..]; intros i; [by apply H2|by apply H3].
  - assert (forall i s', (i, s') ∈ ins ++ outs -> hash s' <> hash s) as Hno.
    { intros i s' Hin Heq. destruct (H4 i s' Hin) as [g Hg']. rewrite Heq in Hg'. congruence. }
    split_and!; [done|by left|..]; intros i; (split; [set_solver|]);
      intros (s' & Hin & Heq); by destruct (Hno i s'); [set_solver|].
Qed.

Lemma push_input_grouped ins outs m s i :
  grouped ins outs m -> grouped (ins ++ [(i, s)]) outs (push_input blake2b m s i).
Proof.
  intros Hm. destruct (group_entry_grouped ins outs m s Hm) as (Eh & Es & Ei & Eo).
  destruct Hm as [H1 H2 H3 H4]. unfold push_input. set (e := group_entry blake2b m s) in *. split.
  - intros h g [[<- <-]|[Hne Hg]]%lookup_insert_Some; simpl.
    + split; [done|]. destruct Es as [->|[j Hj]]; [exists i|exists j]; set_solver.
    + destruct (H1 h g Hg) as [? [j ?]]. split; [done|]. exists j. set_solver.
  - intros h g j [[<- <-]|[Hne Hg]]%lookup_insert_Some; simpl.
    + rewrite elem_of_app, list_elem_of_singleton, Ei. set_unfold. naive_solver.
    + rewrite (H2 h g j Hg). set_unfold. naive_solver.
  - intros h g j [[<- <-]|[Hne Hg]]%lookup_insert_Some; simpl; [apply Eo|by apply H3].
  - intros j s' Hin. destruct (decide (hash s' = hash s)) as [->|Hne].
    + rewrite lookup_insert_eq. eauto.
    + rewrite lookup_insert_ne by done. apply (H4 j). set_unfold. naive_solver.
Qed.

Lemma push_output_grouped ins outs m s i :
  grouped ins outs m -> grouped ins (outs ++ [(i, s)]) (push_output blake2b m s i).
Proof.
  intros Hm. destruct (group_entry_grouped ins outs m s Hm) as (Eh & Es & Ei & Eo).
  destruct Hm as [H1 H2 H3 H4]. unfold push_output. set (e := group_entry blake2b m s) in *. split.
  - intros h g [[<- <-]|[Hne Hg]]%lookup_insert_Some; simpl.
    + split; [done|]. destruct Es as [->|[j Hj]]; [exists i|exists j]; set_solver.
    + destruct (H1 h g Hg) as [? [j ?]]. split; [done|]. exists j. set_solver.
  - intros h g j [[<- <-]|[Hne Hg]]%lookup_insert_Some; simpl; [apply Ei|by apply H2].
  - intros h g j [[<- <-]|[Hne Hg]]%lookup_insert_Some; simpl.
    + rewrite elem_of_app, list_elem_of_singleton, Eo. set_unfold. naive_solver.
    + rewrite (H3 h g j Hg). set_unfold. naive_solver.
  - intros j s' Hin. destruct (decide (hash s' = hash s)) as [->|Hne].
    + rewrite lookup_insert_eq. eauto.
    + rewrite lookup_insert_ne by done. apply (H4 j). set_unfold. naive_solver.
Qed.
End groups.

(** The scripts of a transaction, with the place they are at. *)
Section places.
Context (data_loader : DataLoader) (rtx : ResolvedTransaction).

Definition input_output (r : ResolvedOutPoint) : option CellOutput :=
  meta ← cell_meta (ro_cell r); lazy_load_cell_output data_loader meta.

Definition lock_at (i : nat) (s : Script) : Prop :=
  exists r o, rtx_inputs rtx !! i = Some r /\ input_output r = Some o /\ co_lock o = s.
Definition input_type_at (i : nat) (s : Script) : Prop :=
  exists r o, rtx_inputs rtx !! i = Some r /\ input_output r = Some o /\ co_type o = Some s.
Definition output_type_at (i : nat) (s : Script) : Prop :=
  exists o, tx_outputs (rtx_transaction rtx) !! i = Some o /\ co_type o = Some s.
End places.

Section build.
Context (blake2b : Bytes -> H256) (data_loader : DataLoader).

Lemma add_inputs_grouped l : forall bd lg tg st li ti to_,
  grouped blake2b li [] lg -> grouped blake2b ti to_ tg ->
  try_fold (add_input blake2b data_loader) (bd, lg, tg) l = Ok st ->
  exists li' ti', grouped blake2b li' [] st.1.2 /\ grouped blake2b ti' to_ st.2 /\
    (forall i s, (i, s) ∈ li' <-> (i, s) ∈ li \/
       exists r o, (i, r) ∈ l /\ input_output data_loader r = Some o /\ co_lock o = s) /\
    (forall i s, (i, s) ∈ ti' <-> (i, s) ∈ ti \/
       exists r o, (i, r) ∈ l /\ input_output data_loader r = Some o /\ co_type o = Some s).
Proof.
  induction l as [|[i r] l IH]; intros bd lg tg st li ti to_ Hl Ht H; cbn [try_fold] in H.
  { injection H as <-. exists li, ti. split_and!; [done|done|..]; set_solver. }
  apply bind_Ok in H as ([[bd1 lg1] tg1] & Hadd & H). unfold add_input in Hadd.
  destruct (cell_meta (ro_cell r)) as [meta|] eqn:Hmeta.
  - apply bind_Ok in Hadd as (o & Ho%expect_Ok & Hadd). injection Hadd as <- <- <-.
    assert (input_output data_loader r = Some o) as Hio by (unfold input_output; by rewrite Hmeta).
    apply (IH _ _ _ _ (li ++ [(i, co_lock o)])
      (match co_type o with Some t => ti ++ [(i, t)] | None => ti end) to_) in H
      as (li' & ti' & G1 & G2 & G3 & G4).
    + exists li', ti'. split_and!; [done|done|..]; intros j s.
      * rewrite G3. clear - Hio. set_unfold. naive_solver.
      * rewrite G4. destruct (co_type o) as [t|] eqn:Hty; clear - Hio Hty; set_unfold; naive_solver.
    + by apply push_input_grouped.
    + destruct (co_type o); [by apply push_input_grouped|done].
  - injection Hadd as <- <- <-.
    assert (input_output data_loader r = None) as Hio by (unfold input_output; by rewrite Hmeta).
    apply (IH _ _ _ _ li ti to_) in H as (li' & ti' & G1 & G2 & G3 & G4); [|done|done].
    exists li', ti'. split_and!; [done|done|..]; intros j s; [rewrite G3|rewrite G4]; clear - Hio; set_unfold; naive_solver.
Qed.

Lemma add_outputs_grouped l : forall tg ti to_,
  grouped blake2b ti to_ tg ->
  exists to', grouped blake2b ti to' (fold_left (add_output blake2b) l tg) /\
    (forall i s, (i, s) ∈ to' <-> (i, s) ∈ to_ \/ exists o, (i, o) ∈ l /\ co_type o = Some s).
Proof.
  induction l as [|[i o] l IH]; intros tg ti to_ Ht; cbn [fold_left].
  { exists to_. split; [done|]. set_solver. }
  unfold add_output at 2. cbn [fst snd]. destruct (co_type o) as [t|] eqn:Hty.
  - destruct (IH _ _ _ (push_output_grouped blake2b ti to_ tg t i Ht)) as (to' & G1 & G2).
    exists to'. split; [done|]. intros j s. rewrite G2. set_unfold. naive_solver.
  - destruct (IH _ _ _ Ht) as (to' & G1 & G2). exists to'. split; [done|].
    intros j s. rewrite G2. set_unfold. naive_solver.
Qed.

Lemma new_grouped rtx self :
  TransactionScriptsVerifier_new blake2b data_loader rtx = Ok self ->
  vs_rtx self = rtx /\
  exists li ti to_, grouped blake2b li [] (vs_lock_groups self) /\ grouped blake2b ti to_ (vs_type_groups self) /\
    (forall i s, (i, s) ∈ li <-> lock_at data_loader rtx i s) /\
    (forall i s, (i, s) ∈ ti <-> input_type_at data_loader rtx i s) /\
    (forall i s, (i, s) ∈ to_ <-> output_type_at rtx i s).
Proof.
  intros H. unfold TransactionScriptsVerifier_new in H.
  apply bind_Ok in H as (bi & _ & H). apply bind_Ok in H as ([[bd lg] tg] & Hadd & H). injection H as <-.
  split; [done|]. cbn [vs_lock_groups vs_type_groups].
  apply (add_inputs_grouped _ _ _ _ _ [] [] []) in Hadd as (li & ti & G1 & G2 & G3 & G4);
    [|apply grouped_empty|apply grouped_empty].
  destruct (add_outputs_grouped (enumerate (tx_outputs (rtx_transaction rtx))) tg ti [] G2) as (to_ & G5 & G6).
  exists li, ti, to_. split_and!; [done|done|..]; intros i s; [rewrite G3|rewrite G4|rewrite G6];
    setoid_rewrite elem_of_enumerate; unfold lock_at, input_type_at, output_type_at; set_solver.
Qed.
End build.

(** ** Running the groups *)
Section run_groups.
Context (machine_run : ResolvedTransaction -> Bytes -> ScriptGroup -> Z -> Z + (Z * Z)).
Context (default_lock_program : option Bytes) (data_loader : DataLoader).
Local Abbreviation vgroup := (verify_group machine_run default_lock_program data_loader).

Lemma verify_groups_Ok self max_cycles groups cycles r :
  0 <= cycles <= max_cycles -> max_cycles < U64_SIZE ->
  (forall g n, g ∈ groups -> vgroup self g max_cycles = Ok n -> 0 <= n) ->
  verify_groups machine_run default_lock_program data_loader self max_cycles cycles groups = Ok r <->
  exists ns, Forall2 (fun g n => vgroup self g max_cycles = Ok n) groups ns /\
    r = cycles + sum_z ns /\ r <= max_cycles.
Proof.
  intros Hc Hmax. revert cycles Hc. induction groups as [|g groups IH]; intros cycles Hc Hpos; cbn [verify_groups].
  { split.
    - intros [= <-]. exists []. split_and!; [done|simpl; lia|lia].
    - intros (ns & Hns%Forall2_nil_inv_l & -> & _). subst ns. simpl. f_equal. lia. }
  assert (forall g' n, g' ∈ groups -> vgroup self g' max_cycles = Ok n -> 0 <= n) as Hpos'
    by (intros g' n Hin; apply Hpos; set_solver).
  rewrite bind_Ok. split.
  - intros (n & Hn & H). outcome_inv. unfold checked_add in *.
    match goal with Hd : (if decide _ then _ else _) = Some _ |- _ => case_decide; [injection Hd as <-|done] end.
    match goal with Hb : bool_decide _ = true |- _ => apply bool_decide_eq_true in Hb end.
    assert (0 <= n) by (apply (Hpos g); [set_solver|done]).
    apply IH in H as (ns & Hns & -> & Hle); [|lia|done].
    exists (n :: ns). split_and!; [by constructor|simpl; lia|lia].
  - intros (ns & Hns & -> & Hle). inversion Hns as [|? n ? ns' Hn Hns']; subst. simpl in Hle.
    assert (0 <= n) by (apply (Hpos g); [set_solver|done]).
    assert (0 <= sum_z ns').
    { apply sum_z_nonneg, Forall_forall. intros x Hx. apply list_elem_of_lookup in Hx as [k Hk].
      destruct (Forall2_lookup_r _ _ _ _ _ Hns' Hk) as (g' & Hg' & Hx).
      apply (Hpos' g'); [by apply list_elem_of_lookup_2 in Hg'|done]. }
    exists n. split; [done|]. unfold checked_add. rewrite decide_True by lia. cbn [ok_or].
    rewrite bind_ret_l, bool_decide_eq_true_2 by lia. cbn [ensure]. rewrite bind_ret_l.
    apply IH; [lia|done|]. exists ns'. split_and!; [done|simpl; lia|simpl; lia].
Qed.
End run_groups.

(** ** What a successful verification means *)
Definition machine_ok (machine_run : ResolvedTransaction -> Bytes -> ScriptGroup -> Z -> Z + (Z * Z)) : Prop :=
  forall rtx program g max_cycles code cycles,
    machine_run rtx program g max_cycles = inr (code, cycles) -> 0 <= cycles < U64_SIZE.

Definition lists_values (values : gmap Z ScriptGroup -> list ScriptGroup) : Prop :=
  forall m, values m ≡ₚ (map_to_list m).*2.

Lemma verify_group_nonneg machine_run prog dl self g max_cycles n :
  machine_ok machine_run -> verify_group machine_run prog dl self g max_cycles = Ok n -> 0 <= n.
Proof.
  intros Hm. assert (forall program r, run machine_run self program g max_cycles = Ok r -> 0 <= r) as Hrun.
  { intros program r H. unfold run in H.
    destruct (machine_run _ _ _ _) as [e|[code cycles]] eqn:Hr; [done|]. case_decide; [|done].
    injection H as <-. by eapply Hm. }
  unfold verify_group, verify_dao, verify_default_lock. case_decide; intros Hv; outcome_inv; [|by eapply Hrun].
  simplify_eq. unfold checked_add in *. case_decide; [|done]. simplify_eq.
  match goal with Hr : run _ _ _ _ _ = Ok _ |- _ => apply Hrun in Hr end. unfold SYSTEM_DAO_CYCLES. lia.
Qed.

Section sound.
Context (blake2b : Bytes -> H256).
Context (machine_run : ResolvedTransaction -> Bytes -> ScriptGroup -> Z -> Z + (Z * Z)).
Context (default_lock_program : option Bytes) (data_loader : DataLoader).
Local Abbreviation vscripts := (verify_scripts blake2b machine_run default_lock_program data_loader).
Local Abbreviation vgroup := (verify_group machine_run default_lock_program data_loader).

Lemma elem_of_values values m g :
  lists_values values -> g ∈ values m <-> exists h, m !! h = Some g.
Proof.
  intros Hv. rewrite (Hv m), list_elem_of_fmap. split.
  - intros ([h g'] & -> & Hin%elem_of_map_to_list). by exists h.
  - intros [h Hg]. exists (h, g). split; [done|]. by apply elem_of_map_to_list.
Qed.

Lemma verify_scripts_Ok values rtx max_cycles r :
  machine_ok machine_run -> 0 <= max_cycles < U64_SIZE ->
  vscripts values rtx max_cycles = Ok r <->
  exists self ns, TransactionScriptsVerifier_new blake2b data_loader rtx = Ok self /\
    try_for_each (check_resolved data_loader self) (rtx_inputs (vs_rtx self)) = Ok tt /\
    Forall2 (fun g n => vgroup self g max_cycles = Ok n)
      (values (vs_lock_groups self) ++ values (vs_type_groups self)) ns /\
    r = sum_z ns /\ r <= max_cycles.
Proof.
  intros Hm Hmax. unfold verify_scripts, TransactionScriptsVerifier_verify.
  assert (forall self (groups : list ScriptGroup) g n, g ∈ groups -> vgroup self g max_cycles = Ok n -> 0 <= n) as Hpos
    by (intros; by eapply verify_group_nonneg). split.
  - intros H. apply bind_Ok in H as (self & Hs & H). apply bind_Ok in H as ([] & Hc & H).
    apply verify_groups_Ok in H as (ns & Hns & -> & Hle); [|lia|lia|by apply Hpos].
    exists self, ns. split_and!; [done|done|done|lia|lia].
  - intros (self & ns & -> & Hc & Hns & -> & Hle). rewrite bind_ret_l, Hc, bind_ret_l.
    apply verify_groups_Ok; [lia|lia|by apply Hpos|]. exists ns. split_and!; [done|lia|lia].
Qed.

(** C38.  Every script of a transaction is run.  When no two different scripts
    of the transaction have the same hash and the verification succeeds, then
    the lock of every input, the type script of every input and the type script
    of every output was run, once, for a group that holds exactly the indices
    of the inputs and outputs with that script, and succeeded; every input has
    a cell or is the marker of a withdrawal; and the cycles are the sum of the
    cycles of the groups and within the limit. *)
Theorem verify_scripts_runs_all values rtx max_cycles cycles :
  machine_ok machine_run -> lists_values values -> 0 <= max_cycles < U64_SIZE ->
  (forall i j s s',
     (lock_at data_loader rtx i s /\ lock_at data_loader rtx j s') \/
     ((input_type_at data_loader rtx i s \/ output_type_at rtx i s) /\
      (input_type_at data_loader rtx j s' \/ output_type_at rtx j s')) ->
     Script_hash blake2b s = Script_hash blake2b s' -> s = s') ->
  vscripts values rtx max_cycles = Ok cycles ->
  exists self, TransactionScriptsVerifier_new blake2b data_loader rtx = Ok self /\
    (forall i s, lock_at data_loader rtx i s -> exists g n,
       sg_script g = s /\ vgroup self g max_cycles = Ok n /\
       (forall j, j ∈ sg_input_indices g <-> lock_at data_loader rtx j s)) /\
    (forall i s, input_type_at data_loader rtx i s \/ output_type_at rtx i s -> exists g n,
       sg_script g = s /\ vgroup self g max_cycles = Ok n /\
       (forall j, j ∈ sg_input_indices g <-> input_type_at data_loader rtx j s) /\
       (forall j, j ∈ sg_output_indices g <-> output_type_at rtx j s)) /\
    (forall r, r ∈ rtx_inputs rtx -> ro_cell r <> ResolvedNull) /\
    cycles <= max_cycles.
Proof.
  intros Hm Hv Hmax Hinj H. apply verify_scripts_Ok in H as (self & ns & Hnew & Hc & Hns & -> & Hle); [|done|done].
  exists self. split; [done|].
  destruct (new_grouped blake2b data_loader rtx self Hnew) as (Hrtx & li & ti & to_ & Hl & Ht & Il & Iti & Ito).
  assert (forall g, g ∈ values (vs_lock_groups self) ++ values (vs_type_groups self) ->
    exists n, vgroup self g max_cycles = Ok n) as Hrun.
  { intros g Hg. apply list_elem_of_lookup in Hg as [k Hk].
    destruct (Forall2_lookup_l _ _ _ _ _ Hns Hk) as (n & _ & ?). eauto. }
  split_and!; [..|done].
  - intros i s Hi. destruct (gr_all _ _ _ _ Hl i s) as [g Hg]; [by rewrite app_nil_r; apply Il|].
    destruct (Hrun g) as [n Hn]; [apply elem_of_app; left; apply elem_of_values; eauto|].
    destruct (gr_script _ _ _ _ Hl _ _ Hg) as [Hh [j Hj]]. rewrite app_nil_r, Il in Hj.
    assert (sg_script g = s) as Hs by (apply (Hinj j i); [left|]; done).
    exists g, n. split_and!; [done|done|]. intros k. rewrite (gr_inputs _ _ _ _ Hl _ _ k Hg).
    setoid_rewrite Il. split; [|eauto]. intros (s' & Hk & Heq). by rewrite <- (Hinj k i s' s); [|left|].
  - intros i s Hi. destruct (gr_all _ _ _ _ Ht i s) as [g Hg]; [by rewrite elem_of_app, Iti, Ito|].
    destruct (Hrun g) as [n Hn]; [apply elem_of_app; right; apply elem_of_values; eauto|].
    destruct (gr_script _ _ _ _ Ht _ _ Hg) as [Hh [j Hj]]. rewrite elem_of_app, Iti, Ito in Hj.
    assert (sg_script g = s) as Hs by (apply (Hinj j i); [right|]; done).
    exists g, n. split_and!; [done|done|..]; intros k;
      [rewrite (gr_inputs _ _ _ _ Ht _ _ k Hg); setoid_rewrite Iti|rewrite (gr_outputs _ _ _ _ Ht _ _ k Hg); setoid_rewrite Ito];
      (split; [|eauto]); intros (s' & Hk & Heq); rewrite <- (Hinj k i s' s); auto.
  - intros r Hr Hnull. rewrite Hrtx in Hc. apply list_elem_of_lookup in Hr as [k Hk].
    pose proof (proj1 (try_for_each_Ok _ _) Hc) as Hall. rewrite Forall_forall in Hall.
    specialize (Hall r). unfold check_resolved in Hall. rewrite Hnull in Hall.
    specialize (Hall ltac:(by apply list_elem_of_lookup_2 in Hk)). done.
Qed.

(** Whether a transaction is accepted, and its cycles, do not depend on
    the order in which the hash maps list the groups. *)
Theorem verify_scripts_order values1 values2 rtx max_cycles cycles :
  machine_ok machine_run -> lists_values values1 -> lists_values values2 -> 0 <= max_cycles < U64_SIZE ->
  vscripts values1 rtx max_cycles = Ok cycles <-> vscripts values2 rtx max_cycles = Ok cycles.
Proof.
  intros Hm H1 H2 Hmax. rewrite !verify_scripts_Ok by done.
  assert (forall va vb, lists_values va -> lists_values vb ->
    (exists self ns, TransactionScriptsVerifier_new blake2b data_loader rtx = Ok self /\
      try_for_each (check_resolved data_loader self) (rtx_inputs (vs_rtx self)) = Ok tt /\
      Forall2 (fun g n => vgroup self g max_cycles = Ok n)
        (va (vs_lock_groups self) ++ va (vs_type_groups self)) ns /\ cycles = sum_z ns /\ cycles <= max_cycles) ->
    exists self ns, TransactionScriptsVerifier_new blake2b data_loader rtx = Ok self /\
      try_for_each (check_resolved data_loader self) (rtx_inputs (vs_rtx self)) = Ok tt /\
      Forall2 (fun g n => vgroup self g max_cycles = Ok n)
        (vb (vs_lock_groups self) ++ vb (vs_type_groups self)) ns /\ cycles = sum_z ns /\ cycles <= max_cycles) as Hgen.
  { intros va vb Ha Hb (self & ns & Hnew & Hc & Hns & Hsum & Hle).
    destruct (Forall2_perm _ _ (vb (vs_lock_groups self) ++ vb (vs_type_groups self)) _ Hns) as (ns' & Hp & Hns').
    { by rewrite (Ha (vs_lock_groups self)), (Ha (vs_type_groups self)), (Hb (vs_lock_groups self)), (Hb (vs_type_groups self)). }
    exists self, ns'. split_and!; [done|done|done|by rewrite <- (sum_z_perm _ _ Hp)|done]. }
  split; by apply Hgen.
Qed.
End sound.

(** ** Locks with the same hash *)
Module MergeExample.
(** The digest of a script does not separate its arguments. *)
Definition lock1 : Script := mkScript [[1; 2]] 5.
Definition lock2 : Script := mkScript [[1]; [2]] 5.
Definition meta (lock : Script) (i : Z) : CellMeta :=
  mkCellMeta (Some (mkCellOutput 100 [] lock None)) (mkCellOutPoint 20 i) None false 100 None.
Definition program_cell : CellMeta :=
  mkCellMeta (Some (mkCellOutput 100 [42] simple_script None)) (mkCellOutPoint 21 0) None false 100 (Some 5).
Definition rtx : ResolvedTransaction :=
  mkResolvedTx (simple_tx 30 [new_cell 20 0; new_cell 20 1] 1)
    [cell_only (meta lock1 0); cell_only (meta lock2 1)] [cell_only program_cell].
Definition loader : DataLoader := mkLoader cm_cell_output (fun _ => None).
(** A program that accepts one argument and rejects two. *)
Definition machine (rtx : ResolvedTransaction) (program : Bytes) (g : ScriptGroup) (max_cycles : Z) : Z + (Z * Z) :=
  inr (if decide (length (script_args (sg_script g)) = 1%nat) then 0 else 1, 10).
End MergeExample.

(** The hash of a script does not separate its arguments, so that a lock
    can be left out.  For every digest there are two different scripts with one
    hash; and there is a machine that rejects the second of them for whatever
    group, and a transaction with an input of each that is accepted, in whatever
    order the groups are run. *)
Theorem colliding_lock_not_run blake2b values :
  lists_values values ->
  exists s1 s2 machine loader rtx,
    s1 <> s2 /\ Script_hash blake2b s1 = Script_hash blake2b s2 /\ machine_ok machine /\
    lock_at loader rtx 0 s1 /\ lock_at loader rtx 1 s2 /\
    (forall rtx program g max_cycles, sg_script g = s2 ->
       exists code cycles, machine rtx program g max_cycles = inr (code, cycles) /\ code <> 0) /\
    verify_scripts blake2b machine None loader values rtx 1000 = Ok 10.
Proof.
  intros Hv. exists MergeExample.lock1, MergeExample.lock2, MergeExample.machine, MergeExample.loader, MergeExample.rtx.
  assert (forall g, values {[Script_hash blake2b MergeExample.lock1 := g]} = [g]) as Hsingle.
  { intros g. apply Permutation_singleton_r. by rewrite (Hv _), map_to_list_singleton. }
  assert (values ∅ = []) as Hnone.
  { apply Permutation_nil_r. by rewrite (Hv ∅), map_to_list_empty. }
  split; [done|]. split; [done|]. split; [|split; [|split; [|split]]].
  - intros rtx program g m code cycles [= _ <-]. lia.
  - exists (cell_only (MergeExample.meta MergeExample.lock1 0)), (mkCellOutput 100 [] MergeExample.lock1 None). done.
  - exists (cell_only (MergeExample.meta MergeExample.lock2 1)), (mkCellOutput 100 [] MergeExample.lock2 None). done.
  - intros rtx program g m Hg. eexists _, _. split; [done|]. by rewrite Hg.
  - unfold verify_scripts.
    assert (TransactionScriptsVerifier_new blake2b MergeExample.loader MergeExample.rtx =
      Ok (mkVerifier MergeExample.rtx {[5 := 0%nat]} ∅
            {[Script_hash blake2b MergeExample.lock1 := mkGroup MergeExample.lock1 [0; 1]%nat []]} ∅)) as ->.
    { unfold TransactionScriptsVerifier_new. cbn -[push_input push_output].
      unfold push_input at 2. unfold group_entry. rewrite lookup_empty. cbn [default].
      unfold push_input, group_entry. change (Script_hash blake2b MergeExample.lock2) with (Script_hash blake2b MergeExample.lock1).
      rewrite lookup_insert_eq. cbn. by rewrite insert_insert_eq. }
    rewrite bind_ret_l. cbn [vs_lock_groups vs_type_groups]. rewrite Hsingle, Hnone.
    vm_compute. reflexivity.
Qed.

Lemma dao_inputs_fold dl self l acc r :
  try_fold (fun acc input_index =>
      maximum_withdraw ← dao_input dl self input_index;
      map_err (fun _ => ScriptCapacityOverflow) (safe_add acc maximum_withdraw)) acc l = Ok r ->
  exists ws, Forall2 (fun i w => dao_input dl self i = Ok w) l ws /\ r = acc + sum_z ws.
Proof.
  revert acc. induction l as [|i l IH]; intros acc H; cbn [try_fold] in H.
  { injection H as <-. exists []. split; [done|simpl; lia]. }
  outcome_inv. match goal with Ha : safe_add _ _ = Ok _ |- _ => apply safe_add_Ok in Ha as [-> _] end.
  apply IH in H as (ws & Hws & ->). eexists (_ :: ws). split; [by constructor|simpl; lia].
Qed.

Lemma dao_input_Ok dl self i w :
  dao_input dl self i = Ok w ->
  exists output header deposit withdraw,
    (exists r, rtx_inputs (vs_rtx self) !! i = Some r /\ input_output dl r = Some output /\ ro_header r = Some header) /\
    script_code_hash (co_lock output) = DAO_CODE_HASH /\
    vs_block_data self !! h_hash header = Some deposit /\
    (exists h, vs_block_data self !! h = Some withdraw) /\
    deposit.1 < withdraw.1 /\
    calculate_maximum_withdraw output (dao_stats deposit.2) (dao_stats withdraw.2) = Ok w.
Proof.
  intros H. unfold dao_input in H.
  repeat (outcome_inv; match goal with p : Z * BlockExt |- _ => destruct p end). outcome_inv.
  repeat match goal with Hb : bool_decide _ = true |- _ => apply bool_decide_eq_true in Hb end.
  match goal with
  | Hr : rtx_inputs _ !! _ = Some ?r, Hl : lazy_load_cell_output _ _ = Some ?o, Hh : ro_header ?r = Some ?hd,
    Hd : vs_block_data _ !! h_hash ?hd = Some (?dn, ?de), Hlt : ?dn < ?wn,
    Hw : vs_block_data _ !! ?wh = Some (?wn, ?we), Hm : cell_meta _ = Some _ |- _ =>
      exists o, hd, (dn, de), (wn, we); unfold input_output; split_and!;
        [exists r; by rewrite Hm|done|done|by exists wh|done|done]
  end.
Qed.

(** A withdrawal does not create capacity.  When the scripts of a
    transaction with an input locked by the DAO are accepted, all its outputs
    together are at most what the inputs with that lock may withdraw, each
    between the block that has its deposit and a later block named by its
    witness. *)
Theorem verify_dao_bound machine_run prog dl self g max_cycles cycles :
  Forall (fun o => 0 <= co_capacity o) (tx_outputs (rtx_transaction (vs_rtx self))) ->
  verify_dao machine_run prog dl self g max_cycles = Ok cycles ->
  exists ws, Forall2 (fun i w => dao_input dl self i = Ok w) (sg_input_indices g) ws /\
    sum_z (co_capacity <$> tx_outputs (rtx_transaction (vs_rtx self))) <= sum_z ws /\
    Forall2 (fun i w => exists output header deposit withdraw,
        (exists r, rtx_inputs (vs_rtx self) !! i = Some r /\ input_output dl r = Some output /\ ro_header r = Some header) /\
        script_code_hash (co_lock output) = DAO_CODE_HASH /\
        vs_block_data self !! h_hash header = Some deposit /\
        (exists h, vs_block_data self !! h = Some withdraw) /\
        deposit.1 < withdraw.1 /\
        calculate_maximum_withdraw output (dao_stats deposit.2) (dao_stats withdraw.2) = Ok w)
      (sg_input_indices g) ws.
Proof.
  intros Hout H. unfold verify_dao in H. outcome_inv.
  match goal with Hf : try_fold _ _ _ = Ok ?t |- _ => apply dao_inputs_fold in Hf as (ws & Hws & ->) end.
  exists ws. split; [done|].
  match goal with Hs : safe_sum _ = Ok _ |- _ => apply safe_sum_Ok in Hs as [-> _]; [|by apply Forall_fmap] end.
  repeat match goal with Hb : bool_decide _ = true |- _ => apply bool_decide_eq_true in Hb end.
  split; [lia|]. eapply Forall2_impl; [exact Hws|]. intros i w Hw. by apply dao_input_Ok.
Qed.

(** ** Examples *)
Module ScriptExample.
Definition digest (b : Bytes) : H256 := le_combine b.
Definition values (m : gmap Z ScriptGroup) : list ScriptGroup := (map_to_list m).*2.
Definition lock : Script := mkScript [[1; 2]] 5.
Definition rtx : ResolvedTransaction :=
  mkResolvedTx (simple_tx 30 [new_cell 20 0; new_cell 20 1] 1)
    [cell_only (MergeExample.meta lock 0); cell_only (MergeExample.meta lock 1)]
    [cell_only MergeExample.program_cell].

Lemma values_ok : lists_values values.
Proof. intros m. done. Qed.
Lemma reverse_values_ok : lists_values (fun m => reverse (values m)).
Proof. intros m. apply reverse_Permutation. Qed.
Lemma ex_machine_ok : machine_ok MergeExample.machine.
Proof. intros rtx program g m code cycles [= _ <-]. lia. Qed.
Lemma lock_at_inv i s : lock_at MergeExample.loader rtx i s -> s = lock.
Proof. intros (r & o & Hr & Ho & <-). destruct i as [|[|i]]; [..|done]; injection Hr as <-; by injection Ho as <-. Qed.
Lemma input_type_inv i s : ~ input_type_at MergeExample.loader rtx i s.
Proof. intros (r & o & Hr & Ho & Ht). destruct i as [|[|i]]; [..|done]; injection Hr as <-; by injection Ho as <-. Qed.
Lemma output_type_inv i s : ~ output_type_at rtx i s.
Proof. intros (o & Ho & Ht). destruct i as [|i]; [|done]. by injection Ho as <-. Qed.

(** A withdrawal of a deposit of block 10 at block 25. *)
Definition dao_lock : Script := mkScript [[9]] DAO_CODE_HASH.
Definition deposit_header : Header := simple_header 10 109 110.
Definition bext (ar : Z) : BlockExt := mkBlockExt 0 1 0 (Some true) (mkDaoStats ar 500000000000000000) [].
Definition dao_meta : CellMeta :=
  mkCellMeta (Some (mkCellOutput 100000000000000 [] dao_lock None)) (mkCellOutPoint 20 0) (Some (mkBlockInfo 10 0)) false 100000000000000 None.
Definition dao_tx : Transaction :=
  mkTransaction 0 [] [mkCellInput (mkOutPoint (Some (mkCellOutPoint 20 0)) (Some 110)) 31]
    [simple_output 100000000000500] [[[1]; [2]; h256_as_bytes 125]] 40 40.
Definition dao_self : VerifierState :=
  mkVerifier (mkResolvedTx dao_tx [cell_and_header dao_meta deposit_header] []) ∅
    {[110 := (10, bext 10000000000000000); 125 := (25, bext 10000000000100000)]} ∅ ∅.
Definition dao_group : ScriptGroup := mkGroup dao_lock [0%nat] [].
End ScriptExample.

Lemma verify_scripts_runs_all_witness :
  exists self, TransactionScriptsVerifier_new ScriptExample.digest MergeExample.loader ScriptExample.rtx = Ok self /\
    exists g n, sg_script g = ScriptExample.lock /\
      verify_group MergeExample.machine None MergeExample.loader self g 1000 = Ok n.
Proof.
  destruct (verify_scripts_runs_all ScriptExample.digest MergeExample.machine None MergeExample.loader
    ScriptExample.values ScriptExample.rtx 1000 10 ScriptExample.ex_machine_ok ScriptExample.values_ok
    ltac:(lia)) as (self & Hnew & Hl & _).
  - intros i j s s' [[Hs Hs']|[[Hs|Hs] _]] _.
    + apply ScriptExample.lock_at_inv in Hs, Hs'. congruence.
    + by apply ScriptExample.input_type_inv in Hs.
    + by apply ScriptExample.output_type_inv in Hs.
  - vm_compute. reflexivity.
  - exists self. split; [exact Hnew|].
    destruct (Hl 0%nat ScriptExample.lock) as (g & n & Hg & Hn & _).
    + exists (cell_only (MergeExample.meta ScriptExample.lock 0)), (mkCellOutput 100 [] ScriptExample.lock None). done.
    + exists g, n. split; [exact Hg|exact Hn].
Defined.

Lemma verify_scripts_order_witness :
  verify_scripts ScriptExample.digest MergeExample.machine None MergeExample.loader
    (fun m => reverse (ScriptExample.values m)) ScriptExample.rtx 1000 = Ok 10.
Proof.
  apply (verify_scripts_order ScriptExample.digest MergeExample.machine None MergeExample.loader
    ScriptExample.values (fun m => reverse (ScriptExample.values m)) ScriptExample.rtx 1000 10
    ScriptExample.ex_machine_ok ScriptExample.values_ok ScriptExample.reverse_values_ok ltac:(lia)).
  vm_compute. reflexivity.
Defined.

Lemma colliding_lock_not_run_witness :
  exists s1 s2 machine loader rtx,
    s1 <> s2 /\ Script_hash ScriptExample.digest s1 = Script_hash ScriptExample.digest s2 /\ machine_ok machine /\
    lock_at loader rtx 0 s1 /\ lock_at loader rtx 1 s2 /\
    (forall rtx program g max_cycles, sg_script g = s2 ->
       exists code cycles, machine rtx program g max_cycles = inr (code, cycles) /\ code <> 0) /\
    verify_scripts ScriptExample.digest machine None loader ScriptExample.values rtx 1000 = Ok 10.
Proof. apply (colliding_lock_not_run ScriptExample.digest ScriptExample.values ScriptExample.values_ok). Defined.

Lemma verify_dao_bound_witness :
  exists ws, Forall2 (fun i w => dao_input MergeExample.loader ScriptExample.dao_self i = Ok w) [0%nat] ws /\
    100000000000500 <= sum_z ws.
Proof.
  destruct (verify_dao_bound MergeExample.machine (Some [42]) MergeExample.loader ScriptExample.dao_self
    ScriptExample.dao_group 100000 5010) as (ws & Hws & Hle & _).
  - by_compute.
  - vm_compute. reflexivity.
  - exists ws. split; [exact Hws|exact Hle].
Defined.
