(* ===== verification/TxVerify.v ===== *)
(** * Verification of transactions

    [verification/src/transaction_verifier.rs]: the checks of a resolved
    transaction, among them the time locks of its inputs. *)
From S2P Require Import Prelude Sums Capacity ByteStrings Transactions Blocks Fixtures CellSet Cells Epochs ChainStore VerifyErrors Dao MedianTime Scripts.

Definition TxVersion_verify (transaction : Transaction) : outcome TransactionError unit :=
  if decide (tx_version transaction ≠ TX_VERSION) then Err TxVersion else Ok tt.

Definition SizeVerifier_verify (transaction : Transaction) (block_bytes_limit : Z) : outcome TransactionError unit :=
  let size := cast U64_SIZE (Transaction_serialized_size transaction) in
  if decide (size <= block_bytes_limit) then Ok tt else Err TxExceededMaximumBlockBytes.

Definition EmptyVerifier_verify (transaction : Transaction) : outcome TransactionError unit :=
  if tx_is_empty transaction then Err TxEmpty else Ok tt.

(** [Iterator::any] for a closure that can panic. *)
Fixpoint try_any {E A} (f : A -> outcome E bool) (l : list A) : outcome E bool :=
  match l with
  | [] => Ok false
  | a :: l => b ← f a; if (b : bool) then Ok true else try_any f l
  end.

Definition cellbase_immature {E} (block_number cellbase_maturity : Z) (meta : CellMeta) : outcome E bool :=
  if cm_cellbase meta then
    info ← expect (cm_block_info meta);
    limit ← bi_number info +64 cellbase_maturity;
    Ok (bool_decide (block_number < limit))
  else Ok false.

Definition MaturityVerifier_verify (rtx : ResolvedTransaction) (block_number maturity : Z)
    : outcome TransactionError unit :=
  let metas l := omap (fun o => cell_meta (ro_cell o)) l in
  input_immature ← try_any (cellbase_immature block_number maturity) (metas (rtx_inputs rtx));
  immature ← if (input_immature : bool) then Ok true
             else try_any (cellbase_immature block_number maturity) (metas (rtx_deps rtx));
  if (immature : bool) then Err CellbaseImmaturity else Ok tt.

(** [iter().all(|id| seen.insert(id))] *)
Fixpoint all_new {A} `{Countable A} (seen : gset A) (l : list A) : bool :=
  match l with
  | [] => true
  | a :: l => if decide (a ∈ seen) then false else all_new ({[a]} ∪ seen) l
  end.

Definition DuplicateDepsVerifier_verify (transaction : Transaction) : outcome TransactionError unit :=
  if all_new ∅ (tx_deps transaction) then Ok tt else Err DuplicateDeps.

Definition CapacityVerifier_verify (rtx : ResolvedTransaction) : outcome TransactionError unit :=
  let tx := rtx_transaction rtx in
  _ ← (if rtx_is_cellbase rtx || is_withdrawing_from_dao tx then Ok tt
       else
         inputs_total ← map_err tx_capacity_error
           (safe_sum ((fun o => from_option cm_capacity 0 (cell_meta (ro_cell o))) <$> rtx_inputs rtx));
         outputs_total ← map_err tx_capacity_error (safe_sum (co_capacity <$> tx_outputs tx));
         if decide (inputs_total < outputs_total) then Err OutputsSumOverflow else Ok tt);
  try_for_each (fun output =>
    lack ← map_err tx_capacity_error (is_lack_of_capacity output);
    if (lack : bool) then Err InsufficientCellCapacity else Ok tt) (tx_outputs tx).

(** ** Time locks *)
Definition LOCK_TYPE_FLAG : Z := Z.shiftl 1 63.
Definition METRIC_TYPE_FLAG_MASK : Z := 0x6000000000000000.
Definition VALUE_MASK : Z := 0x00ffffffffffffff.
Definition REMAIN_FLAGS_BITS : Z := 0x1f00000000000000.

Inductive SinceMetric :=
| SinceBlockNumber (n : Z)
| SinceEpochNumber (n : Z)
| SinceTimestamp (t : Z).

Definition is_absolute (since : Z) : bool := bool_decide (Z.land since LOCK_TYPE_FLAG = 0).
Definition is_relative (since : Z) : bool := negb (is_absolute since).

Definition flags_is_valid (since : Z) : bool :=
  bool_decide (Z.land since REMAIN_FLAGS_BITS = 0)
  && bool_decide (Z.land since METRIC_TYPE_FLAG_MASK ≠ Z.shiftl 0x60 56).

Definition extract_metric {E} (since : Z) : outcome E (option SinceMetric) :=
  let value := Z.land since VALUE_MASK in
  let metric := Z.land since METRIC_TYPE_FLAG_MASK in
  if decide (metric = 0) then Ok (Some (SinceBlockNumber value))
  else if decide (metric = 0x2000000000000000) then Ok (Some (SinceEpochNumber value))
  else if decide (metric = 0x4000000000000000) then
    timestamp ← value *64 1000; Ok (Some (SinceTimestamp timestamp))
  else Ok None.

Section since.
Context (median_time_context : BlockMedianTimeContext) (block_number epoch_number : Z).

(** [SinceVerifier::block_median_time]; its cache keeps what this returned. *)
Definition since_median_time {E} (n : Z) : outcome E Z :=
  match median_get_block_hash median_time_context n with
  | Some block_hash => block_median_time median_time_context n block_hash
  | None => Ok 0
  end.

Definition verify_absolute_lock (since : Z) : outcome TransactionError unit :=
  if is_absolute since then
    metric ← extract_metric since;
    match metric with
    | Some (SinceBlockNumber n) => if decide (block_number < n) then Err Immature else Ok tt
    | Some (SinceEpochNumber n) => if decide (epoch_number < n) then Err Immature else Ok tt
    | Some (SinceTimestamp timestamp) =>
        tip_timestamp ← since_median_time (saturating_sub block_number 1);
        if decide (tip_timestamp < timestamp) then Err Immature else Ok tt
    | None => Err InvalidSince
    end
  else Ok tt.

Definition verify_relative_lock (since : Z) (meta : CellMeta) : outcome TransactionError unit :=
  if is_relative since then
    info ← ok_or (cm_block_info meta) Immature;
    let cell_block_number := bi_number info in
    let cell_epoch_number := bi_epoch info in
    metric ← extract_metric since;
    match metric with
    | Some (SinceBlockNumber n) =>
        limit ← cell_block_number +64 n;
        if decide (block_number < limit) then Err Immature else Ok tt
    | Some (SinceEpochNumber n) =>
        limit ← cell_epoch_number +64 n;
        if decide (epoch_number < limit) then Err Immature else Ok tt
    | Some (SinceTimestamp timestamp) =>
        cell_median_timestamp ← since_median_time (saturating_sub cell_block_number 1);
        current_median_time ← since_median_time (saturating_sub block_number 1);
        limit ← cell_median_timestamp +64 timestamp;
        if decide (current_median_time < limit) then Err Immature else Ok tt
    | None => Err InvalidSince
    end
  else Ok tt.

Definition verify_since_input (p : ResolvedOutPoint * CellInput) : outcome TransactionError unit :=
  match cell_meta (ro_cell p.1) with
  | None => Ok tt
  | Some meta =>
      let since := ci_since p.2 in
      if decide (since = 0) then Ok tt
      else if negb (flags_is_valid since) then Err InvalidSince
      else _ ← verify_absolute_lock since; verify_relative_lock since meta
  end.

Definition SinceVerifier_verify (rtx : ResolvedTransaction) : outcome TransactionError unit :=
  try_for_each verify_since_input (zip (rtx_inputs rtx) (tx_inputs (rtx_transaction rtx))).

Definition ContextualTransactionVerifier_verify (consensus : Consensus) (rtx : ResolvedTransaction)
    : outcome TransactionError unit :=
  _ ← MaturityVerifier_verify rtx block_number (cellbase_maturity consensus);
  SinceVerifier_verify rtx.

(** [script_verify] is the verification of the scripts in a store. *)
Definition TransactionVerifier_verify (consensus : Consensus)
    (script_verify : ResolvedTransaction -> Z -> outcome ScriptError Z)
    (rtx : ResolvedTransaction) (max_cycles : Z) : outcome TransactionError Z :=
  let tx := rtx_transaction rtx in
  _ ← TxVersion_verify tx;
  _ ← SizeVerifier_verify tx (max_block_bytes consensus);
  _ ← EmptyVerifier_verify tx;
  _ ← MaturityVerifier_verify rtx block_number (cellbase_maturity consensus);
  _ ← CapacityVerifier_verify rtx;
  _ ← DuplicateDepsVerifier_verify tx;
  _ ← SinceVerifier_verify rtx;
  map_err ScriptFailure (script_verify rtx max_cycles).
End since.

(** ** The layout of [since] *)
Lemma land_field x w k :
  0 <= k -> 0 <= w -> Z.land x (Z.shiftl (Z.ones w) k) = ((x / 2 ^ k) mod 2 ^ w) * 2 ^ k.
Proof.
  intros Hk Hw. rewrite <- Z.land_ones, <- Z.shiftr_div_pow2, <- Z.shiftl_mul_pow2 by done.
  apply Z.bits_inj'. intros n Hn. rewrite Z.land_spec, !Z.shiftl_spec by done.
  destruct (decide (n < k)).
  - rewrite !(Z.testbit_neg_r _ (n - k)) by lia. by rewrite andb_false_r.
  - rewrite Z.land_spec, Z.shiftr_spec by lia. by replace (n - k + k) with n by lia.
Qed.

Definition since_value (since : Z) : Z := since mod 2 ^ 56.
Definition since_reserved (since : Z) : Z := (since / 2 ^ 56) mod 32.
Definition since_metric (since : Z) : Z := (since / 2 ^ 61) mod 4.

Lemma is_absolute_spec since : u64 since -> is_absolute since = bool_decide (since < 2 ^ 63).
Proof.
  intros [H1 H2]. unfold is_absolute, LOCK_TYPE_FLAG. change (Z.shiftl 1 63) with (Z.shiftl (Z.ones 1) 63).
  rewrite land_field by lia. apply bool_decide_ext. change (2 ^ 1) with 2.
  assert (since / 2 ^ 63 = if decide (since < 2 ^ 63) then 0 else 1) as ->; [|case_decide; [change (0 mod 2) with 0|change (1 mod 2) with 1]; lia].
  case_decide; [by apply Z.div_small|]. symmetry. apply (Z.div_unique _ _ _ (since - 2 ^ 63)); lia.
Qed.

Lemma flags_is_valid_spec since :
  flags_is_valid since = bool_decide (since_reserved since = 0 /\ since_metric since <> 3).
Proof.
  unfold flags_is_valid, REMAIN_FLAGS_BITS, METRIC_TYPE_FLAG_MASK, since_reserved, since_metric.
  change 0x1f00000000000000 with (Z.shiftl (Z.ones 5) 56). change 0x6000000000000000 with (Z.shiftl (Z.ones 2) 61).
  rewrite !land_field by lia. change (2 ^ 5) with 32. change (2 ^ 2) with 4.
  rewrite <- bool_decide_and. apply bool_decide_ext. change (Z.shiftl 96 56) with (3 * 2 ^ 61). lia.
Qed.

Lemma extract_metric_spec {E} since :
  extract_metric (E := E) since =
  if decide (since_metric since = 0) then Ok (Some (SinceBlockNumber (since_value since)))
  else if decide (since_metric since = 1) then Ok (Some (SinceEpochNumber (since_value since)))
  else if decide (since_metric since = 2) then
    if decide (since_value since * 1000 < U64_SIZE) then Ok (Some (SinceTimestamp (since_value since * 1000)))
    else Panic
  else Ok None.
Proof.
  unfold extract_metric, METRIC_TYPE_FLAG_MASK, VALUE_MASK.
  change 0x00ffffffffffffff with (Z.ones 56). rewrite Z.land_ones by lia. fold (since_value since).
  change 0x6000000000000000 with (Z.shiftl (Z.ones 2) 61). rewrite !land_field by lia.
  change (2 ^ 2) with 4. fold (since_metric since).
  unfold mul_w. repeat case_decide; try done; lia.
Qed.

(** When a [since] is satisfied: the lock counts from zero or from the block of
    the cell; [mt] are the median times of the blocks. *)
Definition since_unlocked (mt : Z -> Z) (block_number epoch_number : Z) (meta : CellMeta) (since : Z) : Prop :=
  since_reserved since = 0 /\
  exists block epoch time,
    (if decide (since < 2 ^ 63) then block = 0 /\ epoch = 0 /\ time = 0
     else exists info, cm_block_info meta = Some info /\ block = bi_number info /\ epoch = bi_epoch info /\
       time = mt (Z.max 0 (bi_number info - 1))) /\
    ((since_metric since = 0 /\ block + since_value since <= block_number) \/
     (since_metric since = 1 /\ epoch + since_value since <= epoch_number) \/
     (since_metric since = 2 /\ time + since_value since * 1000 <= mt (Z.max 0 (block_number - 1)))).

(** Block numbers, epoch numbers and median times far from the end of the
    range, and a time that can be multiplied. *)
Definition since_in_range (mt : Z -> Z) (meta : CellMeta) (since : Z) : Prop :=
  u64 since /\ (since_metric since = 2 -> since_value since < 2 ^ 53) /\ (forall n, 0 <= mt n < 2 ^ 63) /\
  (forall info, cm_block_info meta = Some info -> 0 <= bi_number info < 2 ^ 63 /\ 0 <= bi_epoch info < 2 ^ 63).

Lemma since_metric_range since : 0 <= since_metric since < 4.
Proof. apply Z.mod_pos_bound. lia. Qed.
Lemma since_value_range since : 0 <= since_value since < 2 ^ 56.
Proof. apply Z.mod_pos_bound. lia. Qed.

Lemma verify_locks_Ok ctx bn en mt meta since :
  (forall n, since_median_time (E := TransactionError) ctx n = Ok (mt n)) ->
  since_in_range mt meta since -> since_reserved since = 0 -> since_metric since <> 3 ->
  (_ ← verify_absolute_lock ctx bn en since; verify_relative_lock ctx bn en since meta) = Ok tt <->
  since_unlocked mt bn en meta since.
Proof.
  intros Hmt (Hs & Hts & Hmtr & Hinfo) Hres Hm3. pose proof (since_metric_range since). pose proof (since_value_range since).
  unfold verify_absolute_lock, verify_relative_lock, is_relative, since_unlocked, saturating_sub.
  rewrite is_absolute_spec, extract_metric_spec by done. rewrite !Hmt.
  specialize (Hmtr (Z.max 0 (bn - 1))) as Hcur.
  destruct (decide (since < 2 ^ 63)) as [Habs|Hrel].
  - rewrite bool_decide_eq_true_2 by done. cbn [negb].
    assert (forall m : outcome TransactionError unit, (_ ← m; Ok tt) = Ok tt <-> m = Ok tt) as Hb
      by (intros [[]| |]; naive_solver).
    rewrite Hb. repeat (case_decide; try lia); rewrite ?bind_ret_l; repeat case_decide;
      (split; [intros Hx; first [discriminate Hx|split; [done|]; exists 0, 0, 0; split; [done|]; lia]
              |intros (_ & b & e & t & (-> & -> & ->) & Hc); (done || lia)]).
  - rewrite bool_decide_eq_false_2 by done. cbn [negb]. rewrite bind_ret_l.
    destruct (cm_block_info meta) as [info|]; cbn [ok_or];
      [|split; [done|intros (_ & b & e & t & (info & Hi & _) & _); done]].
    specialize (Hinfo info eq_refl) as [Hb He]. pose proof (Hmtr (Z.max 0 (bi_number info - 1))) as Hc0.
    rewrite bind_ret_l. repeat (case_decide; try lia); rewrite ?bind_ret_l; outcome_arith; rewrite ?Hmt; outcome_arith; case_decide;
      (split; [intros Hx; first [discriminate Hx|split; [done|];
                exists (bi_number info), (bi_epoch info), (mt (Z.max 0 (bi_number info - 1)));
                split; [by exists info|]; lia]
              |intros (_ & b & e & t & (info' & [= <-] & -> & -> & ->) & Hc); (done || lia)]).
Qed.

(** The checks of the inputs, one by one. *)
Lemma SinceVerifier_Ok ctx bn en mt rtx :
  (forall n, since_median_time (E := TransactionError) ctx n = Ok (mt n)) ->
  (forall r input meta, (r, input) ∈ zip (rtx_inputs rtx) (tx_inputs (rtx_transaction rtx)) ->
     cell_meta (ro_cell r) = Some meta -> since_in_range mt meta (ci_since input)) ->
  SinceVerifier_verify ctx bn en rtx = Ok tt <->
  forall r input meta, (r, input) ∈ zip (rtx_inputs rtx) (tx_inputs (rtx_transaction rtx)) ->
    cell_meta (ro_cell r) = Some meta -> ci_since input <> 0 -> since_unlocked mt bn en meta (ci_since input).
Proof.
  intros Hmt Hrange. unfold SinceVerifier_verify. rewrite try_for_each_Ok, Forall_forall.
  split; intros H.
  - intros r input meta Hin Hm Hs. specialize (H (r, input) Hin). unfold verify_since_input in H.
    cbn [fst snd] in H. rewrite Hm, decide_False in H by done. rewrite flags_is_valid_spec in H.
    case_bool_decide as Hf; [|done]. cbn [negb] in H.
    apply (verify_locks_Ok ctx bn en mt); [done|by eapply Hrange|apply Hf|apply Hf|exact H].
  - intros [r input] Hin. unfold verify_since_input. cbn [fst snd].
    destruct (cell_meta (ro_cell r)) as [meta|] eqn:Hm; [|done]. case_decide as Hs; [done|].
    specialize (H r input meta Hin Hm Hs). rewrite flags_is_valid_spec.
    assert (since_reserved (ci_since input) = 0 /\ since_metric (ci_since input) <> 3) as Hf.
    { split; [apply H|]. destruct H as (_ & b & e & t & _ & Hc). lia. }
    rewrite bool_decide_eq_true_2 by done. cbn [negb].
    apply (verify_locks_Ok ctx bn en mt); [done|by eapply Hrange|apply Hf|apply Hf|done].
Qed.

Lemma try_any_Ok {E A} (f : A -> outcome E bool) l :
  try_any f l = Ok false <-> Forall (fun a => f a = Ok false) l.
Proof.
  induction l as [|a l IH]; cbn [try_any]; [by split|]. rewrite Forall_cons, <- IH.
  destruct (f a) as [[]| |]; simpl; naive_solver.
Qed.

Lemma MaturityVerifier_Ok rtx bn maturity :
  MaturityVerifier_verify rtx bn maturity = Ok tt <->
  Forall (fun o => forall meta, cell_meta (ro_cell o) = Some meta ->
    cellbase_immature (E := TransactionError) bn maturity meta = Ok false) (rtx_inputs rtx ++ rtx_deps rtx).
Proof.
  unfold MaturityVerifier_verify.
  assert (forall l, try_any (cellbase_immature (E := TransactionError) bn maturity)
      (omap (fun o => cell_meta (ro_cell o)) l) = Ok false <->
    Forall (fun o => forall meta, cell_meta (ro_cell o) = Some meta ->
      cellbase_immature (E := TransactionError) bn maturity meta = Ok false) l) as Hany.
  { intros l. rewrite try_any_Ok, !Forall_forall. setoid_rewrite list_elem_of_omap. naive_solver. }
  rewrite Forall_app, <- !Hany.
  destruct (try_any _ (omap _ (rtx_inputs rtx))) as [[]| |]; simpl; [naive_solver| |naive_solver..].
  destruct (try_any _ _) as [[]| |]; simpl; naive_solver.
Qed.

(** What the contextual checks accept.  For numbers away from the end of
    the range, a transaction is accepted for a block exactly when every cellbase
    cell it spends or depends on is as old as the maturity, and every input that
    has a cell and a nonzero [since] has zero reserved bits and the block
    number, the epoch number or the median time of the chain has reached its
    value, counted from zero for an absolute lock and from the block of the cell
    for a relative one. *)
Theorem ContextualTransactionVerifier_iff ctx bn en c mt rtx :
  (forall n, since_median_time (E := TransactionError) ctx n = Ok (mt n)) ->
  (forall r input meta, (r, input) ∈ zip (rtx_inputs rtx) (tx_inputs (rtx_transaction rtx)) ->
     cell_meta (ro_cell r) = Some meta -> since_in_range mt meta (ci_since input)) ->
  (forall o meta, o ∈ rtx_inputs rtx ++ rtx_deps rtx -> cell_meta (ro_cell o) = Some meta ->
     cm_cellbase meta = true ->
     exists info, cm_block_info meta = Some info /\ bi_number info + cellbase_maturity c < U64_SIZE) ->
  ContextualTransactionVerifier_verify ctx bn en c rtx = Ok tt <->
  (forall o meta info, o ∈ rtx_inputs rtx ++ rtx_deps rtx -> cell_meta (ro_cell o) = Some meta ->
     cm_cellbase meta = true -> cm_block_info meta = Some info -> bi_number info + cellbase_maturity c <= bn) /\
  (forall r input meta, (r, input) ∈ zip (rtx_inputs rtx) (tx_inputs (rtx_transaction rtx)) ->
     cell_meta (ro_cell r) = Some meta -> ci_since input <> 0 -> since_unlocked mt bn en meta (ci_since input)).
Proof.
  intros Hmt Hrange Hcb. rewrite <- (SinceVerifier_Ok ctx bn en mt rtx Hmt Hrange).
  assert (MaturityVerifier_verify rtx bn (cellbase_maturity c) = Ok tt <->
    forall o meta info, o ∈ rtx_inputs rtx ++ rtx_deps rtx -> cell_meta (ro_cell o) = Some meta ->
     cm_cellbase meta = true -> cm_block_info meta = Some info -> bi_number info + cellbase_maturity c <= bn) as <-.
  { rewrite MaturityVerifier_Ok, Forall_forall. unfold cellbase_immature. split.
    - intros H o meta info Ho Hm Hc Hi. specialize (H o Ho meta Hm). rewrite Hc, Hi in H.
      outcome_inv. subst. simplify_eq. apply bool_decide_eq_false in H. lia.
    - intros H o Ho meta Hm. destruct (cm_cellbase meta) eqn:Hc; [|done].
      destruct (Hcb o meta Ho Hm Hc) as (info & Hi & Hlt). specialize (H o meta info Ho Hm Hc Hi).
      rewrite Hi. cbn [expect]. outcome_arith. by rewrite bool_decide_eq_false_2 by lia. }
  unfold ContextualTransactionVerifier_verify. rewrite bind_Ok. split.
  - intros ([] & ? & ?). done.
  - intros [? ?]. by exists tt.
Qed.

(** A transaction that is mature stays mature.  If the contextual checks,
    of the maturity of spent cellbases and of the time locks, accept a
    transaction for a block, they accept it for every later block of a chain
    whose epochs and median times do not go back. *)
Theorem contextual_checks_monotone ctx ctx' c mt mt' bn en bn' en' rtx :
  (forall n, since_median_time (E := TransactionError) ctx n = Ok (mt n)) ->
  (forall n, since_median_time (E := TransactionError) ctx' n = Ok (mt' n)) ->
  0 <= bn <= bn' -> en <= en' ->
  (forall n, n < bn -> mt' n = mt n) ->
  mt (Z.max 0 (bn - 1)) <= mt' (Z.max 0 (bn' - 1)) ->
  (forall r input meta, (r, input) ∈ zip (rtx_inputs rtx) (tx_inputs (rtx_transaction rtx)) ->
     cell_meta (ro_cell r) = Some meta -> since_in_range mt meta (ci_since input) /\
     since_in_range mt' meta (ci_since input) /\
     (forall info, cm_block_info meta = Some info -> bi_number info < bn)) ->
  ContextualTransactionVerifier_verify ctx bn en c rtx = Ok tt ->
  ContextualTransactionVerifier_verify ctx' bn' en' c rtx = Ok tt.
Proof.
  intros Hmt Hmt' Hbn Hen Hsame Hcur Hr H. unfold ContextualTransactionVerifier_verify in *.
  apply bind_Ok in H as ([] & Hmat & Hsince).
  assert (MaturityVerifier_verify rtx bn' (cellbase_maturity c) = Ok tt) as ->.
  { apply MaturityVerifier_Ok. apply MaturityVerifier_Ok in Hmat. eapply Forall_impl; [exact Hmat|].
    intros o Ho meta Hm. specialize (Ho meta Hm). unfold cellbase_immature in *.
    destruct (cm_cellbase meta); [|done]. outcome_inv. apply bool_decide_eq_false in Ho. subst.
    match goal with Hi : cm_block_info _ = Some _ |- _ => rewrite Hi end. cbn [expect]. outcome_arith. by rewrite bool_decide_eq_false_2 by lia. }
  rewrite bind_ret_l. apply (SinceVerifier_Ok ctx' bn' en' mt'); [done|intros; by eapply Hr|].
  intros r input meta Hin Hm Hs.
  pose proof (proj1 (SinceVerifier_Ok ctx bn en mt rtx Hmt
    (fun r input meta Hin Hm => proj1 (Hr r input meta Hin Hm))) Hsince) as Hall.
  destruct (Hall r input meta Hin Hm Hs) as (Hres & b & e & t & Hbase & Hc).
  destruct (Hr r input meta Hin Hm) as ((_ & _ & _ & Hpos) & _ & Hinfo).
  split; [done|]. exists b, e, t. split; [|lia].
  case_decide; [done|]. destruct Hbase as (info & Hi & -> & -> & ->). exists info. split_and!; try done.
  symmetry. apply Hsame. specialize (Hinfo info Hi). specialize (Hpos info Hi). lia.
Qed.

(** A time lock can stop the node.  When the first input has a cell and a
    [since] whose metric is a time of more than [2^64 / 1000] seconds, which
    fits into its 56 bits, the multiplication by 1000 overflows and the
    verification panics, whatever the chain is. *)
Theorem since_timestamp_panics ctx bn en rtx r rs input inputs meta :
  rtx_inputs rtx = r :: rs -> tx_inputs (rtx_transaction rtx) = input :: inputs ->
  cell_meta (ro_cell r) = Some meta -> is_Some (cm_block_info meta) ->
  u64 (ci_since input) -> since_reserved (ci_since input) = 0 -> since_metric (ci_since input) = 2 ->
  U64_SIZE <= since_value (ci_since input) * 1000 ->
  SinceVerifier_verify ctx bn en rtx = Panic.
Proof.
  intros Hr Hi Hm [info Hinfo] Hs Hres Hmet Hv. unfold SinceVerifier_verify. rewrite Hr, Hi.
  cbn [zip zip_with try_for_each]. unfold verify_since_input. cbn [fst snd]. rewrite Hm.
  set (since := ci_since input) in *. rewrite decide_False by (intros H0; rewrite H0 in Hmet; discriminate).
  rewrite flags_is_valid_spec, bool_decide_eq_true_2 by (rewrite Hmet; done). cbn [negb].
  assert (extract_metric (E := TransactionError) since = Panic) as Hx.
  { rewrite extract_metric_spec, Hmet, (decide_False (P := 2 = 0)), (decide_False (P := 2 = 1)),
      (decide_True (P := 2 = 2)), decide_False by lia. done. }
  unfold verify_absolute_lock, verify_relative_lock, is_relative.
  destruct (is_absolute since); cbn [negb]; rewrite ?Hx; [done|].
  by rewrite bind_ret_l, Hinfo.
Qed.

(** ** The lock period of the DAO *)
Definition set_since (since : Z) (i : nat) (self : VerifierState) : VerifierState :=
  let rtx := vs_rtx self in
  let tx := rtx_transaction rtx in
  mkVerifier (mkResolvedTx (mkTransaction (tx_version tx) (tx_deps tx)
      (alter (fun input => mkCellInput (ci_previous_output input) since) i (tx_inputs tx))
      (tx_outputs tx) (tx_witnesses tx) (tx_hash tx) (tx_witness_hash tx)) (rtx_inputs rtx) (rtx_deps rtx))
    (vs_binary_index self) (vs_block_data self) (vs_lock_groups self) (vs_type_groups self).

(** The lock period of the DAO can be passed over.  The minimal block
    number of a withdrawal is compared with the whole [since] field, flags
    included; so an input that is accepted with the required block number is
    also accepted with the relative lock of zero blocks, whose flag makes the
    field large, and this one is satisfied in every block after the deposit. *)
Theorem dao_lock_period_bypass dl self i r meta info input w ctx bn en :
  (forall h p, vs_block_data self !! h = Some p -> p.1 < 2 ^ 62) ->
  rtx_inputs (vs_rtx self) !! i = Some r -> tx_inputs (rtx_transaction (vs_rtx self)) !! i = Some input ->
  cell_meta (ro_cell r) = Some meta -> cm_block_info meta = Some info -> 0 <= bi_number info <= bn ->
  bn < U64_SIZE -> dao_input dl self i = Ok w ->
  let since := 2 ^ 63 in
  dao_input dl (set_since since i self) i = Ok w /\
  verify_since_input ctx bn en (r, mkCellInput (ci_previous_output input) since) = Ok tt.
Proof.
  intros Hbd Hr Hi Hm Hinfo Hbn Hbig H since. split.
  - unfold dao_input in *. cbn [set_since vs_rtx vs_block_data rtx_transaction rtx_inputs tx_witnesses tx_inputs].
    rewrite list_lookup_alter, decide_True, Hi by done. cbn [fmap option_fmap option_map].
    repeat (outcome_inv; match goal with p : Z * BlockExt |- _ => destruct p end). outcome_inv. simplify_eq.
    outcome_build. cbn [ok_or]. rewrite bind_ret_l. outcome_build. cbn [ci_since].
    match goal with Hw : vs_block_data self !! _ = Some (?n, _), Hlt : bool_decide (?d < ?n) = true |- _ =>
      pose proof (Hbd _ _ Hw) as Hwn; cbn [fst] in Hwn; apply bool_decide_eq_true in Hlt;
      pose proof (Z.mod_pos_bound (n - d) DAO_LOCK_PERIOD_BLOCKS ltac:(done)) as Hmod end.
    unfold DAO_LOCK_PERIOD_BLOCKS, DAO_MATURITY_BLOCKS in *.
    outcome_arith. rewrite bool_decide_eq_true_2 by (unfold since; lia). cbn [ensure]. by rewrite bind_ret_l, H.
  - unfold verify_since_input. cbn [fst snd ci_since]. rewrite Hm, decide_False by done.
    assert (flags_is_valid since = true) as -> by done. cbn [negb].
    unfold verify_absolute_lock, verify_relative_lock, is_relative.
    assert (is_absolute since = false) as -> by done. cbn [negb]. rewrite bind_ret_l, Hinfo. cbn [ok_or].
    assert (extract_metric (E := TransactionError) since = Ok (Some (SinceBlockNumber 0))) as -> by done.
    rewrite !bind_ret_l. outcome_arith. by rewrite decide_False by lia.
Qed.

(** Capacity is not created.  The check accepts a transaction that is
    neither a cellbase nor a withdrawal exactly when the capacities of its
    outputs sum up to at most those of its inputs, neither sum overflows, and
    every output pays for its own serialized size; for the other two kinds of
    transactions only the last condition is checked here. *)
Theorem CapacityVerifier_iff rtx :
  let tx := rtx_transaction rtx in
  let inputs := (fun o => from_option cm_capacity 0 (cell_meta (ro_cell o))) <$> rtx_inputs rtx in
  let outputs := co_capacity <$> tx_outputs tx in
  Forall (fun x => 0 <= x < U64_SIZE) inputs -> Forall (fun x => 0 <= x < U64_SIZE) outputs ->
  CapacityVerifier_verify rtx = Ok tt <->
  (rtx_is_cellbase rtx || is_withdrawing_from_dao tx = false ->
     sum_z inputs < U64_SIZE /\ sum_z outputs <= sum_z inputs) /\
  Forall (fun o => CellOutput_serialized_size o * BYTE_SHANNONS <= co_capacity o) (tx_outputs tx).
Proof.
  intros tx inputs outputs Hin Hout. unfold CapacityVerifier_verify. fold tx inputs outputs.
  assert (Forall (fun x => 0 <= x) inputs) as Hin0 by (eapply Forall_impl; [exact Hin|]; simpl; lia).
  assert (Forall (fun x => 0 <= x) outputs) as Hout0 by (eapply Forall_impl; [exact Hout|]; simpl; lia).
  assert (try_for_each (fun output => lack ← map_err tx_capacity_error (is_lack_of_capacity output);
      if (lack : bool) then Err InsufficientCellCapacity else Ok tt) (tx_outputs tx) = Ok tt <->
    Forall (fun o => CellOutput_serialized_size o * BYTE_SHANNONS <= co_capacity o) (tx_outputs tx)) as Hlack.
  { rewrite try_for_each_Ok, !Forall_forall. apply forall_proper. intros o.
    assert (o ∈ tx_outputs tx -> co_capacity o < U64_SIZE) as Hlt.
    { intros Ho. rewrite Forall_forall in Hout. apply Hout. by apply list_elem_of_fmap_2. }
    rewrite is_lack_of_capacity_spec. split; intros H Ho; specialize (H Ho); specialize (Hlt Ho).
    - case_decide; [|done]. cbn [map_err] in H. rewrite bind_ret_l in H. case_bool_decide; [done|lia].
    - rewrite decide_True by lia. cbn [map_err]. rewrite bind_ret_l. by rewrite bool_decide_eq_false_2 by lia. }
  rewrite bind_Ok. destruct (rtx_is_cellbase rtx || is_withdrawing_from_dao tx).
  - split; [intros ([] & _ & H); by rewrite <- Hlack|]. intros [_ H]. exists tt. by rewrite Hlack.
  - rewrite !safe_sum_spec by done. split.
    + intros ([] & Hs & H). rewrite <- Hlack. split; [|done]. intros _.
      destruct (decide (sum_z inputs < U64_SIZE)); [|done].
      destruct (decide (sum_z outputs < U64_SIZE)); [|done].
      cbn [map_err] in Hs. rewrite !bind_ret_l in Hs. case_decide; [done|lia].
    + intros [Hs H]. destruct (Hs eq_refl) as [Hs1 Hs2]. exists tt. split; [|by rewrite Hlack].
      rewrite (decide_True (P := sum_z inputs < U64_SIZE)), (decide_True (P := sum_z outputs < U64_SIZE)) by lia.
      cbn [map_err]. rewrite !bind_ret_l. by rewrite decide_False by lia.
Qed.

(** ** Examples *)
Module TxExample.
(** A context whose blocks have the timestamps [1000 * number]. *)
Definition ctx : BlockMedianTimeContext :=
  mkMedianContext 1 (fun h => Some (1000 * h, h - 1)) (fun n => if decide (0 <= n < 1000) then Some n else None).
Definition mt (n : Z) : Z := if decide (0 <= n < 1000) then 1000 * n else 0.
Definition meta : CellMeta :=
  mkCellMeta (Some (simple_output 10000000000)) (mkCellOutPoint 20 0) (Some (mkBlockInfo 10 0)) true 10000000000 None.
Definition rtx (since : Z) : ResolvedTransaction :=
  mkResolvedTx (mkTransaction 0 [] [mkCellInput (new_cell 20 0) since] [simple_output 9000000000] [] 30 30)
    [cell_only meta] [].
Definition consensus : Consensus := Consensus_default (simple_block 0 0 100 []).
(** Relative, 150 blocks. *)
Definition since150 : Z := 2 ^ 63 + 150.

Lemma ctx_mt n : since_median_time (E := TransactionError) ctx n = Ok (mt n).
Proof.
  unfold since_median_time, ctx, mt. cbn [median_get_block_hash]. case_decide; [|done].
  unfold block_median_time. outcome_arith. cbn [median_block_count]. rewrite Z.min_r by lia.
  cbn. done.
Qed.
Lemma mt_range n : 0 <= mt n < 2 ^ 63.
Proof. unfold mt. case_decide; lia. Qed.
Lemma in_range r input meta' :
  (r, input) ∈ zip (rtx_inputs (rtx since150)) (tx_inputs (rtx_transaction (rtx since150))) ->
  cell_meta (ro_cell r) = Some meta' -> meta' = meta /\ since_in_range mt meta' (ci_since input).
Proof.
  intros Hin Hm. cbn in Hin. apply list_elem_of_singleton in Hin as [= -> ->]. injection Hm as <-.
  split; [done|]. unfold since_in_range. split_and!; [by_compute|by_compute|apply mt_range|].
  intros info [= <-]. by_compute.
Qed.
End TxExample.

Lemma ContextualTransactionVerifier_iff_witness :
  ContextualTransactionVerifier_verify TxExample.ctx 160 0 TxExample.consensus (TxExample.rtx TxExample.since150) = Ok tt.
Proof.
  apply (ContextualTransactionVerifier_iff TxExample.ctx 160 0 TxExample.consensus TxExample.mt
    (TxExample.rtx TxExample.since150) TxExample.ctx_mt).
  - intros r input meta Hin Hm. by apply (TxExample.in_range r).
  - intros o meta Ho Hm _. cbn in Ho. apply list_elem_of_singleton in Ho as ->. injection Hm as <-.
    exists (mkBlockInfo 10 0). by_compute.
  - split.
    + intros o meta info Ho Hm _ Hi. cbn in Ho. apply list_elem_of_singleton in Ho as ->. injection Hm as <-.
      injection Hi as <-. by_compute.
    + intros r input meta Hin Hm _. cbn in Hin. apply list_elem_of_singleton in Hin as [= -> ->]. injection Hm as <-.
      split; [by_compute|]. exists 10, 0, 9000. split.
      * rewrite decide_False by by_compute. exists (mkBlockInfo 10 0). by_compute.
      * left. by_compute.
Defined.

Lemma contextual_checks_monotone_witness :
  ContextualTransactionVerifier_verify TxExample.ctx 170 1 TxExample.consensus (TxExample.rtx TxExample.since150) = Ok tt.
Proof.
  apply (contextual_checks_monotone TxExample.ctx TxExample.ctx TxExample.consensus TxExample.mt TxExample.mt 160 0 170 1
    (TxExample.rtx TxExample.since150) TxExample.ctx_mt TxExample.ctx_mt); [by_compute|by_compute|done|by_compute| |by_compute].
  intros r input meta Hin Hm. destruct (TxExample.in_range r input meta Hin Hm) as [-> Hr].
  split; [exact Hr|]. split; [exact Hr|]. intros info [= <-]. by_compute.
Defined.

Lemma since_timestamp_panics_witness :
  SinceVerifier_verify TxExample.ctx 160 0 (TxExample.rtx 0x40ffffffffffffff) = Panic.
Proof.
  apply (since_timestamp_panics TxExample.ctx 160 0 (TxExample.rtx 0x40ffffffffffffff) (cell_only TxExample.meta) []
    (mkCellInput (new_cell 20 0) 0x40ffffffffffffff) [] TxExample.meta); try reflexivity; by_compute.
Defined.

Lemma dao_lock_period_bypass_witness :
  dao_input MergeExample.loader (set_since (2 ^ 63) 0 ScriptExample.dao_self) 0 = Ok 100000000000999 /\
  verify_since_input TxExample.ctx 11 0
    (cell_and_header ScriptExample.dao_meta ScriptExample.deposit_header,
     mkCellInput (mkOutPoint (Some (mkCellOutPoint 20 0)) (Some 110)) (2 ^ 63)) = Ok tt.
Proof.
  apply (dao_lock_period_bypass MergeExample.loader ScriptExample.dao_self 0
    (cell_and_header ScriptExample.dao_meta ScriptExample.deposit_header) ScriptExample.dao_meta (mkBlockInfo 10 0)
    (mkCellInput (mkOutPoint (Some (mkCellOutPoint 20 0)) (Some 110)) 31)); try reflexivity; try by_compute.
  all: intros h p Hp; assert (map_Forall (fun _ p => p.1 < 2 ^ 62) (vs_block_data ScriptExample.dao_self)) as H by by_compute;
    exact (H h p Hp).
Defined.

Lemma CapacityVerifier_iff_witness : CapacityVerifier_verify (TxExample.rtx 0) = Ok tt.
Proof.
  apply (CapacityVerifier_iff (TxExample.rtx 0)); [by_compute|by_compute|].
  split; [intros _; by_compute|by_compute].
Defined.
