(* ===== verification/BlockVerify.v ===== *)
(** * Verification of blocks

    [verification/src/block_verifier.rs], [verification/src/uncles_verifier.rs]
    and the contextual checks of
    [verification/src/contextual_block_verifier.rs].  The digest, the encoding of
    uncles and the merkle root are arguments. *)
From S2P Require Import Prelude Capacity ByteStrings Transactions Blocks Fixtures CellSet Cells Epochs ChainStore VerifyErrors ProposalTable Dao Reward MedianTime HeaderVerify Scripts TxVerify.

Definition BlockProposalsLimitVerifier_verify (block_proposals_limit : Z) (block : Block)
    : outcome VerifyError unit :=
  let proposals_len := len (b_proposals block) in
  if decide (proposals_len <= block_proposals_limit) then Ok tt else Err ErrExceededMaximumProposalsLimit.

Definition BlockBytesVerifier_verify (block_bytes_limit proof_size : Z) (block : Block)
    : outcome VerifyError unit :=
  if h_is_genesis (b_header block) then Ok tt
  else
    let block_bytes := cast U64_SIZE (Block_serialized_size block proof_size) in
    if decide (block_bytes <= block_bytes_limit) then Ok tt else Err ErrExceededMaximumBlockBytes.

Definition CellbaseVerifier_verify (block : Block) : outcome VerifyError unit :=
  if h_is_genesis (b_header block) then Ok tt
  else
    let cellbase_len := length (filter (fun tx => is_cellbase tx = true) (b_transactions block)) in
    if decide (cellbase_len ≠ 1%nat) then Err (ErrCellbase InvalidQuantity)
    else
      cellbase_transaction ← expect (b_transactions block !! 0%nat);
      if negb (is_cellbase cellbase_transaction) then Err (ErrCellbase InvalidPosition)
      else if bool_decide ((witness ← tx_witnesses cellbase_transaction !! 0%nat; from_witness witness) = None)
      then Err (ErrCellbase CellbaseInvalidWitness)
      else if existsb (fun output => bool_decide (is_Some (co_type output))) (tx_outputs cellbase_transaction)
      then Err (ErrCellbase InvalidTypeScript)
      else
        cellbase_input ← expect (tx_inputs cellbase_transaction !! 0%nat);
        if decide (cellbase_input ≠ new_cellbase_input (b_number block))
        then Err (ErrCellbase CellbaseInvalidInput)
        else Ok tt.

Definition DuplicateVerifier_verify (block : Block) : outcome VerifyError unit :=
  if negb (all_new ∅ (tx_hash <$> b_transactions block)) then Err ErrCommitTransactionDuplicate
  else if negb (all_new ∅ (b_proposals block)) then Err ErrProposalTransactionDuplicate
  else Ok tt.

Section hashes.
Context (blake2b : Bytes -> H256) (merkle_root : list H256 -> H256).
Context (serialize_uncles : list UncleBlock -> Bytes).

Definition MerkleRootVerifier_verify (block : Block) : outcome VerifyError unit :=
  if decide (h_transactions_root (b_header block) ≠ cal_transactions_root merkle_root (b_transactions block))
  then Err ErrCommitTransactionsRoot
  else if decide (h_witnesses_root (b_header block) ≠ cal_witnesses_root merkle_root (b_transactions block))
  then Err ErrWitnessesMerkleRoot
  else if decide (h_proposals_hash (b_header block) ≠ cal_proposals_hash blake2b (b_proposals block))
  then Err ErrProposalTransactionsRoot
  else Ok tt.

Definition BlockVerifier_verify (consensus : Consensus) (pow : PowEngine) (target : Block)
    : outcome VerifyError unit :=
  _ ← BlockProposalsLimitVerifier_verify (max_block_proposals_limit consensus) target;
  _ ← BlockBytesVerifier_verify (max_block_bytes consensus) (proof_size pow) target;
  _ ← CellbaseVerifier_verify target;
  _ ← DuplicateVerifier_verify target;
  MerkleRootVerifier_verify target.

(** ** Uncles *)
Record UncleProvider := mkUncleProvider {
  double_inclusion : H256 -> bool;
  up_consensus : Consensus;
  up_pow : PowEngine;
  up_epoch : EpochExt
}.

Definition verify_uncle (provider : UncleProvider) (block : Block) (included : gset Z) (uncle : UncleBlock)
    : outcome VerifyError (gset Z) :=
  let header := uncle_header uncle in
  _ ← ensure (bool_decide (h_difficulty header = ep_difficulty (up_epoch provider))) (ErrUncles InvalidDifficulty);
  _ ← ensure (bool_decide (ep_number (up_epoch provider) = h_epoch header)) (ErrUncles InvalidDifficultyEpoch);
  _ ← ensure (bool_decide (h_number header < b_number block)) (ErrUncles UnclesInvalidNumber);
  let uncle_hash := h_hash header in
  _ ← ensure (negb (bool_decide (uncle_hash ∈ included))) (ErrUncles (UnclesDuplicate uncle_hash));
  _ ← ensure (negb (double_inclusion provider uncle_hash)) (ErrUncles (DoubleInclusion uncle_hash));
  _ ← ensure (bool_decide (len (uncle_proposals uncle) <= max_block_proposals_limit (up_consensus provider)))
        (ErrUncles UnclesExceededMaximumProposalsLimit);
  _ ← ensure (bool_decide (h_proposals_hash header = cal_proposals_hash blake2b (uncle_proposals uncle)))
        (ErrUncles UnclesProposalsHash);
  _ ← ensure (all_new ∅ (uncle_proposals uncle)) (ErrUncles UnclesProposalDuplicate);
  _ ← ensure (verify_header (up_pow provider) header) (ErrUncles UnclesInvalidProof);
  Ok ({[uncle_hash]} ∪ included).

Definition UnclesVerifier_verify (provider : UncleProvider) (block : Block) : outcome VerifyError unit :=
  let uncles_count := cast U32_SIZE (len (b_uncles block)) in
  if decide (uncles_count ≠ h_uncles_count (b_header block)) then
    Err (ErrUncles (MissMatchCount (h_uncles_count (b_header block)) uncles_count))
  else
    let actual_uncles_hash := uncles_hash blake2b serialize_uncles (b_uncles block) in
    if decide (actual_uncles_hash ≠ h_uncles_hash (b_header block)) then
      Err (ErrUncles (UnclesInvalidHash (h_uncles_hash (b_header block)) actual_uncles_hash))
    else if decide (uncles_count = 0) then Ok tt
    else if h_is_genesis (b_header block) then Err (ErrUncles (OverCount 0 uncles_count))
    else
      let max_uncles_num := cast U32_SIZE (max_uncles_num (up_consensus provider)) in
      if decide (max_uncles_num < uncles_count) then Err (ErrUncles (OverCount max_uncles_num uncles_count))
      else _ ← try_fold (verify_uncle provider block) ∅ (b_uncles block); Ok tt.

(** The provider of a fork: a hash counts as included when it is the block
    itself or among the attached blocks and their uncles, or in the store and
    not detached. *)
Definition fork_excluded (fork : ForkContext) (block : Block) : gset Z :=
  fold_left (fun acc pre => acc ∪ {[b_hash pre]} ∪ list_to_set (uncle_hash <$> b_uncles pre))
    (fc_attached_blocks fork) {[b_hash block]}.
Definition fork_detached (fork : ForkContext) : gset Z := list_to_set (b_hash <$> fc_detached_blocks fork).
Definition fork_detached_uncles (fork : ForkContext) : gset Z :=
  list_to_set (mjoin ((fun b => uncle_hash <$> b_uncles b) <$> fc_detached_blocks fork)).

Definition fork_double_inclusion (fork : ForkContext) (block : Block) (hash : H256) : bool :=
  if decide (hash ∈ fork_excluded fork block) then true
  else if decide (is_Some (get_block_number (fc_store fork) hash)) then negb (bool_decide (hash ∈ fork_detached fork))
  else if is_uncle (fc_store fork) hash then negb (bool_decide (hash ∈ fork_detached_uncles fork))
  else false.

Definition UncleVerifierContext_new (consensus : Consensus) (pow : PowEngine) (fork : ForkContext)
    (epoch : EpochExt) (block : Block) : UncleProvider :=
  mkUncleProvider (fork_double_inclusion fork block) consensus pow epoch.

(** ** The reward and the transactions *)
Definition RewardVerifier_verify (consensus : Consensus) (s : StoreData) (resolved : list ResolvedTransaction)
    (parent : Header) : outcome VerifyError (list Capacity) :=
  cellbase ← expect (resolved !! 0%nat);
  let tx := rtx_transaction cellbase in
  block_number ← h_number parent +64 1;
  reserve ← reserve_number consensus;
  _ ← (if decide (reserve < block_number) then
         '(target_lock, block_reward) ←
           map_err (fun _ => ErrCannotFetchBlockReward) (finalize_block_reward consensus s parent);
         capacity ← map_err capacity_error (outputs_capacity tx);
         _ ← ensure (bool_decide (capacity = block_reward)) (ErrCellbase InvalidRewardAmount);
         output ← expect (tx_outputs tx !! 0%nat);
         ensure (bool_decide (co_lock output = target_lock)) (ErrCellbase InvalidRewardTarget)
       else
         capacity ← map_err capacity_error (outputs_capacity tx);
         block_reward ← map_err (fun _ => ErrCannotFetchBlockReward)
           (block_reward (genesis_epoch_ext consensus) block_number);
         _ ← ensure (bool_decide (capacity = block_reward)) (ErrCellbase InvalidRewardAmount);
         output ← expect (tx_outputs tx !! 0%nat);
         ensure (bool_decide (co_lock output = bootstrap_lock consensus)) (ErrCellbase InvalidRewardTarget));
  try_map (fun tx => map_err (fun _ => ErrFeeCalculation) (calculate_transaction_fee (DataLoaderWrapper s) tx))
    (drop 1 resolved).

(** The cache maps the hash of a transaction to its cycles; an insertion may
    drop older entries. *)
Context (cache_insert : gmap Z Z -> Z -> Z -> gmap Z Z).

(** One transaction of the block, against the cache as it was before the block. *)
Definition verify_block_tx (consensus : Consensus) (ctx : BlockMedianTimeContext)
    (script_verify : ResolvedTransaction -> Z -> outcome ScriptError Z)
    (block_number epoch_number : Z) (txs_verify_cache : gmap Z Z) (entry : nat * ResolvedTransaction)
    : outcome VerifyError (Z * Z) :=
  let '(index, tx) := entry in
  let tx_hash := tx_hash (rtx_transaction tx) in
  match txs_verify_cache !! tx_hash with
  | Some cycles =>
      _ ← map_err (ErrTransactions index)
            (ContextualTransactionVerifier_verify ctx block_number epoch_number consensus tx);
      Ok (tx_hash, cycles)
  | None =>
      cycles ← map_err (ErrTransactions index)
        (TransactionVerifier_verify ctx block_number epoch_number consensus script_verify tx
           (max_block_cycles consensus));
      Ok (tx_hash, cycles)
  end.

(** The transactions run in parallel; when several fail the code returns the
    error of one of them, here the first.  The cache is the second component:
    it keeps the new entries also when the sum of the cycles is refused. *)
Definition BlockTxsVerifier_verify (consensus : Consensus) (ctx : BlockMedianTimeContext)
    (script_verify : ResolvedTransaction -> Z -> outcome ScriptError Z)
    (block_number epoch_number : Z) (resolved : list ResolvedTransaction) (txs_verify_cache : gmap Z Z)
    : outcome VerifyError Z * gmap Z Z :=
  match
    ret_set ← try_map (verify_block_tx consensus ctx script_verify block_number epoch_number txs_verify_cache)
                (enumerate resolved);
    sum ← try_fold (fun acc p => acc +64 p.2) 0 ret_set;
    Ok (ret_set, sum)
  with
  | Ok (ret_set, sum) =>
      (if decide (max_block_cycles consensus < sum) then Err ErrExceededMaximumCycles else Ok sum,
       fold_left (fun m p => cache_insert m p.1 p.2) ret_set txs_verify_cache)
  | Err e => (Err e, txs_verify_cache)
  | Panic => (Panic, txs_verify_cache)
  end.

Definition prepare_epoch_ext (consensus : Consensus) (s : StoreData) (parent : Header)
    : outcome VerifyError EpochExt :=
  parent_ext ← ok_or (get_block_epoch s (h_hash parent)) (ErrUnknownParent (h_hash parent));
  next ← shared_next_epoch_ext consensus s parent_ext parent;
  Ok (default parent_ext next).

(** The checks before the transactions: the fees of the block. *)
Definition verify_before_txs (consensus : Consensus) (pow : PowEngine) (fork : ForkContext)
    (resolved : list ResolvedTransaction) (block : Block) : outcome VerifyError (list Capacity) :=
  let s := fc_store fork in
  parent ← ok_or (get_block_header s (b_parent block)) (ErrUnknownParent (b_parent block));
  epoch_ext ← (if h_is_genesis (b_header block) then Ok (genesis_epoch_ext consensus)
               else prepare_epoch_ext consensus s parent);
  _ ← UnclesVerifier_verify (UncleVerifierContext_new consensus pow fork epoch_ext block) block;
  _ ← CommitVerifier_verify s (tx_proposal_window consensus) block;
  RewardVerifier_verify consensus s resolved parent.

Definition ContextualBlockVerifier_verify (consensus : Consensus) (pow : PowEngine) (fork : ForkContext)
    (script_verify : ResolvedTransaction -> Z -> outcome ScriptError Z)
    (resolved : list ResolvedTransaction) (block : Block) (txs_verify_cache : gmap Z Z)
    : outcome VerifyError (Z * list Capacity) * gmap Z Z :=
  match verify_before_txs consensus pow fork resolved block with
  | Ok txs_fees =>
      let '(result, cache) := BlockTxsVerifier_verify consensus (ForkContext_median_context consensus fork)
        script_verify (b_number block) (h_epoch (b_header block)) resolved txs_verify_cache in
      (cycles ← result; Ok (cycles, txs_fees), cache)
  | Err e => (Err e, txs_verify_cache)
  | Panic => (Panic, txs_verify_cache)
  end.
End hashes.

(** ** The checks of a block on its own *)
Lemma all_new_spec {A} `{Countable A} (l : list A) (seen : gset A) :
  all_new seen l = true <-> NoDup l /\ forall a, a ∈ l -> a ∉ seen.
Proof.
  revert seen. induction l as [|a l IH]; intros seen; cbn [all_new].
  - split; [intros _|done]. split; [constructor|]. by intros a ?%not_elem_of_nil.
  - case_decide as Ha.
    + split; [done|]. intros [_ Hn]. by destruct (Hn a (list_elem_of_here _ _)).
    + rewrite IH, NoDup_cons. setoid_rewrite elem_of_cons. set_solver.
Qed.

Lemma all_new_empty {A} `{Countable A} (l : list A) : all_new ∅ l = true <-> NoDup l.
Proof. rewrite all_new_spec. set_solver. Qed.

(** The form of the first transaction of a block, and that no other has it. *)
Definition cellbase_ok (block : Block) : Prop :=
  exists cb rest w lock,
    b_transactions block = cb :: rest /\ is_cellbase cb = true /\
    Forall (fun tx => is_cellbase tx = false) rest /\
    tx_witnesses cb = [w] /\ from_witness w = Some lock /\
    Forall (fun o => co_type o = None) (tx_outputs cb) /\
    tx_inputs cb = [new_cellbase_input (b_number block)].

Lemma no_type_spec (os : list CellOutput) :
  existsb (fun output => bool_decide (is_Some (co_type output))) os = false <->
  Forall (fun o => co_type o = None) os.
Proof.
  induction os as [|o os IH]; cbn [existsb]; [by rewrite Forall_nil|].
  rewrite orb_false_iff, bool_decide_eq_false, IH, Forall_cons, <- eq_None_not_Some. done.
Qed.

Lemma one_cellbase cb rest :
  is_cellbase cb = true ->
  length (filter (fun tx => is_cellbase tx = true) (cb :: rest)) = 1%nat <->
  Forall (fun tx => is_cellbase tx = false) rest.
Proof.
  intros Hcb. rewrite filter_cons_True by done. cbn [length].
  induction rest as [|tx rest IH]; [by rewrite Forall_nil|].
  rewrite Forall_cons. destruct (is_cellbase tx) eqn:Htx.
  - rewrite filter_cons_True by done. cbn [length]. naive_solver lia.
  - rewrite filter_cons_False by (by rewrite Htx). naive_solver.
Qed.

Lemma CellbaseVerifier_Ok (block : Block) :
  h_is_genesis (b_header block) = false ->
  CellbaseVerifier_verify block = Ok tt <-> cellbase_ok block.
Proof.
  intros Hg. unfold CellbaseVerifier_verify, cellbase_ok. rewrite Hg.
  destruct (b_transactions block) as [|cb rest].
  { split; [done|]. by intros (? & ? & ? & ? & ? & _). }
  destruct (is_cellbase cb) eqn:Hcb; cycle 1.
  { split; [case_decide; [done|]; cbn; by rewrite Hcb|].
    intros (? & ? & ? & ? & [= <- <-] & ? & _). congruence. }
  destruct (is_cellbase_inv cb Hcb) as (i & o & w & Hi & Ho & Hw & _).
  split.
  - case_decide as Hone; [done|]. cbn. rewrite Hcb, Hw, Hi. cbn.
    case_bool_decide as Hl; [done|]. destruct (existsb _ _) eqn:He; [done|].
    case_decide as Hin; [done|]. intros _. subst i.
    apply not_eq_None_Some in Hl as [lock Hl]. exists cb, rest, w, lock.
    split_and!; [done|done|by apply (one_cellbase cb)|done|done|by apply no_type_spec|done].
  - intros (? & ? & ? & lock & [= <- <-] & _ & Hrest & Hw' & Hl & Ht & Hi').
    rewrite Hw in Hw'. injection Hw' as <-.
    rewrite decide_False by (intros Hn; apply Hn; by apply one_cellbase).
    cbn. rewrite Hcb, Hw, Hi'. cbn. rewrite Hl. cbn.
    rewrite (proj2 (no_type_spec _) Ht). by rewrite decide_False by naive_solver.
Qed.

Section checks.
Context (blake2b : Bytes -> H256) (merkle_root : list H256 -> H256).
Context (serialize_uncles : list UncleBlock -> Bytes).

Lemma DuplicateVerifier_Ok (block : Block) :
  DuplicateVerifier_verify block = Ok tt <->
  NoDup (tx_hash <$> b_transactions block) /\ NoDup (b_proposals block).
Proof.
  rewrite <- !all_new_empty. unfold DuplicateVerifier_verify.
  destruct (all_new ∅ (tx_hash <$> _)), (all_new ∅ (b_proposals _)); naive_solver.
Qed.

Lemma MerkleRootVerifier_Ok (block : Block) :
  MerkleRootVerifier_verify blake2b merkle_root block = Ok tt <->
  h_transactions_root (b_header block) = merkle_root (tx_hash <$> b_transactions block) /\
  h_witnesses_root (b_header block) = merkle_root (tx_witness_hash <$> b_transactions block) /\
  h_proposals_hash (b_header block) = cal_proposals_hash blake2b (b_proposals block).
Proof.
  unfold MerkleRootVerifier_verify, cal_transactions_root, cal_witnesses_root.
  repeat case_decide; naive_solver.
Qed.

Lemma bind_unit_Ok {E B} (m : outcome E unit) (k : outcome E B) b :
  (_ ← m; k) = Ok b <-> m = Ok tt /\ k = Ok b.
Proof. rewrite bind_Ok. split; [intros ([] & ? & ?)|intros [? ?]]; eauto. Qed.

(** [BlockVerifier] accepts a block exactly when its proposals are at most
    the limit and pairwise distinct, the hashes of its transactions are pairwise
    distinct, the roots in its header are those of its body, and, unless it is a
    genesis block, its size is within the limit and its first transaction, and
    no other, is a well formed cellbase for its number. *)
Theorem BlockVerifier_iff (consensus : Consensus) (pow : PowEngine) (block : Block) :
  BlockVerifier_verify blake2b merkle_root consensus pow block = Ok tt <->
  len (b_proposals block) <= max_block_proposals_limit consensus /\
  (b_number block <> 0 ->
    cast U64_SIZE (Block_serialized_size block (proof_size pow)) <= max_block_bytes consensus /\
    cellbase_ok block) /\
  NoDup (tx_hash <$> b_transactions block) /\ NoDup (b_proposals block) /\
  h_transactions_root (b_header block) = merkle_root (tx_hash <$> b_transactions block) /\
  h_witnesses_root (b_header block) = merkle_root (tx_witness_hash <$> b_transactions block) /\
  h_proposals_hash (b_header block) = cal_proposals_hash blake2b (b_proposals block).
Proof.
  unfold BlockVerifier_verify.
  rewrite !bind_unit_Ok, DuplicateVerifier_Ok, MerkleRootVerifier_Ok.
  assert (Hlimit : BlockProposalsLimitVerifier_verify (max_block_proposals_limit consensus) block = Ok tt
    <-> len (b_proposals block) <= max_block_proposals_limit consensus)
    by (unfold BlockProposalsLimitVerifier_verify; case_decide; naive_solver).
  rewrite Hlimit. unfold BlockBytesVerifier_verify.
  destruct (h_is_genesis (b_header block)) eqn:Hg.
  - assert (Hc : CellbaseVerifier_verify block = Ok tt)
      by (unfold CellbaseVerifier_verify; by rewrite Hg).
    apply bool_decide_eq_true in Hg. unfold b_number. tauto.
  - rewrite (CellbaseVerifier_Ok block Hg). apply bool_decide_eq_false in Hg. unfold b_number.
    case_decide; intuition congruence.
Qed.
End checks.

(** ** Uncles are included once *)
Section uncles.
Context (blake2b : Bytes -> H256) (serialize_uncles : list UncleBlock -> Bytes).

(** What one uncle has to satisfy, apart from the other uncles of the block. *)
Record uncle_ok (provider : UncleProvider) (block : Block) (uncle : UncleBlock) : Prop := {
  uncle_difficulty : h_difficulty (uncle_header uncle) = ep_difficulty (up_epoch provider);
  uncle_epoch : h_epoch (uncle_header uncle) = ep_number (up_epoch provider);
  uncle_below : uncle_number uncle < b_number block;
  uncle_new : double_inclusion provider (uncle_hash uncle) = false;
  uncle_limit : len (uncle_proposals uncle) <= max_block_proposals_limit (up_consensus provider);
  uncle_commits : h_proposals_hash (uncle_header uncle) = cal_proposals_hash blake2b (uncle_proposals uncle);
  uncle_distinct : NoDup (uncle_proposals uncle);
  uncle_pow : verify_header (up_pow provider) (uncle_header uncle) = true
}.

Lemma verify_uncle_Ok provider block (included included' : gset Z) uncle :
  verify_uncle blake2b provider block included uncle = Ok included' <->
  uncle_ok provider block uncle /\ (uncle_hash uncle ∉ included) /\
  included' = ({[uncle_hash uncle]} ∪ included).
Proof.
  unfold verify_uncle. rewrite !bind_unit_Ok, !ensure_Ok, !bool_decide_eq_true, !negb_true_iff,
    bool_decide_eq_false, all_new_empty. fold (uncle_hash uncle) (uncle_number uncle).
  split; [|intros ([] & ? & ->); split_and!; auto].
  intros (? & ? & ? & ? & ? & ? & ? & ? & ? & [= <-]). split_and!; auto. constructor; auto.
Qed.

Lemma verify_uncles_Ok provider block us (included : gset Z) :
  (exists included', try_fold (verify_uncle blake2b provider block) included us = Ok included') <->
  Forall (uncle_ok provider block) us /\ NoDup (uncle_hash <$> us) /\
  Forall (fun u => uncle_hash u ∉ included) us.
Proof.
  revert included. induction us as [|u us IH]; intros included; cbn [try_fold].
  - split; [intros _|eauto]. split_and!; constructor.
  - rewrite fmap_cons, NoDup_cons, !Forall_cons. setoid_rewrite bind_Ok.
    setoid_rewrite verify_uncle_Ok. split.
    + intros (inc & _ & (Hu & Hn & ->) & Hus).
      destruct (proj1 (IH _) (ex_intro _ inc Hus)) as (Hok & Hnd & Hf).
      rewrite Forall_forall in Hf. split_and!; [done|done| |done|done|].
      * intros (u' & Hu' & Hin)%list_elem_of_fmap. specialize (Hf u' Hin). set_solver.
      * apply Forall_forall. set_solver.
    + intros ((Hu & Hok) & (Hnew & Hnd) & Hn & Hf).
      destruct (proj2 (IH ({[uncle_hash u]} ∪ included))) as [inc Hus]; [|by exists inc; eauto].
      split_and!; [done|done|]. rewrite Forall_forall in Hf |- *. intros u' Hin.
      apply not_elem_of_union. split; [|auto]. apply not_elem_of_singleton. intros Heq.
      apply Hnew. rewrite <- Heq. by apply list_elem_of_fmap_2.
Qed.

Lemma UnclesVerifier_Ok provider block :
  len (b_uncles block) < U32_SIZE ->
  UnclesVerifier_verify blake2b serialize_uncles provider block = Ok tt ->
  Forall (uncle_ok provider block) (b_uncles block) /\ NoDup (uncle_hash <$> b_uncles block).
Proof.
  intros Hlen. unfold UnclesVerifier_verify.
  replace (cast U32_SIZE (len (b_uncles block))) with (len (b_uncles block))
    by (unfold cast; symmetry; apply Z.mod_small; pose proof (len_nonneg (b_uncles block)); lia).
  case_decide; [done|]. case_decide; [done|]. case_decide as Hz.
  { intros _. destruct (b_uncles block); [split; constructor|].
    rewrite len_cons in Hz. pose proof (len_nonneg l). lia. }
  destruct (h_is_genesis _); [done|]. case_decide; [done|]. rewrite bind_Ok.
  intros (inc & Hus & _). destruct (proj1 (verify_uncles_Ok _ _ _ _) (ex_intro _ inc Hus)) as (? & ? & _).
  done.
Qed.
(** The hashes a chain takes: those of its blocks and of their uncles. *)
Definition block_hashes (block : Block) : list H256 := b_hash block :: (uncle_hash <$> b_uncles block).
Definition chain_hashes (chain : list Block) : list H256 := chain ≫= block_hashes.

Lemma elem_of_chain_hashes h chain :
  h ∈ chain_hashes chain <->
  exists b, b ∈ chain /\ (h = b_hash b \/ h ∈ uncle_hash <$> b_uncles b).
Proof.
  unfold chain_hashes, block_hashes. rewrite list_elem_of_bind.
  setoid_rewrite elem_of_cons. naive_solver.
Qed.

Lemma elem_of_fork_excluded fork block h :
  h ∈ fork_excluded fork block <-> h = b_hash block \/ h ∈ chain_hashes (fc_attached_blocks fork).
Proof.
  unfold fork_excluded, chain_hashes. rewrite <- (elem_of_singleton (C := gset Z)).
  generalize ({[b_hash block]} : gset Z) as acc.
  induction (fc_attached_blocks fork) as [|b l IH]; intros acc; cbn [fold_left]; [set_solver|].
  rewrite IH, bind_cons, elem_of_app. unfold block_hashes at 2. set_solver.
Qed.

(** A hash of the part of the old main chain that stays is refused. *)
Lemma kept_double_inclusion kept (fork : ForkContext) block h :
  (forall b, b ∈ kept -> is_Some (get_block_number (fc_store fork) (b_hash b)) /\
    forall u, u ∈ b_uncles b -> uncle_hash u ∈ sd_uncles (fc_store fork)) ->
  NoDup (chain_hashes (kept ++ fc_detached_blocks fork)) ->
  h ∈ chain_hashes kept -> fork_double_inclusion fork block h = true.
Proof.
  intros Hidx Hnd Hh. unfold chain_hashes in Hnd. rewrite bind_app in Hnd.
  apply NoDup_app in Hnd as (_ & Hdisj & _). specialize (Hdisj h Hh).
  assert (Hd : h ∉ fork_detached fork).
  { unfold fork_detached. rewrite elem_of_list_to_set. intros (b & -> & Hb)%list_elem_of_fmap.
    apply Hdisj, elem_of_chain_hashes. eauto. }
  assert (Hdu : h ∉ fork_detached_uncles fork).
  { unfold fork_detached_uncles. rewrite elem_of_list_to_set.
    intros (l & Hl & (b & -> & Hb)%list_elem_of_fmap)%list_elem_of_join.
    apply Hdisj, elem_of_chain_hashes. eauto. }
  unfold fork_double_inclusion. case_decide; [done|].
  case_decide as Hs; [by rewrite bool_decide_false|].
  apply elem_of_chain_hashes in Hh as (b & Hb & [->|(u & -> & Hu)%list_elem_of_fmap]).
  - by destruct Hs; apply Hidx.
  - unfold is_uncle. rewrite bool_decide_true by (by apply (Hidx b Hb)). by rewrite bool_decide_false.
Qed.

(** C35. While a fork is verified, the new branch never takes a hash twice.
    [kept] is the part of the main chain below the fork, whose blocks and uncles
    the store has indexed.  If no hash occurs twice among the blocks and uncles
    of the old main chain and of the branch so far, and the uncle checks accept
    the next block, then no hash occurs twice when this block is added: each of
    its uncles is new to the chain. *)
Theorem uncles_included_once consensus pow epoch kept (fork : ForkContext) block :
  (forall b, b ∈ kept -> is_Some (get_block_number (fc_store fork) (b_hash b)) /\
    forall u, u ∈ b_uncles b -> uncle_hash u ∈ sd_uncles (fc_store fork)) ->
  NoDup (chain_hashes (kept ++ fc_detached_blocks fork)) ->
  NoDup (chain_hashes (kept ++ fc_attached_blocks fork)) ->
  b_hash block ∉ chain_hashes (kept ++ fc_attached_blocks fork) ->
  len (b_uncles block) < U32_SIZE ->
  UnclesVerifier_verify blake2b serialize_uncles
    (UncleVerifierContext_new consensus pow fork epoch block) block = Ok tt ->
  NoDup (chain_hashes ((kept ++ fc_attached_blocks fork) ++ [block])).
Proof.
  intros Hidx Hold Hnew Hb Hlen Hv. apply UnclesVerifier_Ok in Hv as [Hok Hnd]; [|done].
  rewrite Forall_forall in Hok.
  assert (Hfresh : forall u, u ∈ b_uncles block ->
    uncle_hash u <> b_hash block /\ uncle_hash u ∉ chain_hashes (kept ++ fc_attached_blocks fork)).
  { intros u Hu. pose proof (uncle_new _ _ _ (Hok u Hu)) as Hd. cbn in Hd.
    assert (Hx : uncle_hash u ∉ fork_excluded fork block).
    { intros Hx. unfold fork_double_inclusion in Hd. by rewrite decide_True in Hd. }
    rewrite elem_of_fork_excluded in Hx. split; [tauto|].
    unfold chain_hashes. rewrite bind_app. intros [Hk|Ha]%elem_of_app; [|tauto].
    by rewrite (kept_double_inclusion kept) in Hd. }
  unfold chain_hashes at 1. rewrite bind_app. apply NoDup_app. split; [done|].
  change ([block] ≫= block_hashes) with (block_hashes block ++ []). rewrite app_nil_r.
  unfold block_hashes. split.
  - intros h Hh [->|(u & -> & Hu)%list_elem_of_fmap]%elem_of_cons; [done|]. by apply (Hfresh u Hu).
  - apply NoDup_cons. split; [|done]. intros (u & Heq & Hu)%list_elem_of_fmap.
    by destruct (Hfresh u Hu) as [[] _].
Qed.
End uncles.

(** ** The cache of verified transactions *)
Section cache.
Context (cache_insert : gmap Z Z -> Z -> Z -> gmap Z Z).
(** An entry just inserted is found. *)
Context (cache_insert_same : forall m k v, cache_insert m k v !! k = Some v).
Context (consensus : Consensus) (ctx : BlockMedianTimeContext).
Context (script_verify : ResolvedTransaction -> Z -> outcome ScriptError Z).
Context (block_number epoch_number : Z).

#[local] Abbreviation verify_tx := (verify_block_tx consensus ctx script_verify block_number epoch_number).
#[local] Abbreviation verify_txs := (BlockTxsVerifier_verify cache_insert consensus ctx script_verify block_number epoch_number).

Lemma verify_block_tx_hash cache index rtx h cycles :
  verify_tx cache (index, rtx) = Ok (h, cycles) -> h = tx_hash (rtx_transaction rtx).
Proof. unfold verify_block_tx. destruct (cache !! _); intros H; outcome_inv; congruence. Qed.

(** A block of one transaction. *)
Lemma verify_txs_one rtx cache :
  verify_txs [rtx] cache =
  match verify_tx cache (0%nat, rtx) with
  | Ok (h, cycles) =>
      match add_w U64_SIZE 0 cycles with
      | Ok sum => (if decide (max_block_cycles consensus < sum) then Err ErrExceededMaximumCycles else Ok sum,
                   cache_insert cache h cycles)
      | Err e => (Err e, cache)
      | Panic => (Panic, cache)
      end
  | Err e => (Err e, cache)
  | Panic => (Panic, cache)
  end.
Proof.
  unfold BlockTxsVerifier_verify. change (enumerate [rtx]) with [(0%nat, rtx)]. cbn [try_map].
  destruct (verify_tx cache (0%nat, rtx)) as [[h c]| |]; [|done|done]. cbn.
  by destruct (add_w U64_SIZE 0 c).
Qed.

Lemma verify_one_Ok rtx cache cycles cache' :
  verify_txs [rtx] cache = (Ok cycles, cache') ->
  cache' = cache_insert cache (tx_hash (rtx_transaction rtx)) cycles /\
  cycles < U64_SIZE /\ cycles <= max_block_cycles consensus.
Proof.
  rewrite verify_txs_one. destruct (verify_tx _ _) as [[h c]| |] eqn:Hv; [|done|done].
  apply verify_block_tx_hash in Hv as ->. unfold add_w. case_decide; [|done].
  rewrite Z.add_0_l in *. case_decide; [done|]. intros [= <- <-]. split_and!; [done|lia|lia].
Qed.

(** The cache is keyed by the hash of a transaction, which leaves out the
    witnesses.  Once a transaction has been verified, a transaction with the
    same hash and other witnesses is accepted although its scripts fail, while
    a node without the entry refuses the same block. *)
Theorem cached_transaction_skips_scripts rtx rtx' cycles cache e :
  tx_hash (rtx_transaction rtx') = tx_hash (rtx_transaction rtx) ->
  verify_txs [rtx] ∅ = (Ok cycles, cache) ->
  ContextualTransactionVerifier_verify ctx block_number epoch_number consensus rtx' = Ok tt ->
  TransactionVerifier_verify ctx block_number epoch_number consensus script_verify rtx'
    (max_block_cycles consensus) = Err e ->
  (verify_txs [rtx'] cache).1 = Ok cycles /\
  (verify_txs [rtx'] ∅).1 = Err (ErrTransactions 0 e).
Proof.
  intros Hh (-> & Hfit & Hmax)%verify_one_Ok Hctx Htx. rewrite !verify_txs_one. unfold verify_block_tx.
  rewrite Hh, cache_insert_same, lookup_empty, Hctx, Htx. cbn [map_err]. split; [|done].
  rewrite bind_ret_l. unfold add_w. rewrite decide_True by lia. by rewrite decide_False by lia.
Qed.
End cache.

(** ** Examples *)
Module BlockExample.
Definition blake2b (bs : Bytes) : H256 := 7.
Definition serialize (us : list UncleBlock) : Bytes := [].
Definition merkle_root (hs : list H256) : H256 := sum_z hs.
Definition pow : PowEngine := mkPowEngine (fun _ => true) 0.
Definition consensus : Consensus := Consensus_default StoreExample.main0.

(** The block 1 is detached and becomes an uncle of the second block of the fork. *)
Definition uncle : UncleBlock := uncle_from_block StoreExample.main1.
Definition block : Block :=
  let h := h_raw (b_header StoreExample.fork2) in
  mkBlock (mkHeader (mkRawHeader (raw_version h) (raw_parent_hash h) (raw_timestamp h) (raw_number h)
    (raw_transactions_root h) (raw_proposals_hash h) (raw_witnesses_root h) (raw_difficulty h)
    7 1 (raw_epoch h)) (mkSeal 0 []) 202) [uncle] [] [].
Definition fork : ForkContext :=
  mkForkContext [StoreExample.fork1] [StoreExample.main1; StoreExample.main2] StoreExample.store.
Definition epoch : EpochExt := mkEpochExt 0 0 0 0 0 1000 (h_difficulty (uncle_header uncle)).

(** The scripts accept a transaction that has a witness. *)
Definition script_verify (rtx : ResolvedTransaction) (max : Z) : outcome ScriptError Z :=
  if decide (tx_witnesses (rtx_transaction rtx) = []) then Err NoWitness else Ok 100.
Definition rtx (witnesses : list (list Bytes)) : ResolvedTransaction :=
  mkResolvedTx (mkTransaction 0 [] [mkCellInput (new_cell 20 0) 0] [simple_output 9000000000] witnesses 30
    (30 + len witnesses)) [cell_only TxExample.meta] [].
Definition insert_entry (m : gmap Z Z) (k v : Z) : gmap Z Z := <[k := v]> m.
End BlockExample.

Lemma uncles_included_once_witness :
  NoDup (chain_hashes [StoreExample.main0; StoreExample.fork1; BlockExample.block]) /\
  b_uncles BlockExample.block = [BlockExample.uncle].
Proof.
  split; [|reflexivity].
  apply (uncles_included_once BlockExample.blake2b BlockExample.serialize BlockExample.consensus
    BlockExample.pow BlockExample.epoch [StoreExample.main0] BlockExample.fork BlockExample.block);
    try by_compute.
  intros b ->%list_elem_of_singleton. split; [by_compute|]. by intros u ?%not_elem_of_nil.
Defined.

Lemma cached_transaction_skips_scripts_witness :
  let verify := BlockTxsVerifier_verify BlockExample.insert_entry TxExample.consensus TxExample.ctx
    BlockExample.script_verify 200 0 in
  let cache := (verify [BlockExample.rtx [[[1]]]] ∅).2 in
  (verify [BlockExample.rtx []] cache).1 = Ok 100 /\
  (verify [BlockExample.rtx []] ∅).1 = Err (ErrTransactions 0 (ScriptFailure NoWitness)).
Proof.
  cbv zeta.
  apply (cached_transaction_skips_scripts BlockExample.insert_entry
    (fun m k v => lookup_insert_eq m k v) TxExample.consensus TxExample.ctx BlockExample.script_verify 200 0
    (BlockExample.rtx [[[1]]]) (BlockExample.rtx []) 100);
    vm_compute; reflexivity.
Defined.
