(* ===== verification/SyncHeaders.v ===== *)
(** * The header index of the synchronizer

    [HeaderView] and the header part of [SyncSharedState] of
    [sync/src/types.rs]: views with a skip pointer, the search for an ancestor
    that follows the pointers, and the locator a node sends to a peer. *)
From S2P Require Import Prelude Capacity Transactions Blocks Fixtures Epochs ChainStore.

Definition MAX_HEADERS_LEN : Z := 2000.

Record HeaderView := mkView {
  hv_inner : Header;
  hv_total_difficulty : Z;
  hv_total_uncles_count : Z;
  hv_skip_hash : option H256
}.

Definition HeaderView_new (inner : Header) (total_difficulty total_uncles_count : Z) : HeaderView :=
  mkView inner total_difficulty total_uncles_count None.

Definition hv_number (self : HeaderView) : Z := h_number (hv_inner self).
Definition hv_hash (self : HeaderView) : H256 := h_hash (hv_inner self).
Definition hv_parent_hash (self : HeaderView) : H256 := h_parent_hash (hv_inner self).

(** [x as i64] of a [u64]. *)
Definition as_i64 (x : Z) : Z := if decide (x < 2 ^ 63) then x else x - 2 ^ 64.

(** [n & (n - 1)] on [i64]; the subtraction overflows at the least value. *)
Definition invert_lowest_one {E} (n : Z) : outcome E Z :=
  if decide (n = - 2 ^ 63) then Panic else Ok (Z.land n (n - 1)).

Definition get_skip_height {E} (height : Z) : outcome E Z :=
  if decide (height < 2) then Ok 0
  else if decide (0 < Z.land height 1) then
    a ← invert_lowest_one (as_i64 height - 1);
    b ← invert_lowest_one a;
    cast U64_SIZE b +64 1
  else
    a ← invert_lowest_one (as_i64 height);
    Ok (cast U64_SIZE a).

Section ancestor.
Context {E : Type} (get_header_view : H256 -> option HeaderView).

(** The guard of the arm that follows the skip pointer. *)
Definition follow_skip (number number_skip number_skip_prev : Z) : outcome E bool :=
  if decide (number_skip = number) then Ok true
  else if decide (number < number_skip) then
    limit ← number_skip_prev +64 2;
    Ok (negb (bool_decide (limit < number_skip) && bool_decide (number <= number_skip_prev)))
  else Ok false.

(** [while number_walk > number]; the fuel bounds the iterations. *)
Fixpoint ancestor_loop (fuel : nat) (number : Z) (current : HeaderView) (number_walk : Z)
    : outcome E (option Header) :=
  if decide (number < number_walk) then
    match fuel with
    | O => Panic
    | S fuel =>
        number_skip ← get_skip_height number_walk;
        prev ← number_walk -64 1;
        number_skip_prev ← get_skip_height prev;
        next ← match hv_skip_hash current with
               | Some hash =>
                   follow ← follow_skip number number_skip number_skip_prev;
                   Ok (if (follow : bool) then (hash, number_skip) else (hv_parent_hash current, prev))
               | None => Ok (hv_parent_hash current, prev)
               end;
        match get_header_view next.1 with
        | Some current => ancestor_loop fuel number current next.2
        | None => Ok None
        end
    end
  else Ok (Some (hv_inner current)).

Definition view_get_ancestor (self : HeaderView) (number : Z) : outcome E (option Header) :=
  if decide (hv_number self < number) then Ok None
  else ancestor_loop (Z.to_nat (hv_number self)) number self (hv_number self).

(** The hash [build_skip] stores. *)
Definition skip_target (self : HeaderView) : outcome E (option H256) :=
  match get_header_view (hv_parent_hash self) with
  | Some parent =>
      height ← get_skip_height (hv_number self);
      header ← view_get_ancestor parent height;
      Ok (h_hash <$> (header : option Header))
  | None => Ok None
  end.

Definition build_skip (self : HeaderView) : outcome E HeaderView :=
  skip_hash ← skip_target self;
  Ok (mkView (hv_inner self) (hv_total_difficulty self) (hv_total_uncles_count self) skip_hash).
End ancestor.

(** ** The header map over the store *)
Record HeaderIndex := mkHeaderIndex {
  hi_store : StoreData;
  hi_header_map : gmap Z HeaderView
}.

Definition get_header_view (self : HeaderIndex) (hash : H256) : option HeaderView :=
  match hi_header_map self !! hash with
  | Some view => Some view
  | None =>
      header ← get_block_header (hi_store self) hash;
      block_ext ← get_block_ext (hi_store self) hash;
      Some (HeaderView_new header (total_difficulty block_ext) (total_uncles_count block_ext))
  end.

Definition sync_get_header (self : HeaderIndex) (hash : H256) : option Header :=
  match hi_header_map self !! hash with
  | Some view => Some (hv_inner view)
  | None => get_block_header (hi_store self) hash
  end.

Definition insert_header_view {E} (self : HeaderIndex) (hash : H256) (view : HeaderView) : outcome E HeaderIndex :=
  view ← build_skip (get_header_view self) view;
  Ok (mkHeaderIndex (hi_store self) (<[hash := view]> (hi_header_map self))).

Definition remove_header_view (self : HeaderIndex) (hash : H256) : HeaderIndex :=
  mkHeaderIndex (hi_store self) (delete hash (hi_header_map self)).

Definition sync_get_ancestor {E} (self : HeaderIndex) (base : H256) (number : Z) : outcome E (option Header) :=
  match get_header_view self base with
  | Some view => view_get_ancestor (get_header_view self) view number
  | None => Ok None
  end.

(** ** Heights *)

(** Clearing the lowest set bit lowers a positive number. *)
Lemma land_pred_bounds n : 0 < n -> 0 <= Z.land n (n - 1) < n.
Proof.
  intros Hn. split; [apply Z.land_nonneg; lia|].
  rewrite <- (Z2N.id n), <- (Z2N.id (Z.of_N (Z.to_N n) - 1)), <- N2Z.inj_land by lia.
  pose proof (N.land_le_r (Z.to_N n) (Z.to_N (Z.of_N (Z.to_N n) - 1))). lia.
Qed.

(** The skip height as a number. *)
Definition skip_height (height : Z) : Z :=
  if decide (height < 2) then 0
  else if decide (0 < Z.land height 1) then
    let a := Z.land (height - 1) (height - 2) in Z.land a (a - 1) + 1
  else Z.land height (height - 1).

(** A skip pointer goes strictly down. *)
Lemma skip_height_bounds height :
  0 <= height -> 0 <= skip_height height /\ (0 < height -> skip_height height < height).
Proof.
  intros Hh. unfold skip_height. case_decide; [lia|]. case_decide.
  - pose proof (land_pred_bounds (height - 1) ltac:(lia)) as Ha.
    replace (height - 1 - 1) with (height - 2) in Ha by lia. cbv zeta.
    set (a := Z.land (height - 1) (height - 2)) in *.
    destruct (decide (a = 0)) as [->|]; [rewrite Z.land_0_l; lia|].
    pose proof (land_pred_bounds a). lia.
  - pose proof (land_pred_bounds height). lia.
Qed.

(** No arithmetic of [get_skip_height] overflows. *)
Lemma get_skip_height_Ok {E} height :
  0 <= height < 2 ^ 63 -> get_skip_height (E := E) height = Ok (skip_height height).
Proof.
  intros Hh. pose proof (skip_height_bounds height ltac:(lia)) as Hk. revert Hk.
  unfold get_skip_height, skip_height, as_i64, invert_lowest_one, cast.
  case_decide; [done|]. rewrite !(decide_True (P := height < 2 ^ 63)) by lia.
  case_decide; intros Hk.
  - rewrite decide_False by lia. rewrite bind_ret_l. replace (height - 1 - 1) with (height - 2) by lia.
    cbv zeta in Hk |- *. set (a := Z.land (height - 1) (height - 2)) in *.
    assert (0 <= a) by (apply Z.land_nonneg; lia). rewrite decide_False by lia. rewrite bind_ret_l.
    assert (0 <= Z.land a (a - 1)) by (apply Z.land_nonneg; lia).
    rewrite Z.mod_small by lia. by rewrite add_w_eq by lia.
  - rewrite decide_False by lia. rewrite bind_ret_l. by rewrite Z.mod_small by lia.
Qed.

(** ** The reference: following the parents *)
Section reference.
Context (get : H256 -> option HeaderView).

Fixpoint walk_views (steps : nat) (v : HeaderView) : option HeaderView :=
  match steps with
  | O => Some v
  | S steps => p ← get (hv_parent_hash v); walk_views steps p
  end.

Definition reference_view_ancestor (v : HeaderView) (number : Z) : option Header :=
  if decide (hv_number v < number) then None
  else hv_inner <$> walk_views (Z.to_nat (hv_number v - number)) v.

(** What the index maintains: a view is found under its hash, its parent is
    known and one below it unless it is a genesis header, and its skip pointer, if any, is the hash of the ancestor at the
    skip height. *)
Record views_ok : Prop := {
  vo_hash : forall h v, get h = Some v -> hv_hash v = h;
  vo_range : forall h v, get h = Some v -> 0 <= hv_number v < 2 ^ 63;
  vo_parent : forall h v, get h = Some v -> 0 < hv_number v ->
    exists p, get (hv_parent_hash v) = Some p /\ hv_number v = hv_number p + 1;
  vo_skip : forall h v sh, get h = Some v -> hv_skip_hash v = Some sh ->
    0 < hv_number v /\ exists w,
      walk_views (Z.to_nat (hv_number v - skip_height (hv_number v))) v = Some w /\ hv_hash w = sh
}.

Lemma walk_views_add m n v :
  walk_views (m + n) v = (w ← walk_views m v; walk_views n w).
Proof.
  revert v. induction m as [|m IH]; intros v; [done|]. cbn [walk_views Nat.add].
  destruct (get (hv_parent_hash v)); [apply IH|done].
Qed.

(** Down to the genesis header the walk always succeeds. *)
Lemma walk_views_Some n h v :
  views_ok -> get h = Some v -> Z.of_nat n <= hv_number v ->
  exists w, walk_views n v = Some w /\ hv_number w = hv_number v - Z.of_nat n /\ get (hv_hash w) = Some w.
Proof.
  intros Hok. revert h v. induction n as [|n IH]; intros h v Hv Hn; cbn [walk_views].
  - exists v. split_and!; [done|lia|]. by rewrite (vo_hash Hok _ _ Hv).
  - destruct (vo_parent Hok _ _ Hv ltac:(lia)) as (p & Hp & Hnum). rewrite Hp. cbn.
    destruct (IH _ p Hp ltac:(lia)) as (w & ? & ? & ?). exists w. split_and!; [done|lia|done].
Qed.

(** The target of a skip pointer. *)
Lemma skip_view h v sh :
  views_ok -> get h = Some v -> hv_skip_hash v = Some sh ->
  exists w, walk_views (Z.to_nat (hv_number v - skip_height (hv_number v))) v = Some w /\
    get sh = Some w /\ hv_number w = skip_height (hv_number v) /\ hv_number w < hv_number v.
Proof.
  intros Hok Hv Hs. destruct (vo_skip Hok _ _ _ Hv Hs) as (Hpos & w & Hw & <-).
  pose proof (skip_height_bounds (hv_number v) ltac:(lia)).
  destruct (walk_views_Some (Z.to_nat (hv_number v - skip_height (hv_number v))) h v Hok Hv)
    as (w' & Hw' & ? & ?); [lia|]. rewrite Hw in Hw'. injection Hw' as <-.
  exists w. split_and!; [done|done|lia|lia].
Qed.

(** The loop finds what following the parents finds, and never runs out of
    fuel. *)
Lemma ancestor_loop_walk {E} fuel number h v :
  views_ok -> get h = Some v -> 0 <= number <= hv_number v -> (Z.to_nat (hv_number v) <= fuel)%nat ->
  ancestor_loop (E := E) get fuel number v (hv_number v) =
  Ok (hv_inner <$> walk_views (Z.to_nat (hv_number v - number)) v).
Proof.
  intros Hok. revert h v. induction fuel as [|fuel IH]; intros h v Hv Hn Hf;
    cbn [ancestor_loop]; case_decide as Hlt.
  - lia.
  - by replace (hv_number v - number) with 0 by lia.
  - pose proof (vo_range Hok _ _ Hv) as Hr. pose proof (skip_height_bounds (hv_number v) ltac:(lia)) as Hk.
    rewrite get_skip_height_Ok, bind_ret_l, sub_w_eq, bind_ret_l, get_skip_height_Ok, bind_ret_l by lia.
    assert (Hparent : match get (hv_parent_hash v) with
        | Some current => ancestor_loop get fuel number current (hv_number v - 1)
        | None => Ok None
        end = Ok (E := E) (hv_inner <$> walk_views (Z.to_nat (hv_number v - number)) v)).
    { replace (Z.to_nat (hv_number v - number)) with (S (Z.to_nat (hv_number v - 1 - number))) by lia.
      cbn [walk_views]. destruct (vo_parent Hok _ _ Hv ltac:(lia)) as (p & Hp & Hnum). rewrite Hp.
      pose proof (vo_range Hok _ _ Hp).
      replace (hv_number v - 1) with (hv_number p) by lia. rewrite (IH _ p Hp) by lia. done. }
    destruct (hv_skip_hash v) as [sh|] eqn:Hs; [|rewrite bind_ret_l; exact Hparent].
    assert (Hskip : number <= skip_height (hv_number v) ->
      match get sh with
      | Some current => ancestor_loop get fuel number current (skip_height (hv_number v))
      | None => Ok None
      end = Ok (E := E) (hv_inner <$> walk_views (Z.to_nat (hv_number v - number)) v)).
    { intros Hle. destruct (skip_view h v sh Hok Hv Hs) as (w & Hw & Hget & Hnum & Hlow).
      rewrite Hget, <- Hnum, (IH _ w Hget) by lia. do 2 f_equal.
      replace (Z.to_nat (hv_number v - number)) with
        (Z.to_nat (hv_number v - hv_number w) + Z.to_nat (hv_number w - number))%nat by lia.
      rewrite walk_views_add. rewrite <- Hnum in Hw. by rewrite Hw. }
    pose proof (skip_height_bounds (hv_number v - 1) ltac:(lia)).
    unfold follow_skip. case_decide; [rewrite !bind_ret_l; apply Hskip; lia|].
    case_decide; [|rewrite !bind_ret_l; exact Hparent].
    rewrite add_w_eq, !bind_ret_l by lia.
    destruct (negb _); [apply Hskip; lia|exact Hparent].
  - by replace (hv_number v - number) with 0 by lia.
Qed.
End reference.

Lemma view_get_ancestor_reference {E} get h v number :
  views_ok get -> get h = Some v -> 0 <= number ->
  view_get_ancestor (E := E) get v number = Ok (reference_view_ancestor get v number).
Proof.
  intros Hok Hv Hn. unfold view_get_ancestor, reference_view_ancestor. case_decide; [done|].
  apply (ancestor_loop_walk get _ _ h); [done|done|lia|done].
Qed.

(** ** The operations on the index *)

(** Knowing more headers: what was known stays known with the same header. *)
Definition knows_more (get get' : H256 -> option HeaderView) : Prop :=
  forall h v, get h = Some v -> exists v', get' h = Some v' /\ hv_inner v' = hv_inner v.

Lemma walk_views_mono get get' n v v' w :
  knows_more get get' -> hv_inner v' = hv_inner v -> walk_views get n v = Some w ->
  exists w', walk_views get' n v' = Some w' /\ hv_inner w' = hv_inner w.
Proof.
  intros Hm. revert v v'. induction n as [|n IH]; intros v v' Hv; cbn [walk_views].
  - intros [= <-]. eauto.
  - destruct (get (hv_parent_hash v)) as [p|] eqn:Hp; [|done]. cbn. intros Hw.
    destruct (Hm _ _ Hp) as (p' & Hp' & Hi). unfold hv_parent_hash in *. rewrite Hv, Hp'. cbn. eauto.
Qed.

(** A change that keeps what is known, and gives every view it changes or adds
    its place, keeps the invariant. *)
Lemma views_ok_extend get get' :
  views_ok get -> knows_more get get' ->
  (forall h v, get' h = Some v ->
     (exists v0, get h = Some v0 /\ hv_inner v0 = hv_inner v /\ (hv_skip_hash v = hv_skip_hash v0 \/ hv_skip_hash v = None)) \/
     (hv_hash v = h /\ 0 < hv_number v < 2 ^ 63 /\
      (exists p, get (hv_parent_hash v) = Some p /\ hv_number v = hv_number p + 1 /\
         forall sh, hv_skip_hash v = Some sh ->
           (h_hash <$> reference_view_ancestor get p (skip_height (hv_number v))) = Some sh))) ->
  views_ok get'.
Proof.
  intros Hok Hm Hnew. split.
  - intros h v Hv. destruct (Hnew h v Hv) as [(v0 & H0 & Hi & _)|(? & _)]; [|done].
    pose proof (vo_hash get Hok _ _ H0). unfold hv_hash in *. congruence.
  - intros h v Hv. destruct (Hnew h v Hv) as [(v0 & H0 & Hi & _)|(_ & ? & _)]; [|lia].
    pose proof (vo_range get Hok _ _ H0). unfold hv_number in *. congruence.
  - intros h v Hv Hpos.
    assert (exists p, get (hv_parent_hash v) = Some p /\ hv_number v = hv_number p + 1) as (p & Hp & Hnum).
    { destruct (Hnew h v Hv) as [(v0 & H0 & Hi & _)|(_ & _ & p & ? & ? & _)]; [|eauto].
      destruct (vo_parent get Hok _ _ H0) as (p & ? & ?); unfold hv_number, hv_parent_hash in *;
        rewrite Hi in *; eauto. }
    destruct (Hm _ _ Hp) as (p' & Hp' & Hi'). exists p'. split; [done|].
    unfold hv_number in *. by rewrite Hi'.
  - intros h v sh Hv Hs. destruct (Hnew h v Hv) as [(v0 & H0 & Hi & [Hs0|Hs0])|(_ & Hr & p & Hp & Hnum & Hsk)].
    + rewrite Hs0 in Hs. destruct (vo_skip get Hok _ _ _ H0 Hs) as (Hpos & w & Hw & Hh).
      unfold hv_number in *. rewrite Hi in *. split; [done|].
      destruct (walk_views_mono get get' _ _ v _ Hm (eq_sym Hi) Hw) as (w' & ? & Hw').
      exists w'. split; [done|]. unfold hv_hash in *. by rewrite Hw'.
    + congruence.
    + split; [lia|]. specialize (Hsk _ Hs). pose proof (skip_height_bounds (hv_number v) ltac:(lia)).
      unfold reference_view_ancestor in Hsk. rewrite decide_False in Hsk by lia.
      destruct (walk_views get _ p) as [w|] eqn:Hw; [|done]. cbn in Hsk.
      destruct (Hm _ _ Hp) as (p' & Hp' & Hi').
      destruct (walk_views_mono get get' _ _ p' _ Hm Hi' Hw) as (w' & Hww & Hw').
      exists w'. replace (Z.to_nat (hv_number v - skip_height (hv_number v)))
        with (S (Z.to_nat (hv_number p - skip_height (hv_number v)))) by lia.
      cbn [walk_views]. rewrite Hp'. cbn. split; [done|]. unfold hv_hash. rewrite Hw'. congruence.
Qed.

(** A header that is new to an index or known as the same header, one above a
    known parent: what [Synchronizer::insert_header_view] and the chain service
    are given after the header was verified. *)
Definition header_fits (self : HeaderIndex) (header : Header) : Prop :=
  0 < h_number header < 2 ^ 63 /\
  (exists p, get_header_view self (h_parent_hash header) = Some p /\ h_number header = hv_number p + 1) /\
  forall v, get_header_view self (h_hash header) = Some v -> hv_inner v = header.

Inductive index_step {E} : HeaderIndex -> HeaderIndex -> Prop :=
| step_insert_view self header td uncles self' :
    header_fits self header ->
    insert_header_view (E := E) self (h_hash header) (HeaderView_new header td uncles) = Ok self' ->
    index_step self self'
| step_store_block self block ext :
    header_fits self (b_header block) -> get_block_header (hi_store self) (b_hash block) = None ->
    index_step self (mkHeaderIndex (insert_block_ext (b_hash block) ext (insert_block block (hi_store self)))
                       (hi_header_map self))
| step_remove_view self hash header ext :
    get_block_header (hi_store self) hash = Some header -> get_block_ext (hi_store self) hash = Some ext ->
    (forall v, hi_header_map self !! hash = Some v -> hv_inner v = header) ->
    index_step self (remove_header_view self hash).

Lemma skip_target_Ok {E} get v p :
  views_ok get -> 0 < hv_number v < 2 ^ 63 -> get (hv_parent_hash v) = Some p -> hv_number v = hv_number p + 1 ->
  skip_target (E := E) get v = Ok (h_hash <$> reference_view_ancestor get p (skip_height (hv_number v))).
Proof.
  intros Hok Hr Hp Hnum. unfold skip_target. rewrite Hp, get_skip_height_Ok, bind_ret_l by lia.
  pose proof (skip_height_bounds (hv_number v) ltac:(lia)).
  by rewrite (view_get_ancestor_reference get _ p _ Hok Hp), bind_ret_l by lia.
Qed.

Lemma insert_view_step {E} self header td uncles self' :
  views_ok (get_header_view self) -> header_fits self header ->
  insert_header_view (E := E) self (h_hash header) (HeaderView_new header td uncles) = Ok self' ->
  views_ok (get_header_view self').
Proof.
  intros Hok (Hr & (p & Hp & Hnum) & Hsame). unfold insert_header_view, build_skip.
  rewrite (skip_target_Ok _ _ p Hok) by done. rewrite !bind_ret_l. cbn. intros [= <-].
  apply (views_ok_extend _ _ Hok).
  - intros h v Hv. unfold get_header_view at 1. cbn. destruct (decide (h = h_hash header)) as [->|].
    + rewrite lookup_insert_eq. eexists. split; [done|]. symmetry. by apply Hsame.
    + rewrite lookup_insert_ne by done. eauto.
  - intros h v. unfold get_header_view at 1. cbn. destruct (decide (h = h_hash header)) as [->|].
    + rewrite lookup_insert_eq. intros [= <-]. right. split; [done|split; [exact Hr|]].
      exists p. split; [exact Hp|split; [exact Hnum|]]. by intros sh [= <-].
    + rewrite lookup_insert_ne by done. left. exists v. eauto.
Qed.

Lemma store_block_step self block ext :
  views_ok (get_header_view self) -> header_fits self (b_header block) ->
  get_block_header (hi_store self) (b_hash block) = None ->
  views_ok (get_header_view (mkHeaderIndex
    (insert_block_ext (b_hash block) ext (insert_block block (hi_store self))) (hi_header_map self))).
Proof.
  intros Hok (Hr & (p & Hp & Hnum) & Hsame) Hnone.
  assert (Hother : forall h, h <> b_hash block -> get_header_view (mkHeaderIndex
    (insert_block_ext (b_hash block) ext (insert_block block (hi_store self))) (hi_header_map self)) h =
    get_header_view self h).
  { intros h Hh. unfold get_header_view, get_block_header, get_block, get_block_ext. cbn.
    by rewrite !lookup_insert_ne by congruence. }
  apply (views_ok_extend _ _ Hok).
  - intros h v Hv. destruct (decide (h = b_hash block)) as [->|]; [|rewrite Hother by done; eauto].
    revert Hv. unfold get_header_view. cbn. destruct (hi_header_map self !! b_hash block); [eauto|].
    by rewrite Hnone.
  - intros h v. destruct (decide (h = b_hash block)) as [->|]; [|rewrite Hother by done; left; exists v; eauto].
    unfold get_header_view at 1, get_block_header, get_block, get_block_ext. cbn.
    destruct (hi_header_map self !! b_hash block) as [v0|] eqn:Hmap.
    + intros [= <-]. left. exists v0. unfold get_header_view. rewrite Hmap. eauto.
    + rewrite !lookup_insert_eq. intros [= <-]. right. split; [done|split; [exact Hr|]].
      exists p. split; [exact Hp|split; [exact Hnum|done]].
Qed.

Lemma remove_view_step self hash header ext :
  views_ok (get_header_view self) ->
  get_block_header (hi_store self) hash = Some header -> get_block_ext (hi_store self) hash = Some ext ->
  (forall v, hi_header_map self !! hash = Some v -> hv_inner v = header) ->
  views_ok (get_header_view (remove_header_view self hash)).
Proof.
  intros Hok Hh He Hsame.
  assert (Hat : exists v0, get_header_view self hash = Some v0 /\ hv_inner v0 = header).
  { unfold get_header_view. destruct (hi_header_map self !! hash) as [v|] eqn:Hm; [eauto|].
    rewrite Hh. cbn. rewrite He. cbn. eauto. }
  destruct Hat as (v0 & Hv0 & Hi). apply (views_ok_extend _ _ Hok).
  - intros h v Hv. unfold get_header_view at 1. cbn. destruct (decide (h = hash)) as [->|].
    + rewrite lookup_delete_eq, Hh. cbn. rewrite He. cbn. eexists. split; [done|]. cbn. congruence.
    + rewrite lookup_delete_ne by done. eauto.
  - intros h v. unfold get_header_view at 1. cbn. destruct (decide (h = hash)) as [->|].
    + rewrite lookup_delete_eq, Hh. cbn. rewrite He. cbn. intros [= <-]. left. exists v0. eauto.
    + rewrite lookup_delete_ne by done. left. exists v. eauto.
Qed.

Lemma index_steps_ok {E} self self' :
  views_ok (get_header_view self) -> rtc (index_step (E := E)) self self' -> views_ok (get_header_view self').
Proof.
  intros Hok Hsteps. induction Hsteps as [|x y z Hstep _ IH]; [done|]. apply IH.
  destruct Hstep; eauto using insert_view_step, store_block_step, remove_view_step.
Qed.

(** The skip pointers change the time of a search and not its result.  Whatever
    headers were inserted, stored as blocks and removed from the map, the search
    for the ancestor of a known header ends within its fuel, without a panic,
    and gives the header that following the parents one by one gives, which is
    at the number asked for. *)
Theorem skip_list_ancestor {E} self self' base v number :
  views_ok (get_header_view self) -> rtc (index_step (E := E)) self self' ->
  get_header_view self' base = Some v -> 0 <= number <= hv_number v ->
  exists w, sync_get_ancestor (E := E) self' base number = Ok (Some (hv_inner w)) /\
    walk_views (get_header_view self') (Z.to_nat (hv_number v - number)) v = Some w /\
    hv_number w = number.
Proof.
  intros Hok Hsteps Hv Hn. pose proof (index_steps_ok _ _ Hok Hsteps) as Hok'.
  destruct (walk_views_Some _ (Z.to_nat (hv_number v - number)) _ _ Hok' Hv) as (w & Hw & Hnum & _); [lia|].
  exists w. split_and!; [|done|lia]. unfold sync_get_ancestor.
  rewrite Hv, (view_get_ancestor_reference _ _ _ _ Hok' Hv) by lia.
  unfold reference_view_ancestor. rewrite decide_False by lia. by rewrite Hw.
Qed.

(** ** The locator *)

(** [take_while(|hash| hash != stop)] *)
Fixpoint take_while_ne (stop : H256) (l : list H256) : list H256 :=
  match l with
  | [] => []
  | h :: l => if decide (h = stop) then [] else h :: take_while_ne stop l
  end.

Section locator.
Context {E : Type} (genesis_hash : H256).

(** The [loop] of [get_locator]; the fuel bounds the iterations. *)
Fixpoint locator_loop (self : HeaderIndex) (fuel : nat) (step : Z) (locator : list H256) (index : Z) (base : H256)
    : outcome E (list H256) :=
  match fuel with
  | O => Panic
  | S fuel =>
      ancestor ← sync_get_ancestor self base index;
      header ← expect (ancestor : option Header);
      let locator := locator ++ [h_hash header] in
      let step := if decide (10 <= len locator) then cast U64_SIZE (Z.shiftl step 1) else step in
      if decide (index < step) then
        Ok (if decide (index = 0) then locator else locator ++ [genesis_hash])
      else locator_loop self fuel step locator (index - step) (h_hash header)
  end.

Definition get_locator (self : HeaderIndex) (start : Header) : outcome E (list H256) :=
  locator_loop self (S (Z.to_nat (h_number start))) 1 [] (h_number start) (h_hash start).

(** The [loop] of [locate_latest_common_block] along the parents. *)
Fixpoint locate_loop (s : StoreData) (fuel : nat) (latest_common : option Z) (block_hash : H256)
    : outcome E (option Z) :=
  match fuel with
  | O => Panic
  | S fuel =>
      match get_block_header s block_hash with
      | None => Ok latest_common
      | Some block_header =>
          match get_block_number s block_hash with
          | Some block_number => Ok (Some block_number)
          | None => locate_loop s fuel latest_common (h_parent_hash block_header)
          end
      end
  end.

(** [iter().enumerate().map(..).find(..)]: the first hash on the main chain. *)
Definition first_known (s : StoreData) (locator : list H256) : option (nat * Z) :=
  '(index, hash) ← list_find (fun hash => is_Some (get_block_number s hash)) locator;
  number ← get_block_number s hash;
  Some (index, number).

Definition locate_latest_common_block (s : StoreData) (locator : list H256) : outcome E (option Z) :=
  match last locator with
  | None => Ok None
  | Some hash =>
      if decide (hash ≠ genesis_hash) then Ok None
      else
        found ← expect (first_known s locator);
        let '(index, latest_common) := found : nat * Z in
        if decide (index = 0%nat \/ latest_common = 0) then Ok (Some latest_common)
        else
          match (hash ← locator !! (index - 1)%nat; get_block_header s hash) with
          | Some header => locate_loop s (Z.to_nat (h_number header)) (Some latest_common) (h_parent_hash header)
          | None => Ok (Some latest_common)
          end
  end.

Definition get_locator_response (s : StoreData) (tip_number block_number : Z) (hash_stop : H256)
    : outcome E (list Header) :=
  first ← block_number +64 1;
  limit ← first +64 MAX_HEADERS_LEN;
  above ← tip_number +64 1;
  let max_height := Z.min limit above in
  let hashes := omap (get_block_hash s) (seqZ first (max_height - first)) in
  Ok (omap (get_block_header s) (take_while_ne hash_stop hashes)).
End locator.

(** ** What a locator holds *)

(** The heights of a locator: one by one at first, then with steps that double,
    and the genesis block in the end. *)
Fixpoint locator_heights (fuel : nat) (step : Z) (count : Z) (index : Z) : list Z :=
  match fuel with
  | O => []
  | S fuel =>
      let step := if decide (10 <= count + 1) then 2 * step else step in
      index :: (if decide (index < step) then (if decide (index = 0) then [] else [0])
                else locator_heights fuel step (count + 1) (index - step))
  end.

Lemma locator_heights_range fuel step count index k :
  1 <= step -> 0 <= index -> k ∈ locator_heights fuel step count index -> 0 <= k <= index.
Proof.
  revert step count index. induction fuel as [|fuel IH]; intros step count index Hs Hi; cbn [locator_heights];
    [by intros ?%not_elem_of_nil|]. intros [->|Hk]%elem_of_cons; [lia|]. revert Hk.
  set (step' := if decide (10 <= count + 1) then 2 * step else step).
  assert (1 <= step') by (subst step'; case_decide; lia).
  case_decide; [|by intros ?%IH; lia].
  case_decide; [by intros ?%not_elem_of_nil|]. intros ->%list_elem_of_singleton. lia.
Qed.

(** The heights go strictly down to zero. *)
Lemma locator_heights_down fuel step count index :
  1 <= step -> 0 <= index < Z.of_nat fuel ->
  StronglySorted Z.gt (locator_heights fuel step count index) /\
  last (locator_heights fuel step count index) = Some 0.
Proof.
  revert step count index. induction fuel as [|fuel IH]; intros step count index Hs Hi; [lia|].
  cbn [locator_heights]. set (step' := if decide (10 <= count + 1) then 2 * step else step).
  assert (Hs' : 1 <= step') by (subst step'; case_decide; lia). case_decide.
  - case_decide; [subst; by repeat constructor|]. split; [|done]. repeat constructor. lia.
  - destruct (IH step' (count + 1) (index - step') Hs' ltac:(lia)) as [Hsort Hlast]. split.
    + constructor; [done|]. apply Forall_forall. intros k Hk. apply locator_heights_range in Hk; lia.
    + rewrite last_cons, Hlast. done.
Qed.

(** Once the steps double, the list is as long as the bits of the height. *)
Lemma locator_heights_double fuel (j : nat) count index :
  9 <= count -> 0 <= index < 2 ^ 63 -> (j <= 62)%nat ->
  (length (locator_heights fuel (2 ^ Z.of_nat j) count index) <= 64 - j)%nat.
Proof.
  revert j count index. induction fuel as [|fuel IH]; intros j count index Hc Hi Hj; cbn [locator_heights length]; [lia|].
  rewrite !(decide_True (P := 10 <= count + 1)) by lia. rewrite <- Z.pow_succ_r, <- Nat2Z.inj_succ by lia.
  case_decide as Hlt; [case_decide; cbn [length]; lia|].
  assert ((S j <= 62)%nat).
  { destruct (decide (S j = 63%nat)) as [Hj'|]; [|lia]. exfalso. rewrite Hj' in Hlt. cbn in Hlt. lia. }
  pose proof (IH (S j) (count + 1) (index - 2 ^ Z.of_nat (S j)) ltac:(lia) ltac:(lia) ltac:(lia)). lia.
Qed.

Lemma locator_heights_length fuel (n : nat) index :
  (n <= 9)%nat -> 0 <= index < 2 ^ 63 ->
  (length (locator_heights fuel 1 (Z.of_nat n) index) <= 64 + (9 - n))%nat.
Proof.
  remember (9 - n)%nat as m eqn:Hm. revert fuel n index Hm.
  induction m as [|m IH]; intros fuel n index Hm Hn Hi.
  - pose proof (locator_heights_double fuel 0 (Z.of_nat n) index ltac:(lia) Hi ltac:(lia)) as Hd.
    change (2 ^ Z.of_nat 0) with 1 in Hd. lia.
  - destruct fuel as [|fuel]; cbn [locator_heights length]; [lia|].
    rewrite !(decide_False (P := 10 <= Z.of_nat n + 1)) by lia.
    case_decide; [case_decide; cbn [length]; lia|].
    replace (Z.of_nat n + 1) with (Z.of_nat (S n)) by lia.
    pose proof (IH fuel (S n) (index - 1) ltac:(lia) ltac:(lia) ltac:(lia)). lia.
Qed.

(** The hash of the ancestor of a view at a height. *)
Definition ancestor_hash (get : H256 -> option HeaderView) (v : HeaderView) (height : Z) : H256 :=
  from_option hv_hash 0 (walk_views get (Z.to_nat (hv_number v - height)) v).

Section locator_spec.
Context {E : Type} (self : HeaderIndex) (genesis_hash : H256).
Context (Hok : views_ok (get_header_view self)).
Let get := get_header_view self.

Lemma ancestor_at v base height :
  get base = Some v -> 0 <= height <= hv_number v -> exists w,
    sync_get_ancestor (E := E) self base height = Ok (Some (hv_inner w)) /\
    get (hv_hash w) = Some w /\ hv_number w = height /\ hv_hash w = ancestor_hash get v height /\
    forall k, 0 <= k <= height -> ancestor_hash get w k = ancestor_hash get v k.
Proof.
  intros Hv Hh.
  destruct (walk_views_Some get (Z.to_nat (hv_number v - height)) _ _ Hok Hv) as (w & Hw & Hnum & Hget); [lia|].
  exists w. split_and!; [|done|lia|by unfold ancestor_hash; rewrite Hw|].
  - unfold sync_get_ancestor. fold get. rewrite Hv, (view_get_ancestor_reference _ _ _ _ Hok Hv) by lia.
    unfold reference_view_ancestor. rewrite decide_False by lia. fold get. by rewrite Hw.
  - intros k Hk. unfold ancestor_hash.
    replace (Z.to_nat (hv_number v - k)) with
      (Z.to_nat (hv_number v - height) + Z.to_nat (hv_number w - k))%nat by lia.
    by rewrite walk_views_add, Hw.
Qed.

Lemma locator_loop_heights fuel step locator index v base :
  get base = Some v -> ancestor_hash get v 0 = genesis_hash ->
  0 <= index <= hv_number v -> index < Z.of_nat fuel -> 1 <= step < 2 ^ 63 ->
  locator_loop (E := E) genesis_hash self fuel step locator index base =
  Ok (locator ++ (ancestor_hash get v <$> locator_heights fuel step (len locator) index)).
Proof.
  revert step locator index v base. induction fuel as [|fuel IH]; intros step locator index v base Hv Hg Hi Hf Hs;
    [lia|]. pose proof (vo_range get Hok _ _ Hv).
  destruct (ancestor_at v base index Hv Hi) as (w & Hanc & Hw & Hnum & Hhash & Hsame).
  cbn [locator_loop locator_heights]. rewrite Hanc, bind_ret_l. cbn [expect]. rewrite bind_ret_l.
  fold (hv_hash w). rewrite len_app. change (len [hv_hash w]) with 1.
  rewrite Z.shiftl_mul_pow2, Z.mul_comm by lia. change (2 ^ 1) with 2. unfold cast.
  rewrite (Z.mod_small (2 * step)) by lia.
  set (step' := if decide (10 <= len locator + 1) then 2 * step else step).
  assert (Hs' : 1 <= step') by (subst step'; case_decide; lia).
  rewrite fmap_cons, <- Hhash. case_decide as Hlt.
  - case_decide; [done|]. rewrite <- app_assoc. cbn [app fmap list_fmap]. by rewrite Hg.
  - rewrite (IH step' _ (index - step') w (hv_hash w)); [|done|by rewrite Hsame by lia|lia|lia|lia].
    rewrite len_app. change (len [hv_hash w]) with 1. rewrite <- app_assoc. cbn [app]. do 3 f_equal.
    apply list_fmap_ext. intros i k Hk%list_elem_of_lookup_2. apply Hsame.
    apply locator_heights_range in Hk; lia.
Qed.

(** A locator names ancestors of its start, from the start itself strictly down
    to the genesis block, and has at most 73 entries whatever the height is. *)
Lemma get_locator_spec start v :
  get (h_hash start) = Some v -> hv_inner v = start -> ancestor_hash get v 0 = genesis_hash ->
  let heights := locator_heights (S (Z.to_nat (h_number start))) 1 0 (h_number start) in
  get_locator (E := E) genesis_hash self start = Ok (ancestor_hash get v <$> heights) /\
  head heights = Some (h_number start) /\ StronglySorted Z.gt heights /\ last heights = Some 0 /\
  (length heights <= 73)%nat.
Proof.
  intros Hv Hi Hg heights. pose proof (vo_range get Hok _ _ Hv) as Hr. unfold hv_number in Hr. rewrite Hi in Hr.
  split; [|split; [done|]].
  - unfold get_locator. rewrite (locator_loop_heights _ _ _ _ v) by (unfold hv_number; rewrite ?Hi; done || lia).
    done.
  - destruct (locator_heights_down (S (Z.to_nat (h_number start))) 1 0 (h_number start)) as [? ?]; [lia|lia|].
    split_and!; [done|done|].
    apply (locator_heights_length (S (Z.to_nat (h_number start))) 0 (h_number start)); lia.
Qed.
End locator_spec.

(** ** A round of header synchronisation *)
Lemma omap_total {A B} (f : A -> option B) (g : A -> B) (l : list A) :
  (forall a, a ∈ l -> f a = Some (g a)) -> omap f l = g <$> l.
Proof.
  induction l as [|a l IH]; intros H; [done|]. cbn. rewrite (H a) by apply list_elem_of_here.
  f_equal. apply IH. intros b Hb. apply H. by apply list_elem_of_further.
Qed.

Lemma take_while_ne_all stop l : stop ∉ l -> take_while_ne stop l = l.
Proof.
  induction l as [|h l IH]; intros Hl; [done|]. cbn. apply not_elem_of_cons in Hl as [? ?].
  rewrite decide_False by done. f_equal. by apply IH.
Qed.

Lemma sorted_lookup_gt l i j x y :
  StronglySorted Z.gt l -> l !! i = Some x -> l !! j = Some y -> (i < j)%nat -> x > y.
Proof.
  intros Hs. revert i j. induction Hs as [|a l Hs IH Ha]; intros i j Hi Hj Hij; [done|].
  destruct i as [|i], j as [|j]; [lia| |lia|].
  - injection Hi as ->. rewrite Forall_forall in Ha. apply Ha. by eapply list_elem_of_lookup_2.
  - by apply (IH i j); [| |lia].
Qed.

Section round.
Context {E : Type} (self : HeaderIndex) (s : StoreData) (tip : Z) (genesis_hash : H256).
(** The requester has [self], the responder the store [s]. *)
Context (Hok : views_ok (get_header_view self)) (Hmain : is_main s tip) (Htip : 0 <= tip < 2 ^ 63).
Context (Hgenesis : sd_hash_of s !! 0 = Some genesis_hash).
(** A hash names one header on both sides. *)
Context (Hagree : forall h v hdr, get_header_view self h = Some v -> get_block_header s h = Some hdr -> hv_inner v = hdr).
Context (v : HeaderView) (Hv : get_header_view self (hv_hash v) = Some v).
Context (Hv0 : ancestor_hash (get_header_view self) v 0 = genesis_hash).
Let get := get_header_view self.
Let anc := ancestor_hash get v.

Lemma anc_known k :
  0 <= k <= hv_number v -> exists w, get (anc k) = Some w /\ hv_number w = k /\
    (0 < k -> hv_parent_hash w = anc (k - 1)).
Proof.
  intros Hk. destruct (ancestor_at (E := E) self Hok v _ k Hv Hk) as (w & _ & Hw & Hnum & Hh & Hsame).
  exists w. unfold anc, get in *. rewrite <- Hh. split_and!; [done|done|]. intros Hpos.
  rewrite <- Hsame by lia. unfold ancestor_hash.
  replace (Z.to_nat (hv_number w - (k - 1))) with 1%nat by lia. cbn [walk_views].
  destruct (vo_parent _ Hok _ _ Hw ltac:(lia)) as (p & Hp & _). rewrite Hp. cbn.
  symmetry. by apply (vo_hash _ Hok).
Qed.

(** A common block has the same number on both sides. *)
Lemma anc_main_number k m :
  0 <= k <= hv_number v -> sd_hash_of s !! m = Some (anc k) -> m = k /\ 0 <= m <= tip.
Proof.
  intros Hk Hm. pose proof (im_range _ _ Hmain _ _ Hm) as Hr. split; [|done].
  destruct (im_block _ _ Hmain m Hr) as (b & Hb & Hblk & Hnum & _). rewrite Hm in Hb. injection Hb as Hb.
  destruct (anc_known k Hk) as (w & Hw & Hk' & _).
  assert (Hi : hv_inner w = b_header b).
  { apply (Hagree (anc k)); [done|]. unfold get_block_header, get_block. rewrite Hb, Hblk. done. }
  unfold hv_number in Hk'. rewrite Hi in Hk'. unfold b_number in Hnum. lia.
Qed.

Definition common (m : Z) : Prop := 0 <= m <= hv_number v /\ sd_hash_of s !! m = Some (anc m).

Lemma locate_loop_common fuel latest k :
  common latest -> 0 <= k < Z.of_nat fuel -> k <= hv_number v ->
  exists m, locate_loop (E := E) s fuel (Some latest) (anc k) = Ok (Some m) /\ common m.
Proof.
  intros Hl. revert k. induction fuel as [|fuel IH]; intros k Hk Hkv; [lia|]. cbn [locate_loop].
  destruct (get_block_header s (anc k)) as [hdr|] eqn:Hh; [|eauto].
  destruct (get_block_number s (anc k)) as [m|] eqn:Hm.
  - exists m. split; [done|]. apply (im_inverse _ _ Hmain) in Hm.
    destruct (anc_main_number k m ltac:(lia) Hm) as [-> ?]. split; [lia|done].
  - destruct (anc_known k ltac:(lia)) as (w & Hw & Hnum & Hp).
    assert (k <> 0).
    { intros ->. unfold anc, get in Hm. rewrite Hv0 in Hm.
      apply (im_inverse _ _ Hmain) in Hgenesis. unfold get_block_number in Hm. congruence. }
    pose proof (Hagree _ _ _ Hw Hh) as Hi. unfold hv_parent_hash in Hp. rewrite Hi in Hp.
    rewrite Hp by lia. apply IH; lia.
Qed.

(** The first entry of a locator on the main chain of the responder. *)
Lemma first_known_common heights :
  last heights = Some 0 -> (forall k, k ∈ heights -> 0 <= k <= hv_number v) ->
  exists index k, first_known s (anc <$> heights) = Some (index, k) /\ common k /\ heights !! index = Some k.
Proof.
  intros Hlast Hrange. unfold first_known.
  destruct (list_find (fun hash => is_Some (get_block_number s hash)) (anc <$> heights)) as [[index hash]|] eqn:Hf.
  - apply list_find_Some in Hf as (Hl & [m Hm] & _). apply list_lookup_fmap_Some in Hl as (k & -> & Hk).
    exists index, m. cbn. rewrite Hm. cbn. pose proof (Hrange k (list_elem_of_lookup_2 _ _ _ Hk)) as Hr.
    apply (im_inverse _ _ Hmain) in Hm. destruct (anc_main_number k m Hr Hm) as [-> ?]. done.
  - apply list_find_None in Hf. rewrite Forall_forall in Hf. exfalso. apply (Hf genesis_hash).
    + rewrite <- Hv0. apply list_elem_of_fmap_2. by apply last_Some_elem_of.
    + exists 0. by apply (im_inverse _ _ Hmain).
Qed.

Lemma locate_common heights :
  last heights = Some 0 -> StronglySorted Z.gt heights -> (forall k, k ∈ heights -> 0 <= k <= hv_number v) ->
  exists m, locate_latest_common_block (E := E) genesis_hash s (anc <$> heights) = Ok (Some m) /\ common m.
Proof.
  intros Hlast Hsort Hrange. unfold locate_latest_common_block.
  rewrite fmap_last, Hlast. cbn [fmap option_fmap option_map].
  change (anc 0) with (ancestor_hash (get_header_view self) v 0). rewrite Hv0, decide_False by tauto.
  destruct (first_known_common heights Hlast Hrange) as (index & k & -> & Hc & Hk).
  cbn [expect]. rewrite bind_ret_l. case_decide as Hi; [eauto|].
  rewrite list_lookup_fmap. destruct (heights !! (index - 1)%nat) as [k'|] eqn:Hk'; [|eauto].
  cbn. destruct (get_block_header s (anc k')) as [hdr|] eqn:Hh; [|eauto].
  pose proof (Hrange k' (list_elem_of_lookup_2 _ _ _ Hk')) as Hr'.
  assert (k < k') by (apply Z.gt_lt; apply (sorted_lookup_gt heights (index - 1) index); [done|done|done|lia]).
  destruct (anc_known k' Hr') as (w & Hw & Hnum & Hp).
  pose proof (Hagree _ _ _ Hw Hh) as Hinner. unfold hv_parent_hash in Hp. rewrite Hinner in Hp.
  unfold hv_number in Hnum. rewrite Hinner in Hnum. destruct Hc as [? ?].
  rewrite Hp, Hnum by lia. apply locate_loop_common; [done|lia|lia].
Qed.

(** What the responder sends: the headers of its main chain above a block. *)
Lemma get_locator_response_main m hash_stop :
  0 <= m <= tip -> (forall n, m < n <= tip -> sd_hash_of s !! n <> Some hash_stop) ->
  exists headers, get_locator_response (E := E) s tip m hash_stop = Ok headers /\
    length headers = Z.to_nat (Z.min MAX_HEADERS_LEN (tip - m)) /\
    forall i hdr, headers !! i = Some hdr ->
      exists b, main_block s (m + 1 + Z.of_nat i) = Some b /\ hdr = b_header b.
Proof.
  intros Hm Hstop. unfold get_locator_response, MAX_HEADERS_LEN in *.
  rewrite !add_w_eq, !bind_ret_l by lia. rewrite add_w_eq, !bind_ret_l by lia.
  set (count := Z.min (m + 1 + 2000) (tip + 1) - (m + 1)).
  set (hash n := from_option b_hash 0 (main_block s n)).
  set (hdr h := from_option id (mkHeader (mkRawHeader 0 0 0 0 0 0 0 0 0 0 0) (mkSeal 0 []) 0) (get_block_header s h)).
  assert (Hat : forall n, n ∈ seqZ (m + 1) count -> exists b, main_block s n = Some b /\
    sd_hash_of s !! n = Some (b_hash b) /\ get_block_header s (b_hash b) = Some (b_header b) /\ m < n <= tip).
  { intros n Hn%elem_of_seqZ. destruct (main_block_Some s tip n Hmain ltac:(lia)) as (b & ? & ? & Hb & _).
    exists b. split_and!; [done|done| |lia|lia]. unfold get_block_header, get_block. by rewrite Hb. }
  rewrite (omap_total _ hash); [|intros n Hn; destruct (Hat n Hn) as (b & Hb & ? & _); unfold hash; by rewrite Hb].
  rewrite take_while_ne_all, (omap_total _ hdr).
  - eexists. split; [done|]. rewrite !length_fmap, length_seqZ. split; [lia|].
    intros i x. rewrite !list_lookup_fmap. destruct (seqZ (m + 1) count !! i) as [n|] eqn:Hn; [|done]. cbn.
    intros [= <-]. pose proof (proj1 (lookup_seqZ _ _ _ _) Hn) as [-> _].
    destruct (Hat _ (list_elem_of_lookup_2 _ _ _ Hn)) as (b & Hb & _ & Hh & _). exists b.
    split; [done|]. unfold hdr, hash. rewrite Hb. cbn. by rewrite Hh.
  - intros h (n & -> & Hn)%list_elem_of_fmap. destruct (Hat n Hn) as (b & Hb & _ & Hh & _).
    unfold hdr, hash. rewrite Hb. cbn. by rewrite Hh.
  - intros (n & Heq & Hn)%list_elem_of_fmap. destruct (Hat n Hn) as (b & Hb & Hs & _ & Hr).
    apply (Hstop n Hr). rewrite Hs, Heq. unfold hash. by rewrite Hb.
Qed.
End round.


(** ** Examples *)
Module SyncExample.
(** A chain of headers with the hash [100 + number]. *)
Definition header (n : Z) : Header := simple_header n (99 + n) (100 + n).
Definition start : HeaderIndex := mkHeaderIndex StoreExample.store ∅.
Definition insert (self : HeaderIndex) (n : Z) : HeaderIndex :=
  match insert_header_view (E := unit) self (100 + n) (HeaderView_new (header n) n 0) with
  | Ok self => self
  | _ => self
  end.
(** The node has the blocks 0 to 2 and the headers 3 to 6. *)
Definition index : HeaderIndex := insert (insert (insert (insert start 3) 4) 5) 6.
Definition tip : HeaderView := mkView (header 6) 6 0 (Some 104).
End SyncExample.

(** A decision procedure for the invariant. *)
Definition view_ok (self : HeaderIndex) (h : H256) : bool :=
  let get := get_header_view self in
  match get h with
  | None => true
  | Some v =>
      bool_decide (hv_hash v = h) && bool_decide (0 <= hv_number v < 2 ^ 63) &&
      (bool_decide (hv_number v = 0) ||
       match get (hv_parent_hash v) with Some p => bool_decide (hv_number v = hv_number p + 1) | None => false end) &&
      match hv_skip_hash v with
      | None => true
      | Some sh => bool_decide (0 < hv_number v) &&
          bool_decide ((hv_hash <$> walk_views get (Z.to_nat (hv_number v - skip_height (hv_number v))) v) = Some sh)
      end
  end.

Lemma views_ok_check self :
  set_Forall (fun h => view_ok self h = true) (dom (hi_header_map self) ∪ dom (sd_blocks (hi_store self))) ->
  views_ok (get_header_view self).
Proof.
  intros Hall.
  assert (H : forall h v, get_header_view self h = Some v -> view_ok self h = true).
  { intros h v Hv. apply Hall. unfold get_header_view in Hv. apply elem_of_union.
    destruct (hi_header_map self !! h) eqn:Hm; [left; by eapply elem_of_dom_2|right].
    unfold get_block_header, get_block in Hv. destruct (sd_blocks (hi_store self) !! h) eqn:Hb; [|done].
    by eapply elem_of_dom_2. }
  assert (Hc : forall h v, get_header_view self h = Some v ->
    hv_hash v = h /\ 0 <= hv_number v < 2 ^ 63 /\
    (hv_number v = 0 \/ match get_header_view self (hv_parent_hash v) with
                        | Some p => bool_decide (hv_number v = hv_number p + 1) | None => false end = true) /\
    match hv_skip_hash v with
    | None => true
    | Some sh => bool_decide (0 < hv_number v) && bool_decide ((hv_hash <$> walk_views (get_header_view self)
        (Z.to_nat (hv_number v - skip_height (hv_number v))) v) = Some sh)
    end = true).
  { intros h v Hv. specialize (H h v Hv). unfold view_ok in H. rewrite Hv in H.
    rewrite !andb_true_iff, orb_true_iff, !bool_decide_eq_true in H. tauto. }
  split.
  - intros h v Hv. apply (Hc h v Hv).
  - intros h v Hv. apply (Hc h v Hv).
  - intros h v Hv Hpos. destruct (Hc h v Hv) as (_ & _ & [?|Hpar] & _); [lia|].
    destruct (get_header_view self (hv_parent_hash v)) as [p|]; [|done].
    exists p. split; [done|]. by apply bool_decide_eq_true in Hpar.
  - intros h v sh Hv Hs. destruct (Hc h v Hv) as (_ & _ & _ & Hsk). rewrite Hs in Hsk.
    rewrite andb_true_iff, !bool_decide_eq_true in Hsk. destruct Hsk as [? Hw]. split; [done|].
    destruct (walk_views _ _ v) as [w|]; [|done]. exists w. by injection Hw.
Qed.

Module SyncReach.
Import SyncExample.
Lemma start_views_ok : views_ok (get_header_view start).
Proof. apply views_ok_check. by_compute. Qed.

Lemma insert_step self k :
  3 <= k <= 6 -> get_header_view self (100 + k) = None ->
  hv_number <$> get_header_view self (99 + k) = Some (k - 1) ->
  insert_header_view (E := unit) self (100 + k) (HeaderView_new (header k) k 0) = Ok (insert self k) ->
  index_step (E := unit) self (insert self k).
Proof.
  intros Hk Hnone Hp Hins. apply (step_insert_view self (header k) k 0); [|exact Hins].
  split; [cbn; lia|]. split; [|intros v Hv; cbn in Hv; congruence].
  destruct (get_header_view self (99 + k)) as [q|] eqn:Hq; [|done]. injection Hp as Hp.
  exists q. split; [exact Hq|]. cbn. lia.
Qed.

Lemma index_reached : rtc (index_step (E := unit)) start index.
Proof.
  unfold index. apply (rtc_r _ (insert (insert (insert start 3) 4) 5)).
  - apply (rtc_r _ (insert (insert start 3) 4)).
    + apply (rtc_r _ (insert start 3)); [apply rtc_once|]; apply insert_step; first [lia|vm_compute; reflexivity].
    + apply insert_step; first [lia|vm_compute; reflexivity].
  - apply insert_step; first [lia|vm_compute; reflexivity].
Qed.
End SyncReach.

Lemma skip_list_ancestor_witness :
  exists w, sync_get_ancestor (E := unit) SyncExample.index 106 1 = Ok (Some (hv_inner w)) /\
    walk_views (get_header_view SyncExample.index) (Z.to_nat (6 - 1)) SyncExample.tip = Some w /\ hv_number w = 1.
Proof.
  apply (skip_list_ancestor SyncExample.start SyncExample.index 106 SyncExample.tip 1).
  - exact SyncReach.start_views_ok.
  - exact SyncReach.index_reached.
  - vm_compute. reflexivity.
  - by_compute.
Defined.

Lemma store_agrees s h w hdr :
  get_header_view (mkHeaderIndex s ∅) h = Some w -> get_block_header s h = Some hdr -> hv_inner w = hdr.
Proof.
  unfold get_header_view. cbn [hi_header_map hi_store]. rewrite lookup_empty. intros Hw Hd. rewrite Hd in Hw.
  cbn in Hw. destruct (get_block_ext s h); [|done]. by injection Hw as <-.
Qed.

