(* ===== verification/SyncPeers.v ===== *)
(** * What the synchronizer keeps per peer

    [PeerState], [InflightBlocks] and [Peers] of [sync/src/types.rs]: the
    progress of each peer, the transactions to ask it for, and the blocks that
    have been requested and from whom. Readings of the clock are arguments, in
    milliseconds. *)
From stdpp Require Import sorting relations.
From S2P Require Import Prelude Transactions Blocks Fixtures Epochs ChainStore SyncHeaders.

Abbreviation PeerIndex := Z (only parsing).

Definition MAX_PEERS_PER_BLOCK : Z := 2.
Definition BLOCK_DOWNLOAD_TIMEOUT : Z := 30 * 1000.
Definition MAX_ASK_MAP_SIZE : Z := 50000.
Definition MAX_ASK_SET_SIZE : Z := MAX_ASK_MAP_SIZE * 2.

(** ** A peer *)
Record ChainSyncState := mkChainSync {
  cs_timeout : Z;
  cs_work_header : option Header;
  cs_total_difficulty : option Z;
  cs_sent_getheaders : bool;
  cs_not_sync_until : option Z;
  cs_protect : bool
}.

Definition ChainSyncState_default : ChainSyncState := mkChainSync 0 None None false None false.

Record PeerState := mkPeer {
  sync_started : bool;
  headers_sync_timeout : option Z;
  last_block_announcement : option Z;
  is_outbound : bool;
  ps_disconnect : bool;
  chain_sync : ChainSyncState;
  tx_ask_for_map : gmap Z (list H256);
  tx_ask_for_set : gset Z;
  best_known_header : option HeaderView;
  last_common_header : option Header
}.

Definition PeerState_new (is_outbound : bool) (chain_sync : ChainSyncState)
    (headers_sync_timeout : option Z) : PeerState :=
  mkPeer false headers_sync_timeout None is_outbound false chain_sync ∅ ∅ None None.

(** The assignments to a field of a peer. *)
Definition set_not_sync_until (v : option Z) (c : ChainSyncState) : ChainSyncState :=
  mkChainSync (cs_timeout c) (cs_work_header c) (cs_total_difficulty c) (cs_sent_getheaders c) v (cs_protect c).
Definition set_protect (v : bool) (c : ChainSyncState) : ChainSyncState :=
  mkChainSync (cs_timeout c) (cs_work_header c) (cs_total_difficulty c) (cs_sent_getheaders c)
    (cs_not_sync_until c) v.
Definition with_sync (started : bool) (timeout : option Z) (cs : ChainSyncState) (p : PeerState) : PeerState :=
  mkPeer started timeout (last_block_announcement p) (is_outbound p) (ps_disconnect p) cs
    (tx_ask_for_map p) (tx_ask_for_set p) (best_known_header p) (last_common_header p).
Definition with_asked (m : gmap Z (list H256)) (s : gset Z) (p : PeerState) : PeerState :=
  mkPeer (sync_started p) (headers_sync_timeout p) (last_block_announcement p) (is_outbound p)
    (ps_disconnect p) (chain_sync p) m s (best_known_header p) (last_common_header p).
Definition with_headers (best : option HeaderView) (common : option Header) (p : PeerState) : PeerState :=
  mkPeer (sync_started p) (headers_sync_timeout p) (last_block_announcement p) (is_outbound p)
    (ps_disconnect p) (chain_sync p) (tx_ask_for_map p) (tx_ask_for_set p) best common.
Definition with_disconnect (v : bool) (p : PeerState) : PeerState :=
  mkPeer (sync_started p) (headers_sync_timeout p) (last_block_announcement p) (is_outbound p)
    v (chain_sync p) (tx_ask_for_map p) (tx_ask_for_set p) (best_known_header p) (last_common_header p).

Definition can_sync (self : PeerState) (now : Z) : bool :=
  negb (sync_started self) &&
  match cs_not_sync_until (chain_sync self) with Some ts => bool_decide (ts < now) | None => true end.

Definition start_sync (headers_sync_timeout : Z) (self : PeerState) : PeerState :=
  with_sync true (Some headers_sync_timeout) (set_not_sync_until None (chain_sync self)) self.

Definition stop_sync (not_sync_until : Z) (self : PeerState) : PeerState :=
  with_sync false None (set_not_sync_until (Some not_sync_until) (chain_sync self)) self.

Definition caught_up_sync (self : PeerState) : PeerState :=
  with_sync (sync_started self) (Some (U64_SIZE - 1)) (chain_sync self) self.

Definition add_ask_for_tx (now : Z) (tx_hash : H256) (last_ask_timeout : option Z) (self : PeerState)
    : option Z * PeerState :=
  if decide (MAX_ASK_MAP_SIZE < Z.of_nat (size (tx_ask_for_map self))) then (None, self)
  else if decide (MAX_ASK_SET_SIZE < Z.of_nat (size (tx_ask_for_set self))) then (None, self)
  else if decide (tx_hash ∈ tx_ask_for_set self) then (None, self)
  else
    let next_ask_timeout :=
      match last_ask_timeout with Some time => Z.max (time + 30 * 1000) now | None => now end in
    let asked := default [] (tx_ask_for_map self !! next_ask_timeout) in
    (Some next_ask_timeout,
     with_asked (<[next_ask_timeout := asked ++ [tx_hash]]> (tx_ask_for_map self))
       ({[tx_hash]} ∪ tx_ask_for_set self) self).

Definition remove_ask_for_tx (tx_hash : H256) (self : PeerState) : PeerState :=
  with_asked (tx_ask_for_map self) (tx_ask_for_set self ∖ {[tx_hash]}) self.

(** The entries of a [BTreeMap], in the order of the keys. *)
Definition key_le {A} (x y : Z * A) : Prop := x.1 <= y.1.
#[export] Instance key_le_dec {A} : RelDecision (key_le (A := A)).
Proof. intros x y. unfold key_le. apply _. Defined.
Definition btree_iter {A} (m : gmap Z A) : list (Z * A) := merge_sort key_le (map_to_list m).

(** The entries before the first one whose key is not below [now]. *)
Fixpoint due {A} (now : Z) (l : list (Z * A)) : list (Z * A) :=
  match l with
  | [] => []
  | e :: l => if decide (now <= e.1) then [] else e :: due now l
  end.

Definition pop_ask_for_txs (now : Z) (self : PeerState) : list H256 * PeerState :=
  let popped := due now (btree_iter (tx_ask_for_map self)) in
  (concat popped.*2,
   with_asked (foldl (fun m timeout => delete timeout m) (tx_ask_for_map self) popped.*1) (tx_ask_for_set self) self).

(** ** The blocks in flight *)
Record InflightState := mkInflight { if_peers : gset Z; if_timestamp : Z }.

Definition InflightState_default (now : Z) : InflightState := mkInflight ∅ now.
Definition InflightState_remove (peer : PeerIndex) (self : InflightState) : InflightState :=
  mkInflight (if_peers self ∖ {[peer]}) (if_timestamp self).

Record InflightBlocks := mkInflightBlocks {
  if_blocks : gmap Z (gset Z);
  if_states : gmap Z InflightState
}.

Definition InflightBlocks_default : InflightBlocks := mkInflightBlocks ∅ ∅.

Definition total_inflight_count (self : InflightBlocks) : Z := Z.of_nat (size (if_states self)).
Definition peer_inflight_count (self : InflightBlocks) (peer : PeerIndex) : Z :=
  match if_blocks self !! peer with Some blocks => Z.of_nat (size blocks) | None => 0 end.
Definition inflight_block_by_peer (self : InflightBlocks) (peer : PeerIndex) : option (gset Z) :=
  if_blocks self !! peer.
Definition inflight_state_by_block (self : InflightBlocks) (block : H256) : option InflightState :=
  if_states self !! block.

(** [for k in keys { m.get_mut(k).map(f) }]. *)
Definition alter_all {A} (f : A -> A) (keys : gset Z) (m : gmap Z A) : gmap Z A :=
  set_fold (fun k m => alter f k m) m keys.

(** One visit of [retain]. *)
Definition prune_entry {E} (now : Z) (self : InflightBlocks) (entry : H256 * InflightState)
    : outcome E InflightBlocks :=
  deadline ← if_timestamp entry.2 +64 BLOCK_DOWNLOAD_TIMEOUT;
  Ok (if decide (deadline < now) then
        mkInflightBlocks
          (alter_all (fun set : gset Z => set ∖ {[entry.1]}) (if_peers entry.2) (if_blocks self))
          (delete entry.1 (if_states self))
      else self).

Definition prune {E} (now : Z) (self : InflightBlocks) : outcome E InflightBlocks :=
  try_fold (prune_entry now) self (map_to_list (if_states self)).

Definition inflight_insert (now : Z) (peer : PeerIndex) (hash : H256) (self : InflightBlocks)
    : bool * InflightBlocks :=
  let state := default (InflightState_default now) (if_states self !! hash) in
  let states := <[hash := state]> (if_states self) in
  if decide (MAX_PEERS_PER_BLOCK <= Z.of_nat (size (if_peers state))) then
    (false, mkInflightBlocks (if_blocks self) states)
  else
    let blocks := default ∅ (if_blocks self !! peer) in
    let ret := bool_decide (hash ∉ blocks) in
    (ret, mkInflightBlocks (<[peer := {[hash]} ∪ blocks]> (if_blocks self))
            (if ret then <[hash := mkInflight ({[peer]} ∪ if_peers state) (if_timestamp state)]> states
             else states)).

Definition remove_by_peer (peer : PeerIndex) (self : InflightBlocks) : bool * InflightBlocks :=
  match if_blocks self !! peer with
  | Some blocks =>
      (true, mkInflightBlocks (delete peer (if_blocks self))
               (alter_all (InflightState_remove peer) blocks (if_states self)))
  | None => (false, self)
  end.

Definition remove_by_block (block : H256) (self : InflightBlocks) : bool * InflightBlocks :=
  match if_states self !! block with
  | Some state =>
      (true, mkInflightBlocks
               (alter_all (fun set : gset Z => set ∖ {[block]}) (if_peers state) (if_blocks self))
               (delete block (if_states self)))
  | None => (false, self)
  end.

(** ** The peers *)
Abbreviation Peers := (gmap Z PeerState) (only parsing).

Definition Peers_on_connected (peer : PeerIndex) (timeout : option Z) (protect outbound : bool)
    (self : Peers) : Peers :=
  <[peer :=
     match self !! peer with
     | Some state => with_sync (sync_started state) timeout (set_protect protect (chain_sync state)) state
     | None => PeerState_new outbound (set_protect protect ChainSyncState_default) timeout
     end]> self.

Definition get_best_known_header (self : Peers) (pi : PeerIndex) : option HeaderView :=
  state ← self !! pi; best_known_header state.
Definition set_best_known_header (pi : PeerIndex) (view : HeaderView) (self : Peers) : Peers :=
  alter (fun state => with_headers (Some view) (last_common_header state) state) pi self.
Definition get_last_common_header (self : Peers) (pi : PeerIndex) : option Header :=
  state ← self !! pi; last_common_header state.
Definition set_last_common_header (pi : PeerIndex) (header : Header) (self : Peers) : Peers :=
  alter (fun state => with_headers (best_known_header state) (Some header) state) pi self.

(** The order in which chains are preferred: more work, then the smaller hash. *)
Definition better_view (difficulty : Z) (hash : H256) (than : HeaderView) : bool :=
  bool_decide (hv_total_difficulty than < difficulty) ||
  (bool_decide (difficulty = hv_total_difficulty than) && bool_decide (hash < hv_hash than)).

Definition new_header_received (peer : PeerIndex) (view : HeaderView) (self : Peers) : Peers :=
  match self !! peer with
  | Some state =>
      let best := with_headers (Some view) (last_common_header state) state in
      match best_known_header state with
      | Some hv =>
          if better_view (hv_total_difficulty view) (hv_hash view) hv then <[peer := best]> self else self
      | None => <[peer := best]> self
      end
  | None => self
  end.

Definition Peers_disconnected (peer : PeerIndex) (self : Peers) : option PeerState * Peers :=
  (self !! peer, delete peer self).

(** [misbehavior]: the score of a peer is a [u32]. *)
Definition misbehavior {E} (pi : PeerIndex) (score : Z) (scores : gmap Z Z) : outcome E (gmap Z Z) :=
  if decide (score = 0) then Ok scores
  else match scores !! pi with
       | Some s => s' ← add_w U32_SIZE s score; Ok (<[pi := s']> scores)
       | None => Ok (<[pi := score]> scores)
       end.

(** ** Lemmas *)

Lemma alter_all_lookup {A} (f : A -> A) (keys : gset Z) m k :
  alter_all f keys m !! k = if decide (k ∈ keys) then f <$> m !! k else m !! k.
Proof.
  unfold alter_all. revert k.
  refine (set_fold_ind_L (C := gset Z) (fun (acc : gmap Z A) (X : gset Z) =>
    forall k, acc !! k = if decide (k ∈ X) then f <$> m !! k else m !! k) _ m _ _ keys).
  - intros k. by rewrite decide_False by set_solver.
  - intros x X acc Hx IH k. destruct (decide (x = k)) as [->|Hne].
    + rewrite lookup_alter_eq, IH, decide_False, decide_True by set_solver. done.
    + rewrite lookup_alter_ne, IH by done. repeat case_decide; set_solver.
Qed.

(** The blocks requested from a peer, and the peers a block is requested
    from. *)
Definition requested (self : InflightBlocks) (p : PeerIndex) : gset Z := default ∅ (if_blocks self !! p).
Definition askers (self : InflightBlocks) (h : H256) : gset Z := from_option if_peers ∅ (if_states self !! h).

Lemma requested_mk blocks states p : requested (mkInflightBlocks blocks states) p = default ∅ (blocks !! p).
Proof. done. Qed.
Lemma askers_mk blocks states h :
  askers (mkInflightBlocks blocks states) h = from_option if_peers ∅ (states !! h).
Proof. done. Qed.

(** The two maps are views of one relation, and no block is requested from
    more than two peers. *)
Record inflight_ok (self : InflightBlocks) : Prop := {
  io_views : forall p h, h ∈ requested self p <-> p ∈ askers self h;
  io_bound : forall h, Z.of_nat (size (askers self h)) <= MAX_PEERS_PER_BLOCK
}.

Lemma inflight_default_ok : inflight_ok InflightBlocks_default.
Proof. split; cbn; [set_solver|intros h; by compute]. Qed.

(** Forgetting a block. *)
Lemma forget_block_ok s h st :
  inflight_ok s -> if_states s !! h = Some st ->
  inflight_ok (mkInflightBlocks (alter_all (fun set : gset Z => set ∖ {[h]}) (if_peers st) (if_blocks s))
    (delete h (if_states s))).
Proof.
  intros [Hv Hb] Hst. split; unfold requested, askers in *; cbn.
  - intros p h'. specialize (Hv p h') as Hvh'. specialize (Hv p h) as Hvh. rewrite Hst in Hvh. cbn in Hvh.
    rewrite alter_all_lookup. destruct (decide (h = h')) as [<-|Hne].
    + rewrite lookup_delete_eq. case_decide; [destruct (if_blocks s !! p); set_solver|]. cbn. set_solver.
    + rewrite lookup_delete_ne by done. case_decide; [destruct (if_blocks s !! p); set_solver|done].
  - intros h'. destruct (decide (h = h')) as [<-|Hne].
    + by rewrite lookup_delete_eq.
    + rewrite lookup_delete_ne by done. apply Hb.
Qed.

(** The visits of [retain] drop the outdated entries they see and keep the
    invariant. *)
Lemma prune_entries {E} now l s s' :
  NoDup l.*1 -> (forall k v, (k, v) ∈ l -> if_states s !! k = Some v) ->
  try_fold (prune_entry (E := E) now) s l = Ok s' -> inflight_ok s ->
  inflight_ok s' /\ forall k, if_states s' !! k =
    match if_states s !! k with
    | Some v => if decide (k ∈ l.*1 /\ if_timestamp v + BLOCK_DOWNLOAD_TIMEOUT < now) then None else Some v
    | None => None
    end.
Proof.
  revert s. induction l as [|[k v] l IH]; intros s Hnd Hin Hf Hok.
  - injection Hf as <-. split; [done|]. intros k. destruct (if_states s !! k); [|done].
    rewrite decide_False; [done|]. intros [H _]. by apply not_elem_of_nil in H.
  - cbn [try_fold] in Hf. apply bind_Ok in Hf as (s1 & H1 & Hf). unfold prune_entry in H1. cbn [fst snd] in H1.
    apply bind_Ok in H1 as (d & Hd & H1). apply add_w_Ok in Hd as [-> _]. injection H1 as <-.
    cbn in Hnd. apply NoDup_cons in Hnd as [Hk Hnd]. pose proof (Hin k v ltac:(left)) as Hkv.
    apply IH in Hf as [Hok' Hst']; [|done| |].
    + split; [done|]. intros k'. rewrite Hst'. clear Hst' IH. case_decide as Hout; cbn [if_states].
      * destruct (decide (k = k')) as [<-|Hne].
        { rewrite lookup_delete_eq, Hkv, decide_True; [done|]. split; [left|done]. }
        rewrite lookup_delete_ne by done. destruct (if_states s !! k'); [|done].
        apply decide_ext. cbn. rewrite elem_of_cons. naive_solver.
      * destruct (if_states s !! k') eqn:Hk'; [|done]. apply decide_ext. cbn. rewrite elem_of_cons.
        split; [naive_solver|]. intros [[->|?] ?]; naive_solver.
    + intros k' v' Hin'. case_decide; cbn [if_states]; [|apply Hin; by right].
      rewrite lookup_delete_ne; [apply Hin; by right|]. intros <-. apply Hk.
      apply list_elem_of_fmap. by exists (k, v').
    + case_decide; [by apply forget_block_ok|done].
Qed.

(** [prune] drops exactly the outdated entries. *)
Lemma prune_spec {E} now s s' :
  prune (E := E) now s = Ok s' -> inflight_ok s ->
  inflight_ok s' /\ forall k, if_states s' !! k =
    match if_states s !! k with
    | Some v => if decide (if_timestamp v + BLOCK_DOWNLOAD_TIMEOUT < now) then None else Some v
    | None => None
    end.
Proof.
  intros Hp Hok. unfold prune in Hp. apply prune_entries in Hp as [Hok' Hst].
  - split; [done|]. intros k. rewrite Hst. destruct (if_states s !! k) as [v|] eqn:Hk; [|done].
    apply decide_ext. split; [naive_solver|]. intros; split; [|done].
    apply list_elem_of_fmap. exists (k, v). split; [done|]. by apply elem_of_map_to_list.
  - apply NoDup_fst_map_to_list.
  - intros k v. by rewrite elem_of_map_to_list.
  - done.
Qed.

Lemma prune_total {E} now s :
  map_Forall (fun _ v => in_range U64_SIZE (if_timestamp v + BLOCK_DOWNLOAD_TIMEOUT)) (if_states s) ->
  exists s', prune (E := E) now s = Ok s'.
Proof.
  intros Hr. unfold prune.
  assert (Hl : forall k v, (k, v) ∈ map_to_list (if_states s) ->
    in_range U64_SIZE (if_timestamp v + BLOCK_DOWNLOAD_TIMEOUT)).
  { intros k v Hin. apply elem_of_map_to_list in Hin. by apply (Hr k). }
  clear Hr. generalize s at 1. induction (map_to_list (if_states s)) as [|[k v] l IH]; intros s0; [by eexists|].
  cbn [try_fold]. unfold prune_entry at 2. cbn [fst snd].
  pose proof (Hl k v ltac:(left)) as [].
  rewrite (add_w_eq (E := E) _ (if_timestamp v)) by done. rewrite !bind_ret_l.
  apply IH. intros k' v' ?. apply (Hl k'). by right.
Qed.

Lemma insert_ok now p h s : inflight_ok s -> inflight_ok (inflight_insert now p h s).2.
Proof.
  intros [Hv Hb]. unfold inflight_insert.
  assert (Hst : if_peers (default (InflightState_default now) (if_states s !! h)) = askers s h).
  { unfold askers. by destruct (if_states s !! h). }
  assert (Hask : forall st h', if_peers st = askers s h ->
    from_option if_peers ∅ (<[h := st]> (if_states s) !! h') = askers s h').
  { intros st h' Heq. destruct (decide (h = h')) as [<-|]; [by rewrite lookup_insert_eq|].
    by rewrite lookup_insert_ne. }
  rewrite Hst. case_decide as Hfull; cbn [snd].
  { split; intros; unfold askers; cbn [if_states]; rewrite Hask by exact Hst; [apply Hv|apply Hb]. }
  fold (requested s p). split.
  - intros p' h'. pose proof (Hv p' h') as H1. rewrite requested_mk, askers_mk.
    destruct (bool_decide (h ∉ requested s p)) eqn:Hnew.
    + rewrite insert_insert_eq. destruct (decide (p = p')) as [<-|Hp]; destruct (decide (h = h')) as [<-|Hh];
        rewrite ?lookup_insert_eq, ?lookup_insert_ne by done;
        unfold requested, askers in H1 |- *;
        cbn [default from_option if_peers id];
        rewrite ?elem_of_union, ?elem_of_singleton; intuition congruence.
    + apply bool_decide_eq_false in Hnew. apply dec_stable in Hnew. rewrite Hask by exact Hst.
      destruct (decide (p = p')) as [<-|Hp]; [rewrite lookup_insert_eq|rewrite lookup_insert_ne by done; apply Hv].
      cbn. rewrite <- (Hv p h'). set_solver.
  - intros h'. rewrite askers_mk. destruct (bool_decide (h ∉ requested s p)); [|rewrite Hask by exact Hst; apply Hb].
    rewrite insert_insert_eq. destruct (decide (h = h')) as [<-|]; [rewrite lookup_insert_eq|].
    + cbn. pose proof (size_union_alt ({[p]} : gset Z) (askers s h)) as Hu. rewrite size_singleton in Hu.
      pose proof (subseteq_size (askers s h ∖ {[p]}) (askers s h) ltac:(set_solver)). lia.
    + rewrite lookup_insert_ne by done. apply Hb.
Qed.

Lemma remove_by_peer_ok p s : inflight_ok s -> inflight_ok (remove_by_peer p s).2.
Proof.
  intros [Hv Hb]. unfold remove_by_peer. destruct (if_blocks s !! p) as [blocks|] eqn:Hp; [|by split].
  assert (Hask : forall h, askers (mkInflightBlocks (delete p (if_blocks s))
      (alter_all (InflightState_remove p) blocks (if_states s))) h = askers s h ∖ {[p]}).
  { intros h. unfold askers. cbn. rewrite alter_all_lookup. specialize (Hv p h).
    unfold requested, askers in Hv. rewrite Hp in Hv. cbn in Hv.
    case_decide; destruct (if_states s !! h); cbn; set_solver. }
  cbn [snd]. split.
  - intros p' h. rewrite Hask, elem_of_difference, elem_of_singleton, <- Hv. unfold requested. cbn.
    destruct (decide (p = p')) as [<-|]; [rewrite lookup_delete_eq; cbn; set_solver|].
    rewrite lookup_delete_ne by done. naive_solver.
  - intros h. rewrite Hask. specialize (Hb h).
    pose proof (subseteq_size (askers s h ∖ {[p]}) (askers s h) ltac:(set_solver)). lia.
Qed.

Lemma remove_by_block_ok h s : inflight_ok s -> inflight_ok (remove_by_block h s).2.
Proof.
  intros Hok. unfold remove_by_block. destruct (if_states s !! h) eqn:Hh; [|done]. by apply forget_block_ok.
Qed.

(** The operations the node performs on the blocks in flight. *)
Inductive inflight_step : InflightBlocks -> InflightBlocks -> Prop :=
  | step_prune now s s' : prune (E := unit) now s = Ok s' -> inflight_step s s'
  | step_insert now p h s : inflight_step s (inflight_insert now p h s).2
  | step_remove_peer p s : inflight_step s (remove_by_peer p s).2
  | step_remove_block h s : inflight_step s (remove_by_block h s).2.

Create HintDb sync.
#[export] Hint Resolve insert_ok remove_by_peer_ok remove_by_block_ok inflight_default_ok : sync.

Lemma inflight_reachable_ok s : rtc inflight_step InflightBlocks_default s -> inflight_ok s.
Proof.
  apply (rtc_ind_r (inflight_ok)); [auto with sync|]. intros s1 s2 _ Hstep Hok.
  destruct Hstep as [now s1 s2 Hp| | |]; [by apply prune_spec in Hp as []|auto with sync..].
Qed.

(** What the steps do when they read a clock below 2^63. *)
Record inflight_good (s : InflightBlocks) : Prop := {
  ig_ok : inflight_ok s;
  ig_timed : map_Forall (fun _ v => 0 <= if_timestamp v < 2 ^ 63) (if_states s)
}.
Definition inflight_moves (s s' : InflightBlocks) : Prop := rtc inflight_step s s' /\ (inflight_good s -> inflight_good s').

#[export] Instance inflight_moves_preorder : PreOrder inflight_moves.
Proof.
  split; [by intros s; split; [apply rtc_refl|]|]. intros s1 s2 s3 [H1 T1] [H2 T2]. split; [by eapply rtc_trans|auto].
Qed.

Lemma prune_any {E E'} now s s' : prune (E := E) now s = Ok s' -> prune (E := E') now s = Ok s'.
Proof.
  unfold prune. generalize s at 1 3. induction (map_to_list (if_states s)) as [|e l IH]; intros s0; cbn; [by intros [= ->]|].
  intros H. apply bind_Ok in H as (s1 & H1 & H). unfold prune_entry in *. apply bind_Ok in H1 as (t & [-> ?]%add_w_Ok & [= <-]).
  rewrite add_w_eq, !bind_ret_l by lia. by apply IH.
Qed.

Lemma prune_moves {E} now s s' : prune (E := E) now s = Ok s' -> inflight_moves s s'.
Proof.
  intros H. apply (prune_any (E' := unit)) in H. split; [by apply rtc_once, (step_prune now)|]. intros [Hok Ht].
  apply prune_spec in H as [Hok' Hst]; [|done]. split; [done|]. intros h v Hv. rewrite Hst in Hv.
  destruct (if_states s !! h) as [w|] eqn:Hw; [|done]. case_decide; [done|]. injection Hv as <-. by apply (Ht h).
Qed.
Lemma insert_moves now p h s : 0 <= now < 2 ^ 63 -> inflight_moves s (inflight_insert now p h s).2.
Proof.
  intros Hn. split; [apply rtc_once, step_insert|]. intros [Hok Ht]. split; [auto with sync|].
  assert (0 <= if_timestamp (default (InflightState_default now) (if_states s !! h)) < 2 ^ 63) as Hd
    by (destruct (if_states s !! h) as [w|] eqn:Hw; cbn; [by apply (Ht h)|done]).
  assert (Hst : forall st, 0 <= if_timestamp st < 2 ^ 63 -> map_Forall (fun _ v => 0 <= if_timestamp v < 2 ^ 63) (<[h := st]> (if_states s)))
    by (intros st Hst; by apply map_Forall_insert_2).
  unfold inflight_insert. case_decide; cbn; [by apply Hst|]. case_bool_decide; [rewrite insert_insert_eq|]; by apply Hst.
Qed.
Lemma remove_by_block_moves h s : inflight_moves s (remove_by_block h s).2.
Proof.
  split; [apply rtc_once, step_remove_block|]. intros [Hok Ht]. split; [auto with sync|].
  unfold remove_by_block. destruct (if_states s !! h); cbn; [|done]. by apply map_Forall_delete.
Qed.
Lemma remove_by_peer_moves p s : inflight_moves s (remove_by_peer p s).2.
Proof.
  split; [apply rtc_once, step_remove_peer|]. intros [Hok Ht]. split; [auto with sync|].
  unfold remove_by_peer. destruct (if_blocks s !! p) as [blocks|]; cbn; [|done]. intros k v. rewrite alter_all_lookup.
  case_decide; [|by apply Ht]. destruct (if_states s !! k) as [w|] eqn:Hw; cbn; [|done]. intros [= <-]. exact (Ht k w Hw).
Qed.

(** When [inflight_insert] accepts the request. *)
Lemma insert_true_iff now p h s :
  inflight_ok s ->
  (inflight_insert now p h s).1 = true <->
  (p ∉ askers s h) /\ Z.of_nat (size (askers s h)) < MAX_PEERS_PER_BLOCK.
Proof.
  intros [Hv Hb]. unfold inflight_insert.
  assert (Hst : if_peers (default (InflightState_default now) (if_states s !! h)) = askers s h).
  { unfold askers. by destruct (if_states s !! h). }
  rewrite Hst. fold (requested s p). case_decide; cbn [fst]; [split; [done|lia]|].
  rewrite bool_decide_eq_true, Hv. intuition lia.
Qed.

(** The peers a block is requested from after an accepted request. *)
Lemma insert_askers now p h s :
  inflight_ok s -> (inflight_insert now p h s).1 = true ->
  p ∈ askers (inflight_insert now p h s).2 h.
Proof.
  intros Hok Ht. pose proof (insert_ok now p h s Hok) as [Hv _]. apply Hv. revert Ht.
  unfold inflight_insert. case_decide; [done|]. intros _. unfold requested. cbn.
  rewrite lookup_insert_eq. cbn. set_solver.
Qed.

(** [peer_inflight_count] counts the blocks that list the peer. *)
Lemma peer_inflight_count_spec s p :
  inflight_ok s ->
  peer_inflight_count s p = Z.of_nat (size (filter (fun h => p ∈ askers s h) (dom (if_states s)))).
Proof.
  intros [Hv Hb]. unfold peer_inflight_count.
  assert (Hr : requested s p = filter (fun h => p ∈ askers s h) (dom (if_states s))).
  { apply set_eq. intros h. rewrite elem_of_filter, Hv, elem_of_dom. split; [|naive_solver].
    intros Hin. split; [done|]. unfold askers in Hin. by destruct (if_states s !! h). }
  rewrite <- Hr. unfold requested. by destruct (if_blocks s !! p).
Qed.

(** In every state the node can reach, a peer is charged with exactly the
    blocks that wait for it, a block waits for at most two peers, a request is
    refused only if the block already waits for this peer or for two peers,
    and an arriving block is taken the first time only. *)
Theorem inflight_accounting s :
  rtc inflight_step InflightBlocks_default s ->
  (forall p, peer_inflight_count s p =
     Z.of_nat (size (filter (fun h => p ∈ askers s h) (dom (if_states s))))) /\
  (forall h, Z.of_nat (size (askers s h)) <= MAX_PEERS_PER_BLOCK) /\
  (forall now p h, (inflight_insert now p h s).1 = true <->
     (p ∉ askers s h) /\ Z.of_nat (size (askers s h)) < MAX_PEERS_PER_BLOCK) /\
  (forall h, (remove_by_block h (remove_by_block h s).2).1 = false /\
     forall p, h ∉ requested (remove_by_block h s).2 p).
Proof.
  intros Hs. pose proof (inflight_reachable_ok s Hs) as Hok. split_and!.
  - intros p. by apply peer_inflight_count_spec.
  - apply Hok.
  - intros now p h. by apply insert_true_iff.
  - intros h. assert (Hnone : if_states (remove_by_block h s).2 !! h = None).
    { unfold remove_by_block. destruct (if_states s !! h) eqn:Hh; cbn; [by rewrite lookup_delete_eq|done]. }
    split; [unfold remove_by_block at 1; by rewrite Hnone|].
    intros p. rewrite (io_views _ (remove_by_block_ok h s Hok)). unfold askers. rewrite Hnone. set_solver.
Qed.

(** A stalled download is retried: once [BLOCK_DOWNLOAD_TIMEOUT] has passed
    since a block was requested, [prune] runs to its end and the block can be
    requested again from any peer, with a new timestamp. *)
Theorem stalled_download_retried s h st now p :
  rtc inflight_step InflightBlocks_default s ->
  map_Forall (fun _ v => in_range U64_SIZE (if_timestamp v + BLOCK_DOWNLOAD_TIMEOUT)) (if_states s) ->
  if_states s !! h = Some st -> if_timestamp st + BLOCK_DOWNLOAD_TIMEOUT < now ->
  exists s', prune (E := unit) now s = Ok s' /\
    (inflight_insert now p h s').1 = true /\
    if_states (inflight_insert now p h s').2 !! h = Some (mkInflight {[p]} now).
Proof.
  intros Hs Hr Hh Hold. pose proof (inflight_reachable_ok s Hs) as Hok.
  destruct (prune_total (E := unit) now s Hr) as [s' Hp]. exists s'. split; [done|].
  apply prune_spec in Hp as [Hok' Hst]; [|done]. specialize (Hst h). rewrite Hh, decide_True in Hst by done.
  assert (Ha : askers s' h = ∅) by (unfold askers; by rewrite Hst).
  assert (Ht : (inflight_insert now p h s').1 = true).
  { apply insert_true_iff; [done|]. rewrite Ha. split; [set_solver|]. rewrite size_empty. unfold MAX_PEERS_PER_BLOCK. lia. }
  split; [done|]. revert Ht. unfold inflight_insert. rewrite Hst. cbn [default from_option if_peers InflightState_default].
  case_decide; [done|]. cbn [fst snd]. intros ->. cbn. rewrite lookup_insert_eq. f_equal. f_equal. set_solver.
Qed.

(** ** Witnesses *)
Module InflightExample.
Definition s : InflightBlocks := (inflight_insert 1000 1 77 InflightBlocks_default).2.
Lemma reachable : rtc inflight_step InflightBlocks_default s.
Proof. apply rtc_once, step_insert. Qed.
End InflightExample.

Lemma inflight_accounting_witness : peer_inflight_count InflightExample.s 1 = 1.
Proof. rewrite (proj1 (inflight_accounting InflightExample.s InflightExample.reachable) 1). by vm_compute. Defined.

Lemma stalled_download_retried_witness :
  exists s', prune (E := unit) 40000 InflightExample.s = Ok s' /\
    (inflight_insert 40000 2 77 s').1 = true /\
    if_states (inflight_insert 40000 2 77 s').2 !! 77 = Some (mkInflight {[2]} 40000).
Proof.
  apply (stalled_download_retried InflightExample.s 77 (mkInflight {[1]} 1000)).
  - apply InflightExample.reachable.
  - apply (bool_decide_unpack _). by vm_compute.
  - by vm_compute.
  - by vm_compute.
Defined.
