(* ===== verification/LinkedMap.v ===== *)
(** * Maps in insertion order

    The interfaces of the packages [linked-hash-map] and [lru-cache], which the
    transaction pool keeps its entries in: the operations the code calls, and
    the documented behaviour it relies on.  The theorems on the pool hold for every instance;
    the instance on association lists evaluates the examples. *)
From S2P Require Import Prelude.

(** [lhm_entries] is what the iterators yield, in order.  [lhm_alter] is an
    assignment through [get_mut]. *)
Class LinkedHashMap (K : Type) `{EqDecision K} (M : Type -> Type) := {
  lhm_empty {V} : M V;
  lhm_get {V} : K -> M V -> option V;
  lhm_insert {V} : K -> V -> M V -> M V;
  lhm_remove {V} : K -> M V -> M V;
  lhm_alter {V} : (V -> V) -> K -> M V -> M V;
  lhm_entries {V} : M V -> list (K * V)
}.

Class LinkedHashMapLaws (K : Type) `{EqDecision K} (M : Type -> Type) `{LinkedHashMap K M} : Prop := {
  lhm_entries_empty {V} : lhm_entries (lhm_empty : M V) = [];
  lhm_entries_keys {V} (m : M V) : NoDup (lhm_entries m).*1;
  lhm_get_entries {V} k v (m : M V) : lhm_get k m = Some v <-> (k, v) ∈ lhm_entries m;
  lhm_get_insert {V} k v k' (m : M V) :
    lhm_get k' (lhm_insert k v m) = if decide (k = k') then Some v else lhm_get k' m;
  lhm_entries_insert {V} k v (m : M V) :
    lhm_get k m = None -> lhm_entries (lhm_insert k v m) = lhm_entries m ++ [(k, v)];
  lhm_entries_remove {V} k (m : M V) :
    lhm_entries (lhm_remove k m) = filter (fun e => e.1 <> k) (lhm_entries m);
  lhm_entries_alter {V} (f : V -> V) k (m : M V) :
    lhm_entries (lhm_alter f k m) = (fun e => if decide (e.1 = k) then (e.1, f e.2) else e) <$> lhm_entries m
}.

(** The interface of the package [lru-cache]: an insertion may drop older
    entries, [lru_refresh] makes an entry the latest. *)
Class LruCache (K : Type) (L : Type -> Type) := {
  lru_new {V} : Z -> L V;
  lru_get {V} : K -> L V -> option V;
  lru_insert {V} : K -> V -> L V -> L V;
  lru_remove {V} : K -> L V -> L V;
  lru_refresh {V} : K -> L V -> L V;
  lru_entries {V} : L V -> list (K * V)
}.

(** What the package [lru-cache] promises of the entries it keeps. *)
Class LruLaws (K : Type) (L : Type -> Type) `{!LruCache K L} : Prop := {
  lru_get_new {V} n k : lru_get k (lru_new (V := V) n) = None;
  lru_get_insert {V} k k' (v w : V) m :
    lru_get k (lru_insert k' v m) = Some w -> (k = k' /\ w = v) \/ (k <> k' /\ lru_get k m = Some w);
  lru_get_refresh {V} k k' (m : L V) : lru_get k (lru_refresh k' m) = lru_get k m;
  lru_get_remove {V} k k' (m : L V) w :
    lru_get k (lru_remove k' m) = Some w -> k <> k' /\ lru_get k m = Some w
}.

(** ** [LinkedHashSet]

    The wrapper of [util/src/linked_hash_set.rs].  [key] is what the [Eq] and
    [Hash] of the elements compare. *)
Section linked_set.
Context {K : Type} `{EqDecision K} {M : Type -> Type} `{!LinkedHashMap K M} {T : Type} (key : T -> K).

Definition LinkedHashSet : Type := M T.
Definition set_contains (self : LinkedHashSet) (value : T) : bool := bool_decide (is_Some (lhm_get (key value) self)).
Definition set_insert (self : LinkedHashSet) (value : T) : LinkedHashSet := lhm_insert (key value) value self.
Definition set_iter (self : LinkedHashSet) : list T := (lhm_entries self).*2.
Definition set_difference (self other : LinkedHashSet) : list T :=
  filter (fun elt => negb (set_contains other elt)) (set_iter self).
Definition set_extend (self : LinkedHashSet) (iter : list T) : LinkedHashSet := foldl set_insert self iter.
End linked_set.

Section lemmas.
Context {K : Type} `{EqDecision K} {M : Type -> Type} `{Hm : LinkedHashMap K M} `{!LinkedHashMapLaws K M}.

Lemma lhm_get_remove {V} k k' (m : M V) :
  lhm_get k' (lhm_remove k m) = if decide (k = k') then None else lhm_get k' m.
Proof.
  apply option_eq. intros v. rewrite lhm_get_entries, lhm_entries_remove, list_elem_of_filter. cbn.
  case_decide; [naive_solver|]. rewrite lhm_get_entries. naive_solver.
Qed.

Lemma lhm_get_alter {V} (f : V -> V) k k' (m : M V) :
  lhm_get k' (lhm_alter f k m) = if decide (k = k') then f <$> lhm_get k' m else lhm_get k' m.
Proof.
  apply option_eq. intros v. rewrite lhm_get_entries, lhm_entries_alter, list_elem_of_fmap. split.
  - intros ([k1 v1] & Heq & Hin). apply lhm_get_entries in Hin. cbn in Heq.
    destruct (decide (k1 = k)) as [->|]; injection Heq as -> ->;
      [rewrite decide_True by done|rewrite decide_False by done]; by rewrite Hin.
  - case_decide as Hk.
    + intros (v1 & Hg & ->)%fmap_Some. exists (k', v1). cbn. rewrite decide_True by done.
      split; [done|]. by apply lhm_get_entries.
    + intros Hg. exists (k', v). cbn. rewrite decide_False by done. split; [done|]. by apply lhm_get_entries.
Qed.

Lemma lhm_get_empty {V} k : lhm_get k (lhm_empty : M V) = None.
Proof.
  destruct (lhm_get k lhm_empty) as [v|] eqn:Hg; [|done]. apply lhm_get_entries in Hg.
  rewrite lhm_entries_empty in Hg. by apply not_elem_of_nil in Hg.
Qed.
End lemmas.

Lemma filter_all {A} (P : A -> Prop) `{forall x, Decision (P x)} (l : list A) :
  (forall x, x ∈ l -> P x) -> filter P l = l.
Proof.
  induction l as [|x l IH]; intros Hl; [done|]. rewrite filter_cons_True by (apply Hl; left).
  f_equal. apply IH. intros y Hy. apply Hl. by right.
Qed.

(** ** The instance *)
Section assoc.
Context {K : Type} `{EqDecision K}.

Definition assoc_get {V} (k : K) (l : list (K * V)) : option V :=
  snd <$> (snd <$> list_find (fun e => e.1 = k) l).
Definition assoc_remove {V} (k : K) (l : list (K * V)) : list (K * V) := filter (fun e => e.1 <> k) l.
End assoc.

(** Lists with distinct keys. *)
Record AssocList (K V : Type) := mkAssoc { assoc : list (K * V); assoc_keys : NoDup assoc.*1 }.
Arguments mkAssoc {K V} _ _.
Arguments assoc {K V} _.

Section assoc_instance.
Context {K : Type} `{EqDecision K}.

Lemma assoc_remove_keys {V} (k : K) (l : list (K * V)) : NoDup l.*1 -> NoDup (assoc_remove k l).*1.
Proof.
  intros Hl. induction l as [|[k1 v1] l IH]; [done|]. cbn in Hl. apply NoDup_cons in Hl as [Hk Hl].
  unfold assoc_remove in *. rewrite filter_cons. case_decide; [|by apply IH]. cbn. apply NoDup_cons.
  split; [|by apply IH]. intros ([k2 v2] & Heq & Hin)%list_elem_of_fmap. cbn in Heq. subst k2. apply Hk.
  apply list_elem_of_filter in Hin as [_ Hin]. apply list_elem_of_fmap. by exists (k1, v2).
Qed.

Lemma assoc_insert_keys {V} (k : K) (v : V) l : NoDup l.*1 -> NoDup (assoc_remove k l ++ [(k, v)]).*1.
Proof.
  intros Hl. rewrite fmap_app. apply NoDup_app. split_and!.
  - by apply assoc_remove_keys.
  - intros k' ([k1 v1] & -> & Hin)%list_elem_of_fmap. apply list_elem_of_filter in Hin as [Hne _]. cbn in *.
    by rewrite list_elem_of_singleton.
  - apply NoDup_singleton.
Qed.

Lemma assoc_alter_keys {V} (f : V -> V) (k : K) l :
  NoDup l.*1 -> NoDup ((fun e : K * V => if decide (e.1 = k) then (e.1, f e.2) else e) <$> l).*1.
Proof.
  intros Hl. rewrite <- list_fmap_compose. erewrite list_fmap_ext; [exact Hl|].
  intros i [k1 v1] _. cbn. by case_decide.
Qed.

#[export] Instance AssocList_map : LinkedHashMap K (AssocList K) := {|
  lhm_empty V := mkAssoc [] (NoDup_nil_2);
  lhm_get V k m := assoc_get k (assoc m);
  lhm_insert V k v m := mkAssoc (assoc_remove k (assoc m) ++ [(k, v)]) (assoc_insert_keys k v _ (assoc_keys _ _ m));
  lhm_remove V k m := mkAssoc (assoc_remove k (assoc m)) (assoc_remove_keys k _ (assoc_keys _ _ m));
  lhm_alter V f k m := mkAssoc _ (assoc_alter_keys f k _ (assoc_keys _ _ m));
  lhm_entries V m := assoc m
|}.

Lemma assoc_get_elem {V} (k : K) (v : V) l : NoDup l.*1 -> assoc_get k l = Some v <-> (k, v) ∈ l.
Proof.
  intros Hl. unfold assoc_get. induction l as [|[k1 v1] l IH].
  { split; [done|]. by intros ?%not_elem_of_nil. }
  cbn in Hl. apply NoDup_cons in Hl as [Hk Hl]. cbn [list_find]. case_decide as Hkk; cbn in Hkk.
  - subst k1. cbn. rewrite elem_of_cons. split; [intros [= ->]; by left|]. intros [[= ->]|Hin]; [done|].
    exfalso. apply Hk. apply list_elem_of_fmap. by exists (k, v).
  - rewrite elem_of_cons, <- IH by done. destruct (list_find _ l) as [[i e]|]; cbn; naive_solver.
Qed.

#[export] Instance AssocList_laws : LinkedHashMapLaws K (AssocList K).
Proof.
  split.
  - done.
  - intros V [l Hl]. exact Hl.
  - intros V k v [l Hl]. by apply assoc_get_elem.
  - intros V k v k' [l Hl]. change (assoc_get k' (assoc_remove k l ++ [(k, v)]) =
      if decide (k = k') then Some v else assoc_get k' l). pose proof (assoc_insert_keys k v l Hl) as Hl'. apply option_eq. intros v'.
    rewrite assoc_get_elem by exact Hl'. rewrite elem_of_app, list_elem_of_singleton. unfold assoc_remove.
    rewrite list_elem_of_filter. case_decide as Hk.
    + subst k'. naive_solver.
    + rewrite assoc_get_elem by done. naive_solver.
  - intros V k v [l Hl] Hnone. change (assoc_get k l = None) in Hnone.
    change (assoc_remove k l ++ [(k, v)] = l ++ [(k, v)]). f_equal. unfold assoc_remove. apply filter_all.
    intros [k1 v1] Hin Heq. cbn in Heq. subst k1. apply assoc_get_elem in Hin; [|done]. congruence.
  - done.
  - done.
Qed.

#[export] Instance AssocList_lru : LruCache K (AssocList K) := {|
  lru_new V capacity := lhm_empty;
  lru_get V := lhm_get;
  lru_insert V := lhm_insert;
  lru_remove V := lhm_remove;
  lru_refresh V k m := match lhm_get k m with Some v => lhm_insert k v m | None => m end;
  lru_entries V := lhm_entries
|}.
End assoc_instance.

#[export] Instance AssocList_lru_laws {K} `{EqDecision K} : LruLaws K (AssocList K).
Proof.
  split.
  - intros V n k. apply lhm_get_empty.
  - intros V k k' v w m. change (lhm_get k (lhm_insert k' v m) = Some w -> k = k' /\ w = v \/ k <> k' /\ lhm_get k m = Some w).
    rewrite lhm_get_insert. case_decide; naive_solver.
  - intros V k k' m. change (lhm_get k (match lhm_get k' m with Some v => lhm_insert k' v m | None => m end) = lhm_get k m).
    destruct (lhm_get k' m) as [v|] eqn:Hv; [|done].
    rewrite lhm_get_insert. case_decide; [|done]. subst. by rewrite Hv.
  - intros V k k' m w. change (lhm_get k (lhm_remove k' m) = Some w -> k <> k' /\ lhm_get k m = Some w).
    rewrite lhm_get_remove. case_decide; naive_solver.
Qed.
