(* ===== verification/ProposedPool.v ===== *)
(** * The pool of transactions to commit

    [shared/src/tx_pool/proposed.rs]: the proposed transactions in the order of
    their insertion, with the edges between the transactions that create cells
    and those that spend or read them. *)
From S2P Require Import Prelude Capacity ByteStrings Transactions Blocks CellSet Cells LinkedMap.

Abbreviation ProposalShortId := Bytes (only parsing).

Record ProposedEntry := mkProposedEntry {
  pe_transaction : Transaction;
  pe_refs_count : Z;
  pe_cycles : Z;
  pe_fee : Capacity;
  pe_size : Z
}.

(** ** Edges: for an out point, the transaction that spends it *)
Record Edges := mkEdges {
  e_inner : gmap OutPoint (option Bytes);
  e_outer : gmap OutPoint (option Bytes);
  e_deps : gmap OutPoint (gset Bytes)
}.

Definition Edges_default : Edges := mkEdges ∅ ∅ ∅.

Definition insert_outer (key : OutPoint) (value : ProposalShortId) (self : Edges) : Edges :=
  mkEdges (e_inner self) (<[key := Some value]> (e_outer self)) (e_deps self).
Definition remove_outer (key : OutPoint) (self : Edges) : option ProposalShortId * Edges :=
  (mjoin (e_outer self !! key), mkEdges (e_inner self) (delete key (e_outer self)) (e_deps self)).
Definition remove_inner (key : OutPoint) (self : Edges) : option ProposalShortId * Edges :=
  (mjoin (e_inner self !! key), mkEdges (delete key (e_inner self)) (e_outer self) (e_deps self)).
Definition mark_inpool (key : OutPoint) (self : Edges) : Edges :=
  mkEdges (<[key := None]> (e_inner self)) (e_outer self) (e_deps self).
Definition get_inner (key : OutPoint) (self : Edges) : option (option ProposalShortId) := e_inner self !! key.
Definition get_outer (key : OutPoint) (self : Edges) : option (option ProposalShortId) := e_outer self !! key.
Definition get_deps (key : OutPoint) (self : Edges) : option (gset Bytes) := e_deps self !! key.
Definition remove_deps (key : OutPoint) (self : Edges) : option (gset Bytes) * Edges :=
  (e_deps self !! key, mkEdges (e_inner self) (e_outer self) (delete key (e_deps self))).
Definition insert_deps (key : OutPoint) (value : ProposalShortId) (self : Edges) : Edges :=
  mkEdges (e_inner self) (e_outer self) (<[key := {[value]} ∪ default ∅ (e_deps self !! key)]> (e_deps self)).
Definition delete_value_in_deps (key : OutPoint) (value : ProposalShortId) (self : Edges) : Edges :=
  match e_deps self !! key with
  | Some x =>
      let x := x ∖ {[value]} in
      mkEdges (e_inner self) (e_outer self)
        (if decide (x = ∅) then delete key (e_deps self) else <[key := x]> (e_deps self))
  | None => self
  end.

(** ** The pool *)
Section pool.
Context {M : Type -> Type} `{LM : !LinkedHashMap Bytes M}.

Record ProposedPool := mkProposed {
  vertices : M ProposedEntry;
  edges : Edges
}.

Definition ProposedPool_new : ProposedPool := mkProposed lhm_empty Edges_default.

Definition proposed_get (self : ProposedPool) (id : ProposalShortId) : option ProposedEntry :=
  lhm_get id (vertices self).
Definition proposed_get_tx (self : ProposedPool) (id : ProposalShortId) : option Transaction :=
  pe_transaction <$> proposed_get self id.
Definition proposed_get_output (self : ProposedPool) (o : OutPoint) : option CellOutput :=
  cell ← op_cell o;
  x ← proposed_get self (from_tx_hash (cop_tx_hash cell));
  get_output (pe_transaction x) (cop_index cell).

(** The cell as [CellMetaBuilder] builds it from an output without a block. *)
Definition pool_cell_meta (output : CellOutput) (cell : CellOutPoint) : CellMeta :=
  mkCellMeta (Some output) cell None false (co_capacity output) None.

Definition ProposedPool_cell (self : ProposedPool) : CellProvider :=
  fun o =>
    match op_cell o with
    | None => Ok CellUnspecified
    | Some cell =>
        match get_inner o (edges self) with
        | Some (Some _) => Ok CellDead
        | Some None =>
            output ← expect (proposed_get_output self o);
            Ok (CellLive (pool_cell_meta output cell))
        | None => match get_outer o (edges self) with Some _ => Ok CellDead | None => Ok CellUnknown end
        end
    end.

(** [remove_vertex]: what happens to the edges of a removed transaction.  The
    children that spend or read its outputs are queued. *)
Definition unlink_input (e : Edges) (i : OutPoint) : Edges :=
  match e_inner e !! i with
  | Some _ => (remove_inner i e).2
  | None => (remove_outer i e).2
  end.

Definition unlink_output (st : Edges * list ProposalShortId) (o : OutPoint) : Edges * list ProposalShortId :=
  let '(e, queue) := st in
  let '(child, e) := remove_inner o e in
  let queue := match child with Some cid => queue ++ [cid] | None => queue end in
  let '(ids, e) := remove_deps o e in
  (e, match ids with Some ids => queue ++ elements ids | None => queue end).

Definition unlink_vertex (e : Edges) (queue : list ProposalShortId) (id : ProposalShortId) (tx : Transaction)
    : Edges * list ProposalShortId :=
  let e := foldl unlink_input e (input_pts tx) in
  let e := foldl (fun e d => delete_value_in_deps d id e) e (tx_deps tx) in
  foldl unlink_output (e, queue) (output_pts tx).

(** [while let Some(id) = queue.pop_front()]; the fuel bounds the iterations. *)
Fixpoint remove_loop {E} (fuel : nat) (queue : list ProposalShortId) (self : ProposedPool)
    (entries : list ProposedEntry) : outcome E (list ProposedEntry * ProposedPool) :=
  match queue with
  | [] => Ok (entries, self)
  | id :: queue =>
      match fuel with
      | O => Panic
      | S fuel =>
          match lhm_get id (vertices self) with
          | Some entry =>
              let '(e, queue) := unlink_vertex (edges self) queue id (pe_transaction entry) in
              remove_loop fuel queue (mkProposed (lhm_remove id (vertices self)) e) (entries ++ [entry])
          | None => remove_loop fuel queue self entries
          end
      end
  end.

(** What the loop consumes: an edge for every transaction it queues. *)
Definition edges_weight (e : Edges) : nat :=
  (size (e_inner e) + map_fold (fun _ (s : gset Bytes) n => size s + n) 0 (e_deps e))%nat.

Definition remove_vertex {E} (id : ProposalShortId) (self : ProposedPool)
    : outcome E (list ProposedEntry * ProposedPool) :=
  remove_loop (S (edges_weight (edges self))) [id] self [].

(** [add_tx]: an input is an edge to a transaction of the pool or out of it. *)
Definition link_input (id : ProposalShortId) (st : Edges * Z) (i : OutPoint) : Edges * Z :=
  let '(e, count) := st in
  match e_inner e !! i with
  | Some _ => (mkEdges (<[i := Some id]> (e_inner e)) (e_outer e) (e_deps e), count + 1)
  | None => (insert_outer i id e, count)
  end.

Definition link_dep (id : ProposalShortId) (st : Edges * Z) (d : OutPoint) : Edges * Z :=
  let '(e, count) := st in
  (insert_deps d id e, match e_inner e !! d with Some _ => count + 1 | None => count end).

Definition proposed_add_tx (cycles : Z) (fee : Capacity) (size : Z) (tx : Transaction) (self : ProposedPool)
    : ProposedPool :=
  let id := proposal_short_id tx in
  let st := foldl (link_input id) (edges self, 0) (input_pts tx) in
  let '(e, count) := foldl (link_dep id) st (tx_deps tx) in
  let e := foldl (fun e o => mark_inpool o e) e (output_pts tx) in
  mkProposed (lhm_insert id (mkProposedEntry tx count cycles fee size) (vertices self)) e.

(** [refs_count -= 1] *)
Definition dec_ref {E} (m : M ProposedEntry) (id : ProposalShortId) : outcome E (M ProposedEntry) :=
  match lhm_get id m with
  | Some x =>
      refs_count ← pe_refs_count x -64 1;
      Ok (lhm_alter (fun x => mkProposedEntry (pe_transaction x) refs_count (pe_cycles x) (pe_fee x) (pe_size x)) id m)
  | None => Ok m
  end.

(** An output of a committed transaction: it is now on the chain. *)
Definition commit_output {E} (self : ProposedPool) (o : OutPoint) : outcome E ProposedPool :=
  let '(child, e) := remove_inner o (edges self) in
  '(m, e) ← match child with
            | Some cid => m ← dec_ref (vertices self) cid; Ok (m, insert_outer o cid e)
            | None => Ok (vertices self, e)
            end;
  m ← match get_deps o e with
      | Some x => try_fold dec_ref m (elements x)
      | None => Ok m
      end;
  Ok (mkProposed m e).

(** [remove_deps] of a conflicting input, and the removal of its readers. *)
Definition conflict_ids (i : OutPoint) (self : ProposedPool) : list ProposalShortId * ProposedPool :=
  let '(spender, e) := remove_outer i (edges self) in
  (match spender with Some id => [id] | None => [] end, mkProposed (vertices self) e).
Definition conflict_deps (i : OutPoint) (self : ProposedPool) : list ProposalShortId * ProposedPool :=
  let '(ids, e) := remove_deps i (edges self) in
  (match ids with Some ids => elements ids | None => [] end, mkProposed (vertices self) e).

Definition remove_all {E} (ids : list ProposalShortId) (st : list ProposedEntry * ProposedPool)
    : outcome E (list ProposedEntry * ProposedPool) :=
  try_fold (fun st id =>
    '(entries, self) ← remove_vertex id st.2;
    Ok (st.1 ++ entries, self)) st ids.

Definition conflict_input {E} (st : list ProposedEntry * ProposedPool) (i : OutPoint)
    : outcome E (list ProposedEntry * ProposedPool) :=
  let '(ids, self) := conflict_ids i st.2 in
  st ← remove_all ids (st.1, self);
  let '(ids, self) := conflict_deps i st.2 in
  remove_all ids (st.1, self).

Definition resolve_conflict {E} (tx : Transaction) (self : ProposedPool)
    : outcome E (list ProposedEntry * ProposedPool) :=
  try_fold conflict_input ([], self) (input_pts tx).

Definition remove_committed_tx {E} (tx : Transaction) (self : ProposedPool)
    : outcome E (list ProposedEntry * ProposedPool) :=
  let id := proposal_short_id tx in
  match lhm_get id (vertices self) with
  | Some entry =>
      self ← try_fold commit_output (mkProposed (lhm_remove id (vertices self)) (edges self)) (output_pts tx);
      let e := foldl (fun e i => (remove_outer i e).2) (edges self) (input_pts tx) in
      let e := foldl (fun e d => delete_value_in_deps d id e) e (tx_deps tx) in
      Ok ([entry], mkProposed (vertices self) e)
  | None => resolve_conflict tx self
  end.

Definition txs_iter (self : ProposedPool) : list ProposedEntry := (lhm_entries (vertices self)).*2.
Definition get_txs (n : nat) (self : ProposedPool) : list ProposedEntry := take n (txs_iter self).
End pool.
Arguments ProposedPool : clear implicits.

(** ** Lemmas on edges *)
Definition dep_ids (e : Edges) (o : OutPoint) : gset Bytes := default ∅ (e_deps e !! o).

Lemma decide_elem_cons {B} (o x : OutPoint) l (a b : B) :
  (if decide (o ∈ x :: l) then a else b) = if decide (o = x) then a else if decide (o ∈ l) then a else b.
Proof.
  destruct (decide (o = x)) as [->|]; [rewrite decide_True by left; done|].
  apply decide_ext. rewrite elem_of_cons. naive_solver.
Qed.

Lemma unlink_inputs_spec l e :
  (forall o x, e_inner e !! o = Some x -> e_outer e !! o = None) ->
  let e' := foldl unlink_input e l in
  e_deps e' = e_deps e /\
  (forall o, e_inner e' !! o = if decide (o ∈ l) then None else e_inner e !! o) /\
  (forall o, e_outer e' !! o = if decide (o ∈ l) then None else e_outer e !! o).
Proof.
  revert e. induction l as [|i l IH]; intros e Hdisj; cbn [foldl].
  { split_and!; [done| |]; intros o; (rewrite decide_False; [done|apply not_elem_of_nil]). }
  assert (H1 : e_deps (unlink_input e i) = e_deps e /\
    (forall o, e_inner (unlink_input e i) !! o = if decide (o = i) then None else e_inner e !! o) /\
    (forall o, e_outer (unlink_input e i) !! o = if decide (o = i) then None else e_outer e !! o)).
  { unfold unlink_input. destruct (e_inner e !! i) as [x|] eqn:Hi; cbn; split_and!; try done; intros o; case_decide; subst;
      rewrite ?lookup_delete_eq, ?lookup_delete_ne by done; eauto. }
  destruct H1 as (Hd & Hi & Ho). destruct (IH (unlink_input e i)) as (Hd' & Hi' & Ho').
  { intros o x. rewrite Hi, Ho. case_decide; [done|]. apply Hdisj. }
  split_and!; [congruence| |]; intros o; rewrite ?Hi', ?Ho', ?Hi, ?Ho;
    rewrite decide_elem_cons; by repeat case_decide.
Qed.

Lemma delete_value_spec d id e :
  e_inner (delete_value_in_deps d id e) = e_inner e /\ e_outer (delete_value_in_deps d id e) = e_outer e /\
  forall o, dep_ids (delete_value_in_deps d id e) o = if decide (o = d) then dep_ids e o ∖ {[id]} else dep_ids e o.
Proof.
  unfold delete_value_in_deps, dep_ids. destruct (e_deps e !! d) as [x|] eqn:Hd; cbn [e_inner e_outer e_deps].
  - split_and!; [done..|]. intros o. destruct (decide (o = d)) as [->|].
    + rewrite Hd. case_decide as Hx; [by rewrite lookup_delete_eq|by rewrite lookup_insert_eq].
    + case_decide; [by rewrite lookup_delete_ne|by rewrite lookup_insert_ne].
  - split_and!; [done..|]. intros o. case_decide; [subst; rewrite Hd; set_solver|done].
Qed.

Lemma delete_values_spec l id e :
  let e' := foldl (fun e d => delete_value_in_deps d id e) e l in
  e_inner e' = e_inner e /\ e_outer e' = e_outer e /\
  forall o, dep_ids e' o = if decide (o ∈ l) then dep_ids e o ∖ {[id]} else dep_ids e o.
Proof.
  revert e. induction l as [|d l IH]; intros e; cbn [foldl].
  { split_and!; [done..|]. intros o. rewrite decide_False; [done|apply not_elem_of_nil]. }
  destruct (delete_value_spec d id e) as (Hi & Ho & Hd).
  destruct (IH (delete_value_in_deps d id e)) as (Hi' & Ho' & Hd'). split_and!; [congruence..|].
  intros o. rewrite Hd', Hd, decide_elem_cons. repeat case_decide; set_solver.
Qed.

Lemma unlink_outputs_spec l e q :
  let st := foldl unlink_output (e, q) l in
  (forall o, e_inner st.1 !! o = if decide (o ∈ l) then None else e_inner e !! o) /\
  e_outer st.1 = e_outer e /\
  (forall o, dep_ids st.1 o = if decide (o ∈ l) then ∅ else dep_ids e o) /\
  forall c, c ∈ st.2 <-> c ∈ q \/ exists o, o ∈ l /\ (e_inner e !! o = Some (Some c) \/ c ∈ dep_ids e o).
Proof.
  revert e q. induction l as [|x l IH]; intros e q; cbn [foldl].
  { split_and!; [|done| |]; intros o; try (rewrite decide_False; [done|apply not_elem_of_nil]).
    split; [by left|]. intros [?|(? & []%not_elem_of_nil & _)]; done. }
  destruct (unlink_output (e, q) x) as [e1 q1] eqn:Hx. unfold unlink_output in Hx. cbn in Hx. injection Hx as He1 Hq1.
  assert (Hi1 : forall o, e_inner e1 !! o = if decide (o = x) then None else e_inner e !! o).
  { intros o. subst e1. cbn. case_decide; subst; [by rewrite lookup_delete_eq|by rewrite lookup_delete_ne]. }
  assert (Hd1 : forall o, dep_ids e1 o = if decide (o = x) then ∅ else dep_ids e o).
  { intros o. subst e1. unfold dep_ids. cbn. case_decide; subst; [by rewrite lookup_delete_eq|by rewrite lookup_delete_ne]. }
  assert (Hc1 : forall c, c ∈ q1 <-> c ∈ q \/ e_inner e !! x = Some (Some c) \/ c ∈ dep_ids e x).
  { intros c. subst q1. unfold dep_ids. destruct (e_inner e !! x) as [[cid|]|], (e_deps e !! x) as [ids|]; cbn;
      rewrite ?elem_of_app, ?list_elem_of_singleton, ?elem_of_elements, ?elem_of_empty; naive_solver. }
  assert (Ho1 : e_outer e1 = e_outer e) by (by subst e1). clear He1 Hq1.
  destruct (IH e1 q1) as (Hi & Ho & Hd & Hc). split_and!; [|congruence| |].
  - intros o. rewrite Hi, Hi1, decide_elem_cons. by repeat case_decide.
  - intros o. rewrite Hd, Hd1, decide_elem_cons. by repeat case_decide.
  - intros c. rewrite Hc, Hc1. setoid_rewrite Hi1. setoid_rewrite Hd1. split.
    + intros [[?|?]|(o & ? & Hor)]; [by left|right; exists x; split; [left|done]|].
      destruct (decide (o = x)); [set_solver|]. right. exists o. split; [by right|done].
    + intros [?|(o & [->|?]%elem_of_cons & Hor)]; [by left; left|by left; right|].
      destruct (decide (o = x)) as [->|]; [by left; right|]. right. exists o. split; [done|].
      by rewrite !decide_False by done.
Qed.

(** The edges after the removal of a transaction, and the queued children. *)
Lemma unlink_vertex_spec e q id tx e' q' :
  (forall o x, e_inner e !! o = Some x -> e_outer e !! o = None) ->
  unlink_vertex e q id tx = (e', q') ->
  (forall o, e_inner e' !! o = if decide (o ∈ output_pts tx \/ o ∈ input_pts tx) then None else e_inner e !! o) /\
  (forall o, e_outer e' !! o = if decide (o ∈ input_pts tx) then None else e_outer e !! o) /\
  (forall o, dep_ids e' o = if decide (o ∈ output_pts tx) then ∅
     else if decide (o ∈ tx_deps tx) then dep_ids e o ∖ {[id]} else dep_ids e o) /\
  forall c, c ∈ q' <-> c ∈ q \/ exists o, o ∈ output_pts tx /\
    ((~ o ∈ input_pts tx /\ e_inner e !! o = Some (Some c)) \/
     c ∈ (if decide (o ∈ tx_deps tx) then dep_ids e o ∖ {[id]} else dep_ids e o)).
Proof.
  intros Hdisj. unfold unlink_vertex. intros Heq.
  destruct (unlink_inputs_spec (input_pts tx) e Hdisj) as (Hd1 & Hi1 & Ho1).
  set (e1 := foldl unlink_input e (input_pts tx)) in *.
  destruct (delete_values_spec (tx_deps tx) id e1) as (Hi2 & Ho2 & Hd2).
  set (e2 := foldl (fun e d => delete_value_in_deps d id e) e1 (tx_deps tx)) in *.
  destruct (unlink_outputs_spec (output_pts tx) e2 q) as (Hi3 & Ho3 & Hd3 & Hc3).
  rewrite Heq in Hi3, Ho3, Hd3, Hc3. cbn [fst snd] in *.
  assert (Hd2' : forall o, dep_ids e2 o =
    if decide (o ∈ tx_deps tx) then dep_ids e o ∖ {[id]} else dep_ids e o).
  { intros o. rewrite Hd2. unfold dep_ids. by rewrite Hd1. }
  split_and!.
  - intros o. rewrite Hi3, Hi2, Hi1. repeat case_decide; naive_solver.
  - intros o. by rewrite Ho3, Ho2, Ho1.
  - intros o. by rewrite Hd3, Hd2'.
  - intros c. rewrite Hc3, Hi2. setoid_rewrite Hd2'. setoid_rewrite Hi1.
    split; (intros [?|(o & Hin & Hor)]; [by left|right; exists o; split; [done|]]);
      destruct Hor as [Hor|Hor]; [|by right| |by right]; left.
    + by destruct (decide (o ∈ input_pts tx)).
    + destruct Hor as [Hn Hor]. by rewrite decide_False.
Qed.
