(* ===== verification/PoolLinks.v ===== *)
(** * The links of the pool

    The invariant between the transactions of the proposed pool and its edges,
    and what the operations of [proposed.rs] do under it: the removal of a
    transaction takes its descendants with it and nothing else, and the order
    of insertion is an order in which the transactions can be committed. *)
From stdpp Require Import relations.
From S2P Require Import Prelude Capacity ByteStrings Transactions Blocks CellSet Cells LinkedMap ProposedPool.

Section links.
Context {M : Type -> Type} `{LM : !LinkedHashMap Bytes M} `{!LinkedHashMapLaws Bytes M}.
Implicit Types (self : ProposedPool M) (id c : Bytes) (o : OutPoint) (e : ProposedEntry).

Definition entry_outputs (e : ProposedEntry) : list OutPoint := output_pts (pe_transaction e).
Definition entry_inputs (e : ProposedEntry) : list OutPoint := input_pts (pe_transaction e).
Definition entry_deps (e : ProposedEntry) : list OutPoint := tx_deps (pe_transaction e).
Definition entry_id (e : ProposedEntry) : Bytes := proposal_short_id (pe_transaction e).

(** The transaction spends the cell; the marker of a withdrawal from the DAO
    is an input and not a cell. *)
Definition spends (e : ProposedEntry) (o : OutPoint) : Prop := is_issuing_dao o = false /\ o ∈ entry_inputs e.

(** The transaction spends or reads the cell. *)
Definition uses (e : ProposedEntry) (o : OutPoint) : Prop := spends e o \/ o ∈ entry_deps e.

(** A transaction of the pool creates the cell. *)
Definition creates (self : ProposedPool M) (o : OutPoint) : Prop :=
  exists p e, proposed_get self p = Some e /\ o ∈ entry_outputs e.

(** The edges are those of the transactions; [queue] holds the transactions
    that [remove_vertex] is about to remove. *)
Record linked (self : ProposedPool M) (queue : list Bytes) : Prop := {
  li_id : forall id e, proposed_get self id = Some e -> entry_id e = id;
  li_own : forall id e o, proposed_get self id = Some e -> o ∈ entry_outputs e -> ~ o ∈ entry_inputs e;
  li_dao : forall o, is_issuing_dao o = true -> ~ creates self o;
  li_once : forall c c' e e' o, proposed_get self c = Some e -> proposed_get self c' = Some e' ->
    spends e o -> spends e' o -> c = c';
  li_spent : forall c e o, proposed_get self c = Some e -> spends e o ->
    (creates self o /\ e_inner (edges self) !! o = Some (Some c)) \/
    (~ creates self o /\ e_inner (edges self) !! o = None /\
     (e_outer (edges self) !! o = Some (Some c) \/ (c ∈ queue /\ e_outer (edges self) !! o = None)));
  li_inner : forall o x, e_inner (edges self) !! o = Some x ->
    creates self o /\ forall c, x = Some c -> exists e, proposed_get self c = Some e /\ o ∈ entry_inputs e;
  li_outer : forall o x, e_outer (edges self) !! o = Some x ->
    ~ creates self o /\ exists c e, x = Some c /\ proposed_get self c = Some e /\ o ∈ entry_inputs e;
  li_deps : forall o c, c ∈ dep_ids (edges self) o ->
    exists e, proposed_get self c = Some e /\ o ∈ entry_deps e;
  li_read : forall c e o, proposed_get self c = Some e -> o ∈ entry_deps e ->
    c ∈ queue \/ c ∈ dep_ids (edges self) o
}.

(** Two transactions that create a cell are the same. *)
Lemma creator_unique self queue p p' e e' o :
  linked self queue -> proposed_get self p = Some e -> proposed_get self p' = Some e' ->
  o ∈ entry_outputs e -> o ∈ entry_outputs e' -> p = p'.
Proof.
  intros Hl Hp Hp' Ho Ho'. rewrite <- (li_id _ _ Hl _ _ Hp), <- (li_id _ _ Hl _ _ Hp').
  unfold entry_outputs, output_pts in *. apply list_elem_of_fmap in Ho as (i & -> & _).
  apply list_elem_of_fmap in Ho' as (j & Heq & _). unfold entry_id, proposal_short_id. unfold new_cell in Heq. congruence.
Qed.

Lemma creates_cell self queue o : linked self queue -> creates self o -> is_issuing_dao o = false.
Proof. intros Hl Hc. destruct (is_issuing_dao o) eqn:Ho; [|done]. by destruct (li_dao _ _ Hl o Ho). Qed.

Lemma linked_disjoint self queue o x :
  linked self queue -> e_inner (edges self) !! o = Some x -> e_outer (edges self) !! o = None.
Proof.
  intros Hl Hi. destruct (e_outer (edges self) !! o) as [y|] eqn:Ho; [|done].
  destruct (li_inner _ _ Hl _ _ Hi), (li_outer _ _ Hl _ _ Ho). done.
Qed.

Lemma unlink_get self id (e' : Edges) c :
  proposed_get (mkProposed (lhm_remove id (vertices self)) e') c =
  if decide (id = c) then None else proposed_get self c.
Proof. unfold proposed_get. cbn. apply lhm_get_remove. Qed.

Lemma unlink_get_Some self id (e' : Edges) c ec :
  proposed_get (mkProposed (lhm_remove id (vertices self)) e') c = Some ec ->
  id <> c /\ proposed_get self c = Some ec.
Proof. rewrite unlink_get. by case_decide. Qed.

(** The state after [id] is removed from the pool. *)
Section unlink.
Context (self : ProposedPool M) (queue pend : list Bytes) (id : Bytes) (e : ProposedEntry) (e' : Edges) (queue' : list Bytes).
Context (Hl : linked self (id :: queue ++ pend)) (Hid : proposed_get self id = Some e).
Context (Hun : unlink_vertex (edges self) queue id (pe_transaction e) = (e', queue')).
Let self' : ProposedPool M := mkProposed (lhm_remove id (vertices self)) e'.
Let Hget c : proposed_get self' c = (if decide (id = c) then None else proposed_get self c) :=
  unlink_get self id e' c.

Lemma unlink_creates o : creates self' o <-> creates self o /\ ~ o ∈ entry_outputs e.
Proof.
  split.
  - intros (p & ep & [Hne Hp]%unlink_get_Some & Ho). split; [by exists p, ep|]. intros Ho'.
    by destruct Hne; eapply creator_unique.
  - intros [(p & ep & Hp & Ho) Hn]. exists p, ep. split; [|done]. rewrite Hget, decide_False; [done|].
    intros <-. naive_solver.
Qed.

(** The children are queued. *)
Lemma unlink_queued c ec o :
  proposed_get self' c = Some ec -> o ∈ entry_outputs e -> uses ec o -> c ∈ queue' ++ pend.
Proof.
  intros [Hne Hc]%unlink_get_Some Ho Huse.
  destruct (unlink_vertex_spec _ _ _ _ _ _ (fun o x => linked_disjoint self _ o x Hl) Hun) as (_ & _ & _ & Hq).
  rewrite elem_of_app, Hq. destruct Huse as [Hin|Hdep].
  - left. right. exists o. split; [done|]. left. split; [by eapply li_own|]. 
    destruct (li_spent _ _ Hl _ _ _ Hc Hin) as [[_ ?]|[[] _]]; [done|]. by exists id, e.
  - destruct (li_read _ _ Hl _ _ _ Hc Hdep) as [[->|[?|?]%elem_of_app]%elem_of_cons|Hr]; [done|by left; left|by right|].
    left. right. exists o. split; [done|]. right. case_decide; [|done]. set_solver.
Qed.

(** A queued transaction was queued before or is a child. *)
Lemma unlink_queue c :
  c ∈ queue' -> c ∈ queue \/ exists o ec, proposed_get self c = Some ec /\ o ∈ entry_outputs e /\ uses ec o.
Proof.
  destruct (unlink_vertex_spec _ _ _ _ _ _ (fun o x => linked_disjoint self _ o x Hl) Hun) as (_ & _ & _ & Hq).
  intros [?|(o & Ho & Hor)]%Hq; [by left|]. right. destruct Hor as [[_ Hin]|Hd].
  - destruct (li_inner _ _ Hl _ _ Hin) as [Hcr Hc]. destruct (Hc c eq_refl) as (ec & ? & ?).
    exists o, ec. split_and!; [done..|left]. split; [|done]. by eapply creates_cell.
  - assert (Hd' : c ∈ dep_ids (edges self) o) by (destruct (decide (o ∈ tx_deps (pe_transaction e))); set_solver).
    destruct (li_deps _ _ Hl _ _ Hd') as (ec & ? & ?). exists o, ec. split_and!; [done..|by right].
Qed.

Lemma unlink_queue_old c : c ∈ queue -> c ∈ queue'.
Proof.
  destruct (unlink_vertex_spec _ _ _ _ _ _ (fun o x => linked_disjoint self _ o x Hl) Hun) as (_ & _ & _ & Hq).
  intros Hc. apply Hq. by left.
Qed.

Lemma unlink_linked : linked self' (queue' ++ pend).
Proof.
  destruct (unlink_vertex_spec _ _ _ _ _ _ (fun o x => linked_disjoint self _ o x Hl) Hun) as (Hi & Ho & Hd & Hq).
  assert (Hqueue : forall c, c ∈ id :: queue ++ pend -> id <> c -> c ∈ queue' ++ pend).
  { intros c [->|[?|?]%elem_of_app]%elem_of_cons ?; [done| |]; rewrite elem_of_app, Hq; auto. }
  split.
  - intros c ec [_ Hc]%unlink_get_Some. by eapply li_id.
  - intros c ec o [_ Hc]%unlink_get_Some. by eapply li_own.
  - intros o Ho' [Hcr _]%unlink_creates. by apply (li_dao _ _ Hl o).
  - intros c c' ec ec' o [_ Hc]%unlink_get_Some [_ Hc']%unlink_get_Some. by eapply li_once.
  - intros c ec o Hc' Hin. pose proof Hc' as [Hne Hc]%unlink_get_Some. rewrite unlink_creates. cbn [edges self'].
    rewrite Hi, Ho.
    assert (Hnot : ~ o ∈ entry_inputs e).
    { intros Hoe. destruct Hne. eapply (li_once _ _ Hl); [done..| |exact Hin]. split; [apply Hin|done]. }
    rewrite (decide_False (P := o ∈ input_pts (pe_transaction e))) by done.
    destruct (li_spent _ _ Hl _ _ _ Hc Hin) as [[Hcr Hinn]|(Hncr & Hinn & Hout)].
    + destruct (decide (o ∈ entry_outputs e)) as [Hoo|Hoo].
      * right. rewrite decide_True by (by left). split_and!; [naive_solver|done|]. right.
        split; [|by eapply linked_disjoint]. eapply unlink_queued; [exact Hc'|exact Hoo|by left].
      * left. rewrite decide_False by naive_solver. done.
    + right. split_and!; [naive_solver|by case_decide|]. destruct Hout as [?|[Hcq ?]]; [by left|right].
      split; [|done]. by apply Hqueue.
  - intros o x. cbn [edges self']. rewrite Hi. case_decide as Hor; [done|]. intros Hx.
    destruct (li_inner _ _ Hl _ _ Hx) as [Hcr Hsp]. rewrite unlink_creates. split; [naive_solver|].
    intros c ->. destruct (Hsp c eq_refl) as (ec & Hc & Hin). exists ec. rewrite Hget, decide_False; [done|].
    intros <-. naive_solver.
  - intros o x. cbn [edges self']. rewrite Ho. case_decide as Hor; [done|]. intros Hx.
    destruct (li_outer _ _ Hl _ _ Hx) as (Hcr & c & ec & -> & Hc & Hin). rewrite unlink_creates. split; [naive_solver|].
    exists c, ec. rewrite Hget, decide_False; [done|]. intros <-. naive_solver.
  - intros o c. cbn [edges self']. rewrite Hd. case_decide; [set_solver|]. intros Hin.
    assert (Hin' : c ∈ dep_ids (edges self) o) by (case_decide; set_solver).
    destruct (li_deps _ _ Hl _ _ Hin') as (ec & Hc & Hec). exists ec. rewrite Hget, decide_False; [done|].
    intros <-. rewrite Hid in Hc. injection Hc as <-. rewrite decide_True in Hin by done. set_solver.
  - intros c ec o Hc' Hdep. pose proof Hc' as [Hne Hc]%unlink_get_Some. cbn [edges self']. rewrite Hd.
    destruct (decide (o ∈ output_pts (pe_transaction e))) as [Hoo|_].
    { left. eapply unlink_queued; [exact Hc'|exact Hoo|by right]. }
    destruct (li_read _ _ Hl _ _ _ Hc Hdep) as [?|Hr]; [left; by apply Hqueue|right].
    case_decide; set_solver.
Qed.
End unlink.

Lemma linked_skip self queue id : linked self (id :: queue) -> proposed_get self id = None -> linked self queue.
Proof.
  intros [H1 H2 H0 H3 H4 H5 H6 H7 H8] Hid. split; try done.
  - intros c e o Hc Hin. destruct (H4 c e o Hc Hin) as [?|(? & ? & [?|[Hq ?]])]; [by left|by right; eauto|right].
    split_and!; [done..|]. right. split; [|done]. apply elem_of_cons in Hq as [->|?]; [congruence|done].
  - intros c e o Hc Hin. destruct (H8 c e o Hc Hin) as [[->|?]%elem_of_cons|?]; [congruence|by left|by right].
Qed.

(** ** The removal of a transaction *)

(** [c] spends or reads a cell that [p] creates. *)
Definition child (self : ProposedPool M) (p c : Bytes) : Prop :=
  exists ep ec o, proposed_get self p = Some ep /\ proposed_get self c = Some ec /\
    o ∈ entry_outputs ep /\ uses ec o.

(** From [self] to [self'], [removed] are the queued transactions and
    descendants of theirs, and no transaction that is left uses a cell they
    create, nor one that is [gone], but those that are removed next. *)
Record removal (self : ProposedPool M) (queue pend : list Bytes) (gone : OutPoint -> Prop)
    (self' : ProposedPool M) (removed : list ProposedEntry) : Prop := {
  rm_linked : linked self' pend;
  rm_entries : lhm_entries (vertices self') =
    filter (fun kv => ~ kv.1 ∈ entry_id <$> removed) (lhm_entries (vertices self));
  rm_old : forall e, e ∈ removed -> proposed_get self (entry_id e) = Some e;
  rm_reach : forall e, e ∈ removed -> exists q, q ∈ queue /\ rtc (child self) q (entry_id e);
  rm_queue : forall q, q ∈ queue -> proposed_get self' q = None;
  rm_closed : forall c e o, proposed_get self' c = Some e ->
    gone o \/ (exists r, r ∈ removed /\ o ∈ entry_outputs r) -> uses e o -> c ∈ pend
}.

(** Every use of a cell that is gone is queued. *)
Definition gone_queued (self : ProposedPool M) (queue : list Bytes) (gone : OutPoint -> Prop) : Prop :=
  forall c e o, proposed_get self c = Some e -> gone o -> uses e o -> c ∈ queue.

Lemma filtered_get self self' (P : Bytes * ProposedEntry -> Prop) `{forall kv, Decision (P kv)} c ec :
  lhm_entries (vertices self') = filter P (lhm_entries (vertices self)) ->
  proposed_get self' c = Some ec -> proposed_get self c = Some ec.
Proof.
  unfold proposed_get. intros Hent Hc. apply lhm_get_entries in Hc. rewrite Hent in Hc.
  apply list_elem_of_filter in Hc as [_ Hin]. by apply lhm_get_entries.
Qed.

Lemma removal_nil self pend gone :
  linked self pend -> gone_queued self pend gone -> removal self [] pend gone self [].
Proof.
  intros Hl Hg. split; try done; [|by intros ? ?%not_elem_of_nil..|].
  - rewrite filter_all; [done|]. intros ? _. apply not_elem_of_nil.
  - intros c e o Hc [Hgo|(r & []%not_elem_of_nil & _)] Hu. by apply (Hg c e o).
Qed.

Lemma removal_skip self id queue pend gone self' removed :
  proposed_get self id = None -> removal self queue pend gone self' removed ->
  removal self (id :: queue) pend gone self' removed.
Proof.
  intros Hid [Hl Hent Hold Hreach Hq Hclosed]. split; try done.
  - intros e Hin. destruct (Hreach e Hin) as (q & ? & ?). exists q. split; [by right|done].
  - intros q [->|?]%elem_of_cons; [|by apply Hq]. destruct (proposed_get self' id) as [ec|] eqn:Hc; [|done].
    apply (filtered_get _ _ _ _ _ Hent) in Hc. congruence.
Qed.

Lemma removal_step self id queue pend gone e (e1 : Edges) queue1 self' removed :
  linked self (id :: queue ++ pend) -> proposed_get self id = Some e ->
  unlink_vertex (edges self) queue id (pe_transaction e) = (e1, queue1) ->
  removal (mkProposed (lhm_remove id (vertices self)) e1) queue1 pend (fun o => gone o \/ o ∈ entry_outputs e)
    self' removed ->
  removal self (id :: queue) pend gone self' (e :: removed).
Proof.
  intros Hl Hid Hun [Hl' Hent Hold Hreach Hq Hclosed]. pose proof (li_id _ _ Hl _ _ Hid) as Hide.
  set (self1 := mkProposed (lhm_remove id (vertices self)) e1) in *.
  assert (Hsub : forall c ec, proposed_get self1 c = Some ec -> proposed_get self c = Some ec).
  { intros c ec [_ ?]%(unlink_get_Some self id e1). done. }
  split; [done|..].
  - rewrite Hent. cbn [vertices self1]. rewrite lhm_entries_remove. rewrite list_filter_filter.
    apply list_filter_iff. intros [k v]. cbn. rewrite elem_of_cons, Hide. naive_solver.
  - intros e0 [->|Hin]%elem_of_cons; [by rewrite Hide|]. apply Hsub. by apply Hold.
  - intros e0 [->|Hin]%elem_of_cons; [exists id; split; [left|]; by rewrite Hide|].
    destruct (Hreach e0 Hin) as (q & Hqin & Hr).
    assert (Hr' : rtc (child self) q (entry_id e0)).
    { eapply rtc_subrel; [|exact Hr]. intros p c (ep & ec & o & ? & ? & ? & ?).
      exists ep, ec, o. split_and!; auto. }
    destruct (unlink_queue self queue pend id e e1 queue1 Hl Hid Hun q Hqin) as [?|(o & eq & Hgq & Ho & Hu)].
    + exists q. split; [by right|done].
    + exists id. split; [left|]. eapply rtc_l; [|exact Hr']. by exists e, eq, o.
  - intros q [->|Hin]%elem_of_cons.
    + destruct (proposed_get self' id) as [ec|] eqn:Hc; [|done]. apply (filtered_get _ _ _ _ _ Hent) in Hc.
      by apply unlink_get_Some in Hc as [].
    + apply Hq. by eapply unlink_queue_old.
  - intros c ec o Hc Hor. apply (Hclosed c ec o Hc).
    destruct Hor as [?|(r & [->|?]%elem_of_cons & ?)]; [by left; left|by left; right|right; by exists r].
Qed.

Lemma remove_loop_spec {E} fuel queue pend self acc acc' self' gone :
  linked self (queue ++ pend) -> gone_queued self (queue ++ pend) gone ->
  remove_loop (E := E) fuel queue self acc = Ok (acc', self') ->
  exists removed, acc' = acc ++ removed /\ removal self queue pend gone self' removed.
Proof.
  revert queue self acc gone. induction fuel as [|fuel IH]; intros queue self acc gone Hl Hg;
    (destruct queue as [|id queue]; cbn [remove_loop];
      [intros [= <- <-]; exists []; rewrite app_nil_r; split; [done|by apply removal_nil]|]); [done|].
  destruct (lhm_get id (vertices self)) as [e|] eqn:Hid.
  - destruct (unlink_vertex (edges self) queue id (pe_transaction e)) as [e1 queue1] eqn:Hun. intros Hloop.
    apply (IH _ _ _ (fun o => gone o \/ o ∈ entry_outputs e)) in Hloop as (removed & -> & Hr).
    + exists (e :: removed). rewrite <- app_assoc. split; [done|]. by eapply removal_step.
    + by eapply unlink_linked.
    + intros c ec o Hc [Hgo|Ho] Hu; [|by eapply unlink_queued]. pose proof Hc as [Hne Hc']%unlink_get_Some.
      pose proof (Hg c ec o Hc' Hgo Hu) as [->|[Hin|?]%elem_of_app]%elem_of_cons; [done| |];
        apply elem_of_app; [left; by eapply unlink_queue_old|by right].
  - intros Hloop. apply (IH _ _ _ gone) in Hloop as (removed & -> & Hr).
    + exists removed. split; [done|]. by apply removal_skip.
    + by eapply linked_skip.
    + intros c ec o Hc Hgo Hu. pose proof (Hg c ec o Hc Hgo Hu) as [->|?]%elem_of_cons; [|done].
      unfold proposed_get in Hc. congruence.
Qed.

(** The loop ends: it uses up an edge for every transaction it queues. *)
Definition deps_weight (d : gmap OutPoint (gset Bytes)) : nat :=
  map_fold (fun _ (s : gset Bytes) n => size s + n)%nat 0%nat d.

Lemma deps_weight_delete d k : (deps_weight (delete k d) + size (default ∅ (d !! k)) = deps_weight d)%nat.
Proof.
  destruct (d !! k) as [s|] eqn:Hk.
  - unfold deps_weight. rewrite (map_fold_delete_L _ _ k s d); [cbn; lia| |done]. intros. lia.
  - rewrite delete_id by done. cbn. rewrite size_empty. lia.
Qed.

Lemma deps_weight_insert d k s : (deps_weight (<[k := s]> d) + size (default ∅ (d !! k)) = deps_weight d + size s)%nat.
Proof.
  pose proof (deps_weight_delete (<[k := s]> d) k) as H1. rewrite lookup_insert_eq, delete_insert_eq in H1. cbn in H1.
  pose proof (deps_weight_delete d k). lia.
Qed.

Lemma inner_weight_delete (m : gmap OutPoint (option Bytes)) k :
  (size (delete k m) + (match m !! k with Some _ => 1 | None => 0 end) = size m)%nat.
Proof.
  destruct (m !! k) as [x|] eqn:Hk; [|by rewrite delete_id, Nat.add_0_r].
  rewrite <- (insert_delete_id m k x Hk) at 2. rewrite map_size_insert_None; [lia|apply lookup_delete_eq].
Qed.

Lemma unlink_input_weight (e : Edges) i : (edges_weight (unlink_input e i) <= edges_weight e)%nat.
Proof.
  unfold unlink_input. pose proof (inner_weight_delete (e_inner e) i).
  destruct (e_inner e !! i); unfold edges_weight; cbn; lia.
Qed.

Lemma delete_value_weight d id (e : Edges) : (edges_weight (delete_value_in_deps d id e) <= edges_weight e)%nat.
Proof.
  unfold delete_value_in_deps. destruct (e_deps e !! d) as [x|] eqn:Hd; [|done].
  pose proof (subseteq_size (x ∖ {[id]}) x ltac:(set_solver)).
  unfold edges_weight. cbn [e_inner e_deps]. fold (deps_weight (e_deps e)).
  case_decide.
  - pose proof (deps_weight_delete (e_deps e) d). fold (deps_weight (delete d (e_deps e))). lia.
  - pose proof (deps_weight_insert (e_deps e) d (x ∖ {[id]})) as Hw. rewrite Hd in Hw. cbn in Hw.
    fold (deps_weight (<[d := x ∖ {[id]}]> (e_deps e))). lia.
Qed.

Lemma unlink_output_weight (e : Edges) q o :
  let st := unlink_output (e, q) o in (length st.2 + edges_weight st.1 <= length q + edges_weight e)%nat.
Proof.
  cbn. pose proof (inner_weight_delete (e_inner e) o). pose proof (deps_weight_delete (e_deps e) o).
  unfold edges_weight. cbn [e_inner e_deps]. fold (deps_weight (e_deps e)) (deps_weight (delete o (e_deps e))).
  destruct (e_inner e !! o) as [[c|]|], (e_deps e !! o) as [ids|]; cbn in *; rewrite ?length_app; cbn;
    rewrite ?length_app; cbn; unfold size, set_size in *; cbn in *; lia.
Qed.

Lemma unlink_vertex_weight (e : Edges) q id tx (e' : Edges) q' :
  unlink_vertex e q id tx = (e', q') -> (length q' + edges_weight e' <= length q + edges_weight e)%nat.
Proof.
  unfold unlink_vertex. intros Heq.
  assert (H1 : forall l (e0 : Edges), (edges_weight (foldl unlink_input e0 l) <= edges_weight e0)%nat).
  { induction l as [|i l IH]; intros e0; [done|]. cbn [foldl]. pose proof (IH (unlink_input e0 i)).
    pose proof (unlink_input_weight e0 i). lia. }
  assert (H2 : forall l (e0 : Edges), (edges_weight (foldl (fun (e : Edges) d => delete_value_in_deps d id e) e0 l) <= edges_weight e0)%nat).
  { induction l as [|d l IH]; intros e0; [done|]. cbn [foldl]. pose proof (IH (delete_value_in_deps d id e0)).
    pose proof (delete_value_weight d id e0). lia. }
  assert (H3 : forall l (e0 : Edges) q0, let st := foldl unlink_output (e0, q0) l in
    (length st.2 + edges_weight st.1 <= length q0 + edges_weight e0)%nat).
  { induction l as [|o l IH]; intros e0 q0; [done|]. cbn [foldl]. pose proof (unlink_output_weight e0 q0 o) as Hw.
    destruct (unlink_output (e0, q0) o) as [e1 q1]. pose proof (IH e1 q1). cbn in *. lia. }
  pose proof (H3 (output_pts tx) (foldl (fun (e : Edges) d => delete_value_in_deps d id e) (foldl unlink_input e (input_pts tx)) (tx_deps tx)) q) as Hw.
  rewrite Heq in Hw. cbn in Hw. pose proof (H1 (input_pts tx) e). pose proof (H2 (tx_deps tx) (foldl unlink_input e (input_pts tx))). lia.
Qed.

Lemma remove_loop_total {E} fuel queue self acc :
  (length queue + edges_weight (edges self) <= fuel)%nat ->
  exists acc' self', remove_loop (E := E) fuel queue self acc = Ok (acc', self').
Proof.
  revert queue self acc. induction fuel as [|fuel IH]; intros [|id queue] self acc Hw; cbn [remove_loop]; eauto;
    cbn in Hw; [lia|].
  destruct (lhm_get id (vertices self)) as [e|]; [|apply IH; lia].
  destruct (unlink_vertex _ _ _ _) as [e1 queue1] eqn:Hun. apply unlink_vertex_weight in Hun.
  apply IH. cbn [edges]. lia.
Qed.

Lemma linked_mono self queue queue' :
  (forall c, c ∈ queue -> c ∈ queue') -> linked self queue -> linked self queue'.
Proof.
  intros Hsub [H1 H2 H0 H3 H4 H5 H6 H7 H8]. split; try done.
  - intros c e o Hc Hin. destruct (H4 c e o Hc Hin) as [?|(? & ? & [?|[? ?]])]; [by left|right; eauto|right].
    split_and!; eauto.
  - intros c e o Hc Hin. destruct (H8 c e o Hc Hin) as [?|?]; auto.
Qed.

Lemma remove_vertex_spec {E} id pend self :
  linked self (id :: pend) -> exists removed self',
    remove_vertex (E := E) id self = Ok (removed, self') /\ removal self [id] pend (fun _ => False) self' removed.
Proof.
  intros Hl. unfold remove_vertex.
  destruct (remove_loop_total (E := E) (S (edges_weight (edges self))) [id] self []) as (acc & self' & Hr); [cbn; lia|].
  pose proof Hr as Hr'. apply (remove_loop_spec _ _ pend _ _ _ _ (fun _ => False)) in Hr' as (removed & -> & Hrem).
  - by exists removed, self'.
  - done.
  - by intros c e o _ [].
Qed.

(** ** The insertion of a transaction *)
Lemma link_inputs_spec id l (e : Edges) n :
  let st := foldl (link_input id) (e, n) l in
  e_deps st.1 = e_deps e /\
  (forall o, e_inner st.1 !! o = match e_inner e !! o with
     | Some x => Some (if decide (o ∈ l) then Some id else x) | None => None end) /\
  (forall o, e_outer st.1 !! o = match e_inner e !! o with
     | None => if decide (o ∈ l) then Some (Some id) else e_outer e !! o | Some _ => e_outer e !! o end).
Proof.
  revert e n. induction l as [|i l IH]; intros e n; cbn [foldl].
  { split_and!; [done| |]; intros o; cbn [fst]; destruct (e_inner e !! o);
      try (rewrite decide_False by apply not_elem_of_nil); done. }
  destruct (link_input id (e, n) i) as [e1 n1] eqn:H1. destruct (IH e1 n1) as (Hd & Hi & Ho). clear IH.
  unfold link_input in H1. destruct (e_inner e !! i) as [y|] eqn:Hy; injection H1 as <- <-;
    cbn [e_inner e_outer e_deps insert_outer] in *; (split_and!; [done| |]); intros o; rewrite ?Hi, ?Ho;
    (destruct (decide (o = i)) as [->|Hne]; [rewrite ?Hy, ?lookup_insert_eq|rewrite ?lookup_insert_ne by done]);
    try destruct (e_inner e !! o); rewrite ?decide_elem_cons, ?(decide_True (P := i = i)), ?(decide_False (P := o = i)) by done;
    try done; by repeat case_decide.
Qed.

Lemma link_deps_spec id l (e : Edges) n :
  let st := foldl (link_dep id) (e, n) l in
  e_inner st.1 = e_inner e /\ e_outer st.1 = e_outer e /\
  forall o, dep_ids st.1 o = if decide (o ∈ l) then {[id]} ∪ dep_ids e o else dep_ids e o.
Proof.
  revert e n. induction l as [|d l IH]; intros e n; cbn [foldl].
  { split_and!; [done..|]. intros o. by rewrite decide_False by apply not_elem_of_nil. }
  destruct (link_dep id (e, n) d) as [e1 n1] eqn:H1. destruct (IH e1 n1) as (Hi & Ho & Hd). clear IH.
  unfold link_dep in H1. injection H1 as <- _. cbn [insert_deps e_inner e_outer] in Hi, Ho.
  split_and!; [done..|]. intros o. rewrite Hd, decide_elem_cons. unfold dep_ids, insert_deps. cbn [e_deps].
  destruct (decide (o = d)) as [->|]; [rewrite lookup_insert_eq|by rewrite lookup_insert_ne].
  cbn. case_decide; set_solver.
Qed.

Lemma mark_inpools_spec l (e : Edges) :
  let e' := foldl (fun (e : Edges) o => mark_inpool o e) e l in
  e_outer e' = e_outer e /\ e_deps e' = e_deps e /\
  forall o, e_inner e' !! o = if decide (o ∈ l) then Some None else e_inner e !! o.
Proof.
  revert e. induction l as [|x l IH]; intros e; cbn [foldl].
  { split_and!; [done..|]. intros o. by rewrite decide_False by apply not_elem_of_nil. }
  destruct (IH (mark_inpool x e)) as (Ho & Hd & Hi). split_and!; [done..|]. intros o.
  rewrite Hi, decide_elem_cons. cbn.
  destruct (decide (o = x)) as [->|]; [rewrite lookup_insert_eq; by case_decide|by rewrite lookup_insert_ne].
Qed.

(** What the node knows of a transaction it proposes: it is not in the pool,
    its inputs and the cells it reads are live in the pool or not the pool's,
    and nothing in the pool uses its outputs yet. *)
Record addable (self : ProposedPool M) (tx : Transaction) : Prop := {
  ad_new : proposed_get self (proposal_short_id tx) = None;
  ad_dao : forall i, i ∈ input_pts tx -> is_issuing_dao i = true -> ~ creates self i;
  ad_input : forall i, i ∈ input_pts tx -> is_issuing_dao i = false ->
    e_inner (edges self) !! i = Some None \/
    (~ creates self i /\ e_inner (edges self) !! i = None /\ e_outer (edges self) !! i = None);
  ad_dep : forall d, d ∈ tx_deps tx -> is_Some (e_inner (edges self) !! d) \/ ~ creates self d;
  ad_own : forall o, o ∈ output_pts tx -> is_issuing_dao o = false /\ ~ o ∈ input_pts tx /\ ~ o ∈ tx_deps tx;
  ad_output : forall o c e, o ∈ output_pts tx -> proposed_get self c = Some e -> ~ uses e o
}.

(** The edges after the insertion. *)
Lemma add_tx_edges cycles fee size tx self :
  let e' := edges (proposed_add_tx cycles fee size tx self) in
  let id := proposal_short_id tx in
  (forall o, e_inner e' !! o = if decide (o ∈ output_pts tx) then Some None else
     match e_inner (edges self) !! o with
     | Some x => Some (if decide (o ∈ input_pts tx) then Some id else x) | None => None end) /\
  (forall o, e_outer e' !! o = match e_inner (edges self) !! o with
     | None => if decide (o ∈ input_pts tx) then Some (Some id) else e_outer (edges self) !! o
     | Some _ => e_outer (edges self) !! o end) /\
  (forall o, dep_ids e' o = if decide (o ∈ tx_deps tx) then {[id]} ∪ dep_ids (edges self) o else dep_ids (edges self) o).
Proof.
  cbv zeta. unfold proposed_add_tx.
  destruct (link_inputs_spec (proposal_short_id tx) (input_pts tx) (edges self) 0) as (Hd1 & Hi1 & Ho1).
  destruct (foldl (link_input _) _ _) as [e1 n1]. cbn [fst] in *.
  destruct (link_deps_spec (proposal_short_id tx) (tx_deps tx) e1 n1) as (Hi2 & Ho2 & Hd2).
  destruct (foldl (link_dep _) _ _) as [e2 n2]. cbn [fst edges] in *.
  destruct (mark_inpools_spec (output_pts tx) e2) as (Ho3 & Hd3 & Hi3).
  split_and!; intros o.
  - by rewrite Hi3, Hi2, Hi1.
  - by rewrite Ho3, Ho2, Ho1.
  - unfold dep_ids at 1. rewrite Hd3. fold (dep_ids e2 o). rewrite Hd2. unfold dep_ids. by rewrite Hd1.
Qed.

Lemma add_tx_get cycles fee size tx self c ec :
  proposed_get (proposed_add_tx cycles fee size tx self) c = Some ec ->
  (c = proposal_short_id tx /\ pe_transaction ec = tx) \/ (c <> proposal_short_id tx /\ proposed_get self c = Some ec).
Proof.
  unfold proposed_add_tx. destruct (foldl (link_dep _) _ _) as [e n]. unfold proposed_get. cbn [vertices].
  rewrite lhm_get_insert. case_decide as Hc; [intros [= <-]; by left|by right].
Qed.

Lemma add_tx_get_new cycles fee size tx self :
  exists e, proposed_get (proposed_add_tx cycles fee size tx self) (proposal_short_id tx) = Some e /\ pe_transaction e = tx.
Proof.
  unfold proposed_add_tx. destruct (foldl (link_dep _) _ _) as [e n]. unfold proposed_get. cbn [vertices].
  rewrite lhm_get_insert, decide_True by done. by eexists.
Qed.

Lemma add_tx_get_old cycles fee size tx self c :
  c <> proposal_short_id tx -> proposed_get (proposed_add_tx cycles fee size tx self) c = proposed_get self c.
Proof.
  intros Hc. unfold proposed_add_tx. destruct (foldl (link_dep _) _ _) as [e n]. unfold proposed_get. cbn [vertices].
  by rewrite lhm_get_insert, decide_False by done.
Qed.

Lemma add_tx_creates cycles fee size tx self o :
  addable self tx ->
  creates (proposed_add_tx cycles fee size tx self) o <-> creates self o \/ o ∈ output_pts tx.
Proof.
  intros Had. split.
  - intros (p & ep & [[-> <-]|[_ Hp]]%add_tx_get & Ho); [by right|left; by exists p, ep].
  - intros [(p & ep & Hp & Ho)|Ho].
    + exists p, ep. rewrite add_tx_get_old; [done|]. intros ->. pose proof (ad_new _ _ Had). congruence.
    + destruct (add_tx_get_new cycles fee size tx self) as (e & He & Htx). exists (proposal_short_id tx), e.
      split; [done|]. unfold entry_outputs. by rewrite Htx.
Qed.

(** A cell the new transaction spends is not spent in the pool. *)
Lemma addable_unspent self tx c ec o :
  linked self [] -> addable self tx -> proposed_get self c = Some ec -> spends ec o -> ~ o ∈ input_pts tx.
Proof.
  intros Hl Had Hc Hin Ho. destruct (li_spent _ _ Hl _ _ _ Hc Hin) as [[Hcr Hi]|(Hcr & Hi & [Hout|[[]%not_elem_of_nil _]])];
    destruct (ad_input _ _ Had _ Ho (proj1 Hin)) as [?|(? & ? & ?)]; congruence.
Qed.

Lemma add_tx_linked cycles fee size tx self :
  linked self [] -> addable self tx -> linked (proposed_add_tx cycles fee size tx self) [].
Proof.
  intros Hl Had. destruct (add_tx_edges cycles fee size tx self) as (Hi & Ho & Hd).
  assert (Hfresh : forall c ec o, proposed_get self c = Some ec -> uses ec o -> ~ o ∈ output_pts tx).
  { intros c ec o Hc Hu Hot. by destruct (ad_output _ _ Had o c ec Hot Hc). }
  split.
  - intros c ec [[-> <-]|[_ Hc]]%add_tx_get; [done|by eapply li_id].
  - intros c ec o [[-> <-]|[_ Hc]]%add_tx_get; [by intros (_ & ? & _)%(ad_own _ _ Had)|by eapply li_own].
  - intros o Ho'. rewrite add_tx_creates by done. intros [Hcr|Hot]; [by apply (li_dao _ _ Hl o)|].
    destruct (ad_own _ _ Had o Hot). congruence.
  - intros c c' ec ec' o [[-> <-]|[_ Hc]]%add_tx_get [[-> Htx]|[_ Hc']]%add_tx_get Ho1 Ho2;
      [done| | |by eapply li_once]; exfalso; [by eapply (addable_unspent self); [..|apply Ho1]|].
    subst tx. by eapply (addable_unspent self); [..|apply Ho2].
  - intros c ec o Hc Hin. rewrite add_tx_creates, Hi, Ho by done. apply add_tx_get in Hc as [[-> <-]|[_ Hc]].
    + assert (Hno : ~ o ∈ output_pts (pe_transaction ec)) by (intros (_ & [] & _)%(ad_own _ _ Had); apply Hin).
      destruct Hin as [Hdao Hin].
      rewrite (decide_False (P := o ∈ output_pts _)) by done.
      destruct (ad_input _ _ Had _ Hin Hdao) as [Hn|(Hcr & Hn & Hout)]; rewrite Hn, ?(decide_True (P := o ∈ input_pts _)) by done.
      * left. split; [|done]. left. by destruct (li_inner _ _ Hl _ _ Hn).
      * right. split_and!; [naive_solver|done|by left].
    + pose proof (addable_unspent _ _ _ _ _ Hl Had Hc Hin) as Hni.
      pose proof (Hfresh _ _ _ Hc (or_introl Hin)) as Hno. rewrite (decide_False (P := o ∈ output_pts _)) by done.
      destruct (li_spent _ _ Hl _ _ _ Hc Hin) as [[? ->]|(? & -> & [?|[[]%not_elem_of_nil _]])];
        rewrite (decide_False (P := o ∈ input_pts _)) by done; [left; auto|right].
      split_and!; [naive_solver|done|by left].
  - intros o x. rewrite Hi, add_tx_creates by done. case_decide as Hot; [intros [= <-]; by split; [right|]|].
    destruct (e_inner (edges self) !! o) as [y|] eqn:Hy; [|done]. destruct (li_inner _ _ Hl _ _ Hy) as [Hcr Hsp].
    intros [= <-]. split; [by left|]. case_decide as Hin.
    + intros c [= <-]. destruct (add_tx_get_new cycles fee size tx self) as (e & He & Htx). exists e.
      split; [done|]. unfold entry_inputs. by rewrite Htx.
    + intros c ->. destruct (Hsp c eq_refl) as (ec & Hc & ?). exists ec. rewrite add_tx_get_old; [done|].
      intros ->. pose proof (ad_new _ _ Had). congruence.
  - intros o x. rewrite Ho, add_tx_creates by done. intros Hx.
    assert (Hcase : e_outer (edges self) !! o = Some x \/ (e_inner (edges self) !! o = None /\ o ∈ input_pts tx /\ x = Some (proposal_short_id tx))).
    { destruct (e_inner (edges self) !! o); [by left|]. case_decide; [right|by left]. by injection Hx as <-. }
    destruct Hcase as [Hx'|(Hn & Hin & ->)].
    + destruct (li_outer _ _ Hl _ _ Hx') as (Hcr & c & ec & -> & Hc & Hin). split.
      * intros [?|?]; [done|]. eapply (Hfresh c ec o Hc); [|done]. left. split; [|done]. by destruct (ad_own _ _ Had o).
      * exists c, ec. rewrite add_tx_get_old; [done|]. intros ->. pose proof (ad_new _ _ Had). congruence.
    + split.
      * intros [?|?]; [|by destruct (ad_own _ _ Had o) as (_ & ? & _)].
        destruct (is_issuing_dao o) eqn:Hdao; [by apply (ad_dao _ _ Had o)|].
        destruct (ad_input _ _ Had _ Hin Hdao) as [?|(? & _)]; [congruence|done].
      * destruct (add_tx_get_new cycles fee size tx self) as (e & He & Htx). exists (proposal_short_id tx), e.
        split_and!; [done..|]. unfold entry_inputs. by rewrite Htx.
  - intros o c. rewrite Hd. intros Hin.
    assert (Hcase : c ∈ dep_ids (edges self) o \/ (c = proposal_short_id tx /\ o ∈ tx_deps tx)) by (case_decide; set_solver).
    destruct Hcase as [Hin'|[-> Hot]].
    + destruct (li_deps _ _ Hl _ _ Hin') as (ec & Hc & ?). exists ec. rewrite add_tx_get_old; [done|].
      intros ->. pose proof (ad_new _ _ Had). congruence.
    + destruct (add_tx_get_new cycles fee size tx self) as (e & He & Htx). exists e. split; [done|].
      unfold entry_deps. by rewrite Htx.
  - intros c ec o [[-> <-]|[_ Hc]]%add_tx_get Hdep; right; rewrite Hd.
    + rewrite decide_True by done. set_solver.
    + destruct (li_read _ _ Hl _ _ _ Hc Hdep) as [[]%not_elem_of_nil|?]. case_decide; set_solver.
Qed.
End links.
