(* ===== verification/PoolCommit.v ===== *)
(** * The pool when blocks are committed

    [remove_committed_tx], [resolve_conflict] and [dec_ref] of [proposed.rs]
    under the invariant of the pool, which here also orders the transactions
    and bounds their reference counts. *)
From stdpp Require Import relations.
From S2P Require Import Prelude Capacity ByteStrings Transactions Blocks CellSet Cells LinkedMap ProposedPool PoolLinks.

(** ** An order in which the transactions can be committed *)
Definition tx_uses (t : Transaction) (o : OutPoint) : Prop := o ∈ input_pts t \/ o ∈ tx_deps t.

(** No transaction uses a cell that a later one, or itself, creates. *)
Fixpoint topological (l : list Transaction) : Prop :=
  match l with
  | [] => True
  | t :: l => (forall p o, p ∈ t :: l -> o ∈ output_pts p -> ~ tx_uses t o) /\ topological l
  end.

Lemma topological_app l l' :
  topological (l ++ l') <->
  topological l /\ topological l' /\ forall t p o, t ∈ l -> p ∈ l' -> o ∈ output_pts p -> ~ tx_uses t o.
Proof.
  induction l as [|t l IH]; cbn [app topological].
  { split; [|naive_solver]. intros H. split_and!; try done. by intros ? ? ? ?%not_elem_of_nil. }
  rewrite IH. setoid_rewrite elem_of_cons. setoid_rewrite elem_of_app. split.
  - intros (H1 & H2 & H3 & H4). split_and!; [naive_solver..|]. intros t' p o [->|?]; naive_solver.
  - intros ((H1 & H2) & H3 & H4). split_and!; try done; [|naive_solver].
    intros p o [->|[?|?]]; naive_solver.
Qed.

Lemma topological_sublist l l' : sublist l l' -> topological l' -> topological l.
Proof.
  induction 1 as [|t l l' Hs IH|t l l' Hs IH]; cbn [topological]; [done| |naive_solver].
  intros [H1 H2]. split; [|by apply IH]. intros p o Hp. apply H1. apply elem_of_cons in Hp as [->|Hp]; [left|right].
  by eapply elem_of_sublist.
Qed.

(** A transaction appears after the creators of the cells it uses. *)
Lemma topological_creator l1 t l2 p o :
  topological (l1 ++ t :: l2) -> p ∈ l1 ++ t :: l2 -> o ∈ output_pts p -> tx_uses t o -> p ∈ l1.
Proof.
  intros (_ & [H1 _] & _)%topological_app Hp Ho Hu. apply elem_of_app in Hp as [?|Hp]; [done|].
  by destruct (H1 p o Hp Ho).
Qed.

Lemma size_inter_remove (l : list OutPoint) (C : gset OutPoint) (o : OutPoint) :
  o ∈ C -> (size (list_to_set l ∩ (C ∖ {[o]})) + (if decide (o ∈ l) then 1 else 0) = size (list_to_set l ∩ C))%nat.
Proof.
  intros Ho. case_decide as Hin.
  - assert (Heq : list_to_set l ∩ C = {[o]} ∪ (list_to_set l ∩ (C ∖ {[o]}))).
    { apply set_eq. intros x. destruct (decide (x = o)); set_solver. }
    rewrite Heq, (size_union {[o]} (list_to_set l ∩ (C ∖ {[o]}))) by set_solver. rewrite size_singleton. lia.
  - replace (list_to_set l ∩ (C ∖ {[o]})) with (list_to_set l ∩ C) by set_solver. lia.
Qed.

Section commit.
Context {M : Type -> Type} `{LM : !LinkedHashMap Bytes M} `{!LinkedHashMapLaws Bytes M}.
Implicit Types (self : ProposedPool M) (m : M ProposedEntry) (id c : Bytes) (o : OutPoint) (e : ProposedEntry).

(** The transactions of the pool, with their keys. *)
Definition shape (m : M ProposedEntry) : list (Bytes * Transaction) :=
  (fun kv => (kv.1, pe_transaction kv.2)) <$> lhm_entries m.
Definition pool_txs (self : ProposedPool M) : list Transaction := (shape (vertices self)).*2.
Definition created (m : M ProposedEntry) : gset OutPoint := list_to_set ((shape m).*2 ≫= output_pts).

Lemma elem_of_shape m c t : (c, t) ∈ shape m <-> exists e, lhm_get c m = Some e /\ pe_transaction e = t.
Proof.
  unfold shape. rewrite list_elem_of_fmap. split.
  - intros ([k e] & [= -> ->] & Hin). exists e. split; [by apply lhm_get_entries|done].
  - intros (e & Hg & <-). exists (c, e). split; [done|]. by apply lhm_get_entries.
Qed.

Lemma elem_of_created m o : o ∈ created m <-> exists c t, (c, t) ∈ shape m /\ o ∈ output_pts t.
Proof.
  unfold created. rewrite elem_of_list_to_set, list_elem_of_bind. split.
  - intros (t & Ho & ([c t'] & -> & Hct)%list_elem_of_fmap). eauto.
  - intros (c & t & Hct & Ho). exists t. split; [done|]. apply list_elem_of_fmap. by exists (c, t).
Qed.

Lemma creates_created self o : creates self o <-> o ∈ created (vertices self).
Proof.
  rewrite elem_of_created. setoid_rewrite elem_of_shape. unfold creates, proposed_get, entry_outputs. naive_solver.
Qed.

(** The number of cells created in the pool that a transaction spends, and
    that it reads. *)
Definition pool_uses (C : gset OutPoint) (t : Transaction) : nat :=
  (size (list_to_set (input_pts t) ∩ C) + size (list_to_set (tx_deps t) ∩ C))%nat.

Definition refs_ok (m : M ProposedEntry) (C : gset OutPoint) : Prop :=
  forall c e, lhm_get c m = Some e -> Z.of_nat (pool_uses C (pe_transaction e)) <= pe_refs_count e.

(** The invariant of the pool. *)
Record pool_ok (self : ProposedPool M) : Prop := {
  po_linked : linked self [];
  po_order : topological (pool_txs self);
  po_refs : refs_ok (vertices self) (created (vertices self))
}.

(** ** Reference counts *)
Definition dec_entry (e : ProposedEntry) : ProposedEntry :=
  mkProposedEntry (pe_transaction e) (pe_refs_count e - 1) (pe_cycles e) (pe_fee e) (pe_size e).

Lemma shape_alter (f : ProposedEntry -> ProposedEntry) m id :
  (forall e, pe_transaction (f e) = pe_transaction e) -> shape (lhm_alter f id m) = shape m.
Proof.
  intros Hf. unfold shape. rewrite lhm_entries_alter, <- list_fmap_compose. apply list_fmap_ext.
  intros i [k e] _. cbn. case_decide; cbn; by rewrite ?Hf.
Qed.

Lemma dec_ref_spec {E} m id :
  (forall e, lhm_get id m = Some e -> 1 <= pe_refs_count e) ->
  exists m', dec_ref (E := E) m id = Ok m' /\ shape m' = shape m /\
    forall c, lhm_get c m' = if decide (id = c) then dec_entry <$> lhm_get c m else lhm_get c m.
Proof.
  intros Hr. unfold dec_ref. destruct (lhm_get id m) as [e|] eqn:Hid.
  - rewrite sub_w_eq, bind_ret_l by (by apply Hr). eexists. split; [done|]. split; [by apply shape_alter|].
    intros c. rewrite lhm_get_alter. case_decide; [subst|done]. by rewrite Hid.
  - exists m. split_and!; [done..|]. intros c. case_decide; [subst|done]. by rewrite Hid.
Qed.

Lemma dec_refs_spec {E} l m :
  NoDup l -> (forall c e, c ∈ l -> lhm_get c m = Some e -> 1 <= pe_refs_count e) ->
  exists m', try_fold (dec_ref (E := E)) m l = Ok m' /\ shape m' = shape m /\
    forall c, lhm_get c m' = if decide (c ∈ l) then dec_entry <$> lhm_get c m else lhm_get c m.
Proof.
  revert m. induction l as [|id l IH]; intros m Hnd Hr.
  { exists m. split_and!; [done..|]. intros c. by rewrite decide_False by apply not_elem_of_nil. }
  apply NoDup_cons in Hnd as [Hid Hnd]. cbn [try_fold].
  destruct (dec_ref_spec (E := E) m id) as (m1 & -> & Hs1 & Hg1); [intros e; apply Hr; left|]. rewrite bind_ret_l.
  destruct (IH m1 Hnd) as (m' & -> & Hs' & Hg').
  { intros c e Hc. rewrite Hg1, decide_False by (intros ->; done). apply Hr. by right. }
  exists m'. split_and!; [done|congruence|]. intros c. rewrite Hg', Hg1.
  destruct (decide (id = c)) as [<-|Hne]; [rewrite decide_False, decide_True by (done || left); done|].
  repeat case_decide; set_solver.
Qed.

(** ** The outputs of a committed transaction *)

(** The edges of the cell are those of the transactions. *)
Definition edges_at (m : M ProposedEntry) (es : Edges) (o : OutPoint) : Prop :=
  forall c t, (c, t) ∈ shape m ->
    (e_inner es !! o = Some (Some c) -> o ∈ input_pts t) /\ (c ∈ dep_ids es o -> o ∈ tx_deps t).

Lemma pool_uses_remove C o t :
  o ∈ C -> (pool_uses (C ∖ {[o]}) t + (if decide (o ∈ input_pts t) then 1 else 0) +
    (if decide (o ∈ tx_deps t) then 1 else 0) = pool_uses C t)%nat.
Proof.
  intros Ho. unfold pool_uses.
  pose proof (size_inter_remove (input_pts t) C o Ho). pose proof (size_inter_remove (tx_deps t) C o Ho). lia.
Qed.

Lemma commit_output_spec {E} self o C :
  edges_at (vertices self) (edges self) o -> refs_ok (vertices self) C -> o ∈ C ->
  exists self', commit_output (E := E) self o = Ok self' /\
    shape (vertices self') = shape (vertices self) /\ refs_ok (vertices self') (C ∖ {[o]}) /\
    e_inner (edges self') = delete o (e_inner (edges self)) /\
    e_deps (edges self') = e_deps (edges self) /\
    e_outer (edges self') = match e_inner (edges self) !! o with
      | Some (Some c) => <[o := Some c]> (e_outer (edges self)) | _ => e_outer (edges self) end.
Proof.
  intros Hat Hr Ho. unfold commit_output, remove_inner.
  set (spender := mjoin (e_inner (edges self) !! o)).
  assert (Hsp : forall c, spender = Some c <-> e_inner (edges self) !! o = Some (Some c)).
  { intros c. subst spender. destruct (e_inner (edges self) !! o) as [[?|]|]; cbn; naive_solver. }
  assert (Hneed : forall c e, lhm_get c (vertices self) = Some e ->
    (if decide (spender = Some c) then 1 else 0) + (if decide (c ∈ dep_ids (edges self) o) then 1 else 0) +
      Z.of_nat (pool_uses (C ∖ {[o]}) (pe_transaction e)) <= pe_refs_count e).
  { intros c e Hc. specialize (Hr c e Hc). destruct (Hat c (pe_transaction e)) as [H1 H2]; [apply elem_of_shape; eauto|].
    pose proof (pool_uses_remove C o (pe_transaction e) Ho) as Hu. rewrite <- Hsp in H1.
    destruct (decide (spender = Some c)), (decide (c ∈ dep_ids (edges self) o));
      destruct (decide (o ∈ input_pts (pe_transaction e))), (decide (o ∈ tx_deps (pe_transaction e))); naive_solver lia. }
  assert (exists m1, (match spender with Some cid => dec_ref (E := E) (vertices self) cid | None => Ok (vertices self) end) = Ok m1 /\
    shape m1 = shape (vertices self) /\
    forall c, lhm_get c m1 = if decide (spender = Some c) then dec_entry <$> lhm_get c (vertices self) else lhm_get c (vertices self))
    as (m1 & Hm1 & Hs1 & Hg1).
  { destruct spender as [cid|]; [|by exists (vertices self)].
    destruct (dec_ref_spec (E := E) (vertices self) cid) as (m1 & ? & ? & Hg1).
    { intros e He. specialize (Hneed cid e He). rewrite decide_True in Hneed by done. case_decide; lia. }
    exists m1. split_and!; [done..|]. intros c. rewrite Hg1. apply decide_ext. naive_solver. }
  destruct (dec_refs_spec (E := E) (elements (dep_ids (edges self) o)) m1) as (m2 & Hm2 & Hs2 & Hg2).
  { apply NoDup_elements. }
  { intros c e Hc. rewrite Hg1. apply elem_of_elements in Hc. intros He.
    destruct (lhm_get c (vertices self)) as [e0|] eqn:Hc0; [|by case_decide].
    specialize (Hneed c e0 Hc0). rewrite (decide_True (P := c ∈ _)) in Hneed by done.
    case_decide; injection He as <-; cbn; lia. }
  set (e1 := mkEdges (delete o (e_inner (edges self)))
    (match e_inner (edges self) !! o with Some (Some c) => <[o := Some c]> (e_outer (edges self)) | _ => e_outer (edges self) end)
    (e_deps (edges self))).
  exists (mkProposed m2 e1). split_and!; try done; [|cbn; congruence|].
  - cbn. replace (match spender with Some cid => _ | None => _ end) with (Ok (E := E) (m1, e1)).
    + rewrite bind_ret_l. cbn. unfold dep_ids in Hm2. unfold get_deps. cbn.
      destruct (e_deps (edges self) !! o) as [ids|]; cbn in *; [rewrite Hm2; done|].
      rewrite elements_empty in Hm2. cbn in Hm2. injection Hm2 as ->. done.
    + revert Hm1. subst e1 spender. destruct (e_inner (edges self) !! o) as [[cid|]|]; cbn; [intros ->|intros [= ->]..]; done.
  - intros c e He. cbn in He. rewrite Hg2, Hg1 in He.
    destruct (lhm_get c (vertices self)) as [e0|] eqn:Hc0; [|by repeat case_decide]. specialize (Hneed c e0 Hc0).
    rewrite (decide_ext (c ∈ elements (dep_ids (edges self) o)) (c ∈ dep_ids (edges self) o)) in He by apply elem_of_elements.
    repeat case_decide; injection He as <-; cbn; lia.
Qed.

Lemma commit_outputs_spec {E} l self C :
  NoDup l -> (forall o, o ∈ l -> edges_at (vertices self) (edges self) o /\ o ∈ C) -> refs_ok (vertices self) C ->
  exists self', try_fold (commit_output (E := E)) self l = Ok self' /\
    shape (vertices self') = shape (vertices self) /\ refs_ok (vertices self') (C ∖ list_to_set l) /\
    e_deps (edges self') = e_deps (edges self) /\
    (forall o, e_inner (edges self') !! o = if decide (o ∈ l) then None else e_inner (edges self) !! o) /\
    (forall o, e_outer (edges self') !! o = match e_inner (edges self) !! o with
       | Some (Some c) => if decide (o ∈ l) then Some (Some c) else e_outer (edges self) !! o
       | _ => e_outer (edges self) !! o end).
Proof.
  revert self C. induction l as [|x l IH]; intros self C Hnd Hat Hr.
  { exists self. split_and!; [done..| |done|done|].
    - cbn. by rewrite difference_empty_L.
    - intros o. destruct (e_inner (edges self) !! o) as [[c|]|]; [|done..].
      by rewrite decide_False by apply not_elem_of_nil. }
  apply NoDup_cons in Hnd as [Hx Hnd]. cbn [try_fold]. destruct (Hat x) as [Hatx HxC]; [left|].
  destruct (commit_output_spec (E := E) self x C Hatx Hr HxC) as (s1 & -> & Hs1 & Hr1 & Hi1 & Hd1 & Ho1).
  rewrite bind_ret_l. destruct (IH s1 (C ∖ {[x]}) Hnd) as (s' & -> & Hs' & Hr' & Hd' & Hi' & Ho'); [|done|].
  { intros o Ho. destruct (Hat o) as [Hato HoC]; [by right|]. assert (o <> x) by (intros ->; done).
    split; [|set_solver]. intros c t. rewrite Hs1. unfold dep_ids. rewrite Hi1, Hd1, lookup_delete_ne by done. apply Hato. }
  exists s'. split_and!; [done|congruence| |congruence| |].
  - replace (C ∖ list_to_set (x :: l)) with (C ∖ {[x]} ∖ list_to_set l) by set_solver. done.
  - intros o. rewrite Hi', Hi1, decide_elem_cons. destruct (decide (o = x)) as [->|].
    + rewrite lookup_delete_eq. by case_decide.
    + by rewrite lookup_delete_ne.
  - intros o. rewrite Ho', Hi1, Ho1. destruct (decide (o = x)) as [->|].
    + rewrite lookup_delete_eq. destruct (e_inner (edges self) !! x) as [[c|]|]; [|done..].
      by rewrite lookup_insert_eq, decide_True by left.
    + rewrite lookup_delete_ne by done. destruct (e_inner (edges self) !! o) as [[c|]|];
        rewrite ?decide_elem_cons, ?(decide_False (P := o = x)) by done;
        destruct (e_inner (edges self) !! x) as [[c'|]|]; rewrite ?lookup_insert_ne by done; done.
Qed.

Lemma remove_outers_spec l (es : Edges) :
  let es' := foldl (fun (e : Edges) i => (remove_outer i e).2) es l in
  e_inner es' = e_inner es /\ e_deps es' = e_deps es /\
  forall o, e_outer es' !! o = if decide (o ∈ l) then None else e_outer es !! o.
Proof.
  revert es. induction l as [|i l IH]; intros es; cbn [foldl].
  { split_and!; [done..|]. intros o. by rewrite decide_False by apply not_elem_of_nil. }
  destruct (IH (remove_outer i es).2) as (Hi & Hd & Ho). split_and!; [done..|].
  intros o. rewrite Ho, decide_elem_cons. cbn. destruct (decide (o = i)) as [->|].
  - rewrite lookup_delete_eq. by case_decide.
  - by rewrite lookup_delete_ne.
Qed.

(** The invariant depends on the transactions and the edges only. *)
Lemma get_shape self self' c e :
  shape (vertices self) = shape (vertices self') -> proposed_get self c = Some e ->
  exists e', proposed_get self' c = Some e' /\ pe_transaction e' = pe_transaction e.
Proof.
  intros Hs Hc. apply elem_of_shape. rewrite <- Hs. apply elem_of_shape. by exists e.
Qed.

(** The transaction is the one of the pool, but for its witnesses, and the
    cells it spends are not created in the pool: a block commits a
    transaction after those it spends from. *)
Record commits_pool_tx (self : ProposedPool M) (tx : Transaction) : Prop := {
  cp_entry : exists e, proposed_get self (proposal_short_id tx) = Some e /\
    entry_inputs e = input_pts tx /\ entry_outputs e = output_pts tx /\ entry_deps e = tx_deps tx;
  cp_parents : forall i, i ∈ input_pts tx -> ~ creates self i;
  cp_outputs : len (tx_outputs tx) <= U32_SIZE
}.

Lemma output_pts_NoDup tx : len (tx_outputs tx) <= U32_SIZE -> NoDup (output_pts tx).
Proof.
  unfold len. intros Hlen. unfold output_pts. apply NoDup_fmap_2_strong; [|apply NoDup_seq].
  intros x y Hx%elem_of_seq Hy%elem_of_seq. unfold new_cell, cast. intros [= Heq].
  rewrite !Z.mod_small in Heq by lia. lia.
Qed.

(** The edges of a pool without [tx], whose outputs are now on the chain. *)
Lemma commit_linked self self' (tx : Transaction) es :
  let id := proposal_short_id tx in
  linked self [] -> commits_pool_tx self tx ->
  shape (vertices self') = shape (lhm_remove id (vertices self)) -> edges self' = es ->
  (forall o, e_inner es !! o = if decide (o ∈ output_pts tx) then None else e_inner (edges self) !! o) ->
  (forall o, e_outer es !! o = if decide (o ∈ input_pts tx) then None else
     match e_inner (edges self) !! o with
     | Some (Some c) => if decide (o ∈ output_pts tx) then Some (Some c) else e_outer (edges self) !! o
     | _ => e_outer (edges self) !! o end) ->
  (forall o, dep_ids es o = if decide (o ∈ tx_deps tx) then dep_ids (edges self) o ∖ {[id]} else dep_ids (edges self) o) ->
  linked self' [].
Proof.
  intros id Hl [(e & He & Hei & Heo & Hed) Hpar _] Hsh <- Hi Ho Hd. fold id in He. clearbody id.
  assert (Hget : forall c ec, proposed_get self' c = Some ec ->
    c <> id /\ exists e0, proposed_get self c = Some e0 /\ pe_transaction e0 = pe_transaction ec).
  { intros c ec Hc. destruct (get_shape self' (mkProposed (lhm_remove id (vertices self)) (edges self)) c ec) as (e0 & Hg & Ht); [done..|].
    apply unlink_get_Some in Hg as [? ?]. eauto. }
  assert (Hback : forall c e0, proposed_get self c = Some e0 -> c <> id ->
    exists ec, proposed_get self' c = Some ec /\ pe_transaction ec = pe_transaction e0).
  { intros c e0 Hc Hne. eapply (get_shape (mkProposed (lhm_remove id (vertices self)) (edges self))); [done|].
    rewrite unlink_get, decide_False by congruence. done. }
  assert (Hcr : forall o, creates self' o <-> creates self o /\ ~ o ∈ output_pts tx).
  { intros o. rewrite <- Heo. split.
    - intros (p & ep & (Hne & e0 & Hp & Ht)%Hget & Hop). unfold entry_outputs in Hop. rewrite <- Ht in Hop.
      split; [by exists p, e0|]. intros Hoe. destruct Hne. by eapply (creator_unique self []).
    - intros [(p & ep & Hp & Hop) Hn]. destruct (Hback p ep Hp) as (ec & Hec & Ht).
      { intros ->. assert (ep = e) as -> by congruence. done. }
      exists p, ec. split; [done|]. unfold entry_outputs. by rewrite Ht. }
  assert (Hin_id : forall o, o ∈ input_pts tx -> o ∈ entry_inputs e) by (by rewrite Hei).
  split.
  - intros c ec (_ & e0 & Hc & Ht)%Hget. unfold entry_id. rewrite <- Ht. by apply (li_id _ _ Hl).
  - intros c ec o (_ & e0 & Hc & Ht)%Hget. unfold entry_outputs, entry_inputs. rewrite <- Ht. by apply (li_own _ _ Hl c).
  - intros o Hdao [Hcro _]%Hcr. by apply (li_dao _ _ Hl o).
  - intros c c' ec ec' o (_ & e0 & Hc & Ht)%Hget (_ & e1 & Hc' & Ht')%Hget. unfold spends, entry_inputs. rewrite <- Ht, <- Ht'.
    by apply (li_once _ _ Hl).
  - intros c ec o (Hne & e0 & Hc & Ht)%Hget. unfold spends, entry_inputs. rewrite <- Ht. intros Hin. rewrite Hcr, Hi, Ho.
    assert (Hni : ~ o ∈ input_pts tx).
    { intros Hoi%Hin_id. destruct Hne. eapply (li_once _ _ Hl); [done|done|exact Hin|]. split; [apply Hin|done]. }
    rewrite (decide_False (P := o ∈ input_pts tx)) by done.
    destruct (li_spent _ _ Hl _ _ _ Hc Hin) as [[? ->]|(? & -> & [?|[[]%not_elem_of_nil _]])].
    + destruct (decide (o ∈ output_pts tx)); [right|by left]. split_and!; [naive_solver|done|by left].
    + right. split_and!; [naive_solver|by case_decide|by left].
  - intros o x. rewrite Hi, Hcr. case_decide; [done|]. intros Hx. destruct (li_inner _ _ Hl _ _ Hx) as [Hc Hsp].
    split; [done|]. intros c ->. destruct (Hsp c eq_refl) as (e0 & Hg & Hin).
    destruct (Hback c e0 Hg) as (ec & Hec & Ht); [|exists ec; split; [done|]; unfold entry_inputs; by rewrite Ht].
    intros ->. apply (Hpar o); [|done]. rewrite <- Hei. assert (e0 = e) as -> by congruence. done.
  - intros o x. rewrite Ho, Hcr. case_decide as Hni; [done|].
    assert (Hspend : forall c e0, proposed_get self c = Some e0 -> o ∈ entry_inputs e0 ->
      exists c' ec, Some c = Some c' /\ proposed_get self' c' = Some ec /\ o ∈ entry_inputs ec).
    { intros c e0 Hc Hin. destruct (Hback c e0 Hc) as (ec & Hec & Ht).
      - intros ->. apply Hni. rewrite <- Hei. assert (e0 = e) as -> by congruence. done.
      - exists c, ec. split_and!; [done..|]. unfold entry_inputs. by rewrite Ht. }
    assert (Hold : e_outer (edges self) !! o = Some x -> ~ (creates self o /\ ~ o ∈ output_pts tx) /\
      exists c ec, x = Some c /\ proposed_get self' c = Some ec /\ o ∈ entry_inputs ec).
    { intros Hx. destruct (li_outer _ _ Hl _ _ Hx) as (Hc & c & e0 & -> & Hg & Hin). split; [naive_solver|by eapply Hspend]. }
    destruct (e_inner (edges self) !! o) as [[c|]|] eqn:Hio; [|done..]. case_decide as Hoo; [|done].
    intros [= <-]. split; [naive_solver|]. destruct (li_inner _ _ Hl _ _ Hio) as [_ Hsp].
    destruct (Hsp c eq_refl) as (e0 & ? & ?). by eapply Hspend.
  - intros o c. rewrite Hd. intros Hin. assert (Hin' : c ∈ dep_ids (edges self) o) by (case_decide; set_solver).
    destruct (li_deps _ _ Hl _ _ Hin') as (e0 & Hc & Hdep). destruct (Hback c e0 Hc) as (ec & Hec & Ht);
      [|exists ec; split; [done|]; unfold entry_deps; by rewrite Ht].
    intros ->. assert (e0 = e) as -> by congruence. rewrite Hed in Hdep. rewrite decide_True in Hin by done. set_solver.
  - intros c ec o (Hne & e0 & Hc & Ht)%Hget. unfold entry_deps. rewrite <- Ht. intros Hdep. right. rewrite Hd.
    destruct (li_read _ _ Hl _ _ _ Hc Hdep) as [[]%not_elem_of_nil|?]. case_decide; set_solver.
Qed.

Lemma shape_remove m id : shape (lhm_remove id m) = filter (fun kt => kt.1 <> id) (shape m).
Proof.
  unfold shape. rewrite lhm_entries_remove. induction (lhm_entries m) as [|[k e] l IH]; [done|].
  rewrite fmap_cons, !filter_cons. cbn. case_decide; [cbn; by rewrite IH|done].
Qed.

Lemma created_remove m id : created (lhm_remove id m) ⊆ created m.
Proof.
  intros o. rewrite !elem_of_created, shape_remove. intros (c & t & [_ Hin]%list_elem_of_filter & Ho). eauto.
Qed.

Lemma refs_ok_mono m C C' : C' ⊆ C -> refs_ok m C -> refs_ok m C'.
Proof.
  intros Hsub Hr c e Hc. specialize (Hr c e Hc). unfold pool_uses in *.
  pose proof (subseteq_size (list_to_set (input_pts (pe_transaction e)) ∩ C') (list_to_set (input_pts (pe_transaction e)) ∩ C) ltac:(set_solver)).
  pose proof (subseteq_size (list_to_set (tx_deps (pe_transaction e)) ∩ C') (list_to_set (tx_deps (pe_transaction e)) ∩ C) ltac:(set_solver)).
  lia.
Qed.

Lemma commit_pool_tx {E} self tx :
  pool_ok self -> commits_pool_tx self tx ->
  exists e self', remove_committed_tx (E := E) tx self = Ok ([e], self') /\
    proposed_get self (proposal_short_id tx) = Some e /\ pool_ok self' /\
    shape (vertices self') = shape (lhm_remove (proposal_short_id tx) (vertices self)).
Proof.
  intros [Hl Ht Hr] Hcp. pose proof Hcp as [(e & He & Hei & Heo & Hed) Hpar Hlen]. set (id := proposal_short_id tx) in *.
  unfold remove_committed_tx. fold id. unfold proposed_get in He. rewrite He.
  set (s0 := mkProposed (lhm_remove id (vertices self)) (edges self)).
  destruct (commit_outputs_spec (E := E) (output_pts tx) s0 (created (vertices self))) as (s1 & -> & Hs1 & Hr1 & Hd1 & Hi1 & Ho1).
  { by apply output_pts_NoDup. }
  { intros o Ho. split.
    - intros c t (ec & Hc & <-)%elem_of_shape. apply (unlink_get_Some self id (edges self)) in Hc as [Hne Hc]. split.
      + intros Hin. destruct (li_inner _ _ Hl _ _ Hin) as [_ Hsp]. destruct (Hsp c eq_refl) as (? & ? & ?). unfold entry_inputs in *. congruence.
      + intros Hin. destruct (li_deps _ _ Hl _ _ Hin) as (? & ? & ?). unfold entry_deps in *. congruence.
    - apply creates_created. exists id, e. split; [done|]. by rewrite Heo. }
  { intros c ec Hc. apply (unlink_get_Some self id (edges self)) in Hc as [_ Hc]. by apply (Hr c). }
  rewrite bind_ret_l. destruct (remove_outers_spec (input_pts tx) (edges s1)) as (Hi2 & Hd2 & Ho2).
  set (e2 := foldl (fun (e : Edges) i => (remove_outer i e).2) (edges s1) (input_pts tx)) in *.
  destruct (delete_values_spec (tx_deps tx) id e2) as (Hi3 & Ho3 & Hd3).
  eexists e, _. split_and!; [done..| |done]. split.
  - eapply (commit_linked self _ tx); [done|done|exact Hs1|done|..]; intros o; cbn [edges].
    + by rewrite Hi3, Hi2, Hi1.
    + by rewrite Ho3, Ho2, Ho1.
    + rewrite Hd3. unfold dep_ids. by rewrite Hd2, Hd1.
  - unfold pool_txs. cbn [vertices]. rewrite Hs1. eapply topological_sublist; [|exact Ht]. cbn. rewrite shape_remove.
    apply fmap_sublist, sublist_filter.
  - cbn [vertices]. eapply refs_ok_mono; [|exact Hr1]. intros o. rewrite elem_of_created, Hs1. cbn [vertices s0].
    intros (c & t & (ec & Hc & <-)%elem_of_shape & Ho). apply (unlink_get_Some self id (edges self)) in Hc as [Hne Hc].
    apply elem_of_difference. split; [apply creates_created; by exists c, ec|]. rewrite elem_of_list_to_set, <- Heo. intros Ho'.
    destruct Hne. by eapply (creator_unique self []).
Qed.

(** ** Removals *)

(** [self'] is [self] without some of its transactions. *)
Definition shrinks (self self' : ProposedPool M) : Prop :=
  sublist (lhm_entries (vertices self')) (lhm_entries (vertices self)).

Lemma shrinks_get self self' c e : shrinks self self' -> proposed_get self' c = Some e -> proposed_get self c = Some e.
Proof. unfold proposed_get. rewrite !lhm_get_entries. intros Hs Hc. by eapply elem_of_sublist. Qed.

Lemma shrinks_ok self self' : shrinks self self' -> linked self' [] -> pool_ok self -> pool_ok self'.
Proof.
  intros Hs Hl' [Hl Ht Hr]. split; [done|..].
  - eapply topological_sublist; [|exact Ht]. unfold pool_txs, shape. by do 2 apply fmap_sublist.
  - assert (Hr' : refs_ok (vertices self') (created (vertices self))).
    { intros c e Hc. apply (Hr c). by apply (shrinks_get self self'). }
    eapply refs_ok_mono; [|exact Hr']. intros o. rewrite <- !creates_created. intros (p & e & Hp & Ho).
    exists p, e. split; [|done]. by eapply shrinks_get.
Qed.

Lemma removal_shrinks self queue pend gone self' removed : removal self queue pend gone self' removed -> shrinks self self'.
Proof. intros Hr. unfold shrinks. rewrite (rm_entries _ _ _ _ _ _ Hr). apply sublist_filter. Qed.

(** [remove_vertex] takes the transaction and its descendants, and nothing
    else. *)
Lemma remove_vertex_ok {E} id self :
  pool_ok self -> exists removed self',
    remove_vertex (E := E) id self = Ok (removed, self') /\ pool_ok self' /\ shrinks self self' /\
    (forall e, e ∈ removed -> proposed_get self (entry_id e) = Some e) /\
    (forall c e, proposed_get self c = Some e -> (e ∈ removed <-> rtc (child self) id c)) /\
    (forall c e, proposed_get self c = Some e -> (proposed_get self' c = Some e <-> ~ rtc (child self) id c)).
Proof.
  intros Hok. destruct (remove_vertex_spec (E := E) id [] self) as (removed & self' & Hrun & Hrem).
  { eapply linked_mono; [|apply (po_linked _ Hok)]. by intros c []%not_elem_of_nil. }
  pose proof (removal_shrinks _ _ _ _ _ _ Hrem) as Hsh. pose proof Hrem as [Hl' Hent Hold Hreach Hq Hcl].
  assert (Hid : forall c e, proposed_get self c = Some e -> entry_id e = c) by apply (li_id _ _ (po_linked _ Hok)).
  assert (Hkey : forall c e, proposed_get self c = Some e -> e ∈ removed <-> proposed_get self' c = None).
  { intros c e Hc. split.
    - intros Hin. destruct (proposed_get self' c) as [e'|] eqn:Hc'; [|done]. unfold proposed_get in Hc'.
      apply lhm_get_entries in Hc'. rewrite Hent in Hc'. apply list_elem_of_filter in Hc' as [[] _]. cbn.
      apply list_elem_of_fmap. exists e. by rewrite (Hid c e Hc).
    - intros Hn. destruct (decide (c ∈ entry_id <$> removed)) as [(r & Hrc & Hin)%list_elem_of_fmap|Hni].
      + specialize (Hold r Hin). rewrite <- Hrc in Hold. congruence.
      + exfalso. assert (Hin : (c, e) ∈ lhm_entries (vertices self')).
        { rewrite Hent. apply list_elem_of_filter. split; [done|]. by apply lhm_get_entries. }
        apply lhm_get_entries in Hin. unfold proposed_get in Hn. congruence. }
  assert (Hiff : forall c e, proposed_get self c = Some e -> e ∈ removed <-> rtc (child self) id c).
  { intros c e Hc. split.
    - intros Hin. destruct (Hreach e Hin) as (q & ->%list_elem_of_singleton & Hr). by rewrite (Hid c e Hc) in Hr.
    - intros Hr. revert e Hc. revert c Hr.
      apply (rtc_ind_r (fun c => forall e, proposed_get self c = Some e -> e ∈ removed));
        [intros e Hc|intros p c' Hr (ep & ec & o & Hp & Hc' & Ho & Hu) IH e Hc].
      + apply (Hkey _ _ Hc), Hq. left.
      + apply (Hkey _ _ Hc). destruct (proposed_get self' c') as [e'|] eqn:Hg; [|done]. exfalso.
        assert (e' = ec) as -> by (pose proof (shrinks_get _ _ _ _ Hsh Hg); congruence).
        eapply not_elem_of_nil, (Hcl c' ec o Hg); [|done]. right. exists ep. split; [by apply IH|done]. }
  exists removed, self'. split_and!; [done|by eapply shrinks_ok|done..|].
  intros c e Hc. rewrite <- (Hiff c e Hc), (Hkey c e Hc). split; [congruence|]. intros Hn.
  destruct (proposed_get self' c) as [e'|] eqn:Hg; [|done]. pose proof (shrinks_get _ _ _ _ Hsh Hg). congruence.
Qed.

Lemma remove_all_spec {E} ids acc self :
  linked self ids -> exists removed self',
    remove_all (E := E) ids (acc, self) = Ok (acc ++ removed, self') /\ linked self' [] /\ shrinks self self' /\
    forall q, q ∈ ids -> proposed_get self' q = None.
Proof.
  revert acc self. induction ids as [|id ids IH]; intros acc self Hl; unfold remove_all; cbn [try_fold].
  { exists [], self. rewrite app_nil_r. split_and!; [done..| |by intros q []%not_elem_of_nil]. unfold shrinks. done. }
  destruct (remove_vertex_spec (E := E) id ids self Hl) as (rem & s1 & Hrun & Hrem). cbn [fst snd].
  rewrite Hrun, !bind_ret_l. cbn. destruct (IH (acc ++ rem) s1 (rm_linked _ _ _ _ _ _ Hrem)) as (rem' & s' & Hrun' & Hl' & Hsh' & Hq').
  exists (rem ++ rem'), s'. rewrite app_assoc. split_and!; [exact Hrun'|done|..].
  - unfold shrinks in *. etrans; [exact Hsh'|]. by eapply removal_shrinks.
  - intros q [->|?]%elem_of_cons; [|by apply Hq']. destruct (proposed_get s' id) as [e|] eqn:Hg; [|done].
    apply (shrinks_get _ _ _ _ Hsh') in Hg. rewrite (rm_queue _ _ _ _ _ _ Hrem) in Hg by left. done.
Qed.

Lemma conflict_ids_linked i self ids self' :
  linked self [] -> conflict_ids i self = (ids, self') ->
  linked self' ids /\ vertices self' = vertices self /\
  forall c, e_outer (edges self) !! i = Some (Some c) -> c ∈ ids.
Proof.
  intros Hl. unfold conflict_ids, remove_outer. intros [= <- <-]. cbn. split_and!; [|done|intros c ->; left].
  destruct Hl as [H1 H2 H0 H3 H4 H5 H6 H7 H8]. split; try done; cbn [edges e_inner e_outer].
  - intros c e o Hc Hin. destruct (H4 c e o Hc Hin) as [?|(? & ? & [Ho|[[]%not_elem_of_nil _]])]; [by left|right].
    split_and!; [done..|]. destruct (decide (i = o)) as [->|]; [|left; by rewrite lookup_delete_ne].
    right. rewrite Ho. cbn. split; [left|apply lookup_delete_eq].
  - intros o x. destruct (decide (i = o)) as [->|]; [by rewrite lookup_delete_eq|]. rewrite lookup_delete_ne by done. apply H6.
  - intros c e o Hc Hin. destruct (H8 c e o Hc Hin) as [[]%not_elem_of_nil|?]. by right.
Qed.

Lemma conflict_deps_linked i self ids self' :
  linked self [] -> conflict_deps i self = (ids, self') ->
  linked self' ids /\ vertices self' = vertices self /\ forall c, c ∈ dep_ids (edges self) i -> c ∈ ids.
Proof.
  intros Hl. unfold conflict_deps, remove_deps. intros [= <- <-]. cbn. split_and!; [|done|].
  2: { intros c. unfold dep_ids. destruct (e_deps (edges self) !! i); cbn; [by rewrite elem_of_elements|set_solver]. }
  destruct Hl as [H1 H2 H0 H3 H4 H5 H6 H7 H8]. split; try done; cbn [edges e_inner e_outer].
  - intros c e o Hc Hin. destruct (H4 c e o Hc Hin) as [?|(? & ? & [Ho|[[]%not_elem_of_nil _]])]; [by left|right; eauto].
  - intros o c. unfold dep_ids. cbn. destruct (decide (i = o)) as [->|]; [rewrite lookup_delete_eq; cbn; set_solver|].
    rewrite lookup_delete_ne by done. apply H7.
  - intros c e o Hc Hin. destruct (H8 c e o Hc Hin) as [[]%not_elem_of_nil|Hd]. unfold dep_ids in *. cbn.
    destruct (decide (i = o)) as [->|]; [left|right; by rewrite lookup_delete_ne].
    destruct (e_deps (edges self) !! o); cbn in *; [by apply elem_of_elements|set_solver].
Qed.

(** No transaction that is left spends or reads the cell. *)
Definition unused (self : ProposedPool M) (o : OutPoint) : Prop :=
  forall c e, proposed_get self c = Some e -> ~ uses e o.

Lemma unused_shrinks self self' o : shrinks self self' -> unused self o -> unused self' o.
Proof. intros Hs Hu c e Hc. apply (Hu c). by eapply shrinks_get. Qed.

(** Removing whatever uses the cell: its spender, then its readers. *)
Lemma conflict_input_spec {E} i acc self :
  linked self [] -> ~ creates self i -> exists removed self',
    conflict_input (E := E) (acc, self) i = Ok (acc ++ removed, self') /\ linked self' [] /\ shrinks self self' /\
    unused self' i.
Proof.
  intros Hl Hcr. unfold conflict_input. cbn [fst snd].
  destruct (conflict_ids i self) as [ids s1] eqn:H1. destruct (conflict_ids_linked _ _ _ _ Hl H1) as (Hl1 & Hv1 & Hids).
  destruct (remove_all_spec (E := E) ids acc s1 Hl1) as (rem1 & s2 & -> & Hl2 & Hsh2 & Hq2). rewrite bind_ret_l. cbn [fst snd].
  destruct (conflict_deps i s2) as [ids' s3] eqn:H3. destruct (conflict_deps_linked _ _ _ _ Hl2 H3) as (Hl3 & Hv3 & Hids').
  destruct (remove_all_spec (E := E) ids' (acc ++ rem1) s3 Hl3) as (rem2 & s4 & -> & Hl4 & Hsh4 & Hq4).
  assert (Hsh2' : shrinks self s2) by (unfold shrinks in *; by rewrite <- Hv1).
  assert (Hsh4' : shrinks s2 s4) by (unfold shrinks in *; by rewrite <- Hv3).
  exists (rem1 ++ rem2), s4. rewrite app_assoc. split_and!; [done|done|unfold shrinks in *; by etrans|].
  intros c e Hc. pose proof (shrinks_get _ _ _ _ Hsh4' Hc) as Hc2. pose proof (shrinks_get _ _ _ _ Hsh2' Hc2) as Hc0.
  intros [Hin|Hdep].
  - rewrite Hq2 in Hc2; [done|]. apply Hids.
    by destruct (li_spent _ _ Hl _ _ _ Hc0 Hin) as [[? _]|(_ & _ & [?|[[]%not_elem_of_nil _]])].
  - rewrite Hq4 in Hc; [done|]. apply Hids'. by destruct (li_read _ _ Hl2 _ _ _ Hc2 Hdep) as [[]%not_elem_of_nil|?].
Qed.

(** A transaction committed by a block that the pool does not have takes with
    it whatever conflicts with it. *)
Lemma resolve_conflict_ok {E} tx self :
  pool_ok self -> (forall i, i ∈ input_pts tx -> ~ creates self i) -> exists removed self',
    resolve_conflict (E := E) tx self = Ok (removed, self') /\ pool_ok self' /\ shrinks self self' /\
    forall i, i ∈ input_pts tx -> unused self' i.
Proof.
  intros Hok Hpar. unfold resolve_conflict.
  assert (Hgen : forall l acc s, linked s [] -> (forall i, i ∈ l -> ~ creates s i) -> exists removed s',
    try_fold (conflict_input (E := E)) (acc, s) l = Ok (removed, s') /\ linked s' [] /\ shrinks s s' /\
    forall i, i ∈ l -> unused s' i).
  { induction l as [|i l IH]; intros acc s Hl Hc; cbn [try_fold].
    { exists acc, s. split_and!; [done..|by unfold shrinks|by intros i []%not_elem_of_nil]. }
    destruct (conflict_input_spec (E := E) i acc s Hl) as (rem & s1 & -> & Hl1 & Hsh1 & Hu1); [apply Hc; left|].
    rewrite bind_ret_l. destruct (IH (acc ++ rem) s1 Hl1) as (rem' & s' & -> & Hl' & Hsh' & Hu').
    { intros j Hj (p & e & Hp & Ho). apply (Hc j); [by right|]. exists p, e. split; [|done]. by eapply shrinks_get. }
    exists rem', s'. split_and!; [done..|unfold shrinks in *; by etrans|].
    intros j [->|Hj]%elem_of_cons; [by eapply unused_shrinks|by apply Hu']. }
  destruct (Hgen (input_pts tx) [] self (po_linked _ Hok) Hpar) as (removed & self' & Hrun & Hl' & Hsh & Hu).
  exists removed, self'. split_and!; [done|by eapply shrinks_ok|done..].
Qed.

(** ** Insertion *)
Lemma link_inputs_count id l (es : Edges) n :
  (foldl (link_input id) (es, n) l).2 = n + len (filter (fun i => is_Some (e_inner es !! i)) l).
Proof.
  revert es n. induction l as [|i l IH]; intros es n; [cbn; unfold len; cbn; lia|]. cbn [foldl].
  destruct (link_input id (es, n) i) as [e1 n1] eqn:H1. rewrite IH, filter_cons.
  assert (Hk : forall j, is_Some (e_inner e1 !! j) <-> is_Some (e_inner es !! j)).
  { intros j. unfold link_input in H1. destruct (e_inner es !! i) as [x|] eqn:Hi; injection H1 as <- <-; cbn; [|done].
    destruct (decide (i = j)) as [<-|]; [rewrite lookup_insert_eq, Hi|rewrite lookup_insert_ne by done]; naive_solver. }
  rewrite (list_filter_iff (fun j => is_Some (e_inner e1 !! j)) (fun j => is_Some (e_inner es !! j))) by done.
  unfold link_input in H1. destruct (e_inner es !! i) as [x|] eqn:Hi; injection H1 as _ <-.
  - rewrite decide_True by done. unfold len. cbn [length]. lia.
  - rewrite decide_False by (by intros []). done.
Qed.

Lemma link_deps_count id l (es : Edges) n :
  (foldl (link_dep id) (es, n) l).2 = n + len (filter (fun i => is_Some (e_inner es !! i)) l).
Proof.
  revert es n. induction l as [|d l IH]; intros es n; [cbn; unfold len; cbn; lia|]. cbn [foldl].
  unfold link_dep at 2. rewrite IH, filter_cons. cbn [insert_deps e_inner].
  destruct (e_inner es !! d) eqn:Hi.
  - rewrite decide_True by done. unfold len. cbn [length]. lia.
  - rewrite decide_False by (by intros []). done.
Qed.

Lemma add_tx_entry cycles fee size tx self :
  exists e, vertices (proposed_add_tx cycles fee size tx self) = lhm_insert (proposal_short_id tx) e (vertices self) /\
    pe_transaction e = tx /\
    pe_refs_count e = len (filter (fun i => is_Some (e_inner (edges self) !! i)) (input_pts tx)) +
      len (filter (fun i => is_Some (e_inner (edges self) !! i)) (tx_deps tx)).
Proof.
  unfold proposed_add_tx.
  pose proof (link_inputs_count (proposal_short_id tx) (input_pts tx) (edges self) 0) as H1.
  destruct (link_inputs_spec (proposal_short_id tx) (input_pts tx) (edges self) 0) as (_ & Hi & _).
  destruct (foldl (link_input _) _ _) as [e1 n1]. cbn [fst snd] in *.
  pose proof (link_deps_count (proposal_short_id tx) (tx_deps tx) e1 n1) as H2.
  destruct (foldl (link_dep _) _ _) as [e2 n2]. cbn [snd] in H2. eexists. split; [done|]. split; [done|]. cbn.
  rewrite H2, H1. rewrite (list_filter_iff (fun j => is_Some (e_inner e1 !! j)) (fun j => is_Some (e_inner (edges self) !! j))); [lia|].
  intros j. rewrite Hi. destruct (e_inner (edges self) !! j); [|done]. split; intros; by eexists.
Qed.

Lemma pool_uses_le (C : gset OutPoint) (f : OutPoint -> Prop) `{forall o, Decision (f o)} t :
  (forall o, tx_uses t o -> o ∈ C -> f o) ->
  Z.of_nat (pool_uses C t) <= len (filter f (input_pts t)) + len (filter f (tx_deps t)).
Proof.
  intros Hf. unfold pool_uses, len.
  assert (Hs : forall l, (forall o, o ∈ l -> tx_uses t o) ->
    (size ((list_to_set l : gset OutPoint) ∩ C) <= length (filter f l))%nat).
  { intros l Hl. etrans; [|apply size_list_to_set_le]. apply subseteq_size. intros o.
    rewrite elem_of_intersection, !elem_of_list_to_set, list_elem_of_filter. naive_solver. }
  pose proof (Hs (input_pts t) ltac:(by left)). pose proof (Hs (tx_deps t) ltac:(by right)). lia.
Qed.

Lemma pool_uses_fresh (C D : gset OutPoint) t :
  (forall o, o ∈ D -> ~ tx_uses t o) -> pool_uses (C ∪ D) t = pool_uses C t.
Proof.
  intros Hf. unfold pool_uses. f_equal; f_equal; apply set_eq; intros o;
    rewrite !elem_of_intersection, elem_of_union, !elem_of_list_to_set;
    (split; [intros [? [?|?]]; [done|]|naive_solver]); exfalso; eapply Hf; unfold tx_uses; eauto.
Qed.

Lemma add_tx_ok cycles fee size tx self :
  pool_ok self -> addable self tx -> pool_ok (proposed_add_tx cycles fee size tx self).
Proof.
  intros [Hl Ht Hr] Had. destruct (add_tx_entry cycles fee size tx self) as (e & Hv & Htx & Hrefs).
  assert (Hshape : shape (vertices (proposed_add_tx cycles fee size tx self)) = shape (vertices self) ++ [(proposal_short_id tx, tx)]).
  { unfold shape. rewrite Hv, lhm_entries_insert, fmap_app by apply (ad_new _ _ Had). cbn. by rewrite Htx. }
  assert (Hcreated : created (vertices (proposed_add_tx cycles fee size tx self)) = created (vertices self) ∪ list_to_set (output_pts tx)).
  { apply set_eq. intros o. rewrite elem_of_union, elem_of_list_to_set, <- !creates_created. by apply add_tx_creates. }
  assert (Hold : forall t o, t ∈ pool_txs self -> o ∈ output_pts tx -> ~ tx_uses t o).
  { intros t o ([c t'] & -> & (ec & Hc & <-)%elem_of_shape)%list_elem_of_fmap Ho Hu.
    apply (ad_output _ _ Had o c ec Ho Hc). destruct Hu; [left; split; [by destruct (ad_own _ _ Had o)|done]|by right]. }
  split.
  - by apply add_tx_linked.
  - unfold pool_txs. rewrite Hshape, fmap_app. apply topological_app. split_and!; [done| |].
    + cbn. split; [|done]. intros p o ->%list_elem_of_singleton Ho [Hu|Hu]; by destruct (ad_own _ _ Had o Ho) as (_ & ? & ?).
    + intros t p o Hin ->%list_elem_of_singleton. by apply Hold.
  - intros c ec. rewrite Hcreated, Hv, lhm_get_insert. case_decide as Hc.
    + intros [= <-]. rewrite Htx, Hrefs, pool_uses_fresh.
      * apply pool_uses_le. intros o Hu Ho. apply creates_created in Ho. destruct Hu as [Hu|Hu].
        -- destruct (ad_input _ _ Had o Hu) as [->|[]]; [by eapply creates_cell|by eexists|done].
        -- by destruct (ad_dep _ _ Had o Hu).
      * intros o Ho%elem_of_list_to_set [Hu|Hu]; by destruct (ad_own _ _ Had o Ho) as (_ & ? & ?).
    + intros Hg. rewrite pool_uses_fresh; [by apply (Hr c)|]. intros o Ho%elem_of_list_to_set.
      apply Hold; [|done]. apply list_elem_of_fmap. exists (c, pe_transaction ec). split; [done|]. apply elem_of_shape. eauto.
Qed.

Lemma pool_new_ok : pool_ok ProposedPool_new.
Proof.
  assert (Hg : forall c e, proposed_get ProposedPool_new c <> Some e).
  { intros c e. unfold proposed_get, ProposedPool_new. cbn. by rewrite lhm_get_empty. }
  split.
  - split.
    + intros id e Hc. by apply Hg in Hc.
    + intros id e o Hc. by apply Hg in Hc.
    + intros o _ (p & e & Hc & _). by apply Hg in Hc.
    + intros c c' e e' o Hc. by apply Hg in Hc.
    + intros c e o Hc. by apply Hg in Hc.
    + done.
    + done.
    + intros o c. unfold dep_ids. cbn. set_solver.
    + intros c e o Hc. by apply Hg in Hc.
  - unfold pool_txs, shape, ProposedPool_new. cbn. by rewrite lhm_entries_empty.
  - intros c e Hc. by destruct (Hg c e).
Qed.
End commit.
