(* ===== verification/TxPool.v ===== *)
(** * The transaction pool

    [shared/src/tx_pool/pool.rs], [pending.rs], [orphan.rs] and [types.rs]: the
    queue of transactions that wait to be proposed, those in the gap of a
    proposal, the proposed pool, the orphans and the conflicts, with the totals
    the limits of the pool are checked against. *)
From S2P Require Import Prelude Capacity ByteStrings Transactions Blocks CellSet Cells VerifyErrors LinkedMap ProposedPool.

Record TxPoolConfig := mkPoolConfig { max_mem_size : Z; max_cycles : Z; max_verfify_cache_size : Z }.
Definition TxPoolConfig_default : TxPoolConfig := mkPoolConfig 20000000 200000000000 100000.

Inductive PoolError :=
| PoolUnresolvableTransaction (e : UnresolvableError)
| PoolInvalidTx (e : TransactionError)
| PoolLimitReached
| PoolTimeOut
| PoolInvalidBlockNumber
| PoolDuplicate
| PoolTxFee.

Definition pool_is_bad_tx (self : PoolError) : bool :=
  match self with PoolInvalidTx err => is_bad_tx err | _ => false end.

Record DefectEntry := mkDefect {
  de_transaction : Transaction; de_refs_count : Z; de_cycles : option Z; de_size : Z }.
Record PendingEntry := mkPending {
  pn_transaction : Transaction; pn_cycles : option Z; pn_size : Z }.

(** ** Orphans: transactions that use unknown cells *)
Record OrphanPool := mkOrphan {
  o_vertices : gmap Bytes DefectEntry;
  o_edges : gmap OutPoint (list Bytes)
}.

Definition OrphanPool_new : OrphanPool := mkOrphan ∅ ∅.

Definition orphan_add_tx (cycles : option Z) (size : Z) (tx : Transaction) (unknown : list OutPoint)
    (self : OrphanPool) : option DefectEntry * OrphanPool :=
  let short_id := proposal_short_id tx in
  let entry := mkDefect tx (len unknown) cycles size in
  let edges := foldl (fun (edges : gmap OutPoint (list Bytes)) out_point =>
    <[out_point := default [] (edges !! out_point) ++ [short_id]]> edges) (o_edges self) unknown in
  (o_vertices self !! short_id, mkOrphan (<[short_id := entry]> (o_vertices self)) edges).

(** An output of a removed orphan: the orphans that wait for it are queued. *)
Definition orphan_unlink (st : gmap OutPoint (list Bytes) * list Bytes) (o : OutPoint)
    : gmap OutPoint (list Bytes) * list Bytes :=
  match st.1 !! o with
  | Some ids => (delete o st.1, st.2 ++ ids)
  | None => st
  end.

Fixpoint recursion_loop {E} (fuel : nat) (queue : list Bytes) (self : OrphanPool) : outcome E OrphanPool :=
  match queue with
  | [] => Ok self
  | id :: queue =>
      match fuel with
      | O => Panic
      | S fuel =>
          match o_vertices self !! id with
          | Some entry =>
              let '(edges, queue) := foldl orphan_unlink (o_edges self, queue) (output_pts (de_transaction entry)) in
              recursion_loop fuel queue (mkOrphan (delete id (o_vertices self)) edges)
          | None => recursion_loop fuel queue self
          end
      end
  end.

(** The number of ids on the edges: what the loop consumes. *)
Definition orphan_weight (edges : gmap OutPoint (list Bytes)) : nat :=
  map_fold (fun _ (ids : list Bytes) n => length ids + n)%nat 0%nat edges.

Definition recursion_remove {E} (id : Bytes) (self : OrphanPool) : outcome E OrphanPool :=
  recursion_loop (S (orphan_weight (o_edges self))) [id] self.

Definition orphan_remove_conflict {E} (tx : Transaction) (self : OrphanPool) : outcome E OrphanPool :=
  try_fold (fun self input =>
    match o_edges self !! input with
    | Some ids =>
        try_fold (fun self cid => recursion_remove cid self)
          (mkOrphan (o_vertices self) (delete input (o_edges self))) ids
    | None => Ok self
    end) self (input_pts tx).

(** One orphan that waits for a cell which is now known. *)
Definition release_child {E : Type} (st : gmap Bytes DefectEntry * list (list OutPoint) * list DefectEntry) (cid : Bytes)
    : outcome E (gmap Bytes DefectEntry * list (list OutPoint) * list DefectEntry) :=
  let '(vertices, queue, txs) := st in
  match vertices !! cid with
  | Some tx =>
      refs_count ← de_refs_count tx -64 1;
      let tx := mkDefect (de_transaction tx) refs_count (de_cycles tx) (de_size tx) in
      Ok (if decide (refs_count = 0)
          then (delete cid vertices, queue ++ [output_pts (de_transaction tx)], txs ++ [tx])
          else (<[cid := tx]> vertices, queue, txs))
  | None => Ok st
  end.

Definition release_output {E : Type} (st : OrphanPool * list (list OutPoint) * list DefectEntry) (o : OutPoint)
    : outcome E (OrphanPool * list (list OutPoint) * list DefectEntry) :=
  let '(self, queue, txs) := st in
  match o_edges self !! o with
  | Some ids =>
      '(vertices, queue, txs) ← try_fold release_child (o_vertices self, queue, txs) ids;
      Ok (mkOrphan vertices (delete o (o_edges self)), queue, txs)
  | None => Ok st
  end.

(** [while let Some(outputs) = queue.pop_front()]: every list of outputs but
    the first is that of an orphan that left the pool. *)
Fixpoint ancestor_queue {E} (fuel : nat) (queue : list (list OutPoint)) (self : OrphanPool) (txs : list DefectEntry)
    : outcome E (list DefectEntry * OrphanPool) :=
  match queue with
  | [] => Ok (txs, self)
  | outputs :: queue =>
      match fuel with
      | O => Panic
      | S fuel =>
          '(self, queue, txs) ← try_fold release_output (self, queue, txs) outputs;
          ancestor_queue fuel queue self txs
      end
  end.

Definition remove_by_ancestor {E} (tx : Transaction) (self : OrphanPool) : outcome E (list DefectEntry * OrphanPool) :=
  self ← orphan_remove_conflict tx self;
  ancestor_queue (S (size (o_vertices self))) [output_pts tx] self [].

(** ** The pool *)
Section pool.
Context {M L : Type -> Type} `{LM : !LinkedHashMap Bytes M} `{LL : !LruCache Bytes L}.

Abbreviation PendingQueue := (M PendingEntry) (only parsing).

Record TxPool := mkTxPool {
  tp_config : TxPoolConfig;
  tp_pending : M PendingEntry;
  tp_gap : M PendingEntry;
  tp_proposed : ProposedPool M;
  tp_orphan : OrphanPool;
  tp_conflict : L DefectEntry;
  tp_last_txs_updated_at : Z;
  tp_total_tx_size : Z;
  tp_total_tx_cycles : Z
}.

Definition TxPool_new (config : TxPoolConfig) : TxPool :=
  mkTxPool config lhm_empty lhm_empty ProposedPool_new OrphanPool_new
    (lru_new (max_verfify_cache_size config)) 0 0 0.

Definition pending_size (self : TxPool) : Z := cast U32_SIZE (len (lhm_entries (tp_pending self))).
Definition gap_size (self : TxPool) : Z := cast U32_SIZE (len (lhm_entries (tp_gap self))).
Definition proposed_size (self : TxPool) : Z := cast U32_SIZE (len (lhm_entries (vertices (tp_proposed self)))).
Definition orphan_size (self : TxPool) : Z := cast U32_SIZE (Z.of_nat (size (o_vertices (tp_orphan self)))).

(** The assignments to a field. *)
Definition with_queues (pending gap : M PendingEntry) (p : TxPool) : TxPool :=
  mkTxPool (tp_config p) pending gap (tp_proposed p) (tp_orphan p) (tp_conflict p)
    (tp_last_txs_updated_at p) (tp_total_tx_size p) (tp_total_tx_cycles p).
Definition with_proposed (proposed : ProposedPool M) (p : TxPool) : TxPool :=
  mkTxPool (tp_config p) (tp_pending p) (tp_gap p) proposed (tp_orphan p) (tp_conflict p)
    (tp_last_txs_updated_at p) (tp_total_tx_size p) (tp_total_tx_cycles p).
Definition with_defects (orphan : OrphanPool) (conflict : L DefectEntry) (p : TxPool) : TxPool :=
  mkTxPool (tp_config p) (tp_pending p) (tp_gap p) (tp_proposed p) orphan conflict
    (tp_last_txs_updated_at p) (tp_total_tx_size p) (tp_total_tx_cycles p).
Definition with_totals (tx_size cycles : Z) (p : TxPool) : TxPool :=
  mkTxPool (tp_config p) (tp_pending p) (tp_gap p) (tp_proposed p) (tp_orphan p) (tp_conflict p)
    (tp_last_txs_updated_at p) tx_size cycles.

(** *** [PendingQueue] *)
Definition pending_add_tx (cycles : option Z) (size : Z) (tx : Transaction) (self : PendingQueue)
    : option PendingEntry * PendingQueue :=
  let short_id := proposal_short_id tx in
  (lhm_get short_id self, lhm_insert short_id (mkPending tx cycles size) self).

Definition pending_get_tx (self : PendingQueue) (id : Bytes) : option Transaction :=
  pn_transaction <$> lhm_get id self.

Definition pending_keys (self : PendingQueue) : list Bytes := (lhm_entries self).*1.
Definition fetch (self : PendingQueue) (n : Z) : list Bytes := take (Z.to_nat n) (pending_keys self).

Definition PendingQueue_cell (self : PendingQueue) : CellProvider :=
  fun o =>
    match op_cell o with
    | Some cell =>
        match lhm_get (from_tx_hash (cop_tx_hash cell)) self with
        | Some x =>
            match get_output (pn_transaction x) (cop_index cell) with
            | Some output => Ok (CellLive (pool_cell_meta output cell))
            | None => Ok CellUnknown
            end
        | None => Ok CellUnknown
        end
    | None => Ok CellUnspecified
    end.

(** *** [TxPool] *)
Definition reach_size_limit {E} (self : TxPool) (tx_size : Z) : outcome E bool :=
  total ← tp_total_tx_size self +64 tx_size; Ok (bool_decide (max_mem_size (tp_config self) < total)).
Definition reach_cycles_limit {E} (self : TxPool) (cycles : Z) : outcome E bool :=
  total ← tp_total_tx_cycles self +64 cycles; Ok (bool_decide (max_cycles (tp_config self) < total)).

Definition update_statics_for_add_tx {E} (tx_size cycles : Z) (self : TxPool) : outcome E TxPool :=
  total_tx_size ← tp_total_tx_size self +64 tx_size;
  total_tx_cycles ← tp_total_tx_cycles self +64 cycles;
  Ok (with_totals total_tx_size total_tx_cycles self).

Definition update_statics_for_remove_tx (tx_size cycles : Z) (self : TxPool) : TxPool :=
  with_totals (default 0 (checked_sub (tp_total_tx_size self) tx_size))
    (default 0 (checked_sub (tp_total_tx_cycles self) cycles)) self.

Definition enqueue_tx (cycles : option Z) (size : Z) (tx : Transaction) (self : TxPool) : bool * TxPool :=
  match lhm_get (proposal_short_id tx) (tp_gap self) with
  | Some _ => (false, self)
  | None =>
      let '(old, pending) := pending_add_tx cycles size tx (tp_pending self) in
      (match old with Some _ => false | None => true end, with_queues pending (tp_gap self) self)
  end.

Definition add_gap (cycles : option Z) (size : Z) (tx : Transaction) (self : TxPool) : bool * TxPool :=
  let '(old, gap) := pending_add_tx cycles size tx (tp_gap self) in
  (match old with Some _ => false | None => true end, with_queues (tp_pending self) gap self).

Definition add_orphan (cycles : option Z) (size : Z) (tx : Transaction) (unknowns : list OutPoint) (self : TxPool)
    : option DefectEntry * TxPool :=
  let '(old, orphan) := orphan_add_tx cycles size tx unknowns (tp_orphan self) in
  (old, with_defects orphan (tp_conflict self) self).

Definition touch_last_txs_updated_at (now : Z) (self : TxPool) : TxPool :=
  mkTxPool (tp_config self) (tp_pending self) (tp_gap self) (tp_proposed self) (tp_orphan self) (tp_conflict self)
    now (tp_total_tx_size self) (tp_total_tx_cycles self).

Definition add_proposed (now cycles : Z) (fee : Capacity) (size : Z) (tx : Transaction) (self : TxPool) : TxPool :=
  let self := touch_last_txs_updated_at now self in
  with_proposed (proposed_add_tx cycles fee size tx (tp_proposed self)) self.

(** [LruCache::insert], with the entry it replaces. *)
Definition add_conflict (tx : Transaction) (cycles : option Z) (size : Z) (self : TxPool) : option DefectEntry * TxPool :=
  let short_id := proposal_short_id tx in
  (lru_get short_id (tp_conflict self),
   with_defects (tp_orphan self) (lru_insert short_id (mkDefect tx 0 cycles size) (tp_conflict self)) self).

(** The gap is not among the places looked at. *)
Definition pool_contains_proposal_id (self : TxPool) (id : Bytes) : bool :=
  bool_decide (is_Some (lhm_get id (tp_pending self)) \/ is_Some (lru_get id (tp_conflict self)) \/
    is_Some (proposed_get (tp_proposed self) id) \/ is_Some (o_vertices (tp_orphan self) !! id)).

Definition or_else {A} (a b : option A) : option A := match a with Some x => Some x | None => b end.

Definition get_tx_with_cycles (self : TxPool) (id : Bytes) : option (Transaction * option Z) :=
  or_else ((fun e => (pn_transaction e, pn_cycles e)) <$> lhm_get id (tp_pending self))
  (or_else ((fun e => (pn_transaction e, pn_cycles e)) <$> lhm_get id (tp_gap self))
  (or_else ((fun e => (pe_transaction e, Some (pe_cycles e))) <$> proposed_get (tp_proposed self) id)
  (or_else ((fun e => (de_transaction e, de_cycles e)) <$> o_vertices (tp_orphan self) !! id)
    ((fun e => (de_transaction e, de_cycles e)) <$> lru_get id (tp_conflict self))))).

Definition get_tx_without_conflict (self : TxPool) (id : Bytes) : option Transaction :=
  or_else (pending_get_tx (tp_pending self) id)
  (or_else (pending_get_tx (tp_gap self) id)
  (or_else (proposed_get_tx (tp_proposed self) id)
    (de_transaction <$> o_vertices (tp_orphan self) !! id))).

Definition get_tx (self : TxPool) (id : Bytes) : option Transaction :=
  or_else (get_tx_without_conflict self id) (de_transaction <$> lru_get id (tp_conflict self)).

Definition get_tx_from_proposed (self : TxPool) (id : Bytes) : option Transaction :=
  proposed_get_tx (tp_proposed self) id.

Definition remove_committed_txs_from_proposed {E} (txs : list Transaction) (self : TxPool) : outcome E TxPool :=
  try_fold (fun self tx =>
    '(entries, proposed) ← remove_committed_tx tx (tp_proposed self);
    Ok (foldl (fun self entry => update_statics_for_remove_tx (pe_size entry) (pe_cycles entry) self)
          (with_proposed proposed self) entries)) self txs.

Definition remove_expired_id {E} (self : TxPool) (id : Bytes) : outcome E TxPool :=
  let self :=
    match lhm_get id (tp_gap self) with
    | Some entry =>
        (enqueue_tx (pn_cycles entry) (pn_size entry) (pn_transaction entry)
           (with_queues (tp_pending self) (lhm_remove id (tp_gap self)) self)).2
    | None => self
    end in
  '(entries, proposed) ← remove_vertex id (tp_proposed self);
  Ok (foldl (fun self entry =>
        (enqueue_tx (Some (pe_cycles entry)) (pe_size entry) (pe_transaction entry) self).2)
      (with_proposed proposed self) entries).

Definition remove_expired {E} (ids : list Bytes) (self : TxPool) : outcome E TxPool :=
  try_fold remove_expired_id self ids.
End pool.
Arguments TxPool : clear implicits.

(** ** The loops over the orphans end *)
Lemma orphan_weight_delete (edges : gmap OutPoint (list Bytes)) o ids :
  edges !! o = Some ids -> orphan_weight edges = (length ids + orphan_weight (delete o edges))%nat.
Proof.
  intros Ho. unfold orphan_weight.
  apply (map_fold_delete_L (fun _ (ids : list Bytes) n => length ids + n)%nat 0%nat o ids edges); [intros; lia|done].
Qed.

Lemma orphan_unlink_weight l : forall edges queue,
  let st := foldl orphan_unlink (edges, queue) l in
  (length st.2 + orphan_weight st.1 = length queue + orphan_weight edges)%nat.
Proof.
  induction l as [|o l IH]; intros edges queue; [done|]. cbn [foldl].
  assert (orphan_unlink (edges, queue) o = match edges !! o with Some ids => (delete o edges, queue ++ ids) | None => (edges, queue) end)
    as -> by done.
  destruct (edges !! o) as [ids|] eqn:Ho; [|apply IH]. cbv zeta in IH. rewrite IH, length_app, (orphan_weight_delete _ _ _ Ho). lia.
Qed.

Lemma recursion_loop_total {E} fuel : forall queue self,
  (length queue + orphan_weight (o_edges self) <= fuel)%nat -> exists self', recursion_loop (E := E) fuel queue self = Ok self' /\
    o_vertices self' ⊆ o_vertices self.
Proof.
  induction fuel as [|fuel IH]; intros [|id queue] self Hf; cbn [recursion_loop]; [by exists self|cbn in Hf; lia|by exists self|].
  cbn in Hf. destruct (o_vertices self !! id) as [entry|] eqn:Hid; [|apply IH; lia].
  pose proof (orphan_unlink_weight (output_pts (de_transaction entry)) (o_edges self) queue) as Hw. cbn zeta in Hw.
  destruct (foldl _ _ _) as [edges queue']. cbn in Hw.
  destruct (IH queue' (mkOrphan (delete id (o_vertices self)) edges)) as (self' & Hrun & Hsub); [cbn; lia|].
  exists self'. split; [done|]. etrans; [exact Hsub|]. apply delete_subseteq.
Qed.

Lemma recursion_remove_total {E} id self :
  exists self', recursion_remove (E := E) id self = Ok self' /\ o_vertices self' ⊆ o_vertices self.
Proof. apply recursion_loop_total. cbn. lia. Qed.

Lemma try_fold_total {E A B : Type} (R : B -> B -> Prop) (f : B -> A -> outcome E B) :
  (forall s, R s s) -> (forall s1 s2 s3, R s1 s2 -> R s2 s3 -> R s1 s3) ->
  (forall s a, exists s', f s a = Ok s' /\ R s s') -> forall l s, exists s', try_fold f s l = Ok s' /\ R s s'.
Proof.
  intros Hrefl Htrans Hf l. induction l as [|a l IH]; intros s; [by exists s|].
  destruct (Hf s a) as (s1 & Hs1 & HR1). destruct (IH s1) as (s2 & Hs2 & HR2). exists s2. cbn. rewrite Hs1. eauto.
Qed.

Lemma orphan_remove_conflict_total {E} tx self :
  exists self', orphan_remove_conflict (E := E) tx self = Ok self' /\ o_vertices self' ⊆ o_vertices self.
Proof.
  apply (try_fold_total (fun s s' => o_vertices s' ⊆ o_vertices s)); [done|intros; by etrans|]. intros s i.
  destruct (o_edges s !! i) as [ids|]; [|by exists s].
  apply (try_fold_total (fun s s' => o_vertices s' ⊆ o_vertices s) _) with (s := mkOrphan (o_vertices s) (delete i (o_edges s)));
    [done|intros; by etrans|]. intros; apply recursion_remove_total.
Qed.

(** An orphan waits for at least one cell. *)
Definition waiting (vertices : gmap Bytes DefectEntry) : Prop :=
  map_Forall (fun _ e => 1 <= de_refs_count e) vertices.

(** One more list of outputs for every orphan released. *)
Definition released {A B : Type} (v v' : gmap Bytes DefectEntry) (queue queue' : list A) (txs txs' : list B) : Prop :=
  waiting v' /\ (length queue' + size v' = length queue + size v)%nat /\ (size v' + length txs' = size v + length txs)%nat.

Lemma release_child_total {E : Type} v queue txs cid : waiting v ->
  exists v' queue' txs', release_child (E := E) (v, queue, txs) cid = Ok (v', queue', txs') /\ released v v' queue queue' txs txs'.
Proof.
  intros Hw. unfold release_child. destruct (v !! cid) as [e|] eqn:He; [|by exists v, queue, txs].
  pose proof (Hw _ _ He) as Hr. cbn in Hr. rewrite sub_w_eq, bind_ret_l by lia.
  assert (size v = S (size (delete cid v))) as Hs by (rewrite map_size_delete_Some by eauto; pose proof (map_size_ne_0_lookup_2 v cid ltac:(eauto)); lia).
  case_decide as H0.
  - eexists _, _, _. split; [done|]. split_and!; [by apply map_Forall_delete|rewrite length_app; cbn; lia|rewrite length_app; cbn; lia].
  - eexists _, _, _. split; [done|]. split_and!.
    + apply map_Forall_insert_2; [cbn; lia|done].
    + rewrite map_size_insert_Some by eauto. lia.
    + rewrite map_size_insert_Some by eauto. lia.
Qed.

Lemma release_children_total {E : Type} ids : forall v queue txs, waiting v ->
  exists v' queue' txs', try_fold (release_child (E := E)) (v, queue, txs) ids = Ok (v', queue', txs') /\
    released v v' queue queue' txs txs'.
Proof.
  induction ids as [|cid ids IH]; intros v queue txs Hw; [by exists v, queue, txs|]. cbn [try_fold].
  destruct (release_child_total (E := E) v queue txs cid Hw) as (v1 & q1 & t1 & -> & Hw1 & H1 & H2). rewrite bind_ret_l.
  destruct (IH v1 q1 t1 Hw1) as (v2 & q2 & t2 & -> & Hw2 & H3 & H4). exists v2, q2, t2. split; [done|]. split_and!; [done|lia|lia].
Qed.

Lemma release_outputs_total {E : Type} outs : forall self queue txs, waiting (o_vertices self) ->
  exists self' queue' txs', try_fold (release_output (E := E)) (self, queue, txs) outs = Ok (self', queue', txs') /\
    released (o_vertices self) (o_vertices self') queue queue' txs txs'.
Proof.
  induction outs as [|o outs IH]; intros self queue txs Hw; [by exists self, queue, txs|]. cbn [try_fold].
  assert (release_output (E := E) (self, queue, txs) o = match o_edges self !! o with
    | Some ids => '(v, queue, txs) ← try_fold release_child (o_vertices self, queue, txs) ids;
        Ok (mkOrphan v (delete o (o_edges self)), queue, txs)
    | None => Ok (self, queue, txs) end) as -> by done. destruct (o_edges self !! o) as [ids|].
  - destruct (release_children_total (E := E) ids _ queue txs Hw) as (v1 & q1 & t1 & -> & Hw1 & H1 & H2). rewrite !bind_ret_l.
    destruct (IH (mkOrphan v1 (delete o (o_edges self))) q1 t1 Hw1) as (s2 & q2 & t2 & -> & Hw2 & H3 & H4). cbn in H3, H4.
    exists s2, q2, t2. split; [done|]. split_and!; [done|lia|lia].
  - rewrite bind_ret_l. by apply IH.
Qed.

Lemma ancestor_queue_total {E : Type} fuel : forall queue self txs,
  waiting (o_vertices self) -> (length queue + size (o_vertices self) <= fuel)%nat ->
  exists txs' self', ancestor_queue (E := E) fuel queue self txs = Ok (txs', self') /\ waiting (o_vertices self') /\
    (size (o_vertices self') + length txs' = size (o_vertices self) + length txs)%nat.
Proof.
  induction fuel as [|fuel IH]; intros [|outs queue] self txs Hw Hf; cbn [ancestor_queue];
    [by exists txs, self|cbn in Hf; lia|by exists txs, self|].
  destruct (release_outputs_total (E := E) outs self queue txs Hw) as (s1 & q1 & t1 & -> & Hw1 & H1 & H2). rewrite bind_ret_l.
  cbn in Hf. destruct (IH q1 s1 t1 Hw1 ltac:(lia)) as (t2 & s2 & -> & Hw2 & H3). exists t2, s2. split_and!; [done|done|lia].
Qed.

(** [remove_by_ancestor] ends with the fuel given, and what it returns are the
    orphans that left. *)
Lemma remove_by_ancestor_total {E : Type} tx self :
  waiting (o_vertices self) -> exists txs self', remove_by_ancestor (E := E) tx self = Ok (txs, self') /\
    waiting (o_vertices self') /\ (size (o_vertices self') + length txs <= size (o_vertices self))%nat.
Proof.
  intros Hw. unfold remove_by_ancestor. destruct (orphan_remove_conflict_total (E := E) tx self) as (s1 & -> & Hsub).
  rewrite bind_ret_l. assert (waiting (o_vertices s1)) as Hw1
    by (intros i e He; apply (Hw i); by eapply lookup_weaken).
  destruct (ancestor_queue_total (E := E) (S (size (o_vertices s1))) [output_pts tx] s1 [] Hw1) as (txs & s2 & -> & Hw2 & Hs); [cbn; lia|].
  exists txs, s2. split_and!; [done|done|]. apply map_subseteq_size in Hsub. cbn in Hs. lia.
Qed.
