(* ===== verification/Compact.v ===== *)
(** * Compact blocks

    A block is announced with short ids in place of its transactions:
    [protocol/src/lib.rs] computes the ids, [CompactBlock::build] of
    [protocol/src/builder.rs] makes the message, [compact_block.rs] and
    [compact_block_verifier.rs] of [sync/src/relayer] read and check it, and
    [Relayer::reconstruct_block] puts the block together again.  [siphash] is
    the hash of the package [siphasher] under two keys. *)
From S2P Require Import Prelude Capacity ByteStrings Transactions Blocks Fixtures Protocol LinkedMap ProposedPool TxPool.

Abbreviation ShortTransactionID := Bytes (only parsing).

Record IndexTransaction := mkIndexTx { it_index : Z; it_transaction : Transaction }.

Record CompactBlock := mkCompact {
  cb_header : Header;
  cb_uncles : list UncleBlock;
  cb_nonce : Z;
  cb_short_ids : list ShortTransactionID;
  cb_prefilled_transactions : list IndexTransaction;
  cb_proposals : list Bytes
}.

Section compact.
Context (blake2b : Bytes -> H256) (siphash : Z -> Z -> Bytes -> Z).
Context (serialize_raw : RawTransaction -> Bytes)
  (serialize_tx : RawTransaction -> list (list Bytes) -> Bytes) (serialize_header : RawHeader -> Seal -> Bytes)
  (serialize_uncles : list UncleBlock -> Bytes) (merkle_root : list H256 -> H256)
  (from_little_endian : Bytes -> option Z).

(** ** Short ids *)
Definition short_transaction_id_keys (header_nonce random_nonce : Z) : Z * Z :=
  let hash := h256_as_bytes (blake2b (u64_to_le_bytes header_nonce ++ u64_to_le_bytes random_nonce)) in
  (le_combine (take 8 hash), le_combine (take 8 (drop 8 hash))).

Definition short_transaction_id (key0 key1 : Z) (witness_hash : H256) : ShortTransactionID :=
  take 6 (u64_to_le_bytes (siphash key0 key1 (h256_as_bytes witness_hash))).

(** The id of a transaction under the keys of a block. *)
Definition tx_short_id (keys : Z * Z) (tx : Transaction) : ShortTransactionID :=
  short_transaction_id keys.1 keys.2 (tx_witness_hash tx).

(** ** The message *)
Definition fbs_index_transaction (index : nat) (transaction : Transaction) : FbsIndexTransaction :=
  mkFbsIndexTx (cast U32_SIZE (Z.of_nat index)) (Some (fbs_transaction transaction)).

(** The loop over the transactions, from the given index on. *)
Fixpoint split_transactions (indexes : gset nat) (keys : Z * Z) (index : nat) (txs : list Transaction)
    : list FbsBytes * list FbsIndexTransaction :=
  match txs with
  | [] => ([], [])
  | tx :: txs =>
      let '(short_ids, prefilled) := split_transactions indexes keys (S index) txs in
      if bool_decide (index ∈ indexes) || is_cellbase tx
      then (short_ids, fbs_index_transaction index tx :: prefilled)
      else (fbs_bytes (tx_short_id keys tx) :: short_ids, prefilled)
  end.

(** [nonce] is drawn at random. *)
Definition fbs_compact_block (block : Block) (prefilled_transactions_indexes : gset nat) (nonce : Z) : FbsCompactBlock :=
  let keys := short_transaction_id_keys (seal_nonce (h_seal (b_header block))) nonce in
  let '(short_ids, prefilled_transactions) := split_transactions prefilled_transactions_indexes keys 0 (b_transactions block) in
  mkFbsCompact (Some (fbs_header (b_header block))) nonce (Some short_ids) (Some prefilled_transactions)
    (Some (fbs_uncle <$> b_uncles block)) (Some (fbs_short_id <$> b_proposals block)).

Definition build_compact_block (block : Block) (prefilled_transactions_indexes : gset nat) (nonce : Z) : FbsRelayMessage :=
  FbsRelayCompactBlock (fbs_compact_block block prefilled_transactions_indexes nonce).

Definition index_transaction_try_from (it : FbsIndexTransaction) : outcome ConvertError IndexTransaction :=
  transaction ← fbs_cast (fx_transaction it);
  transaction ← transaction_try_from blake2b serialize_raw serialize_tx transaction;
  Ok (mkIndexTx (fx_index it) transaction).

(** [copy_from_slice] panics when the slice does not have the six bytes. *)
Definition short_id_bytes (bytes : FbsBytes) : outcome ConvertError ShortTransactionID :=
  match fb_seq bytes with
  | Some seq => if decide (length seq = 6%nat) then Ok seq else Panic
  | None => Err Malformed
  end.

Definition compact_block_try_from (b : FbsCompactBlock) : outcome ConvertError CompactBlock :=
  header ← fbs_cast (fk_header b);
  short_ids ← fbs_cast (fk_short_ids b);
  prefilled_transactions ← fbs_cast (fk_prefilled_transactions b);
  uncles ← fbs_cast (fk_uncles b);
  proposals ← fbs_cast (fk_proposals b);
  header ← header_try_from blake2b serialize_header from_little_endian header;
  short_ids ← try_map short_id_bytes short_ids;
  prefilled_transactions ← try_map index_transaction_try_from prefilled_transactions;
  uncles ← try_map (uncle_try_from blake2b serialize_header from_little_endian) uncles;
  proposals ← try_map short_id_try_from proposals;
  Ok (mkCompact header uncles (fk_nonce b) short_ids prefilled_transactions proposals).

(** ** The checks *)
Inductive CompactBlockError :=
| CellbaseNotPrefilled
| DuplicatedShortIds
| UnorderedPrefilledTransactions
| OverflowPrefilledTransactions
| IntersectedPrefilledTransactions.
#[export] Instance CompactBlockError_eq_dec : EqDecision CompactBlockError.
Proof. solve_decision. Defined.

(** [windows(2).any(..)] *)
Fixpoint unordered (l : list IndexTransaction) : bool :=
  match l with
  | p0 :: ((p1 :: _) as l) => bool_decide (it_index p1 <= it_index p0) || unordered l
  | _ => false
  end.

Definition PrefilledVerifier_verify (block : CompactBlock) : outcome CompactBlockError unit :=
  let prefilled_transactions := cb_prefilled_transactions block in
  let txs_len := len prefilled_transactions + len (cb_short_ids block) in
  match prefilled_transactions with
  | p0 :: _ =>
      if decide (it_index p0 ≠ 0) then Err CellbaseNotPrefilled
      else if unordered prefilled_transactions then Err UnorderedPrefilledTransactions
      else match last prefilled_transactions with
           | Some p => if decide (txs_len <= it_index p) then Err OverflowPrefilledTransactions else Ok tt
           | None => Ok tt
           end
  | [] => Err CellbaseNotPrefilled
  end.

Definition ShortIdsVerifier_verify (block : CompactBlock) : outcome CompactBlockError unit :=
  let short_ids := cb_short_ids block in
  let short_ids_set : gset Bytes := list_to_set short_ids in
  if decide (length short_ids ≠ size short_ids_set) then Err DuplicatedShortIds
  else
    let keys := short_transaction_id_keys (seal_nonce (h_seal (cb_header block))) (cb_nonce block) in
    if existsb (fun it => bool_decide (tx_short_id keys (it_transaction it) ∈ short_ids_set)) (cb_prefilled_transactions block)
    then Err IntersectedPrefilledTransactions
    else Ok tt.

Definition CompactBlockVerifier_verify (block : CompactBlock) : outcome CompactBlockError unit :=
  _ ← PrefilledVerifier_verify block; ShortIdsVerifier_verify block.

(** ** The block again *)
Section reconstruct.
Context {M L : Type -> Type} `{LM : !LinkedHashMap Bytes M} {E : Type}.

(** [filter_map]: a transaction is taken when its id is still wanted. *)
Definition take_wanted (keys : Z * Z) (st : gset Bytes * gmap Bytes Transaction) (tx : Transaction)
    : gset Bytes * gmap Bytes Transaction :=
  let '(short_ids_set, txs_map) := st in
  let short_id := tx_short_id keys tx in
  if decide (short_id ∈ short_ids_set)
  then (short_ids_set ∖ {[short_id]}, <[short_id := tx]> txs_map)
  else st.

(** The loop over the pool, left when nothing is wanted any more. *)
Fixpoint search_pool (keys : Z * Z) (entries : list ProposedEntry) (st : gset Bytes * gmap Bytes Transaction)
    : gset Bytes * gmap Bytes Transaction :=
  match entries with
  | [] => st
  | entry :: entries =>
      if decide (tx_short_id keys (pe_transaction entry) ∈ st.1) then
        let st := take_wanted keys st (pe_transaction entry) in
        if decide (st.1 = ∅) then st else search_pool keys entries st
      else search_pool keys entries st
  end.

(** The transactions so far, the rest of the short ids, and the map. *)
Record Filling := mkFilling {
  fl_transactions : list (option Transaction);
  fl_short_ids : list ShortTransactionID;
  fl_map : gmap Bytes Transaction
}.

Definition push_short_id (st : list (option Transaction) * gmap Bytes Transaction) (short_id : ShortTransactionID)
    : list (option Transaction) * gmap Bytes Transaction :=
  (st.1 ++ [st.2 !! short_id], delete short_id st.2).

(** [short_ids_iter.take(gap).for_each(..)] *)
Definition push_short_ids (gap : nat) (st : Filling) : Filling :=
  let '(txs, txs_map) := foldl push_short_id (fl_transactions st, fl_map st) (take gap (fl_short_ids st)) in
  mkFilling txs (drop gap (fl_short_ids st)) txs_map.

Definition fill_gap (st : Filling) (pt : IndexTransaction) : outcome E Filling :=
  gap ← it_index pt -64 len (fl_transactions st);
  let st := if decide (0 < gap) then push_short_ids (Z.to_nat gap) st else st in
  Ok (mkFilling (fl_transactions st ++ [Some (it_transaction pt)]) (fl_short_ids st) (fl_map st)).

(** The indexes of the missing transactions. *)
Definition missing_indexes (txs : list (option Transaction)) : list nat :=
  omap (fun '(i, t) => match t with None => Some i | Some _ => None end) (imap pair txs).

Definition reconstruct_block (tx_pool : TxPool M L) (compact_block : CompactBlock) (transactions : list Transaction)
    : outcome E (list nat + Block) :=
  let keys := short_transaction_id_keys (seal_nonce (h_seal (cb_header compact_block))) (cb_nonce compact_block) in
  let st := foldl (take_wanted keys) (list_to_set (cb_short_ids compact_block), ∅) transactions in
  let st := if decide (st.1 = ∅) then search_pool keys (txs_iter (tp_proposed tx_pool)) st else st in
  filled ← try_fold fill_gap (mkFilling [] (cb_short_ids compact_block) st.2) (cb_prefilled_transactions compact_block);
  let block_transactions := fl_transactions (push_short_ids (length (fl_short_ids filled)) filled) in
  match mapM id block_transactions with
  | Some txs =>
      let header := cb_header compact_block in
      Ok (inr (BlockBuilder_build blake2b serialize_header serialize_uncles merkle_root (h_raw header) (h_seal header)
                 (cb_uncles compact_block) txs (cb_proposals compact_block)))
  | None => Ok (inl (missing_indexes block_transactions))
  end.
End reconstruct.

(** [GetBlockTransactionsProcess]: the transactions at the indexes. *)
Definition transactions_at (block : Block) (indexes : list Z) : list Transaction :=
  omap (fun i => b_transactions block !! Z.to_nat i) indexes.
End compact.

(** ** Slots

    The transactions of a block, each given or only named. *)
Abbreviation Slot := (Transaction + ShortTransactionID)%type.
Definition named (ids : list ShortTransactionID) : list Slot := inr <$> ids.

Fixpoint slot_ids (l : list Slot) : list ShortTransactionID :=
  match l with [] => [] | inl _ :: l => slot_ids l | inr id :: l => id :: slot_ids l end.
Fixpoint slot_prefilled (k : Z) (l : list Slot) : list IndexTransaction :=
  match l with
  | [] => []
  | inl tx :: l => mkIndexTx k tx :: slot_prefilled (k + 1) l
  | inr _ :: l => slot_prefilled (k + 1) l
  end.
Definition slot_value (m : gmap Bytes Transaction) (s : Slot) : option Transaction :=
  match s with inl tx => Some tx | inr id => m !! id end.

Lemma slot_ids_app l1 l2 : slot_ids (l1 ++ l2) = slot_ids l1 ++ slot_ids l2.
Proof. induction l1 as [|[tx|id] l1 IH]; cbn; [done|done|by rewrite IH]. Qed.
Lemma slot_ids_only ids : slot_ids (named ids) = ids.
Proof. induction ids as [|id ids IH]; [done|]. change (id :: slot_ids (named ids) = id :: ids). by rewrite IH. Qed.
Lemma slot_prefilled_app k l1 l2 : slot_prefilled k (l1 ++ l2) = slot_prefilled k l1 ++ slot_prefilled (k + len l1) l2.
Proof.
  revert k. induction l1 as [|[tx|id] l1 IH]; intros k; [by rewrite len_nil, Z.add_0_r|..];
    rewrite <- app_comm_cons; cbn [slot_prefilled app]; rewrite IH, len_cons; by rewrite Z.add_assoc.
Qed.
Lemma slot_prefilled_only k ids : slot_prefilled k (named ids) = [].
Proof. revert k. induction ids as [|id ids IH]; intros k; [done|]. apply IH. Qed.
Lemma slot_counts k l : len (slot_prefilled k l) + len (slot_ids l) = len l.
Proof. revert k. induction l as [|[tx|id] l IH]; intros k; cbn [slot_prefilled slot_ids]; rewrite ?len_cons; [done|..]; specialize (IH (k + 1)); lia. Qed.

(** Up to the next given transaction there are only names. *)
Lemma slot_split l : (exists ids, l = named ids) \/ exists ids tx rest, l = named ids ++ inl tx :: rest.
Proof.
  induction l as [|[tx|id] l [[ids ->]|(ids & tx' & rest & ->)]].
  - left. by exists [].
  - right. by exists [], tx, (named ids).
  - right. by exists [], tx, (named ids ++ inl tx' :: rest).
  - left. by exists (id :: ids).
  - right. by exists (id :: ids), tx', rest.
Qed.

Section filling.
Context {E : Type}.

Lemma push_ids_spec ids : forall T (m : gmap Bytes Transaction), NoDup ids ->
  exists m', foldl push_short_id (T, m) ids = (T ++ ((m !!.) <$> ids), m') /\ forall id, id ∉ ids -> m' !! id = m !! id.
Proof.
  induction ids as [|id ids IH]; intros T m Hnd; [exists m; by rewrite app_nil_r|].
  apply NoDup_cons in Hnd as [Hid Hnd].
  change (foldl push_short_id (T, m) (id :: ids)) with (foldl push_short_id (T ++ [m !! id], delete id m) ids).
  destruct (IH (T ++ [m !! id]) (delete id m) Hnd) as (m' & -> & Hm'). exists m'. split.
  - f_equal. rewrite fmap_cons, <- app_assoc. cbn. do 2 f_equal. apply list_fmap_ext. intros i x Hx.
    apply lookup_delete_ne. intros ->. by apply Hid, list_elem_of_lookup; exists i.
  - intros x Hx. rewrite Hm' by set_solver. apply lookup_delete_ne. set_solver.
Qed.

Lemma fill_gap_spec T ids rest m tx : NoDup ids -> len T + len ids < U64_SIZE ->
  exists m', fill_gap (E := E) (mkFilling T (ids ++ rest) m) (mkIndexTx (len T + len ids) tx) =
      Ok (mkFilling ((T ++ ((m !!.) <$> ids)) ++ [Some tx]) rest m') /\
    forall id, id ∉ ids -> m' !! id = m !! id.
Proof.
  intros Hnd Hlen. pose proof (len_nonneg T). pose proof (len_nonneg ids).
  unfold fill_gap. cbn [it_index it_transaction fl_transactions]. rewrite sub_w_eq, !bind_ret_l by lia. case_decide as Hg.
  - unfold push_short_ids. cbn [fl_short_ids fl_transactions fl_map].
    replace (Z.to_nat (len T + len ids - len T)) with (length ids) by (unfold len; lia).
    rewrite take_app_length, drop_app_length. destruct (push_ids_spec ids T m Hnd) as (m' & -> & Hm'). eauto.
  - assert (ids = []) as -> by (destruct ids; [done|rewrite len_cons in *; pose proof (len_nonneg ids); lia]).
    cbn. rewrite app_nil_r. eauto.
Qed.

Lemma elem_of_slot_ids i id l : l !! i = Some (inr id) -> id ∈ slot_ids l.
Proof.
  revert i. induction l as [|[t|x] l IH]; intros [|i]; cbn; try done.
  - by apply IH.
  - intros [= ->]. left.
  - intros Hx. right. by eapply IH.
Qed.

(** The loops of [reconstruct_block] fill the slots from the map. *)
Lemma fill_slots l : forall T m, NoDup (slot_ids l) -> len T + len l < U64_SIZE ->
  exists filled, try_fold (fill_gap (E := E)) (mkFilling T (slot_ids l) m) (slot_prefilled (len T) l) = Ok filled /\
    fl_transactions (push_short_ids (length (fl_short_ids filled)) filled) = T ++ (slot_value m <$> l).
Proof.
  remember (length l) as n eqn:Hn. revert l Hn. induction (lt_wf n) as [n _ IH]. intros l -> T m Hnd Hlen.
  destruct (slot_split l) as [[ids ->]|(ids & tx & rest & ->)].
  - rewrite slot_prefilled_only, slot_ids_only in *. eexists. split; [done|]. cbn [fl_short_ids fl_transactions].
    unfold push_short_ids. cbn [fl_short_ids fl_transactions fl_map]. rewrite firstn_all.
    destruct (push_ids_spec ids T m Hnd) as (m' & -> & _). cbn [fl_transactions]. unfold named. by rewrite <- list_fmap_compose.
  - rewrite slot_prefilled_app, slot_prefilled_only, slot_ids_app, slot_ids_only in *. cbn [slot_ids slot_prefilled app] in *.
    apply NoDup_app in Hnd as (Hnd1 & Hdis & Hnd2). rewrite len_app, len_cons in Hlen.
    assert (len (named ids) = len ids) as Hli by (unfold len, named; by rewrite length_fmap).
    pose proof (len_nonneg rest). rewrite Hli in *. cbn [try_fold].
    destruct (fill_gap_spec T ids (slot_ids rest) m tx Hnd1) as (m1 & -> & Hm1); [lia|]. rewrite bind_ret_l.
    set (T1 := (T ++ ((m !!.) <$> ids)) ++ [Some tx]).
    assert (len T + len ids + 1 = len T1) as HT1 by (unfold T1; rewrite !len_app; unfold len; rewrite length_fmap; cbn; lia).
    rewrite HT1. destruct (IH (length rest)) with (l := rest) (T := T1) (m := m1) as (filled & Hrun & Hres);
      [rewrite length_app; cbn; lia|done|done|lia|].
    exists filled. split; [done|]. rewrite Hres. unfold T1, named. rewrite fmap_app, fmap_cons, <- list_fmap_compose, <- !app_assoc.
    f_equal. cbn. f_equal. f_equal. apply list_fmap_ext. intros i [t|id] Hx; [done|]. cbn. apply Hm1. intros Hin.
    by apply (Hdis id Hin), (elem_of_slot_ids i).
Qed.
End filling.

(** ** What the checks ensure *)
Lemma last_cons_default {A} (x : A) l : last (x :: l) = Some (default x (last l)).
Proof. destruct l as [|y l]; [done|]. change (last (x :: y :: l)) with (last (y :: l)). by destruct (last (y :: l)) eqn:H; [|by apply last_None in H]. Qed.

Lemma ordered_last l : forall p, unordered (p :: l) = false -> it_index p + len l <= it_index (default p (last l)).
Proof.
  induction l as [|q l IH]; intros p Hu; [cbn; rewrite len_nil; lia|].
  change (bool_decide (it_index q <= it_index p) || unordered (q :: l) = false) in Hu.
  apply orb_false_iff in Hu as [Hpq%bool_decide_eq_false Hu]. specialize (IH q Hu). rewrite len_cons, last_cons_default. cbn. lia.
Qed.

Lemma ordered_slots pre : forall k ids, unordered pre = false ->
  (forall p, head pre = Some p -> k <= it_index p) ->
  (forall p, last pre = Some p -> it_index p < k + len pre + len ids) ->
  exists l, slot_ids l = ids /\ slot_prefilled k l = pre.
Proof.
  induction pre as [|[i tx] pre IH]; intros k ids Hu Hhead Hlast.
  - exists (named ids). by rewrite slot_ids_only, slot_prefilled_only.
  - specialize (Hhead _ eq_refl). cbn in Hhead. pose proof (ordered_last pre _ Hu) as Hol. cbn [it_index] in Hol.
    specialize (Hlast _ (last_cons_default _ pre)). rewrite len_cons in Hlast. pose proof (len_nonneg pre).
    set (g := Z.to_nat (i - k)). assert (g <= length ids)%nat as Hg by (unfold g, len in *; lia).
    destruct (IH (i + 1) (drop g ids)) as (l & Hids & Hpre).
    + destruct pre as [|q pre]; [done|]. by apply orb_false_iff in Hu as [_ Hu].
    + intros p Hp. destruct pre as [|q pre]; [done|]. injection Hp as <-.
      apply orb_false_iff in Hu as [Hiq%bool_decide_eq_false _]. cbn in Hiq. lia.
    + intros p Hp. rewrite Hp in Hlast. cbn in Hlast. unfold len in *. rewrite length_drop. unfold g in *. lia.
    + exists (named (take g ids) ++ inl tx :: l). rewrite slot_ids_app, slot_prefilled_app, slot_ids_only, slot_prefilled_only.
      cbn [slot_ids slot_prefilled app]. rewrite Hids, take_drop. split; [done|].
      assert (k + len (named (take g ids)) = i) as ->; [|by rewrite Hpre].
      unfold len, named. rewrite length_fmap, length_take. unfold g in *. lia.
Qed.

Lemma verified_slots cb : PrefilledVerifier_verify cb = Ok tt ->
  exists l, slot_ids l = cb_short_ids cb /\ slot_prefilled 0 l = cb_prefilled_transactions cb.
Proof.
  unfold PrefilledVerifier_verify. destruct (cb_prefilled_transactions cb) as [|p pre]; [done|].
  case_decide as H0; [done|]. destruct (unordered _) eqn:Hu; [done|]. intros H. apply ordered_slots; [done|..].
  - intros q [= <-]. lia.
  - intros q Hq. rewrite Hq in H. case_decide; [done|]. lia.
Qed.

Lemma short_ids_verified blake2b siphash cb : ShortIdsVerifier_verify blake2b siphash cb = Ok tt -> NoDup (cb_short_ids cb).
Proof.
  unfold ShortIdsVerifier_verify. case_decide as H; [done|]. intros _.
  revert H. induction (cb_short_ids cb) as [|id ids IH]; intros H; [constructor|]. cbn [length list_to_set] in H.
  destruct (decide (id ∈ ids)) as [Hin|Hin].
  - assert ({[id]} ∪ list_to_set ids = (list_to_set ids : gset Bytes)) as Heq by set_solver.
    rewrite Heq in H. pose proof (size_list_to_set_le ids). lia.
  - constructor; [done|]. apply IH. rewrite size_union, size_singleton in H by set_solver. lia.
Qed.

(** ** The transactions that are found *)
Section found.
Context (siphash : Z -> Z -> Bytes -> Z) (keys : Z * Z).
#[local] Abbreviation sid := (tx_short_id siphash keys).

(** The first transaction with the id. *)
Definition find_tx (txs : list Transaction) (id : ShortTransactionID) : option Transaction :=
  head (filter (fun tx => sid tx = id) txs).
Definition slot_found (txs : list Transaction) (s : Slot) : option Transaction :=
  match s with inl tx => Some tx | inr id => find_tx txs id end.

Lemma take_wanted_spec txs : forall S (m : gmap Bytes Transaction), (forall id, id ∈ S -> m !! id = None) ->
  forall id, (foldl (take_wanted siphash keys) (S, m) txs).2 !! id = if decide (id ∈ S) then find_tx txs id else m !! id.
Proof.
  induction txs as [|tx txs IH]; intros S m Hm id.
  - cbn. case_decide; [by apply Hm|done].
  - change (foldl (take_wanted siphash keys) (S, m) (tx :: txs)) with
      (foldl (take_wanted siphash keys) (take_wanted siphash keys (S, m) tx) txs).
    unfold take_wanted at 2, find_tx. case_decide as Hin; cbn beta zeta.
    + rewrite IH by (intros x Hx; rewrite lookup_insert_ne by set_solver; apply Hm; set_solver).
      rewrite filter_cons. destruct (decide (sid tx = id)) as [<-|Hne].
      * rewrite decide_False by set_solver. rewrite decide_True by done. by rewrite lookup_insert_eq.
      * rewrite lookup_insert_ne by done. unfold find_tx. repeat case_decide; set_solver.
    + rewrite IH by done. rewrite filter_cons. unfold find_tx. repeat case_decide; set_solver.
Qed.

Lemma search_pool_nothing entries m : search_pool siphash keys entries (∅, m) = (∅, m).
Proof. induction entries as [|e entries IH]; [done|]. cbn [search_pool]. by rewrite decide_False by set_solver. Qed.

Lemma take_wanted_map (pool : list ProposedEntry) ids txs id : id ∈ ids ->
  let st := foldl (take_wanted siphash keys) (list_to_set ids, ∅) txs in
  (if decide (st.1 = ∅) then search_pool siphash keys pool st else st).2 !! id = find_tx txs id.
Proof.
  intros Hid st. assert (st.2 !! id = find_tx txs id) as Hst.
  { unfold st. rewrite take_wanted_spec by (intros; apply lookup_empty). by rewrite decide_True by set_solver. }
  case_decide as He; [|done]. destruct st as [S m]. cbn in He. subst S. by rewrite search_pool_nothing.
Qed.
End found.

Lemma mapM_id_Some {A} (l : list (option A)) k : mapM id l = Some k <-> l = Some <$> k.
Proof.
  rewrite mapM_Some. split.
  - induction 1 as [|x y l k Hx _ IH]; [done|]. cbn in Hx. by rewrite fmap_cons, Hx, IH.
  - intros ->. induction k as [|x k IH]; constructor; done.
Qed.
Lemma mapM_id_None {A} (l : list (option A)) : mapM id l = None <-> None ∈ l.
Proof.
  induction l as [|[x|] l IH]; cbn.
  - split; [done|]. by intros ?%not_elem_of_nil.
  - rewrite elem_of_cons. destruct (mapM id l); cbn; naive_solver.
  - split; [left|done].
Qed.

Lemma elem_of_missing txs i : i ∈ missing_indexes txs <-> txs !! i = Some None.
Proof.
  unfold missing_indexes. rewrite list_elem_of_omap. split.
  - intros ([j t] & Hin & Hj). apply elem_of_lookup_imap in Hin as (j' & t' & [= <- <-] & Ht). destruct t; [done|]. by injection Hj as ->.
  - intros Hi. exists (i, None). split; [|done]. apply elem_of_lookup_imap. eauto.
Qed.

Lemma slot_ids_lookup id l : id ∈ slot_ids l -> inr id ∈ l.
Proof. induction l as [|[tx|x] l IH]; cbn; [by intros ?%not_elem_of_nil| |]; rewrite ?elem_of_cons; naive_solver. Qed.

Lemma slot_prefilled_lookup l : forall k it, it ∈ slot_prefilled k l ->
  k <= it_index it /\ l !! Z.to_nat (it_index it - k) = Some (inl (it_transaction it)).
Proof.
  induction l as [|[tx|x] l IH]; intros k it; cbn [slot_prefilled]; [by intros ?%not_elem_of_nil| |].
  - intros [->|Hin]%elem_of_cons; [cbn; by rewrite Z.sub_diag|]. apply IH in Hin as [Hk Hl]. split; [lia|].
    replace (Z.to_nat (it_index it - k)) with (S (Z.to_nat (it_index it - (k + 1)))) by lia. done.
  - intros Hin. apply IH in Hin as [Hk Hl]. split; [lia|].
    replace (Z.to_nat (it_index it - k)) with (S (Z.to_nat (it_index it - (k + 1)))) by lia. done.
Qed.

Lemma find_tx_Some siphash keys txs id tx : find_tx siphash keys txs id = Some tx -> tx ∈ txs /\ tx_short_id siphash keys tx = id.
Proof.
  unfold find_tx. intros Hh. assert (tx ∈ filter (fun tx => tx_short_id siphash keys tx = id) txs) as Hin.
  { destruct (filter _ txs); [done|]. injection Hh as ->. left. }
  apply list_elem_of_filter in Hin. tauto.
Qed.
Lemma find_tx_None siphash keys txs id : find_tx siphash keys txs id = None <-> id ∉ tx_short_id siphash keys <$> txs.
Proof.
  unfold find_tx. split.
  - intros Hh (tx & -> & Htx)%list_elem_of_fmap. apply head_None in Hh.
    by apply (filter_nil_not_elem_of _ _ tx Hh).
  - intros Hn. destruct (filter _ txs) as [|tx l] eqn:Hf; [done|].
    assert (tx ∈ filter (fun tx => tx_short_id siphash keys tx = id) txs) as Hin by (rewrite Hf; left).
    apply list_elem_of_filter in Hin as [Hid Hin]. destruct Hn. apply list_elem_of_fmap. eauto.
Qed.

Section reconstruct_spec.
Context (blake2b : Bytes -> H256) (siphash : Z -> Z -> Bytes -> Z) (serialize_header : RawHeader -> Seal -> Bytes)
  (serialize_uncles : list UncleBlock -> Bytes) (merkle_root : list H256 -> H256).
Context {M L : Type -> Type} `{LM : !LinkedHashMap Bytes M} {E : Type}.
#[local] Abbreviation reconstruct :=
  (reconstruct_block blake2b siphash serialize_header serialize_uncles merkle_root (M := M) (L := L) (E := E)).
#[local] Abbreviation keys_of cb := (short_transaction_id_keys blake2b (seal_nonce (h_seal (cb_header cb))) (cb_nonce cb)).

(** The block with the given transactions. *)
Definition rebuilt (cb : CompactBlock) (txs : list Transaction) : Block :=
  BlockBuilder_build blake2b serialize_header serialize_uncles merkle_root (h_raw (cb_header cb)) (h_seal (cb_header cb))
    (cb_uncles cb) txs (cb_proposals cb).

Lemma reconstruct_slots pool cb l txs :
  slot_ids l = cb_short_ids cb -> slot_prefilled 0 l = cb_prefilled_transactions cb ->
  NoDup (cb_short_ids cb) -> len l < U64_SIZE ->
  reconstruct pool cb txs =
  let found := slot_found siphash (keys_of cb) txs <$> l in
  Ok (match mapM id found with Some ts => inr (rebuilt cb ts) | None => inl (missing_indexes found) end).
Proof.
  intros Hids Hpre Hnd Hlen. unfold reconstruct_block. rewrite <- Hids, <- Hpre in *.
  set (st := if decide _ then _ else _).
  destruct (fill_slots (E := E) l [] st.2 Hnd) as (filled & Hrun & Hfill); [rewrite len_nil; lia|].
  rewrite len_nil in Hrun. rewrite Hrun, bind_ret_l, Hfill, app_nil_l.
  assert (slot_value st.2 <$> l = slot_found siphash (keys_of cb) txs <$> l) as ->.
  { apply list_fmap_ext. intros i [tx|id] Hi; [done|]. cbn. unfold st. apply (take_wanted_map siphash (keys_of cb)).
    by apply (elem_of_slot_ids i). }
  cbv zeta. by destruct (mapM id _).
Qed.

(** A compact block that passed its checks is put together without a panic.
    The given transactions are at their indexes and every short id is replaced
    by a transaction with this id that the peer sent; when an id is missing, the
    positions without a transaction are asked for.  What is in the pool never
    matters: it is only searched when nothing is missing. *)
Theorem reconstruct_verified pool cb txs :
  CompactBlockVerifier_verify blake2b siphash cb = Ok tt ->
  len (cb_prefilled_transactions cb) + len (cb_short_ids cb) < U64_SIZE ->
  exists r, (forall pool' : TxPool M L, reconstruct pool' cb txs = reconstruct pool cb txs) /\ reconstruct pool cb txs = Ok r /\
    match r with
    | inr b =>
        len (b_transactions b) = len (cb_prefilled_transactions cb) + len (cb_short_ids cb) /\
        (forall it, it ∈ cb_prefilled_transactions cb -> b_transactions b !! Z.to_nat (it_index it) = Some (it_transaction it)) /\
        (forall sid, sid ∈ cb_short_ids cb -> exists tx, tx ∈ b_transactions b /\ tx ∈ txs /\ tx_short_id siphash (keys_of cb) tx = sid) /\
        b = rebuilt cb (b_transactions b)
    | inl missing => missing <> [] /\ exists sid, sid ∈ cb_short_ids cb /\ sid ∉ tx_short_id siphash (keys_of cb) <$> txs
    end.
Proof.
  unfold CompactBlockVerifier_verify. intros Hv Hlen. apply bind_Ok in Hv as ([] & Hp & Hs).
  destruct (verified_slots _ Hp) as (l & Hids & Hpre). apply short_ids_verified in Hs as Hnd.
  pose proof (slot_counts 0 l) as Hc. rewrite Hids, Hpre in Hc.
  pose proof (fun p => reconstruct_slots p cb l txs Hids Hpre Hnd ltac:(lia)) as Hrec.
  eexists. split; [intros pool'; by rewrite !Hrec|]. split; [apply Hrec|].
  set (found := _ <$> l). destruct (mapM id found) as [ts|] eqn:Hm.
  - apply mapM_id_Some in Hm. unfold rebuilt. cbn [b_transactions BlockBuilder_build].
    assert (length ts = length l) as Hl by (apply (f_equal length) in Hm; unfold found in Hm; by rewrite !length_fmap in Hm).
    split_and!; [unfold len in *; lia| |..].
    + intros it Hit. rewrite <- Hpre in Hit. apply slot_prefilled_lookup in Hit as [_ Hit]. rewrite Z.sub_0_r in Hit.
      apply (f_equal (.!! Z.to_nat (it_index it))) in Hm. unfold found in Hm. rewrite !list_lookup_fmap, Hit in Hm. cbn in Hm.
      destruct (ts !! _); [by injection Hm as ->|done].
    + intros sid Hsid. rewrite <- Hids in Hsid. apply slot_ids_lookup, list_elem_of_lookup in Hsid as [i Hi].
      apply (f_equal (.!! i)) in Hm. unfold found in Hm. rewrite !list_lookup_fmap, Hi in Hm. cbn in Hm.
      destruct (ts !! i) as [tx|] eqn:Ht; [|done]. injection Hm as Hf. apply find_tx_Some in Hf as [H1 H2].
      exists tx. split; [by eapply list_elem_of_lookup_2|done].
    + done.
  - apply mapM_id_None in Hm. split.
    + apply list_elem_of_lookup in Hm as [i Hi]. intros Hnil. apply (not_elem_of_nil i). rewrite <- Hnil. by apply elem_of_missing.
    + apply list_elem_of_fmap in Hm as ([tx|sid] & Hf & Hin); [done|]. exists sid. rewrite <- Hids. split.
      * apply list_elem_of_lookup in Hin as [i Hi]. by apply (elem_of_slot_ids i).
      * by apply find_tx_None.
Qed.
End reconstruct_spec.

(** ** From a block to its announcement and back *)
Section relay.
Context (blake2b : Bytes -> H256) (siphash : Z -> Z -> Bytes -> Z) (serialize_raw : RawTransaction -> Bytes)
  (serialize_tx : RawTransaction -> list (list Bytes) -> Bytes) (serialize_header : RawHeader -> Seal -> Bytes)
  (serialize_uncles : list UncleBlock -> Bytes) (merkle_root : list H256 -> H256)
  (from_little_endian : Bytes -> option Z).
Context {M L : Type -> Type} `{LM : !LinkedHashMap Bytes M} {E : Type}.
Implicit Types (indexes : gset nat) (keys : Z * Z).

Fixpoint block_slots indexes keys (index : nat) (txs : list Transaction) : list Slot :=
  match txs with
  | [] => []
  | tx :: txs =>
      (if bool_decide (index ∈ indexes) || is_cellbase tx then inl tx else inr (tx_short_id siphash keys tx))
      :: block_slots indexes keys (S index) txs
  end.

Lemma block_slots_lookup indexes keys txs : forall i j s, block_slots indexes keys i txs !! j = Some s ->
  exists tx, txs !! j = Some tx /\ (s = inl tx \/ s = inr (tx_short_id siphash keys tx)).
Proof.
  induction txs as [|tx txs IH]; intros i j s; [done|]. destruct j as [|j]; cbn.
  - intros [= <-]. exists tx. destruct (_ || _); auto.
  - apply IH.
Qed.
Lemma length_block_slots indexes keys txs i : length (block_slots indexes keys i txs) = length txs.
Proof. revert i. induction txs as [|tx txs IH]; intros i; cbn; [done|]. by rewrite IH. Qed.

Lemma split_slots indexes keys txs i :
  split_transactions siphash indexes keys i txs =
  let l := block_slots indexes keys i txs in
  (fbs_bytes <$> slot_ids l,
   (fun it => mkFbsIndexTx (cast U32_SIZE (it_index it)) (Some (fbs_transaction (it_transaction it)))) <$> slot_prefilled (Z.of_nat i) l).
Proof.
  revert i. induction txs as [|tx txs IH]; intros i; [done|]. cbn [split_transactions block_slots]. rewrite IH.
  replace (Z.of_nat (S i)) with (Z.of_nat i + 1) by lia. by destruct (_ || _).
Qed.

Lemma length_tx_short_id keys tx : length (tx_short_id siphash keys tx) = 6%nat.
Proof. unfold tx_short_id, short_transaction_id, u64_to_le_bytes. rewrite length_take, length_le_split. done. Qed.

Lemma block_slots_ids indexes keys txs i : Forall (fun id => length id = 6%nat) (slot_ids (block_slots indexes keys i txs)).
Proof.
  apply Forall_forall. intros id Hid. apply slot_ids_lookup, list_elem_of_lookup in Hid as [j Hj].
  apply block_slots_lookup in Hj as (tx & _ & [|[= ->]]); [done|]. apply length_tx_short_id.
Qed.

Instance short_id_bytes_round_trip : RoundTrip (fun id => length id = 6%nat) fbs_bytes short_id_bytes.
Proof. intros id Hid. unfold short_id_bytes. cbn [fb_seq fbs_bytes]. by rewrite decide_True. Qed.

Instance index_tx_round_trip :
  RoundTrip (fun it => 0 <= it_index it < U32_SIZE /\ transaction_ok blake2b serialize_raw serialize_tx (it_transaction it))
    (fun it => mkFbsIndexTx (cast U32_SIZE (it_index it)) (Some (fbs_transaction (it_transaction it))))
    (index_transaction_try_from blake2b serialize_raw serialize_tx).
Proof.
  intros [i tx] [Hi Htx]. unfold index_transaction_try_from. cbn [fx_transaction fx_index it_index it_transaction fbs_cast ok_or] in *.
  trip. unfold cast. by rewrite Z.mod_small.
Qed.

(** What the receiver of the announcement reads. *)
Definition announced (b : Block) indexes (nonce : Z) : CompactBlock :=
  let keys := short_transaction_id_keys blake2b (seal_nonce (h_seal (b_header b))) nonce in
  let l := block_slots indexes keys 0 (b_transactions b) in
  mkCompact (b_header b) (b_uncles b) nonce (slot_ids l) (slot_prefilled 0 l) (b_proposals b).

Lemma announced_read b indexes nonce :
  reads_little_endian from_little_endian ->
  block_ok blake2b serialize_raw serialize_tx serialize_header serialize_uncles merkle_root b ->
  len (b_transactions b) < U32_SIZE ->
  compact_block_try_from blake2b serialize_raw serialize_tx serialize_header from_little_endian
    (fbs_compact_block blake2b siphash b indexes nonce) = Ok (announced b indexes nonce).
Proof.
  intros Hle (Hh & Hu & Ht & Hp & _) Hlen. unfold compact_block_try_from, fbs_compact_block, announced. rewrite split_slots.
  cbn [fk_header fk_nonce fk_short_ids fk_prefilled_transactions fk_uncles fk_proposals fbs_cast ok_or]. cbv zeta.
  set (l := block_slots _ _ _ _).
  assert (Forall (fun it => 0 <= it_index it < U32_SIZE /\ transaction_ok blake2b serialize_raw serialize_tx (it_transaction it))
    (slot_prefilled 0 l)) as Hpre.
  { apply Forall_forall. intros it Hit. apply slot_prefilled_lookup in Hit as [H0 Hl].
    apply lookup_lt_Some in Hl as Hlt. unfold l in Hl, Hlt. rewrite length_block_slots in Hlt.
    apply block_slots_lookup in Hl as (tx & Htx & [[= ->]|]); [|done]. split; [unfold len in *; lia|].
    rewrite Forall_lookup in Ht. by eapply Ht. }
  assert (Forall (fun id => length id = 6%nat) (slot_ids l)) as Hids by apply block_slots_ids.
  pose proof (header_round_trip blake2b serialize_header _ Hle) as Rh. pose proof (uncle_round_trip blake2b serialize_header _ Hle) as Ru.
  by trip.
Qed.

Lemma slot_prefilled_ordered l : forall k, unordered (slot_prefilled k l) = false.
Proof.
  induction l as [|[tx|id] l IH]; intros k; cbn [slot_prefilled]; [done| |apply IH].
  destruct (slot_prefilled (k + 1) l) as [|q pre] eqn:Hp; [done|].
  change (bool_decide (it_index q <= k) || unordered (q :: pre) = false). rewrite <- Hp, IH, orb_false_r.
  apply bool_decide_eq_false. assert (q ∈ slot_prefilled (k + 1) l) as Hq by (rewrite Hp; left).
  apply slot_prefilled_lookup in Hq as [Hq _]. lia.
Qed.

Lemma block_slots_sublist indexes keys txs i : slot_ids (block_slots indexes keys i txs) `sublist_of` (tx_short_id siphash keys <$> txs).
Proof.
  revert i. induction txs as [|tx txs IH]; intros i; [done|]. rewrite fmap_cons. cbn [block_slots].
  destruct (_ || _); cbn [slot_ids]; by constructor.
Qed.

Lemma announced_verified b indexes nonce cb txs :
  let keys := short_transaction_id_keys blake2b (seal_nonce (h_seal (b_header b))) nonce in
  b_transactions b = cb :: txs -> is_cellbase cb = true -> NoDup (tx_short_id siphash keys <$> b_transactions b) ->
  CompactBlockVerifier_verify blake2b siphash (announced b indexes nonce) = Ok tt.
Proof.
  intros keys Hb Hcb Hnd. set (l := block_slots indexes keys 0 (b_transactions b)).
  assert (PrefilledVerifier_verify (announced b indexes nonce) = Ok tt) as Hp.
  { unfold PrefilledVerifier_verify, announced. cbn [cb_prefilled_transactions cb_short_ids]. fold keys. fold l.
    pose proof (slot_counts 0 l) as Hc. pose proof (slot_prefilled_ordered l 0) as Ho.
    destruct (slot_prefilled 0 l) as [|p pre] eqn:Hpre.
    - unfold l in Hpre. rewrite Hb in Hpre. cbn [block_slots] in Hpre. by rewrite Hcb, orb_true_r in Hpre.
    - assert (it_index p = 0) as ->.
      { unfold l in Hpre. rewrite Hb in Hpre. cbn [block_slots] in Hpre. rewrite Hcb, orb_true_r in Hpre. by injection Hpre as <- _. }
      rewrite decide_False by lia. rewrite Ho. destruct (last (p :: pre)) as [q|] eqn:Hq; [|done].
      rewrite decide_False; [done|]. apply last_Some_elem_of in Hq. rewrite <- Hpre in Hq.
      apply slot_prefilled_lookup in Hq as [_ Hq%lookup_lt_Some]. unfold len in *. lia. }
  unfold CompactBlockVerifier_verify. rewrite Hp, bind_ret_l. unfold ShortIdsVerifier_verify, announced.
  cbn [cb_prefilled_transactions cb_short_ids cb_header cb_nonce]. fold keys. fold l.
  assert (NoDup (slot_ids l)) as Hndl by (by eapply sublist_NoDup, block_slots_sublist).
  rewrite decide_False by (rewrite size_list_to_set by done; lia).
  destruct (existsb _ _) eqn:He; [|done]. exfalso.
  apply existsb_exists in He as (it & Hit%list_elem_of_In & Hin%bool_decide_eq_true). apply elem_of_list_to_set in Hin.
  apply slot_prefilled_lookup in Hit as [_ Hit]. apply slot_ids_lookup, list_elem_of_lookup in Hin as [j Hj].
  assert (Hl : forall i s, l !! i = Some s -> exists tx, (tx_short_id siphash keys <$> b_transactions b) !! i = Some (tx_short_id siphash keys tx) /\
    (s = inl tx \/ s = inr (tx_short_id siphash keys tx))).
  { intros i s (tx & Htx & Hs)%block_slots_lookup. exists tx. by rewrite list_lookup_fmap, Htx. }
  destruct (Hl _ _ Hit) as (tx1 & H1 & Hi1). destruct (Hl _ _ Hj) as (tx2 & H2 & Hi2).
  assert (it_transaction it = tx1) as Heq by (destruct Hi1; congruence).
  assert (tx_short_id siphash keys tx2 = tx_short_id siphash keys tx1) as Hid by (destruct Hi2; congruence).
  rewrite Hid in H2. pose proof (NoDup_lookup _ _ _ _ Hnd H1 H2) as Hij. rewrite Hij in Hit. congruence.
Qed.

Lemma announced_complete b indexes nonce (pool : TxPool M L) ts :
  let keys := short_transaction_id_keys blake2b (seal_nonce (h_seal (b_header b))) nonce in
  let l := block_slots indexes keys 0 (b_transactions b) in
  roots_ok blake2b serialize_header serialize_uncles merkle_root (b_header b) (b_uncles b) (b_transactions b) (b_proposals b) ->
  NoDup (tx_short_id siphash keys <$> b_transactions b) -> len (b_transactions b) < U64_SIZE ->
  ts ⊆ b_transactions b -> (forall i id tx, l !! i = Some (inr id) -> b_transactions b !! i = Some tx -> tx ∈ ts) ->
  reconstruct_block blake2b siphash serialize_header serialize_uncles merkle_root (E := E) pool (announced b indexes nonce) ts = Ok (inr b).
Proof.
  intros keys l Hr Hnd Hlen Hsub Hall.
  rewrite (reconstruct_slots blake2b siphash serialize_header serialize_uncles merkle_root pool _ l ts);
    [|done|done|by eapply sublist_NoDup, block_slots_sublist|unfold len, l in *; by rewrite length_block_slots].
  cbn [cb_header cb_nonce announced]. fold keys. cbv zeta.
  assert (slot_found siphash keys ts <$> l = Some <$> b_transactions b) as ->.
  { apply list_eq. intros i. rewrite !list_lookup_fmap. destruct (l !! i) as [s|] eqn:Hi.
    - destruct (block_slots_lookup _ _ _ _ _ _ Hi) as (tx & Htx & Hs). rewrite Htx. cbn. f_equal.
      destruct Hs as [->| ->]; [done|]. cbn. specialize (Hall i _ tx Hi Htx).
      destruct (find_tx siphash keys ts _) as [tx'|] eqn:Hf.
      + apply find_tx_Some in Hf as [Hin Hid]. apply Hsub in Hin. f_equal.
        apply list_elem_of_lookup in Hin as [j Hj].
        assert (j = i) as ->; [|congruence]. apply (NoDup_lookup _ _ _ (tx_short_id siphash keys tx) Hnd).
        all: rewrite list_lookup_fmap; (rewrite Hj || rewrite Htx); cbn; congruence.
      + apply find_tx_None in Hf. destruct Hf. apply list_elem_of_fmap. eauto.
    - apply lookup_ge_None in Hi. unfold l in Hi. rewrite length_block_slots in Hi. by rewrite (proj2 (lookup_ge_None _ _) Hi). }
  assert (mapM id (Some <$> b_transactions b) = Some (b_transactions b)) as -> by (by apply mapM_id_Some).
  unfold rebuilt. cbn [cb_header cb_uncles cb_proposals announced]. unfold roots_ok in Hr. rewrite Hr. by destruct b.
Qed.

(** C26. A block that is announced is received.  The receiver reads the compact
    block, which passes its checks; the first attempt to put the block together
    gives the positions of the transactions that were not sent along, and with
    the answer to the request for them the receiver has the block. *)
Theorem compact_block_round_trip b indexes nonce cellbase txs (pool : TxPool M L) :
  let keys := short_transaction_id_keys blake2b (seal_nonce (h_seal (b_header b))) nonce in
  reads_little_endian from_little_endian ->
  block_ok blake2b serialize_raw serialize_tx serialize_header serialize_uncles merkle_root b ->
  b_transactions b = cellbase :: txs -> is_cellbase cellbase = true -> len (b_transactions b) < U32_SIZE ->
  NoDup (tx_short_id siphash keys <$> b_transactions b) ->
  exists cb missing,
    compact_block_try_from blake2b serialize_raw serialize_tx serialize_header from_little_endian
      (fbs_compact_block blake2b siphash b indexes nonce) = Ok cb /\
    CompactBlockVerifier_verify blake2b siphash cb = Ok tt /\
    reconstruct_block blake2b siphash serialize_header serialize_uncles merkle_root (E := E) pool cb [] =
      Ok (if decide (missing = []) then inr b else inl missing) /\
    reconstruct_block blake2b siphash serialize_header serialize_uncles merkle_root (E := E) pool cb
      (transactions_at b (Z.of_nat <$> missing)) = Ok (inr b).
Proof.
  intros keys Hle Hok Hb Hcb Hlen Hnd. set (l := block_slots indexes keys 0 (b_transactions b)).
  set (found := slot_found siphash keys [] <$> l). exists (announced b indexes nonce), (missing_indexes found).
  pose proof Hok as (_ & _ & _ & _ & Hr).
  assert (Hmiss : forall i, i ∈ missing_indexes found <-> exists id, l !! i = Some (inr id)).
  { intros i. rewrite elem_of_missing. unfold found. rewrite list_lookup_fmap. destruct (l !! i) as [[tx|id]|]; cbn; naive_solver. }
  assert (Hat : forall tx, tx ∈ transactions_at b (Z.of_nat <$> missing_indexes found) <->
    exists i, i ∈ missing_indexes found /\ b_transactions b !! i = Some tx).
  { intros tx. unfold transactions_at. rewrite list_elem_of_omap. split.
    - intros (z & (i & -> & Hi)%list_elem_of_fmap & Htx). rewrite Nat2Z.id in Htx. eauto.
    - intros (i & Hi & Htx). exists (Z.of_nat i). rewrite Nat2Z.id. split; [|done]. apply list_elem_of_fmap. eauto. }
  split_and!; [by apply announced_read|by eapply announced_verified| |].
  - case_decide as Hm.
    + apply announced_complete; [done|done|lia|by intros ? ?%not_elem_of_nil|].
      intros i id tx Hi _. fold keys l in Hi. exfalso. apply (not_elem_of_nil i). rewrite <- Hm. apply Hmiss. eauto.
    + rewrite (reconstruct_slots blake2b siphash serialize_header serialize_uncles merkle_root pool _ l []);
        [|done|done|by eapply sublist_NoDup, block_slots_sublist|unfold len, l in *; rewrite length_block_slots; lia].
      cbn [cb_header cb_nonce announced]. fold keys. cbv zeta. fold found.
      destruct (mapM id found) as [ts|] eqn:Hts; [|done]. destruct Hm. apply mapM_id_Some in Hts.
      destruct (missing_indexes found) as [|i m] eqn:Hmi; [done|]. exfalso.
      assert (i ∈ missing_indexes found) as Hi by (rewrite Hmi; left). apply elem_of_missing in Hi.
      rewrite Hts, list_lookup_fmap in Hi. by destruct (ts !! i).
  - apply announced_complete; [done|done|lia| |].
    + intros tx (i & _ & Hi)%Hat. by eapply list_elem_of_lookup_2.
    + intros i id tx Hi Htx. fold keys l in Hi. apply Hat. exists i. split; [|done]. apply Hmiss. eauto.
Qed.

(** A compact block from a peer with a short id that does not have six bytes
    panics when it is read: nothing checks the length before the bytes are
    copied. *)
Theorem short_id_length_panics fb header h short_ids id rest :
  fk_header fb = Some header -> header_try_from blake2b serialize_header from_little_endian header = Ok h ->
  fk_prefilled_transactions fb <> None -> fk_uncles fb <> None -> fk_proposals fb <> None ->
  fk_short_ids fb = Some ((fbs_bytes <$> short_ids) ++ fbs_bytes id :: rest) ->
  Forall (fun s => length s = 6%nat) short_ids -> length id <> 6%nat ->
  compact_block_try_from blake2b serialize_raw serialize_tx serialize_header from_little_endian fb = Panic.
Proof.
  intros Hh Hd Hp Hu Hpr Hs Hok Hid. unfold compact_block_try_from. rewrite Hh, Hs.
  destruct (fk_prefilled_transactions fb), (fk_uncles fb), (fk_proposals fb); try done. unfold fbs_cast, ok_or. rewrite !bind_ret_l, Hd, bind_ret_l.
  assert (try_map short_id_bytes ((fbs_bytes <$> short_ids) ++ fbs_bytes id :: rest) = Panic) as ->; [|done].
  clear Hs. induction Hok as [|s ss Hs Hok IH]; cbn.
  - unfold short_id_bytes. cbn. by rewrite decide_False.
  - rewrite IH. unfold short_id_bytes. cbn. by rewrite decide_True.
Qed.
End relay.

Module CompactExample.
Import ProtocolExample.
Definition siphash (k0 k1 : Z) (bs : Bytes) : Z := (le_combine (reverse (drop 24 bs)) + k0 + k1) `mod` U64_SIZE.
Definition announced_block : Block := build 2 [] [tx 2 [OutPoint_null] 1; tx 0 [new_cell 9 1] 3; tx 1 [new_cell 8 1; new_cell 8 2] 2] [replicate 10 1].
Definition pool : TxPool (AssocList Bytes) (AssocList Bytes) := TxPool_new TxPoolConfig_default.
Definition received : CompactBlock := announced digest siphash announced_block {[1%nat]} 7.
End CompactExample.

Section witnesses.
Import ProtocolExample CompactExample.

Lemma reconstruct_verified_witness :
  CompactBlockVerifier_verify digest siphash received = Ok tt /\
  exists r, reconstruct_block digest siphash encode_header encode_uncles root (E := unit) pool received [] = Ok r.
Proof.
  split; [by_compute|].
  destruct (reconstruct_verified digest siphash encode_header encode_uncles root (E := unit) pool received []) as (r & _ & Hr & _);
    [by_compute|by_compute|eauto].
Defined.

Lemma compact_block_round_trip_witness :
  exists cb missing,
    compact_block_try_from digest encode_raw encode_tx encode_header from_le
      (fbs_compact_block digest siphash announced_block ∅ 7) = Ok cb /\
    reconstruct_block digest siphash encode_header encode_uncles root (E := unit) pool cb
      (transactions_at announced_block (Z.of_nat <$> missing)) = Ok (inr announced_block).
Proof.
  destruct (compact_block_round_trip digest siphash encode_raw encode_tx encode_header encode_uncles root from_le (E := unit)
    announced_block ∅ 7 (tx 2 [OutPoint_null] 1) [tx 0 [new_cell 9 1] 3; tx 1 [new_cell 8 1; new_cell 8 2] 2] pool)
    as (cb & missing & H1 & _ & _ & H2); [exact from_le_reads|by_compute|done|done|by_compute|by_compute|eauto].
Defined.

Lemma short_id_length_panics_witness :
  compact_block_try_from digest encode_raw encode_tx encode_header from_le
    (mkFbsCompact (Some (fbs_header (b_header block))) 0 (Some [fbs_bytes [1; 2; 3]]) (Some []) (Some []) (Some [])) = Panic.
Proof.
  by apply (short_id_length_panics digest encode_raw encode_tx encode_header from_le _ (fbs_header (b_header block))
    (ok_value (b_header block) (header_try_from digest encode_header from_le (fbs_header (b_header block)))) [] [1; 2; 3] []); [|apply ok_value_eq; vm_compute|..].
Defined.
End witnesses.
