(* ===== verification/MessageTypes.v ===== *)
(** * The types of messages and data

    The tables of [protocol/src/protocol.fbs] and the structs of [core] hold
    integers of fixed widths and bytes.  This file states these types for the
    tables and for the data, and shows that the conversions of
    [protocol/src/convert.rs] and [builder.rs] keep them. *)
From S2P Require Import Prelude Capacity ByteStrings Transactions Blocks Fixtures Protocol Compact.

(** A computation that does not panic and whose value has the property. *)
Definition returns {E A} (P : A -> Prop) (m : outcome E A) : Prop :=
  match m with Ok a => P a | Err _ => True | Panic => False end.

Lemma returns_bind {E A B} (P : A -> Prop) (Q : B -> Prop) (m : outcome E A) (f : A -> outcome E B) :
  returns P m -> (forall a, P a -> returns Q (f a)) -> returns Q (m ≫= f).
Proof. destruct m; cbn; auto. Qed.

(** [converts T U f]: [f] takes data of type [T] to data of type [U] or to an
    error. *)
Class converts {E A B} (T : A -> Prop) (U : B -> Prop) (f : A -> outcome E B) : Prop :=
  converts_at a : T a -> returns U (f a).
#[export] Hint Mode converts - - - - - ! : typeclass_instances.

#[export] Instance converts_list {E A B} (T : A -> Prop) (U : B -> Prop) (f : A -> outcome E B) :
  converts T U f -> converts (Forall T) (Forall U) (try_map f).
Proof.
  intros Hf l Hl. induction Hl as [|a l Ha _ IH]; cbn [try_map]; [by constructor|].
  eapply returns_bind; [by apply Hf|]. intros b Hb. eapply returns_bind; [exact IH|]. intros bs Hbs. by constructor.
Qed.

Lemma cast_typed {A} (T : A -> Prop) (o : option A) : if_some T o -> returns T (fbs_cast o).
Proof. by destruct o. Qed.

Lemma option_typed {E A B} (T : A -> Prop) (U : B -> Prop) (f : A -> outcome E B) (o : option A) :
  converts T U f -> if_some T o -> returns (if_some U) (match o with Some a => b ← f a; Ok (Some b) | None => Ok None end).
Proof. intros Hf Ho. destruct o as [a|]; [|done]. eapply returns_bind; [by apply Hf|done]. Qed.

(** ** The types of the data *)
Abbreviation bytes_typed := (Forall is_byte).
Definition point_typed (o : OutPoint) : Prop :=
  if_some (fun cell => hash_ok (cop_tx_hash cell) /\ u32 (cop_index cell)) (op_cell o) /\ if_some hash_ok (op_block_hash o).
Definition input_typed (i : CellInput) : Prop := point_typed (ci_previous_output i) /\ u64 (ci_since i).
Definition script_typed (s : Script) : Prop := hash_ok (script_code_hash s) /\ Forall bytes_typed (script_args s).
Definition output_typed (o : CellOutput) : Prop :=
  u64 (co_capacity o) /\ bytes_typed (co_data o) /\ script_typed (co_lock o) /\ if_some script_typed (co_type o).
Definition id_typed (id : Bytes) : Prop := length id = 10%nat /\ bytes_typed id.
Definition raw_typed (r : RawHeader) : Prop :=
  u32 (raw_version r) /\ hash_ok (raw_parent_hash r) /\ u64 (raw_timestamp r) /\ u64 (raw_number r) /\ hash_ok (raw_transactions_root r) /\
  hash_ok (raw_proposals_hash r) /\ hash_ok (raw_witnesses_root r) /\ u256 (raw_difficulty r) /\ hash_ok (raw_uncles_hash r) /\
  u32 (raw_uncles_count r) /\ u64 (raw_epoch r).
Definition seal_typed (s : Seal) : Prop := u64 (seal_nonce s) /\ bytes_typed (seal_proof s).

(** ** The types of the tables *)
Definition seq_typed (b : FbsBytes) : Prop := if_some bytes_typed (fb_seq b).
Definition fbs_script_typed (s : FbsScript) : Prop := if_some (Forall seq_typed) (fs_args s) /\ if_some bytes_typed (fs_code_hash s).
Definition fbs_point_typed (o : FbsOutPoint) : Prop :=
  if_some bytes_typed (fo_block_hash o) /\ if_some bytes_typed (fo_tx_hash o) /\ u32 (fo_index o).
Definition fbs_input_typed (i : FbsCellInput) : Prop :=
  if_some bytes_typed (fi_block_hash i) /\ if_some bytes_typed (fi_tx_hash i) /\ u32 (fi_index i) /\ u64 (fi_since i).
Definition fbs_output_typed (o : FbsCellOutput) : Prop :=
  u64 (fc_capacity o) /\ if_some seq_typed (fc_data o) /\ if_some fbs_script_typed (fc_lock o) /\ if_some fbs_script_typed (fc_type o).
Definition fbs_witness_typed (w : FbsWitness) : Prop := if_some (Forall seq_typed) (fw_data w).
Definition fbs_transaction_typed (t : FbsTransaction) : Prop :=
  u32 (ft_version t) /\ if_some (Forall fbs_point_typed) (ft_deps t) /\ if_some (Forall fbs_input_typed) (ft_inputs t) /\
  if_some (Forall fbs_output_typed) (ft_outputs t) /\ if_some (Forall fbs_witness_typed) (ft_witnesses t).
Definition fbs_header_typed (h : FbsHeader) : Prop :=
  u32 (fh_version h) /\ if_some bytes_typed (fh_parent_hash h) /\ u64 (fh_timestamp h) /\ u64 (fh_number h) /\
  if_some bytes_typed (fh_transactions_root h) /\ if_some bytes_typed (fh_witnesses_root h) /\ if_some bytes_typed (fh_proposals_hash h) /\
  if_some seq_typed (fh_difficulty h) /\ u64 (fh_nonce h) /\ if_some seq_typed (fh_proof h) /\ if_some bytes_typed (fh_uncles_hash h) /\
  u32 (fh_uncles_count h) /\ u64 (fh_epoch h).
Definition fbs_uncle_typed (u : FbsUncleBlock) : Prop :=
  if_some fbs_header_typed (fu_header u) /\ if_some (Forall bytes_typed) (fu_proposals u).
Definition fbs_block_typed (b : FbsBlock) : Prop :=
  if_some fbs_header_typed (fbk_header b) /\ if_some (Forall fbs_uncle_typed) (fbk_uncles b) /\
  if_some (Forall fbs_transaction_typed) (fbk_transactions b) /\ if_some (Forall bytes_typed) (fbk_proposals b).
(** The ids of a compact block must have their six bytes: otherwise reading
    panics. *)
Definition fbs_short_typed (b : FbsBytes) : Prop := if_some (fun seq => length seq = 6%nat /\ bytes_typed seq) (fb_seq b).
Definition fbs_index_typed (t : FbsIndexTransaction) : Prop := u32 (fx_index t) /\ if_some fbs_transaction_typed (fx_transaction t).
Definition fbs_compact_typed (b : FbsCompactBlock) : Prop :=
  if_some fbs_header_typed (fk_header b) /\ u64 (fk_nonce b) /\ if_some (Forall fbs_short_typed) (fk_short_ids b) /\
  if_some (Forall fbs_index_typed) (fk_prefilled_transactions b) /\ if_some (Forall fbs_uncle_typed) (fk_uncles b) /\
  if_some (Forall bytes_typed) (fk_proposals b).

#[export] Instance is_byte_dec b : Decision (is_byte b).
Proof. unfold is_byte. apply _. Defined.
#[export] Instance seq_typed_dec b : Decision (seq_typed b).
Proof. unfold seq_typed, in_range. apply _. Defined.
#[export] Instance fbs_script_typed_dec s : Decision (fbs_script_typed s).
Proof. unfold fbs_script_typed, in_range. apply _. Defined.
#[export] Instance fbs_point_typed_dec o : Decision (fbs_point_typed o).
Proof. unfold fbs_point_typed, in_range. apply _. Defined.
#[export] Instance fbs_input_typed_dec i : Decision (fbs_input_typed i).
Proof. unfold fbs_input_typed, in_range. apply _. Defined.
#[export] Instance fbs_output_typed_dec o : Decision (fbs_output_typed o).
Proof. unfold fbs_output_typed, in_range. apply _. Defined.
#[export] Instance fbs_witness_typed_dec w : Decision (fbs_witness_typed w).
Proof. unfold fbs_witness_typed, in_range. apply _. Defined.
#[export] Instance fbs_transaction_typed_dec t : Decision (fbs_transaction_typed t).
Proof. unfold fbs_transaction_typed, in_range. apply _. Defined.
#[export] Instance fbs_header_typed_dec h : Decision (fbs_header_typed h).
Proof. unfold fbs_header_typed, in_range. apply _. Defined.
#[export] Instance fbs_uncle_typed_dec u : Decision (fbs_uncle_typed u).
Proof. unfold fbs_uncle_typed, in_range. apply _. Defined.
#[export] Instance fbs_block_typed_dec b : Decision (fbs_block_typed b).
Proof. unfold fbs_block_typed, in_range. apply _. Defined.

(** ** The conversions keep the types *)
#[export] Instance h256_converts : converts bytes_typed hash_ok h256_try_from.
Proof.
  intros h Hh. unfold h256_try_from, ok_or. destruct (h256_from_slice h) as [x|] eqn:Hx; [|done]. by apply (h256_as_from_slice h).
Qed.
#[export] Instance id_converts : converts bytes_typed id_typed short_id_try_from.
Proof. intros id Hid. unfold short_id_try_from. by case_decide. Qed.
#[export] Instance seq_converts : converts seq_typed bytes_typed seq_try_from.
Proof. intros b Hb. by apply cast_typed. Qed.

(** The next step of a conversion: a field that must be there, an optional one,
    or a call whose conversion is known. *)
Ltac typed_step :=
  first
    [ eapply returns_bind; [first [eapply cast_typed; eassumption | eapply option_typed; [apply _|eassumption] | eapply converts_at; eassumption]|];
      intros ? ?
    | progress cbn [returns] ].
Ltac typed := repeat typed_step.

#[export] Instance script_converts : converts fbs_script_typed script_typed script_try_from.
Proof. intros s [Ha Hc]. unfold script_try_from. typed. done. Qed.

Lemma point_typed_from block_hash tx_hash index :
  if_some bytes_typed block_hash -> if_some bytes_typed tx_hash -> u32 index -> returns point_typed (point_try_from block_hash tx_hash index).
Proof.
  intros Hb Ht Hi. unfold point_try_from.
  apply (returns_bind (if_some (fun cell => hash_ok (cop_tx_hash cell) /\ u32 (cop_index cell)))).
  - destruct tx_hash as [h|]; [|done]. eapply returns_bind; [by apply h256_converts|]. done.
  - intros cell Hcell. typed. done.
Qed.

#[export] Instance out_point_converts : converts fbs_point_typed point_typed out_point_try_from.
Proof. intros o (H1 & H2 & H3). by apply point_typed_from. Qed.
#[export] Instance cell_input_converts : converts fbs_input_typed input_typed cell_input_try_from.
Proof. intros i (H1 & H2 & H3 & H4). eapply returns_bind; [by apply point_typed_from|]. done. Qed.

Lemma seq_of_typed (o : option FbsBytes) : if_some seq_typed o -> if_some bytes_typed (o ≫= fb_seq).
Proof. by destruct o. Qed.

#[export] Instance cell_output_converts : converts fbs_output_typed output_typed cell_output_try_from.
Proof. intros o (H1 & H2%seq_of_typed & H3 & H4). unfold cell_output_try_from. typed. done. Qed.
#[export] Instance witness_converts : converts fbs_witness_typed (Forall bytes_typed) witness_try_from.
Proof. intros w Hw. unfold witness_try_from. typed. by apply (converts_at (T := Forall seq_typed)). Qed.

Section types.
Context (blake2b : Bytes -> H256) (serialize_raw : RawTransaction -> Bytes)
  (serialize_tx : RawTransaction -> list (list Bytes) -> Bytes) (serialize_header : RawHeader -> Seal -> Bytes)
  (serialize_uncles : list UncleBlock -> Bytes) (merkle_root : list H256 -> H256)
  (from_little_endian : Bytes -> option Z).
(** Digests, roots and numbers have 256 bits. *)
Context (Hdigest : forall bs, u256 (blake2b bs)) (Hroot : forall l, u256 (merkle_root l))
  (Hnumber : forall bs x, from_little_endian bs = Some x -> u256 x).

Definition transaction_typed (tx : Transaction) : Prop :=
  u32 (tx_version tx) /\ Forall point_typed (tx_deps tx) /\ Forall input_typed (tx_inputs tx) /\ Forall output_typed (tx_outputs tx) /\
  Forall (Forall bytes_typed) (tx_witnesses tx) /\ hash_ok (tx_hash tx) /\ hash_ok (tx_witness_hash tx) /\
  tx = Transaction_new blake2b serialize_raw serialize_tx (tx_version tx) (tx_deps tx) (tx_inputs tx) (tx_outputs tx) (tx_witnesses tx).
Definition header_typed (h : Header) : Prop :=
  raw_typed (h_raw h) /\ seal_typed (h_seal h) /\ hash_ok (h_hash h) /\ h = Header_new blake2b serialize_header (h_raw h) (h_seal h).
Definition uncle_typed (u : UncleBlock) : Prop := header_typed (uncle_header u) /\ Forall id_typed (uncle_proposals u).
Definition block_typed (b : Block) : Prop :=
  header_typed (b_header b) /\ Forall uncle_typed (b_uncles b) /\ Forall transaction_typed (b_transactions b) /\
  Forall id_typed (b_proposals b) /\
  roots_ok blake2b serialize_header serialize_uncles merkle_root (b_header b) (b_uncles b) (b_transactions b) (b_proposals b).
Definition index_typed (t : IndexTransaction) : Prop := u32 (it_index t) /\ transaction_typed (it_transaction t).
Definition short_typed (id : ShortTransactionID) : Prop := length id = 6%nat /\ bytes_typed id.
Definition compact_typed (b : CompactBlock) : Prop :=
  header_typed (cb_header b) /\ Forall uncle_typed (cb_uncles b) /\ u64 (cb_nonce b) /\ Forall short_typed (cb_short_ids b) /\
  Forall index_typed (cb_prefilled_transactions b) /\ Forall id_typed (cb_proposals b).

#[export] Instance transaction_converts :
  converts fbs_transaction_typed transaction_typed (transaction_try_from blake2b serialize_raw serialize_tx).
Proof.
  intros t (H1 & H2 & H3 & H4 & H5). unfold transaction_try_from. typed. unfold transaction_typed, Transaction_new. cbn.
  split_and!; try done; apply Hdigest.
Qed.

Lemma number_typed o : returns u256 (ok_or (from_little_endian o) InvalidSlice).
Proof. destruct (from_little_endian o) as [x|] eqn:Hx; [|done]. by apply (Hnumber o). Qed.

#[export] Instance header_converts :
  converts fbs_header_typed header_typed (header_try_from blake2b serialize_header from_little_endian).
Proof.
  intros h (H1 & H2 & H3 & H4 & H5 & H6 & H7 & H8%seq_of_typed & H9 & H10%seq_of_typed & H11 & H12 & H13). unfold header_try_from. typed.
  eapply returns_bind; [apply number_typed|]. intros difficulty Hd. typed. unfold header_typed, raw_typed, seal_typed, Header_new. cbn.
  split_and!; try done. apply Hdigest.
Qed.

#[export] Instance uncle_converts : converts fbs_uncle_typed uncle_typed (uncle_try_from blake2b serialize_header from_little_endian).
Proof. intros u [H1 H2]. unfold uncle_try_from. typed. done. Qed.

Lemma build_typed header uncles transactions proposals :
  header_typed header -> Forall uncle_typed uncles -> Forall transaction_typed transactions -> Forall id_typed proposals ->
  block_typed (BlockBuilder_build blake2b serialize_header serialize_uncles merkle_root (h_raw header) (h_seal header) uncles transactions proposals).
Proof.
  intros ((?&?&?&?&?&?&?&?&?&?&?) & ? & _) Hu Ht Hp. unfold block_typed, BlockBuilder_build, header_typed, raw_typed, roots_ok, Header_new. cbn.
  split_and!; try done; try apply Hdigest; try apply Hroot.
  - unfold cal_proposals_hash. destruct proposals; [done|apply Hdigest].
  - unfold uncles_hash. destruct uncles; [done|apply Hdigest].
  - unfold cast. apply Z.mod_pos_bound. done.
Qed.

#[export] Instance block_converts : converts fbs_block_typed block_typed
  (block_try_from blake2b serialize_raw serialize_tx serialize_header serialize_uncles merkle_root from_little_endian).
Proof. intros b (H1 & H2 & H3 & H4). unfold block_try_from. typed. by apply build_typed. Qed.

#[export] Instance index_converts : converts fbs_index_typed index_typed (index_transaction_try_from blake2b serialize_raw serialize_tx).
Proof. intros t [H1 H2]. unfold index_transaction_try_from. typed. done. Qed.
#[export] Instance short_converts : converts fbs_short_typed short_typed short_id_bytes.
Proof. intros b Hb. unfold short_id_bytes, fbs_short_typed in *. destruct (fb_seq b) as [seq|]; [|done]. cbn in Hb. by rewrite decide_True by apply Hb. Qed.
#[export] Instance compact_converts : converts fbs_compact_typed compact_typed
  (compact_block_try_from blake2b serialize_raw serialize_tx serialize_header from_little_endian).
Proof. intros b (H1 & H2 & H3 & H4 & H5 & H6). unfold compact_block_try_from. typed. done. Qed.

(** C19. What is read from the network has its type.  Reading a block, a list of
    headers, a transaction or a compact block never panics, if the ids of the
    compact block have their six bytes; and what is read has integers within
    their widths, ids of ten bytes, and the digests and the roots that belong
    to it, whatever the message held. *)
Theorem received_data_typed :
  (forall m, fbs_block_typed m ->
     returns block_typed (block_try_from blake2b serialize_raw serialize_tx serialize_header serialize_uncles merkle_root from_little_endian m)) /\
  (forall m, Forall fbs_header_typed m -> returns (Forall header_typed) (try_map (header_try_from blake2b serialize_header from_little_endian) m)) /\
  (forall m, if_some fbs_transaction_typed (fr_transaction m) -> u64 (fr_cycles m) ->
     returns (fun r => transaction_typed r.1 /\ u64 r.2) (relay_transaction_try_from blake2b serialize_raw serialize_tx m)) /\
  (forall m, fbs_compact_typed m ->
     returns compact_typed (compact_block_try_from blake2b serialize_raw serialize_tx serialize_header from_little_endian m)).
Proof.
  split_and!; intros m Hm; [by apply block_converts|by apply (converts_at (T := Forall fbs_header_typed))| |by apply compact_converts].
  intros Hc. unfold relay_transaction_try_from. typed. done.
Qed.
End types.

(** ** A witness *)
Section witnesses.
Import ProtocolExample.
Definition digest256 (bs : Bytes) : H256 := digest bs mod U256_SIZE.
Definition root256 (l : list H256) : H256 := root l mod U256_SIZE.
Definition from_le256 (bs : Bytes) : option Z := (fun x => x mod U256_SIZE) <$> from_le bs.

Lemma received_data_typed_witness : exists b,
  block_try_from digest256 encode_raw encode_tx encode_header encode_uncles root256 from_le256 (fbs_block block) = Ok b /\
  length (b_transactions b) = 2%nat /\ block_typed digest256 encode_raw encode_tx encode_header encode_uncles root256 b.
Proof.
  assert (forall x, u256 (x mod U256_SIZE)) as Hmod by (intros x; by apply Z.mod_pos_bound).
  destruct (received_data_typed digest256 encode_raw encode_tx encode_header encode_uncles root256 from_le256) as [H _].
  - intros bs. apply Hmod.
  - intros l. apply Hmod.
  - intros bs x. unfold from_le256. destruct (from_le bs) as [y|]; [|discriminate]. intros [= <-]. apply Hmod.
  - specialize (H (fbs_block block) ltac:(by_compute)).
    assert (ok_value 0%nat (b ← block_try_from digest256 encode_raw encode_tx encode_header encode_uncles root256 from_le256 (fbs_block block);
      Ok (length (b_transactions b))) = 2%nat) as Hl by by_compute.
    destruct (block_try_from _ _ _ _ _ _ _ (fbs_block block)) as [b| |]; [|discriminate Hl|destruct H]. exists b. done.
Defined.
End witnesses.
