(* ===== verification/OrphanPool.v ===== *)
(** * Blocks that wait for their parent

    [OrphanBlockPool] of [sync/src/synchronizer/block_pool.rs]: blocks by the
    hash of their parent, and the removal of all descendants of a block. *)
From S2P Require Import Prelude Transactions Blocks Fixtures.

(** A set of blocks is a list; blocks are equal when their hashes are. *)
Abbreviation OrphanBlockPool := (gmap Z (list Block)) (only parsing).

Definition block_set_insert (block : Block) (blocks : list Block) : list Block :=
  if existsb (fun b => bool_decide (b_hash b = b_hash block)) blocks then blocks else blocks ++ [block].

Definition orphan_insert (block : Block) (self : OrphanBlockPool) : OrphanBlockPool :=
  <[b_parent block := block_set_insert block (default [] (self !! b_parent block))]> self.

Definition orphan_contains (self : OrphanBlockPool) (block : Block) : bool := bool_decide (is_Some (self !! b_parent block)).

Section remove.
(** The order in which a hash set is walked. *)
Context {E : Type} (set_order : list Block -> list Block).

Fixpoint orphan_loop (fuel : nat) (guard : OrphanBlockPool) (queue : list H256) (removed : list Block)
    : outcome E (list Block * OrphanBlockPool) :=
  match queue with
  | [] => Ok (removed, guard)
  | parent_hash :: queue =>
      match fuel with
      | O => Panic
      | S fuel =>
          match guard !! parent_hash with
          | Some orphaned =>
              orphan_loop fuel (delete parent_hash guard) (queue ++ (b_hash <$> set_order orphaned)) (removed ++ set_order orphaned)
          | None => orphan_loop fuel guard queue removed
          end
      end
  end.

Definition orphan_count (self : OrphanBlockPool) : nat := map_fold (fun _ l n => (length l + n)%nat) 0%nat self.

(** The fuel: every hash of the queue but the first is that of a removed block. *)
Definition remove_blocks_by_parent (hash : H256) (self : OrphanBlockPool) : outcome E (list Block * OrphanBlockPool) :=
  orphan_loop (S (orphan_count self)) self [hash] [].
End remove.

(** ** What is removed *)
Definition orphans_ok (self : OrphanBlockPool) : Prop := forall parent l b, self !! parent = Some l -> b ∈ l -> b_parent b = parent.
Definition in_orphans (self : OrphanBlockPool) (b : Block) : Prop := exists l, self !! b_parent b = Some l /\ b ∈ l.

(** The descendants of a block among the orphans. *)
Inductive descends (self : OrphanBlockPool) (hash : H256) : Block -> Prop :=
| descends_child b : in_orphans self b -> b_parent b = hash -> descends self hash b
| descends_step b' b : descends self hash b' -> in_orphans self b -> b_parent b = b_hash b' -> descends self hash b.

(** Parents come first. *)
Definition topological (hash : H256) (l : list Block) : Prop :=
  forall i b, l !! i = Some b -> b_parent b = hash \/ exists j b', (j < i)%nat /\ l !! j = Some b' /\ b_hash b' = b_parent b.

Lemma orphan_insert_ok block self : orphans_ok self -> orphans_ok (orphan_insert block self).
Proof.
  intros Hok parent l b. unfold orphan_insert. rewrite lookup_insert_Some. intros [[<- <-]|[_ Hl]]; [|by eapply Hok].
  assert (forall b', b' ∈ default [] (self !! b_parent block) -> b_parent b' = b_parent block) as Hd.
  { destruct (self !! b_parent block) eqn:Hl; cbn; [intros b0 Hb0; by eapply Hok|by intros ? ?%not_elem_of_nil]. }
  unfold block_set_insert. destruct (existsb _ _); [apply Hd|]. rewrite elem_of_app, list_elem_of_singleton. intros [?| ->]; auto.
Qed.

Lemma orphan_count_delete (m : OrphanBlockPool) k l :
  m !! k = Some l -> orphan_count m = (length l + orphan_count (delete k m))%nat.
Proof.
  intros Hk. unfold orphan_count. rewrite <- (insert_delete_id m k l Hk) at 1.
  rewrite map_fold_insert_L; [done|intros; lia|apply lookup_delete_eq].
Qed.

Lemma topological_snoc hash l l' :
  topological hash l -> (forall b, b ∈ l' -> b_parent b = hash \/ exists b', b' ∈ l /\ b_hash b' = b_parent b) ->
  topological hash (l ++ l').
Proof.
  intros Hl Hl' i b Hi. destruct (decide (i < length l)%nat) as [Hlt|Hge].
  - rewrite lookup_app_l in Hi by done. destruct (Hl i b Hi) as [|(j & b' & Hj & Hb & ?)]; [by left|].
    right. exists j, b'. split; [done|]. by rewrite lookup_app_l by lia.
  - rewrite lookup_app_r in Hi by lia. apply list_elem_of_lookup_2 in Hi.
    destruct (Hl' b Hi) as [|(b' & [j Hj]%list_elem_of_lookup & ?)]; [by left|]. pose proof (lookup_lt_Some _ _ _ Hj).
    right. exists j, b'. split; [lia|]. by rewrite lookup_app_l.
Qed.

Section removal.
Context {E : Type} (set_order : list Block -> list Block) (Horder : forall l, set_order l ≡ₚ l).
Context (self : OrphanBlockPool) (hash : H256) (Hok : orphans_ok self).

(** What the loop maintains. *)
Record removing (guard : OrphanBlockPool) (queue : list H256) (removed : list Block) : Prop := {
  rm_guard : forall k, guard !! k = self !! k \/ (guard !! k = None /\ (k = hash \/ k ∈ b_hash <$> removed) /\
    forall l b, self !! k = Some l -> b ∈ l -> b ∈ removed);
  rm_queue : forall k, k ∈ queue -> k = hash \/ k ∈ b_hash <$> removed;
  rm_start : hash ∈ queue \/ guard !! hash = None;
  rm_removed : forall b, b ∈ removed -> descends self hash b /\ (b_hash b ∈ queue \/ guard !! b_hash b = None);
  rm_order : topological hash removed
}.

Lemma removing_skip guard k queue removed :
  removing guard (k :: queue) removed -> guard !! k = None -> removing guard queue removed.
Proof.
  intros [H1 H2 H3 H4 H5] Hk. split; [done| | | |done].
  - intros k' Hk'. apply H2. by right.
  - destruct H3 as [[<-|]%elem_of_cons|]; auto.
  - intros b Hb. destruct (H4 b Hb) as [Hd [[<-|]%elem_of_cons|]]; auto.
Qed.

Lemma removing_take guard k queue removed l :
  removing guard (k :: queue) removed -> guard !! k = Some l ->
  removing (delete k guard) (queue ++ (b_hash <$> set_order l)) (removed ++ set_order l).
Proof.
  intros [H1 H2 H3 H4 H5] Hk. assert (self !! k = Some l) as Hs by (destruct (H1 k) as [|[? _]]; congruence).
  assert (Hin : forall b, b ∈ set_order l <-> b ∈ l) by (intros b; by rewrite Horder).
  assert (Hreach : k = hash \/ k ∈ b_hash <$> removed) by (apply H2; left).
  assert (Hdel : forall h, guard !! h = None -> delete k guard !! h = None) by (intros h; rewrite lookup_delete_None; auto).
  split.
  - intros k'. destruct (decide (k = k')) as [<-|Hne].
    + right. rewrite lookup_delete_eq, fmap_app. setoid_rewrite elem_of_app. split_and!; [done|tauto|].
      intros l' b Hl' Hb. right. apply Hin. congruence.
    + rewrite lookup_delete_ne by done. destruct (H1 k') as [|(? & ? & Hall)]; [by left|]. right. rewrite fmap_app.
      setoid_rewrite elem_of_app. split_and!; [done|tauto|]. intros l' b Hl' Hb. left. by eapply Hall.
  - intros k'. rewrite fmap_app, !elem_of_app. intros [Hk'|]; [|tauto]. destruct (H2 k'); [by right|tauto..].
  - rewrite elem_of_app. destruct H3 as [[->|]%elem_of_cons|]; [|tauto|auto]. right. apply lookup_delete_eq.
  - intros b. rewrite !elem_of_app. intros [Hb|Hb].
    + destruct (H4 b Hb) as [Hd [[Hbk|]%elem_of_cons|]]; split; auto. right. rewrite Hbk. apply lookup_delete_eq.
    + split; [|left; right; apply list_elem_of_fmap; eauto]. apply Hin in Hb. pose proof (Hok _ _ _ Hs Hb) as Hp.
      assert (in_orphans self b) as Hio by (exists l; by rewrite Hp).
      destruct Hreach as [->|(b' & -> & Hb')%list_elem_of_fmap]; [by constructor|].
      eapply descends_step; [apply (H4 b' Hb')|done|done].
  - apply topological_snoc; [done|]. intros b Hb%Hin. rewrite (Hok _ _ _ Hs Hb).
    destruct Hreach as [->|(b' & -> & Hb')%list_elem_of_fmap]; [by left|right; eauto].
Qed.

Lemma orphan_loop_Ok fuel guard queue removed :
  removing guard queue removed -> (length queue + orphan_count guard <= fuel)%nat ->
  exists removed' guard', orphan_loop (E := E) set_order fuel guard queue removed = Ok (removed', guard') /\
    removing guard' [] removed'.
Proof.
  revert guard queue removed. induction fuel as [|fuel IH]; intros guard [|k queue] removed Hr Hf; cbn in Hf |- *; [eauto|lia|eauto|].
  destruct (guard !! k) as [l|] eqn:Hk; [|apply IH; [by eapply removing_skip|lia]].
  apply IH; [by apply removing_take|]. rewrite (orphan_count_delete _ _ _ Hk) in Hf.
  rewrite length_app, length_fmap, Horder. lia.
Qed.
End removal.

(** Taking the descendants of a block out of the pool ends and gives all of
    them and nothing else, every block behind its parent; what stays in the pool
    is what was there under other parents, and none of it descends from the
    block. *)
Theorem remove_blocks_by_parent_spec {E} set_order self hash :
  (forall l, set_order l ≡ₚ l) -> orphans_ok self ->
  exists removed self', remove_blocks_by_parent (E := E) set_order hash self = Ok (removed, self') /\
    (forall b, b ∈ removed <-> descends self hash b) /\ topological hash removed /\
    (forall k, self' !! k = if decide (k = hash \/ k ∈ b_hash <$> removed) then None else self !! k) /\
    (forall b, ~ descends self' hash b).
Proof.
  intros Horder Hok.
  assert (removing self hash self [hash] []) as H0.
  { split; [by left| |left; left|by intros ? ?%not_elem_of_nil|done].
    intros k ->%list_elem_of_singleton. by left. }
  destruct (orphan_loop_Ok (E := E) set_order Horder self hash Hok (S (orphan_count self)) _ _ _ H0) as (removed & self' & Hrun & [H1 _ H3 H4 H5]);
    [cbn; lia|].
  assert (Hgone : forall k, k = hash \/ k ∈ b_hash <$> removed -> self' !! k = None).
  { intros k [->|(b & -> & Hb)%list_elem_of_fmap]; [destruct H3 as [?%not_elem_of_nil|]; done|].
    by destruct (H4 b Hb) as [_ [?%not_elem_of_nil|]]. }
  assert (Hall : forall b, in_orphans self b -> b_parent b = hash \/ b_parent b ∈ b_hash <$> removed -> b ∈ removed).
  { intros b (l & Hl & Hb) Hreach. apply Hgone in Hreach. destruct (H1 (b_parent b)) as [|(_ & _ & Hall)]; [congruence|eauto]. }
  exists removed, self'. split_and!; [exact Hrun| |done| |].
  - intros b. split; [intros Hb; apply (H4 b Hb)|]. induction 1 as [b Hin Hp|b' b Hd Hb' Hin Hp]; apply Hall; auto.
    right. rewrite Hp. apply list_elem_of_fmap. eauto.
  - intros k. case_decide as Hk; [by apply Hgone|]. destruct (H1 k) as [|(_ & Hk' & _)]; [done|]. by destruct Hk.
  - intros b Hd. assert (exists b0, in_orphans self' b0 /\ b_parent b0 = hash) as (b0 & (l & Hl & _) & Hp) by (induction Hd; eauto).
    rewrite Hp, Hgone in Hl by auto. done.
Qed.
