(* ===== verification/ChainPool.v ===== *)
(** * The chain state and its pool

    The operations of [shared/src/chain_state.rs] on the transaction pool: the
    admission of a transaction, the promotion of a proposed one with its
    orphans, the update after the main chain changed, and what a block template
    takes from the pool. *)
From S2P Require Import Prelude Capacity ByteStrings Transactions Blocks CellSet Cells Epochs ChainStore VerifyErrors ProposalTable Dao MedianTime TxVerify LinkedMap ProposedPool TxPool.

(** The fields of [ChainState] but the pool, which its methods borrow. *)
Record ChainState := mkChainState {
  ch_store : StoreData;
  ch_tip : TipState;
  ch_proposal_ids : TxProposalTable;
  ch_consensus : Consensus;
  ch_current_epoch_ext : EpochExt
}.

Definition tip_header (self : ChainState) : Header := ts_tip_header (ch_tip self).
Definition tip_number (self : ChainState) : Z := h_number (tip_header self).
Definition tip_hash (self : ChainState) : H256 := h_hash (tip_header self).
Definition chain_total_difficulty (self : ChainState) : Z := ts_total_difficulty (ch_tip self).
Definition contains_proposal_id (self : ChainState) (id : Bytes) : bool := table_contains (ch_proposal_ids self) id.
Definition contains_gap (self : ChainState) (id : Bytes) : bool := table_contains_gap (ch_proposal_ids self) id.

Definition tx_verify_block_number {E} (self : ChainState) : outcome E Z := tip_number self +64 1.

Definition chain_cell (self : ChainState) : CellProvider :=
  ChainState_cell (get_cell_meta (ch_store self)) (ts_cell_set (ch_tip self)).
Definition chain_header (self : ChainState) : HeaderProvider :=
  ChainState_header (get_block_header (ch_store self)) (get_transaction_address (ch_store self)).

(** A [Result] that the caller inspects: the error becomes a value, the panic
    does not. *)
Definition catch {E E' A} (m : outcome E' A) : outcome E (E' + A) :=
  match m with
  | Ok a => Ok (inr a)
  | Err e => Ok (inl e)
  | Panic => Panic
  end.

Section pool_ops.
Context {M L W : Type -> Type} `{LM : !LinkedHashMap Bytes M} `{LL : !LruCache Bytes L} `{LW : !LinkedHashMap H256 W}.
Context (self : ChainState).
(** The verification of the scripts, and the clock. *)
Context (script_verify : ResolvedTransaction -> Z -> outcome ScriptError Z) (now : Z).
Abbreviation Pool := (TxPool M L) (only parsing).

Definition reach_tx_pool_limit {E} (tx_pool : Pool) (tx_size cycles : Z) : outcome E bool :=
  size_limit ← reach_size_limit tx_pool tx_size;
  if (size_limit : bool) then Ok true else reach_cycles_limit tx_pool cycles.

Definition resolve_tx_from_pending_and_proposed (tx_pool : Pool) (tx : Transaction)
    : outcome UnresolvableError ResolvedTransaction :=
  let proposed_provider := OverlayCellProvider (ProposedPool_cell (tp_proposed tx_pool)) (chain_cell self) in
  let gap_and_proposed_provider := OverlayCellProvider (PendingQueue_cell (tp_gap tx_pool)) proposed_provider in
  let pending_and_proposed_provider :=
    OverlayCellProvider (PendingQueue_cell (tp_pending tx_pool)) gap_and_proposed_provider in
  '(seen, rtx) ← resolve_transaction pending_and_proposed_provider (chain_header self) ∅ tx;
  Ok rtx.

Definition resolve_tx_from_proposed (tx_pool : Pool) (tx : Transaction)
    : outcome UnresolvableError ResolvedTransaction :=
  let cell_provider := OverlayCellProvider (ProposedPool_cell (tp_proposed tx_pool)) (chain_cell self) in
  '(seen, rtx) ← resolve_transaction cell_provider (chain_header self) ∅ tx;
  Ok rtx.

Definition verify_rtx (rtx : ResolvedTransaction) (cycles : option Z) : outcome PoolError Z :=
  number ← tx_verify_block_number self;
  let context := ChainState_median_context (ch_consensus self) (ch_store self) in
  let epoch := ep_number (ch_current_epoch_ext self) in
  match cycles with
  | Some cycles =>
      _ ← map_err PoolInvalidTx
            (ContextualTransactionVerifier_verify context number epoch (ch_consensus self) rtx);
      Ok cycles
  | None =>
      map_err PoolInvalidTx
        (TransactionVerifier_verify context number epoch (ch_consensus self) script_verify rtx
           (max_block_cycles (ch_consensus self)))
  end.

(** The fee of a resolved transaction, where its absence is [TxFee]. *)
Definition rtx_fee (rtx : ResolvedTransaction) : outcome PoolError Capacity :=
  map_err (fun _ => PoolTxFee) (calculate_transaction_fee (DataLoaderWrapper (ch_store self)) rtx).

(** The pool is changed on the errors too. *)
Definition proposed_tx {E} (cycles : option Z) (size : Z) (tx : Transaction) (tx_pool : Pool)
    : outcome E (Pool * (PoolError + Z)) :=
  rtx ← catch (resolve_tx_from_proposed tx_pool tx);
  match rtx with
  | inr rtx =>
      verified ← catch (verify_rtx rtx cycles);
      match verified with
      | inr cycles =>
          fee ← catch (rtx_fee rtx);
          match fee with
          | inr fee => Ok (add_proposed now cycles fee size tx tx_pool, inr cycles)
          | inl e => Ok (update_statics_for_remove_tx size cycles tx_pool, inl e)
          end
      | inl e => Ok (update_statics_for_remove_tx size (default 0 cycles) tx_pool, inl e)
      end
  | inl err =>
      let tx_pool :=
        match err with
        | UnresolvableDead _ =>
            match add_conflict tx cycles size tx_pool with
            | (Some _, tx_pool) => update_statics_for_remove_tx size (default 0 cycles) tx_pool
            | (None, tx_pool) => tx_pool
            end
        | UnresolvableUnknown out_points =>
            match add_orphan cycles size tx out_points tx_pool with
            | (Some _, tx_pool) => update_statics_for_remove_tx size (default 0 cycles) tx_pool
            | (None, tx_pool) => tx_pool
            end
        | _ => update_statics_for_remove_tx size (default 0 cycles) tx_pool
        end in
      Ok (tx_pool, inl (PoolUnresolvableTransaction err))
  end.

(** It is the id of the ancestor [tx], not that of the orphan, which is looked
    up among the proposals. *)
Definition try_proposed_orphan_by_ancestor {E} (tx : Transaction) (tx_pool : Pool) : outcome E Pool :=
  '(entries, orphan) ← remove_by_ancestor tx (tp_orphan tx_pool);
  try_fold (fun tx_pool entry =>
    if contains_proposal_id self (proposal_short_id tx) then
      '(tx_pool, ret) ← proposed_tx (de_cycles entry) (de_size entry) (de_transaction entry) tx_pool;
      Ok (match ret with
          | inl _ => update_statics_for_remove_tx (de_size entry) (default 0 (de_cycles entry)) tx_pool
          | inr _ => tx_pool
          end)
    else Ok (enqueue_tx (de_cycles entry) (de_size entry) (de_transaction entry) tx_pool).2)
    (with_defects orphan (tp_conflict tx_pool) tx_pool) entries.

Definition proposed_tx_and_descendants {E} (cycles : option Z) (size : Z) (tx : Transaction) (tx_pool : Pool)
    : outcome E (Pool * (PoolError + Z)) :=
  '(tx_pool, ret) ← proposed_tx cycles size tx tx_pool;
  match ret with
  | inr cycles =>
      tx_pool ← try_proposed_orphan_by_ancestor tx tx_pool;
      Ok (tx_pool, inr cycles)
  | inl e => Ok (tx_pool, inl e)
  end.

Definition add_tx_to_pool {E} (tx : Transaction) (cycles : Z) (tx_pool : Pool)
    : outcome E (Pool * (PoolError + Z)) :=
  let short_id := proposal_short_id tx in
  let tx_size := Transaction_serialized_size tx in
  limit ← reach_tx_pool_limit tx_pool tx_size cycles;
  if (limit : bool) then Ok (tx_pool, inl PoolLimitReached) else
  rtx ← catch (resolve_tx_from_pending_and_proposed tx_pool tx);
  match rtx with
  | inl err => Ok (tx_pool, inl (PoolUnresolvableTransaction err))
  | inr rtx =>
      verified ← catch (verify_rtx rtx (Some cycles));
      match verified with
      | inl e => Ok (tx_pool, inl e)
      | inr cycles =>
          if contains_proposal_id self short_id then
            '(tx_pool, ret) ← proposed_tx_and_descendants (Some cycles) tx_size tx tx_pool;
            match ret with
            | inl e => Ok (tx_pool, inl e)
            | inr _ =>
                tx_pool ← update_statics_for_add_tx tx_size cycles tx_pool;
                Ok (tx_pool, inr cycles)
            end
          else
            match enqueue_tx (Some cycles) tx_size tx tx_pool with
            | (true, tx_pool) =>
                tx_pool ← update_statics_for_add_tx tx_size cycles tx_pool;
                Ok (tx_pool, inr cycles)
            | (false, tx_pool) => Ok (tx_pool, inr cycles)
            end
      end
  end.

(** ** The update after a reorganisation *)
Context (cache_insert : gmap Z Z -> Z -> Z -> gmap Z Z).

(** The transactions of the blocks but the cellbases, in a set compared by the
    witness hash. *)
Definition block_txs (blocks : list Block) : W Transaction :=
  foldl (fun set blk => set_extend tx_witness_hash set (drop 1 (b_transactions blk))) lhm_empty blocks.

(** A detached transaction that the attached blocks do not have. *)
Definition retain_tx {E} (st : Pool * gmap Z Z) (tx : Transaction) : outcome E (Pool * gmap Z Z) :=
  let '(tx_pool, txs_verify_cache) := st in
  let cached_cycles := txs_verify_cache !! tx_hash tx in
  let tx_short_id := proposal_short_id tx in
  let tx_size := Transaction_serialized_size tx in
  if contains_proposal_id self tx_short_id then
    '(tx_pool, ret) ← proposed_tx_and_descendants cached_cycles tx_size tx tx_pool;
    match ret with
    | inr cycles =>
        let txs_verify_cache :=
          match cached_cycles with
          | None => cache_insert txs_verify_cache (tx_hash tx) cycles
          | Some _ => txs_verify_cache
          end in
        tx_pool ← update_statics_for_add_tx tx_size cycles tx_pool;
        Ok (tx_pool, txs_verify_cache)
    | inl _ => Ok (tx_pool, txs_verify_cache)
    end
  else
    let '(added, tx_pool) :=
      if contains_gap self tx_short_id then add_gap cached_cycles tx_size tx tx_pool
      else enqueue_tx cached_cycles tx_size tx tx_pool in
    if (added : bool) then
      tx_pool ← update_statics_for_add_tx tx_size (default 0 cached_cycles) tx_pool;
      Ok (tx_pool, txs_verify_cache)
    else Ok (tx_pool, txs_verify_cache).

(** What moves on: cycles, size and transaction of an entry. *)
Definition Moved : Type := option Z * Z * Transaction.
Definition pending_moved (e : PendingEntry) : Moved := (pn_cycles e, pn_size e, pn_transaction e).
Definition defect_moved (e : DefectEntry) : Moved := (de_cycles e, de_size e, de_transaction e).

(** The walk over the gap. *)
Definition move_gap (tx_pool : Pool) : Pool * list Moved :=
  foldl (fun (st : Pool * list Moved) '(key, entry) =>
    let '(tx_pool, entries) := st in
    if contains_proposal_id self key
    then (with_queues (tp_pending tx_pool) (lhm_remove key (tp_gap tx_pool)) tx_pool,
          entries ++ [pending_moved entry])
    else st) (tx_pool, []) (lhm_entries (tp_gap tx_pool)).

(** The walks over the pending entries and over the conflicts. *)
Definition move_pending (st : Pool * list Moved * list Moved) : Pool * list Moved * list Moved :=
  foldl (fun (st : Pool * list Moved * list Moved) '(key, entry) =>
    let '(tx_pool, entries, gaps) := st in
    let removed := with_queues (lhm_remove key (tp_pending tx_pool)) (tp_gap tx_pool) tx_pool in
    if contains_proposal_id self key then (removed, entries ++ [pending_moved entry], gaps)
    else if contains_gap self key then (removed, entries, gaps ++ [pending_moved entry])
    else st) st (lhm_entries (tp_pending st.1.1)).

Definition move_conflict (st : Pool * list Moved * list Moved) : Pool * list Moved * list Moved :=
  foldl (fun (st : Pool * list Moved * list Moved) '(key, entry) =>
    let '(tx_pool, entries, gaps) := st in
    let removed := with_defects (tp_orphan tx_pool) (lru_remove key (tp_conflict tx_pool)) tx_pool in
    if contains_proposal_id self key then (removed, entries ++ [defect_moved entry], gaps)
    else if contains_gap self key then (removed, entries, gaps ++ [defect_moved entry])
    else st) st (lru_entries (tp_conflict st.1.1)).

Definition update_tx_pool_for_reorg {E} (detached_blocks attached_blocks : list Block)
    (detached_proposal_id : list Bytes) (tx_pool : Pool) (txs_verify_cache : gmap Z Z)
    : outcome E (Pool * gmap Z Z) :=
  let detached := block_txs detached_blocks in
  let attached := block_txs attached_blocks in
  let retain := set_difference tx_witness_hash detached attached in
  tx_pool ← remove_expired detached_proposal_id tx_pool;
  tx_pool ← remove_committed_txs_from_proposed (set_iter attached) tx_pool;
  '(tx_pool, txs_verify_cache) ← try_fold retain_tx (tx_pool, txs_verify_cache) retain;
  tx_pool ← try_fold (fun tx_pool tx => try_proposed_orphan_by_ancestor tx tx_pool) tx_pool (set_iter attached);
  let '(tx_pool, entries) := move_gap tx_pool in
  let '(tx_pool, entries, gaps) := move_conflict (move_pending (tx_pool, entries, [])) in
  tx_pool ← try_fold (fun tx_pool '(cycles, size, tx) =>
    '(tx_pool, _) ← proposed_tx_and_descendants cycles size tx tx_pool; Ok tx_pool) tx_pool entries;
  Ok (foldl (fun tx_pool '(cycles, size, tx) => (add_gap cycles size tx tx_pool).2) tx_pool gaps,
      txs_verify_cache).

(** ** What a block template takes *)
(** The ids go into a set. *)
Definition get_proposals (tx_pool : Pool) (proposals_limit : Z) : gset Bytes :=
  list_to_set (take (Z.to_nat proposals_limit) (pending_keys (tp_pending tx_pool) ++ pending_keys (tp_gap tx_pool))).

(** [take_while] adds the entry to the sums before it decides. *)
Fixpoint take_proposed {E} (txs_size_limit cycles_limit : Z) (size cycles : Z) (l : list ProposedEntry)
    : outcome E (list ProposedEntry * Z * Z) :=
  match l with
  | [] => Ok ([], size, cycles)
  | tx :: l =>
      cycles ← cycles +64 pe_cycles tx;
      size ← size +64 pe_size tx;
      if bool_decide (size < txs_size_limit) && bool_decide (cycles < cycles_limit) then
        '(entries, size, cycles) ← take_proposed txs_size_limit cycles_limit size cycles l;
        Ok (tx :: entries, size, cycles)
      else Ok ([], size, cycles)
  end.

Definition get_proposed_txs {E} (tx_pool : Pool) (txs_size_limit cycles_limit : Z)
    : outcome E (list ProposedEntry * Z * Z) :=
  take_proposed txs_size_limit cycles_limit 0 0 (txs_iter (tp_proposed tx_pool)).
End pool_ops.
