(* ===== verification/ChainService.v ===== *)
(** * The chain service

    [chain/src/chain.rs]: what happens to a block that is handed to the chain.
    It is stored; when its branch has the most work the main chain is switched
    to it: the unverified blocks of the branch are resolved and verified in
    order, the indices, the cells, the proposals and the pool follow. *)
From S2P Require Import Prelude Capacity ByteStrings Transactions Blocks CellSet Cells Epochs ChainStore Fork VerifyErrors ProposalTable Dao Reward MedianTime HeaderVerify TxVerify BlockVerify LinkedMap ProposedPool TxPool ChainPool.

(** The errors of [shared/src/error.rs] that the service produces, with the
    texts of [InvalidData] as a type, and those of [process_block]. *)
Inductive SharedError :=
| SharedUnresolvableTransaction (e : UnresolvableError)
| SharedInvalidTransaction (e : VerifyError)
| SharedInvalidParentBlock
| SharedInvalidData (e : DataError)
with DataError := MismatchGenesisHash (expected found : H256) | GenesisHashNotFound | BlockExtMissing.

Inductive ChainError :=
| ChainVerify (e : VerifyError)
| ChainShared (e : SharedError)
| ChainDao (e : CapacityError).

(** ** The context of the verification of a branch *)
Record VerifyContext := mkVerifyContext {
  vc_diff : CellSetDiff;
  vc_headers : BlockHeadersProvider;
  vc_outputs : gmap Z (list CellOutput);
  vc_fork : ForkContext
}.

Definition extend_outputs (outputs : gmap Z (list CellOutput)) (b : Block) : gmap Z (list CellOutput) :=
  foldl (fun (outputs : gmap Z (list CellOutput)) tx => <[tx_hash tx := tx_outputs tx]> outputs)
    outputs (b_transactions b).

Definition context_push (b : Block) (fork : ForkContext) : ForkContext :=
  mkForkContext (fc_attached_blocks fork ++ [b]) (fc_detached_blocks fork) (fc_store fork).

Definition context_old (vc : VerifyContext) (b : Block) : VerifyContext :=
  mkVerifyContext (push_old (vc_diff vc) b) (push_detached (vc_headers vc) b) (vc_outputs vc) (vc_fork vc).

Definition context_new (vc : VerifyContext) (b : Block) : VerifyContext :=
  mkVerifyContext (push_new (vc_diff vc) b) (push_attached (vc_headers vc) b)
    (extend_outputs (vc_outputs vc) b) (context_push b (vc_fork vc)).

Definition build_verify_context {E} (self : ForkChanges) (shared : StoreData) : outcome E VerifyContext :=
  n ← verified_len self;
  let vc := mkVerifyContext empty_diff (mkBlockHeaders ∅ ∅ ∅) ∅
    (mkForkContext [] (detached_blocks self) shared) in
  let vc := foldl context_old vc (detached_blocks self) in
  Ok (foldl context_new vc (take (Z.to_nat n) (attached_blocks self))).

Section service.
Context {M L W : Type -> Type} `{LM : !LinkedHashMap Bytes M} `{LL : !LruCache Bytes L} `{LW : !LinkedHashMap H256 W}.
(** The hashes, the Merkle root and the encodings of the packages; the scripts
    and the proof of work; the order in which the hash sets are walked, the
    eviction of the cache, and the clock. *)
Context (blake2b : Bytes -> H256) (merkle_root : list H256 -> H256) (serialize_uncles : list UncleBlock -> Bytes).
Context (script_verify : ResolvedTransaction -> Z -> outcome ScriptError Z) (pow : PowEngine).
Context (diff_order : CellSetDiff -> DiffOrder) (ids_order : gset Bytes -> list Bytes).
Context (cache_insert : gmap Z Z -> Z -> Z -> gmap Z Z) (now : Z).

(** What the locks of [Shared] protect. *)
Record Shared := mkShared {
  sh_chain : ChainState;
  sh_pool : TxPool M L;
  sh_cache : gmap Z Z
}.

(** ** The verification of one block of the branch *)
Record Reconcile := mkReconcile {
  rc_context : VerifyContext;
  rc_cache : gmap Z Z;
  rc_error : option SharedError
}.

Definition block_cell_provider (chain_state : ChainState) (vc : VerifyContext) (b : Block) (indices : gmap Z nat)
    : CellProvider :=
  OverlayCellProvider (BlockCellProvider b indices)
    (ChainCellSetOverlay_cell (get_cell_meta (ch_store chain_state))
       (new_overlay (ts_cell_set (ch_tip chain_state)) (diff_order (vc_diff vc))) (vc_outputs vc)).

Definition block_header_provider (chain_state : ChainState) (headers : BlockHeadersProvider) : HeaderProvider :=
  OverlayHeaderProvider (BlockHeadersProvider_header headers) (chain_header chain_state).

Definition with_headers (headers : BlockHeadersProvider) (vc : VerifyContext) : VerifyContext :=
  mkVerifyContext (vc_diff vc) headers (vc_outputs vc) (vc_fork vc).
Definition with_block (b : Block) (vc : VerifyContext) : VerifyContext :=
  mkVerifyContext (push_new (vc_diff vc) b) (vc_headers vc) (extend_outputs (vc_outputs vc) b) (vc_fork vc).
Definition with_fork_block (b : Block) (vc : VerifyContext) : VerifyContext :=
  mkVerifyContext (vc_diff vc) (vc_headers vc) (vc_outputs vc) (context_push b (vc_fork vc)).

(** [verify_context.attached_blocks.push(b)] ends every round but the one that
    is left by [continue]. *)
Definition end_round (b : Block) (st : Reconcile) (verified : option bool) (fees : list Capacity)
    : Reconcile * (option bool * list Capacity) :=
  (mkReconcile (with_fork_block b (rc_context st)) (rc_cache st) (rc_error st), (verified, fees)).

Definition verify_attached {E} (chain_state : ChainState) (need_verify : bool) (st : Reconcile)
    (verified : option bool) (b : Block) : outcome E (Reconcile * (option bool * list Capacity)) :=
  let vc := rc_context st in
  if need_verify then
    match rc_error st with
    | Some _ => Ok (end_round b st (Some false) [])
    | None =>
        block_cp ← catch (BlockCellProvider_new b);
        match block_cp with
        | inl err => Ok (mkReconcile vc (rc_cache st) (Some (SharedUnresolvableTransaction err)), (verified, []))
        | inr indices =>
            let headers := push_attached (vc_headers vc) b in
            resolved ← catch (resolve_transactions (block_cell_provider chain_state vc b indices)
                                (block_header_provider chain_state headers) ∅ (b_transactions b));
            let vc := with_headers headers vc in
            match resolved with
            | inl err =>
                Ok (end_round b (mkReconcile vc (rc_cache st) (Some (SharedUnresolvableTransaction err)))
                      (Some false) [])
            | inr resolved =>
                let '(result, cache) :=
                  ContextualBlockVerifier_verify blake2b serialize_uncles cache_insert
                    (ch_consensus chain_state) pow (vc_fork vc) script_verify resolved b (rc_cache st) in
                result ← catch result;
                match result with
                | inr (cycles, txs_fees) =>
                    Ok (end_round b (mkReconcile (with_block b vc) cache None) (Some true) txs_fees)
                | inl err =>
                    Ok (end_round b (mkReconcile vc cache (Some (SharedInvalidTransaction err))) (Some false) [])
                end
            end
        end
    end
  else Ok (end_round b (mkReconcile (with_block b vc) (rc_cache st) (rc_error st)) (Some true) []).

(** The loop over the unverified blocks, each with its extra data. *)
Fixpoint verify_branch {E} (chain_state : ChainState) (need_verify : bool) (st : Reconcile)
    (l : list (BlockExt * Block)) : outcome E (Reconcile * list (BlockExt * H256)) :=
  match l with
  | [] => Ok (st, [])
  | (ext, b) :: l =>
      '(st, (verified, fees)) ← verify_attached chain_state need_verify st (verified ext) b;
      let ext := mkBlockExt (received_at ext) (Blocks.total_difficulty ext) (total_uncles_count ext) verified
        (dao_stats ext) fees in
      '(st, results) ← verify_branch chain_state need_verify st l;
      Ok (st, (ext, b_hash b) :: results)
  end.

(** The batch is what the store becomes when it is committed. *)
Definition reconcile_main_chain {E} (batch : StoreData) (fork : ForkChanges) (chain_state : ChainState)
    (txs_verify_cache : gmap Z Z) (need_verify : bool)
    : outcome E (gmap Z Z * (SharedError + (StoreData * CellSetDiff))) :=
  n ← verified_len fork;
  vc ← build_verify_context fork (ch_store chain_state);
  '(st, results) ← verify_branch chain_state need_verify (mkReconcile vc txs_verify_cache None)
    (zip (dirty_exts fork) (drop (Z.to_nat n) (attached_blocks fork)));
  let batch := foldl (fun batch '(ext, hash) => insert_block_ext hash ext batch) batch results in
  Ok (rc_cache st,
      match rc_error st with
      | Some err => inl err
      | None => inr (batch, vc_diff (rc_context st))
      end).

(** ** The insertion of a block *)
Definition more_work (chain_state : ChainState) (cannon_total_difficulty : Z) (block : Block) : bool :=
  bool_decide (chain_total_difficulty chain_state < cannon_total_difficulty) ||
  (bool_decide (chain_total_difficulty chain_state = cannon_total_difficulty) &&
   bool_decide (b_hash block < tip_hash chain_state)).

(** The extra data of the new block, its epoch, and whether it starts one. *)
Definition new_block_ext (chain_state : ChainState) (block : Block)
    : outcome ChainError (BlockExt * EpochExt * bool) :=
  let s := ch_store chain_state in
  parent_ext ← expect (get_block_ext s (b_parent block));
  parent_header ← expect (get_block_header s (b_parent block));
  cannon_total_difficulty ← add_w U256_SIZE (Blocks.total_difficulty parent_ext) (h_difficulty (b_header block));
  _ ← ensure (negb (bool_decide (verified parent_ext = Some false))) (ChainShared SharedInvalidParentBlock);
  parent_header_epoch ← expect (get_block_epoch s (h_hash parent_header));
  next_epoch_ext ← shared_next_epoch_ext (ch_consensus chain_state) s parent_header_epoch parent_header;
  let epoch := default parent_header_epoch next_epoch_ext in
  '(ar, c) ← map_err ChainDao (calculate_dao_data (h_number parent_header) parent_header_epoch (dao_stats parent_ext)
    (secondary_epoch_reward (ch_consensus chain_state)));
  uncles ← total_uncles_count parent_ext +64 len (b_uncles block);
  Ok (mkBlockExt now cannon_total_difficulty uncles None (mkDaoStats ar c) [], epoch,
      bool_decide (is_Some next_epoch_ext)).

(** The entries of the batch for every block. *)
Definition store_block (block : Block) (epoch : EpochExt) (s : StoreData) : StoreData :=
  insert_epoch_ext (ep_last_block_hash_in_previous_epoch epoch) epoch
    (insert_block_epoch_index (b_hash block) (ep_last_block_hash_in_previous_epoch epoch) (insert_block block s)).

(** The blocks in the last component are notified as uncles. *)
Definition switch_tip {E} (self : Shared) (block : Block) (ext : BlockExt) (epoch : EpochExt) (new_epoch need_verify : bool)
    : outcome E (Shared * (ChainError + list Block)) :=
  let chain_state := sh_chain self in
  let s := ch_store chain_state in
  fork ← find_fork s (tip_number chain_state) block ext;
  let batch := update_index blake2b (detached_blocks fork) (attached_blocks fork) (store_block block epoch s) in
  '(cache, reconciled) ← reconcile_main_chain batch fork chain_state (sh_cache self) need_verify;
  match reconciled with
  | inl err => Ok (mkShared chain_state (sh_pool self) cache, inl (ChainShared err))
  | inr (batch, cell_set_diff) =>
      let table := update_proposal_ids (ch_proposal_ids chain_state) (detached_blocks fork) (attached_blocks fork) in
      let batch := insert_tip_header (b_header block) batch in
      let epoch_changes := new_epoch || has_detached fork in
      let batch := if epoch_changes then insert_current_epoch_ext epoch batch else batch in
      '(table, detached_proposal_id) ← finalize table (b_number block);
      let current := if epoch_changes then epoch else ch_current_epoch_ext chain_state in
      tip ← update_tip (get_transaction batch) (get_block batch) (ch_tip chain_state) (b_header block)
        (Blocks.total_difficulty ext) (diff_order cell_set_diff);
      let chain_state := mkChainState batch tip table (ch_consensus chain_state) current in
      '(pool, cache) ← update_tx_pool_for_reorg (W := W) chain_state script_verify now cache_insert
        (detached_blocks fork) (attached_blocks fork) (ids_order detached_proposal_id) (sh_pool self) cache;
      Ok (mkShared chain_state pool cache, inr (detached_blocks fork))
  end.

Definition with_store (s : StoreData) (self : ChainState) : ChainState :=
  mkChainState s (ch_tip self) (ch_proposal_ids self) (ch_consensus self) (ch_current_epoch_ext self).

Definition chain_insert_block {E} (self : Shared) (block : Block) (need_verify : bool)
    : outcome E (Shared * (ChainError + list Block)) :=
  let chain_state := sh_chain self in
  checked ← catch (if need_verify
                   then BlockVerifier_verify blake2b merkle_root (ch_consensus chain_state) pow block else Ok tt);
  match checked with
  | inl e => Ok (self, inl (ChainVerify e))
  | inr _ =>
      prepared ← catch (new_block_ext chain_state block);
      match prepared with
      | inl e => Ok (self, inl e)
      | inr (ext, epoch, new_epoch) =>
          if more_work chain_state (Blocks.total_difficulty ext) block
          then switch_tip self block ext epoch new_epoch need_verify
          else
            let batch := insert_block_ext (b_hash block) ext (store_block block epoch (ch_store chain_state)) in
            Ok (mkShared (with_store batch chain_state) (sh_pool self) (sh_cache self), inr [block])
      end
  end.

Definition process_block {E} (self : Shared) (block : Block) (need_verify : bool)
    : outcome E (Shared * (ChainError + list Block)) := chain_insert_block self block need_verify.
End service.

(** ** The start of a node *)
Definition empty_store : StoreData := mkStore ∅ ∅ ∅ ∅ ∅ ∅ ∅ ∅ ∅ ∅ None None.

Definition genesis_ext {E} (genesis : Block) : outcome E BlockExt :=
  c ← match b_transactions genesis with
      | tx :: _ =>
          match try_fold (fun capacity output => safe_add capacity (co_capacity output)) 0 (drop 1 (tx_outputs tx)) with
          | Ok c => Ok c
          | _ => Panic
          end
      | [] => Ok 0
      end;
  Ok (mkBlockExt (h_timestamp (b_header genesis)) (h_difficulty (b_header genesis)) 0 (Some true)
        (mkDaoStats DEFAULT_ACCUMULATED_RATE c) []).

Definition genesis_meta (genesis : Block) (tx : Transaction) : TransactionMeta :=
  let number := b_number genesis in
  let epoch := h_epoch (b_header genesis) in
  if is_cellbase tx then TransactionMeta_new_cellbase number epoch (length (tx_outputs tx)) false
  else TransactionMeta_new number epoch (length (tx_outputs tx)) false.

(** [ChainStore::init]: the store and the column of the cell set. *)
Definition store_init {E} (blake2b : Bytes -> H256) (consensus : Consensus) (s : StoreData)
    (disk : gmap Z TransactionMeta) : outcome E (StoreData * gmap Z TransactionMeta) :=
  let genesis := genesis_block consensus in
  let epoch := genesis_epoch_ext consensus in
  ext ← genesis_ext genesis;
  let disk := foldl (fun (disk : gmap Z TransactionMeta) tx => <[tx_hash tx := genesis_meta genesis tx]> disk)
    disk (b_transactions genesis) in
  let s := insert_block_ext (b_hash genesis) ext (insert_block genesis s) in
  let s := insert_current_epoch_ext epoch (insert_tip_header (b_header genesis) s) in
  let s := insert_block_epoch_index (b_hash genesis) (ep_last_block_hash_in_previous_epoch epoch) s in
  let s := insert_epoch_ext (ep_last_block_hash_in_previous_epoch epoch) epoch s in
  Ok (attach_block blake2b genesis s, disk).

(** The tip and the epoch of a store that has them. *)
Definition stored_tip (s : StoreData) : option (Header * EpochExt) :=
  header ← get_tip_header s; epoch ← sd_current_epoch s; Some (header, epoch).

Definition ChainState_init (blake2b : Bytes -> H256) (consensus : Consensus) (s : StoreData)
    (disk : gmap Z TransactionMeta) : outcome SharedError ChainState :=
  '(s, disk, tip_header, epoch) ←
    match stored_tip s with
    | Some (tip_header, epoch) =>
        match get_block_hash s 0 with
        | Some hash =>
            if decide (hash = genesis_hash consensus) then Ok (s, disk, tip_header, epoch)
            else Err (SharedInvalidData (MismatchGenesisHash (genesis_hash consensus) hash))
        | None => Err (SharedInvalidData GenesisHashNotFound)
        end
    | None =>
        '(s, disk) ← store_init blake2b consensus s disk;
        Ok (s, disk, b_header (genesis_block consensus), genesis_epoch_ext consensus)
    end;
  proposal_ids ← init_proposal_ids s (tx_proposal_window consensus) (h_number tip_header);
  let cell_set := init_cell_set (map_to_list disk) in
  ext ← ok_or (get_block_ext s (h_hash tip_header)) (SharedInvalidData BlockExtMissing);
  Ok (mkChainState s (mkTipState tip_header (Blocks.total_difficulty ext) cell_set disk) proposal_ids consensus epoch).
