(* ===== verification/TxExecutor.v ===== *)
(** * The executor of the pool

    [shared/tx-pool-executor]: a list of transactions is resolved and verified
    and then added to the pool.  The lock on the chain is released between the
    resolution and the addition, so the three phases are functions of their
    own, each on the state of its time. *)
From S2P Require Import Prelude Capacity ByteStrings Transactions Blocks Fixtures CellSet Cells Epochs ChainStore VerifyErrors MedianTime TxVerify LinkedMap ProposedPool TxPool ChainPool ChainService.

(** What the first phase read. *)
Record Prepared := mkPrepared {
  px_txs : list Transaction;
  px_resolved : list (H256 * ResolvedTransaction);
  px_cached : list (H256 * Z);
  px_unresolvable : list (H256 * PoolError);
  px_consensus : Consensus;
  px_tip_number : Z;
  px_epoch_number : Z
}.

Section executor.
Context {M L : Type -> Type} `{LM : !LinkedHashMap Bytes M} `{LL : !LruCache Bytes L}.
Context (script_verify : ResolvedTransaction -> Z -> outcome ScriptError Z) (now : Z).
Context (cache_insert : gmap Z Z -> Z -> Z -> gmap Z Z) {E : Type}.
#[local] Abbreviation State := (@Shared M L).

(** ** Resolution *)
Definition executor_resolve_tx (self : State) (p : Prepared) (tx : Transaction) : outcome E Prepared :=
  match sh_cache self !! tx_hash tx with
  | Some cycles =>
      Ok (mkPrepared (px_txs p) (px_resolved p) (px_cached p ++ [(tx_hash tx, cycles)]) (px_unresolvable p)
            (px_consensus p) (px_tip_number p) (px_epoch_number p))
  | None =>
      resolved ← catch (resolve_tx_from_pending_and_proposed (sh_chain self) (sh_pool self) tx);
      Ok (match resolved with
          | inr resolved_tx =>
              mkPrepared (px_txs p) (px_resolved p ++ [(tx_hash tx, resolved_tx)]) (px_cached p) (px_unresolvable p)
                (px_consensus p) (px_tip_number p) (px_epoch_number p)
          | inl err =>
              mkPrepared (px_txs p) (px_resolved p) (px_cached p)
                (px_unresolvable p ++ [(tx_hash tx, PoolUnresolvableTransaction err)])
                (px_consensus p) (px_tip_number p) (px_epoch_number p)
          end)
  end.

(** A result when there is nothing left to do. *)
Definition executor_resolve (txs : list Transaction) (self : State) : outcome E ((PoolError + list Z) + Prepared) :=
  match txs with
  | [] => Ok (inl (inr []))
  | _ =>
      let chain_state := sh_chain self in
      p ← try_fold (executor_resolve_tx self)
            (mkPrepared txs [] [] [] (ch_consensus chain_state) (tip_number chain_state) (ep_number (ch_current_epoch_ext chain_state))) txs;
      match px_resolved p, px_cached p with
      | [], [] => '(_, err) ← expect (head (px_unresolvable p)); Ok (inl (inl err))
      | _, _ => Ok (inr p)
      end
  end.

(** ** Verification: without a lock *)
Definition executor_verify_tx (store : StoreData) (p : Prepared) (tx : H256 * ResolvedTransaction)
    : outcome E (H256 * (PoolError + ResolvedTransaction * Z)) :=
  let context := ChainState_median_context (px_consensus p) store in
  verified ← catch (map_err PoolInvalidTx
    (TransactionVerifier_verify context (px_tip_number p) (px_epoch_number p) (px_consensus p) script_verify tx.2
       (max_block_cycles (px_consensus p))));
  Ok (tx.1, match verified with inr cycles => inr (tx.2, cycles) | inl e => inl e end).

Definition executor_verify (store : StoreData) (p : Prepared) : outcome E (list (H256 * (PoolError + ResolvedTransaction * Z))) :=
  try_map (executor_verify_tx store p) (px_resolved p).

(** ** Addition *)
Definition write_cache (cache : gmap Z Z) (r : H256 * (PoolError + ResolvedTransaction * Z)) : gmap Z Z :=
  match r.2 with
  | inr (rtx, cycles) => cache_insert cache (tx_hash (rtx_transaction rtx)) cycles
  | inl _ => cache
  end.

(** The results in the order of the transactions; a result is taken once. *)
Fixpoint join_results (results : gmap Z (PoolError + Z)) (txs : list Transaction) : outcome E (list (PoolError + Z * Transaction)) :=
  match txs with
  | [] => Ok []
  | tx :: txs =>
      result ← expect (results !! tx_hash tx);
      rest ← join_results (delete (tx_hash tx) results) txs;
      Ok (match result with inr cycles => inr (cycles, tx) | inl e => inl e end :: rest)
  end.

Definition collect_results (p : Prepared) (verified : list (H256 * (PoolError + ResolvedTransaction * Z))) : gmap Z (PoolError + Z) :=
  foldl (fun m '(hash, r) => <[hash := r]> m) ∅
    (((fun '(hash, r) => (hash, match r with inr (_, cycles) => inr cycles | inl e => inl e end)) <$> verified) ++
     ((fun '(hash, cycles) => (hash, inr cycles)) <$> px_cached p) ++
     ((fun '(hash, err) => (hash, inl err)) <$> px_unresolvable p)).

(** [collect] into a [Result] stops at the first error. *)
Fixpoint add_results (self : ChainState) (results : list (PoolError + Z * Transaction)) (tx_pool : TxPool M L)
    : outcome E (TxPool M L * (PoolError + list Z)) :=
  match results with
  | [] => Ok (tx_pool, inr [])
  | inl err :: _ => Ok (tx_pool, inl err)
  | inr (cycles, tx) :: results =>
      '(tx_pool, added) ← add_tx_to_pool self script_verify now tx cycles tx_pool;
      match added with
      | inl err => Ok (tx_pool, inl err)
      | inr cycles =>
          '(tx_pool, rest) ← add_results self results tx_pool;
          Ok (tx_pool, match rest with inr l => inr (cycles :: l) | inl err => inl err end)
      end
  end.

Definition executor_add (p : Prepared) (verified : list (H256 * (PoolError + ResolvedTransaction * Z))) (self : State)
    : outcome E (State * (PoolError + list Z)) :=
  let cache := foldl write_cache (sh_cache self) verified in
  results ← join_results (collect_results p verified) (px_txs p);
  '(tx_pool, r) ← add_results (sh_chain self) results (sh_pool self);
  Ok (mkShared (sh_chain self) tx_pool cache, r).

(** The three phases with nothing in between. *)
Definition verify_and_add_txs_to_pool (txs : list Transaction) (self : State) : outcome E (State * (PoolError + list Z)) :=
  resolved ← executor_resolve txs self;
  match resolved with
  | inl r => Ok (self, r)
  | inr p =>
      verified ← executor_verify (ch_store (sh_chain self)) p;
      executor_add p verified self
  end.

Definition verify_and_add_tx_to_pool (tx : Transaction) (self : State) : outcome E (State * (PoolError + Z)) :=
  '(self, r) ← verify_and_add_txs_to_pool [tx] self;
  match r with
  | inr cycles_vec => cycles ← expect (head cycles_vec); Ok (self, inr cycles)
  | inl err => Ok (self, inl err)
  end.

(** ** One transaction at a time *)
Definition judge_tx (self : State) (store : StoreData) (tx : Transaction) : outcome E (PoolError + Z) :=
  let chain_state := sh_chain self in
  match sh_cache self !! tx_hash tx with
  | Some cycles => Ok (inr cycles)
  | None =>
      resolved ← catch (resolve_tx_from_pending_and_proposed chain_state (sh_pool self) tx);
      match resolved with
      | inl err => Ok (inl (PoolUnresolvableTransaction err))
      | inr rtx =>
          catch (map_err PoolInvalidTx (TransactionVerifier_verify (ChainState_median_context (ch_consensus chain_state) store) (tip_number chain_state)
            (ep_number (ch_current_epoch_ext chain_state)) (ch_consensus chain_state) script_verify rtx (max_block_cycles (ch_consensus chain_state))))
      end
  end.

(** Judged on one state and added to another, up to the first error. *)
Fixpoint submit_in_order (self : State) (store : StoreData) (chain_state : ChainState) (txs : list Transaction) (tx_pool : TxPool M L)
    : outcome E (TxPool M L * (PoolError + list Z)) :=
  match txs with
  | [] => Ok (tx_pool, inr [])
  | tx :: txs =>
      judged ← judge_tx self store tx;
      match judged with
      | inl err => Ok (tx_pool, inl err)
      | inr cycles =>
          '(tx_pool, added) ← add_tx_to_pool chain_state script_verify now tx cycles tx_pool;
          match added with
          | inl err => Ok (tx_pool, inl err)
          | inr cycles =>
              '(tx_pool, rest) ← submit_in_order self store chain_state txs tx_pool;
              Ok (tx_pool, match rest with inr l => inr (cycles :: l) | inl err => inl err end)
          end
      end
  end.

Definition px_keys (p : Prepared) : list H256 := (px_resolved p).*1 ++ (px_cached p).*1 ++ (px_unresolvable p).*1.

Definition has_entry (self : State) (p : Prepared) (tx : Transaction) : Prop :=
  match sh_cache self !! tx_hash tx with
  | Some cycles => (tx_hash tx, cycles) ∈ px_cached p
  | None =>
      exists r, catch (E := E) (resolve_tx_from_pending_and_proposed (sh_chain self) (sh_pool self) tx) = Ok r /\
        match r with
        | inr rtx => (tx_hash tx, rtx) ∈ px_resolved p
        | inl err => (tx_hash tx, PoolUnresolvableTransaction err) ∈ px_unresolvable p
        end
  end.

Lemma resolve_tx_grows self p p' tx :
  executor_resolve_tx self p tx = Ok p' ->
  px_keys p' ≡ₚ tx_hash tx :: px_keys p /\ has_entry self p' tx /\ (forall tx', has_entry self p tx' -> has_entry self p' tx') /\
  px_txs p' = px_txs p /\ px_consensus p' = px_consensus p /\ px_tip_number p' = px_tip_number p /\ px_epoch_number p' = px_epoch_number p.
Proof.
  unfold executor_resolve_tx, has_entry, px_keys. destruct (sh_cache self !! tx_hash tx) as [c|] eqn:Hc.
  - intros [= <-]. cbn. rewrite fmap_app. split_and!; [solve_Permutation|set_solver| |done..].
    intros tx'. destruct (sh_cache self !! tx_hash tx'); set_solver.
  - intros H. apply bind_Ok in H as ([err|rtx] & Hr & [= <-]); cbn; rewrite fmap_app; (split_and!; [solve_Permutation|eexists; split; [exact Hr|set_solver]| |done..]);
      intros tx'; (destruct (sh_cache self !! tx_hash tx'); [set_solver|]); intros ([e|r] & Hr' & Hin); eexists; (split; [exact Hr'|]); set_solver.
Qed.

Lemma resolve_fold self txs p0 p :
  px_keys p0 = [] -> try_fold (executor_resolve_tx self) p0 txs = Ok p ->
  px_keys p ≡ₚ tx_hash <$> txs /\ (forall tx, tx ∈ txs -> has_entry self p tx) /\
  px_txs p = px_txs p0 /\ px_consensus p = px_consensus p0 /\ px_tip_number p = px_tip_number p0 /\ px_epoch_number p = px_epoch_number p0.
Proof.
  intros H0 H. refine (try_fold_inv _ (fun txs p => px_keys p ≡ₚ tx_hash <$> txs /\ (forall tx, tx ∈ txs -> has_entry self p tx) /\
    px_txs p = px_txs p0 /\ px_consensus p = px_consensus p0 /\ px_tip_number p = px_tip_number p0 /\ px_epoch_number p = px_epoch_number p0) _ _ _ _ _ H).
  - rewrite H0. split_and!; try done. intros tx Htx. by apply not_elem_of_nil in Htx.
  - intros done tx p1 p2 (Hk & He & H1 & H2 & H3 & H4) Hs. apply resolve_tx_grows in Hs as (Hk' & He' & Hm & -> & -> & -> & ->).
    split_and!; [|set_solver|done..]. rewrite Hk', Hk, fmap_app. solve_Permutation.
Qed.

Lemma foldl_insert_lookup {A} (l : list (H256 * A)) h a :
  NoDup l.*1 -> (h, a) ∈ l -> foldl (fun m '(h, a) => <[h := a]> m) (∅ : gmap Z A) l !! h = Some a.
Proof.
  intros Hn Hin.
  enough (forall m : gmap Z A, (h, a) ∈ l \/ (~ (h ∈ l.*1) /\ m !! h = Some a) -> foldl (fun m '(h, a) => <[h := a]> m) m l !! h = Some a) as H by auto.
  clear Hin. induction l as [|[h' a'] l IH]; intros m Hm; cbn; [by destruct Hm as [?%not_elem_of_nil|[_ ?]]|].
  cbn in Hn. apply NoDup_cons in Hn as [Hh Hn]. apply IH; [done|].
  destruct Hm as [[[= <- <-]|Hin]%elem_of_cons|[Hnot Hm]]; [right|by left|right].
  - split; [done|apply lookup_insert_eq].
  - cbn in Hnot. apply not_elem_of_cons in Hnot as [Hne Hnot]. split; [done|]. by rewrite lookup_insert_ne.
Qed.

Lemma join_all (judge : Transaction -> PoolError + Z) txs : forall results : gmap Z (PoolError + Z),
  NoDup (tx_hash <$> txs) -> (forall tx, tx ∈ txs -> results !! tx_hash tx = Some (judge tx)) ->
  join_results results txs = Ok ((fun tx => match judge tx with inr cycles => inr (cycles, tx) | inl e => inl e end) <$> txs).
Proof.
  induction txs as [|tx txs IH]; intros results Hn Hr; [done|]. cbn in Hn. apply NoDup_cons in Hn as [Hh Hn]. cbn.
  rewrite Hr by left. cbn. rewrite IH; [done|done|]. intros tx' Htx'. rewrite lookup_delete_ne; [apply Hr; by right|].
  intros Heq. apply Hh. rewrite Heq. by apply list_elem_of_fmap_2.
Qed.

(** What the verification says of every transaction it was given. *)
Lemma verify_entries store p verified :
  executor_verify store p = Ok verified ->
  verified.*1 = (px_resolved p).*1 /\
  forall h rtx, (h, rtx) ∈ px_resolved p -> exists v, executor_verify_tx store p (h, rtx) = Ok (h, v) /\ (h, v) ∈ verified.
Proof.
  intros H%try_map_Ok. induction H as [|[h rtx] [h' v] l verified Hv _ [IHk IHe]]; [split; [done|by intros ? ? ?%not_elem_of_nil]|].
  assert (h' = h) as -> by (unfold executor_verify_tx in Hv; apply bind_Ok in Hv as (r & _ & [= <- _]); done).
  split; [cbn; by rewrite IHk|]. intros h0 rtx0 [[= -> ->]|Hin]%elem_of_cons; [exists v; split; [done|by left]|].
  destruct (IHe _ _ Hin) as (v0 & ? & ?). exists v0. split; [done|by right].
Qed.

(** The joined results are those of judging each transaction alone. *)
Lemma collected_judged (self : State) store p verified txs tx :
  NoDup (tx_hash <$> txs) -> px_keys p ≡ₚ tx_hash <$> txs -> tx ∈ txs -> has_entry self p tx ->
  px_consensus p = ch_consensus (sh_chain self) -> px_tip_number p = tip_number (sh_chain self) ->
  px_epoch_number p = ep_number (ch_current_epoch_ext (sh_chain self)) -> executor_verify store p = Ok verified ->
  exists judged, judge_tx self store tx = Ok judged /\ collect_results p verified !! tx_hash tx = Some judged.
Proof.
  intros Hn Hk Htx He Hcon Htip Hep [Hv1 Hv2]%verify_entries. unfold collect_results.
  set (l := _ ++ _ ++ _). assert (NoDup l.*1) as Hl.
  { enough (l.*1 ≡ₚ tx_hash <$> txs) as -> by done. rewrite <- Hk. unfold px_keys. rewrite <- Hv1. subst l. rewrite !fmap_app, <- !list_fmap_compose.
    apply reflexive_eq. f_equal; [|f_equal]; apply list_fmap_ext; by intros ? []. }
  assert (forall j, (tx_hash tx, j) ∈ l -> foldl (fun m '(h, r) => <[h := r]> m) (∅ : gmap Z (PoolError + Z)) l !! tx_hash tx = Some j) as Hlook
    by (intros j; by apply foldl_insert_lookup).
  unfold has_entry in He. unfold judge_tx. destruct (sh_cache self !! tx_hash tx) as [c|].
  - exists (inr c). split; [done|]. apply Hlook. subst l. rewrite !elem_of_app. right; left. apply list_elem_of_fmap. by exists (tx_hash tx, c).
  - destruct He as ([err|rtx] & -> & Hin); rewrite bind_ret_l.
    + eexists. split; [done|]. apply Hlook. subst l. rewrite !elem_of_app. right; right. apply list_elem_of_fmap. by eexists (tx_hash tx, _).
    + destruct (Hv2 _ _ Hin) as (v & Hv & Hinv). unfold executor_verify_tx in Hv. rewrite Hcon, Htip, Hep in Hv. cbn [fst snd] in Hv.
      apply bind_Ok in Hv as (r & Hr & [= <-]). exists r. split; [exact Hr|]. apply Hlook. subst l. rewrite !elem_of_app. left.
      apply list_elem_of_fmap. eexists (tx_hash tx, _). split; [|exact Hinv]. by destruct r.
Qed.

Lemma add_results_in_order (self : State) store chain_state (judge : Transaction -> PoolError + Z) txs :
  (forall tx, tx ∈ txs -> judge_tx self store tx = Ok (judge tx)) -> forall tx_pool,
  add_results chain_state ((fun tx => match judge tx with inr cycles => inr (cycles, tx) | inl e => inl e end) <$> txs) tx_pool =
  submit_in_order self store chain_state txs tx_pool.
Proof.
  induction txs as [|tx txs IH]; intros Hj tx_pool; [done|]. cbn. rewrite Hj by left. rewrite bind_ret_l. destruct (judge tx) as [e|c]; [done|].
  destruct (add_tx_to_pool _ _ _ _ _ _) as [[pool [e|c']]| |]; cbn; [done| |done|done]. rewrite IH; [done|]. intros tx' Htx'. apply Hj. by right.
Qed.

Lemma resolve_tx_extends self p p' tx :
  executor_resolve_tx self p tx = Ok p' ->
  px_resolved p `prefix_of` px_resolved p' /\ px_cached p `prefix_of` px_cached p' /\ px_unresolvable p `prefix_of` px_unresolvable p'.
Proof.
  unfold executor_resolve_tx. destruct (sh_cache self !! tx_hash tx); [intros [= <-]; cbn; split_and!; eauto using prefix_app_r|].
  intros H. apply bind_Ok in H as ([err|rtx] & _ & [= <-]); cbn; split_and!; eauto using prefix_app_r.
Qed.

Lemma resolve_fold_extends self txs : forall p p', try_fold (executor_resolve_tx self) p txs = Ok p' ->
  px_resolved p `prefix_of` px_resolved p' /\ px_cached p `prefix_of` px_cached p' /\ px_unresolvable p `prefix_of` px_unresolvable p'.
Proof.
  induction txs as [|tx txs IH]; intros p p' H; cbn in H; [by injection H as <-|]. apply bind_Ok in H as (p1 & H1 & H).
  apply resolve_tx_extends in H1 as (? & ? & ?). apply IH in H as (? & ? & ?). split_and!; by etrans.
Qed.

(** When nothing resolves, the error is that of the first transaction. *)
Lemma unresolved_in_order (self : State) store chain_state txs r tx_pool :
  executor_resolve txs self = Ok (inl r) -> submit_in_order self store chain_state txs tx_pool = Ok (tx_pool, r).
Proof.
  unfold executor_resolve. destruct txs as [|tx txs]; [by intros [= <-]|]. intros H. apply bind_Ok in H as (p & Hf & H).
  destruct (px_resolved p) eqn:Hr; [|done]. destruct (px_cached p) eqn:Hc; [|done]. apply bind_Ok in H as ([h err] & Hu & [= <-]).
  cbn [try_fold] in Hf. apply bind_Ok in Hf as (p1 & H1 & Hf). apply resolve_fold_extends in Hf as (Hr1 & Hc1 & Hu1). rewrite Hr in Hr1. rewrite Hc in Hc1.
  apply prefix_nil_inv in Hr1, Hc1. cbn [submit_in_order]. unfold judge_tx. unfold executor_resolve_tx in H1. cbn in H1.
  destruct (sh_cache self !! tx_hash tx); [injection H1 as <-; done|]. apply bind_Ok in H1 as ([e|rtx] & -> & [= <-]); [|done].
  destruct Hu1 as [k Hk]. rewrite Hk in Hu. injection Hu as _ <-. done.
Qed.

(** C20. Transactions that are submitted together are treated one at a time.  The
    executor sorts them, verifies them without a lock and joins the results by
    their hashes; this gives what judging and adding one transaction after the
    other would: every transaction is judged by the state and the store of the
    earlier phases, added to the pool of the last one, and the first error ends
    the submission. *)
Theorem executor_in_order txs (self self' : State) store found :
  NoDup (tx_hash <$> txs) -> executor_resolve txs self = Ok found ->
  let in_order := submit_in_order self store (sh_chain self') txs (sh_pool self') in
  match found with
  | inl r => in_order = Ok (sh_pool self', r)
  | inr p =>
      forall verified, executor_verify store p = Ok verified ->
      executor_add p verified self' =
      '(tx_pool, r) ← in_order; Ok (mkShared (sh_chain self') tx_pool (foldl write_cache (sh_cache self') verified), r)
  end.
Proof.
  intros Hn Hr in_order. destruct found as [r|p]; [by apply unresolved_in_order|]. intros verified Hv. subst in_order.
  unfold executor_resolve in Hr. destruct txs as [|tx0 txs0] eqn:Htxs; [done|]. rewrite <- Htxs in *. clear Htxs tx0 txs0.
  apply bind_Ok in Hr as (p0 & Hf & Hr). assert (p0 = p) as ->.
  { destruct (px_resolved p0), (px_cached p0); try congruence. by apply bind_Ok in Hr as ([] & _ & ?). }
  apply resolve_fold in Hf as (Hk & He & Ht & Hcon & Htip & Hep); [|done].
  assert (forall tx, tx ∈ txs -> exists judged, judge_tx self store tx = Ok judged /\ collect_results p verified !! tx_hash tx = Some judged) as Hj
    by (intros tx Htx; eapply collected_judged; eauto).
  set (judge tx := match judge_tx self store tx with Ok j => j | _ => inr 0 end).
  unfold executor_add. rewrite Ht. rewrite (join_all judge); [|done|].
  - rewrite bind_ret_l, (add_results_in_order self store); [done|]. intros tx Htx. destruct (Hj tx Htx) as (j & H & _). unfold judge. by rewrite H.
  - intros tx Htx. destruct (Hj tx Htx) as (j & H & ->). unfold judge. by rewrite H.
Qed.
End executor.
