(* ===== verification/SyncState.v ===== *)
(** * The state of the synchronization

    [SyncSharedState] of [sync/src/types.rs], which the synchronizer and the
    relayer work on, and its operations.  What is sent to the network is a list
    of actions.  [now] is the time in milliseconds and [instant] a reading of the
    monotonic clock. *)
From stdpp Require Import sorting.
From coqutil Require Import Datatypes.RecordSetters.
From S2P Require Import Prelude Capacity ByteStrings Transactions Blocks Protocol Epochs ChainStore LinkedMap ProposedPool TxPool Compact OrphanPool SyncHeaders SyncPeers ChainPool ChainService.
Export DoubleBraceUpdate.

Definition MAX_TIP_AGE : Z := 60 * 60 * 1000.
Definition FILTER_SIZE : Z := 20000.
Definition GET_HEADERS_CACHE_SIZE : Z := 10000.
Definition GET_HEADERS_TIMEOUT : Z := 15 * 1000.
Definition TX_FILTER_SIZE : Z := 50000.
Definition TX_ASKED_SIZE : Z := TX_FILTER_SIZE.

(** What the handlers do with [CKBProtocolContext] and the miner's call with
    [NetworkController]; times of bans in seconds. *)
Inductive NetAction :=
| SendSync (peer : PeerIndex) (message : FbsSyncMessage)
| SendRelay (peer : PeerIndex) (message : FbsRelayMessage)
| BroadcastRelay (peers : list PeerIndex) (message : FbsRelayMessage)
| BroadcastAllRelay (message : FbsRelayMessage)
| NetDisconnect (peer : PeerIndex)
| BanPeer (peer : PeerIndex) (timeout : Z).

(** ** The epochs of headers *)
Record EpochIndices := mkEpochIndices { ei_epoch : gmap Z EpochExt; ei_indices : gmap Z H256 }.

Definition EpochIndices_get_epoch_ext (self : EpochIndices) (hash : H256) : option EpochExt :=
  h ← ei_indices self !! hash; ei_epoch self !! h.
Definition EpochIndices_insert_index (block_hash epoch_hash : H256) (self : EpochIndices) : EpochIndices :=
  self {{ ei_indices ::= insert block_hash epoch_hash }}.
Definition EpochIndices_insert_epoch (hash : H256) (epoch : EpochExt) (self : EpochIndices) : EpochIndices :=
  self {{ ei_epoch ::= insert hash epoch }}.

(** ** The status of a block, with its bits *)
Abbreviation BlockStatus := Z (only parsing).
Definition UNKNOWN : BlockStatus := 0.
Definition VALID_HEADER : BlockStatus := 1.
Definition VALID_TREE : BlockStatus := 2.
Definition VALID_TRANSACTIONS : BlockStatus := 3.
Definition VALID_CHAIN : BlockStatus := 4.
Definition VALID_SCRIPTS : BlockStatus := 5.
Definition VALID_MASK : BlockStatus :=
  Z.lor (Z.lor (Z.lor (Z.lor VALID_HEADER VALID_TREE) VALID_TRANSACTIONS) VALID_CHAIN) VALID_SCRIPTS.
Definition BLOCK_HAVE_DATA : BlockStatus := 8.
Definition BLOCK_HAVE_UNDO : BlockStatus := 16.
Definition BLOCK_HAVE_MASK : BlockStatus := Z.lor BLOCK_HAVE_DATA BLOCK_HAVE_UNDO.
Definition FAILED_VALID : BlockStatus := 32.
Definition FAILED_CHILD : BlockStatus := 64.
Definition FAILED_MASK : BlockStatus := Z.lor FAILED_VALID FAILED_CHILD.

Section state.
Context {M L P Q : Type -> Type} `{LP : !LruCache H256 P} `{LQ : !LruCache (PeerIndex * H256) Q}.

Record SyncSharedState := mkSyncShared {
  ss_shared : @Shared M L;
  ss_n_sync_started : Z;
  ss_n_protected_outbound_peers : Z;
  ss_shared_best_header : HeaderView;
  ss_epoch_map : EpochIndices;
  ss_header_map : gmap Z HeaderView;
  ss_block_status_map : gmap Z BlockStatus;
  ss_tx_filter : P unit;
  ss_peers : gmap Z PeerState;
  ss_misbehavior : gmap Z Z;
  ss_known_blocks : gmap Z (P unit);
  ss_known_txs : gmap Z (P unit);
  ss_pending_get_block_proposals : gmap Bytes (gset Z);
  ss_pending_get_headers : Q Z;
  ss_pending_compact_blocks : gmap Z (CompactBlock * gset Z);
  ss_inflight_proposals : gset Bytes;
  ss_inflight_transactions : P Z;
  ss_inflight_blocks : InflightBlocks
}.

Definition ss_chain (self : SyncSharedState) : ChainState := sh_chain (ss_shared self).
Definition ss_store (self : SyncSharedState) : StoreData := ch_store (ss_chain self).
Definition ss_consensus (self : SyncSharedState) : Consensus := ch_consensus (ss_chain self).
Definition ss_index (self : SyncSharedState) : HeaderIndex := mkHeaderIndex (ss_store self) (ss_header_map self).

Definition SyncSharedState_new {E} (shared : @Shared M L) : outcome E SyncSharedState :=
  let chain_state := sh_chain shared in
  block_ext ← expect (get_block_ext (ch_store chain_state) (tip_hash chain_state));
  Ok {| ss_shared := shared;
        ss_n_sync_started := 0;
        ss_n_protected_outbound_peers := 0;
        ss_shared_best_header := HeaderView_new (tip_header chain_state) (chain_total_difficulty chain_state) (total_uncles_count block_ext);
        ss_epoch_map := mkEpochIndices ∅ ∅;
        ss_header_map := ∅;
        ss_block_status_map := ∅;
        ss_tx_filter := lru_new TX_FILTER_SIZE;
        ss_peers := ∅;
        ss_misbehavior := ∅;
        ss_known_blocks := ∅;
        ss_known_txs := ∅;
        ss_pending_get_block_proposals := ∅;
        ss_pending_get_headers := lru_new GET_HEADERS_CACHE_SIZE;
        ss_pending_compact_blocks := ∅;
        ss_inflight_proposals := ∅;
        ss_inflight_transactions := lru_new TX_ASKED_SIZE;
        ss_inflight_blocks := InflightBlocks_default |}.

Definition is_initial_block_download (now : Z) (self : SyncSharedState) : bool :=
  bool_decide (MAX_TIP_AGE < saturating_sub now (h_timestamp (tip_header (ss_chain self)))).

Definition ss_blame {E} (pi : PeerIndex) (score : Z) (self : SyncSharedState) : outcome E SyncSharedState :=
  scores ← misbehavior pi score (ss_misbehavior self); Ok (self {{ ss_misbehavior := scores }}).

(** ** Headers and epochs *)
Definition ss_insert_header_view {E} (hash : H256) (view : HeaderView) (self : SyncSharedState) : outcome E SyncSharedState :=
  index ← insert_header_view (ss_index self) hash view;
  Ok (self {{ ss_header_map := hi_header_map index }}).
Definition ss_remove_header_view (hash : H256) (self : SyncSharedState) : SyncSharedState :=
  self {{ ss_header_map := hi_header_map (remove_header_view (ss_index self) hash) }}.

Definition ss_get_epoch_ext (self : SyncSharedState) (hash : H256) : option EpochExt :=
  match EpochIndices_get_epoch_ext (ss_epoch_map self) hash with
  | Some epoch => Some epoch
  | None => get_block_epoch (ss_store self) hash
  end.

Definition ss_insert_epoch (header : Header) (epoch : EpochExt) (self : SyncSharedState) : SyncSharedState :=
  let last := ep_last_block_hash_in_previous_epoch epoch in
  self {{ ss_epoch_map ::= fun m => EpochIndices_insert_epoch last epoch (EpochIndices_insert_index (h_hash header) last m) }}.

Definition ss_next_epoch_ext {E} (self : SyncSharedState) (last_epoch : EpochExt) (header : Header) : outcome E (option EpochExt) :=
  next_epoch_ext (ss_consensus self) (sync_get_header (ss_index self))
    (fun hash => hv_total_uncles_count <$> get_header_view (ss_index self) hash) last_epoch header.

(** [while m_left != m_right]: headers are compared by hash.  The fuel is
    enough to reach number zero, where the subtraction panics. *)
Fixpoint common_loop {E} (self : HeaderIndex) (fuel : nat) (m_left m_right : Header) : outcome E (option Header) :=
  if decide (h_hash m_left = h_hash m_right) then Ok (Some m_left)
  else
    match fuel with
    | O => Panic
    | S fuel =>
        left_number ← h_number m_left -64 1;
        left ← sync_get_ancestor self (h_hash m_left) left_number;
        match left with
        | None => Ok None
        | Some m_left =>
            right_number ← h_number m_right -64 1;
            right ← sync_get_ancestor self (h_hash m_right) right_number;
            match right with
            | None => Ok None
            | Some m_right => common_loop self fuel m_left m_right
            end
        end
    end.

Definition last_common_ancestor {E} (self : HeaderIndex) (last_common_header best_known_header : Header) : outcome E (option Header) :=
  right ← sync_get_ancestor self (h_hash best_known_header) (h_number last_common_header);
  match right with
  | None => Ok None
  | Some m_right =>
      if decide (h_hash m_right = h_hash last_common_header) then Ok (Some m_right)
      else
        match sync_get_header self (h_hash last_common_header) with
        | None => Ok None
        | Some m_left => common_loop self (S (Z.to_nat (h_number m_left))) m_left m_right
        end
  end.

Definition send_getheaders_to_peer {E} (instant : Z) (peer : PeerIndex) (header : Header) (self : SyncSharedState)
    : outcome E (SyncSharedState * list NetAction) :=
  let key := (peer, h_hash header) in
  let last_time := lru_get key (ss_pending_get_headers self) in
  let self := self {{ ss_pending_get_headers ::= lru_refresh key }} in
  if match last_time with Some last_time => bool_decide (instant < last_time + GET_HEADERS_TIMEOUT) | None => false end
  then Ok (self, [])
  else
    let self := self {{ ss_pending_get_headers ::= lru_insert key instant }} in
    locator_hash ← get_locator (genesis_hash (ss_consensus self)) (ss_index self) header;
    Ok (self, [SendSync peer (build_get_headers locator_hash)]).

(** ** Blocks *)
Definition get_block_status (block_hash : H256) (self : SyncSharedState) : BlockStatus * SyncSharedState :=
  match ss_block_status_map self !! block_hash with
  | Some status => (status, self)
  | None =>
      match get_block_header (ss_store self) block_hash with
      | Some _ => (BLOCK_HAVE_MASK, self {{ ss_block_status_map ::= insert block_hash BLOCK_HAVE_MASK }})
      | None => (UNKNOWN, self)
      end
  end.
Definition insert_block_status (block_hash : H256) (status : BlockStatus) (self : SyncSharedState) : SyncSharedState :=
  self {{ ss_block_status_map ::= insert block_hash status }}.

Definition new_block_received (block : Block) (self : SyncSharedState) : bool * SyncSharedState :=
  let '(first, inflight) := remove_by_block (b_hash block) (ss_inflight_blocks self) in
  (first, self {{ ss_inflight_blocks := inflight }}).

(** ** Transactions and proposals *)

(** [KnownFilter::insert]: whether the value is new for the peer. *)
Definition known_insert (index : PeerIndex) (hash : H256) (self : gmap Z (P unit)) : bool * gmap Z (P unit) :=
  match self !! index with
  | Some lru => (match lru_get hash lru with None => true | Some _ => false end, <[index := lru_insert hash tt lru]> self)
  | None => (true, <[index := lru_insert hash tt (lru_new FILTER_SIZE)]> self)
  end.

Definition mark_as_known_tx (hash : H256) (self : SyncSharedState) : SyncSharedState :=
  self {{ ss_inflight_transactions ::= lru_remove hash; ss_tx_filter ::= lru_insert hash tt }}.
Definition already_known_tx (self : SyncSharedState) (hash : H256) : bool := bool_decide (is_Some (lru_get hash (ss_tx_filter self))).

Definition insert_inflight_proposals (ids : list Bytes) (self : SyncSharedState) : list bool * SyncSharedState :=
  let '(results, inflight) := foldl (fun '(results, locked) id => (results ++ [bool_decide (id ∉ locked)], {[id]} ∪ locked))
    ([], ss_inflight_proposals self) ids in
  (results, self {{ ss_inflight_proposals := inflight }}).
Definition remove_inflight_proposals (ids : list Bytes) (self : SyncSharedState) : list bool * SyncSharedState :=
  let '(results, inflight) := foldl (fun '(results, locked) id => (results ++ [bool_decide (id ∈ locked)], locked ∖ {[id]}))
    ([], ss_inflight_proposals self) ids in
  (results, self {{ ss_inflight_proposals := inflight }}).

Definition clear_get_block_proposals (self : SyncSharedState) : gmap Bytes (gset Z) * SyncSharedState :=
  (ss_pending_get_block_proposals self, self {{ ss_pending_get_block_proposals := ∅ }}).
Definition insert_get_block_proposals (pi : PeerIndex) (ids : list Bytes) (self : SyncSharedState) : SyncSharedState :=
  self {{ ss_pending_get_block_proposals ::= fun locked =>
    foldl (fun locked id => <[id := {[pi]} ∪ default ∅ (locked !! id)]> locked) locked ids }}.

Definition ss_disconnected (pi : PeerIndex) (self : SyncSharedState) : option PeerState * SyncSharedState :=
  let '(state, peers) := Peers_disconnected pi (ss_peers self) in
  (state, self {{ ss_known_txs ::= delete pi; ss_known_blocks ::= delete pi;
                  ss_inflight_blocks ::= fun i => (remove_by_peer pi i).2; ss_peers := peers }}).
End state.
Arguments SyncSharedState : clear implicits.
