(* ===== verification/Synchronizer.v ===== *)
(** * The synchronizer

    [sync/src/synchronizer]: the messages on headers and blocks, the choice of
    the blocks to ask for, and the supervision of the peers.  The chain service
    is the argument [process]; the order in which hash maps and sets are walked
    is an argument of the handlers that walk them. *)
From stdpp Require Import sorting.
From coqutil Require Import Datatypes.RecordSetters.
From S2P Require Import Prelude Capacity ByteStrings Transactions Blocks Protocol Epochs ChainStore VerifyErrors MedianTime HeaderVerify LinkedMap ProposedPool TxPool Compact OrphanPool SyncHeaders SyncPeers ChainPool ChainService SyncState.

Definition MAX_BLOCKS_IN_TRANSIT_PER_PEER : Z := 16.
Definition BLOCK_DOWNLOAD_WINDOW : Z := 1024.
Definition PER_FETCH_BLOCK_LIMIT : Z := 128.
Definition HEADERS_DOWNLOAD_TIMEOUT_BASE : Z := 6 * 60 * 1000.
Definition HEADERS_DOWNLOAD_TIMEOUT_PER_HEADER : Z := 1.
Definition POW_SPACE : Z := 10000.
Definition MAX_OUTBOUND_PEERS_TO_PROTECT_FROM_DISCONNECT : Z := 4.
Definition CHAIN_SYNC_TIMEOUT : Z := 12 * 60 * 1000.
Definition PROTECT_STOP_SYNC_TIME : Z := 5 * 60 * 1000.
Definition EVICTION_HEADERS_RESPONSE_TIME : Z := 120 * 1000.
Definition MAX_LOCATOR_SIZE : Z := 101.
Definition BAD_MESSAGE_BAN_TIME : Z := 5 * 60.
Definition SYNC_USELESS_BAN_TIME : Z := 10 * 60.

Definition SEND_GET_HEADERS_TOKEN : Z := 0.
Definition IBD_BLOCK_FETCH_TOKEN : Z := 1.
Definition NOT_IBD_BLOCK_FETCH_TOKEN : Z := 2.
Definition TIMEOUT_EVICTION_TOKEN : Z := 3.

(** ** The result of the validation of a header *)
Inductive ValidationState := VALID | INVALID.
Inductive ValidationError := ValidationVerify (e : VerifyError) | ValidationVersion | ValidationInvalidParent.
Record ValidationResult := mkValidation {
  vr_error : option ValidationError;
  vr_misbehavior : Z;
  vr_state : ValidationState
}.
Definition ValidationResult_default : ValidationResult := mkValidation None 0 VALID.

(** The scores are added once at most to zero, far below the width. *)
Definition ValidationResult_dos (error : option ValidationError) (misbehavior : Z) (self : ValidationResult) : ValidationResult :=
  mkValidation error (vr_misbehavior self + misbehavior) INVALID.
Definition ValidationResult_invalid (error : option ValidationError) (self : ValidationResult) : ValidationResult :=
  ValidationResult_dos error 0 self.
Definition ValidationResult_is_valid (self : ValidationResult) : bool :=
  match vr_state self with VALID => true | INVALID => false end.

(** ** The numbers of the peers that are synced from: atomic, wrapping *)
Definition fetch_add (n : Z) : Z := (n + 1) mod U64_SIZE.
Definition fetch_sub (n : Z) : Z := (n - 1) mod U64_SIZE.

(** The methods of [CKBProtocolHandler] with their arguments.  A timer comes
    with the order in which the peers are walked. *)
Inductive SyncEvent :=
| EvConnected (peer : PeerIndex) (outbound : option bool)
| EvDisconnected (peer : PeerIndex)
| EvReceived (peer : PeerIndex) (message : option FbsSyncMessage)
| EvNotify (token : Z) (order : list PeerIndex).

Section synchronizer.
Context {M L P Q : Type -> Type} `{LP : !LruCache H256 P} `{LQ : !LruCache (PeerIndex * H256) Q}.
Context {E : Type}.
Context (blake2b : Bytes -> H256) (serialize_raw : RawTransaction -> Bytes)
  (serialize_tx : RawTransaction -> list (list Bytes) -> Bytes) (serialize_header : RawHeader -> Seal -> Bytes)
  (serialize_uncles : list UncleBlock -> Bytes) (merkle_root : list H256 -> H256)
  (from_little_endian : Bytes -> option Z).
Context (pow : PowEngine) (process : @Shared M L -> Block -> outcome E (@Shared M L * (ChainError + list Block))).
Context (set_order : list Block -> list Block) (now instant : Z).
#[local] Abbreviation SyncState := (SyncSharedState M L P Q).

Record Synchronizer := mkSynchronizer { sy_shared : SyncState; sy_orphans : gmap Z (list Block) }.

(** ** Headers *)
Definition VerifierResolver_new (self : SyncState) (parent : option Header) (header : Header) : outcome E HeaderResolver :=
  epoch ← match (parent ← parent; ext ← ss_get_epoch_ext self (h_hash parent); Some (parent, ext)) with
          | Some (parent, last_epoch) =>
              next ← ss_next_epoch_ext self last_epoch parent;
              Ok (Some (default last_epoch next))
          | None => Ok None
          end;
  Ok (mkResolver header parent epoch).

Definition VerifierResolver_median_context (self : SyncState) : BlockMedianTimeContext := {|
  median_block_count := median_time_block_count (ss_consensus self);
  timestamp_and_parent := fun block_hash =>
    (fun header => (h_timestamp header, h_parent_hash header)) <$> sync_get_header (ss_index self) block_hash;
  median_get_block_hash := get_block_hash (ss_store self)
|}.

Definition insert_verified_header (header : Header) (peer : PeerIndex) (self : SyncState) : outcome E SyncState :=
  match get_header_view (ss_index self) (h_parent_hash header) with
  | Some parent_view =>
      total_difficulty ← add_w U256_SIZE (hv_total_difficulty parent_view) (h_difficulty header);
      total_uncles_count ← hv_total_uncles_count parent_view +64 h_uncles_count header;
      let header_view := HeaderView_new header total_difficulty total_uncles_count in
      let self := if better_view total_difficulty (h_hash header) (ss_shared_best_header self)
                  then self {{ ss_shared_best_header := header_view }} else self in
      let self := self {{ ss_peers ::= new_header_received peer header_view }} in
      ss_insert_header_view (h_hash header) header_view self
  | None => Ok self
  end.

Definition prev_block_check (header : Header) (result : ValidationResult) (self : SyncState)
    : (ValidationResult + ValidationResult) * SyncState :=
  let '(status, self) := get_block_status (h_parent_hash header) self in
  (if decide (Z.land status FAILED_MASK = status)
   then inl (ValidationResult_dos (Some ValidationInvalidParent) 100 result) else inr result, self).

Definition non_contextual_check (resolver : HeaderResolver) (result : ValidationResult) (self : SyncState)
    : outcome E (ValidationResult + ValidationResult) :=
  checked ← catch (HeaderVerifier_verify pow (VerifierResolver_median_context self) now resolver);
  Ok (match checked with
      | inr _ => inr result
      | inl (ErrPow e) => inl (ValidationResult_dos (Some (ValidationVerify (ErrPow e))) 100 result)
      | inl (ErrEpoch e) => inl (ValidationResult_dos (Some (ValidationVerify (ErrEpoch e))) 50 result)
      | inl error => inl (ValidationResult_invalid (Some (ValidationVerify error)) result)
      end).

Definition version_check (header : Header) (result : ValidationResult) : ValidationResult + ValidationResult :=
  if decide (h_version header ≠ 0) then inl (ValidationResult_invalid (Some ValidationVersion) result) else inr result.

Definition header_failed (header : Header) (self : SyncState) : SyncState :=
  insert_block_status (h_hash header) FAILED_MASK self.

Definition HeaderAcceptor_accept (header : Header) (peer : PeerIndex) (resolver : HeaderResolver) (self : SyncState)
    : outcome E (ValidationResult * SyncState) :=
  let result := ValidationResult_default in
  match prev_block_check header result self with
  | (inl result, self) => Ok (result, header_failed header self)
  | (inr result, self) =>
      checked ← non_contextual_check resolver result self;
      match checked with
      | inl result => Ok (result, header_failed header self)
      | inr result =>
          match version_check header result with
          | inl result => Ok (result, header_failed header self)
          | inr result =>
              self ← insert_verified_header header peer self;
              epoch ← expect (hr_epoch resolver);
              Ok (result, insert_block_status (h_hash header) VALID_MASK (ss_insert_epoch header epoch self))
          end
      end
  end.

Definition accept_header (parent : option Header) (header : Header) (peer : PeerIndex) (self : SyncState)
    : outcome E (ValidationResult * SyncState) :=
  resolver ← VerifierResolver_new self parent header;
  HeaderAcceptor_accept header peer resolver self.

Definition accept_first (first : Header) (peer : PeerIndex) (self : SyncState) : outcome E (ValidationResult * SyncState) :=
  accept_header (sync_get_header (ss_index self) (h_parent_hash first)) first peer self.

Fixpoint is_continuous (headers : list Header) : bool :=
  match headers with
  | parent :: ((header :: _) as headers) =>
      if decide (h_parent_hash header ≠ h_hash parent) then false else is_continuous headers
  | _ => true
  end.

(** Whether the header was valid; the score of the peer otherwise. *)
Definition judge (peer : PeerIndex) (accepted : ValidationResult * SyncState) : outcome E (bool * SyncState) :=
  let '(result, self) := accepted in
  if ValidationResult_is_valid result then Ok (true, self)
  else
    self ← (if decide (0 < vr_misbehavior result) then ss_blame peer (vr_misbehavior result) self else Ok self);
    Ok (false, self).

(** The loop over the pairs of neighbours. *)
Fixpoint accept_rest (parent : Header) (headers : list Header) (peer : PeerIndex) (self : SyncState) : outcome E (bool * SyncState) :=
  match headers with
  | [] => Ok (true, self)
  | header :: headers =>
      accepted ← accept_header (Some parent) header peer self;
      '(valid, self) ← judge peer accepted;
      if valid : bool then accept_rest header headers peer self else Ok (false, self)
  end.

(** What a message leads to: the new state, the actions, and the error that
    bans the peer. *)
Abbreviation handled := (SyncState * list NetAction * (ConvertError + unit))%type (only parsing).

(** What follows when all headers were accepted. *)
Definition headers_accepted (headers : list Header) (peer : PeerIndex) (self : SyncState) : outcome E (SyncState * list NetAction) :=
  start ← expect (last headers);
  let self := (get_block_status (h_hash start) self).2 in
  '(self, asked) ← (if decide (len headers = MAX_HEADERS_LEN)
                    then send_getheaders_to_peer instant peer start self else Ok (self, []));
  let '(outbound, protected) := match ss_peers self !! peer with
                                | Some state => (is_outbound state, cs_protect (chain_sync state))
                                | None => (false, false)
                                end in
  let disconnect := is_initial_block_download now self && bool_decide (len headers ≠ MAX_HEADERS_LEN) && (outbound && negb protected) in
  Ok (self, asked ++ if disconnect then [NetDisconnect peer] else []).

Definition HeadersProcess_execute (message : option (list FbsHeader)) (peer : PeerIndex) (self : SyncState) : outcome E handled :=
  match message with
  | None => Ok (self, [], inl Malformed)
  | Some headers =>
      if decide (MAX_HEADERS_LEN < len headers) then
        self ← ss_blame peer 20 self; Ok (self, [], inr tt)
      else if decide (len headers = 0) then
        let self := self {{ ss_peers ::= set_best_known_header peer (ss_shared_best_header self) }} in
        state ← expect (ss_peers self !! peer);
        Ok (self {{ ss_peers ::= insert peer (with_sync (sync_started state) None (chain_sync state) state) }}, [], inr tt)
      else
        headers ← catch (try_map (header_try_from blake2b serialize_header from_little_endian) headers);
        match headers with
        | inl e => Ok (self, [], inl e)
        | inr headers =>
            if negb (is_continuous headers) then
              self ← ss_blame peer 20 self; Ok (self, [], inr tt)
            else
              first ← expect (head headers);
              accepted ← accept_first first peer self;
              '(valid, self) ← judge peer accepted;
              if negb valid then Ok (self, [], inr tt)
              else
                '(valid, self) ← accept_rest first (tail headers) peer self;
                if negb valid then Ok (self, [], inr tt)
                else
                  '(self, actions) ← headers_accepted headers peer self;
                  Ok (self, actions, inr tt)
        end
  end.

Definition GetHeadersProcess_execute (message : option (list FbsH256)) (peer : PeerIndex) (self : SyncState) : outcome E handled :=
  if is_initial_block_download now self then Ok (self, [], inr tt)
  else
    match message with
    | None => Ok (self, [], inl Malformed)
    | Some locator =>
        if decide (MAX_LOCATOR_SIZE < len locator) then Ok (self, [], inl Malformed)
        else
          let hash_stop := 0 in
          hashes ← catch (try_map h256_try_from locator);
          match hashes with
          | inl e => Ok (self, [], inl e)
          | inr block_locator_hashes =>
              common ← locate_latest_common_block (genesis_hash (ss_consensus self)) (ss_store self) block_locator_hashes;
              match common with
              | Some block_number =>
                  headers ← get_locator_response (ss_store self) (tip_number (ss_chain self)) block_number hash_stop;
                  Ok (self, [SendSync peer (build_headers headers)], inr tt)
              | None => Ok (self, [BanPeer peer SYNC_USELESS_BAN_TIME], inr tt)
              end
          end
    end.

(** ** Blocks *)
Fixpoint respond_blocks (block_hashes : list FbsH256) (peer : PeerIndex) (self : SyncState) : outcome E (list NetAction * (ConvertError + unit)) :=
  match block_hashes with
  | [] => Ok ([], inr tt)
  | fbs_h256 :: block_hashes =>
      converted ← catch (h256_try_from fbs_h256);
      match converted with
      | inl e => Ok ([], inl e)
      | inr block_hash =>
          match get_block (ss_store self) block_hash with
          | Some block =>
              '(actions, r) ← respond_blocks block_hashes peer self;
              Ok (SendSync peer (build_block block) :: actions, r)
          | None => Ok ([], inr tt)
          end
      end
  end.

Definition GetBlocksProcess_execute (message : option (list FbsH256)) (peer : PeerIndex) (self : SyncState) : outcome E handled :=
  match message with
  | None => Ok (self, [], inl Malformed)
  | Some block_hashes =>
      let n_limit := Z.min MAX_BLOCKS_IN_TRANSIT_PER_PEER (len block_hashes) in
      '(actions, r) ← respond_blocks (take (Z.to_nat n_limit) block_hashes) peer self;
      Ok (self, actions, r)
  end.

(** Whether the chain accepted the block. *)
Definition accept_block (peer : PeerIndex) (block : Block) (self : SyncState) : outcome E (bool * SyncState) :=
  '(shared, result) ← process (ss_shared self) block;
  let self := self {{ ss_shared := shared }} in
  match result with
  | inl _ => Ok (false, self)
  | inr _ =>
      let self := ss_remove_header_view (b_hash block) self in
      let self := insert_block_status (b_hash block) BLOCK_HAVE_MASK self in
      Ok (true, self {{ ss_peers ::= set_last_common_header peer (b_header block) }})
  end.

Definition known_parent (block : Block) (self : SyncState) : bool :=
  bool_decide (is_Some (get_block_header (ss_store self) (b_parent block))).

(** One descendant of the accepted block. *)
Definition accept_orphan (peer : PeerIndex) (self : SyncState) (block : Block) : outcome E SyncState :=
  if negb (known_parent block self) then Ok self
  else '(_, self) ← accept_block peer block self; Ok self.

Definition insert_new_block (peer : PeerIndex) (block : Block) (self : Synchronizer) : outcome E Synchronizer :=
  if negb (known_parent block (sy_shared self)) then Ok (mkSynchronizer (sy_shared self) (orphan_insert block (sy_orphans self)))
  else
    '(accepted, shared) ← accept_block peer block (sy_shared self);
    if negb accepted then Ok (mkSynchronizer shared (sy_orphans self))
    else
      '(descendants, orphans) ← remove_blocks_by_parent set_order (b_hash block) (sy_orphans self);
      shared ← try_fold (accept_orphan peer) shared descendants;
      Ok (mkSynchronizer shared orphans).

Definition process_new_block (peer : PeerIndex) (block : Block) (self : Synchronizer) : outcome E Synchronizer :=
  if orphan_contains (sy_orphans self) block then Ok self
  else
    let '(status, shared) := get_block_status (b_hash block) (sy_shared self) in
    let self := mkSynchronizer shared (sy_orphans self) in
    if decide (status = VALID_MASK) then insert_new_block peer block self else Ok self.

Definition BlockProcess_execute (message : FbsBlock) (peer : PeerIndex) (self : Synchronizer)
    : outcome E (Synchronizer * list NetAction * (ConvertError + unit)) :=
  converted ← catch (block_try_from blake2b serialize_raw serialize_tx serialize_header serialize_uncles merkle_root from_little_endian message);
  match converted with
  | inl e => Ok (self, [], inl e)
  | inr block =>
      let '(first, shared) := new_block_received block (sy_shared self) in
      let self := mkSynchronizer shared (sy_orphans self) in
      self ← (if first : bool then process_new_block peer block self else Ok self);
      Ok (self, [], inr tt)
  end.

(** ** The blocks to ask for *)
Definition reached_inflight_limit (peer : PeerIndex) (self : SyncState) : bool :=
  bool_decide (MAX_BLOCKS_IN_TRANSIT_PER_PEER <= peer_inflight_count (ss_inflight_blocks self) peer).

Definition is_better_chain (header : HeaderView) (self : SyncState) : bool :=
  bool_decide (chain_total_difficulty (ss_chain self) <= hv_total_difficulty header).

Definition is_known_best (header : HeaderView) (self : SyncState) : outcome E bool :=
  ancestor ← sync_get_ancestor (ss_index self) (hv_hash (ss_shared_best_header self)) (hv_number header);
  Ok (match ancestor with Some ancestor => bool_decide (h_hash ancestor = hv_hash header) | None => false end).

(** The header recorded for the peer, or the block of the main chain at the
    height of the peer's best header, or the tip. *)
Definition presumed_common_header (peer : PeerIndex) (best : HeaderView) (self : SyncState) : option Header :=
  match get_last_common_header (ss_peers self) peer with
  | Some header => Some header
  | None =>
      if decide (hv_number best < tip_number (ss_chain self)) then
        last_common_hash ← get_block_hash (ss_store self) (hv_number best);
        get_block_header (ss_store self) last_common_hash
      else Some (tip_header (ss_chain self))
  end.

Definition fetcher_last_common_header (peer : PeerIndex) (best : HeaderView) (self : SyncState) : outcome E (option Header * SyncState) :=
  match presumed_common_header peer best self with
  | None => Ok (None, self)
  | Some last_common_header =>
      fixed ← last_common_ancestor (ss_index self) last_common_header (hv_inner best);
      Ok (match fixed with
          | None => (None, self)
          | Some fixed =>
              (Some fixed,
               if decide (h_hash fixed ≠ h_hash last_common_header)
               then self {{ ss_peers ::= set_last_common_header peer fixed }} else self)
          end)
  end.

(** The loop up to [max_height]; [None] is the return on a missing ancestor,
    which keeps what was recorded. *)
Fixpoint fetch_loop (fuel : nat) (peer : PeerIndex) (max_height_hash : H256) (max_height count index_height : Z) (fetch : list H256)
    (self : SyncState) : outcome E (option (list H256) * SyncState) :=
  if decide (index_height < max_height /\ len fetch < count) then
    match fuel with
    | O => Panic
    | S fuel =>
        index_height ← index_height +64 1;
        ancestor ← sync_get_ancestor (ss_index self) max_height_hash index_height;
        match ancestor with
        | None => Ok (None, self)
        | Some to_fetch =>
            let '(block_status, self) := get_block_status (h_hash to_fetch) self in
            if decide (block_status = VALID_MASK) then
              let '(first, inflight) := inflight_insert now peer (h_hash to_fetch) (ss_inflight_blocks self) in
              fetch_loop fuel peer max_height_hash max_height count index_height
                (if first : bool then fetch ++ [h_hash to_fetch] else fetch) (self {{ ss_inflight_blocks := inflight }})
            else fetch_loop fuel peer max_height_hash max_height count index_height fetch self
        end
    end
  else Ok (Some fetch, self).

(** The part of [fetch] behind the common header. *)
Definition fetch_window (peer : PeerIndex) (best : HeaderView) (common : Header) (self : SyncState)
    : outcome E (option (list H256) * SyncState) :=
  window_end ← h_number common +64 BLOCK_DOWNLOAD_WINDOW;
  above ← window_end +64 1;
  limit ← h_number common +64 PER_FETCH_BLOCK_LIMIT;
  let max_height := Z.min (Z.min above (hv_number best)) limit in
  let count := saturating_sub MAX_BLOCKS_IN_TRANSIT_PER_PEER (peer_inflight_count (ss_inflight_blocks self) peer) in
  top ← sync_get_ancestor (ss_index self) (hv_hash best) max_height;
  match top with
  | None => Ok (None, self)
  | Some max_height_header =>
      fetch_loop (Z.to_nat (max_height - h_number common)) peer (h_hash max_height_header) max_height count (h_number common) [] self
  end.

Definition BlockFetcher_fetch (peer : PeerIndex) (self : SyncState) : outcome E (option (list H256) * SyncState) :=
  if reached_inflight_limit peer self then Ok (None, self)
  else
    match get_best_known_header (ss_peers self) peer with
    | None => Ok (None, self)
    | Some best =>
        if negb (is_better_chain best self) then Ok (None, self)
        else
          known ← is_known_best best self;
          if negb known then Ok (None, self)
          else
            '(common, self) ← fetcher_last_common_header peer best self;
            match common with
            | None => Ok (None, self)
            | Some common =>
                if decide (h_hash common = hv_hash best) then Ok (None, self)
                else fetch_window peer best common self
            end
    end.

Definition fetch_from (st : SyncState * list NetAction) (peer : PeerIndex) : outcome E (SyncState * list NetAction) :=
  let '(self, actions) := st in
  '(fetch, self) ← BlockFetcher_fetch peer self;
  Ok (self, actions ++ match fetch with
                       | Some ((_ :: _) as fetch) => [SendSync peer (build_get_blocks fetch)]
                       | _ => []
                       end).

(** [order] is the order in which the map of the peers is walked. *)
Definition find_blocks_to_fetch (order : list PeerIndex) (self : SyncState) : outcome E (SyncState * list NetAction) :=
  let peers := filter (fun peer => from_option sync_started false (ss_peers self !! peer)) order in
  inflight ← prune now (ss_inflight_blocks self);
  try_fold fetch_from (self {{ ss_inflight_blocks := inflight }}, []) peers.

(** ** The peers *)

(** [outbound] is [None] when the network does not know the peer. *)
Definition sync_on_connected (outbound : option bool) (peer : PeerIndex) (self : SyncState) : SyncState :=
  let is_outbound := default false outbound in
  let protect_outbound := is_outbound && bool_decide (ss_n_protected_outbound_peers self < MAX_OUTBOUND_PEERS_TO_PROTECT_FROM_DISCONNECT) in
  let self := if protect_outbound then self {{ ss_n_protected_outbound_peers ::= fetch_add }} else self in
  self {{ ss_peers ::= Peers_on_connected peer None protect_outbound is_outbound }}.

Definition sync_disconnected (peer : PeerIndex) (self : SyncState) : outcome E SyncState :=
  let '(state, self) := ss_disconnected peer self in
  match state with
  | Some peer_state =>
      if sync_started peer_state then
        let n := ss_n_sync_started self in
        let self := self {{ ss_n_sync_started := fetch_sub n }} in
        if decide (n = 0) then Panic else Ok self
      else Ok self
  | None => Ok self
  end.

Definition set_chain_sync (chain_sync : ChainSyncState) (peer : PeerIndex) (self : SyncState) : SyncState :=
  self {{ ss_peers ::= alter (fun state => with_sync (sync_started state) (headers_sync_timeout state) chain_sync state) peer }}.

(** The supervision of an outbound peer; the result says whether it is evicted. *)
Definition check_outbound (peer : PeerIndex) (state : PeerState) (self : SyncState) : outcome E (bool * SyncState * list NetAction) :=
  let local_total_difficulty := chain_total_difficulty (ss_chain self) in
  let best := hv_total_difficulty <$> best_known_header state in
  let cs := chain_sync state in
  if match best with Some d => bool_decide (local_total_difficulty <= d) | None => false end then
    Ok (false, (if decide (cs_timeout cs ≠ 0)
                then set_chain_sync (mkChainSync 0 None None false (cs_not_sync_until cs) (cs_protect cs)) peer self else self), [])
  else if bool_decide (cs_timeout cs = 0) ||
          match best, cs_total_difficulty cs with
          | Some d, Some d' => bool_decide (d' <= d)
          | Some _, None => true
          | None, _ => false
          end then
    timeout ← now +64 CHAIN_SYNC_TIMEOUT;
    Ok (false, set_chain_sync (mkChainSync timeout (Some (tip_header (ss_chain self))) (Some local_total_difficulty) false
                                 (cs_not_sync_until cs) (cs_protect cs)) peer self, [])
  else if bool_decide (0 < cs_timeout cs) && bool_decide (cs_timeout cs < now) then
    if cs_sent_getheaders cs then
      if cs_protect cs then
        if sync_started state then
          until ← now +64 PROTECT_STOP_SYNC_TIME;
          Ok (false, self {{ ss_peers ::= alter (stop_sync until) peer; ss_n_sync_started ::= fetch_sub }}, [])
        else Ok (false, self, [])
      else Ok (true, self {{ ss_peers ::= alter (with_disconnect true) peer }}, [])
    else
      timeout ← now +64 EVICTION_HEADERS_RESPONSE_TIME;
      work_header ← expect (cs_work_header cs);
      let cs := mkChainSync timeout (cs_work_header cs) (cs_total_difficulty cs) true (cs_not_sync_until cs) (cs_protect cs) in
      '(self, actions) ← send_getheaders_to_peer instant peer work_header (set_chain_sync cs peer self);
      Ok (false, self, actions)
  else Ok (false, self, []).

(** One round of the loop: the state, the actions, and the peers to evict. *)
Definition supervise (st : SyncState * list NetAction * list PeerIndex) (peer : PeerIndex)
    : outcome E (SyncState * list NetAction * list PeerIndex) :=
  let '(self, actions, eviction) := st in
  match ss_peers self !! peer with
  | None => Ok st
  | Some state =>
      if match headers_sync_timeout state with
         | Some timeout => bool_decide (timeout < now) && is_initial_block_download now self && negb (ps_disconnect state)
         | None => false
         end
      then Ok (self {{ ss_peers ::= alter (with_disconnect true) peer }}, actions, eviction ++ [peer])
      else if is_outbound state then
        '(evict, self, sent) ← check_outbound peer state self;
        Ok (self, actions ++ sent, if evict : bool then eviction ++ [peer] else eviction)
      else Ok st
  end.

Definition eviction (order : list PeerIndex) (self : SyncState) : outcome E (SyncState * list NetAction) :=
  '(self, actions, evicted) ← try_fold supervise (self, [], []) order;
  Ok (self, actions ++ (NetDisconnect <$> evicted)).

Definition predict_headers_sync_time (header : Header) : outcome E Z :=
  let expected_headers := Z.min MAX_HEADERS_LEN (saturating_sub now (h_timestamp header) / POW_SPACE) in
  base ← now +64 HEADERS_DOWNLOAD_TIMEOUT_BASE;
  base +64 (HEADERS_DOWNLOAD_TIMEOUT_PER_HEADER * expected_headers).

Definition sync_tip (self : SyncState) : Header :=
  let chain_state := ss_chain self in
  let best_known := ss_shared_best_header self in
  if better_view (chain_total_difficulty chain_state) (tip_hash chain_state) best_known
  then tip_header chain_state else hv_inner best_known.

Fixpoint start_sync_loop (tip : Header) (peers : list PeerIndex) (self : SyncState) : outcome E (SyncState * list NetAction) :=
  match peers with
  | [] => Ok (self, [])
  | peer :: peers =>
      if is_initial_block_download now self && bool_decide (ss_n_sync_started self ≠ 0) then Ok (self, [])
      else
        self ← match ss_peers self !! peer with
               | Some peer_state =>
                   if negb (sync_started peer_state) then
                     headers_sync_timeout ← predict_headers_sync_time tip;
                     Ok (self {{ ss_peers ::= alter (start_sync headers_sync_timeout) peer; ss_n_sync_started ::= fetch_add }})
                   else Ok self
               | None => Ok self
               end;
        '(self, sent) ← send_getheaders_to_peer instant peer tip self;
        '(self, actions) ← start_sync_loop tip peers self;
        Ok (self, sent ++ actions)
  end.

Definition start_sync_headers (order : list PeerIndex) (self : SyncState) : outcome E (SyncState * list NetAction) :=
  let peers := filter (fun peer => from_option (fun state => can_sync state now) false (ss_peers self !! peer)) order in
  start_sync_loop (sync_tip self) peers self.

(** ** The handlers of the protocol *)
Definition sync_try_process (peer : PeerIndex) (message : FbsSyncMessage) (self : Synchronizer)
    : outcome E (Synchronizer * list NetAction * (ConvertError + unit)) :=
  let on_shared (r : outcome E handled) :=
    '(shared, actions, r) ← r; Ok (mkSynchronizer shared (sy_orphans self), actions, r) in
  match message with
  | FbsGetHeaders _ hashes => on_shared (GetHeadersProcess_execute hashes peer (sy_shared self))
  | FbsHeaders headers => on_shared (HeadersProcess_execute headers peer (sy_shared self))
  | FbsGetBlocks hashes => on_shared (GetBlocksProcess_execute hashes peer (sy_shared self))
  | FbsSyncBlock block => BlockProcess_execute block peer self
  | FbsSyncOther => Ok (self, [], inl Malformed)
  end.

(** [None] is a message that is no table of the format. *)
Definition sync_received (peer : PeerIndex) (message : option FbsSyncMessage) (self : Synchronizer) : outcome E (Synchronizer * list NetAction) :=
  match message with
  | None => Ok (self, [BanPeer peer BAD_MESSAGE_BAN_TIME])
  | Some message =>
      '(self, actions, result) ← sync_try_process peer message self;
      Ok (self, actions ++ match result with inl _ => [BanPeer peer BAD_MESSAGE_BAN_TIME] | inr _ => [] end)
  end.

Definition sync_notify (token : Z) (order : list PeerIndex) (self : SyncState) : outcome E (SyncState * list NetAction) :=
  if decide (ss_peers self = ∅) then Ok (self, [])
  else if decide (token = SEND_GET_HEADERS_TOKEN) then start_sync_headers order self
  else if decide (token = IBD_BLOCK_FETCH_TOKEN) then
    if is_initial_block_download now self then find_blocks_to_fetch order self else Ok (self, [])
  else if decide (token = NOT_IBD_BLOCK_FETCH_TOKEN) then
    if negb (is_initial_block_download now self) then find_blocks_to_fetch order self else Ok (self, [])
  else if decide (token = TIMEOUT_EVICTION_TOKEN) then eviction order self
  else Ok (self, []).

(** The calls of the network. *)
Definition sync_handle (event : SyncEvent) (self : Synchronizer) : outcome E (Synchronizer * list NetAction) :=
  match event with
  | EvConnected peer outbound => Ok (mkSynchronizer (sync_on_connected outbound peer (sy_shared self)) (sy_orphans self), [])
  | EvDisconnected peer =>
      shared ← sync_disconnected peer (sy_shared self); Ok (mkSynchronizer shared (sy_orphans self), [])
  | EvReceived peer message => sync_received peer message self
  | EvNotify token order =>
      '(shared, actions) ← sync_notify token order (sy_shared self);
      Ok (mkSynchronizer shared (sy_orphans self), actions)
  end.
End synchronizer.
