(* ===== verification/Relayer.v ===== *)
(** * The relayer

    [sync/src/relayer]: compact blocks, the transactions that are missing in
    them, proposals and single transactions.  What [future_task] defers is a
    list of tasks, each run in phases with anything in between.  The peers that
    the network has connected and the random nonce of an announcement are
    arguments. *)
From stdpp Require Import sorting.
From coqutil Require Import Datatypes.RecordSetters.
From S2P Require Import Prelude Capacity ByteStrings Transactions Blocks Protocol CellSet Cells Epochs ChainStore VerifyErrors MedianTime HeaderVerify LinkedMap ProposedPool TxPool Compact OrphanPool SyncHeaders SyncPeers ChainPool ChainService TxExecutor SyncState Synchronizer.

Definition TX_PROPOSAL_TOKEN : Z := 0.
Definition ASK_FOR_TXS_TOKEN : Z := 1.
Definition MAX_RELAY_PEERS : nat := 128.
Definition DEFAULT_BAN_TIME : Z := 3600 * 24 * 3.

Inductive RelayError := RelayConvert (e : ConvertError) | RelayCompact (e : CompactBlockError).

(** ** Deferred work *)
Inductive TaskPhase :=
| PhaseResolve (txs : list Transaction)
| PhaseVerify (p : Prepared)
| PhaseAdd (p : Prepared) (verified : list (H256 * (PoolError + ResolvedTransaction * Z))).

(** A relayed transaction comes with the peer, its hash and its cycles; the
    transactions of proposals come without. *)
Record RelayTask := mkTask { tk_origin : option (PeerIndex * H256 * Z); tk_phase : TaskPhase }.

Inductive RelayEvent :=
| RvReceived (peer : PeerIndex) (message : option FbsRelayMessage) (connected : list PeerIndex) (nonce : Z)
| RvNotify (token : Z) (ids : list Bytes) (order : list PeerIndex)
| RvTask (index : nat) (connected : list PeerIndex).

(** The header that a compact block waits with, or a stored one. *)
Definition compact_get_header (pending : gmap Z (CompactBlock * gset Z)) (store : StoreData) (hash : H256) : option Header :=
  match pending !! hash with
  | Some (compact_block, _) => Some (cb_header compact_block)
  | None => get_block_header store hash
  end.

(** [entry(..).or_insert_with(..)]: an announcement that waits already stays. *)
Definition pending_wait (peer : PeerIndex) (compact_block : CompactBlock) (pending : gmap Z (CompactBlock * gset Z))
    : gmap Z (CompactBlock * gset Z) :=
  let block_hash := h_hash (cb_header compact_block) in
  let '(compact_block, peers_set) := default (compact_block, ∅) (pending !! block_hash) in
  <[block_hash := (compact_block, {[peer]} ∪ peers_set)]> pending.

(** The walk from the announced block down to the main chain; [unreachable!]
    when a header is missing.  The headers that can be walked bound the fuel. *)
Fixpoint compact_get_block_hash {E} (fuel : nat) (pending : gmap Z (CompactBlock * gset Z)) (store : StoreData) (hash : H256) (block_number : Z)
    : outcome E (option H256) :=
  match fuel with
  | O => Panic
  | S fuel =>
      match compact_get_header pending store hash with
      | None => Panic
      | Some header =>
          if decide (h_number header = block_number) then Ok (Some (h_hash header))
          else
            main ← expect (get_block_hash store (h_number header));
            if decide (main = hash) then Ok (get_block_hash store block_number)
            else compact_get_block_hash fuel pending store (h_parent_hash header) block_number
      end
  end.

(** [get_block_hash] is no part of the verification of a header. *)
Definition CompactBlockMedianTimeView_context (consensus : Consensus) (pending : gmap Z (CompactBlock * gset Z)) (store : StoreData)
    (anchor_hash : H256) : BlockMedianTimeContext := {|
  median_block_count := median_time_block_count consensus;
  timestamp_and_parent := fun block_hash =>
    (fun header => (h_timestamp header, h_parent_hash header)) <$> compact_get_header pending store block_hash;
  median_get_block_hash := fun block_number =>
    match compact_get_block_hash (E := unit) (S (size pending + size (sd_blocks store))) pending store anchor_hash block_number with
    | Ok hash => hash
    | _ => None
    end
|}.

Section relayer.
Context {M L P Q : Type -> Type} `{LM : !LinkedHashMap Bytes M} `{LL : !LruCache Bytes L}.
Context `{LP : !LruCache H256 P} `{LQ : !LruCache (PeerIndex * H256) Q}.
Context {E : Type}.
Context (blake2b : Bytes -> H256) (siphash : Z -> Z -> Bytes -> Z) (serialize_raw : RawTransaction -> Bytes)
  (serialize_tx : RawTransaction -> list (list Bytes) -> Bytes) (serialize_header : RawHeader -> Seal -> Bytes)
  (serialize_uncles : list UncleBlock -> Bytes) (merkle_root : list H256 -> H256)
  (from_little_endian : Bytes -> option Z).
Context (pow : PowEngine) (process : @Shared M L -> Block -> outcome E (@Shared M L * (ChainError + list Block))).
Context (script_verify : ResolvedTransaction -> Z -> outcome ScriptError Z) (cache_insert : gmap Z Z -> Z -> Z -> gmap Z Z).
Context (now instant : Z).
#[local] Abbreviation SyncState := (SyncSharedState M L P Q).

Record Relayer := mkRelayer { re_shared : SyncState; re_tasks : list RelayTask }.

Abbreviation relayed := (SyncState * list NetAction * (RelayError + unit))%type (only parsing).
Definition quiet (self : SyncState) : outcome E relayed := Ok (self, [], inr tt).

Definition relay_pool (self : SyncState) : TxPool M L := sh_pool (ss_shared self).

(** [filter(..).take(n)]: a peer is marked when it is looked at. *)
Fixpoint select_peers (n : nat) (peer : PeerIndex) (hash : H256) (connected : list PeerIndex) (known : gmap Z (P unit))
    : list PeerIndex * gmap Z (P unit) :=
  match connected, n with
  | target_peer :: connected, S n' =>
      let '(new, known) := known_insert target_peer hash known in
      if new && bool_decide (peer ≠ target_peer) then
        let '(selected, known) := select_peers n' peer hash connected known in (target_peer :: selected, known)
      else select_peers n peer hash connected known
  | _, _ => ([], known)
  end.

(** ** Blocks *)
Definition request_proposal_txs (peer : PeerIndex) (block : CompactBlock) (self : SyncState) : SyncState * list NetAction :=
  let proposals := cb_proposals block ++ concat (uncle_proposals <$> cb_uncles block) in
  let fresh_proposals := filter (fun id => contains_proposal_id (ss_chain self) id = false) proposals in
  let '(first, self) := insert_inflight_proposals fresh_proposals self in
  let to_ask_proposals := omap (fun '(firstly_in, id) => if firstly_in : bool then Some id else None) (zip first fresh_proposals) in
  (self, match to_ask_proposals with
         | [] => []
         | _ => [SendRelay peer (build_get_block_proposal (h_number (cb_header block)) to_ask_proposals)]
         end).

Definition relayer_accept_block (connected : list PeerIndex) (nonce : Z) (peer : PeerIndex) (block : Block) (self : SyncState)
    : outcome E (SyncState * list NetAction) :=
  '(shared, ret) ← process (ss_shared self) block;
  let self := self {{ ss_shared := shared }} in
  match ret with
  | inl _ => Ok (self, [])
  | inr _ =>
      let block_hash := b_hash block in
      let self := ss_remove_header_view block_hash self in
      let message := build_compact_block blake2b siphash block ∅ nonce in
      let '(selected_peers, known_blocks) := select_peers MAX_RELAY_PEERS peer block_hash connected (ss_known_blocks self) in
      Ok (self {{ ss_known_blocks := known_blocks }}, [BroadcastRelay selected_peers message])
  end.

#[local] Abbreviation reconstruct := (reconstruct_block (M := M) (L := L) (E := E) blake2b siphash serialize_header serialize_uncles merkle_root).

(** The end of [execute]: the block is known to be new and its header valid. *)
Definition compact_block_new (connected : list PeerIndex) (nonce : Z) (compact_block : CompactBlock) (peer : PeerIndex) (self : SyncState)
    : outcome E relayed :=
  let block_hash := h_hash (cb_header compact_block) in
  let '(self, asked) := request_proposal_txs peer compact_block self in
  ret ← reconstruct (relay_pool self) compact_block [];
  match ret with
  | inr block =>
      let self := self {{ ss_pending_compact_blocks ::= delete block_hash }} in
      '(self, actions) ← relayer_accept_block connected nonce peer block self;
      Ok (self, asked ++ actions, inr tt)
  | inl missing_indexes =>
      let self := self {{ ss_pending_compact_blocks ::= pending_wait peer compact_block }} in
      match missing_indexes with
      | [] => Ok (self, asked, inr tt)
      | _ =>
          let '(first, inflight) := inflight_insert now peer block_hash (ss_inflight_blocks self) in
          let self := self {{ ss_inflight_blocks := inflight }} in
          Ok (self, asked ++
            (if first : bool
             then [SendRelay peer (build_get_block_transactions block_hash ((fun i => cast U32_SIZE (Z.of_nat i)) <$> missing_indexes))]
             else []), inr tt)
      end
  end.

Definition compact_block_verify (compact_block : CompactBlock) (self : SyncState) : outcome E (VerifyError + unit) :=
  let header := cb_header compact_block in
  resolver ← HeaderResolverWrapper_new (ss_consensus self) (ss_store self) header;
  catch (HeaderVerifier_verify pow
    (CompactBlockMedianTimeView_context (ss_consensus self) (ss_pending_compact_blocks self) (ss_store self) (h_hash header)) now resolver).

Definition CompactBlockProcess_execute (connected : list PeerIndex) (nonce : Z) (message : FbsCompactBlock) (peer : PeerIndex) (self : SyncState)
    : outcome E relayed :=
  converted ← catch (compact_block_try_from blake2b serialize_raw serialize_tx serialize_header from_little_endian message);
  match converted with
  | inl e => Ok (self, [], inl (RelayConvert e))
  | inr compact_block =>
      let header := cb_header compact_block in
      let block_hash := h_hash header in
      match get_header_view (ss_index self) (h_parent_hash header) with
      | None =>
          '(self, actions) ← send_getheaders_to_peer instant peer (tip_header (ss_chain self)) self;
          Ok (self, actions, inr tt)
      | Some parent =>
          current_total_difficulty ← add_w U256_SIZE (hv_total_difficulty parent) (h_difficulty header);
          if decide (current_total_difficulty <= hv_total_difficulty (ss_shared_best_header self)) then quiet self
          else if match inflight_state_by_block (ss_inflight_blocks self) block_hash with
                  | Some flight => bool_decide (peer ∈ if_peers flight)
                  | None => false
                  end then quiet self
          else if match ss_pending_compact_blocks self !! block_hash with
                  | Some (_, peers_set) => bool_decide (peer ∈ peers_set)
                  | None => false
                  end || bool_decide (is_Some (get_block (ss_store self) block_hash)) then quiet self
          else
            verified ← compact_block_verify compact_block self;
            match verified with
            | inl _ => quiet self
            | inr _ =>
                checked ← catch (CompactBlockVerifier_verify blake2b siphash compact_block);
                match checked with
                | inl e => Ok (self, [], inl (RelayCompact e))
                | inr _ => compact_block_new connected nonce compact_block peer self
                end
            end
      end
  end.

(** The peer is no longer waited for, also when its transactions are no table. *)
Definition BlockTransactionsProcess_execute (connected : list PeerIndex) (nonce : Z) (block_hash : option FbsH256)
    (transactions : option (list FbsTransaction)) (peer : PeerIndex) (self : SyncState) : outcome E relayed :=
  converted ← catch (block_hash ← fbs_cast block_hash; h256_try_from block_hash);
  match converted with
  | inl e => Ok (self, [], inl (RelayConvert e))
  | inr block_hash =>
      match ss_pending_compact_blocks self !! block_hash with
      | None => quiet self
      | Some (compact_block, peers_set) =>
          if decide (peer ∈ peers_set) then
            let self := self {{ ss_pending_compact_blocks ::= insert block_hash (compact_block, peers_set ∖ {[peer]}) }} in
            converted ← catch (transactions ← fbs_cast transactions; try_map (transaction_try_from blake2b serialize_raw serialize_tx) transactions);
            match converted with
            | inl e => Ok (self, [], inl (RelayConvert e))
            | inr transactions =>
                ret ← reconstruct (relay_pool self) compact_block transactions;
                match ret with
                | inr block =>
                    '(self, actions) ← relayer_accept_block connected nonce peer block (self {{ ss_pending_compact_blocks ::= delete block_hash }});
                    Ok (self, actions, inr tt)
                | inl _ => quiet self
                end
            end
          else quiet self
      end
  end.

Definition GetBlockTransactionsProcess_execute (block_hash : option FbsH256) (indexes : option (list Z)) (peer : PeerIndex) (self : SyncState)
    : outcome E relayed :=
  converted ← catch (block_hash ← fbs_cast block_hash; block_hash ← h256_try_from block_hash; indexes ← fbs_cast indexes; Ok (block_hash, indexes));
  match converted with
  | inl e => Ok (self, [], inl (RelayConvert e))
  | inr (block_hash, indexes) =>
      Ok (self, match get_block (ss_store self) block_hash with
                | Some block => [SendRelay peer (build_block_transactions block_hash (transactions_at block indexes))]
                | None => []
                end, inr tt)
  end.

(** ** Proposals *)
Definition GetBlockProposalProcess_execute (proposals : option (list FbsProposalShortId)) (peer : PeerIndex) (self : SyncState) : outcome E relayed :=
  converted ← catch (proposals ← fbs_cast proposals; try_map short_id_try_from proposals);
  match converted with
  | inl e => Ok (self, [], inl (RelayConvert e))
  | inr proposals =>
      let found := fun short_id => get_tx (relay_pool self) short_id in
      let fresh_proposals := filter (fun short_id => found short_id = None) proposals in
      let transactions := omap found proposals in
      Ok (insert_get_block_proposals peer fresh_proposals self, [SendRelay peer (build_block_proposal transactions)], inr tt)
  end.

Definition mark_asked (st : SyncState * list Transaction) (p : bool * Transaction) : SyncState * list Transaction :=
  let '(self, asked_txs) := st in
  if p.1 then (mark_as_known_tx (tx_hash p.2) self, asked_txs ++ [p.2]) else st.

(** The task is started also when no transaction was asked for. *)
Definition BlockProposalProcess_execute (transactions : option (list FbsTransaction)) (self : SyncState)
    : outcome E (SyncState * list RelayTask * (RelayError + unit)) :=
  converted ← catch (transactions ← fbs_cast transactions; try_map (transaction_try_from blake2b serialize_raw serialize_tx) transactions);
  match converted with
  | inl e => Ok (self, [], inl (RelayConvert e))
  | inr txs =>
      let unknown_txs := filter (fun tx => already_known_tx self (tx_hash tx) = false) txs in
      match unknown_txs with
      | [] => Ok (self, [], inr tt)
      | _ =>
          let proposals := proposal_short_id <$> unknown_txs in
          let '(removes, self) := remove_inflight_proposals proposals self in
          let '(self, asked_txs) := foldl mark_asked (self, []) (zip removes unknown_txs) in
          Ok (self, [mkTask None (PhaseResolve asked_txs)], inr tt)
      end
  end.

(** The transactions of the pool for each peer that asked, in the order [ids]. *)
Definition proposal_answers (tx_pool : TxPool M L) (requests : gmap Bytes (gset Z)) (ids : list Bytes) (peer : PeerIndex) : list Transaction :=
  omap (fun id => peers ← requests !! id; if decide (peer ∈ peers) then get_tx tx_pool id else None) ids.

Definition prune_tx_proposal_request (ids : list Bytes) (order : list PeerIndex) (self : SyncState) : SyncState * list NetAction :=
  let '(get_block_proposals, self) := clear_get_block_proposals self in
  (self, omap (fun peer =>
    match proposal_answers (relay_pool self) get_block_proposals ids peer with
    | [] => None
    | txs => Some (SendRelay peer (build_block_proposal txs))
    end) order).

(** ** Transactions *)
Definition GetTransactionProcess_execute (hash : option FbsH256) (peer : PeerIndex) (self : SyncState) : outcome E relayed :=
  converted ← catch (hash_message_try_from hash);
  match converted with
  | inl e => Ok (self, [], inl (RelayConvert e))
  | inr tx_hash =>
      let entry_opt := '(tx, cycles) ← get_tx_with_cycles (relay_pool self) (from_tx_hash tx_hash); cycles ← cycles; Some (tx, cycles) in
      Ok (self, match entry_opt with Some (tx, cycles) => [SendRelay peer (build_transaction tx cycles)] | None => [] end, inr tt)
  end.

Definition TransactionHashProcess_execute (hash : option FbsH256) (peer : PeerIndex) (self : SyncState) : outcome E relayed :=
  converted ← catch (hash_message_try_from hash);
  match converted with
  | inl e => Ok (self, [], inl (RelayConvert e))
  | inr tx_hash =>
      if already_known_tx self tx_hash then quiet self
      else if bool_decide (is_Some (get_tx_with_cycles (relay_pool self) (from_tx_hash tx_hash))) then quiet (mark_as_known_tx tx_hash self)
      else
        let last_ask_timeout := lru_get tx_hash (ss_inflight_transactions self) in
        let self := self {{ ss_inflight_transactions ::= lru_refresh tx_hash }} in
        match ss_peers self !! peer with
        | None => quiet self
        | Some peer_state =>
            let '(next_ask_timeout, peer_state) := add_ask_for_tx instant tx_hash last_ask_timeout peer_state in
            let self := self {{ ss_peers ::= insert peer peer_state }} in
            quiet (match next_ask_timeout with
                   | Some next => self {{ ss_inflight_transactions ::= lru_insert tx_hash next }}
                   | None => self
                   end)
        end
  end.

Definition TransactionProcess_execute (message : FbsRelayTransaction) (peer : PeerIndex) (self : SyncState)
    : outcome E (SyncState * list RelayTask * (RelayError + unit)) :=
  converted ← catch (relay_transaction_try_from blake2b serialize_raw serialize_tx message);
  match converted with
  | inl e => Ok (self, [], inl (RelayConvert e))
  | inr (tx, relay_cycles) =>
      if already_known_tx self (tx_hash tx) then Ok (self, [], inr tt)
      else
        let self := mark_as_known_tx (tx_hash tx) self in
        let self := self {{ ss_peers ::= alter (remove_ask_for_tx (tx_hash tx)) peer }} in
        Ok (self, [mkTask (Some (peer, tx_hash tx, relay_cycles)) (PhaseResolve [tx])], inr tt)
  end.

(** What the task of a relayed transaction does with the result. *)
Definition finish_task (connected : list PeerIndex) (origin : option (PeerIndex * H256 * Z)) (r : PoolError + list Z) (self : SyncState)
    : outcome E (SyncState * list NetAction) :=
  match origin with
  | None => Ok (self, [])
  | Some (peer, hash, relay_cycles) =>
      match r with
      | inr cycles_vec =>
          cycles ← expect (head cycles_vec);
          if decide (cycles = relay_cycles) then
            let '(selected_peers, known_txs) := select_peers MAX_RELAY_PEERS peer hash connected (ss_known_txs self) in
            Ok (self {{ ss_known_txs := known_txs }}, [BroadcastRelay selected_peers (build_transaction_hash hash)])
          else Ok (self, [BanPeer peer DEFAULT_BAN_TIME])
      | inl err => Ok (self, if pool_is_bad_tx err then [BanPeer peer DEFAULT_BAN_TIME] else [])
      end
  end.

(** One phase of a task, and the task that is left. *)
Definition run_task (connected : list PeerIndex) (task : RelayTask) (self : SyncState)
    : outcome E (SyncState * list NetAction * option RelayTask) :=
  match tk_phase task with
  | PhaseResolve txs =>
      resolved ← executor_resolve txs (ss_shared self);
      match resolved with
      | inl r => '(self, actions) ← finish_task connected (tk_origin task) r self; Ok (self, actions, None)
      | inr p => Ok (self, [], Some (mkTask (tk_origin task) (PhaseVerify p)))
      end
  | PhaseVerify p =>
      verified ← executor_verify script_verify (ss_store self) p;
      Ok (self, [], Some (mkTask (tk_origin task) (PhaseAdd p verified)))
  | PhaseAdd p verified =>
      '(shared, r) ← executor_add script_verify now cache_insert p verified (ss_shared self);
      '(self, actions) ← finish_task connected (tk_origin task) r (self {{ ss_shared := shared }});
      Ok (self, actions, None)
  end.

(** One peer of [ask_for_txs]: what is due and not known is asked for, what is
    known is no longer waited for. *)
Definition ask_peer (self : SyncState) (peer : PeerIndex) : SyncState * list NetAction :=
  match ss_peers self !! peer with
  | None => (self, [])
  | Some peer_state =>
      let '(tx_hashes, peer_state) := pop_ask_for_txs instant peer_state in
      let peer_state := foldl (fun state hash => if already_known_tx self hash then remove_ask_for_tx hash state else state) peer_state tx_hashes in
      let tx_hashes := filter (fun hash => already_known_tx self hash = false) tx_hashes in
      (self {{ ss_peers ::= insert peer peer_state }}, (fun hash => SendRelay peer (build_get_transaction hash)) <$> tx_hashes)
  end.

Definition ask_for_txs (order : list PeerIndex) (self : SyncState) : SyncState * list NetAction :=
  foldl (fun '(self, actions) peer => let '(self, sent) := ask_peer self peer in (self, actions ++ sent)) (self, []) order.

(** ** The handlers of the protocol *)
Definition relay_try_process (connected : list PeerIndex) (nonce : Z) (peer : PeerIndex) (message : FbsRelayMessage) (self : Relayer)
    : outcome E (Relayer * list NetAction * (RelayError + unit)) :=
  let on_shared (r : outcome E relayed) :=
    '(shared, actions, r) ← r; Ok (mkRelayer shared (re_tasks self), actions, r) in
  let with_task (r : outcome E (SyncState * list RelayTask * (RelayError + unit))) :=
    '(shared, tasks, r) ← r; Ok (mkRelayer shared (re_tasks self ++ tasks), [], r) in
  match message with
  | FbsRelayCompactBlock block => on_shared (CompactBlockProcess_execute connected nonce block peer (re_shared self))
  | FbsRelayTx tx => with_task (TransactionProcess_execute tx peer (re_shared self))
  | FbsRelayTransactionHash hash => on_shared (TransactionHashProcess_execute hash peer (re_shared self))
  | FbsGetRelayTransaction hash => on_shared (GetTransactionProcess_execute hash peer (re_shared self))
  | FbsGetBlockTransactions block_hash indexes => on_shared (GetBlockTransactionsProcess_execute block_hash indexes peer (re_shared self))
  | FbsBlockTransactions block_hash txs => on_shared (BlockTransactionsProcess_execute connected nonce block_hash txs peer (re_shared self))
  | FbsGetBlockProposal _ proposals => on_shared (GetBlockProposalProcess_execute proposals peer (re_shared self))
  | FbsBlockProposal txs => with_task (BlockProposalProcess_execute txs (re_shared self))
  | FbsRelayNone => Ok (self, [], inl (RelayConvert Malformed))
  end.

Definition relay_received (connected : list PeerIndex) (nonce : Z) (peer : PeerIndex) (message : option FbsRelayMessage) (self : Relayer)
    : outcome E (Relayer * list NetAction) :=
  if is_initial_block_download now (re_shared self) then Ok (self, [])
  else
    match message with
    | None => Ok (self, [BanPeer peer BAD_MESSAGE_BAN_TIME])
    | Some message =>
        '(self, actions, result) ← relay_try_process connected nonce peer message self;
        Ok (self, actions ++ match result with inl _ => [BanPeer peer BAD_MESSAGE_BAN_TIME] | inr _ => [] end)
    end.

Definition relay_notify (token : Z) (ids : list Bytes) (order : list PeerIndex) (self : SyncState) : outcome E (SyncState * list NetAction) :=
  if is_initial_block_download now self then Ok (self, [])
  else if decide (token = TX_PROPOSAL_TOKEN) then Ok (prune_tx_proposal_request ids order self)
  else if decide (token = ASK_FOR_TXS_TOKEN) then Ok (ask_for_txs order self)
  else Panic.

Definition relay_handle (event : RelayEvent) (self : Relayer) : outcome E (Relayer * list NetAction) :=
  match event with
  | RvReceived peer message connected nonce => relay_received connected nonce peer message self
  | RvNotify token ids order =>
      '(shared, actions) ← relay_notify token ids order (re_shared self); Ok (mkRelayer shared (re_tasks self), actions)
  | RvTask index connected =>
      match re_tasks self !! index with
      | None => Ok (self, [])
      | Some task =>
          '(shared, actions, remaining) ← run_task connected task (re_shared self);
          Ok (mkRelayer shared (match remaining with
                                | Some task => <[index := task]> (re_tasks self)
                                | None => delete index (re_tasks self)
                                end), actions)
      end
  end.
End relayer.
