(* ===== verification/ChainInvariant.v ===== *)
(** * The main chain has the most work

    The invariant of the chain service.  Every block the store holds has its
    ancestors and its extra data; the index lists the ancestors of the tip; the
    total difficulty of a block is the work of its chain, and no stored block
    has more work than the tip. *)
From S2P Require Import Prelude Capacity ByteStrings Transactions Blocks Fixtures CellSet Cells Epochs ChainStore Fork VerifyErrors ProposalTable MedianTime HeaderVerify BlockVerify LinkedMap ProposedPool TxPool ChainPool ChainService.

(** The sum of the difficulties from the genesis block to a block. *)
Inductive work (s : StoreData) : H256 -> Z -> Prop :=
| work_genesis h b :
    sd_blocks s !! h = Some b -> b_number b = 0 -> work s h (h_difficulty (b_header b))
| work_step h b w :
    sd_blocks s !! h = Some b -> 0 < b_number b -> work s (b_parent b) w ->
    work s h (w + h_difficulty (b_header b)).

(** The blocks and their extra data. *)
Record stored (s : StoreData) : Prop := {
  st_blocks : blocks_ok s;
  st_ext : forall h b, sd_blocks s !! h = Some b -> is_Some (sd_ext s !! h);
  st_parent : forall h b, sd_blocks s !! h = Some b -> 0 < b_number b ->
    exists p, sd_blocks s !! b_parent b = Some p /\ b_number b = b_number p + 1;
  st_genesis : forall h b, sd_blocks s !! h = Some b -> b_number b = 0 -> sd_hash_of s !! 0 = Some h;
  st_work : forall h b ext, sd_blocks s !! h = Some b -> sd_ext s !! h = Some ext -> work s h (total_difficulty ext);
  st_valid : forall h b ext, sd_blocks s !! h = Some b -> sd_ext s !! h = Some ext -> verified ext <> Some false;
  st_verified : forall h b ext, sd_blocks s !! h = Some b -> 0 < b_number b -> sd_ext s !! h = Some ext ->
    verified ext = Some true -> exists pext, sd_ext s !! b_parent b = Some pext /\ verified pext = Some true
}.

(** [heavier]: more work, or the same work and a smaller hash. *)
Definition heavier (w1 : Z) (h1 : H256) (w2 : Z) (h2 : H256) : Prop := w2 < w1 \/ (w1 = w2 /\ h1 <= h2).

Record chain_ok (c : ChainState) : Prop := {
  co_stored : stored (ch_store c);
  co_main : is_main (ch_store c) (tip_number c);
  co_tip : exists b, sd_blocks (ch_store c) !! tip_hash c = Some b /\ b_header b = tip_header c;
  co_top : sd_hash_of (ch_store c) !! tip_number c = Some (tip_hash c);
  co_disk : sd_tip (ch_store c) = Some (tip_hash c);
  co_epoch : sd_current_epoch (ch_store c) = Some (ch_current_epoch_ext c);
  co_work : exists ext, sd_ext (ch_store c) !! tip_hash c = Some ext /\
    total_difficulty ext = chain_total_difficulty c /\ verified ext = Some true;
  co_heaviest : forall h b ext, sd_blocks (ch_store c) !! h = Some b -> sd_ext (ch_store c) !! h = Some ext ->
    heavier (chain_total_difficulty c) (tip_hash c) (total_difficulty ext) h;
  co_table : exists lo, 0 <= lo /\
    table_tracks (tx_proposal_window (ch_consensus c)) (ch_store c) (tip_number c) lo (ch_proposal_ids c);
  co_number : tip_number c < U64_SIZE - 1;
  co_first : sd_hash_of (ch_store c) !! 0 = Some (genesis_hash (ch_consensus c));
  co_window : 0 <= farthest (tx_proposal_window (ch_consensus c)) /\ 0 <= closest (tx_proposal_window (ch_consensus c))
}.

(** What the verification of the header has established: a new block on top of
    a stored one. *)
Record admissible (c : ChainState) (block : Block) : Prop := {
  am_new : sd_blocks (ch_store c) !! b_hash block = None;
  am_parent : exists p, sd_blocks (ch_store c) !! b_parent block = Some p /\ b_number block = b_number p + 1;
  am_number : b_number block < U64_SIZE - 1
}.

(** ** Stores that agree on blocks and index *)
Record same_index (s s' : StoreData) : Prop := {
  si_blocks : sd_blocks s' = sd_blocks s;
  si_hash_of : sd_hash_of s' = sd_hash_of s;
  si_number_of : sd_number_of s' = sd_number_of s
}.

Lemma is_main_same s s' tip : same_index s s' -> is_main s tip -> is_main s' tip.
Proof. intros [Hb Hh Hn] []. split; rewrite ?Hb, ?Hh, ?Hn; done. Qed.

Lemma main_block_same s s' n : same_index s s' -> main_block s' n = main_block s n.
Proof. intros [Hb Hh Hn]. unfold main_block. by rewrite Hb, Hh. Qed.

Lemma attach_block_same blake2b b s :
  sd_hash_of (attach_block blake2b b s) = <[b_number b := b_hash b]> (sd_hash_of s) /\
  sd_number_of (attach_block blake2b b s) = <[b_hash b := b_number b]> (sd_number_of s).
Proof. unfold attach_block. by destruct (fold_left _ _ _). Qed.

Lemma detach_block_same b s :
  sd_hash_of (detach_block b s) = delete (b_number b) (sd_hash_of s) /\
  sd_number_of (detach_block b s) = delete (b_hash b) (sd_number_of s).
Proof. unfold detach_block. by destruct (fold_left _ _ _). Qed.

(** What no change of the index touches. *)
Record same_rest (s s' : StoreData) : Prop := {
  sr_blocks : sd_blocks s' = sd_blocks s;
  sr_ext : sd_ext s' = sd_ext s;
  sr_epoch : sd_current_epoch s' = sd_current_epoch s
}.

Lemma attach_block_rest blake2b b s : same_rest s (attach_block blake2b b s).
Proof. unfold attach_block. by destruct (fold_left _ _ _). Qed.

Lemma detach_block_rest b s : same_rest s (detach_block b s).
Proof. unfold detach_block. by destruct (fold_left _ _ _). Qed.

Lemma fold_rest (f : StoreData -> Block -> StoreData) l s :
  (forall s b, same_rest s (f s b)) -> same_rest s (fold_left f l s).
Proof.
  intros Hf. revert s. induction l as [|b l IH]; intros s; [done|]. cbn.
  destruct (IH (f s b)), (Hf s b). split; congruence.
Qed.

Lemma update_index_rest blake2b det att s : same_rest s (update_index blake2b det att s).
Proof.
  unfold update_index. destruct (fold_rest (fun s b => detach_block b s) det s) as [H1 H2 H3];
    [intros; apply detach_block_rest|].
  destruct (fold_rest (fun s b => attach_block blake2b b s) att (fold_left (fun s b => detach_block b s) det s))
    as [H4 H5 H6]; [intros; apply attach_block_rest|].
  split; congruence.
Qed.

Lemma update_index_same blake2b det att s s' :
  same_index s s' -> same_index (update_index blake2b det att s) (update_index blake2b det att s').
Proof.
  assert (forall f l s s', (forall s s' b, same_index s s' -> same_index (f s b) (f s' b)) -> same_index s s' ->
    same_index (fold_left f l s) (fold_left (B := Block) f l s')) as Hfold.
  { intros f l. induction l as [|b l IH]; intros s1 s2 Hf H; [done|]. cbn. apply IH; eauto. }
  intros H. unfold update_index. apply Hfold; [|apply Hfold; [|done]].
  - intros s1 s2 b [Hb Hh Hn]. destruct (attach_block_same blake2b b s1) as [H1 H2].
    destruct (attach_block_same blake2b b s2) as [H3 H4].
    destruct (attach_block_rest blake2b b s1) as [H5 _ _], (attach_block_rest blake2b b s2) as [H6 _ _].
    split; congruence.
  - intros s1 s2 b [Hb Hh Hn]. destruct (detach_block_same b s1) as [H1 H2].
    destruct (detach_block_same b s2) as [H3 H4].
    destruct (detach_block_rest b s1) as [H5 _ _], (detach_block_rest b s2) as [H6 _ _].
    split; congruence.
Qed.

(** ** The path to the main chain *)
Lemma fork_path_exists s tip n h b :
  stored s -> is_main s tip -> sd_blocks s !! h = Some b -> b_number b = Z.of_nat n ->
  exists k path, fork_path s n h k path.
Proof.
  intros Hs Hm. revert h b. induction n as [|n IH]; intros h b Hb Hn.
  - exists 0%nat, []. constructor. by apply (st_genesis s Hs h b).
  - destruct (decide (sd_hash_of s !! Z.of_nat (S n) = Some h)) as [Hh|Hh].
    { exists (S n), []. by constructor. }
    destruct (st_parent s Hs h b Hb ltac:(lia)) as (p & Hp & Hpn).
    destruct (IH _ _ Hp ltac:(lia)) as (k & path & Hpath).
    exists k, (path ++ [b]). apply fork_path_step; try done. by apply (st_ext s Hs h b).
Qed.

Lemma fork_path_stored s n h k path b :
  blocks_ok s -> fork_path s n h k path -> b ∈ path -> sd_blocks s !! b_hash b = Some b.
Proof.
  intros Hok Hp Hb. induction Hp as [|n h b' k path Hne Hb' Hn Hext Hp IH]; [by apply not_elem_of_nil in Hb|].
  apply elem_of_app in Hb as [Hb|Hb%list_elem_of_singleton]; [by apply IH|]. subst b'.
  by destruct (Hok _ _ Hb') as [-> _].
Qed.

(** ** The unverified blocks of a branch *)
Definition is_verified (s : StoreData) (h : H256) : Prop :=
  exists e, sd_ext s !! h = Some e /\ verified e = Some true.

Lemma verified_path s n h k path :
  stored s -> fork_path s n h k path -> is_verified s h -> forall b, b ∈ path -> is_verified s (b_hash b).
Proof.
  intros Hs Hp. induction Hp as [|n h b k path Hne Hb Hn Hext Hp IH]; intros Hv b' Hb'; [by apply not_elem_of_nil in Hb'|].
  destruct (st_blocks s Hs _ _ Hb) as [Hh _].
  apply elem_of_app in Hb' as [Hb'|Hb'%list_elem_of_singleton]; [|by subst b' h].
  apply IH; [|done]. destruct Hv as (e & He & Hv). by apply (st_verified s Hs h b e); [|lia|..].
Qed.

(** The extra data [find_fork] collects are those of the blocks on top, and the
    blocks below are verified. *)
Lemma unverified_covers s n h k path :
  stored s -> fork_path s n h k path -> exists low top, path = low ++ top /\
    Forall2 (fun e b => sd_ext s !! b_hash b = Some e) (unverified_top s true (reverse path)) (reverse top) /\
    forall b, b ∈ low -> is_verified s (b_hash b).
Proof.
  intros Hs Hp. induction Hp as [|n h b k path Hne Hb Hn [e He] Hp IH].
  { exists [], []. split_and!; [done|constructor|]. by intros b ?%not_elem_of_nil. }
  destruct (st_blocks s Hs _ _ Hb) as [Hh _]. rewrite reverse_app. cbn. rewrite Hh, He.
  destruct (verified e) as [v|] eqn:Hv.
  - exists (path ++ [b]), []. rewrite app_nil_r. split_and!; [done|constructor|].
    assert (is_verified s h) as Hver.
    { exists e. pose proof (st_valid s Hs h b e Hb He). destruct v; [by split|congruence]. }
    by apply (verified_path s (S n) h k); [|apply fork_path_step; eauto|].
  - destruct IH as (low & top & -> & Hf & Hlow). exists low, (top ++ [b]). rewrite app_assoc.
    split_and!; [done| |done]. rewrite (reverse_app top). cbn. constructor; [by rewrite Hh|done].
Qed.

(** ** The verification of a branch *)
Section branch.
Context (blake2b : Bytes -> H256) (serialize_uncles : list UncleBlock -> Bytes).
Context (script_verify : ResolvedTransaction -> Z -> outcome ScriptError Z) (pow : PowEngine).
Context (diff_order : CellSetDiff -> DiffOrder) (cache_insert : gmap Z Z -> Z -> Z -> gmap Z Z).
Context {E : Type} (c : ChainState) (need_verify : bool).

#[local] Abbreviation attached := (verify_attached (E := E) blake2b serialize_uncles script_verify pow diff_order cache_insert c need_verify).
#[local] Abbreviation branch := (verify_branch (E := E) blake2b serialize_uncles script_verify pow diff_order cache_insert c need_verify).

Lemma verify_attached_verified st v b st' v' fees :
  attached st v b = Ok (st', (v', fees)) -> rc_error st' = None -> rc_error st = None /\ v' = Some true.
Proof.
  unfold verify_attached, end_round. destruct need_verify; [|intros [= <- <- <-]; done].
  destruct (rc_error st) eqn:He; [intros [= <- <- <-]; cbn; congruence|].
  destruct (BlockCellProvider_new b) as [ind| |]; cbn; [|intros [= <- <- <-]; done|done].
  destruct (resolve_transactions _ _ _ _) as [res| |]; cbn; [|intros [= <- <- <-]; done|done].
  destruct (ContextualBlockVerifier_verify _ _ _ _ _ _ _ _ _ _) as [[[cyc fs]| |] cache]; cbn;
    [intros [= <- <- <-]; done|intros [= <- <- <-]; done|done].
Qed.

Lemma verify_branch_verified l : forall st st' results,
  branch st l = Ok (st', results) -> rc_error st' = None ->
  rc_error st = None /\
  Forall2 (fun r x => r.2 = b_hash x.2 /\ total_difficulty r.1 = total_difficulty x.1 /\ verified r.1 = Some true)
    results l.
Proof.
  induction l as [|[ext b] l IH]; intros st st' results H Herr; cbn in H; [by injection H as <- <-|].
  destruct (attached st (verified ext) b) as [[st1 [v fees]]| |] eqn:H1; cbn in H; [|done|done].
  destruct (branch st1 l) as [[st2 rs]| |] eqn:H2; cbn in H; [|done|done]. injection H as <- <-.
  destruct (IH _ _ _ H2 Herr) as [Herr1 Hf]. destruct (verify_attached_verified _ _ _ _ _ _ H1 Herr1) as [? ->].
  split; [done|]. by constructor.
Qed.
End branch.

(** The extra data written by the batch. *)
Definition write_exts (s : StoreData) (l : list (BlockExt * H256)) : StoreData :=
  foldl (fun batch '(ext, hash) => insert_block_ext hash ext batch) s l.

Lemma write_exts_same s l :
  same_index s (write_exts s l) /\ sd_current_epoch (write_exts s l) = sd_current_epoch s.
Proof.
  revert s. induction l as [|[e h] l IH]; intros s; [done|]. cbn.
  destruct (IH (insert_block_ext h e s)) as [[H1 H2 H3] H4]. split; [split|]; done.
Qed.

Lemma write_exts_lookup s l h :
  (exists e, (e, h) ∈ l /\ sd_ext (write_exts s l) !! h = Some e) \/
  ((h ∉ l.*2) /\ sd_ext (write_exts s l) !! h = sd_ext s !! h).
Proof.
  revert s. induction l as [|[e1 h1] l IH]; intros s; [right; split; [apply not_elem_of_nil|done]|]. cbn.
  destruct (IH (insert_block_ext h1 e1 s)) as [(e & Hin & He)|[Hni He]].
  - left. exists e. split; [by right|done].
  - destruct (decide (h = h1)) as [->|Hne].
    + left. exists e1. split; [left|]. etransitivity; [exact He|]. apply lookup_insert_eq.
    + right. split; [by rewrite not_elem_of_cons|]. etransitivity; [exact He|]. by apply lookup_insert_ne.
Qed.

(** A successful reconciliation marks the new block and the unverified blocks
    of its branch as verified, with the total difficulty they had. *)
Section reconcile.
Context (blake2b : Bytes -> H256) (serialize_uncles : list UncleBlock -> Bytes).
Context (script_verify : ResolvedTransaction -> Z -> outcome ScriptError Z) (pow : PowEngine).
Context (diff_order : CellSetDiff -> DiffOrder) (cache_insert : gmap Z Z -> Z -> Z -> gmap Z Z).
Context {E : Type} (c : ChainState) (need_verify : bool).

Definition marked (s : StoreData) (r : BlockExt * H256) (b : Block) : Prop :=
  r.2 = b_hash b /\ verified r.1 = Some true /\
  exists e, sd_ext s !! b_hash b = Some e /\ total_difficulty r.1 = total_difficulty e.

Lemma reconcile_exts s n nb ext k path det batch cache cache' batch' diff :
  s = ch_store c -> stored s -> fork_path s n (b_parent nb) k path -> len path < U64_SIZE - 1 ->
  reconcile_main_chain (E := E) blake2b serialize_uncles script_verify pow diff_order cache_insert batch
    (mkFork (path ++ [nb]) det (reverse (unverified_top s true (reverse path)) ++ [ext])) c cache need_verify
    = Ok (cache', inr (batch', diff)) ->
  exists low top rs e, path = low ++ top /\ (forall b, b ∈ low -> is_verified s (b_hash b)) /\
    Forall2 (marked s) rs top /\ verified e = Some true /\ total_difficulty e = total_difficulty ext /\
    batch' = write_exts batch (rs ++ [(e, b_hash nb)]).
Proof.
  intros -> Hs Hp Hlen H.
  destruct (unverified_covers _ _ _ _ _ Hs Hp) as (low & top & -> & Hf & Hlow).
  set (U := reverse (unverified_top _ true _)) in *. apply Forall2_reverse in Hf. rewrite reverse_involutive in Hf.
  fold U in Hf. pose proof (Forall2_length _ _ _ Hf) as HU. unfold reconcile_main_chain, verified_len in H.
  cbn [attached_blocks dirty_exts] in H. rewrite !len_app in H. unfold len in *. rewrite length_app in Hlen. cbn [length] in H.
  rewrite sub_w_eq, bind_ret_l in H by lia.
  destruct (build_verify_context _ _) as [vc| |]; cbn in H; [|done|done].
  destruct (verify_branch _ _ _ _ _ _ _ _ _ _) as [[st results]| |] eqn:Hb; cbn in H; [|done|done].
  injection H as _ H. destruct (rc_error st) eqn:Herr; [done|]. injection H as <- _.
  destruct (verify_branch_verified _ _ _ _ _ _ _ _ _ _ _ _ Hb Herr) as [_ Hr]. clear Hb.
  replace (Z.to_nat _) with (length low) in Hr by lia. rewrite <- app_assoc, drop_app_length in Hr.
  rewrite zip_with_app in Hr by done. apply Forall2_app_inv_r in Hr as (rs & last & Hrs & Hlast & ->).
  apply Forall2_cons_inv_r in Hlast as ([e h] & rest & (Hh & He & Hv) & Hnil & ->).
  apply Forall2_nil_inv_r in Hnil as ->. cbn in Hh, He, Hv. subst h.
  exists low, top, rs, e. split_and!; try done. apply Forall2_same_length_lookup.
  assert (length rs = length top) as Hl.
  { apply Forall2_length in Hrs. rewrite Hrs. apply length_zip_with_r_eq. lia. }
  split; [done|]. intros i r b Hri Hbi.
  destruct (lookup_lt_is_Some_2 U i) as [e0 He0]; [apply lookup_lt_Some in Hbi; lia|].
  pose proof (Forall2_lookup_lr _ _ _ _ _ _ Hf He0 Hbi) as Hext.
  assert (zip U top !! i = Some (e0, b)) as Hz by (apply lookup_zip_with_Some; eauto).
  destruct (Forall2_lookup_lr _ _ _ _ _ _ Hrs Hri Hz) as (H1 & H2 & H3). cbn in *. repeat split; eauto.
Qed.
End reconcile.

(** ** A store that gains a block *)
Record grows (s s2 : StoreData) (nb : Block) (w : Z) : Prop := {
  gr_blocks : sd_blocks s2 = <[b_hash nb := nb]> (sd_blocks s);
  gr_genesis : sd_hash_of s2 !! 0 = sd_hash_of s !! 0;
  gr_new : exists e, sd_ext s2 !! b_hash nb = Some e /\ total_difficulty e = w /\ verified e <> Some false;
  gr_old : forall h e', h <> b_hash nb -> sd_ext s2 !! h = Some e' -> exists e, sd_ext s !! h = Some e /\
    total_difficulty e' = total_difficulty e /\ (verified e' = verified e \/ verified e' = Some true);
  gr_keep : forall h e, h <> b_hash nb -> sd_ext s !! h = Some e -> exists e', sd_ext s2 !! h = Some e' /\
    (verified e = Some true -> verified e' = Some true);
  gr_verified : forall h b e', sd_blocks s2 !! h = Some b -> 0 < b_number b -> sd_ext s2 !! h = Some e' ->
    verified e' = Some true -> is_verified s2 (b_parent b)
}.

Lemma work_grows s s2 h w :
  (forall h b, sd_blocks s !! h = Some b -> sd_blocks s2 !! h = Some b) -> work s h w -> work s2 h w.
Proof. intros Hsub. induction 1; [eapply work_genesis|eapply work_step]; eauto. Qed.

Lemma stored_grows s s2 nb p pext w :
  stored s -> grows s s2 nb w -> sd_blocks s !! b_hash nb = None ->
  sd_blocks s !! b_parent nb = Some p -> b_number nb = b_number p + 1 ->
  sd_ext s !! b_parent nb = Some pext -> w = total_difficulty pext + h_difficulty (b_header nb) ->
  stored s2.
Proof.
  intros [Hok Hext Hpar Hgen Hwork Hval Hver] [Gb Gg Gn Go Gk Gv] Hnew Hp Hnum Hpe ->.
  assert (forall h b, sd_blocks s !! h = Some b -> sd_blocks s2 !! h = Some b) as Hsub.
  { intros h b Hb. rewrite Gb, lookup_insert_ne; [done|]. intros <-. congruence. }
  assert (forall h b, sd_blocks s2 !! h = Some b -> (h = b_hash nb /\ b = nb) \/ (h <> b_hash nb /\ sd_blocks s !! h = Some b))
    as Hcase.
  { intros h b. rewrite Gb. intros [[<- <-]|[Hne Hb]]%lookup_insert_Some; [by left|by right]. }
  pose proof (proj2 (Hok _ _ Hp)) as Hp0. split.
  - intros h b [[-> ->]|[_ Hb]]%Hcase; [split; [done|lia]|eauto].
  - intros h b [[-> ->]|[Hne Hb]]%Hcase; [destruct Gn as (e & -> & _); eauto|].
    destruct (Hext _ _ Hb) as [e He]. destruct (Gk _ _ Hne He) as (e' & -> & _). eauto.
  - intros h b [[-> ->]|[_ Hb]]%Hcase Hpos; [eauto|]. destruct (Hpar _ _ Hb Hpos) as (q & Hq & Hqn). eauto.
  - intros h b [[-> ->]|[_ Hb]]%Hcase H0; [lia|]. rewrite Gg. eauto.
  - intros h b e [[-> ->]|[Hne Hb]]%Hcase He.
    + destruct Gn as (e1 & He1 & Hw & _). rewrite He in He1. injection He1 as <-. rewrite Hw.
      eapply work_step; [by rewrite Gb, lookup_insert_eq|lia|]. eapply work_grows; eauto.
    + destruct (Go _ _ Hne He) as (e0 & He0 & -> & _). eapply work_grows; eauto.
  - intros h b e [[-> ->]|[Hne Hb]]%Hcase He.
    + destruct Gn as (e1 & He1 & _ & Hv). congruence.
    + destruct (Go _ _ Hne He) as (e0 & He0 & _ & [Hv|Hv]); rewrite Hv; [eauto|done].
  - done.
Qed.

Lemma fork_path_parents s n h k path :
  blocks_ok s -> fork_path s n h k path ->
  (h ∈ b_hash <$> path \/ sd_hash_of s !! Z.of_nat k = Some h) /\
  forall b, b ∈ path -> b_parent b ∈ b_hash <$> path \/ sd_hash_of s !! Z.of_nat k = Some (b_parent b).
Proof.
  intros Hok Hp. induction Hp as [|n h b k path Hne Hb Hn Hext Hp [IH1 IH2]].
  - split; [by right|]. by intros b ?%not_elem_of_nil.
  - destruct (Hok _ _ Hb) as [Hh _]. rewrite fmap_app. split.
    + left. apply elem_of_app. right. cbn. rewrite Hh. left.
    + intros b' [Hb'|Hb'%list_elem_of_singleton]%elem_of_app; [|subst b'].
      * destruct (IH2 _ Hb'); [left; apply elem_of_app; by left|by right].
      * destruct IH1; [left; apply elem_of_app; by left|by right].
Qed.

Lemma main_blocks_list s a l b :
  (forall i x, l !! i = Some x -> main_block s (a + Z.of_nat i) = Some x) -> len l = b - a + 1 ->
  main_blocks s a b = l.
Proof.
  unfold main_blocks. intros Hl Hlen. rewrite <- Hlen. clear Hlen. revert a Hl.
  induction l as [|x l IH]; intros a Hl; [done|]. rewrite len_cons, seqZ_cons by (unfold len; lia). cbn.
  pose proof (Hl 0%nat x eq_refl) as H0. rewrite Z.add_0_r in H0. rewrite H0. cbn. f_equal.
  replace (Z.pred (1 + len l)) with (len l) by lia. apply IH. intros i y Hy.
  rewrite <- (Hl (S i) y Hy). f_equal. lia.
Qed.

(** Every block of the main chain was verified. *)
Lemma main_verified c n h : chain_ok c -> sd_hash_of (ch_store c) !! n = Some h -> is_verified (ch_store c) h.
Proof.
  intros Hc Hh. pose proof (co_main c Hc) as Hm. pose proof (im_range _ _ Hm _ _ Hh) as Hr.
  assert (exists d, n = tip_number c - Z.of_nat d) as [d ->] by (exists (Z.to_nat (tip_number c - n)); lia).
  clear Hr. revert h Hh. induction d as [|d IH]; intros h Hh.
  - rewrite Z.sub_0_r, (co_top c Hc) in Hh. injection Hh as <-. destruct (co_work c Hc) as (e & He & _ & Hv). by exists e.
  - pose proof (im_range _ _ Hm _ _ Hh) as Hr.
    destruct (im_block _ _ Hm (tip_number c - Z.of_nat d)) as (b & Hb & Hs & Hn & Hpar); [lia|].
    specialize (Hpar ltac:(lia)). replace (tip_number c - Z.of_nat d - 1) with (tip_number c - Z.of_nat (S d)) in Hpar by lia.
    rewrite Hh in Hpar. injection Hpar as ->. destruct (IH _ Hb) as (e & He & Hv).
    by apply (st_verified _ (co_stored c Hc) (b_hash b) b e); [|lia|..].
Qed.

Section switched.
Context (c : ChainState) (Hc : chain_ok c) (nb : Block) (Hnew : sd_blocks (ch_store c) !! b_hash nb = None).
Context (n k : nat) (low top : list Block) (Hp : fork_path (ch_store c) n (b_parent nb) k (low ++ top)).
Context (Hlow : forall b, b ∈ low -> is_verified (ch_store c) (b_hash b)).
Context (rs : list (BlockExt * H256)) (Hrs : Forall2 (marked (ch_store c)) rs top).
Context (e : BlockExt) (He : verified e = Some true).
Context (s1 s2 : StoreData) (Hs1 : sd_ext s1 = sd_ext (ch_store c)).
Context (Hs2 : sd_ext s2 = sd_ext (write_exts s1 (rs ++ [(e, b_hash nb)]))).

Lemma rs_marked r h : (r, h) ∈ rs -> exists b, b ∈ top /\ b_hash b = h /\ marked (ch_store c) (r, h) b.
Proof.
  intros [i Hi]%list_elem_of_lookup. destruct (Forall2_lookup_l _ _ _ _ _ Hrs Hi) as (b & Hb & Hm).
  exists b. split_and!; [by eapply list_elem_of_lookup_2|by destruct Hm|done].
Qed.

Lemma switched_new : sd_ext s2 !! b_hash nb = Some e.
Proof.
  rewrite Hs2. destruct (write_exts_lookup s1 (rs ++ [(e, b_hash nb)]) (b_hash nb)) as [(e1 & Hin & ->)|[Hni _]].
  - apply elem_of_app in Hin as [Hin|Hin%list_elem_of_singleton]; [|congruence].
    apply rs_marked in Hin as (b & Hb & Hh & _).
    pose proof (fork_path_stored _ _ _ _ _ b (st_blocks _ (co_stored c Hc)) Hp ltac:(apply elem_of_app; by right)). congruence.
  - exfalso. apply Hni. rewrite fmap_app. apply elem_of_app. right. left.
Qed.

Lemma switched_old h : h <> b_hash nb ->
  (exists b r, b ∈ top /\ b_hash b = h /\ sd_ext s2 !! h = Some r /\ marked (ch_store c) (r, h) b) \/
  ((h ∉ b_hash <$> top) /\ sd_ext s2 !! h = sd_ext (ch_store c) !! h).
Proof.
  intros Hne. rewrite Hs2. destruct (write_exts_lookup s1 (rs ++ [(e, b_hash nb)]) h) as [(e1 & Hin & ->)|[Hni ->]].
  - apply elem_of_app in Hin as [Hin|Hin%list_elem_of_singleton]; [|congruence]. left.
    apply rs_marked in Hin as (b & Hb & Hh & Hm). by exists b, e1.
  - right. rewrite Hs1. split; [|done]. intros (b & -> & [i Hi]%list_elem_of_lookup)%list_elem_of_fmap.
    destruct (Forall2_lookup_r _ _ _ _ _ Hrs Hi) as ([r h] & Hr & Hm & _). cbn in Hm. subst h. apply Hni.
    rewrite fmap_app. apply elem_of_app. left. apply list_elem_of_fmap. exists (r, b_hash b).
    split; [done|by eapply list_elem_of_lookup_2].
Qed.

(** A verified block stays so. *)
Lemma switched_verified h : h <> b_hash nb -> is_verified (ch_store c) h -> is_verified s2 h.
Proof.
  intros Hne (e0 & He0 & Hv). destruct (switched_old h Hne) as [(b & r & _ & _ & Hr & _ & Hvr & _)|[_ Hsame]].
  - by exists r.
  - exists e0. by rewrite Hsame.
Qed.

(** The parents of the blocks on the branch are verified. *)
Lemma switched_parent h :
  h ∈ b_hash <$> (low ++ top) \/ sd_hash_of (ch_store c) !! Z.of_nat k = Some h -> is_verified s2 h.
Proof.
  pose proof (st_blocks _ (co_stored c Hc)) as Hok. intros [Hin|Hmain].
  - apply list_elem_of_fmap in Hin as (b & -> & Hb).
    pose proof (fork_path_stored _ _ _ _ _ b Hok Hp Hb) as Hst.
    assert (b_hash b <> b_hash nb) as Hne by congruence.
    destruct (switched_old _ Hne) as [(b' & r & _ & _ & Hr & _ & Hv & _)|[Hni Hsame]]; [by exists r|].
    apply elem_of_app in Hb as [Hb|Hb]; [by apply switched_verified, Hlow|].
    exfalso. apply Hni, list_elem_of_fmap. by exists b.
  - apply switched_verified; [|by eapply main_verified]. intros ->.
    pose proof (im_range _ _ (co_main c Hc) _ _ Hmain) as Hr.
    destruct (im_block _ _ (co_main c Hc) _ Hr) as (b & Hb & Hs & _). congruence.
Qed.

Lemma switched_grows :
  sd_blocks s2 = <[b_hash nb := nb]> (sd_blocks (ch_store c)) ->
  sd_hash_of s2 !! 0 = sd_hash_of (ch_store c) !! 0 ->
  grows (ch_store c) s2 nb (total_difficulty e).
Proof.
  intros Hb Hg. pose proof (st_blocks _ (co_stored c Hc)) as Hok.
  destruct (fork_path_parents _ _ _ _ _ Hok Hp) as [Hpn Hpp]. split; [done|done|..].
  - exists e. split_and!; [apply switched_new|done|congruence].
  - intros h e' Hne He'. destruct (switched_old h Hne) as [(b & r & _ & <- & Hr & _ & Hv & e0 & He0 & Ht)|[_ Hsame]].
    + rewrite He' in Hr. injection Hr as ->. eauto.
    + exists e'. rewrite <- Hsame. auto.
  - intros h e0 Hne He0. destruct (switched_old h Hne) as [(b & r & _ & _ & Hr & _ & Hv & _)|[_ Hsame]].
    + exists r. auto.
    + exists e0. rewrite Hsame. auto.
  - intros h b e' Hbl Hpos He' Hv. rewrite Hb in Hbl. apply lookup_insert_Some in Hbl as [[<- <-]|[Hne Hbl]].
    { by apply switched_parent. }
    destruct (switched_old h ltac:(done)) as [(b' & r & Hin & <- & _)|[_ Hsame]].
    + pose proof (fork_path_stored _ _ _ _ _ b' Hok Hp ltac:(apply elem_of_app; by right)) as Hst.
      rewrite Hst in Hbl. injection Hbl as <-. apply switched_parent, Hpp, elem_of_app. by right.
    + rewrite Hsame in He'. destruct (st_parent _ (co_stored c Hc) h b Hbl Hpos) as (p & Hpar & _).
      apply switched_verified; [congruence|]. by apply (st_verified _ (co_stored c Hc) h b e').
Qed.
End switched.

(** ** The steps of the service *)
Lemma new_block_ext_Ok now c block ext epoch new_epoch :
  new_block_ext now c block = Ok (ext, epoch, new_epoch) ->
  verified ext = None /\ exists pext p, sd_ext (ch_store c) !! b_parent block = Some pext /\
    sd_blocks (ch_store c) !! b_parent block = Some p /\
    total_difficulty ext = total_difficulty pext + h_difficulty (b_header block).
Proof.
  unfold new_block_ext, get_block_ext, get_block_header. intros H.
  destruct (sd_ext (ch_store c) !! b_parent block) as [pext|] eqn:Hpe; cbn in H; [|done].
  destruct (sd_blocks (ch_store c) !! b_parent block) as [p|] eqn:Hp; cbn in H; [|done].
  outcome_inv. match goal with x : _ * _ |- _ => destruct x end. outcome_inv. subst. eauto 10.
Qed.

Lemma update_tip_fields {E} gt gb st hd td o st' :
  update_tip (E := E) gt gb st hd td o = Ok st' -> ts_tip_header st' = hd /\ ts_total_difficulty st' = td.
Proof.
  unfold update_tip. destruct (try_fold _ _ _) as [[cs up]| |]; cbn; [|done|done].
  destruct (fold_left remove_old_output _ _) as [cs2 rm2]. destruct (fold_left insert_new_output _ _) as [cs3 in3].
  destruct (fold_left mark_new_input _ _) as [[cs4 up4] rm4]. by intros [= <-].
Qed.

Lemma more_work_heavier c w nb :
  more_work c w nb = true <->
  chain_total_difficulty c < w \/ (chain_total_difficulty c = w /\ b_hash nb < tip_hash c).
Proof. unfold more_work. rewrite orb_true_iff, andb_true_iff, !bool_decide_eq_true. done. Qed.

Lemma main_hash s tip n b : is_main s tip -> main_block s n = Some b -> sd_hash_of s !! n = Some (b_hash b).
Proof.
  intros Hm Hb. unfold main_block in Hb. destruct (sd_hash_of s !! n) as [h|] eqn:Hh; [|done]. cbn in Hb.
  pose proof (im_range _ _ Hm _ _ Hh) as Hr. destruct (im_block _ _ Hm n Hr) as (b' & Hh' & Hb' & _).
  rewrite Hh in Hh'. injection Hh' as ->. congruence.
Qed.

(** The index after the switch. *)
Lemma switched_index blake2b s tip nb k path det s' :
  blocks_ok s -> is_main s tip -> 0 < b_number nb -> sd_blocks s !! b_hash nb = None ->
  fork_path s (Z.to_nat (b_number nb - 1)) (b_parent nb) k path -> det ≡ₚ main_blocks s (Z.of_nat k + 1) tip ->
  same_index (update_index blake2b det (path ++ [nb]) (insert_block nb s)) s' ->
  is_main s' (b_number nb) /\ (forall n, 0 <= n <= Z.of_nat k -> main_block s' n = main_block s n) /\
  path ++ [nb] = main_blocks s' (Z.of_nat k + 1) (b_number nb) /\
  sd_hash_of s' !! 0 = sd_hash_of s !! 0 /\ sd_hash_of s' !! b_number nb = Some (b_hash nb) /\
  0 <= Z.of_nat k <= tip /\ len path = b_number nb - 1 - Z.of_nat k.
Proof.
  intros Hok Hm Hpos Hnew Hp Hdet Hsame.
  destruct (update_index_is_main blake2b s tip nb k path det Hok Hm Hpos (or_introl Hnew) Hp Hdet) as (H1 & H2 & H3).
  destruct (fork_path_chain _ _ _ _ _ Hp Hok) as (x & Hx & _ & _ & Hlen & _).
  pose proof (im_range _ _ Hm _ _ Hx) as Hk. rewrite Z2Nat.id in Hlen by lia.
  assert (is_main s' (b_number nb)) as Hm' by (by eapply is_main_same).
  assert (forall i b, (path ++ [nb]) !! i = Some b -> main_block s' (Z.of_nat k + 1 + Z.of_nat i) = Some b) as H3'
    by (intros i b Hi; rewrite (main_block_same _ _ _ Hsame); by apply H3).
  assert (forall n, 0 <= n <= Z.of_nat k -> main_block s' n = main_block s n) as H2'
    by (intros m Hr; rewrite (main_block_same _ _ _ Hsame); by apply H2).
  split_and!; try done; try lia.
  - symmetry. apply main_blocks_list; [done|]. rewrite len_app. unfold len in *. cbn. lia.
  - destruct (main_block_Some s tip 0 Hm ltac:(lia)) as (b & Hb & -> & _).
    apply (main_hash s' (b_number nb)); [done|]. by rewrite H2' by lia.
  - apply (main_hash s' (b_number nb)); [done|].
    replace (b_number nb) with (Z.of_nat k + 1 + Z.of_nat (length path)) by (unfold len in Hlen; lia).
    apply H3'. by rewrite list_lookup_middle.
Qed.

Section service_steps.
Context {M L W : Type -> Type} `{LM : !LinkedHashMap Bytes M} `{LL : !LruCache Bytes L} `{LW : !LinkedHashMap H256 W}.
Context (blake2b : Bytes -> H256) (merkle_root : list H256 -> H256) (serialize_uncles : list UncleBlock -> Bytes).
Context (script_verify : ResolvedTransaction -> Z -> outcome ScriptError Z) (pow : PowEngine).
Context (diff_order : CellSetDiff -> DiffOrder) (ids_order : gset Bytes -> list Bytes).
Context (cache_insert : gmap Z Z -> Z -> Z -> gmap Z Z) (now : Z) {E : Type}.

#[local] Abbreviation switch := (switch_tip (M := M) (L := L) (W := W) (E := E) blake2b serialize_uncles script_verify pow
  diff_order ids_order cache_insert now).

(** The store that a switch to a block leaves. *)
Definition switched_store (c : ChainState) (fork : ForkChanges) (nb : Block) (epoch : EpochExt) (new_epoch : bool)
    (results : list (BlockExt * H256)) : StoreData :=
  let s1 := update_index blake2b (detached_blocks fork) (attached_blocks fork) (store_block nb epoch (ch_store c)) in
  let s3 := insert_tip_header (b_header nb) (write_exts s1 results) in
  if new_epoch || has_detached fork then insert_current_epoch_ext epoch s3 else s3.

Lemma switched_store_same c fork nb epoch ne results :
  same_index (update_index blake2b (detached_blocks fork) (attached_blocks fork) (insert_block nb (ch_store c)))
    (switched_store c fork nb epoch ne results) /\
  sd_tip (switched_store c fork nb epoch ne results) = Some (b_hash nb) /\
  sd_current_epoch (switched_store c fork nb epoch ne results) =
    (if ne || has_detached fork then Some epoch else sd_current_epoch (ch_store c)).
Proof.
  unfold switched_store. set (s1 := update_index _ _ _ (store_block _ _ _)).
  assert (same_index (insert_block nb (ch_store c)) (store_block nb epoch (ch_store c))) as H0 by done.
  apply (update_index_same blake2b (detached_blocks fork) (attached_blocks fork)) in H0 as [Ha Hb Hd]. fold s1 in Ha, Hb, Hd.
  destruct (write_exts_same s1 results) as [[H1 H2 H3] H4].
  pose proof (update_index_rest blake2b (detached_blocks fork) (attached_blocks fork) (store_block nb epoch (ch_store c)))
    as [_ _ H5]. fold s1 in H5. change (sd_current_epoch (store_block nb epoch (ch_store c))) with (sd_current_epoch (ch_store c)) in H5.
  destruct (ne || has_detached fork); (split; [split; cbn; congruence|split; [done|cbn; congruence]]).
Qed.

Lemma switch_tip_inv self nb ext epoch ne nv self' ds fork :
  let c := sh_chain self in
  let s1 := update_index blake2b (detached_blocks fork) (attached_blocks fork) (store_block nb epoch (ch_store c)) in
  find_fork (E := E) (ch_store c) (tip_number c) nb ext = Ok fork ->
  switch self nb ext epoch ne nv = Ok (self', inr ds) ->
  exists cache batch diff table removed tip,
    reconcile_main_chain (E := E) blake2b serialize_uncles script_verify pow diff_order cache_insert s1 fork c
      (sh_cache self) nv = Ok (cache, inr (batch, diff)) /\
    finalize (E := E) (update_proposal_ids (ch_proposal_ids c) (detached_blocks fork) (attached_blocks fork)) (b_number nb)
      = Ok (table, removed) /\
    ts_tip_header tip = b_header nb /\ ts_total_difficulty tip = total_difficulty ext /\
    sh_chain self' = mkChainState
      (let s3 := insert_tip_header (b_header nb) batch in
       if ne || has_detached fork then insert_current_epoch_ext epoch s3 else s3)
      tip table (ch_consensus c) (if ne || has_detached fork then epoch else ch_current_epoch_ext c).
Proof.
  intros c s1 Hf. unfold switch_tip. fold c. rewrite Hf, bind_ret_l. fold s1. intros H.
  destruct (reconcile_main_chain _ _ _ _ _ _ _ _ _ _ _) as [[cache [err|[batch diff]]]| |] eqn:Hrec; cbn in H; [done| |done|done].
  destruct (finalize _ _) as [[table removed]| |] eqn:Hfin; cbn in H; [|done|done].
  destruct (update_tip _ _ _ _ _ _) as [tip| |] eqn:Ht; cbn in H; [|done|done].
  destruct (update_tx_pool_for_reorg _ _ _ _ _ _ _ _ _) as [[pool cache']| |]; cbn in H; [|done|done].
  injection H as <- _. apply update_tip_fields in Ht as [H1 H2].
  exists cache, batch, diff, table, removed, tip. done.
Qed.

(** A heavier tip is heaviest among the blocks of the grown store. *)
Lemma grows_heaviest c s4 nb w :
  chain_ok c -> grows (ch_store c) s4 nb w -> more_work c w nb = true ->
  forall h b e, sd_blocks s4 !! h = Some b -> sd_ext s4 !! h = Some e -> heavier w (b_hash nb) (total_difficulty e) h.
Proof.
  intros Hc Hg Hmore h b e Hb He. rewrite (gr_blocks _ _ _ _ Hg) in Hb.
  apply lookup_insert_Some in Hb as [[<- <-]|[Hne Hb]].
  - destruct (gr_new _ _ _ _ Hg) as (e1 & He1 & <- & _). rewrite He in He1. injection He1 as <-. right. lia.
  - destruct (gr_old _ _ _ _ Hg h e ltac:(done) He) as (e0 & He0 & -> & _).
    pose proof (co_heaviest c Hc h b e0 Hb He0) as Hh. apply more_work_heavier in Hmore.
    unfold heavier in *. lia.
Qed.

Section switch_step.
Context (self : Shared (M := M) (L := L)) (nb : Block) (ext : BlockExt) (epoch : EpochExt) (ne nv : bool).
Context (Hc : chain_ok (sh_chain self)) (Had : admissible (sh_chain self) nb).
Context (Hext : new_block_ext now (sh_chain self) nb = Ok (ext, epoch, ne)).
Context (k : nat) (path : list Block).
Context (Hpath : fork_path (ch_store (sh_chain self)) (Z.to_nat (b_number nb - 1)) (b_parent nb) k path).
#[local] Abbreviation c := (sh_chain self).
#[local] Abbreviation s := (ch_store (sh_chain self)).

Definition branch_fork : ForkChanges :=
  mkFork (path ++ [nb])
    (main_blocks s (Z.of_nat k + 1) (Z.min (b_number nb - 1) (tip_number c)) ++ reverse (main_blocks s (b_number nb) (tip_number c)))
    (reverse (unverified_top s true (reverse path)) ++ [ext]).

Lemma branch_fork_detached : detached_blocks branch_fork ≡ₚ main_blocks s (Z.of_nat k + 1) (tip_number c).
Proof.
  destruct Had as [_ (p & Hp & Hnum) _]. pose proof (st_blocks _ (co_stored c Hc)) as Hok. pose proof (Hok _ _ Hp) as [_ Hp0].
  destruct (fork_path_chain _ _ _ _ _ Hpath Hok) as (x & Hx & _ & _ & Hlen & _).
  pose proof (im_range _ _ (co_main c Hc) _ _ Hx). unfold len in Hlen. apply detached_perm; lia.
Qed.

(** The store after the switch. *)
Lemma switch_store results low top rs e :
  path = low ++ top -> (forall b, b ∈ low -> is_verified s (b_hash b)) -> Forall2 (marked s) rs top ->
  verified e = Some true -> total_difficulty e = total_difficulty ext -> results = rs ++ [(e, b_hash nb)] ->
  let s4 := switched_store c branch_fork nb epoch ne results in
  stored s4 /\ grows s s4 nb (total_difficulty ext) /\ sd_ext s4 !! b_hash nb = Some e /\
  is_main s4 (b_number nb) /\ (forall n, 0 <= n <= Z.of_nat k -> main_block s4 n = main_block s n) /\
  path ++ [nb] = main_blocks s4 (Z.of_nat k + 1) (b_number nb) /\
  sd_hash_of s4 !! b_number nb = Some (b_hash nb) /\ 0 <= Z.of_nat k <= tip_number c /\ Z.of_nat k <= b_number nb.
Proof.
  intros Hlt Hlow Hrs Hv Ht Hres s4. destruct Had as [Hnew (p & Hp & Hnum) _].
  pose proof (co_stored c Hc) as Hs. pose proof (st_blocks _ Hs) as Hok. pose proof (Hok _ _ Hp) as [_ Hp0].
  destruct (switched_store_same c branch_fork nb epoch ne results) as [Hsame _]. fold s4 in Hsame.
  destruct (switched_index blake2b s _ nb k path (detached_blocks branch_fork) s4 Hok (co_main c Hc) ltac:(lia) Hnew Hpath
    branch_fork_detached Hsame) as (Hm & Hl & Hatt & H0 & Htop & Hk & Hlen).
  assert (sd_blocks s4 = <[b_hash nb := nb]> (sd_blocks s)) as Hb4.
  { rewrite (si_blocks _ _ Hsame). by destruct (update_index_rest blake2b (detached_blocks branch_fork)
      (attached_blocks branch_fork) (insert_block nb s)) as [-> _ _]. }
  set (s1 := update_index blake2b (detached_blocks branch_fork) (attached_blocks branch_fork) (store_block nb epoch s)).
  assert (sd_ext s1 = sd_ext s) as Hs1 by (unfold s1; by destruct (update_index_rest blake2b
    (detached_blocks branch_fork) (attached_blocks branch_fork) (store_block nb epoch s)) as [_ -> _]).
  assert (sd_ext s4 = sd_ext (write_exts s1 (rs ++ [(e, b_hash nb)]))) as Hs4
    by (unfold s4, switched_store; rewrite <- Hres; by destruct (ne || has_detached branch_fork)).
  rewrite Hlt in Hpath. assert (grows s s4 nb (total_difficulty ext)) as Hg.
  { rewrite <- Ht. by apply (switched_grows c Hc nb Hnew _ k low top Hpath Hlow rs Hrs e Hv s1 s4 Hs1 Hs4). }
  apply new_block_ext_Ok in Hext as (_ & pext & p' & Hpe & Hp' & Htot).
  split_and!; try done; try (unfold len in Hlen; lia).
  - by apply (stored_grows s s4 nb p pext (total_difficulty ext)).
  - by apply (switched_new c Hc nb Hnew _ k low top Hpath rs Hrs e s1 s4 Hs4).
Qed.
End switch_step.

Lemma switch_chain_ok self nb ext epoch ne nv self' ds :
  let c := sh_chain self in
  chain_ok c -> admissible c nb -> new_block_ext now c nb = Ok (ext, epoch, ne) ->
  more_work c (total_difficulty ext) nb = true ->
  switch self nb ext epoch ne nv = Ok (self', inr ds) ->
  chain_ok (sh_chain self') /\ tip_header (sh_chain self') = b_header nb /\
  ch_consensus (sh_chain self') = ch_consensus c.
Proof.
  intros c Hc Had Hext Hmore H. destruct (co_window c Hc) as [Hfar Hclo]. destruct (Had) as [Hnew (p & Hp & Hnum) Hmax].
  pose proof (co_stored c Hc) as Hs. pose proof (st_blocks _ Hs) as Hok. pose proof (Hok _ _ Hp) as [Hph Hp0].
  destruct (fork_path_exists _ _ (Z.to_nat (b_number nb - 1)) _ _ Hs (co_main c Hc) Hp ltac:(lia)) as (k & path & Hpath).
  pose proof (find_fork_eq (E := E) _ _ nb ext k path Hok (co_main c Hc) ltac:(lia) Hpath) as Hf.
  fold (branch_fork self nb ext k path) in Hf. set (fork := branch_fork self nb ext k path) in *.
  destruct (switch_tip_inv _ _ _ _ _ _ _ _ _ Hf H) as (cache & batch & diff & table & removed & tip & Hrec & Hfin & Hth & Htd & Heq).
  destruct (fork_path_chain _ _ _ _ _ Hpath Hok) as (x & _ & _ & _ & Hlen & _).
  apply (reconcile_exts _ _ _ _ _ _ c nv (ch_store c) _ nb ext k path _ _ _ _ _ _ eq_refl Hs Hpath) in Hrec
    as (low & top & rs & e & Hlt & Hlow & Hrs & Hv & Ht & Hbatch); [|lia].
  destruct (switch_store self nb ext epoch ne Hc Had Hext k path Hpath _ low top rs e Hlt Hlow Hrs Hv Ht eq_refl)
    as (Hst & Hg & Hse & Hm & Hl & Hatt & Htop & Hk & Hkn). fold fork in Hst, Hg, Hse, Hm, Hl, Hatt, Htop.
  destruct (switched_store_same c fork nb epoch ne (rs ++ [(e, b_hash nb)])) as (_ & Htip & Hep).
  fold c in Hst, Hg, Hse, Hm, Hl, Hatt, Htop, Hk.
  set (s4 := switched_store c fork nb epoch ne (rs ++ [(e, b_hash nb)])) in *.
  assert (sh_chain self' = mkChainState s4 tip table (ch_consensus c)
    (if ne || has_detached fork then epoch else ch_current_epoch_ext c)) as -> by (rewrite Heq, Hbatch; done).
  destruct (co_table c Hc) as (lo & Hlo & Htr).
  destruct (update_proposal_ids_from (E := E) _ _ _ s4 (b_number nb) (Z.of_nat k) lo _ (detached_blocks fork)
    (attached_blocks fork) (co_main c Hc) Hm Hfar Hclo Hk ltac:(lia) Hlo Hl
    (branch_fork_detached self nb ext Hc Had k path Hpath) Hatt Htr) as (t' & Hfin' & Htr').
  pose proof (eq_trans (eq_sym Hfin) Hfin') as Heqt. injection Heqt as -> _.
  split; [|by rewrite <- Hth]. split; unfold tip_number, tip_hash, chain_total_difficulty, tip_header; cbn;
    rewrite ?Hth, ?Htd; try done.
  - exists nb. by rewrite (gr_blocks _ _ _ _ Hg), lookup_insert_eq.
  - rewrite Hep. destruct (ne || has_detached fork); [done|]. apply (co_epoch c Hc).
  - exists e. done.
  - by apply (grows_heaviest c).
  - eexists. split; [|exact Htr']. unfold window_start, saturating_sub. lia.
  - rewrite (gr_genesis _ _ _ _ Hg). apply (co_first c Hc).
Qed.

(** *** A block with less work *)
Lemma main_block_stored c n b : chain_ok c -> main_block (ch_store c) n = Some b -> sd_blocks (ch_store c) !! b_hash b = Some b.
Proof.
  intros Hc Hb. pose proof (co_main c Hc) as Hm. pose proof (main_hash _ _ _ _ Hm Hb) as Hh.
  destruct (im_block _ _ Hm n (im_range _ _ Hm _ _ Hh)) as (b' & Hh' & Hb' & _). unfold main_block in Hb.
  rewrite Hh' in Hb. cbn in Hb. congruence.
Qed.

Lemma table_tracks_ext w s s' tip lo t :
  (forall n, main_ids s' n = main_ids s n) -> table_tracks w s tip lo t -> table_tracks w s' tip lo t.
Proof.
  intros He [Hw Ht Hs Hg]. split; [done|..].
  - intros n. by rewrite Ht, He.
  - intros id. setoid_rewrite He. apply Hs.
  - intros id. setoid_rewrite He. apply Hg.
Qed.

Definition side_store (nb : Block) (ext : BlockExt) (epoch : EpochExt) (s : StoreData) : StoreData :=
  insert_block_ext (b_hash nb) ext (store_block nb epoch s).

Lemma side_chain_ok c nb ext epoch ne :
  chain_ok c -> admissible c nb -> new_block_ext now c nb = Ok (ext, epoch, ne) ->
  more_work c (total_difficulty ext) nb = false -> chain_ok (with_store (side_store nb ext epoch (ch_store c)) c).
Proof.
  intros Hc [Hnew (p & Hp & Hnum) Hmax] Hext Hmore. apply new_block_ext_Ok in Hext as (Hv & pext & p' & Hpe & Hp' & Htot).
  set (s2 := side_store nb ext epoch (ch_store c)).
  assert (grows (ch_store c) s2 nb (total_difficulty ext)) as Hg.
  { split; [done|done|..].
    - exists ext. split_and!; [apply lookup_insert_eq|done|congruence].
    - intros h e' Hne He'. cbn in He'. rewrite lookup_insert_ne in He' by done. eauto.
    - intros h e Hne He. exists e. cbn. rewrite lookup_insert_ne by done. auto.
    - intros h b e' Hb Hpos He' Hv'. cbn in Hb, He'. destruct (decide (h = b_hash nb)) as [->|Hne].
      { rewrite lookup_insert_eq in He'. congruence. }
      rewrite lookup_insert_ne in Hb by done. rewrite lookup_insert_ne in He' by done.
      destruct (st_verified _ (co_stored c Hc) h b e' Hb Hpos He' Hv') as (e & He & Hve).
      destruct (st_parent _ (co_stored c Hc) h b Hb Hpos) as (q & Hq & _).
      exists e. cbn. rewrite lookup_insert_ne; [done|congruence]. }
  assert (forall n, main_block s2 n = main_block (ch_store c) n) as Hmb.
  { intros n. unfold main_block. change (sd_hash_of s2) with (sd_hash_of (ch_store c)).
    destruct (sd_hash_of (ch_store c) !! n) as [h|] eqn:Hh; [|done]. cbn. apply lookup_insert_ne. intros <-.
    pose proof (co_main c Hc) as Hm. destruct (im_block _ _ Hm n (im_range _ _ Hm _ _ Hh)) as (b & Hh' & Hb & _). congruence. }
  destruct Hc as [Hs Hm Htip Htop Hd He Hw Hh Ht Hn Hf Hwin]. destruct Htip as (tb & Htb & Hth). destruct Hw as (te & Hte & Hwk).
  split; try done; unfold tip_hash, tip_header, chain_total_difficulty in *; cbn.
  - by apply (stored_grows (ch_store c) s2 nb p pext (total_difficulty ext)).
  - destruct Hm as [Hm1 Hm2 Hm3]. split; [done| |done]. intros n Hr. destruct (Hm2 n Hr) as (b & H1 & H2 & H3 & H4).
    exists b. split_and!; try done. cbn. rewrite lookup_insert_ne; [done|congruence].
  - exists tb. rewrite lookup_insert_ne; [done|congruence].
  - exists te. rewrite lookup_insert_ne; [done|congruence].
  - intros h b e [[<- <-]|[Hne Hb]]%lookup_insert_Some He'.
    + rewrite lookup_insert_eq in He'. injection He' as <-. apply not_true_iff_false in Hmore.
      rewrite more_work_heavier in Hmore. unfold heavier, chain_total_difficulty, tip_hash, tip_header in *. lia.
    + rewrite lookup_insert_ne in He' by done. by apply (Hh h b e).
  - destruct Ht as (lo & Hlo & Ht). exists lo. split; [done|]. eapply table_tracks_ext; [|exact Ht].
    intros n. unfold main_ids. by rewrite <- (Hmb n).
Qed.
End service_steps.
