(* ===== verification/ChainReach.v ===== *)
(** * The states of a node

    The chain states that a node reaches from its first start by processing
    blocks, and what holds of all of them. *)
From S2P Require Import Prelude Capacity ByteStrings Transactions Blocks Fixtures CellSet Cells Epochs ChainStore Fork VerifyErrors ProposalTable MedianTime HeaderVerify BlockVerify LinkedMap ProposedPool TxPool ChainPool ChainService ChainInvariant.

Record genesis_ok (consensus : Consensus) : Prop := {
  go_number : b_number (genesis_block consensus) = 0;
  go_hash : genesis_hash consensus = b_hash (genesis_block consensus);
  go_window : 0 <= farthest (tx_proposal_window consensus) /\ 0 <= closest (tx_proposal_window consensus)
}.

(** ** The first start *)
Section first_start.
Context (blake2b : Bytes -> H256) (consensus : Consensus) (Hg : genesis_ok consensus).
#[local] Abbreviation genesis := (genesis_block consensus).

Definition genesis_store (ext : BlockExt) : StoreData :=
  attach_block blake2b genesis
    (insert_epoch_ext (ep_last_block_hash_in_previous_epoch (genesis_epoch_ext consensus)) (genesis_epoch_ext consensus)
      (insert_block_epoch_index (b_hash genesis) (ep_last_block_hash_in_previous_epoch (genesis_epoch_ext consensus))
        (insert_current_epoch_ext (genesis_epoch_ext consensus) (insert_tip_header (b_header genesis)
          (insert_block_ext (b_hash genesis) ext (insert_block genesis empty_store)))))).

Lemma genesis_store_fields ext :
  let s := genesis_store ext in
  sd_blocks s = {[b_hash genesis := genesis]} /\ sd_ext s = {[b_hash genesis := ext]} /\
  sd_hash_of s = {[0 := b_hash genesis]} /\ sd_number_of s = {[b_hash genesis := 0]} /\
  sd_tip s = Some (b_hash genesis) /\ sd_current_epoch s = Some (genesis_epoch_ext consensus).
Proof.
  unfold genesis_store, attach_block. destruct (fold_left _ _ _) as [addr meta]. cbn.
  rewrite (go_number consensus Hg). split_and!; done.
Qed.

Lemma genesis_main ext : is_main (genesis_store ext) 0.
Proof.
  destruct (genesis_store_fields ext) as (Hb & _ & Hh & Hn & _). split; rewrite ?Hb, ?Hh, ?Hn.
  - intros n h [<- _]%lookup_singleton_Some. lia.
  - intros n Hr. assert (n = 0) as -> by lia. exists genesis. rewrite !lookup_singleton_eq.
    pose proof (go_number consensus Hg). split_and!; done || lia.
  - intros h n. rewrite !lookup_singleton_Some. naive_solver.
Qed.

Lemma genesis_stored ext : verified ext = Some true -> total_difficulty ext = h_difficulty (b_header genesis) ->
  stored (genesis_store ext).
Proof.
  intros Hv Ht. destruct (genesis_store_fields ext) as (Hb & He & Hh & _). pose proof (go_number consensus Hg) as H0.
  split; rewrite ?Hb, ?He, ?Hh.
  - intros h b. rewrite Hb. intros [<- <-]%lookup_singleton_Some. split; [done|lia].
  - intros h b [<- <-]%lookup_singleton_Some. rewrite lookup_singleton_eq. eauto.
  - intros h b [<- <-]%lookup_singleton_Some. lia.
  - intros h b [<- <-]%lookup_singleton_Some _. apply lookup_singleton_eq.
  - intros h b e [<- <-]%lookup_singleton_Some [_ <-]%lookup_singleton_Some. rewrite Ht.
    apply work_genesis; [|done]. by rewrite Hb, lookup_singleton_eq.
  - intros h b e [<- <-]%lookup_singleton_Some [_ <-]%lookup_singleton_Some. congruence.
  - intros h b e [<- <-]%lookup_singleton_Some. lia.
Qed.

Lemma init_first c : ChainState_init blake2b consensus empty_store ∅ = Ok c -> chain_ok c /\ ch_consensus c = consensus.
Proof.
  unfold ChainState_init, store_init. cbn [stored_tip get_tip_header sd_tip empty_store mbind option_bind]. intros H.
  destruct (genesis_ext _) as [ext| |] eqn:Hext; cbn in H; [|done|done]. fold (genesis_store ext) in H.
  assert (verified ext = Some true /\ total_difficulty ext = h_difficulty (b_header genesis)) as [Hv Ht].
  { unfold genesis_ext in Hext. outcome_inv. by subst ext. }
  destruct (genesis_store_fields ext) as (Hb & He & Hh & Hn & Htip & Hep). destruct Hg as [H0 Hgh [Hf Hcl]].
  assert (h_number (b_header genesis) = 0) as H0' by done. rewrite H0' in H.
  destruct (init_proposal_ids_tracks (E := SharedError) (tx_proposal_window consensus) (genesis_store ext) 0)
    as (t & Hinit & Htr); [by apply genesis_main|lia|done|done|].
  rewrite Hinit in H. cbn in H. unfold get_block_ext in H. rewrite He in H.
  rewrite (lookup_singleton_eq (h_hash (b_header genesis)) ext : {[b_hash genesis := ext]} !! h_hash (b_header genesis) = Some ext) in H.
  cbn in H. injection H as <-. split; [|done].
  split; unfold tip_number, tip_hash, tip_header, chain_total_difficulty; cbn; rewrite ?H0'; try done.
  - by apply genesis_stored.
  - by apply genesis_main.
  - exists genesis. by rewrite Hb, lookup_singleton_eq.
  - by rewrite Hh, lookup_singleton_eq.
  - exists ext. by rewrite He, lookup_singleton_eq.
  - intros h b e. rewrite Hb, He. intros [<- <-]%lookup_singleton_Some [_ <-]%lookup_singleton_Some. right. done.
  - exists (window_start (tx_proposal_window consensus) 0). split; [|done]. unfold window_start, saturating_sub. lia.
  - by rewrite Hh, lookup_singleton_eq, Hgh.
Qed.
End first_start.

(** ** Processing blocks *)
Section reach.
Context {M L W : Type -> Type} `{LM : !LinkedHashMap Bytes M} `{LL : !LruCache Bytes L} `{LW : !LinkedHashMap H256 W}.
Context (blake2b : Bytes -> H256) (merkle_root : list H256 -> H256) (serialize_uncles : list UncleBlock -> Bytes).
Context (script_verify : ResolvedTransaction -> Z -> outcome ScriptError Z) (pow : PowEngine).
Context (diff_order : CellSetDiff -> DiffOrder) (ids_order : gset Bytes -> list Bytes).
Context (cache_insert : gmap Z Z -> Z -> Z -> gmap Z Z) {E : Type}.

#[local] Abbreviation State := (Shared (M := M) (L := L)).
#[local] Abbreviation process now := (process_block (M := M) (L := L) (W := W) (E := E) blake2b merkle_root serialize_uncles
  script_verify pow diff_order ids_order cache_insert now).

Lemma switch_tip_error now self block ext epoch ne nv self' e :
  switch_tip (M := M) (L := L) (W := W) (E := E) blake2b serialize_uncles script_verify pow diff_order ids_order cache_insert now
    self block ext epoch ne nv = Ok (self', inl e) ->
  sh_chain self' = sh_chain self /\ sh_pool self' = sh_pool self.
Proof.
  unfold switch_tip. destruct (find_fork _ _ _ _) as [fork| |]; cbn; [|done|done].
  destruct (reconcile_main_chain _ _ _ _ _ _ _ _ _ _ _) as [[cache [err|[batch diff]]]| |]; cbn; [by intros [= <- _]| |done|done].
  destruct (finalize _ _) as [[table removed]| |]; cbn; [|done|done].
  destruct (update_tip _ _ _ _ _ _) as [tip| |]; cbn; [|done|done].
  by destruct (update_tx_pool_for_reorg _ _ _ _ _ _ _ _ _) as [[pool cache']| |].
Qed.

(** What the processing of a block did, by the value it returned. *)
Lemma process_block_cases now self block nv self' r :
  process now self block nv = Ok (self', r) ->
  (exists e, r = inl e /\ sh_chain self' = sh_chain self /\ sh_pool self' = sh_pool self) \/
  (exists ext epoch ne ds, r = inr ds /\ new_block_ext now (sh_chain self) block = Ok (ext, epoch, ne) /\
    if more_work (sh_chain self) (total_difficulty ext) block then
      switch_tip (W := W) (E := E) blake2b serialize_uncles script_verify pow diff_order ids_order cache_insert now
        self block ext epoch ne nv = Ok (self', r)
    else self' = mkShared (with_store (side_store block ext epoch (ch_store (sh_chain self))) (sh_chain self))
                   (sh_pool self) (sh_cache self) /\ ds = [block]).
Proof.
  unfold process_block, chain_insert_block. intros H.
  destruct (if nv then _ else _) as [?|e|]; cbn in H; [|injection H as <- <-; left; by exists (ChainVerify e)|done].
  destruct (new_block_ext now (sh_chain self) block) as [[[ext epoch] ne]|e|] eqn:Hn; cbn in H;
    [|injection H as <- <-; left; by exists e|done].
  destruct (more_work _ _ _) eqn:Hmore.
  - destruct r as [e|ds]; [left; exists e; by apply switch_tip_error in H|].
    right. exists ext, epoch, ne, ds. by rewrite Hmore.
  - injection H as <- <-. right. exists ext, epoch, ne, [block]. by rewrite Hmore.
Qed.

Lemma process_block_ok now self block nv self' r :
  chain_ok (sh_chain self) -> admissible (sh_chain self) block -> process now self block nv = Ok (self', r) ->
  chain_ok (sh_chain self') /\ ch_consensus (sh_chain self') = ch_consensus (sh_chain self).
Proof.
  intros Hc Had H. apply process_block_cases in H as [(e & -> & -> & _)|(ext & epoch & ne & ds & -> & Hn & H)]; [done|].
  destruct (more_work _ _ _) eqn:Hmore.
  - by destruct (switch_chain_ok _ _ _ _ _ _ _ _ _ _ _ _ _ _ _ _ Hc Had Hn Hmore H) as (? & _ & ?).
  - destruct H as [-> _]. split; [|done]. by eapply side_chain_ok.
Qed.

(** The states of a node: the first start, then blocks whose headers were
    verified, in any order, accepted or refused. *)
Inductive reachable (consensus : Consensus) : State -> Prop :=
| reach_init c pool cache :
    ChainState_init blake2b consensus empty_store ∅ = Ok c -> reachable consensus (mkShared c pool cache)
| reach_step self self' now block nv r :
    reachable consensus self -> admissible (sh_chain self) block -> process now self block nv = Ok (self', r) ->
    reachable consensus self'.

Lemma reachable_ok consensus self :
  genesis_ok consensus -> reachable consensus self ->
  chain_ok (sh_chain self) /\ ch_consensus (sh_chain self) = consensus.
Proof.
  intros Hg Hr. induction Hr as [c pool cache Hinit|self self' now block nv r Hr [Hc Hcons] Had H].
  - by apply (init_first blake2b).
  - destruct (process_block_ok _ _ _ _ _ _ Hc Had H) as [? ->]. done.
Qed.



(** C36. A refused block leaves no trace.  When [process_block] returns an error, the
    store, the tip, the cells, the proposals and the pool are as before; only
    the cache of verified transactions may have grown. *)
Theorem refused_block_changes_nothing now self block nv self' e :
  process now self block nv = Ok (self', inl e) ->
  sh_chain self' = sh_chain self /\ sh_pool self' = sh_pool self.
Proof.
  intros H. apply process_block_cases in H as [(e' & _ & Hc & Hp)|(ext & epoch & ne & ds & Hr & _)]; done.
Qed.

(** The choice of the tip.  An accepted block becomes the tip exactly when its
    chain has more work than the current one, or the same work and the block
    has a smaller hash than the tip; otherwise the tip, the cells, the proposals
    and the pool are as before and the store only gains the block. *)
Theorem accepted_block_tip now self block nv self' ds :
  chain_ok (sh_chain self) -> admissible (sh_chain self) block -> process now self block nv = Ok (self', inr ds) ->
  exists pext, sd_ext (ch_store (sh_chain self)) !! b_parent block = Some pext /\
    let w := total_difficulty pext + h_difficulty (b_header block) in
    if decide (chain_total_difficulty (sh_chain self) < w \/
               (chain_total_difficulty (sh_chain self) = w /\ b_hash block < tip_hash (sh_chain self)))
    then tip_header (sh_chain self') = b_header block
    else ch_tip (sh_chain self') = ch_tip (sh_chain self) /\ ch_proposal_ids (sh_chain self') = ch_proposal_ids (sh_chain self) /\
      sh_pool self' = sh_pool self /\
      sd_blocks (ch_store (sh_chain self')) = <[b_hash block := block]> (sd_blocks (ch_store (sh_chain self))) /\
      sd_hash_of (ch_store (sh_chain self')) = sd_hash_of (ch_store (sh_chain self)).
Proof.
  intros Hc Had H. apply process_block_cases in H as [(e & ? & _)|(ext & epoch & ne & ds' & _ & Hn & H)]; [done|].
  pose proof (new_block_ext_Ok _ _ _ _ _ _ Hn) as (_ & pext & p & Hpe & _ & Ht). exists pext. split; [done|].
  cbn zeta. rewrite <- Ht. destruct (more_work _ _ _) eqn:Hmore.
  - rewrite decide_True by (by apply more_work_heavier).
    by destruct (switch_chain_ok _ _ _ _ _ _ _ _ _ _ _ _ _ _ _ _ Hc Had Hn Hmore H) as (_ & ? & _).
  - rewrite decide_False by (rewrite <- more_work_heavier; congruence). destruct H as [-> _]. done.
Qed.

Lemma work_fun s h w w' : blocks_ok s -> work s h w -> work s h w' -> w = w'.
Proof.
  intros Hok Hw. revert w'. induction Hw as [h b Hb H0|h b w Hb Hpos Hw IH]; intros w' Hw'; inversion Hw'; simplify_eq; try lia.
  by rewrite (IH _ H1).
Qed.

(** A block that is processed again loses what its verification found.  A
    block of the main chain has been verified; when it is handed to the chain
    once more and passes the checks that need no context, it stays on the main
    chain, but its extra data are replaced by those of an unverified block
    without fees. *)
Theorem resubmitted_block_loses_fees now self block nv ext epoch ne :
  let c := sh_chain self in let s := ch_store c in
  chain_ok c -> main_block s (b_number block) = Some block -> 0 < b_number block ->
  (nv = true -> BlockVerifier_verify blake2b merkle_root (ch_consensus c) pow block = Ok tt) ->
  new_block_ext now c block = Ok (ext, epoch, ne) ->
  is_verified s (b_hash block) /\
  exists self', process now self block nv = Ok (self', inr [block]) /\
    main_block (ch_store (sh_chain self')) (b_number block) = Some block /\
    exists ext', sd_ext (ch_store (sh_chain self')) !! b_hash block = Some ext' /\ verified ext' = None /\ txs_fees ext' = [].
Proof.
  intros c s Hc Hmain Hpos Hbv Hn. subst s. pose proof (main_block_stored c _ _ Hc Hmain) as Hb.
  pose proof (main_hash _ _ _ _ (co_main c Hc) Hmain) as Hh. split; [by eapply main_verified|].
  pose proof (new_block_ext_Ok _ _ _ _ _ _ Hn) as (Hv & pext & p & Hpe & Hp & Ht).
  pose proof (co_stored c Hc) as Hs. destruct (st_ext _ Hs _ _ Hb) as [e He].
  assert (total_difficulty e = total_difficulty ext) as Htot.
  { apply (work_fun (ch_store c) (b_hash block)); [apply (st_blocks _ Hs)|by apply (st_work _ Hs _ block)|]. rewrite Ht.
    apply (work_step _ _ block); [done|done|]. by apply (st_work _ Hs _ p). }
  assert (more_work c (total_difficulty ext) block = false) as Hmore.
  { apply not_true_iff_false. rewrite more_work_heavier, <- Htot. pose proof (co_heaviest c Hc _ _ _ Hb He) as H.
    unfold heavier in H. lia. }
  exists (mkShared (with_store (side_store block ext epoch (ch_store c)) c) (sh_pool self) (sh_cache self)). split_and!.
  - unfold process_block, chain_insert_block. fold c. destruct nv; [rewrite Hbv by done|]; cbn; rewrite Hn; cbn; by rewrite Hmore.
  - unfold main_block. cbn. rewrite Hh. cbn. by rewrite lookup_insert_eq.
  - exists ext. cbn. rewrite lookup_insert_eq. split_and!; [done|done|].
    unfold new_block_ext in Hn. outcome_inv. match goal with x : _ * _ |- _ => destruct x end. outcome_inv. by subst ext.
Qed.
End reach.

(** ** A small chain *)
Module ReachExample.
Definition genesis : Block := simple_block 0 0 100 [simple_tx 10 [] 2].
Definition a1 : Block := simple_block 1 100 111 [simple_tx 11 [] 1].
Definition b1 : Block := simple_block 1 100 101 [simple_tx 12 [] 1].
Definition a2 : Block := simple_block 2 111 112 [simple_tx 13 [] 1].
Definition consensus : Consensus := Consensus_default genesis.
Definition pow : PowEngine := mkPowEngine (fun _ => true) 0.
Definition hash (bs : Bytes) : H256 := 7.
Definition root (l : list H256) : H256 := 0.
Definition encode (us : list UncleBlock) : Bytes := [].
Definition scripts (rtx : ResolvedTransaction) (max : Z) : outcome ScriptError Z := Ok 0.
Definition insert_entry (m : gmap Z Z) (k v : Z) : gmap Z Z := <[k := v]> m.
Abbreviation State := (Shared (M := AssocList Bytes) (L := AssocList Bytes)).
Abbreviation process_with verify now self block :=
  (process_block (W := AssocList H256) (E := unit) hash root encode scripts pow some_order elements insert_entry now self block verify).
Abbreviation process now self block := (process_with false now self block).
Definition start : ChainState :=
  ok_value (mkChainState empty_store (mkTipState (b_header genesis) 0 ∅ ∅) (TxProposalTable_new (mkWindow 0 0)) consensus
    (genesis_epoch_ext consensus)) (ChainState_init hash consensus empty_store ∅).
Definition state0 : State := mkShared start (TxPool_new TxPoolConfig_default) ∅.
Definition after (now : Z) (self : State) (block : Block) : State * (ChainError + list Block) :=
  ok_value (self, inr []) (process now self block).
Definition state1 : State := (after 5 state0 a1).1.
Definition state2 : State := (after 6 state1 b1).1.
Definition state3 : State := (after 7 state2 a2).1.

Lemma consensus_genesis : genesis_ok consensus.
Proof. split; by_compute. Qed.

Definition admissibleb (c : ChainState) (block : Block) : bool :=
  match sd_blocks (ch_store c) !! b_hash block, sd_blocks (ch_store c) !! b_parent block with
  | None, Some p => bool_decide (b_number block = b_number p + 1) && bool_decide (b_number block < U64_SIZE - 1)
  | _, _ => false
  end.
Lemma admissibleb_ok c block : admissibleb c block = true -> admissible c block.
Proof.
  unfold admissibleb. destruct (sd_blocks _ !! b_hash block) eqn:H1; [done|].
  destruct (sd_blocks _ !! b_parent block) as [p|] eqn:H2; [|done].
  intros [H3%bool_decide_eq_true H4%bool_decide_eq_true]%andb_true_iff. split; eauto.
Qed.

#[local] Abbreviation reach := (reachable (W := AssocList H256) (E := unit) hash root encode scripts pow some_order elements insert_entry consensus).

Lemma process_after now self block :
  is_ok (process now self block) = true ->
  process now self block = Ok ((after now self block).1, (after now self block).2).
Proof. intros Hok. rewrite (ok_value_eq (self, inr []) _ Hok). unfold after. by destruct (ok_value _ _). Qed.

Lemma reach_after now self block :
  reach self -> admissibleb (sh_chain self) block = true -> is_ok (process now self block) = true -> reach (after now self block).1.
Proof.
  intros Hr Had Hok. apply admissibleb_ok in Had. eapply reach_step with (now := now) (block := block) (nv := false) (r := (after now self block).2); [done|done|].
  exact (process_after now self block Hok).
Qed.

Lemma reach0 : reach state0.
Proof. apply reach_init. apply ok_value_eq. by_compute. Qed.
Lemma reach1 : reach state1.
Proof. apply reach_after; [exact reach0|by_compute..]. Qed.
Lemma reach2 : reach state2.
Proof. apply reach_after; [exact reach1|by_compute..]. Qed.
Lemma reach3 : reach state3.
Proof. apply reach_after; [exact reach2|by_compute..]. Qed.
Lemma state3_ok : chain_ok (sh_chain state3).
Proof. apply (reachable_ok _ _ _ _ _ _ _ _ _ _ consensus_genesis reach3). Qed.

(** A block that spends an unknown cell. *)
Definition cellbase (number hash : Z) : Transaction :=
  mkTransaction 0 [] [new_cellbase_input number] [simple_output 10000000000] [[replicate 32 0]] hash hash.
Definition bad : Block := simple_block 3 112 113 [cellbase 3 14; simple_tx 15 [new_cell 77 0] 1].
End ReachExample.

Section witnesses.
Import ReachExample.



(** The block with the unknown cell has more work and is refused. *)
Definition refused : State * (ChainError + list Block) := ok_value (state3, inr []) (process_with true 8 state3 bad).
Definition returned_error (p : State * (ChainError + list Block)) : option ChainError :=
  match p.2 with inl e => Some e | inr _ => None end.
Definition unknown_cell : ChainError := ChainShared (SharedUnresolvableTransaction (UnresolvableUnknown [new_cell 77 0])).

Lemma refused_eq : process_with true 8 state3 bad = Ok (refused.1, refused.2).
Proof. rewrite <- surjective_pairing. apply ok_value_eq. by_compute. Qed.

Lemma refused_block_changes_nothing_witness :
  returned_error refused = Some unknown_cell /\
  sh_chain refused.1 = sh_chain state3 /\ sh_pool refused.1 = sh_pool state3.
Proof.
  assert (returned_error refused = Some unknown_cell) as He by (vm_compute; reflexivity).
  assert (refused.2 = inl unknown_cell) as H2.
  { revert He. unfold returned_error. destruct refused.2 as [e|]; [|done]. by intros [= ->]. }
  pose proof refused_eq as Hr. rewrite H2 in Hr. exact (conj He (refused_block_changes_nothing (W := AssocList H256) (E := unit)
    hash root encode scripts pow some_order elements insert_entry 8 state3 bad true refused.1 unknown_cell Hr)).
Defined.

Lemma accepted_block_tip_witness : tip_header (sh_chain (after 7 state2 a2).1) = b_header a2.
Proof.
  assert ((after 7 state2 a2).2 = inr [b1]) as H2 by (vm_compute; reflexivity).
  assert (is_ok (process 7 state2 a2) = true) as Hok by by_compute.
  pose proof (process_after 7 state2 a2 Hok) as Ha. rewrite H2 in Ha.
  pose proof (proj1 (reachable_ok _ _ _ _ _ _ _ _ _ _ consensus_genesis reach2)) as Hc.
  assert (admissible (sh_chain state2) a2) as Had by (apply admissibleb_ok; by_compute).
  destruct (accepted_block_tip (W := AssocList H256) (E := unit) hash root encode scripts pow some_order elements
    insert_entry 7 state2 a2 false (after 7 state2 a2).1 [b1] Hc Had Ha) as (pext & Hpe & H). cbv zeta in H.
  assert ((total_difficulty <$> sd_ext (ch_store (sh_chain state2)) !! b_parent a2) = Some 2) as Hw by by_compute.
  rewrite Hpe in Hw. injection Hw as Hw. rewrite Hw in H.
  assert (chain_total_difficulty (sh_chain state2) < 2 + h_difficulty (b_header a2)) as Hlt by by_compute.
  rewrite decide_True in H by (left; exact Hlt). exact H.
Defined.

(** The block 1 of the main chain is handed to the chain again. *)
Lemma resubmitted_block_loses_fees_witness :
  let s := ch_store (sh_chain state3) in
  is_verified s (b_hash a1) /\
  exists self', process_with false 9 state3 a1 = Ok (self', inr [a1]) /\
    main_block (ch_store (sh_chain self')) 1 = Some a1 /\
    exists ext', sd_ext (ch_store (sh_chain self')) !! b_hash a1 = Some ext' /\ verified ext' = None /\ txs_fees ext' = [].
Proof.
  assert (is_ok (new_block_ext 9 (sh_chain state3) a1) = true) as Hok by by_compute.
  destruct (new_block_ext 9 (sh_chain state3) a1) as [[[ext epoch] ne]| |] eqn:Hn; [|discriminate Hok|discriminate Hok].
  assert (main_block (ch_store (sh_chain state3)) (b_number a1) = Some a1) as Hm by by_compute.
  exact (resubmitted_block_loses_fees (W := AssocList H256) (E := unit) hash root encode scripts pow some_order elements
    insert_entry 9 state3 a1 false ext epoch ne state3_ok Hm ltac:(by_compute)
    (fun H : false = true => False_ind _ (eq_ind false (fun b : bool => if b then False else True) I true H)) Hn).
Defined.
End witnesses.
