(* ===== verification/ChainApi.v ===== *)
(** * What the chain service promises

    The synchronizer and the relayer hand blocks to the chain and read its
    store.  [ChainLaws] is what they rely on, whatever block is handed in, also
    one that is stored already; [process_block] keeps it. *)
From S2P Require Import Prelude Capacity ByteStrings Transactions Blocks CellSet Cells Epochs ChainStore Fork VerifyErrors ProposalTable MedianTime HeaderVerify BlockVerify LinkedMap ProposedPool TxPool ChainPool ChainService ChainInvariant ChainReach.

(** A refused block changes nothing; an accepted block is stored with its extra
    data beside what was stored, and is the tip or leaves the tip. *)
Class ChainLaws {M L : Type -> Type} {E : Type}
    (process : @Shared M L -> Block -> outcome E (@Shared M L * (ChainError + list Block))) : Prop := {
  law_refused self block self' e : process self block = Ok (self', inl e) -> sh_chain self' = sh_chain self;
  law_accepted self block self' ds : process self block = Ok (self', inr ds) ->
    let c := sh_chain self in let c' := sh_chain self' in
    sd_blocks (ch_store c') = <[b_hash block := block]> (sd_blocks (ch_store c)) /\
    (forall h, h = b_hash block \/ is_Some (sd_ext (ch_store c) !! h) -> is_Some (sd_ext (ch_store c') !! h)) /\
    ch_consensus c' = ch_consensus c /\
    (tip_header c' = tip_header c \/ tip_header c' = b_header block)
}.

(** ** The fork ends with the new block *)
Section fork_end.
Context {E : Type} (s : StoreData).

Definition ends_with (b : Block) (f : ForkChanges) : Prop := last (attached_blocks f) = Some b /\ dirty_exts f <> [].

Lemma see_ext_end f hash unseen f' u : see_ext (E := E) s f hash unseen = Ok (f', u) ->
  attached_blocks f' = attached_blocks f /\ (dirty_exts f <> [] -> dirty_exts f' <> []).
Proof.
  unfold see_ext. destruct unseen; [|by intros [= <- _]]. destruct (get_block_ext s hash) as [ext|]; cbn; [|done].
  destruct (verified ext); intros [= <- _]; done.
Qed.

Lemma ends_with_step b f hash unseen f' u nb :
  ends_with b f -> see_ext (E := E) s f hash unseen = Ok (f', u) -> ends_with b (push_attached_front nb f').
Proof.
  intros [H1 H2] Hs. destruct (see_ext_end _ _ _ _ _ Hs) as [H3 H4]. split; [|by apply H4]. cbn. rewrite H3.
  by destruct (attached_blocks f).
Qed.

Lemma detach_range_end b f a t f' : ends_with b f -> detach_range (E := E) s f a t = Ok f' -> ends_with b f'.
Proof.
  unfold detach_range. revert f. induction (seqZ a (t - a + 1)) as [|n l IH]; intros f Hf H; cbn in H; [by injection H as <-|].
  destruct (get_block_hash s n) as [h|]; cbn in H; [|done]. destruct (get_block s h) as [ob|]; cbn in H; [|done].
  eapply IH; [|exact H]. exact Hf.
Qed.

Lemma attach_above_end b t number : forall hash unseen f f' i,
  ends_with b f -> attach_above (E := E) s t number hash unseen f = Ok (f', i) -> ends_with b f'.
Proof.
  induction number as [|n IH]; intros hash unseen f f' i Hf H; cbn in H; [by injection H as <- _|].
  case_decide; [|by injection H as <- _]. destruct (see_ext s f hash unseen) as [[f1 u]| |] eqn:Hs; cbn in H; [|done|done].
  destruct (get_block s hash) as [nb|]; cbn in H; [|done]. eapply IH; [|exact H]. by eapply ends_with_step.
Qed.

Lemma until_common_end b number : forall hash unseen f f',
  ends_with b f -> find_fork_until_latest_common (E := E) s number hash unseen f = Ok f' -> ends_with b f'.
Proof.
  induction number as [|n IH]; intros hash unseen f f' Hf H; cbn [find_fork_until_latest_common] in H; [by injection H as <-|].
  destruct (get_block_hash s _) as [dh|]; cbn in H; [|done]. case_decide; [by injection H as <-|].
  destruct (get_block s dh) as [db|]; cbn in H; [|done].
  destruct (see_ext s _ hash unseen) as [[f1 u]| |] eqn:Hs; cbn in H; [|done|done].
  destruct (get_block s hash) as [nb|]; cbn in H; [|done]. eapply IH; [|exact H].
  eapply ends_with_step; [|exact Hs]. exact Hf.
Qed.

Lemma find_fork_end t b ext fork : find_fork (E := E) s t b ext = Ok fork -> ends_with b fork.
Proof.
  unfold find_fork, alignment_fork. intros H. apply bind_Ok in H as (n & _ & H).
  apply bind_Ok in H as ([f i] & Ha & H). assert (ends_with b (mkFork [b] [] [ext])) as H0 by done.
  eapply until_common_end; [|exact H]. case_decide.
  - apply bind_Ok in Ha as (f1 & Hd & [= <- <-]). by eapply detach_range_end.
  - by eapply attach_above_end.
Qed.
End fork_end.

Lemma zip_drop_last {A B} (l : list A) (k : list B) b :
  (length l <= length k)%nat -> l <> [] -> last k = Some b -> b ∈ (zip l (drop (length k - length l) k)).*2.
Proof.
  intros Hle Hne Hb. rewrite snd_zip by (rewrite length_drop; lia).
  destruct l as [|a l]; [done|]. rewrite <- (take_drop (length k - length (a :: l)) k) in Hb.
  rewrite last_app_Some in Hb. destruct Hb as [Hb|[Hnil _]]; [by apply last_Some_elem_of|].
  apply last_None, (f_equal length) in Hnil. rewrite length_drop in Hnil. cbn in *. lia.
Qed.

Section instance.
Context {M L W : Type -> Type} `{LM : !LinkedHashMap Bytes M} `{LL : !LruCache Bytes L} `{LW : !LinkedHashMap H256 W}.
Context (blake2b : Bytes -> H256) (merkle_root : list H256 -> H256) (serialize_uncles : list UncleBlock -> Bytes).
Context (script_verify : ResolvedTransaction -> Z -> outcome ScriptError Z) (pow : PowEngine).
Context (diff_order : CellSetDiff -> DiffOrder) (ids_order : gset Bytes -> list Bytes).
Context (cache_insert : gmap Z Z -> Z -> Z -> gmap Z Z) {E : Type} (now : Z) (need_verify : bool).

(** The extra data that a reconciliation writes, the new block's among it. *)
Lemma reconcile_writes batch fork c cache cache' batch' diff b :
  ends_with b fork ->
  reconcile_main_chain (E := E) blake2b serialize_uncles script_verify pow diff_order cache_insert batch fork c cache need_verify
    = Ok (cache', inr (batch', diff)) ->
  exists results, batch' = write_exts batch results /\ b_hash b ∈ results.*2.
Proof.
  intros [Hlast Hne] H. unfold reconcile_main_chain in H. apply bind_Ok in H as (n & Hn & H).
  apply sub_w_Ok in Hn as [-> Hlen]. apply bind_Ok in H as (vc & _ & H). apply bind_Ok in H as ([st results] & Hb & H).
  destruct (rc_error st) eqn:He; [by injection H|]. injection H as _ <- _. exists results. split; [done|].
  destruct (verify_branch_verified _ _ _ _ _ _ _ _ _ _ _ _ Hb He) as [_ Hf].
  assert (results.*2 = b_hash <$> (zip (dirty_exts fork) (drop (Z.to_nat (len (attached_blocks fork) - len (dirty_exts fork))) (attached_blocks fork))).*2) as ->.
  { clear Hb. induction Hf as [|r x rs xs [Hr _] Hf IH]; [done|]. rewrite !fmap_cons. by rewrite Hr, IH. }
  apply list_elem_of_fmap. exists b. split; [done|]. unfold len in *.
  replace (Z.to_nat (Z.of_nat (length (attached_blocks fork)) - Z.of_nat (length (dirty_exts fork))))
    with (length (attached_blocks fork) - length (dirty_exts fork))%nat by lia. apply zip_drop_last; [lia|done|done].
Qed.

Lemma write_exts_known s l h : h ∈ l.*2 \/ is_Some (sd_ext s !! h) -> is_Some (sd_ext (write_exts s l) !! h).
Proof. intros Hh. destruct (write_exts_lookup s l h) as [(e & _ & ->)|[Hni ->]]; [done|]. by destruct Hh. Qed.

Lemma switched_keeps self nb ext epoch ne self' ds :
  switch_tip (M := M) (L := L) (W := W) (E := E) blake2b serialize_uncles script_verify pow diff_order ids_order cache_insert now
    self nb ext epoch ne need_verify = Ok (self', inr ds) ->
  let c := sh_chain self in let c' := sh_chain self' in
  sd_blocks (ch_store c') = <[b_hash nb := nb]> (sd_blocks (ch_store c)) /\
  (forall h, h = b_hash nb \/ is_Some (sd_ext (ch_store c) !! h) -> is_Some (sd_ext (ch_store c') !! h)) /\
  ch_consensus c' = ch_consensus c /\ tip_header c' = b_header nb.
Proof.
  intros H c. destruct (find_fork (E := E) (ch_store c) (tip_number c) nb ext) as [fork| |] eqn:Hf;
    [|unfold switch_tip in H; fold c in H; rewrite Hf in H; done..].
  destruct (switch_tip_inv _ _ _ _ _ _ _ _ _ _ _ _ _ _ _ _ _ Hf H) as (cache & batch & diff & table & removed & tip & Hrec & _ & Ht & _ & Hc').
  apply reconcile_writes with (b := nb) in Hrec as (results & -> & Hin); [|by eapply find_fork_end].
  cbv zeta. rewrite Hc'. fold c. cbn [ch_store ch_consensus]. set (s1 := update_index _ _ _ _).
  destruct (update_index_rest blake2b (detached_blocks fork) (attached_blocks fork) (store_block nb epoch (ch_store c))) as [Hb He _].
  destruct (write_exts_same s1 results) as [[Hw _ _] _]. unfold s1 in Hw at 2. rewrite Hb in Hw. split_and!; [| |done|done].
  - transitivity (sd_blocks (write_exts s1 results)); [by destruct (ne || _)|exact Hw].
  - intros h Hh. assert (is_Some (sd_ext (write_exts s1 results) !! h)); [|by destruct (ne || _)].
    apply write_exts_known. destruct Hh as [->|Hh]; [by left|]. right. unfold s1. by rewrite He.
Qed.

#[export] Instance process_block_laws :
  ChainLaws (fun self block => process_block (M := M) (L := L) (W := W) (E := E) blake2b merkle_root serialize_uncles
    script_verify pow diff_order ids_order cache_insert now self block need_verify).
Proof.
  split.
  - intros self block self' e H. by apply process_block_cases in H as [(? & _ & ? & _)|(? & ? & ? & ? & ? & _)].
  - intros self block self' ds H c c'. apply process_block_cases in H as [(? & ? & _)|(ext & epoch & ne & ds' & [= <-] & _ & H)]; [done|].
    destruct (more_work _ _ _).
    + apply switched_keeps in H as (? & ? & ? & ?). auto.
    + destruct H as [-> _]. unfold c'. cbn. split_and!; [done| |done|by left]. intros h Hh. fold c in Hh |- *.
      rewrite lookup_insert_is_Some'. destruct Hh as [->|Hh]; auto.
Qed.
End instance.
