(* ===== verification/SyncInvariant.v ===== *)
(** * What the synchronizer maintains *)
From stdpp Require Import sorting relations.
From coqutil Require Import Datatypes.RecordSetters.
From S2P Require Import Prelude Capacity ByteStrings Transactions Blocks Fixtures Protocol Epochs ChainStore VerifyErrors MedianTime HeaderVerify LinkedMap ProposedPool TxPool Compact OrphanPool SyncHeaders SyncPeers ChainPool ChainService ChainApi SyncState Synchronizer.

(** ** The number of the peers that are synced from *)
Definition sync_flags (peers : gmap Z PeerState) : gmap Z bool := sync_started <$> peers.
Definition count_true (flags : gmap Z bool) : Z := Z.of_nat (size (filter (fun kv => kv.2 = true) flags)).

Lemma count_true_nonneg flags : 0 <= count_true flags.
Proof. unfold count_true. lia. Qed.

Lemma count_true_insert flags k b :
  count_true (<[k := b]> flags) = count_true flags - (if flags !! k is Some true then 1 else 0) + (if b : bool then 1 else 0).
Proof.
  unfold count_true. assert (Hd : forall fl : gmap Z bool, fl !! k = None ->
    Z.of_nat (size (filter (fun kv => kv.2 = true) (<[k := b]> fl))) =
    Z.of_nat (size (filter (fun kv => kv.2 = true) fl)) + (if b : bool then 1 else 0)).
  { intros fl Hk. destruct b.
    - rewrite map_filter_insert_True, map_size_insert_None by (done || by apply map_lookup_filter_None; left). lia.
    - rewrite map_filter_insert_False, delete_id by done. lia. }
  rewrite <- insert_delete_eq, Hd by apply lookup_delete_eq.
  destruct (flags !! k) as [b0|] eqn:Hk; [|by rewrite delete_id by done; lia].
  rewrite <- (insert_delete_id flags k b0 Hk) at 2. clear Hd. destruct b0.
  - rewrite map_filter_insert_True, map_size_insert_None by (done || by apply map_lookup_filter_None; left; apply lookup_delete_eq). lia.
  - rewrite map_filter_insert_False, delete_delete_eq by done. lia.
Qed.

Lemma count_true_delete flags k : count_true (delete k flags) = count_true flags - (if flags !! k is Some true then 1 else 0).
Proof.
  destruct (flags !! k) as [b|] eqn:Hk; [|by rewrite delete_id, Z.sub_0_r].
  pose proof (count_true_insert (delete k flags) k b) as H. rewrite insert_delete_id, lookup_delete_eq in H by done. destruct b; lia.
Qed.

Lemma insert_view_lookup {E} (index index' : HeaderIndex) hash view :
  insert_header_view (E := E) index hash view = Ok index' ->
  exists view', get_header_view index' hash = Some view' /\
    (forall h, h <> hash -> get_header_view index' h = get_header_view index h) /\ hv_inner view' = hv_inner view.
Proof.
  unfold insert_header_view, build_skip. intros H. apply bind_Ok in H as (v & Hv & [= <-]).
  apply bind_Ok in Hv as (skip & _ & [= <-]). unfold get_header_view. cbn. rewrite lookup_insert_eq.
  eexists. split_and!; [done| |done]. intros h Hne. by rewrite lookup_insert_ne.
Qed.

Section invariant.
Context {M L P Q : Type -> Type} `{LP : !LruCache H256 P} `{LQ : !LruCache (PeerIndex * H256) Q}.
Context {E : Type} (blake2b : Bytes -> H256) (serialize_header : RawHeader -> Seal -> Bytes).
Context (pow : PowEngine) (process : @Shared M L -> Block -> outcome E (@Shared M L * (ChainError + list Block))).
Context `{Hlaws : !ChainLaws process}.
(** The hash of a header has no collisions. *)
Context (Hinj : forall raw seal raw' seal', blake2b (serialize_header raw seal) = blake2b (serialize_header raw' seal') ->
  raw = raw' /\ seal = seal').
#[local] Abbreviation SyncState := (SyncSharedState M L P Q).
Implicit Types self : SyncState.

(** ** What holds of the state *)
Definition well_hashed (h : Header) : Prop := h_hash h = blake2b (serialize_header (h_raw h) (h_seal h)).

Lemma well_hashed_eq h1 h2 : well_hashed h1 -> well_hashed h2 -> h_hash h1 = h_hash h2 -> h1 = h2.
Proof.
  intros H1 H2 H. pose proof H as H'. rewrite H1, H2 in H'. apply Hinj in H' as [Hr Hs]. destruct h1, h2; cbn in *. congruence.
Qed.

(** A header that the index gives. *)
Definition known (self : SyncState) (header : Header) : Prop :=
  exists v, get_header_view (ss_index self) (h_hash header) = Some v /\ hv_inner v = header.

Record peer_ok (self : SyncState) (state : PeerState) : Prop := {
  po_best : forall v, best_known_header state = Some v -> known self (hv_inner v);
  po_common : forall h, last_common_header state = Some h -> known self h;
  po_work : forall h, cs_work_header (chain_sync state) = Some h -> known self h;
  po_timeout : cs_timeout (chain_sync state) <> 0 -> is_Some (cs_work_header (chain_sync state))
}.

Record sync_ok (self : SyncState) : Prop := {
  so_views : views_ok (get_header_view (ss_index self));
  so_root : forall h v, get_header_view (ss_index self) h = Some v -> hv_number v = 0 -> h = genesis_hash (ss_consensus self);
  so_hashed : forall h v, get_header_view (ss_index self) h = Some v -> well_hashed (hv_inner v);
  so_stored : forall h b, sd_blocks (ss_store self) !! h = Some b ->
    b_hash b = h /\ well_hashed (b_header b) /\ is_Some (sd_ext (ss_store self) !! h);
  so_status : forall h status, ss_block_status_map self !! h = Some status ->
    status = FAILED_MASK \/ ((status = BLOCK_HAVE_MASK \/ status = VALID_MASK) /\ is_Some (get_header_view (ss_index self) h));
  so_valid : forall h, ss_block_status_map self !! h = Some VALID_MASK ->
    exists header, known self header /\ h_hash header = h /\ verify_header pow header = true /\ 0 < h_number header;
  so_tip : known self (tip_header (ss_chain self));
  so_best : known self (hv_inner (ss_shared_best_header self));
  so_peers : forall p state, ss_peers self !! p = Some state -> peer_ok self state
}.

Lemma stored_known self h b : sync_ok self -> sd_blocks (ss_store self) !! h = Some b -> b_hash b = h /\ known self (b_header b).
Proof.
  intros Hok Hb. destruct (so_stored _ Hok _ _ Hb) as (Hh & Hw & [ext He]). split; [done|]. unfold known.
  change (h_hash (b_header b)) with (b_hash b). rewrite Hh.
  assert (exists v, get_header_view (ss_index self) h = Some v) as [v Hv].
  { unfold get_header_view, get_block_header, get_block, get_block_ext. cbn. destruct (ss_header_map self !! h); [eauto|].
    rewrite Hb. cbn. rewrite He. cbn. eauto. }
  exists v. split; [done|]. apply well_hashed_eq; [by eapply so_hashed|done|].
  pose proof (vo_hash _ (so_views _ Hok) _ _ Hv) as Hvh. unfold hv_hash in Hvh. by rewrite Hvh.
Qed.

(** ** The abstract steps *)
Definition same_peer (state state' : PeerState) : Prop :=
  sync_started state' = sync_started state /\ best_known_header state' = best_known_header state /\
  last_common_header state' = last_common_header state /\ cs_work_header (chain_sync state') = cs_work_header (chain_sync state) /\
  cs_timeout (chain_sync state') = cs_timeout (chain_sync state).

(** Notes that the synchronization does not depend on: what is pending, in
    flight, the scores, the timeouts. *)
Record same_sync (self self' : SyncState) : Prop := {
  sa_shared : ss_shared self' = ss_shared self;
  sa_started : ss_n_sync_started self' = ss_n_sync_started self;
  sa_best : ss_shared_best_header self' = ss_shared_best_header self;
  sa_map : ss_header_map self' = ss_header_map self;
  sa_status : ss_block_status_map self' = ss_block_status_map self;
  sa_peers : forall p, option_Forall2 same_peer (ss_peers self !! p) (ss_peers self' !! p);
  sa_inflight : inflight_moves (ss_inflight_blocks self) (ss_inflight_blocks self');
  sa_pending : ss_pending_compact_blocks self' = ss_pending_compact_blocks self
}.

Inductive sync_op : SyncState -> SyncState -> Prop :=
| op_notes self self' : same_sync self self' -> sync_op self self'
| op_have self h :
    (** a stored block without a status, or one above the genesis block *)
    is_Some (get_block_header (ss_store self) h) ->
    ss_block_status_map self !! h = None \/ (exists header, known self header /\ h_hash header = h /\ 0 < h_number header) -> sync_op self (insert_block_status h BLOCK_HAVE_MASK self)
| op_fail self h : sync_op self (insert_block_status h FAILED_MASK self)
| op_header self header peer epoch parent self' :
    (** a header with the proof of work, one above a known parent *)
    well_hashed header -> verify_header pow header = true ->
    get_header_view (ss_index self) (h_parent_hash header) = Some parent ->
    ss_block_status_map self !! h_parent_hash header <> Some FAILED_MASK ->
    h_number header = hv_number parent + 1 -> h_number header < 2 ^ 63 ->
    insert_verified_header (E := E) header peer self = Ok self' ->
    sync_op self (insert_block_status (h_hash header) VALID_MASK (ss_insert_epoch header epoch self'))
| op_chain self block shared r :
    (** a block whose header was verified and whose parent is stored *)
    known self (b_header block) -> verify_header pow (b_header block) = true -> 0 < b_number block ->
    is_Some (get_block_header (ss_store self) (b_parent block)) ->
    process (ss_shared self) block = Ok (shared, r) -> sync_op self (self {{ ss_shared := shared }})
| op_forget self h :
    is_Some (get_block_header (ss_store self) h) -> sync_op self (ss_remove_header_view h self)
| op_peer self peer f :
    (forall state, sync_started (f state) = sync_started state) ->
    (forall state, peer_ok self state -> peer_ok self (f state)) ->
    sync_op self (self {{ ss_peers ::= alter f peer }})
| op_start self peer state timeout :
    ss_peers self !! peer = Some state -> sync_started state = false ->
    sync_op self (self {{ ss_peers ::= alter (start_sync timeout) peer; ss_n_sync_started ::= fetch_add }})
| op_stop self peer state until :
    ss_peers self !! peer = Some state -> sync_started state = true ->
    sync_op self (self {{ ss_peers ::= alter (stop_sync until) peer; ss_n_sync_started ::= fetch_sub }})
| op_connect self peer outbound :
    Z.of_nat (size (ss_peers self)) + 1 < U64_SIZE -> sync_op self (sync_on_connected outbound peer self)
| op_disconnect self peer self' : sync_disconnected (E := E) peer self = Ok self' -> sync_op self self'.

(** ** They keep what holds *)
Definition knows_more_than (self self' : SyncState) : Prop :=
  knows_more (get_header_view (ss_index self)) (get_header_view (ss_index self')).

Lemma known_mono self self' h : knows_more_than self self' -> known self h -> known self' h.
Proof. intros Hm (v & Hv & Hi). destruct (Hm _ _ Hv) as (v' & Hv' & Hi'). exists v'. split; [done|congruence]. Qed.

Lemma peer_ok_mono self self' st : knows_more_than self self' -> peer_ok self st -> peer_ok self' st.
Proof. intros Hm [H1 H2 H3 H4]. split; eauto using known_mono. Qed.

Lemma view_mono self self' h : knows_more_than self self' -> is_Some (get_header_view (ss_index self) h) -> is_Some (get_header_view (ss_index self') h).
Proof. intros Hm [v Hv]. destruct (Hm _ _ Hv) as (v' & ? & _). eauto. Qed.

Lemma knows_more_refl self self' : ss_index self' = ss_index self -> knows_more_than self self'.
Proof. unfold knows_more_than. intros ->. intros h v Hv. eauto. Qed.

(** A step that leaves the index, the statuses and the best header. *)
Lemma sync_ok_peers self self' :
  sync_ok self -> sh_chain (ss_shared self') = sh_chain (ss_shared self) -> ss_header_map self' = ss_header_map self ->
  ss_block_status_map self' = ss_block_status_map self -> ss_shared_best_header self' = ss_shared_best_header self ->
  (forall p state, ss_peers self' !! p = Some state -> peer_ok self state) -> sync_ok self'.
Proof.
  intros Hok Hc Hm Hs Hb Hp.
  assert (ss_index self' = ss_index self) as Hi by (unfold ss_index, ss_store, ss_chain; by rewrite Hc, Hm).
  assert (ss_chain self' = ss_chain self) as Hch by exact Hc.
  assert (Hk : forall h, known self' h <-> known self h) by (intros h; unfold known; by rewrite Hi).
  assert (Hpo : forall st, peer_ok self st -> peer_ok self' st) by (intros st; apply peer_ok_mono; by apply knows_more_refl).
  destruct Hok as [H1 H0 H2 H3 H4 H5 H6 H7 H8].
  split; unfold ss_store, ss_consensus in *; rewrite ?Hi, ?Hs, ?Hb, ?Hch; try done.
  - intros h Hh. destruct (H5 h Hh) as (hd & ? & ?). exists hd. by rewrite Hk.
  - by apply Hk.
  - by apply Hk.
  - eauto.
Qed.

Lemma sync_ok_status self h status :
  sync_ok self ->
  (status = FAILED_MASK \/ ((status = BLOCK_HAVE_MASK \/ status = VALID_MASK) /\ is_Some (get_header_view (ss_index self) h))) ->
  (status = VALID_MASK -> exists header, known self header /\ h_hash header = h /\ verify_header pow header = true /\ 0 < h_number header) ->
  sync_ok (insert_block_status h status self).
Proof.
  intros [H1 H0 H2 H3 H4 H5 H6 H7 H8] Hs Hv. split; [exact H1|exact H0|exact H2|exact H3| | |exact H6|exact H7|].
  - intros h' st'. cbn. rewrite lookup_insert_Some. intros [[<- <-]|[_ ?]]; [done|by apply H4].
  - intros h'. cbn. rewrite lookup_insert_Some. intros [[<- ->]|[_ ?]]; [by apply Hv|by apply H5].
  - intros p st Hp. apply (peer_ok_mono self); [by apply knows_more_refl|by apply (H8 p)].
Qed.

Lemma header_view_stored self h : sync_ok self -> is_Some (get_block_header (ss_store self) h) -> is_Some (get_header_view (ss_index self) h).
Proof.
  intros Hok [hd Hh]. unfold get_block_header, get_block in Hh. destruct (sd_blocks _ !! h) as [b|] eqn:Hb; [|done].
  destruct (stored_known _ _ _ Hok Hb) as [<- (v & Hv & _)]. eauto.
Qed.
(** A step that only adds to the index and leaves the statuses. *)
Lemma sync_ok_grow self self' :
  sync_ok self -> knows_more_than self self' -> ss_block_status_map self' = ss_block_status_map self ->
  ss_consensus self' = ss_consensus self -> views_ok (get_header_view (ss_index self')) ->
  (forall h v, get_header_view (ss_index self') h = Some v -> hv_number v = 0 ->
    exists v0, get_header_view (ss_index self) h = Some v0 /\ hv_number v0 = 0) ->
  (forall h v, get_header_view (ss_index self') h = Some v -> well_hashed (hv_inner v)) ->
  (forall h b, sd_blocks (ss_store self') !! h = Some b ->
    b_hash b = h /\ well_hashed (b_header b) /\ is_Some (sd_ext (ss_store self') !! h)) ->
  known self' (tip_header (ss_chain self')) -> known self' (hv_inner (ss_shared_best_header self')) ->
  (forall p state, ss_peers self' !! p = Some state -> peer_ok self' state) -> sync_ok self'.
Proof.
  intros Hok Hm Hs Hcons H1 H0 H2 H3 H4 H5 H6. split; try done; try rewrite Hs.
  - intros h v Hv Hn. destruct (H0 _ _ Hv Hn) as (v0 & ? & ?). rewrite Hcons. by eapply so_root.
  - intros h st Hst. destruct (so_status _ Hok _ _ Hst) as [|[? ?]]; [by left|right]. split; [done|]. by eapply view_mono.
  - intros h Hst. destruct (so_valid _ Hok _ Hst) as (hd & ? & ?). exists hd. split; [by eapply known_mono|done].
Qed.

Lemma insert_verified_fields self header peer parent self' :
  get_header_view (ss_index self) (h_parent_hash header) = Some parent ->
  insert_verified_header (E := E) header peer self = Ok self' ->
  exists uncles, let view := HeaderView_new header (hv_total_difficulty parent + h_difficulty header) uncles in
    insert_header_view (E := E) (ss_index self) (h_hash header) view = Ok (ss_index self') /\
    ss_shared self' = ss_shared self /\ ss_n_sync_started self' = ss_n_sync_started self /\
    ss_block_status_map self' = ss_block_status_map self /\ ss_peers self' = new_header_received peer view (ss_peers self) /\
    ss_shared_best_header self' = if better_view (hv_total_difficulty view) (h_hash header) (ss_shared_best_header self)
                                  then view else ss_shared_best_header self.
Proof.
  intros Hp H. unfold insert_verified_header in H. rewrite Hp in H.
  apply bind_Ok in H as (td & [-> _]%add_w_Ok & H). apply bind_Ok in H as (uncles & _ & H). cbv zeta in H.
  exists uncles. cbv zeta. cbn [hv_total_difficulty HeaderView_new]. unfold ss_insert_header_view in H. apply bind_Ok in H as (index & Hins & H).
  assert (hi_store index = ss_store self) as Hst.
  { unfold insert_header_view in Hins. apply bind_Ok in Hins as (v & _ & [= <-]). by destruct (better_view _ _ _). }
  assert (index = mkHeaderIndex (ss_store self) (hi_header_map index)) as Hix by (destruct index; cbn in *; congruence).
  destruct (better_view _ _ _); injection H as <-; (split_and!; try reflexivity);
    (etransitivity; [exact Hins|]; rewrite Hix; reflexivity).
Qed.

Lemma new_header_received_ok self peer view peers p state :
  (forall p state, peers !! p = Some state -> peer_ok self state) -> known self (hv_inner view) ->
  new_header_received peer view peers !! p = Some state -> peer_ok self state.
Proof.
  intros Hp Hk. unfold new_header_received. destruct (peers !! peer) as [st|] eqn:Hst; [|apply Hp].
  assert (peer_ok self (SyncPeers.with_headers (Some view) (last_common_header st) st)) as Hn.
  { destruct (Hp _ _ Hst) as [H1 H2 H3 H4]. split; cbn; [by intros v [= <-]|done|done|done]. }
  destruct (best_known_header st) as [hv|]; [destruct (better_view _ _ _); [|apply Hp]|];
    rewrite lookup_insert_Some; (intros [[_ <-]|[_ ?]]; [done|by eapply Hp]).
Qed.

Lemma sync_ok_header self header peer epoch parent self' :
  sync_ok self -> well_hashed header -> verify_header pow header = true ->
  get_header_view (ss_index self) (h_parent_hash header) = Some parent ->
  h_number header = hv_number parent + 1 -> h_number header < 2 ^ 63 ->
  insert_verified_header (E := E) header peer self = Ok self' ->
  sync_ok (insert_block_status (h_hash header) VALID_MASK (ss_insert_epoch header epoch self')) /\
  knows_more_than self self' /\ known self' header.
Proof.
  intros Hok Hw Hpow Hp Hnum Hlt H.
  destruct (insert_verified_fields _ _ _ _ _ Hp H) as (uncles & Hins & Hsh & _ & Hst & Hpeers & Hbest). cbv zeta in *.
  set (view := HeaderView_new _ _ _) in *.
  assert (header_fits (ss_index self) header) as Hfit.
  { pose proof (vo_range _ (so_views _ Hok) _ _ Hp). split_and!; [unfold hv_number in *; lia|done|eauto|].
    intros v Hv. apply well_hashed_eq; [by eapply so_hashed|done|]. by pose proof (vo_hash _ (so_views _ Hok) _ _ Hv). }
  pose proof (insert_view_step _ _ _ _ _ (so_views _ Hok) Hfit Hins) as Hviews.
  destruct (insert_view_lookup _ _ _ _ Hins) as (view' & Hnew & Hold & Hiv).
  assert (known self' header) as Hk by (exists view'; by rewrite Hnew).
  assert (knows_more_than self self') as Hm.
  { intros h v Hv. destruct (decide (h = h_hash header)) as [->|Hne]; [|exists v; by rewrite Hold].
    exists view'. split; [done|]. rewrite Hiv. symmetry. by apply (proj2 (proj2 Hfit)). }
  split; [|done]. apply sync_ok_status; [|right; split; [by right|by exists view']|intros _; exists header; split_and!; [done..|apply Hfit]].
  assert (ss_store self' = ss_store self) as Hstore by (unfold ss_store, ss_chain; by rewrite Hsh).
  assert (forall p st, ss_peers self' !! p = Some st -> peer_ok self' st) as Hps.
  { rewrite Hpeers. intros p st. apply (new_header_received_ok self'); [|exact Hk].
    intros p' st' Hp'. eapply peer_ok_mono; [exact Hm|by eapply so_peers]. }
  apply (sync_ok_peers self'); try done.
  apply (sync_ok_grow self); [done|exact Hm|exact Hst|by unfold ss_consensus, ss_chain; rewrite Hsh|exact Hviews| | | | | |done].
  - intros h v Hv H0. destruct (decide (h = h_hash header)) as [->|Hne]; [|exists v; by rewrite <- Hold].
    assert (v = view') as -> by congruence. unfold hv_number in H0. rewrite Hiv in H0. cbn in H0. destruct Hfit. lia.
  - intros h v Hv. destruct (decide (h = h_hash header)) as [->|Hne].
    + assert (v = view') as -> by congruence. by rewrite Hiv.
    + rewrite Hold in Hv by done. by eapply so_hashed.
  - rewrite Hstore. apply Hok.
  - unfold ss_chain. rewrite Hsh. eapply known_mono; [exact Hm|apply Hok].
  - rewrite Hbest. destruct (better_view _ _ _); [exact Hk|eapply known_mono; [exact Hm|apply Hok]].
Qed.
Lemma known_fits self header :
  sync_ok self -> known self header -> 0 < h_number header -> header_fits (ss_index self) header.
Proof.
  intros Hok (v & Hv & <-) Hpos. pose proof (vo_range _ (so_views _ Hok) _ _ Hv) as Hr.
  destruct (vo_parent _ (so_views _ Hok) _ _ Hv Hpos) as (p & Hp & Hn). split_and!; [done|apply Hr|by exists p|].
  intros v' Hv'. congruence.
Qed.

(** What the index gives after a block was stored. *)
Lemma accepted_view self block shared ds h v' :
  sync_ok self -> process (ss_shared self) block = Ok (shared, inr ds) ->
  get_header_view (ss_index (self {{ ss_shared := shared }})) h = Some v' ->
  (h = b_hash block /\ hv_inner v' = b_header block /\ hv_skip_hash v' = None) \/
  (exists v, get_header_view (ss_index self) h = Some v /\ hv_inner v' = hv_inner v /\ hv_skip_hash v' = hv_skip_hash v).
Proof.
  intros Hok Hp. destruct (law_accepted _ _ _ _ Hp) as (Hb & He & _).
  change (ss_index (self {{ ss_shared := shared }})) with (mkHeaderIndex (ch_store (sh_chain shared)) (ss_header_map self)).
  unfold get_header_view, get_block_header, get_block, get_block_ext. cbn [hi_header_map hi_store ss_index]. destruct (ss_header_map self !! h) as [v|]; [intros [= <-]; right; eauto|].
  rewrite Hb. destruct (decide (h = b_hash block)) as [->|Hne].
  - rewrite lookup_insert_eq. cbn. destruct (sd_ext _ !! _); [|done]. intros [= <-]. by left.
  - rewrite lookup_insert_ne by done. change (sd_blocks (ch_store (sh_chain (ss_shared self)))) with (sd_blocks (ss_store self)).
    destruct (sd_blocks _ !! h) as [b|] eqn:Hbh; [|done]. cbn.
    destruct (so_stored _ Hok _ _ Hbh) as (_ & _ & [ext Hext]). rewrite Hext. cbn.
    destruct (sd_ext (ch_store (sh_chain shared)) !! h); [|done]. cbn. intros [= <-]. right. eauto.
Qed.

Lemma accepted_more self block shared ds :
  sync_ok self -> header_fits (ss_index self) (b_header block) ->
  process (ss_shared self) block = Ok (shared, inr ds) ->
  knows_more_than self (self {{ ss_shared := shared }}) /\ known (self {{ ss_shared := shared }}) (b_header block).
Proof.
  intros Hok (_ & _ & Hsame) Hp. destruct (law_accepted _ _ _ _ Hp) as (Hb & He & _).
  assert (Hnew : forall h, is_Some (get_header_view (ss_index self) h) \/ h = b_hash block ->
    exists v, get_header_view (ss_index (self {{ ss_shared := shared }})) h = Some v).
  { intros h Hh. change (ss_index (self {{ ss_shared := shared }})) with (mkHeaderIndex (ch_store (sh_chain shared)) (ss_header_map self)).
    unfold get_header_view, get_block_header, get_block, get_block_ext in Hh |- *. cbn [hi_header_map hi_store ss_index] in Hh |- *. destruct (ss_header_map self !! h) as [v|]; [eauto|].
    rewrite Hb. destruct (decide (h = b_hash block)) as [->|Hne].
    - rewrite lookup_insert_eq. cbn. destruct (He (b_hash block)) as [e ->]; [by left|]. eauto.
    - rewrite lookup_insert_ne by done. destruct Hh as [[v Hh]|]; [|done]. destruct (sd_blocks _ !! h); [|done]. cbn in Hh |- *.
      destruct (sd_ext _ !! h) eqn:Hx; [|done]. destruct (He h) as [e ->]; [right; eexists; exact Hx|]. eauto. }
  split.
  - intros h v Hv. destruct (Hnew h) as [v' Hv']; [eauto|]. exists v'. split; [done|].
    destruct (accepted_view _ _ _ _ _ _ Hok Hp Hv') as [(-> & Hi & _)|(v0 & Hv0 & Hi & _)]; [|congruence]. rewrite Hi. symmetry. by apply Hsame.
  - destruct (Hnew (b_hash block)) as [v' Hv']; [by right|]. exists v'. split; [done|].
    destruct (accepted_view _ _ _ _ _ _ Hok Hp Hv') as [(_ & ? & _)|(v0 & Hv0 & Hi & _)]; [done|]. rewrite Hi. by apply Hsame.
Qed.

Lemma sync_ok_chain self block shared r :
  sync_ok self -> well_hashed (b_header block) -> header_fits (ss_index self) (b_header block) ->
  process (ss_shared self) block = Ok (shared, r) ->
  sync_ok (self {{ ss_shared := shared }}) /\ knows_more_than self (self {{ ss_shared := shared }}) /\
  (forall ds, r = inr ds -> get_block_header (ss_store (self {{ ss_shared := shared }})) (b_hash block) = Some (b_header block)).
Proof.
  intros Hok Hw Hfit Hp. destruct r as [e|ds].
  { pose proof (law_refused _ _ _ _ Hp) as Hc. split_and!; [|apply knows_more_refl; change (mkHeaderIndex (ch_store (sh_chain shared)) (ss_header_map self) = ss_index self); by rewrite Hc|done].
    apply (sync_ok_peers self); try done. apply Hok. }
  destruct (accepted_more _ _ _ _ Hok Hfit Hp) as [Hm Hk]. destruct (law_accepted _ _ _ _ Hp) as (Hb & He & Hcons & Ht).
  set (self' := self {{ ss_shared := shared }}) in *.
  assert (ss_store self' = ch_store (sh_chain shared)) as Hst by done.
  split_and!; [|exact Hm|intros ? _; rewrite Hst; unfold get_block_header, get_block; by rewrite Hb, lookup_insert_eq].
  apply (sync_ok_grow self); [done|done|done|exact Hcons| | | | | | |].
  - apply (views_ok_extend _ _ (so_views _ Hok) Hm). intros h v' Hv'.
    destruct (accepted_view _ _ _ _ _ _ Hok Hp Hv') as [(-> & Hi & Hs)|(v & Hv & Hi & Hs)]; [|left; exists v; split_and!; [done|done|by left]].
    right. destruct Hfit as (Hr & (p & Hpp & Hn) & _). unfold hv_hash, hv_number, hv_parent_hash. rewrite Hi.
    split_and!; [done|lia|lia|]. exists p. split_and!; [done|done|]. rewrite Hs. done.
  - intros h v' Hv' H0. unfold hv_number in *. destruct (accepted_view _ _ _ _ _ _ Hok Hp Hv') as [(_ & Hi & _)|(v & Hv & Hi & _)]; rewrite Hi in H0; [|eauto].
    destruct Hfit. unfold b_number in *. lia.
  - intros h v' Hv'. destruct (accepted_view _ _ _ _ _ _ Hok Hp Hv') as [(_ & -> & _)|(v & Hv & -> & _)]; [done|by eapply so_hashed].
  - rewrite Hst, Hb. intros h b. rewrite lookup_insert_Some. intros [[<- <-]|[_ Hbh]]; [by split_and!; [| |apply He; left]|].
    destruct (so_stored _ Hok _ _ Hbh) as (? & ? & ?). split_and!; [done|done|]. apply He. by right.
  - change (ss_chain self') with (sh_chain shared). destruct Ht as [->| ->]; [|done]. eapply known_mono; [exact Hm|apply Hok].
  - eapply known_mono; [exact Hm|apply Hok].
  - intros p st Hps. eapply peer_ok_mono; [exact Hm|by eapply so_peers].
Qed.
Lemma sync_ok_forget self h :
  sync_ok self -> is_Some (get_block_header (ss_store self) h) ->
  sync_ok (ss_remove_header_view h self) /\ knows_more_than self (ss_remove_header_view h self).
Proof.
  intros Hok [hd Hh]. unfold get_block_header, get_block in Hh. destruct (sd_blocks _ !! h) as [b|] eqn:Hb; [|done]. injection Hh as <-.
  destruct (stored_known _ _ _ Hok Hb) as [Hbh (v0 & Hv0 & Hi0)]. change (h_hash (b_header b)) with (b_hash b) in Hv0. rewrite Hbh in Hv0.
  destruct (so_stored _ Hok _ _ Hb) as (_ & Hw & [ext He]).
  set (self' := ss_remove_header_view h self).
  assert (Hi : ss_index self' = remove_header_view (ss_index self) h) by done.
  assert (Hat : get_header_view (ss_index self') h = Some (HeaderView_new (b_header b) (total_difficulty ext) (total_uncles_count ext))).
  { rewrite Hi. unfold get_header_view, get_block_header, get_block, get_block_ext. cbn. by rewrite lookup_delete_eq, Hb, He. }
  assert (Hother : forall h', h' <> h -> get_header_view (ss_index self') h' = get_header_view (ss_index self) h').
  { intros h' Hne. rewrite Hi. unfold get_header_view. cbn. by rewrite lookup_delete_ne. }
  assert (knows_more_than self self') as Hm.
  { intros h' v Hv. destruct (decide (h' = h)) as [->|Hne]; [|exists v; by rewrite Hother].
    eexists. split; [exact Hat|]. cbn. congruence. }
  split; [|done]. apply (sync_ok_grow self); [done|done|done|done| | | |apply Hok|eapply known_mono; [exact Hm|apply Hok]..|].
  - rewrite Hi. apply (remove_view_step _ _ (b_header b) ext); [apply Hok|unfold get_block_header, get_block; cbn; by rewrite Hb|done|].
    intros v Hv. cbn in Hv. unfold get_header_view in Hv0. cbn in Hv0. rewrite Hv in Hv0. congruence.
  - intros h' v. destruct (decide (h' = h)) as [->|Hne]; [rewrite Hat; intros [= <-]; exists v0; split; [done|]; unfold hv_number; by rewrite Hi0|].
    rewrite Hother by done. eauto.
  - intros h' v. destruct (decide (h' = h)) as [->|Hne]; [rewrite Hat; by intros [= <-]|rewrite Hother by done; by eapply so_hashed].
  - intros p st Hps. eapply peer_ok_mono; [exact Hm|by eapply so_peers].
Qed.

Lemma alter_peers_ok self peer f p state :
  sync_ok self -> (forall state, peer_ok self state -> peer_ok self (f state)) ->
  alter f peer (ss_peers self) !! p = Some state -> peer_ok self state.
Proof.
  intros Hok Hf. rewrite lookup_alter_Some. intros [(-> & st & Hst & ->)|[_ Hst]]; [apply Hf|]; by eapply so_peers.
Qed.

Lemma connected_peers_ok self peer timeout protect outbound p state :
  sync_ok self -> Peers_on_connected peer timeout protect outbound (ss_peers self) !! p = Some state -> peer_ok self state.
Proof.
  intros Hok. unfold Peers_on_connected. rewrite lookup_insert_Some. intros [[-> <-]|[_ ?]]; [|by eapply so_peers].
  destruct (ss_peers self !! p) as [st0|] eqn:Hst; [|by split]. destruct (so_peers _ Hok _ _ Hst) as [A1 A2 A3 A4]. by split.
Qed.

(** A step keeps the invariant and what is known. *)
Lemma sync_op_ok self self' : sync_op self self' -> sync_ok self -> sync_ok self' /\ knows_more_than self self'.
Proof.
  intros Hop Hok. destruct Hop as [self self' [H1 H2 H3 H4 H5 H6 H7 H8]|self h Hh Hsome|self h|self header peer epoch parent self' Hw Hpow Hp Hpst Hn Hlt H|
    self block shared r Hk Hpow Hpos Hpar H|self h Hh|self peer f Hf1 Hf2|self peer state timeout Hs Hst|self peer state until Hs Hst|
    self peer outbound Hsize|self peer self' H].
  - split; [|by apply knows_more_refl; unfold ss_index, ss_store, ss_chain; rewrite H1, H4]. apply (sync_ok_peers self); try done; [by rewrite H1|].
    intros p st Hst. specialize (H6 p). rewrite Hst in H6. inversion H6 as [st0 ? (_ & Ha & Hb & Hc & Hd) Hp|]. subst. symmetry in Hp.
    destruct (so_peers _ Hok _ _ Hp) as [A1 A2 A3 A4]. split; rewrite ?Ha, ?Hb, ?Hc, ?Hd; done.
  - split; [|by apply knows_more_refl]. apply sync_ok_status; [done| |done]. right. split; [by left|by apply header_view_stored].
  - split; [|by apply knows_more_refl]. apply sync_ok_status; [done|by left|done].
  - destruct (sync_ok_header _ _ _ epoch _ _ Hok Hw Hpow Hp Hn Hlt H) as (? & ? & _). done.
  - destruct (sync_ok_chain self block shared r Hok) as (? & ? & _); try done.
    + destruct Hk as (v & Hv & <-). by eapply so_hashed.
    + by apply known_fits.
  - by apply sync_ok_forget.
  - split; [|by apply knows_more_refl]. apply (sync_ok_peers self); try done. intros p st. by apply alter_peers_ok.
  - split; [|by apply knows_more_refl]. apply (sync_ok_peers self); try done. intros p st. apply alter_peers_ok; [done|].
    intros st0 [A1 A2 A3 A4]. by split.
  - split; [|by apply knows_more_refl]. apply (sync_ok_peers self); try done. intros p st. apply alter_peers_ok; [done|].
    intros st0 [A1 A2 A3 A4]. by split.
  - unfold sync_on_connected. destruct (default false outbound && _);
      (split; [apply (sync_ok_peers self); try done; intros p st; by apply connected_peers_ok|by apply knows_more_refl]).
  - unfold sync_disconnected, ss_disconnected, Peers_disconnected in H.
    assert (forall p st, delete peer (ss_peers self) !! p = Some st -> peer_ok self st) as Hd
      by (intros p st [_ Hst]%lookup_delete_Some; by eapply so_peers).
    destruct (ss_peers self !! peer) as [st|]; [destruct (sync_started st); [case_decide; [done|]|]|]; injection H as <-;
      (split; [|by apply knows_more_refl]; by apply (sync_ok_peers self)).
Qed.
(** ** The counter of the peers that are synced from *)
Record counter_ok (self : SyncState) : Prop := {
  ct_size : Z.of_nat (size (ss_peers self)) < U64_SIZE;
  ct_count : ss_n_sync_started self = count_true (sync_flags (ss_peers self))
}.

Lemma count_true_le flags : count_true flags <= Z.of_nat (size flags).
Proof. unfold count_true. pose proof (map_size_filter (fun kv : Z * bool => kv.2 = true) flags). lia. Qed.

Lemma sync_flags_alter f peer peers :
  sync_flags (alter f peer peers) = match peers !! peer with Some state => <[peer := sync_started (f state)]> (sync_flags peers) | None => sync_flags peers end.
Proof.
  unfold sync_flags. apply map_eq. intros k. rewrite lookup_fmap. destruct (decide (peer = k)) as [<-|Hne].
  - rewrite lookup_alter_eq. destruct (peers !! peer) eqn:Hp; cbn; [by rewrite lookup_insert_eq|by rewrite lookup_fmap, Hp].
  - rewrite lookup_alter_ne by done. destruct (peers !! peer); [rewrite lookup_insert_ne by done|]; by rewrite lookup_fmap.
Qed.

Lemma counter_alter self self' f peer state b d :
  counter_ok self -> ss_peers self !! peer = Some state -> ss_peers self' = alter f peer (ss_peers self) ->
  sync_started (f state) = b -> ss_n_sync_started self' = (ss_n_sync_started self + d) mod U64_SIZE ->
  d = (if b then 1 else 0) - (if sync_started state then 1 else 0) -> counter_ok self'.
Proof.
  intros [Hsize Hcount] Hst Hp Hb Hn Hd.
  assert (Z.of_nat (size (ss_peers self')) < U64_SIZE) as Hs' by (rewrite Hp, <- (size_dom (D := gset Z)), dom_alter_L, size_dom; done).
  split; [done|]. assert (count_true (sync_flags (ss_peers self')) = ss_n_sync_started self + d) as Hc.
  { rewrite Hp, sync_flags_alter, Hst, Hb, count_true_insert, Hcount, Hd. unfold sync_flags at 2. rewrite lookup_fmap, Hst. cbn.
    destruct b, (sync_started state); lia. }
  rewrite Hn, Hc. apply Z.mod_small. pose proof (count_true_nonneg (sync_flags (ss_peers self'))).
  pose proof (count_true_le (sync_flags (ss_peers self'))) as Hle. unfold sync_flags in Hle at 2. rewrite map_size_fmap in Hle. lia.
Qed.

Lemma counter_same self self' :
  counter_ok self -> ss_n_sync_started self' = ss_n_sync_started self ->
  (forall p, sync_started <$> ss_peers self' !! p = sync_started <$> ss_peers self !! p) -> counter_ok self'.
Proof.
  intros [Hsize Hcount] Hn Hp.
  assert (sync_flags (ss_peers self') = sync_flags (ss_peers self)) as Hf by (apply map_eq; intros k; unfold sync_flags; by rewrite !lookup_fmap).
  split; [|by rewrite Hn, Hf]. apply (f_equal size) in Hf. unfold sync_flags in Hf. rewrite !map_size_fmap in Hf. lia.
Qed.

Lemma counter_connected self self' peer timeout protect outbound :
  counter_ok self -> Z.of_nat (size (ss_peers self)) + 1 < U64_SIZE ->
  ss_peers self' = Peers_on_connected peer timeout protect outbound (ss_peers self) ->
  ss_n_sync_started self' = ss_n_sync_started self -> counter_ok self'.
Proof.
  intros [Hsize Hcount] Hlt Hp Hn. unfold Peers_on_connected in Hp. split.
  - rewrite Hp, map_size_insert. destruct (ss_peers self !! peer); cbn; lia.
  - rewrite Hn, Hcount, Hp. unfold sync_flags. rewrite fmap_insert, count_true_insert, lookup_fmap.
    destruct (ss_peers self !! peer) as [st|]; cbn; [destruct (sync_started st)|]; lia.
Qed.

(** A disconnected peer is counted out, so the counter does not underflow. *)
Lemma counter_disconnected self peer :
  counter_ok self -> exists self', sync_disconnected (E := E) peer self = Ok self' /\ counter_ok self' /\ ss_peers self' = delete peer (ss_peers self).
Proof.
  intros [Hsize Hcount]. unfold sync_disconnected, ss_disconnected, Peers_disconnected.
  assert (Z.of_nat (size (delete peer (ss_peers self))) < U64_SIZE) as Hs'.
  { pose proof (map_size_delete peer (ss_peers self)) as Hd. destruct (ss_peers self !! peer); unfold id in Hd; lia. }
  assert (count_true (sync_flags (delete peer (ss_peers self))) = ss_n_sync_started self -
    (if ss_peers self !! peer is Some st then if sync_started st then 1 else 0 else 0)) as Hc.
  { unfold sync_flags. rewrite fmap_delete, count_true_delete, lookup_fmap, Hcount. unfold sync_flags.
    destruct (ss_peers self !! peer) as [st|]; cbn; [by destruct (sync_started st)|done]. }
  pose proof (count_true_nonneg (sync_flags (delete peer (ss_peers self)))) as Hnn.
  pose proof (count_true_le (sync_flags (ss_peers self))) as Hle. unfold sync_flags in Hle at 2. rewrite map_size_fmap in Hle.
  destruct (ss_peers self !! peer) as [st|]; [destruct (sync_started st)|].
  - assert (ss_n_sync_started self <> 0) by lia. rewrite decide_False by done. eexists. split_and!; [done| |done]. split; [exact Hs'|].
    change ((ss_n_sync_started self - 1) mod U64_SIZE = count_true (sync_flags (delete peer (ss_peers self)))).
    rewrite Hc. apply Z.mod_small. lia.
  - eexists. split_and!; [done| |done]. split; [exact Hs'|]. etransitivity; [|symmetry; exact Hc]. by rewrite Z.sub_0_r.
  - eexists. split_and!; [done| |done]. split; [exact Hs'|]. etransitivity; [|symmetry; exact Hc]. by rewrite Z.sub_0_r.
Qed.

Lemma sync_op_counter self self' : sync_op self self' -> counter_ok self -> counter_ok self'.
Proof.
  intros Hop Hc. destruct Hop as [self self' [H1 H2 H3 H4 H5 H6 H7 H8]|self h Hh Hsome|self h|self header peer epoch parent self' Hw Hpow Hp Hpst Hn Hlt H|
    self block shared r Hk Hpow Hpos Hpar H|self h Hh|self peer f Hf1 Hf2|self peer state timeout Hs Hst|self peer state until Hs Hst|
    self peer outbound Hsize|self peer self' H].
  - apply (counter_same self); [done|done|]. intros p. specialize (H6 p). by inversion H6 as [st0 st1 (Ha & _) Hp Hp'|Hp Hp']; cbn; rewrite ?Ha.
  - by apply (counter_same self).
  - by apply (counter_same self).
  - destruct (insert_verified_fields _ _ _ _ _ Hp H) as (uncles & _ & _ & Hnn & _ & Hpeers & _). cbv zeta in Hpeers.
    apply (counter_same self); [done|done|]. intros p. change (ss_peers (insert_block_status _ _ _)) with (ss_peers self'). rewrite Hpeers.
    unfold new_header_received. destruct (ss_peers self !! peer) as [st|] eqn:Hst; [|done].
    destruct (best_known_header st) as [hv|]; [destruct (better_view _ _ _); [|done]|];
      (destruct (decide (peer = p)) as [<-|]; [rewrite lookup_insert_eq, Hst; done|by rewrite lookup_insert_ne]).
  - by apply (counter_same self).
  - by apply (counter_same self).
  - apply (counter_same self); [done|done|]. intros p. change (ss_peers (self {{ ss_peers ::= alter f peer }})) with (alter f peer (ss_peers self)).
    destruct (decide (peer = p)) as [<-|]; [rewrite lookup_alter_eq|by rewrite lookup_alter_ne].
    destruct (ss_peers self !! peer); cbn; [by rewrite Hf1|done].
  - eapply (counter_alter self _ (start_sync timeout) peer state true 1); [done|done|done|done|done|by rewrite Hst].
  - eapply (counter_alter self _ (stop_sync until) peer state false (-1)); [done|done|done|done|done|by rewrite Hst].
  - unfold sync_on_connected. destruct (default false outbound && _); by eapply counter_connected.
  - destruct (counter_disconnected self peer Hc) as (self2 & H2 & ? & _). congruence.
Qed.

(** ** What is stored, in flight and pending *)
Lemma sync_op_pending self self' :
  sync_op self self' -> ss_pending_compact_blocks self' = ss_pending_compact_blocks self /\ ss_consensus self' = ss_consensus self /\
  forall h b, sd_blocks (ss_store self) !! h = Some b -> is_Some (sd_blocks (ss_store self') !! h).
Proof.
  intros Hop. destruct Hop as [self self' [H1 _ _ _ _ _ _ H8]|self h Hh Hsome|self h|self header peer epoch parent self' Hw Hpow Hp Hpst Hn Hlt H|
    self block shared r Hk Hpow Hpos Hpar H|self h Hh|self peer f Hf1 Hf2|self peer state timeout Hs Hst|self peer state until Hs Hst|
    self peer outbound Hsize|self peer self' H]; try (split_and!; [done|done|by eauto]).
  - split_and!; [done|by unfold ss_consensus, ss_chain; rewrite H1|]. unfold ss_store, ss_chain. rewrite H1. eauto.
  - change (ss_pending_compact_blocks (insert_block_status _ _ _)) with (ss_pending_compact_blocks self').
    change (ss_store (insert_block_status _ _ _)) with (ss_store self'). change (ss_consensus (insert_block_status _ _ _)) with (ss_consensus self').
    unfold insert_verified_header in H. rewrite Hp in H. apply bind_Ok in H as (td & _ & H). apply bind_Ok in H as (uncles & _ & H).
    cbv zeta in H. unfold ss_insert_header_view in H. apply bind_Ok in H as (index & _ & H).
    destruct (better_view _ _ _); injection H as <-; (split_and!; [done|done|by eauto]).
  - split; [done|]. change (ss_store (self {{ ss_shared := shared }})) with (ch_store (sh_chain shared)).
    change (ss_consensus (self {{ ss_shared := shared }})) with (ch_consensus (sh_chain shared)). destruct r as [e|ds].
    + rewrite (law_refused _ _ _ _ H). split; [done|]. by eauto.
    + destruct (law_accepted _ _ _ _ H) as (Hb & _ & Hc & _). split; [done|]. intros h b Hh. rewrite Hb, lookup_insert_is_Some'. eauto.
  - unfold sync_on_connected. destruct (default false outbound && _); (split_and!; [done|done|by eauto]).
  - unfold sync_disconnected, ss_disconnected, Peers_disconnected in H.
    destruct (ss_peers self !! peer) as [st|]; [destruct (sync_started st); [case_decide; [done|]|]|]; injection H as <-; (split_and!; [done|done|by eauto]).
Qed.

Lemma sync_op_inflight self self' : sync_op self self' -> inflight_moves (ss_inflight_blocks self) (ss_inflight_blocks self').
Proof.
  intros Hop. destruct Hop as [self self' [_ _ _ _ _ _ H _]|self h Hh Hsome|self h|self header peer epoch parent self' Hw Hpow Hp Hpst Hn Hlt H|
    self block shared r Hk Hpow Hpos Hpar H|self h Hh|self peer f Hf1 Hf2|self peer state timeout Hs Hst|self peer state until Hs Hst|
    self peer outbound Hsize|self peer self' H]; try reflexivity.
  - exact H.
  - change (ss_inflight_blocks (insert_block_status _ _ _)) with (ss_inflight_blocks self'). unfold insert_verified_header in H. rewrite Hp in H.
    apply bind_Ok in H as (td & _ & H). apply bind_Ok in H as (uncles & _ & H). cbv zeta in H. unfold ss_insert_header_view in H.
    apply bind_Ok in H as (index & _ & H). destruct (better_view _ _ _); injection H as <-; reflexivity.
  - unfold sync_on_connected. destruct (default false outbound && _); reflexivity.
  - unfold sync_disconnected, ss_disconnected, Peers_disconnected in H.
    destruct (ss_peers self !! peer) as [st|]; [destruct (sync_started st); [case_decide; [done|]|]|]; injection H as <-; apply remove_by_peer_moves.
Qed.
End invariant.
