(* ===== verification/SyncRefinement.v ===== *)
(** * The handlers of the synchronizer take the abstract steps *)
From stdpp Require Import sorting relations.
From coqutil Require Import Datatypes.RecordSetters.
From S2P Require Import Prelude Capacity ByteStrings Transactions Blocks Fixtures Protocol Epochs ChainStore VerifyErrors MedianTime HeaderVerify LinkedMap ProposedPool TxPool Compact OrphanPool SyncHeaders SyncPeers ChainPool ChainService ChainApi SyncState Synchronizer SyncInvariant.

Lemma Ok_pair {E A B} (a a' : A) (b b' : B) : Ok (E := E) (a, b) = Ok (a', b') -> a = a' /\ b = b'.
Proof. by intros [= -> ->]. Qed.
Lemma Ok_triple {E A B C} (a a' : A) (b b' : B) (c c' : C) : Ok (E := E) (a, b, c) = Ok (a', b', c') -> a = a' /\ b = b' /\ c = c'.
Proof. by intros [= -> -> ->]. Qed.

(** What a successful verification of a header says. *)
Lemma HeaderVerifier_facts pow ctx now target :
  HeaderVerifier_verify pow ctx now target = Ok tt ->
  verify_header pow (hr_header target) = true /\
  exists parent, hr_parent target = Some parent /\ h_number (hr_header target) = h_number parent + 1.
Proof.
  unfold HeaderVerifier_verify, PowVerifier_verify, NumberVerifier_verify. intros H.
  apply bind_Ok in H as ([] & _ & H). apply bind_Ok in H as ([] & Hp & H). apply bind_Ok in H as (parent & Hpar%ok_or_Ok & H).
  apply bind_Ok in H as ([] & Hn & _). split; [by destruct (verify_header _ _)|]. exists parent. split; [done|].
  apply bind_Ok in Hn as (n & [-> _]%add_w_Ok & Hn). by case_decide.
Qed.

(** The search for an ancestor gives headers of the index. *)
Lemma ancestor_loop_known {E} (get : H256 -> option HeaderView) fuel number current walk r :
  (forall h v, get h = Some v -> hv_hash v = h) -> get (hv_hash current) = Some current ->
  ancestor_loop (E := E) get fuel number current walk = Ok (Some r) -> exists v, get (h_hash r) = Some v /\ hv_inner v = r.
Proof.
  intros Hget. revert current walk. induction fuel as [|fuel IH]; intros current walk Hc; cbn [ancestor_loop]; case_decide as Hd; try done;
    try (intros [= <-]; eauto).
  intros H. apply bind_Ok in H as (skip & _ & H). apply bind_Ok in H as (prev & _ & H). apply bind_Ok in H as (skip' & _ & H).
  apply bind_Ok in H as (next & _ & H). destruct (get next.1) as [v|] eqn:Hv; [|done]. eapply IH; [|exact H]. by rewrite (Hget _ _ Hv).
Qed.

Section refinement.
Context {M L P Q : Type -> Type} `{LP : !LruCache H256 P} `{LQ : !LruCache (PeerIndex * H256) Q}.
Context {E : Type} (blake2b : Bytes -> H256) (serialize_raw : RawTransaction -> Bytes)
  (serialize_tx : RawTransaction -> list (list Bytes) -> Bytes) (serialize_header : RawHeader -> Seal -> Bytes)
  (serialize_uncles : list UncleBlock -> Bytes) (merkle_root : list H256 -> H256)
  (from_little_endian : Bytes -> option Z).
Context (pow : PowEngine) (process : @Shared M L -> Block -> outcome E (@Shared M L * (ChainError + list Block))).
Context `{Hlaws : !ChainLaws process}.
Context (Hinj : forall raw seal raw' seal', blake2b (serialize_header raw seal) = blake2b (serialize_header raw' seal') ->
  raw = raw' /\ seal = seal').
Context (set_order : list Block -> list Block) (Horder : forall l, set_order l ≡ₚ l) (now instant : Z) (Hnow : 0 <= now < 2 ^ 63).
#[local] Abbreviation SyncState := (SyncSharedState M L P Q).
#[local] Abbreviation ok := (sync_ok (M := M) (L := L) (P := P) (Q := Q) blake2b serialize_header pow).
#[local] Abbreviation op := (sync_op (M := M) (L := L) (P := P) (Q := Q) (E := E) blake2b serialize_header pow process).
#[local] Abbreviation hashed := (well_hashed blake2b serialize_header).
Implicit Types self : SyncState.

(** Every step between two states is an abstract one. *)
Definition runs (self self' : SyncState) : Prop := rtc op self self'.

Lemma runs_ok self self' : runs self self' -> ok self -> ok self' /\ knows_more_than self self'.
Proof.
  intros Hr. induction Hr as [|self1 self2 self3 Hop _ IH]; intros Hok; [split; [done|by apply knows_more_refl]|].
  destruct (sync_op_ok _ _ pow process Hinj _ _ Hop Hok) as [Hok2 Hm]. destruct (IH Hok2) as [Hok3 Hm3]. split; [done|].
  intros h v Hv. destruct (Hm _ _ Hv) as (v2 & Hv2 & Hi2). destruct (Hm3 _ _ Hv2) as (v3 & ? & ?). exists v3. split; [done|congruence].
Qed.

Lemma runs_trans self1 self2 self3 : runs self1 self2 -> runs self2 self3 -> runs self1 self3.
Proof. apply rtc_trans. Qed.
Lemma runs_op self self' : op self self' -> runs self self'.
Proof. apply rtc_once. Qed.
Lemma runs_notes self self' :
  ss_shared self' = ss_shared self -> ss_n_sync_started self' = ss_n_sync_started self ->
  ss_shared_best_header self' = ss_shared_best_header self -> ss_header_map self' = ss_header_map self ->
  ss_block_status_map self' = ss_block_status_map self -> ss_peers self' = ss_peers self ->
  inflight_moves (ss_inflight_blocks self) (ss_inflight_blocks self') ->
  ss_pending_compact_blocks self' = ss_pending_compact_blocks self -> runs self self'.
Proof.
  intros H1 H2 H3 H4 H5 H6 H7 H8. apply runs_op, op_notes. split; try done. intros p. rewrite H6. by destruct (ss_peers self !! p); constructor.
Qed.

(** ** The operations of the state *)
Lemma get_block_status_runs self h : runs self (get_block_status h self).2 /\
  ss_index (get_block_status h self).2 = ss_index self /\
  (ok self -> Z.land (get_block_status h self).1 FAILED_MASK <> (get_block_status h self).1 -> is_Some (get_header_view (ss_index self) h)).
Proof.
  unfold get_block_status. destruct (ss_block_status_map self !! h) as [st|] eqn:Hst; cbn.
  { split; [by apply rtc_refl|]. split; [done|]. intros Hok Hne. by destruct (so_status _ _ _ _ Hok _ _ Hst) as [->|[_ ?]]. }
  destruct (get_block_header (ss_store self) h) as [hd|] eqn:Hh; cbn.
  - split_and!; [apply runs_op, op_have; [by rewrite Hh|by left]|done|]. intros Hok _. eapply header_view_stored; [exact Hinj|done|by rewrite Hh].
  - split_and!; [by apply rtc_refl|done|done].
Qed.

Lemma get_block_status_failed self h :
  Z.land (get_block_status h self).1 FAILED_MASK <> (get_block_status h self).1 ->
  ss_block_status_map (get_block_status h self).2 !! h <> Some FAILED_MASK.
Proof.
  unfold get_block_status. destruct (ss_block_status_map self !! h) as [st|] eqn:Hst; cbn.
  - rewrite Hst. intros Hne [= ->]. by apply Hne.
  - destruct (get_block_header (ss_store self) h); cbn; [by rewrite lookup_insert_eq|by rewrite Hst].
Qed.

Lemma blame_runs self peer score self' : ss_blame (E := E) peer score self = Ok self' -> runs self self'.
Proof. unfold ss_blame. intros H. apply bind_Ok in H as (scores & _ & [= <-]). by apply runs_notes. Qed.

Lemma send_getheaders_runs self peer header self' actions :
  send_getheaders_to_peer (E := E) instant peer header self = Ok (self', actions) -> runs self self'.
Proof.
  unfold send_getheaders_to_peer. intros H. destruct (match lru_get _ _ with Some _ => _ | None => _ end).
  - injection H as <- _. by apply runs_notes.
  - apply bind_Ok in H as (locator & _ & [= <- _]). by apply runs_notes.
Qed.

(** ** Headers *)
Lemma accept_runs self header peer resolver result self' :
  ok self -> hashed header -> h_number header < 2 ^ 63 -> hr_header resolver = header ->
  (forall p v, hr_parent resolver = Some p -> get_header_view (ss_index self) (h_parent_hash header) = Some v -> hv_inner v = p) ->
  HeaderAcceptor_accept (E := E) pow now header peer resolver self = Ok (result, self') ->
  runs self self' /\ (ValidationResult_is_valid result = true -> known self' header).
Proof.
  intros Hok Hw Hlt Hrh Hrp H. unfold HeaderAcceptor_accept, prev_block_check in H.
  destruct (get_block_status_runs self (h_parent_hash header)) as (Hr & Hi & Hs).
  pose proof (get_block_status_failed self (h_parent_hash header)) as Hnf.
  destruct (get_block_status (h_parent_hash header) self) as [st self1]. cbn in Hr, Hi, Hs, Hnf.
  assert (Hfail : runs self1 (header_failed header self1)) by apply runs_op, op_fail.
  case_decide as Hst; [injection H as <- <-; split; [by eapply runs_trans|done]|].
  destruct (Hs Hok Hst) as [parent Hparent].
  apply bind_Ok in H as (checked & Hc & H). unfold non_contextual_check in Hc. apply bind_Ok in Hc as (v & Hv & [= <-]).
  destruct v as [e|[]].
  { assert (vr_state result = INVALID /\ header_failed header self1 = self') as [Hinv <-] by (destruct e; by injection H as <- <-).
    split; [by eapply runs_trans|]. unfold ValidationResult_is_valid. by rewrite Hinv. }
  unfold version_check in H. case_decide; [injection H as <- <-; split; [by eapply runs_trans|done]|].
  apply bind_Ok in H as (self2 & Hins & H). apply bind_Ok in H as (epoch & _ & [= <- <-]).
  assert (HeaderVerifier_verify pow (VerifierResolver_median_context self1) now resolver = Ok tt) as Hver
    by (destruct (HeaderVerifier_verify _ _ _ _) as [[]| |]; cbn in Hv; congruence).
  apply HeaderVerifier_facts in Hver as (Hpow & p & Hp & Hn). rewrite Hrh in Hpow, Hn.
  rewrite <- (Hrp _ _ Hp Hparent) in Hn. rewrite <- Hi in Hparent.
  destruct (runs_ok _ _ Hr Hok) as [Hok1 _].
  destruct (sync_ok_header _ _ pow Hinj _ _ _ epoch _ _ Hok1 Hw Hpow Hparent Hn Hlt Hins) as (_ & _ & Hk).
  split; [|intros _; exact Hk]. eapply runs_trans; [exact Hr|]. apply runs_op. by apply (op_header _ _ _ _ self1 header peer epoch parent self2); try apply Hnf.
Qed.
Lemma accept_header_runs self parent header peer result self' :
  ok self -> hashed header -> h_number header < 2 ^ 63 ->
  (forall p v, parent = Some p -> get_header_view (ss_index self) (h_parent_hash header) = Some v -> hv_inner v = p) ->
  accept_header (E := E) pow now parent header peer self = Ok (result, self') ->
  runs self self' /\ (ValidationResult_is_valid result = true -> known self' header).
Proof.
  intros Hok Hw Hlt Hp H. unfold accept_header in H. apply bind_Ok in H as (resolver & Hres & H).
  unfold VerifierResolver_new in Hres. apply bind_Ok in Hres as (epoch & _ & [= <-]). eapply accept_runs; [done|done|done| | |exact H]; [done|exact Hp].
Qed.

Lemma accept_first_runs self header peer result self' :
  ok self -> hashed header -> h_number header < 2 ^ 63 ->
  accept_first (E := E) pow now header peer self = Ok (result, self') ->
  runs self self' /\ (ValidationResult_is_valid result = true -> known self' header).
Proof.
  intros Hok Hw Hlt H. eapply accept_header_runs; [done|done|done| |exact H]. intros p v. unfold sync_get_header, get_header_view.
  destruct (hi_header_map (ss_index self) !! h_parent_hash header) as [v0|]; [by intros [= <-] [= <-]|].
  intros ->. cbn. destruct (get_block_ext _ _); [|done]. by intros [= <-].
Qed.

Lemma judge_runs peer result self valid self' :
  judge (E := E) peer (result, self) = Ok (valid, self') ->
  runs self self' /\ (valid = true -> self' = self /\ ValidationResult_is_valid result = true).
Proof.
  unfold judge. destruct (ValidationResult_is_valid result); [intros [= <- <-]; split; [by apply rtc_refl|done]|].
  intros H. apply bind_Ok in H as (self1 & H1 & [= <- <-]). split; [|done]. case_decide; [by eapply blame_runs|].
  injection H1 as <-. by apply rtc_refl.
Qed.

Lemma accept_rest_runs headers : forall self parent peer valid self',
  ok self -> known self parent -> is_continuous (parent :: headers) = true ->
  Forall (fun h => hashed h /\ h_number h < 2 ^ 63) headers ->
  accept_rest (E := E) pow now parent headers peer self = Ok (valid, self') -> runs self self'.
Proof.
  induction headers as [|header headers IH]; intros self parent peer valid self' Hok Hk Hc Hf H; cbn [accept_rest] in H.
  { injection H as _ <-. by apply rtc_refl. }
  cbn [is_continuous] in Hc. case_decide as Hpar; [done|]. apply Forall_cons in Hf as [[Hw Hlt] Hf].
  apply bind_Ok in H as ([result self1] & Ha & H). apply bind_Ok in H as ([valid1 self2] & Hj & H).
  apply accept_header_runs in Ha as [Hr1 Hv1]; [|done|done|done|].
  2:{ intros p v [= <-]. rewrite Hpar. intros Hv. destruct Hk as (v0 & Hv0 & <-). congruence. }
  apply judge_runs in Hj as [Hr2 Hv2]. pose proof (runs_trans _ _ _ Hr1 Hr2) as Hr. destruct valid1; [|by injection H as _ <-].
  destruct (Hv2 eq_refl) as [-> Hval]. destruct (runs_ok _ _ Hr1 Hok) as [Hok1 _].
  eapply runs_trans; [exact Hr1|]. by eapply IH; [done|apply Hv1| | |].
Qed.

Lemma headers_accepted_runs headers peer self self' actions :
  headers_accepted (E := E) now instant headers peer self = Ok (self', actions) -> runs self self'.
Proof.
  unfold headers_accepted. intros H. apply bind_Ok in H as (start & _ & H). apply bind_Ok in H as ([self1 asked] & Ha & H).
  destruct (get_block_status_runs self (h_hash start)) as (Hr & _ & _). eapply runs_trans; [exact Hr|].
  assert (self1 = self') as -> by (destruct (match ss_peers self1 !! peer with Some _ => _ | None => _ end); by injection H).
  case_decide; [by eapply send_getheaders_runs|]. injection Ha as -> _. by apply rtc_refl.
Qed.

Lemma header_try_from_hashed fb h :
  header_try_from blake2b serialize_header from_little_endian fb = Ok h -> hashed h /\ h_number h = fh_number fb.
Proof. unfold header_try_from. intros H. outcome_inv. by subst. Qed.

Lemma headers_hashed fbs headers :
  Forall (fun fb => fh_number fb < 2 ^ 63) fbs ->
  try_map (header_try_from blake2b serialize_header from_little_endian) fbs = Ok headers ->
  Forall (fun h => hashed h /\ h_number h < 2 ^ 63) headers.
Proof.
  intros Hf. revert headers. induction Hf as [|fb fbs Hlt Hf IH]; intros headers H; cbn in H; [by injection H as <-|].
  apply bind_Ok in H as (h & [Hw Hn]%header_try_from_hashed & H). apply bind_Ok in H as (hs & Hs & [= <-]).
  constructor; [by rewrite Hn|by apply IH].
Qed.

(** Messages whose headers have numbers below 2^63. *)
Definition numbers_bounded (message : option (list FbsHeader)) : Prop :=
  forall headers, message = Some headers -> Forall (fun fb => fh_number fb < 2 ^ 63) headers.

Lemma set_peer_runs self peer state state' :
  ss_peers self !! peer = Some state -> same_peer state state' -> runs self (self {{ ss_peers ::= insert peer state' }}).
Proof.
  intros Hst Hs. apply runs_op, op_notes. split; try done. intros p.
  change (ss_peers (self {{ ss_peers ::= insert peer state' }})) with (<[peer := state']> (ss_peers self)). destruct (decide (p = peer)) as [->|].
  - rewrite Hst, lookup_insert_eq. by constructor.
  - rewrite lookup_insert_ne by done. by destruct (ss_peers self !! p); constructor.
Qed.

Lemma HeadersProcess_runs message peer self self' actions r :
  ok self -> numbers_bounded message ->
  HeadersProcess_execute (E := E) blake2b serialize_header from_little_endian pow now instant message peer self = Ok (self', actions, r) ->
  runs self self'.
Proof.
  intros Hok Hb H. destruct message as [fbs|]; [|injection H as <- _ _; by apply rtc_refl]. specialize (Hb _ eq_refl).
  cbn [HeadersProcess_execute] in H. case_decide.
  { apply bind_Ok in H as (self1 & Hbl & [= <- _ _]). by eapply blame_runs. }
  case_decide.
  { apply bind_Ok in H as (state & Hst%expect_Ok & H). apply Ok_triple in H as (<- & _). eapply runs_trans; [|by eapply set_peer_runs].
    apply runs_op, op_peer; [done|]. intros st [A1 A2 A3 A4]. split; [intros v [= <-]; apply Hok|done|done|done]. }
  apply bind_Ok in H as (decoded & Hd & H). destruct decoded as [e|headers]; [injection H as <- _ _; by apply rtc_refl|].
  assert (try_map (header_try_from blake2b serialize_header from_little_endian) fbs = Ok headers) as Hdec
    by (destruct (try_map _ fbs); cbn in Hd; congruence).
  apply headers_hashed in Hdec; [|done]. destruct (is_continuous headers) eqn:Hc; cbn [negb] in H.
  2:{ apply bind_Ok in H as (self1 & Hbl & [= <- _ _]). by eapply blame_runs. }
  destruct headers as [|first rest]; [done|]. cbn [head expect] in H. rewrite bind_ret_l in H.
  apply Forall_cons in Hdec as [[Hw Hlt] Hrest].
  apply bind_Ok in H as ([result self1] & Ha & H). apply bind_Ok in H as ([valid self2] & Hj & H).
  apply accept_first_runs in Ha as [Hr1 Hv1]; [|done..]. apply judge_runs in Hj as [Hr2 Hv2].
  pose proof (runs_trans _ _ _ Hr1 Hr2) as Hr. destruct valid; cbn [negb] in H; [|by injection H as <- _ _].
  destruct (Hv2 eq_refl) as [-> Hval]. destruct (runs_ok _ _ Hr1 Hok) as [Hok1 _].
  apply bind_Ok in H as ([valid3 self3] & Hrs & H). eapply accept_rest_runs in Hrs; [|done|by apply Hv1|done|done].
  pose proof (runs_trans _ _ _ Hr1 Hrs) as Hr3. destruct valid3; cbn [negb] in H; [|by injection H as <- _ _].
  apply bind_Ok in H as ([self4 acts] & Hacc & [= <- _ _]). eapply runs_trans; [exact Hr3|]. by eapply headers_accepted_runs.
Qed.
(** ** Blocks *)

(** A block that may be handed to the chain: its header was verified. *)
Definition verified_block (self : SyncState) (block : Block) : Prop :=
  known self (b_header block) /\ verify_header pow (b_header block) = true /\ 0 < b_number block.

Lemma verified_block_mono self self' block : knows_more_than self self' -> verified_block self block -> verified_block self' block.
Proof. intros Hm (? & ? & ?). split; [by eapply known_mono|done]. Qed.

Lemma accept_block_runs peer block self accepted self' :
  ok self -> verified_block self block -> is_Some (get_block_header (ss_store self) (b_parent block)) ->
  accept_block (E := E) process peer block self = Ok (accepted, self') -> runs self self'.
Proof.
  intros Hok (Hk & Hpow & Hpos) Hpar H. unfold accept_block in H. apply bind_Ok in H as ([shared r] & Hp & H).
  set (self1 := self {{ ss_shared := shared }}) in H.
  assert (op self self1) as Hop by (by eapply op_chain).
  destruct (sync_ok_chain _ _ pow process self block shared r Hok) as (Hok1 & Hm1 & Hst); [by destruct Hk as (v & Hv & <-); eapply so_hashed|by eapply known_fits|done|].
  fold self1 in Hok1, Hm1, Hst. eapply runs_trans; [by apply runs_op|].
  destruct r as [e|ds]; [apply Ok_pair in H as [_ <-]; by apply rtc_refl|]. specialize (Hst _ eq_refl).
  apply Ok_pair in H as [_ <-].
  destruct (sync_ok_forget _ _ pow Hinj self1 (b_hash block) Hok1) as [Hok2 Hm2]; [by rewrite Hst|].
  eapply runs_trans; [apply runs_op, (op_forget _ _ _ _ _ (b_hash block)); by rewrite Hst|].
  eapply runs_trans; [apply runs_op, (op_have _ _ _ _ _ (b_hash block)); [by eexists|right; exists (b_header block); split_and!; [|done|exact Hpos]]|].
  { eapply known_mono; [exact Hm2|]. eapply known_mono; [exact Hm1|done]. }
  apply runs_op, (op_peer _ _ _ _ _ peer (fun state => SyncPeers.with_headers (best_known_header state) (Some (b_header block)) state)); [done|].
  intros st [A1 A2 A3 A4]. split; [done| |done|done]. intros h [= <-].
  apply (known_mono (ss_remove_header_view (b_hash block) self1)); [by apply knows_more_refl|].
  eapply known_mono; [exact Hm2|]. eapply known_mono; [exact Hm1|done].
Qed.

Lemma accept_orphans_runs peer blocks : forall self self',
  ok self -> Forall (verified_block self) blocks -> try_fold (accept_orphan (E := E) process peer) self blocks = Ok self' -> runs self self'.
Proof.
  induction blocks as [|block blocks IH]; intros self self' Hok Hf H; cbn in H; [injection H as <-; by apply rtc_refl|].
  apply Forall_cons in Hf as [Hv Hf]. apply bind_Ok in H as (self1 & Ha & H).
  assert (runs self self1) as Hr.
  { unfold accept_orphan, known_parent in Ha. case_bool_decide as Hpar; cbn [negb] in Ha; [|injection Ha as <-; by apply rtc_refl].
    apply bind_Ok in Ha as ([acc self2] & Ha & [= <-]). by eapply accept_block_runs. }
  destruct (runs_ok _ _ Hr Hok) as [Hok1 Hm]. eapply runs_trans; [exact Hr|]. eapply IH; [done| |done].
  eapply Forall_impl; [exact Hf|]. intros b. by apply verified_block_mono.
Qed.

#[local] Abbreviation Node := (Synchronizer (M := M) (L := L) (P := P) (Q := Q)).

Record synchronizer_ok (self : Node) : Prop := {
  sn_shared : ok (sy_shared self);
  sn_orphans : orphans_ok (sy_orphans self);
  sn_verified : forall b, in_orphans (sy_orphans self) b -> verified_block (sy_shared self) b
}.

Lemma in_orphan_insert block orphans b : in_orphans (orphan_insert block orphans) b -> b = block \/ in_orphans orphans b.
Proof.
  intros (l & Hl & Hb). unfold orphan_insert in Hl. rewrite lookup_insert_Some in Hl. destruct Hl as [[Hp <-]|[_ Hl]]; [|right; by exists l].
  unfold block_set_insert in Hb.
  assert (forall b', b' ∈ default [] (orphans !! b_parent block) -> b_parent b' = b_parent block -> in_orphans orphans b') as Hd.
  { intros b' Hb' Hp'. destruct (orphans !! b_parent block) as [l|] eqn:Hl; [|by apply not_elem_of_nil in Hb']. exists l. by rewrite Hp'. }
  destruct (existsb _ _); [right; by apply Hd|]. apply elem_of_app in Hb as [Hb|Hb%list_elem_of_singleton]; [right; by apply Hd|by left].
Qed.

Lemma insert_new_block_runs peer block (self self' : Node) :
  synchronizer_ok self -> verified_block (sy_shared self) block ->
  insert_new_block (E := E) process set_order peer block self = Ok self' ->
  runs (sy_shared self) (sy_shared self') /\ synchronizer_ok self'.
Proof.
  intros [Hok Ho Hv] Hb H. unfold insert_new_block, known_parent in H. case_bool_decide as Hpar; cbn [negb] in H.
  2:{ injection H as <-. split; [by apply rtc_refl|]. split; [done|by apply orphan_insert_ok|].
      intros b [->|?]%in_orphan_insert; [done|by apply Hv]. }
  apply bind_Ok in H as ([accepted shared] & Ha & H). apply accept_block_runs in Ha as Hr; [|done..].
  destruct (runs_ok _ _ Hr Hok) as [Hok1 Hm]. destruct accepted; cbn [negb] in H.
  2:{ injection H as <-. split; [done|]. split; [done|done|]. intros b Hin. eapply verified_block_mono; [exact Hm|by apply Hv]. }
  destruct (remove_blocks_by_parent_spec (E := E) set_order (sy_orphans self) (b_hash block) Horder Ho)
    as (removed & orphans & Hrem & Hdesc & _ & Hrest & _).
  rewrite Hrem, bind_ret_l in H. apply bind_Ok in H as (shared2 & Hf & [= <-]). cbn [sy_shared].
  apply accept_orphans_runs in Hf as Hr2; [|done|].
  2:{ apply Forall_forall. intros b Hin%Hdesc. eapply verified_block_mono; [exact Hm|]. apply Hv. by destruct Hin. }
  destruct (runs_ok _ _ Hr2 Hok1) as [Hok2 Hm2]. split; [by eapply runs_trans|]. split; [done| |].
  - intros p l b. rewrite Hrest. case_decide; [done|]. apply Ho.
  - intros b (l & Hl & Hin). cbn in Hl. rewrite Hrest in Hl. case_decide; [done|]. eapply verified_block_mono; [exact Hm2|].
    eapply verified_block_mono; [exact Hm|]. apply Hv. by exists l.
Qed.

Lemma block_try_from_hashed fb block :
  block_try_from blake2b serialize_raw serialize_tx serialize_header serialize_uncles merkle_root from_little_endian fb = Ok block ->
  hashed (b_header block).
Proof. unfold block_try_from. intros H. outcome_inv. by subst. Qed.

Lemma process_new_block_runs peer block (self self' : Node) :
  synchronizer_ok self -> hashed (b_header block) -> process_new_block (E := E) process set_order peer block self = Ok self' ->
  runs (sy_shared self) (sy_shared self') /\ synchronizer_ok self'.
Proof.
  intros Hsok Hw H. unfold process_new_block in H. destruct (orphan_contains _ _); [injection H as <-; split; [by apply rtc_refl|done]|].
  destruct (get_block_status_runs (sy_shared self) (b_hash block)) as (Hr & Hi & _). pose proof Hsok as [Hok Ho Hv].
  destruct (runs_ok _ _ Hr Hok) as [Hok1 Hm].
  assert (Hval : (get_block_status (b_hash block) (sy_shared self)).1 = VALID_MASK -> verified_block (sy_shared self) block).
  { unfold get_block_status. destruct (ss_block_status_map _ !! _) as [st|] eqn:Hst; [|by destruct (get_block_header _ _)]. cbn. intros ->.
    destruct (so_valid _ _ _ _ Hok _ Hst) as (hd & Hk & Hh & Hpow & Hpos).
    assert (hd = b_header block) as ->; [|done]. eapply well_hashed_eq; [exact Hinj| |exact Hw|exact Hh].
    destruct Hk as (v & Hkv & <-). eapply so_hashed; [exact Hok|exact Hkv]. }
  destruct (get_block_status (b_hash block) (sy_shared self)) as [st shared]. cbn in Hr, Hi, Hval, Hok1, Hm.
  assert (synchronizer_ok (mkSynchronizer shared (sy_orphans self))) as Hsok1.
  { split; [done|done|]. intros b Hin. eapply verified_block_mono; [exact Hm|by apply Hv]. }
  case_decide as Hst; [|injection H as <-; done]. apply insert_new_block_runs in H as [Hr2 ?]; [|done|].
  - split; [by eapply runs_trans|done].
  - eapply verified_block_mono; [exact Hm|by apply Hval].
Qed.

Lemma BlockProcess_runs message peer (self self' : Node) actions r :
  synchronizer_ok self ->
  BlockProcess_execute (E := E) blake2b serialize_raw serialize_tx serialize_header serialize_uncles merkle_root from_little_endian
    process set_order message peer self = Ok (self', actions, r) ->
  runs (sy_shared self) (sy_shared self') /\ synchronizer_ok self'.
Proof.
  intros Hsok H. unfold BlockProcess_execute in H. apply bind_Ok in H as (converted & Hc & H).
  destruct converted as [e|block]; [apply Ok_triple in H as (<- & _); split; [by apply rtc_refl|done]|].
  assert (hashed (b_header block)) as Hw.
  { apply (block_try_from_hashed message). destruct (block_try_from _ _ _ _ _ _ _ _); cbn in Hc; congruence. }
  unfold new_block_received in H. pose proof (remove_by_block_moves (b_hash block) (ss_inflight_blocks (sy_shared self))) as Hrm.
  destruct (remove_by_block _ _) as [first inflight].
  set (shared := _ {{ ss_inflight_blocks := inflight }}) in H.
  assert (runs (sy_shared self) shared) as Hr by by apply runs_notes.
  destruct Hsok as [Hok Ho Hv]. destruct (runs_ok _ _ Hr Hok) as [Hok1 Hm].
  assert (synchronizer_ok (mkSynchronizer shared (sy_orphans self))) as Hsok1.
  { split; [done|done|]. intros b Hin. eapply verified_block_mono; [exact Hm|by apply Hv]. }
  apply bind_Ok in H as (self2 & Hp & H). apply Ok_triple in H as (<- & _).
  destruct first; [|injection Hp as <-; done]. apply process_new_block_runs in Hp as [Hr2 ?]; [|done|done].
  split; [by eapply runs_trans|done].
Qed.
(** ** The blocks to ask for *)
Lemma ancestor_known self base number r :
  ok self -> sync_get_ancestor (E := E) (ss_index self) base number = Ok (Some r) -> known self r.
Proof.
  intros Hok H. unfold sync_get_ancestor in H. destruct (get_header_view (ss_index self) base) as [v|] eqn:Hv; [|done].
  unfold view_get_ancestor in H. case_decide; [done|]. pose proof (vo_hash _ (so_views _ _ _ _ Hok)) as Hvo.
  apply ancestor_loop_known in H; [done|done|]. by rewrite (Hvo _ _ Hv).
Qed.

Lemma common_loop_known self fuel : forall m_left m_right r,
  ok self -> known self m_left -> common_loop (E := E) (ss_index self) fuel m_left m_right = Ok (Some r) -> known self r.
Proof.
  induction fuel as [|fuel IH]; intros m_left m_right r Hok Hk H; cbn [common_loop] in H; case_decide; try done; try by injection H as <-.
  apply bind_Ok in H as (ln & _ & H). apply bind_Ok in H as (left & Hl & H). destruct left as [m_left'|]; [|done].
  apply bind_Ok in H as (rn & _ & H). apply bind_Ok in H as (right & _ & H). destruct right as [m_right'|]; [|done].
  eapply IH; [done| |exact H]. by eapply ancestor_known.
Qed.

Lemma last_common_known self common best r :
  ok self -> known self common -> last_common_ancestor (E := E) (ss_index self) common best = Ok (Some r) -> known self r.
Proof.
  intros Hok Hk H. unfold last_common_ancestor in H. apply bind_Ok in H as (right & Hr & H). destruct right as [m_right|]; [|done].
  case_decide; [injection H as <-; by eapply ancestor_known|]. destruct (sync_get_header _ _) as [m_left|] eqn:Hl; [|done].
  eapply common_loop_known; [done| |exact H]. destruct Hk as (v & Hv & Hi). unfold sync_get_header, get_header_view in *.
  assert (m_left = common) as ->; [|exists v; done]. destruct (hi_header_map _ !! _); [congruence|]. rewrite Hl in Hv. cbn in Hv.
  destruct (get_block_ext _ _); [|done]. injection Hv as <-. by rewrite <- Hi.
Qed.

Lemma presumed_known self peer best h : ok self -> presumed_common_header peer best self = Some h -> known self h.
Proof.
  intros Hok H. unfold presumed_common_header, get_last_common_header in H. destruct (ss_peers self !! peer ≫= last_common_header) as [h'|] eqn:Hc.
  { injection H as <-. destruct (ss_peers self !! peer) as [st|] eqn:Hst; [|done]. by eapply po_common; [eapply so_peers|]. }
  case_decide; [|injection H as <-; apply Hok]. destruct (get_block_hash _ _) as [hash|]; [|done]. cbn in H.
  unfold get_block_header, get_block in H. destruct (sd_blocks _ !! hash) as [b|] eqn:Hb; [|done]. injection H as <-.
  by eapply stored_known.
Qed.

Lemma fetcher_common_runs self peer best common self' :
  ok self -> fetcher_last_common_header (E := E) peer best self = Ok (common, self') ->
  runs self self' /\ ss_index self' = ss_index self.
Proof.
  intros Hok H. unfold fetcher_last_common_header in H.
  destruct (presumed_common_header peer best self) as [h|] eqn:Hp; [|apply Ok_pair in H as [_ <-]; split; [by apply rtc_refl|done]].
  apply bind_Ok in H as (fixed & Hf & H). destruct fixed as [fixed|]; apply Ok_pair in H as [_ <-]; [|split; [by apply rtc_refl|done]].
  case_decide; [|split; [by apply rtc_refl|done]]. split; [|done]. eapply last_common_known in Hf; [|done|by eapply presumed_known].
  apply runs_op, (op_peer _ _ _ _ _ peer (fun state => SyncPeers.with_headers (best_known_header state) (Some fixed) state)); [done|].
  intros st [A1 A2 A3 A4]. split; [done| |done|done]. by intros h' [= <-].
Qed.

Lemma fetch_loop_runs fuel : forall peer mh max count index fetch self r self',
  fetch_loop (E := E) now fuel peer mh max count index fetch self = Ok (r, self') -> runs self self'.
Proof.
  induction fuel as [|fuel IH]; intros peer mh max count index fetch self r self' H; cbn [fetch_loop] in H; case_decide; try done;
    try (apply Ok_pair in H as [_ <-]; by apply rtc_refl).
  apply bind_Ok in H as (index' & _ & H). apply bind_Ok in H as (anc & _ & H). destruct anc as [to_fetch|]; [|apply Ok_pair in H as [_ <-]; by apply rtc_refl].
  destruct (get_block_status_runs self (h_hash to_fetch)) as (Hr & _ & _). destruct (get_block_status _ self) as [st self1]. cbn in Hr.
  eapply runs_trans; [exact Hr|]. case_decide; [|by eapply IH].
  pose proof (insert_moves now peer (h_hash to_fetch) (ss_inflight_blocks self1) Hnow) as Him. destruct (inflight_insert _ _ _ _) as [first inflight].
  apply IH in H. eapply runs_trans; [|exact H]. by apply runs_notes.
Qed.

Lemma fetch_runs peer self r self' : ok self -> BlockFetcher_fetch (E := E) now peer self = Ok (r, self') -> runs self self'.
Proof.
  intros Hok H. unfold BlockFetcher_fetch in H. assert (runs self self) as Hrefl by by apply rtc_refl.
  destruct (reached_inflight_limit _ _); [by apply Ok_pair in H as [_ <-]|].
  destruct (get_best_known_header _ _) as [best|]; [|by apply Ok_pair in H as [_ <-]].
  destruct (negb _); [by apply Ok_pair in H as [_ <-]|]. apply bind_Ok in H as (kn & _ & H). destruct (negb kn); [by apply Ok_pair in H as [_ <-]|].
  apply bind_Ok in H as ([common self1] & Hc & H). apply fetcher_common_runs in Hc as [Hr _]; [|done].
  destruct common as [common|]; [|by apply Ok_pair in H as [_ <-]]. case_decide; [by apply Ok_pair in H as [_ <-]|].
  eapply runs_trans; [exact Hr|]. unfold fetch_window in H. apply bind_Ok in H as (we & _ & H). apply bind_Ok in H as (ab & _ & H).
  apply bind_Ok in H as (li & _ & H). apply bind_Ok in H as (top & _ & H). destruct top as [top|]; [by eapply fetch_loop_runs|].
  apply Ok_pair in H as [_ <-]. by apply rtc_refl.
Qed.

Lemma find_blocks_runs order self self' actions :
  ok self -> find_blocks_to_fetch (E := E) now order self = Ok (self', actions) -> runs self self'.
Proof.
  intros Hok H. unfold find_blocks_to_fetch in H. apply bind_Ok in H as (inflight & Hpr%prune_moves & H).
  assert (Hrun : forall peers self acts, ok self -> try_fold (fetch_from (E := E) now) (self, acts) peers = Ok (self', actions) -> runs self self').
  { clear Hok H Hpr self. induction peers as [|peer peers IH]; intros self acts Hok H; cbn in H; [apply Ok_pair in H as [<- _]; by apply rtc_refl|].
    apply bind_Ok in H as ([self1 acts1] & Hf & H). unfold fetch_from in Hf. apply bind_Ok in Hf as ([r self2] & Hf & Hf').
    apply Ok_pair in Hf' as [-> _]. apply fetch_runs in Hf; [|done]. destruct (runs_ok _ _ Hf Hok) as [Hok1 _].
    eapply runs_trans; [exact Hf|]. by eapply IH. }
  assert (runs self (self {{ ss_inflight_blocks := inflight }})) as Hr by by apply runs_notes.
  eapply runs_trans; [exact Hr|]. eapply Hrun; [by destruct (runs_ok _ _ Hr Hok)|exact H].
Qed.

(** ** The peers *)
Lemma chain_sync_runs self peer cs :
  (forall h, cs_work_header cs = Some h -> known self h) -> (cs_timeout cs <> 0 -> is_Some (cs_work_header cs)) ->
  runs self (set_chain_sync cs peer self).
Proof.
  intros Hk Ht. apply runs_op, (op_peer _ _ _ _ _ peer (fun state => with_sync (sync_started state) (headers_sync_timeout state) cs state)); [done|].
  intros st [A1 A2 A3 A4]. by split.
Qed.

Lemma disconnect_flag_runs self peer : runs self (self {{ ss_peers ::= alter (with_disconnect true) peer }}).
Proof. apply runs_op, op_peer; [done|]. intros st [A1 A2 A3 A4]. by split. Qed.

Lemma check_outbound_runs self peer state r self' actions :
  ok self -> ss_peers self !! peer = Some state ->
  check_outbound (E := E) now instant peer state self = Ok (r, self', actions) -> runs self self'.
Proof.
  intros Hok Hst H. unfold check_outbound in H. assert (runs self self) as Hrefl by by apply rtc_refl.
  destruct (match hv_total_difficulty <$> best_known_header state with Some _ => _ | None => _ end).
  { apply Ok_triple in H as (_ & <- & _). case_decide; [|done]. by apply chain_sync_runs. }
  destruct (_ || _). { apply bind_Ok in H as (timeout & _ & H). apply Ok_triple in H as (_ & <- & _). apply chain_sync_runs; [|done]. intros h [= <-]. apply Hok. }
  destruct (_ && _); [|by apply Ok_triple in H as (_ & <- & _)]. destruct (cs_sent_getheaders _).
  - destruct (cs_protect _); [|apply Ok_triple in H as (_ & <- & _); apply disconnect_flag_runs].
    destruct (sync_started state) eqn:Hs; [|by apply Ok_triple in H as (_ & <- & _)].
    apply bind_Ok in H as (until & _ & H). apply Ok_triple in H as (_ & <- & _). by eapply runs_op, op_stop.
  - apply bind_Ok in H as (timeout & _ & H). apply bind_Ok in H as (work & Hw%expect_Ok & H). apply bind_Ok in H as ([self1 acts] & Hs & H).
    apply Ok_triple in H as (_ & <- & _). apply send_getheaders_runs in Hs. eapply runs_trans; [|exact Hs]. apply chain_sync_runs;
      cbn; [|by rewrite Hw]. intros h Hh. by eapply po_work; [eapply so_peers|].
Qed.

Lemma eviction_runs order self self' actions :
  ok self -> eviction (E := E) now instant order self = Ok (self', actions) -> runs self self'.
Proof.
  intros Hok H. unfold eviction in H. apply bind_Ok in H as ([[self1 acts1] evicted1] & H & Hend). apply Ok_pair in Hend as [-> _].
  assert (Hrun : forall self acts ev, ok self -> try_fold (supervise (E := E) now instant) (self, acts, ev) order = Ok (self', acts1, evicted1) -> runs self self').
  { clear Hok H self. induction order as [|peer order IH]; intros self acts ev Hok H; cbn in H; [apply Ok_triple in H as (<- & _); by apply rtc_refl|].
    apply bind_Ok in H as ([[self2 acts2] ev2] & Hs & H). assert (runs self self2) as Hr.
    { unfold supervise in Hs. destruct (ss_peers self !! peer) as [state|] eqn:Hst; [|apply Ok_triple in Hs as (<- & _); by apply rtc_refl].
      destruct (match headers_sync_timeout state with Some _ => _ | None => _ end); [apply Ok_triple in Hs as (<- & _); apply disconnect_flag_runs|].
      destruct (is_outbound state); [|apply Ok_triple in Hs as (<- & _); by apply rtc_refl].
      apply bind_Ok in Hs as ([[evict self3] sent] & Hc & Hs). apply Ok_triple in Hs as (<- & _). by eapply check_outbound_runs. }
    destruct (runs_ok _ _ Hr Hok) as [Hok2 _]. eapply runs_trans; [exact Hr|]. by eapply IH. }
  by eapply Hrun.
Qed.

Lemma start_sync_runs tip peers : forall self self' actions,
  start_sync_loop (E := E) now instant tip peers self = Ok (self', actions) -> runs self self'.
Proof.
  induction peers as [|peer peers IH]; intros self self' actions H; cbn [start_sync_loop] in H; [apply Ok_pair in H as [<- _]; by apply rtc_refl|].
  destruct (_ && _); [apply Ok_pair in H as [<- _]; by apply rtc_refl|]. apply bind_Ok in H as (self1 & Hs & H).
  apply bind_Ok in H as ([self2 sent] & Hg & H). apply bind_Ok in H as ([self3 acts] & Hl & H). apply Ok_pair in H as [<- _].
  apply send_getheaders_runs in Hg. apply IH in Hl. eapply runs_trans; [|eapply runs_trans; [exact Hg|exact Hl]].
  destruct (ss_peers self !! peer) as [st|] eqn:Hst; [|injection Hs as <-; by apply rtc_refl].
  destruct (sync_started st) eqn:Hst'; cbn [negb] in Hs; [injection Hs as <-; by apply rtc_refl|].
  apply bind_Ok in Hs as (timeout & _ & Hs). injection Hs as <-. by eapply runs_op, op_start.
Qed.

Lemma sync_notify_runs token order self self' actions :
  ok self -> sync_notify (E := E) now instant token order self = Ok (self', actions) -> runs self self'.
Proof.
  intros Hok H. unfold sync_notify in H. assert (runs self self) as Hrefl by by apply rtc_refl.
  case_decide; [by apply Ok_pair in H as [<- _]|]. case_decide; [by eapply start_sync_runs|].
  case_decide; [destruct (is_initial_block_download _ _); [by eapply find_blocks_runs|by apply Ok_pair in H as [<- _]]|].
  case_decide; [destruct (negb _); [by eapply find_blocks_runs|by apply Ok_pair in H as [<- _]]|].
  case_decide; [by eapply eviction_runs|by apply Ok_pair in H as [<- _]].
Qed.

(** The numbers of the headers of a message are below 2^63, and there are fewer
    than 2^64 peers. *)
Definition event_bounded (self : SyncState) (event : SyncEvent) : Prop :=
  match event with
  | EvConnected _ _ => Z.of_nat (size (ss_peers self)) + 1 < U64_SIZE
  | EvReceived _ (Some (FbsHeaders headers)) => numbers_bounded headers
  | _ => True
  end.

#[local] Abbreviation handle := (sync_handle (E := E) blake2b serialize_raw serialize_tx serialize_header serialize_uncles merkle_root
  from_little_endian pow process set_order now instant).

Lemma synchronizer_ok_runs (self : Node) shared :
  synchronizer_ok self -> runs (sy_shared self) shared -> synchronizer_ok (mkSynchronizer shared (sy_orphans self)).
Proof.
  intros [Hok Ho Hv] Hr. destruct (runs_ok _ _ Hr Hok) as [Hok1 Hm]. split; [done|done|].
  intros b Hb. eapply verified_block_mono; [exact Hm|by apply Hv].
Qed.

Lemma handle_runs event (self self' : Node) actions :
  synchronizer_ok self -> event_bounded (sy_shared self) event -> handle event self = Ok (self', actions) ->
  runs (sy_shared self) (sy_shared self') /\ synchronizer_ok self'.
Proof.
  intros Hsok Hb H. assert (Hshared : forall shared, runs (sy_shared self) shared ->
    runs (sy_shared self) (sy_shared (mkSynchronizer shared (sy_orphans self))) /\ synchronizer_ok (mkSynchronizer shared (sy_orphans self))).
  { intros shared Hr. split; [done|by apply synchronizer_ok_runs]. }
  pose proof (sn_shared _ Hsok) as Hok. destruct event as [peer outbound|peer|peer message|token order]; cbn [sync_handle] in H.
  - apply Ok_pair in H as [<- _]. apply Hshared, runs_op, op_connect. exact Hb.
  - apply bind_Ok in H as (shared & Hd & H). apply Ok_pair in H as [<- _]. apply Hshared, runs_op. by eapply op_disconnect.
  - unfold sync_received in H. destruct message as [message|]; [|apply Ok_pair in H as [<- _]; split; [by apply rtc_refl|done]].
    apply bind_Ok in H as ([[self1 acts] r] & Ht & H). apply Ok_pair in H as [<- _]. unfold sync_try_process in Ht.
    destruct message as [v hashes|headers|hashes|block|];
      [| | |by eapply BlockProcess_runs|apply Ok_triple in Ht as (<- & _); split; [by apply rtc_refl|done]];
      apply bind_Ok in Ht as ([[shared acts'] r'] & Hx & Ht); apply Ok_triple in Ht as (<- & _); apply Hshared.
    + unfold GetHeadersProcess_execute in Hx. assert (shared = sy_shared self) as ->; [|by apply rtc_refl].
      destruct (is_initial_block_download _ _); [by apply Ok_triple in Hx as (<- & _)|]. destruct hashes as [locator|]; [|by apply Ok_triple in Hx as (<- & _)].
      case_decide; [by apply Ok_triple in Hx as (<- & _)|]. apply bind_Ok in Hx as (hs & _ & Hx). destruct hs as [e|hs]; [by apply Ok_triple in Hx as (<- & _)|].
      apply bind_Ok in Hx as (common & _ & Hx). destruct common; [|by apply Ok_triple in Hx as (<- & _)].
      apply bind_Ok in Hx as (resp & _ & Hx). by apply Ok_triple in Hx as (<- & _).
    + by eapply HeadersProcess_runs.
    + unfold GetBlocksProcess_execute in Hx. assert (shared = sy_shared self) as ->; [|by apply rtc_refl].
      destruct hashes; [|by apply Ok_triple in Hx as (<- & _)]. apply bind_Ok in Hx as ([acts2 r2] & _ & Hx). by apply Ok_triple in Hx as (<- & _).
  - apply bind_Ok in H as ([shared acts] & Hn & H). apply Ok_pair in H as [<- _]. apply Hshared. by eapply sync_notify_runs.
Qed.

Lemma runs_counter self self' : runs self self' -> counter_ok self -> counter_ok self'.
Proof. induction 1 as [|x y z Hop _ IH]; [done|]. intros Hc. by eapply IH, sync_op_counter. Qed.

Lemma runs_inflight self self' : runs self self' -> inflight_moves (ss_inflight_blocks self) (ss_inflight_blocks self').
Proof. induction 1 as [|x y z Hop _ IH]; [reflexivity|]. etransitivity; [by eapply sync_op_inflight|exact IH]. Qed.
End refinement.
