(* ===== verification/RelayRefinement.v ===== *)
(** * The handlers of the relayer take the abstract steps

    The abstract steps of a node are those of the synchronizer, the blocks that
    the relayer rebuilds from announcements, changes of the pool, and the
    announcements that wait for transactions. *)
From stdpp Require Import sorting relations.
From coqutil Require Import Datatypes.RecordSetters.
From S2P Require Import Prelude Capacity ByteStrings Transactions Blocks Fixtures Protocol CellSet Cells Epochs ChainStore VerifyErrors MedianTime HeaderVerify LinkedMap ProposedPool TxPool Compact OrphanPool SyncHeaders SyncPeers ChainPool ChainService TxExecutor ChainApi SyncState Synchronizer Relayer SyncInvariant SyncRefinement.

Section relay.
Context {M L P Q : Type -> Type} `{LM : !LinkedHashMap Bytes M} `{LL : !LruCache Bytes L}.
Context `{LP : !LruCache H256 P} `{LQ : !LruCache (PeerIndex * H256) Q}.
Context {E : Type}.
Context (blake2b : Bytes -> H256) (siphash : Z -> Z -> Bytes -> Z) (serialize_raw : RawTransaction -> Bytes)
  (serialize_tx : RawTransaction -> list (list Bytes) -> Bytes) (serialize_header : RawHeader -> Seal -> Bytes)
  (serialize_uncles : list UncleBlock -> Bytes) (merkle_root : list H256 -> H256)
  (from_little_endian : Bytes -> option Z).
Context (pow : PowEngine) (process : @Shared M L -> Block -> outcome E (@Shared M L * (ChainError + list Block))).
Context `{Hlaws : !ChainLaws process}.
Context (script_verify : ResolvedTransaction -> Z -> outcome ScriptError Z) (cache_insert : gmap Z Z -> Z -> Z -> gmap Z Z).
Context (Hinj : forall raw seal raw' seal', blake2b (serialize_header raw seal) = blake2b (serialize_header raw' seal') ->
  raw = raw' /\ seal = seal').
Context (now instant : Z) (Hnow : 0 <= now < 2 ^ 63).
#[local] Abbreviation SyncState := (SyncSharedState M L P Q).
#[local] Abbreviation ok := (sync_ok (M := M) (L := L) (P := P) (Q := Q) blake2b serialize_header pow).
#[local] Abbreviation op := (sync_op (M := M) (L := L) (P := P) (Q := Q) (E := E) blake2b serialize_header pow process).
#[local] Abbreviation sync_runs := (runs (M := M) (L := L) (P := P) (Q := Q) (E := E) blake2b serialize_header pow process).
#[local] Abbreviation hashed := (well_hashed blake2b serialize_header).
#[local] Abbreviation rebuild := (BlockBuilder_build blake2b serialize_header serialize_uncles merkle_root).
Implicit Types self : SyncState.

(** ** Announcements *)

(** A header one above a stored block. *)
Definition on_stored (self : SyncState) (header : Header) : Prop :=
  0 < h_number header < 2 ^ 63 /\
  exists p, sd_blocks (ss_store self) !! h_parent_hash header = Some p /\ h_number header = b_number p + 1.

Record compact_ok (self : SyncState) (cb : CompactBlock) : Prop := {
  ck_hashed : hashed (cb_header cb);
  ck_work : verify_header pow (cb_header cb) = true;
  ck_checked : CompactBlockVerifier_verify blake2b siphash cb = Ok tt;
  ck_bound : len (cb_prefilled_transactions cb) + len (cb_short_ids cb) < U64_SIZE;
  ck_parent : on_stored self (cb_header cb)
}.

Definition pending_ok (self : SyncState) (pending : gmap Z (CompactBlock * gset Z)) : Prop :=
  forall h cb peers, pending !! h = Some (cb, peers) -> h = h_hash (cb_header cb) /\ compact_ok self cb.

Record relay_ok (self : SyncState) : Prop := {
  rk_sync : ok self;
  rk_pending : pending_ok self (ss_pending_compact_blocks self)
}.

(** ** The abstract steps *)
Inductive node_op : SyncState -> SyncState -> Prop :=
| no_sync self self' : op self self' -> node_op self self'
| no_relay self header uncles txs proposals shared r :
    (** a block that was rebuilt from a header with the proof of work *)
    verify_header pow header = true -> on_stored self header ->
    process (ss_shared self) (rebuild (h_raw header) (h_seal header) uncles txs proposals) = Ok (shared, r) ->
    node_op self (self {{ ss_shared := shared }})
| no_submit self block shared r :
    (** a block of the miner, with the proof of work in its own header *)
    hashed (b_header block) -> verify_header pow (b_header block) = true -> on_stored self (b_header block) ->
    process (ss_shared self) block = Ok (shared, r) -> node_op self (self {{ ss_shared := shared }})
| no_pool self shared : sh_chain shared = sh_chain (ss_shared self) -> node_op self (self {{ ss_shared := shared }})
| no_pending self pending : pending_ok self pending -> node_op self (self {{ ss_pending_compact_blocks := pending }}).

Definition stored_more (self self' : SyncState) : Prop :=
  forall h b, sd_blocks (ss_store self) !! h = Some b -> exists b', sd_blocks (ss_store self') !! h = Some b' /\ b_header b' = b_header b.

Lemma stored_more_intro self self' :
  ok self -> ok self' -> knows_more_than self self' ->
  (forall h b, sd_blocks (ss_store self) !! h = Some b -> is_Some (sd_blocks (ss_store self') !! h)) -> stored_more self self'.
Proof.
  intros Hok Hok' Hm Hs h b Hb. destruct (Hs _ _ Hb) as [b' Hb']. exists b'. split; [done|].
  destruct (so_stored _ _ _ _ Hok _ _ Hb) as (<- & Hw & _). destruct (so_stored _ _ _ _ Hok' _ _ Hb') as (Hh & Hw' & _).
  by eapply well_hashed_eq.
Qed.

Lemma on_stored_mono self self' header : stored_more self self' -> on_stored self header -> on_stored self' header.
Proof. intros Hs (Hr & p & Hp & Hn). split; [done|]. destruct (Hs _ _ Hp) as (p' & ? & Hh). exists p'. split; [done|]. unfold b_number in *. by rewrite Hh. Qed.

Lemma pending_ok_mono self self' pending : stored_more self self' -> pending_ok self pending -> pending_ok self' pending.
Proof.
  intros Hs Hp h cb peers Hl. destruct (Hp _ _ _ Hl) as [? [A1 A2 A3 A4 A5]]. split; [done|]. split; try done. by eapply on_stored_mono.
Qed.

Lemma on_stored_fits self header : ok self -> hashed header -> on_stored self header -> header_fits (ss_index self) header.
Proof.
  intros Hok Hw (Hr & p & Hp & Hn). destruct (stored_known _ _ _ Hinj _ _ _ Hok Hp) as [Hh (v & Hv & Hi)]. split_and!; [lia|lia| |].
  - exists v. change (h_hash (b_header p)) with (b_hash p) in Hv. rewrite Hh in Hv. split; [done|]. unfold hv_number, b_number in *. by rewrite Hi.
  - intros v' Hv'. eapply well_hashed_eq; [exact Hinj|by eapply so_hashed|done|]. exact (vo_hash _ (so_views _ _ _ _ Hok) _ _ Hv').
Qed.

Lemma rebuild_header header uncles txs proposals :
  let block := rebuild (h_raw header) (h_seal header) uncles txs proposals in
  hashed (b_header block) /\ h_number (b_header block) = h_number header /\ h_parent_hash (b_header block) = h_parent_hash header.
Proof. done. Qed.

(** A block on a stored parent. *)
Lemma block_step_ok self block shared r :
  relay_ok self -> hashed (b_header block) -> on_stored self (b_header block) -> process (ss_shared self) block = Ok (shared, r) ->
  relay_ok (self {{ ss_shared := shared }}) /\ knows_more_than self (self {{ ss_shared := shared }}) /\ stored_more self (self {{ ss_shared := shared }}).
Proof.
  intros [Hok Hp] Hw Hon H. destruct (sync_ok_chain _ _ _ process self block shared r Hok Hw) as (Hok' & Hm & _); [by apply on_stored_fits|done|].
  assert (stored_more self (self {{ ss_shared := shared }})) as Hsm.
  { apply stored_more_intro; [done|done|done|]. change (ss_store (self {{ ss_shared := shared }})) with (ch_store (sh_chain shared)).
    intros h b Hb. destruct r as [e|ds]; [rewrite (law_refused _ _ _ _ H); eauto|].
    destruct (law_accepted _ _ _ _ H) as (-> & _). apply lookup_insert_is_Some'. eauto. }
  split_and!; [|done|done]. split; [done|]. change (ss_pending_compact_blocks (self {{ ss_shared := shared }})) with (ss_pending_compact_blocks self).
  by eapply pending_ok_mono.
Qed.

Lemma node_op_ok self self' :
  node_op self self' -> relay_ok self -> relay_ok self' /\ knows_more_than self self' /\ stored_more self self'.
Proof.
  intros Hop Hrok. pose proof Hrok as [Hok Hp]. assert (stored_more self self) as Hrefl by (intros h b ?; eauto).
  destruct Hop as [self self' Hop|self header uncles txs proposals shared r Hpow Hon H|self block shared r Hw Hpow Hon H|self shared Hc|self pending Hpend].
  - destruct (sync_op_ok _ _ _ _ Hinj _ _ Hop Hok) as [Hok' Hm]. destruct (sync_op_pending _ _ _ _ _ _ Hop) as (Hpe & _ & Hs).
    assert (stored_more self self') as Hsm by by apply stored_more_intro.
    split_and!; [|done|done]. split; [done|]. rewrite Hpe. by eapply pending_ok_mono.
  - set (block := rebuild _ _ _ _ _) in H. destruct (rebuild_header header uncles txs proposals) as (Hw & Hn & Hpar). fold block in Hw, Hn, Hpar.
    apply (block_step_ok self block shared r); [done|done| |done]. unfold on_stored in *. by rewrite Hn, Hpar.
  - by apply (block_step_ok self block shared r).
  - assert (stored_more self (self {{ ss_shared := shared }})) as Hsm.
    { intros h b Hb. change (ss_store (self {{ ss_shared := shared }})) with (ch_store (sh_chain shared)). rewrite Hc. eauto. }
    split_and!; [|apply knows_more_refl; change (mkHeaderIndex (ch_store (sh_chain shared)) (ss_header_map self) = ss_index self); by rewrite Hc|done].
    split; [|by eapply pending_ok_mono]. apply (sync_ok_peers _ _ _ self); try done. apply Hok.
  - split_and!; [|by apply knows_more_refl|done]. split; [|by apply (pending_ok_mono self)]. apply (sync_ok_peers _ _ _ self); try done. apply Hok.
Qed.

Definition node_runs (self self' : SyncState) : Prop := rtc node_op self self'.

Lemma node_runs_ok self self' : node_runs self self' -> relay_ok self -> relay_ok self' /\ knows_more_than self self' /\ stored_more self self'.
Proof.
  intros Hr. induction Hr as [|self1 self2 self3 Hop _ IH]; intros Hok; [split_and!; [done|by apply knows_more_refl|intros h b ?; eauto]|].
  destruct (node_op_ok _ _ Hop Hok) as (Hok2 & Hm & Hs). destruct (IH Hok2) as (Hok3 & Hm3 & Hs3). split_and!; [done| |].
  - intros h v Hv. destruct (Hm _ _ Hv) as (v2 & Hv2 & Hi2). destruct (Hm3 _ _ Hv2) as (v3 & ? & ?). exists v3. split; [done|congruence].
  - intros h b Hb. destruct (Hs _ _ Hb) as (b2 & Hb2 & Hh2). destruct (Hs3 _ _ Hb2) as (b3 & ? & ?). exists b3. split; [done|congruence].
Qed.

Lemma node_runs_sync self self' : sync_runs self self' -> node_runs self self'.
Proof. induction 1 as [|x y z Hop _ IH]; [by apply rtc_refl|]. eapply rtc_l; [by apply no_sync|exact IH]. Qed.
Lemma node_runs_trans self1 self2 self3 : node_runs self1 self2 -> node_runs self2 self3 -> node_runs self1 self3.
Proof. apply rtc_trans. Qed.
Lemma node_runs_op self self' : node_op self self' -> node_runs self self'.
Proof. apply rtc_once. Qed.

(** Notes on what is known, asked and in flight. *)
Lemma node_runs_notes self self' :
  ss_shared self' = ss_shared self -> ss_n_sync_started self' = ss_n_sync_started self ->
  ss_shared_best_header self' = ss_shared_best_header self -> ss_header_map self' = ss_header_map self ->
  ss_block_status_map self' = ss_block_status_map self -> ss_peers self' = ss_peers self ->
  inflight_moves (ss_inflight_blocks self) (ss_inflight_blocks self') ->
  ss_pending_compact_blocks self' = ss_pending_compact_blocks self -> node_runs self self'.
Proof. intros. by apply node_runs_sync, runs_notes. Qed.

Lemma node_runs_peer self peer state state' :
  ss_peers self !! peer = Some state -> same_peer state state' -> node_runs self (self {{ ss_peers ::= insert peer state' }}).
Proof. intros. by eapply node_runs_sync, set_peer_runs. Qed.

(** ** Blocks *)
Lemma request_proposals_runs peer cb self self' actions : request_proposal_txs peer cb self = (self', actions) -> node_runs self self'.
Proof.
  unfold request_proposal_txs, insert_inflight_proposals. destruct (foldl _ _ _) as [first inflight]. intros [= <- _]. by apply node_runs_notes.
Qed.

#[local] Abbreviation reconstruct := (reconstruct_block (M := M) (L := L) (E := E) blake2b siphash serialize_header serialize_uncles merkle_root).

Lemma reconstruct_rebuilt pool cb txs block :
  reconstruct pool cb txs = Ok (inr block) ->
  exists txs', block = rebuild (h_raw (cb_header cb)) (h_seal (cb_header cb)) (cb_uncles cb) txs' (cb_proposals cb).
Proof.
  unfold reconstruct_block. intros H. apply bind_Ok in H as (filled & _ & H). destruct (mapM id _) as [txs'|]; [|done]. exists txs'. congruence.
Qed.

#[local] Abbreviation accept := (relayer_accept_block (M := M) (L := L) (P := P) (Q := Q) (E := E) blake2b siphash process).

Lemma relayer_accept_runs connected nonce peer cb pool txs block self self' actions :
  relay_ok self -> compact_ok self cb -> reconstruct pool cb txs = Ok (inr block) ->
  accept connected nonce peer block self = Ok (self', actions) -> node_runs self self'.
Proof.
  intros Hok Hcb (txs' & Hb)%reconstruct_rebuilt H. unfold relayer_accept_block in H. apply bind_Ok in H as ([shared r] & Hp & H).
  set (self1 := self {{ ss_shared := shared }}) in H.
  assert (node_op self self1) as Hop by (rewrite Hb in Hp; eapply no_relay; [by apply (ck_work self)|by apply ck_parent|exact Hp]).
  eapply node_runs_trans; [by apply node_runs_op|]. destruct r as [e|ds]; [apply Ok_pair in H as [<- _]; by apply rtc_refl|].
  destruct (select_peers _ _ _ _ _) as [selected known']. apply Ok_pair in H as [<- _].
  eapply node_runs_trans; [apply node_runs_op, no_sync, (op_forget _ _ _ _ _ (b_hash block))|by apply node_runs_notes].
  change (ss_store self1) with (ch_store (sh_chain shared)). destruct (law_accepted _ _ _ _ Hp) as (Hbl & _).
  unfold get_block_header, get_block. rewrite Hbl, lookup_insert_eq. by eexists.
Qed.

Lemma compact_ok_mono self self' cb : stored_more self self' -> compact_ok self cb -> compact_ok self' cb.
Proof. intros Hs [A1 A2 A3 A4 A5]. split; try done. by eapply on_stored_mono. Qed.

#[local] Abbreviation new := (compact_block_new (M := M) (L := L) (P := P) (Q := Q) (E := E) blake2b siphash serialize_header serialize_uncles merkle_root
  process now).

Lemma pending_delete_ok self pending h : pending_ok self pending -> pending_ok self (delete h pending).
Proof. intros Hp h' cb peers [_ Hl]%lookup_delete_Some. by apply Hp with peers. Qed.
Lemma pending_insert_ok self pending cb peers : pending_ok self pending -> compact_ok self cb -> pending_ok self (<[h_hash (cb_header cb) := (cb, peers)]> pending).
Proof. intros Hp Hc h cb' peers'. rewrite lookup_insert_Some. intros [[<- [= <- <-]]|[_ Hl]]; [done|by apply Hp with peers']. Qed.

Lemma pending_wait_ok self pending peer cb : pending_ok self pending -> compact_ok self cb -> pending_ok self (pending_wait peer cb pending).
Proof.
  intros Hp Hc. unfold pending_wait. destruct (pending !! h_hash (cb_header cb)) as [[cb0 ps]|] eqn:Hl; cbn [default from_option];
    [|by apply pending_insert_ok]. destruct (Hp _ _ _ Hl) as [Hh Hc0]. unfold id. rewrite Hh. by apply pending_insert_ok.
Qed.

Lemma compact_new_runs connected nonce cb peer self self' actions r :
  relay_ok self -> compact_ok self cb -> new connected nonce cb peer self = Ok (self', actions, r) -> node_runs self self'.
Proof.
  intros Hok Hcb H. unfold compact_block_new in H. destruct (request_proposal_txs peer cb self) as [self1 asked] eqn:Hreq.
  apply request_proposals_runs in Hreq as Hr1. destruct (node_runs_ok _ _ Hr1 Hok) as (Hok1 & _ & Hs1).
  pose proof (compact_ok_mono _ _ _ Hs1 Hcb) as Hcb1. pose proof Hok1 as [Hsync1 Hp1]. eapply node_runs_trans; [exact Hr1|].
  apply bind_Ok in H as ([missing|block] & Hrec & H).
  - assert (node_runs self1 (self1 {{ ss_pending_compact_blocks ::= pending_wait peer cb }})) as Hr2
      by (apply node_runs_op, no_pending; by apply pending_wait_ok).
    eapply node_runs_trans; [exact Hr2|]. destruct missing as [|i missing]; [apply Ok_triple in H as (<- & _); by apply rtc_refl|].
    pose proof (insert_moves now peer (h_hash (cb_header cb)) (ss_inflight_blocks self1) Hnow) as Him.
    change (ss_inflight_blocks (self1 {{ ss_pending_compact_blocks ::= _ }})) with (ss_inflight_blocks self1) in H.
    destruct (inflight_insert _ _ _ _) as [first inflight]. apply Ok_triple in H as (<- & _). by apply node_runs_notes.
  - set (self2 := self1 {{ ss_pending_compact_blocks ::= delete (h_hash (cb_header cb)) }}) in H.
    assert (node_runs self1 self2) as Hr2 by (apply node_runs_op, no_pending; by apply pending_delete_ok).
    destruct (node_runs_ok _ _ Hr2 Hok1) as (Hok2 & _ & Hs2). apply bind_Ok in H as ([self3 acts] & Ha & H). apply Ok_triple in H as (<- & _).
    eapply node_runs_trans; [exact Hr2|]. eapply relayer_accept_runs; [done|by eapply compact_ok_mono|exact Hrec|exact Ha].
Qed.

(** The numbers of announced headers are below 2^63, and a message has fewer
    than 2^64 transactions. *)
Definition compact_bounded (message : FbsCompactBlock) : Prop :=
  (forall header, fk_header message = Some header -> fh_number header < 2 ^ 63) /\
  len (default [] (fk_prefilled_transactions message)) + len (default [] (fk_short_ids message)) < U64_SIZE.

Lemma try_map_length {E0 A B} (f : A -> outcome E0 B) l : forall k, try_map f l = Ok k -> length k = length l.
Proof.
  induction l as [|a l IH]; intros k H; cbn in H; [by injection H as <-|].
  apply bind_Ok in H as (b & _ & H). apply bind_Ok in H as (k' & Hk & [= <-]). cbn. by rewrite (IH _ Hk).
Qed.

Lemma compact_try_from_facts message cb :
  compact_bounded message -> compact_block_try_from blake2b serialize_raw serialize_tx serialize_header from_little_endian message = Ok cb ->
  hashed (cb_header cb) /\ h_number (cb_header cb) < 2 ^ 63 /\ len (cb_prefilled_transactions cb) + len (cb_short_ids cb) < U64_SIZE.
Proof.
  intros [Hb1 Hb2] H. unfold compact_block_try_from in H.
  apply bind_Ok in H as (fh & Hfh%ok_or_Ok & H). apply bind_Ok in H as (fs & Hfs%ok_or_Ok & H). apply bind_Ok in H as (fp & Hfp%ok_or_Ok & H).
  apply bind_Ok in H as (fu & _ & H). apply bind_Ok in H as (fr & _ & H). apply bind_Ok in H as (header & Hh & H).
  apply bind_Ok in H as (sids & Hs%try_map_length & H). apply bind_Ok in H as (pre & Hp%try_map_length & H).
  apply bind_Ok in H as (us & _ & H). apply bind_Ok in H as (ps & _ & H). injection H as <-. cbn [cb_header cb_prefilled_transactions cb_short_ids].
  apply header_try_from_hashed in Hh as [Hw Hn]. rewrite Hfp, Hfs in Hb2. cbn in Hb2. unfold len in *. split_and!; [done|rewrite Hn; by apply Hb1|lia].
Qed.

#[local] Abbreviation verify := (compact_block_verify (M := M) (L := L) (P := P) (Q := Q) (E := E) pow now).

Lemma compact_verify_facts cb self :
  ok self -> h_number (cb_header cb) < 2 ^ 63 -> verify cb self = Ok (inr tt) ->
  verify_header pow (cb_header cb) = true /\ on_stored self (cb_header cb).
Proof.
  intros Hok Hlt H. unfold compact_block_verify in H. apply bind_Ok in H as (resolver & Hres & H).
  unfold HeaderResolverWrapper_new in Hres. apply bind_Ok in Hres as (epoch & _ & [= <-]).
  destruct (HeaderVerifier_verify _ _ _ _) as [[]| |] eqn:Hv; [|done|done]. clear H. apply HeaderVerifier_facts in Hv as (Hpow & p & Hp & Hn).
  cbn [hr_header hr_parent] in *. split; [done|]. unfold get_block_header, get_block in Hp.
  destruct (sd_blocks _ !! _) as [b|] eqn:Hb; [|done]. injection Hp as <-. destruct (stored_known _ _ _ Hinj _ _ _ Hok Hb) as [_ (v & Hv & Hi)].
  pose proof (vo_range _ (so_views _ _ _ _ Hok) _ _ Hv) as Hr. unfold hv_number in Hr. rewrite Hi in Hr. split; [lia|]. by exists b.
Qed.

#[local] Abbreviation compact_execute := (CompactBlockProcess_execute (M := M) (L := L) (P := P) (Q := Q) (E := E) blake2b siphash serialize_raw serialize_tx
  serialize_header serialize_uncles merkle_root from_little_endian pow process now instant).

Lemma CompactBlockProcess_runs connected nonce message peer self self' actions r :
  relay_ok self -> compact_bounded message -> compact_execute connected nonce message peer self = Ok (self', actions, r) -> node_runs self self'.
Proof.
  intros Hok Hb H. pose proof (rk_sync _ Hok) as Hsync. assert (node_runs self self) as Hrefl by by apply rtc_refl.
  unfold CompactBlockProcess_execute, quiet in H. apply bind_Ok in H as ([e|cb] & Hc & H); [by apply Ok_triple in H as (<- & _)|].
  assert (compact_block_try_from blake2b serialize_raw serialize_tx serialize_header from_little_endian message = Ok cb) as Hconv
    by (destruct (compact_block_try_from _ _ _ _ _ _); cbn in Hc; congruence).
  apply compact_try_from_facts in Hconv as (Hw & Hlt & Hlen); [|done].
  destruct (get_header_view _ _) as [parent|].
  2:{ apply bind_Ok in H as ([self1 acts] & Hs & H). apply Ok_triple in H as (<- & _).
      by eapply node_runs_sync, send_getheaders_runs. }
  apply bind_Ok in H as (total & _ & H). case_decide; [by apply Ok_triple in H as (<- & _)|].
  destruct (match inflight_state_by_block _ _ with Some _ => _ | None => _ end); [by apply Ok_triple in H as (<- & _)|].
  destruct (_ || _); [by apply Ok_triple in H as (<- & _)|]. apply bind_Ok in H as ([e|[]] & Hv & H); [by apply Ok_triple in H as (<- & _)|].
  apply bind_Ok in H as ([e|[]] & Hk & H); [by apply Ok_triple in H as (<- & _)|].
  apply compact_verify_facts in Hv as [Hpow Hon]; [|done|done]. eapply compact_new_runs; [done| |exact H]. split; try done.
  destruct (CompactBlockVerifier_verify _ _ _) as [[]| |]; cbn in Hk; congruence.
Qed.

Lemma BlockTransactions_runs connected nonce block_hash txs peer self self' actions r :
  relay_ok self ->
  BlockTransactionsProcess_execute (M := M) (L := L) (P := P) (Q := Q) (E := E) blake2b siphash serialize_raw serialize_tx
    serialize_header serialize_uncles merkle_root process connected nonce block_hash txs peer self = Ok (self', actions, r) -> node_runs self self'.
Proof.
  intros Hok H. assert (node_runs self self) as Hrefl by by apply rtc_refl. unfold BlockTransactionsProcess_execute, quiet in H.
  apply bind_Ok in H as ([e|h] & _ & H); [by apply Ok_triple in H as (<- & _)|].
  destruct (ss_pending_compact_blocks self !! h) as [[cb ps]|] eqn:Hl; [|by apply Ok_triple in H as (<- & _)].
  case_decide as Hin; [|by apply Ok_triple in H as (<- & _)]. destruct (rk_pending _ Hok _ _ _ Hl) as [-> Hcb].
  set (self1 := self {{ ss_pending_compact_blocks ::= insert _ _ }}) in H.
  assert (node_runs self self1) as Hr1 by (apply node_runs_op, no_pending, pending_insert_ok; [apply Hok|done]).
  destruct (node_runs_ok _ _ Hr1 Hok) as (Hok1 & _ & Hs1). apply bind_Ok in H as ([e|txs'] & _ & H); [by apply Ok_triple in H as (<- & _)|].
  apply bind_Ok in H as ([missing|block] & Hrec & H); [by apply Ok_triple in H as (<- & _)|].
  apply bind_Ok in H as ([self3 acts] & Ha & H). apply Ok_triple in H as (<- & _).
  set (self2 := self1 {{ ss_pending_compact_blocks ::= delete _ }}) in Ha.
  assert (node_runs self1 self2) as Hr2 by (apply node_runs_op, no_pending, pending_delete_ok; apply Hok1).
  destruct (node_runs_ok _ _ Hr2 Hok1) as (Hok2 & _ & Hs2). eapply node_runs_trans; [exact Hr1|]. eapply node_runs_trans; [exact Hr2|].
  eapply relayer_accept_runs; [done| |exact Hrec|exact Ha]. eapply compact_ok_mono; [exact Hs2|]. by eapply compact_ok_mono; [exact Hs1|].
Qed.

(** ** Proposals and transactions *)
Lemma mark_known_runs hash self : node_runs self (mark_as_known_tx hash self).
Proof. by apply node_runs_notes. Qed.

Lemma mark_asked_runs l : forall self asked self' asked', foldl mark_asked (self, asked) l = (self', asked') -> node_runs self self'.
Proof.
  induction l as [|[b tx] l IH]; intros self asked self' asked' H; [injection H as <- _; by apply rtc_refl|].
  change (foldl mark_asked (mark_asked (self, asked) (b, tx)) l = (self', asked')) in H.
  destruct b; [|eapply IH; exact H]. eapply node_runs_trans; [apply (mark_known_runs (tx_hash tx))|]. eapply IH. exact H.
Qed.

Lemma BlockProposal_runs txs self self' tasks r :
  BlockProposalProcess_execute (M := M) (L := L) (P := P) (Q := Q) (E := E) blake2b serialize_raw serialize_tx txs self = Ok (self', tasks, r) ->
  node_runs self self'.
Proof.
  unfold BlockProposalProcess_execute. intros H. apply bind_Ok in H as ([e|l] & _ & H); [apply Ok_triple in H as (<- & _); by apply rtc_refl|].
  destruct (filter _ l) as [|tx ts]; [apply Ok_triple in H as (<- & _); by apply rtc_refl|].
  unfold remove_inflight_proposals in H. destruct (foldl _ (@nil bool, _) _) as [removes inflight].
  destruct (foldl mark_asked _ _) as [self2 asked] eqn:Hm. apply Ok_triple in H as (<- & _). apply mark_asked_runs in Hm.
  eapply node_runs_trans; [|exact Hm]. by apply node_runs_notes.
Qed.

Lemma same_peer_asked m s state : same_peer state (with_asked m s state).
Proof. done. Qed.

Lemma TransactionHash_runs hash peer self self' actions r :
  TransactionHashProcess_execute (M := M) (L := L) (P := P) (Q := Q) (E := E) instant hash peer self = Ok (self', actions, r) -> node_runs self self'.
Proof.
  unfold TransactionHashProcess_execute, quiet. intros H. apply bind_Ok in H as ([e|h] & _ & H); [apply Ok_triple in H as (<- & _); by apply rtc_refl|].
  destruct (already_known_tx _ _); [apply Ok_triple in H as (<- & _); by apply rtc_refl|].
  destruct (bool_decide _); [apply Ok_triple in H as (<- & _); apply mark_known_runs|].
  set (self1 := self {{ ss_inflight_transactions ::= lru_refresh h }}) in H. assert (node_runs self self1) as Hr1 by by apply node_runs_notes.
  eapply node_runs_trans; [exact Hr1|]. destruct (ss_peers self1 !! peer) as [state|] eqn:Hst; [|apply Ok_triple in H as (<- & _); by apply rtc_refl].
  destruct (add_ask_for_tx _ _ _ _) as [next state'] eqn:Ha. apply Ok_triple in H as (<- & _).
  assert (same_peer state state') as Hs by (unfold add_ask_for_tx in Ha; repeat case_decide; injection Ha as _ <-; done).
  eapply node_runs_trans; [by eapply node_runs_peer|]. destruct next; by apply node_runs_notes.
Qed.

Lemma alter_peer_runs self peer f :
  (forall state, same_peer state (f state)) -> node_runs self (self {{ ss_peers ::= alter f peer }}).
Proof.
  intros Hf. apply node_runs_sync, runs_op, op_notes. split; try done. intros p.
  change (ss_peers (self {{ ss_peers ::= alter f peer }})) with (alter f peer (ss_peers self)). destruct (decide (p = peer)) as [->|].
  - rewrite lookup_alter_eq. destruct (ss_peers self !! peer); constructor. apply Hf.
  - rewrite lookup_alter_ne by done. destruct (ss_peers self !! p); constructor. done.
Qed.

Lemma Transaction_runs message peer self self' tasks r :
  TransactionProcess_execute (M := M) (L := L) (P := P) (Q := Q) (E := E) blake2b serialize_raw serialize_tx message peer self = Ok (self', tasks, r) ->
  node_runs self self'.
Proof.
  unfold TransactionProcess_execute. intros H. apply bind_Ok in H as ([e|[tx cycles]] & _ & H); [apply Ok_triple in H as (<- & _); by apply rtc_refl|].
  destruct (already_known_tx _ _); apply Ok_triple in H as (<- & _); [by apply rtc_refl|].
  eapply node_runs_trans; [apply mark_known_runs|]. by apply alter_peer_runs.
Qed.

Lemma finish_task_runs connected origin res self self' actions :
  finish_task (M := M) (L := L) (P := P) (Q := Q) (E := E) connected origin res self = Ok (self', actions) -> node_runs self self'.
Proof.
  unfold finish_task. intros H. destruct origin as [[[peer hash] cycles]|]; [|apply Ok_pair in H as [<- _]; by apply rtc_refl].
  destruct res as [err|l]; [apply Ok_pair in H as [<- _]; by apply rtc_refl|]. apply bind_Ok in H as (c & _ & H).
  case_decide; [|apply Ok_pair in H as [<- _]; by apply rtc_refl]. destruct (select_peers _ _ _ _ _). apply Ok_pair in H as [<- _]. by apply node_runs_notes.
Qed.

Lemma run_task_runs connected task self self' actions rest :
  run_task (M := M) (L := L) (P := P) (Q := Q) (E := E) script_verify cache_insert now connected task self = Ok (self', actions, rest) -> node_runs self self'.
Proof.
  unfold run_task. intros H. destruct (tk_phase task) as [txs|p|p verified].
  - apply bind_Ok in H as ([res|p] & _ & H); [|apply Ok_triple in H as (<- & _); by apply rtc_refl].
    apply bind_Ok in H as ([self1 acts] & Hf & H). apply Ok_triple in H as (<- & _). by eapply finish_task_runs.
  - apply bind_Ok in H as (verified & _ & H). apply Ok_triple in H as (<- & _). by apply rtc_refl.
  - apply bind_Ok in H as ([shared res] & Ha & H). apply bind_Ok in H as ([self1 acts] & Hf & H). apply Ok_triple in H as (<- & _).
    apply finish_task_runs in Hf. eapply node_runs_trans; [|exact Hf]. apply node_runs_op, no_pool.
    unfold executor_add in Ha. apply bind_Ok in Ha as (results & _ & Ha). apply bind_Ok in Ha as ([pool r] & _ & Ha). by apply Ok_pair in Ha as [<- _].
Qed.

Lemma ask_peer_runs self peer : node_runs self (ask_peer (M := M) (L := L) (P := P) (Q := Q) instant self peer).1.
Proof.
  unfold ask_peer. destruct (ss_peers self !! peer) as [state|] eqn:Hst; [|by apply rtc_refl].
  destruct (pop_ask_for_txs instant state) as [hashes state1] eqn:Hp. eapply node_runs_peer; [exact Hst|].
  assert (same_peer state state1) as Hs by (unfold pop_ask_for_txs in Hp; by injection Hp as _ <-). clear Hp Hst. revert state1 Hs.
  induction hashes as [|h hashes IH]; intros state1 Hs; cbn [foldl]; [done|]. apply IH. by destruct (already_known_tx _ _).
Qed.

Lemma ask_for_txs_runs order self : node_runs self (ask_for_txs (M := M) (L := L) (P := P) (Q := Q) instant order self).1.
Proof.
  unfold ask_for_txs. generalize (@nil NetAction) as acts. revert self. induction order as [|peer order IH]; intros self acts; cbn [foldl]; [by apply rtc_refl|].
  pose proof (ask_peer_runs self peer) as Hr. destruct (ask_peer instant self peer) as [self1 sent]. eapply node_runs_trans; [exact Hr|apply IH].
Qed.

(** ** All events *)
#[local] Abbreviation Relay := (Relayer (M := M) (L := L) (P := P) (Q := Q)).
#[local] Abbreviation handle := (relay_handle (M := M) (L := L) (P := P) (Q := Q) (E := E) blake2b siphash serialize_raw serialize_tx serialize_header
  serialize_uncles merkle_root from_little_endian pow process script_verify cache_insert now instant).

Definition relay_bounded (event : RelayEvent) : Prop :=
  match event with
  | RvReceived _ (Some (FbsRelayCompactBlock block)) _ _ => compact_bounded block
  | _ => True
  end.

Lemma relay_handle_runs event (self self' : Relay) actions :
  relay_ok (re_shared self) -> relay_bounded event -> handle event self = Ok (self', actions) ->
  node_runs (re_shared self) (re_shared self').
Proof.
  intros Hok Hb H. assert (node_runs (re_shared self) (re_shared self)) as Hrefl by by apply rtc_refl.
  destruct event as [peer message connected nonce|token ids order|index connected]; cbn [relay_handle] in H.
  - unfold relay_received in H. destruct (is_initial_block_download _ _); [by apply Ok_pair in H as [<- _]|].
    destruct message as [message|]; [|by apply Ok_pair in H as [<- _]]. apply bind_Ok in H as ([[self1 acts] res] & Ht & H).
    apply Ok_pair in H as [<- _]. unfold relay_try_process in Ht.
    destruct message; try (apply bind_Ok in Ht as ([[shared x] res'] & Hx & Ht)); apply Ok_triple in Ht as (<- & _); cbn [re_shared]; try done.
    + by eapply CompactBlockProcess_runs.
    + by eapply Transaction_runs.
    + by eapply TransactionHash_runs.
    + unfold GetTransactionProcess_execute in Hx. apply bind_Ok in Hx as ([e|h] & _ & Hx); by apply Ok_triple in Hx as (<- & _).
    + unfold GetBlockTransactionsProcess_execute in Hx. apply bind_Ok in Hx as ([e|[h ixs]] & _ & Hx); by apply Ok_triple in Hx as (<- & _).
    + by eapply BlockTransactions_runs.
    + unfold GetBlockProposalProcess_execute in Hx. apply bind_Ok in Hx as ([e|ids] & _ & Hx); apply Ok_triple in Hx as (<- & _); [done|]. by apply node_runs_notes.
    + by eapply BlockProposal_runs.
  - apply bind_Ok in H as ([shared acts] & Hn & H). apply Ok_pair in H as [<- _]. cbn [re_shared]. unfold relay_notify in Hn.
    destruct (is_initial_block_download _ _); [by apply Ok_pair in Hn as [<- _]|]. case_decide.
    { apply Ok_pair in Hn as [<- _]. by apply node_runs_notes. }
    case_decide; [|done]. pose proof (ask_for_txs_runs order (re_shared self)) as Hr. destruct (ask_for_txs _ _ _) as [s a]. by injection Hn as -> _.
  - destruct (re_tasks self !! index) as [task|]; [|by apply Ok_pair in H as [<- _]].
    apply bind_Ok in H as ([[shared acts] rest] & Hr & H). apply Ok_pair in H as [<- _]. by eapply run_task_runs.
Qed.
End relay.
