(* ===== verification/SyncProgress.v ===== *)
(** * The timers of the synchronizer return *)
From stdpp Require Import sorting relations.
From coqutil Require Import Datatypes.RecordSetters.
From S2P Require Import Prelude Capacity ByteStrings Transactions Blocks Fixtures Protocol Epochs ChainStore VerifyErrors MedianTime HeaderVerify LinkedMap ProposedPool TxPool Compact OrphanPool SyncHeaders SyncPeers ChainPool ChainService ChainInvariant ChainApi SyncState Synchronizer SyncInvariant SyncRefinement.

(** ** Peers and headers *)
Section progress.
Context {M L P Q : Type -> Type} `{LP : !LruCache H256 P} `{LQ : !LruCache (PeerIndex * H256) Q}.
Context {E : Type} (blake2b : Bytes -> H256) (serialize_header : RawHeader -> Seal -> Bytes).
Context (pow : PowEngine) (process : @Shared M L -> Block -> outcome E (@Shared M L * (ChainError + list Block))).
Context `{Hlaws : !ChainLaws process}.
Context (Hinj : forall raw seal raw' seal', blake2b (serialize_header raw seal) = blake2b (serialize_header raw' seal') ->
  raw = raw' /\ seal = seal').
Context (now instant : Z) (Hnow : 0 <= now < 2 ^ 63).
#[local] Abbreviation SyncState := (SyncSharedState M L P Q).
#[local] Abbreviation ok := (sync_ok (M := M) (L := L) (P := P) (Q := Q) blake2b serialize_header pow).
#[local] Abbreviation run := (runs (M := M) (L := L) (P := P) (Q := Q) (E := E) blake2b serialize_header pow process).
Implicit Types self : SyncState.

Lemma known_ancestor self header number :
  ok self -> known self header -> 0 <= number <= h_number header ->
  exists r, sync_get_ancestor (E := E) (ss_index self) (h_hash header) number = Ok (Some r) /\ known self r /\ h_number r = number.
Proof.
  intros Hok (v & Hv & <-) Hn. destruct (ancestor_at (E := E) _ (so_views _ _ _ _ Hok) v _ number Hv Hn) as (w & Ha & Hw & Hnum & _).
  exists (hv_inner w). split_and!; [done| |done]. by exists w.
Qed.

Lemma ancestor_Ok self header number :
  ok self -> known self header -> 0 <= number -> exists r, sync_get_ancestor (E := E) (ss_index self) (h_hash header) number = Ok r.
Proof.
  intros Hok Hk Hn. destruct (decide (number <= h_number header)).
  - destruct (known_ancestor _ _ number Hok Hk) as (r & ? & _); [lia|eauto].
  - destruct Hk as (v & Hv & <-). unfold sync_get_ancestor, view_get_ancestor, hv_number. rewrite Hv, decide_True by lia. eauto.
Qed.

Lemma known_range self header : ok self -> known self header -> 0 <= h_number header < 2 ^ 63.
Proof. intros Hok (v & Hv & <-). exact (vo_range _ (so_views _ _ _ _ Hok) _ _ Hv). Qed.

Lemma known_genesis self header :
  ok self -> known self header -> h_number header = 0 -> h_hash header = genesis_hash (ss_consensus self).
Proof. intros Hok (v & Hv & <-) Hn. by eapply so_root. Qed.

(** A locator can be made for every known header. *)
Lemma locator_Ok self header :
  ok self -> known self header -> exists l, get_locator (E := E) (genesis_hash (ss_consensus self)) (ss_index self) header = Ok l.
Proof.
  intros Hok Hk. pose proof Hk as (v & Hv & Hi). pose proof (known_range _ _ Hok Hk) as Hr.
  destruct (get_locator_spec (E := E) (ss_index self) (genesis_hash (ss_consensus self)) (so_views _ _ _ _ Hok) header v Hv Hi) as [-> _]; [|eauto].
  destruct (ancestor_at (E := E) _ (so_views _ _ _ _ Hok) v _ 0 Hv) as (w & _ & Hw & Hnum & Hh & _); [unfold hv_number; rewrite Hi; lia|].
  rewrite <- Hh. by eapply so_root.
Qed.

Lemma send_getheaders_Ok self peer header :
  ok self -> known self header -> exists self' actions, send_getheaders_to_peer (E := E) instant peer header self = Ok (self', actions).
Proof.
  intros Hok Hk. unfold send_getheaders_to_peer. destruct (match lru_get _ _ with Some _ => _ | None => _ end); [eauto|].
  destruct (locator_Ok _ _ Hok Hk) as [l Hl]. set (self1 := apply_update (mk_update ss_pending_get_headers _) (apply_update _ self)).
  change (ss_consensus self1) with (ss_consensus self). change (ss_index self1) with (ss_index self). rewrite Hl, bind_ret_l. eauto.
Qed.

Lemma sync_tip_known self : ok self -> known self (sync_tip self).
Proof. intros Hok. unfold sync_tip. destruct (better_view _ _ _); apply Hok. Qed.

Lemma predict_Ok header : exists t, predict_headers_sync_time (E := E) now header = Ok t.
Proof.
  unfold predict_headers_sync_time, HEADERS_DOWNLOAD_TIMEOUT_BASE, HEADERS_DOWNLOAD_TIMEOUT_PER_HEADER, MAX_HEADERS_LEN.
  rewrite add_w_eq, bind_ret_l by lia. rewrite add_w_eq; [eauto|]. lia.
Qed.

Lemma start_sync_loop_Ok tip peers : forall self,
  ok self -> known self tip -> exists self' actions, start_sync_loop (E := E) now instant tip peers self = Ok (self', actions).
Proof.
  induction peers as [|peer peers IH]; intros self Hok Hk; cbn [start_sync_loop]; [eauto|]. destruct (_ && _); [eauto|].
  set (m := match ss_peers self !! peer with Some _ => _ | None => _ end).
  assert (exists self1, m = Ok self1 /\ run self self1) as (self1 & -> & Hr).
  { unfold m. destruct (ss_peers self !! peer) as [st|] eqn:Hst; [|exists self; split; [done|by apply rtc_refl]].
    destruct (sync_started st) eqn:Hs; cbn [negb]; [exists self; split; [done|by apply rtc_refl]|].
    destruct (predict_Ok tip) as [t ->]. rewrite bind_ret_l. eexists. split; [done|]. by eapply runs_op, op_start. }
  rewrite bind_ret_l. destruct (runs_ok _ _ _ _ Hinj _ _ Hr Hok) as [Hok1 Hm1].
  destruct (send_getheaders_Ok self1 peer tip) as (self2 & acts & Hs); [done|by eapply known_mono|]. rewrite Hs, bind_ret_l.
  apply (send_getheaders_runs blake2b serialize_header pow process) in Hs. destruct (runs_ok _ _ _ _ Hinj _ _ Hs Hok1) as [Hok2 Hm2].
  destruct (IH self2) as (self3 & acts3 & ->); [done|by eapply known_mono, known_mono|]. rewrite bind_ret_l. eauto.
Qed.

Lemma check_outbound_Ok self peer state :
  ok self -> ss_peers self !! peer = Some state ->
  exists r self' actions, check_outbound (E := E) now instant peer state self = Ok (r, self', actions).
Proof.
  intros Hok Hst. unfold check_outbound, CHAIN_SYNC_TIMEOUT, PROTECT_STOP_SYNC_TIME, EVICTION_HEADERS_RESPONSE_TIME.
  pose proof (so_peers _ _ _ _ Hok _ _ Hst) as [_ _ Hwork Hto].
  destruct (match hv_total_difficulty <$> best_known_header state with Some _ => _ | None => _ end); [eauto|].
  destruct (_ || _). { rewrite add_w_eq, bind_ret_l by lia. eauto. }
  destruct (_ && _) eqn:Ht; [|eauto]. apply andb_prop in Ht as [Ht%bool_decide_eq_true _]. destruct (cs_sent_getheaders _).
  - destruct (cs_protect _); [|eauto]. destruct (sync_started state); [|eauto]. rewrite add_w_eq, bind_ret_l by lia. eauto.
  - rewrite add_w_eq, bind_ret_l by lia. destruct Hto as [work Hw]; [lia|]. rewrite Hw. cbn [expect]. rewrite bind_ret_l.
    set (self1 := set_chain_sync _ _ _).
    assert (run self self1) as Hr by (apply chain_sync_runs; cbn; [intros h [= <-]; by apply Hwork|done]).
    destruct (runs_ok _ _ _ _ Hinj _ _ Hr Hok) as [Hok1 Hm].
    destruct (send_getheaders_Ok self1 peer work) as (self2 & acts & ->); [done|by eapply known_mono, Hwork|]. rewrite bind_ret_l. eauto.
Qed.

Lemma supervise_Ok order : forall self acts ev, ok self -> exists r, try_fold (supervise (E := E) now instant) (self, acts, ev) order = Ok r.
Proof.
  induction order as [|peer order IH]; intros self acts ev Hok; cbn [try_fold]; [eauto|].
  assert (exists self1 acts1 ev1, supervise (E := E) now instant (self, acts, ev) peer = Ok (self1, acts1, ev1) /\ run self self1) as (self1 & acts1 & ev1 & -> & Hr).
  { unfold supervise. destruct (ss_peers self !! peer) as [state|] eqn:Hst; [|do 3 eexists; split; [done|by apply rtc_refl]].
    destruct (match headers_sync_timeout state with Some _ => _ | None => _ end); [do 3 eexists; split; [done|apply disconnect_flag_runs]|].
    destruct (is_outbound state); [|do 3 eexists; split; [done|by apply rtc_refl]].
    destruct (check_outbound_Ok self peer state Hok Hst) as (r & self1 & sent & Hc). rewrite Hc, bind_ret_l.
    do 3 eexists. split; [done|]. by eapply check_outbound_runs. }
  rewrite bind_ret_l. destruct (runs_ok _ _ _ _ Hinj _ _ Hr Hok) as [Hok1 _]. by apply IH.
Qed.

(** ** The blocks to ask for *)
Lemma common_loop_Ok self fuel : forall m_left m_right,
  ok self -> known self m_left -> known self m_right -> h_number m_left = h_number m_right -> (Z.to_nat (h_number m_left) < fuel)%nat ->
  exists r, common_loop (E := E) (ss_index self) fuel m_left m_right = Ok r.
Proof.
  induction fuel as [|fuel IH]; intros l r Hok Hl Hr Hn Hf; [lia|]. cbn [common_loop]. case_decide as Hne; [eauto|].
  pose proof (known_range _ _ Hok Hl) as Hrange.
  assert (h_number l <> 0) as H0.
  { intros H0. destruct Hne. rewrite (known_genesis _ _ Hok Hl H0). symmetry. apply (known_genesis _ _ Hok Hr). lia. }
  rewrite <- Hn, sub_w_eq, bind_ret_l by lia.
  destruct (known_ancestor _ l (h_number l - 1) Hok Hl) as (l' & -> & Hl' & Hnl); [lia|]. rewrite !bind_ret_l.
  destruct (known_ancestor _ r (h_number l - 1) Hok Hr) as (r' & -> & Hr' & Hnr); [lia|]. rewrite bind_ret_l. apply IH; [done|done|done|lia|lia].
Qed.

Lemma sync_get_header_known self header : known self header -> sync_get_header (ss_index self) (h_hash header) = Some header.
Proof.
  intros (v & Hv & Hi). unfold sync_get_header, get_header_view in *. destruct (hi_header_map _ !! _) as [v0|]; [by injection Hv as ->; rewrite Hi|].
  destruct (get_block_header _ _); [|done]. cbn in Hv. destruct (get_block_ext _ _); [|done]. injection Hv as <-. cbn in Hi. by rewrite Hi.
Qed.

Lemma last_common_Ok self common best :
  ok self -> known self common -> known self best -> exists r, last_common_ancestor (E := E) (ss_index self) common best = Ok r.
Proof.
  intros Hok Hc Hb. unfold last_common_ancestor. pose proof (known_range _ _ Hok Hc) as Hr.
  destruct (decide (h_number common <= h_number best)) as [Hle|Hgt].
  - destruct (known_ancestor _ best (h_number common) Hok Hb) as (m & -> & Hm & Hn); [lia|]. rewrite bind_ret_l. case_decide; [eauto|].
    rewrite (sync_get_header_known _ _ Hc). apply common_loop_Ok; [done|done|done|lia|lia].
  - destruct Hb as (v & Hv & <-). unfold sync_get_ancestor, view_get_ancestor, hv_number. rewrite Hv, decide_True by lia. rewrite bind_ret_l. eauto.
Qed.

Lemma fetch_loop_Ok fuel : forall peer top max count index fetch self,
  ok self -> known self top -> 0 <= index -> max <= h_number top -> (Z.to_nat (max - index) <= fuel)%nat ->
  exists r, fetch_loop (E := E) now fuel peer (h_hash top) max count index fetch self = Ok r.
Proof.
  induction fuel as [|fuel IH]; intros peer top max count index fetch self Hok Hk Hi Hmax Hf; cbn [fetch_loop];
    (case_decide as Hd; [|eauto]); [lia|]. pose proof (known_range _ _ Hok Hk) as Hrange. rewrite add_w_eq, bind_ret_l by lia.
  destruct (known_ancestor _ top (index + 1) Hok Hk) as (r & -> & _); [lia|]. rewrite bind_ret_l.
  destruct (get_block_status_runs blake2b serialize_header pow process Hinj self (h_hash r)) as (Hr & _ & _).
  destruct (get_block_status (h_hash r) self) as [st self1]. cbn in Hr. destruct (runs_ok _ _ _ _ Hinj _ _ Hr Hok) as [Hok1 Hm1].
  pose proof (known_mono _ _ _ Hm1 Hk) as Hk1. case_decide; [|apply IH; [done|done|lia|lia|lia]].
  pose proof (insert_moves now peer (h_hash r) (ss_inflight_blocks self1) Hnow) as Him.
  destruct (inflight_insert _ _ _ _) as [first inflight]. set (self2 := self1 {{ ss_inflight_blocks := inflight }}).
  assert (run self1 self2) as Hr2 by by apply runs_notes. destruct (runs_ok _ _ _ _ Hinj _ _ Hr2 Hok1) as [Hok2 Hm2].
  apply IH; [done|by eapply known_mono|lia|lia|lia].
Qed.

Lemma fetch_Ok peer self : ok self -> exists r, BlockFetcher_fetch (E := E) now peer self = Ok r.
Proof.
  intros Hok. unfold BlockFetcher_fetch. destruct (reached_inflight_limit _ _); [eauto|].
  destruct (get_best_known_header (ss_peers self) peer) as [best|] eqn:Hbest; [|eauto].
  assert (known self (hv_inner best)) as Hkb.
  { unfold get_best_known_header in Hbest. destruct (ss_peers self !! peer) as [st|] eqn:Hst; [|done]. by eapply po_best; [eapply so_peers|]. }
  destruct (negb _); [eauto|]. unfold is_known_best. pose proof (known_range _ _ Hok Hkb) as Hrb.
  destruct (ancestor_Ok self (hv_inner (ss_shared_best_header self)) (hv_number best) Hok) as [anc Hanc]; [apply Hok|unfold hv_number; lia|].
  change (h_hash (hv_inner (ss_shared_best_header self))) with (hv_hash (ss_shared_best_header self)) in Hanc. rewrite Hanc, !bind_ret_l. destruct (negb _); [eauto|]. unfold fetcher_last_common_header.
  destruct (presumed_common_header peer best self) as [common|] eqn:Hp; [|rewrite bind_ret_l; eauto].
  pose proof (presumed_known blake2b serialize_header pow Hinj _ _ _ _ Hok Hp) as Hkc. destruct (last_common_Ok self common (hv_inner best) Hok Hkc Hkb) as [fixed Hf].
  rewrite Hf, !bind_ret_l. destruct fixed as [fixed|]; [|eauto].
  pose proof (last_common_known blake2b serialize_header pow _ _ _ _ Hok Hkc Hf) as Hkf. pose proof (known_range _ _ Hok Hkf) as Hrf.
  set (self1 := if decide (h_hash fixed ≠ h_hash common) then _ else _).
  assert (ok self1 /\ ss_index self1 = ss_index self) as [Hok1 Hi1].
  { unfold self1. case_decide; [|done]. split; [|done]. eapply (runs_ok _ _ _ process Hinj self); [|done].
    apply runs_op, (op_peer _ _ _ _ _ peer (fun state => SyncPeers.with_headers (best_known_header state) (Some fixed) state)); [done|].
    intros st0 [A1 A2 A3 A4]. split; [done| |done|done]. by intros h' [= <-]. }
  case_decide; [eauto|]. unfold fetch_window, BLOCK_DOWNLOAD_WINDOW, PER_FETCH_BLOCK_LIMIT.
  rewrite (add_w_eq _ (h_number fixed) 1024), bind_ret_l, (add_w_eq _ (h_number fixed + 1024) 1), bind_ret_l, (add_w_eq _ (h_number fixed) 128), bind_ret_l by lia.
  assert (known self1 (hv_inner best)) as Hkb1 by (unfold known; by rewrite Hi1). unfold hv_number, hv_hash.
  destruct (known_ancestor self1 (hv_inner best) (Z.min (Z.min (h_number fixed + 1024 + 1) (h_number (hv_inner best))) (h_number fixed + 128)) Hok1 Hkb1)
    as (top & -> & Hkt & Hnt); [lia|]. rewrite bind_ret_l. apply fetch_loop_Ok; [done|done|lia|lia|lia].
Qed.

Lemma find_blocks_Ok order self :
  ok self -> inflight_good (ss_inflight_blocks self) -> exists r, find_blocks_to_fetch (E := E) now order self = Ok r.
Proof.
  intros Hok [_ Hts]. unfold find_blocks_to_fetch. destruct (prune_total (E := E) now (ss_inflight_blocks self)) as [inflight Hpr].
  { eapply map_Forall_impl; [exact Hts|]. intros h v ?. unfold BLOCK_DOWNLOAD_TIMEOUT, in_range. cbn beta in *. lia. }
  rewrite Hpr. apply prune_moves in Hpr.
  rewrite bind_ret_l. set (self1 := self {{ ss_inflight_blocks := inflight }}).
  assert (run self self1) as Hr by by apply runs_notes. destruct (runs_ok _ _ _ _ Hinj _ _ Hr Hok) as [Hok1 _].
  generalize (@nil NetAction) as acts. clearbody self1. clear Hr Hok Hts. revert self1 Hok1.
  induction (filter _ order) as [|peer peers IH]; intros self1 Hok1 acts; cbn [try_fold]; [eauto|].
  destruct (fetch_Ok peer self1 Hok1) as [[r self2] Hf].
  assert (exists acts', fetch_from (E := E) now (self1, acts) peer = Ok (self2, acts')) as [acts' ->] by (unfold fetch_from; rewrite Hf, bind_ret_l; eauto).
  rewrite bind_ret_l. apply IH. eapply (runs_ok _ _ _ process Hinj self1); [|done]. by eapply fetch_runs.
Qed.

Lemma notify_Ok token order self :
  ok self -> inflight_good (ss_inflight_blocks self) ->
  exists self' actions, sync_notify (E := E) now instant token order self = Ok (self', actions).
Proof.
  intros Hok Hts. unfold sync_notify. case_decide; [eauto|]. case_decide.
  { unfold start_sync_headers. apply start_sync_loop_Ok; [done|by apply sync_tip_known]. }
  case_decide; [destruct (is_initial_block_download _ _); [|eauto]; destruct (find_blocks_Ok order self Hok Hts) as [[? ?] ->]; eauto|].
  case_decide; [destruct (negb _); [|eauto]; destruct (find_blocks_Ok order self Hok Hts) as [[? ?] ->]; eauto|].
  case_decide; [|eauto]. unfold eviction. destruct (supervise_Ok order self [] [] Hok) as [[[self1 acts] ev] ->]. rewrite bind_ret_l. eauto.
Qed.
End progress.
