(* ===== verification/SyncFetch.v ===== *)
(** * The blocks that are asked for *)
From stdpp Require Import sorting relations.
From coqutil Require Import Datatypes.RecordSetters.
From S2P Require Import Prelude Capacity ByteStrings Transactions Blocks Fixtures Protocol Epochs ChainStore VerifyErrors MedianTime HeaderVerify LinkedMap ProposedPool TxPool Compact OrphanPool SyncHeaders SyncPeers ChainPool ChainService ChainInvariant ChainApi SyncState Synchronizer SyncInvariant SyncRefinement SyncProgress.

(** A request that is accepted is charged to the peer, another is not. *)
Lemma insert_charges now p h s :
  peer_inflight_count (inflight_insert now p h s).2 p = peer_inflight_count s p + (if (inflight_insert now p h s).1 then 1 else 0) /\
  requested s p ⊆ requested (inflight_insert now p h s).2 p /\
  ((inflight_insert now p h s).1 = true -> h ∈ requested (inflight_insert now p h s).2 p).
Proof.
  assert (Hc : forall s, peer_inflight_count s p = Z.of_nat (size (requested s p))).
  { intros s0. unfold peer_inflight_count, requested. by destruct (if_blocks s0 !! p). }
  rewrite !Hc. unfold inflight_insert. case_decide; cbn [fst snd]; [unfold requested; cbn; split_and!; [lia|done|done]|].
  unfold requested. cbn. rewrite lookup_insert_eq. cbn. set (blocks := default ∅ (if_blocks s !! p)).
  case_bool_decide as Hin; split_and!; try set_solver.
  - rewrite size_union, size_singleton by set_solver. lia.
  - assert ({[h]} ∪ blocks = blocks) as -> by set_solver. lia.
Qed.

Section fetch.
Context {M L P Q : Type -> Type} `{LP : !LruCache H256 P} `{LQ : !LruCache (PeerIndex * H256) Q}.
Context {E : Type} (now : Z).
#[local] Abbreviation SyncState := (SyncSharedState M L P Q).
Implicit Types self : SyncState.

(** The headers of blocks that are asked for: ancestors of [top] without gaps in
    their order, with a valid header and not yet stored. *)
Record fetched (index : HeaderIndex) (status : H256 -> BlockStatus) (top : H256) (low high : Z) (header : Header) : Prop := {
  ft_range : low < h_number header <= high;
  ft_ancestor : sync_get_ancestor (E := E) index top (h_number header) = Ok (Some header);
  ft_status : status (h_hash header) = VALID_MASK
}.

Definition block_status (self : SyncState) (h : H256) : BlockStatus := (get_block_status h self).1.

Lemma block_status_step self h h' : block_status (get_block_status h self).2 h' = block_status self h'.
Proof.
  unfold block_status, get_block_status at 2. destruct (ss_block_status_map self !! h) as [st|] eqn:Hst; [done|].
  destruct (get_block_header (ss_store self) h) as [hd|] eqn:Hh; [|done]. unfold get_block_status.
  cbn [snd]. change (ss_block_status_map (self {{ ss_block_status_map ::= insert h BLOCK_HAVE_MASK }})) with (<[h := BLOCK_HAVE_MASK]> (ss_block_status_map self)).
  destruct (decide (h = h')) as [<-|Hne]; [by rewrite lookup_insert_eq, Hst, Hh|]. rewrite lookup_insert_ne by done.
  destruct (ss_block_status_map self !! h'); [done|]. change (ss_store (self {{ ss_block_status_map ::= _ }})) with (ss_store self).
  by destruct (get_block_header (ss_store self) h').
Qed.

(** What the loop adds to [fetch]. *)
Record fetch_post (peer : PeerIndex) (top : H256) (low high count : Z) (self : SyncState) (fetch : list H256) (new : list Header) (self' : SyncState) : Prop := {
  fp_new : Forall (fetched (ss_index self) (block_status self) top low high) new;
  fp_order : StronglySorted (fun a b => h_number a < h_number b) new;
  fp_count : len fetch + len new <= Z.max count (len fetch);
  fp_charged : peer_inflight_count (ss_inflight_blocks self') peer = peer_inflight_count (ss_inflight_blocks self) peer + len new;
  fp_kept : requested (ss_inflight_blocks self) peer ⊆ requested (ss_inflight_blocks self') peer;
  fp_requested : Forall (fun h => h_hash h ∈ requested (ss_inflight_blocks self') peer) new
}.

Lemma fetch_post_nil peer top low high count self fetch : fetch_post peer top low high count self fetch [] self.
Proof. split; try done; rewrite ?len_nil; [constructor|lia|lia]. Qed.

Lemma fetch_loop_spec fuel : forall peer top v max count index fetch self r self',
  views_ok (get_header_view (ss_index self)) -> get_header_view (ss_index self) top = Some v -> 0 <= index -> max <= hv_number v ->
  fetch_loop (E := E) now fuel peer top max count index fetch self = Ok (r, self') ->
  exists new, r = Some (fetch ++ (h_hash <$> new)) /\ fetch_post peer top index max count self fetch new self'.
Proof.
  induction fuel as [|fuel IH]; intros peer top v max count index fetch self r self' Hv Ht Hi Hmax H; cbn [fetch_loop] in H;
    (case_decide as Hd; [|apply Ok_pair in H as [<- <-]; exists []; rewrite app_nil_r; split; [done|apply fetch_post_nil]]); [done|].
  apply bind_Ok in H as (index' & [-> _]%add_w_Ok & H).
  destruct (ancestor_at (E := E) _ Hv v top (index + 1) Ht) as (w & Ha & Hw & Hnum & _); [lia|].
  rewrite Ha, bind_ret_l in H.
  pose proof (block_status_step self (h_hash (hv_inner w))) as Hbs.
  assert (ss_index (get_block_status (h_hash (hv_inner w)) self).2 = ss_index self) as Hix
    by (unfold get_block_status; destruct (ss_block_status_map self !! _); [done|]; by destruct (get_block_header _ _)).
  assert (ss_inflight_blocks (get_block_status (h_hash (hv_inner w)) self).2 = ss_inflight_blocks self) as Hif
    by (unfold get_block_status; destruct (ss_block_status_map self !! _); [done|]; by destruct (get_block_header _ _)).
  assert ((get_block_status (h_hash (hv_inner w)) self).1 = block_status self (h_hash (hv_inner w))) as Hst by done.
  destruct (get_block_status (h_hash (hv_inner w)) self) as [st self1]. cbn [fst snd] in Hbs, Hix, Hif, Hst.
  assert (Hweak : forall h, fetched (ss_index self) (block_status self) top (index + 1) max h -> fetched (ss_index self) (block_status self) top index max h)
    by (intros h [A1 A2 A3]; split; [lia|done|done]).
  case_decide as Hvalid.
  - pose proof (insert_charges now peer (h_hash (hv_inner w)) (ss_inflight_blocks self1)) as (Hcount & Hsub & Hin).
    destruct (inflight_insert _ _ _ _) as [first inflight]. cbn [fst snd] in Hcount, Hsub, Hin.
    assert (ss_index (self1 {{ ss_inflight_blocks := inflight }}) = ss_index self) as Hix2 by exact Hix.
    eapply (IH _ _ v) in H; [|by rewrite Hix2|by rewrite Hix2|lia|done].
    assert (Hbs' : forall h, block_status (self1 {{ ss_inflight_blocks := inflight }}) h = block_status self h).
    { intros h. rewrite <- Hbs. unfold block_status, get_block_status.
      change (ss_block_status_map (self1 {{ ss_inflight_blocks := inflight }})) with (ss_block_status_map self1).
      change (ss_store (self1 {{ ss_inflight_blocks := inflight }})) with (ss_store self1).
      destruct (ss_block_status_map self1 !! h); [done|]. by destruct (get_block_header _ _). }
    destruct H as (new & -> & [Hf Hs Hl Hc Hr Hq]).
    change (ss_index (self1 {{ ss_inflight_blocks := inflight }})) with (ss_index self1) in Hf.
    change (ss_inflight_blocks (self1 {{ ss_inflight_blocks := inflight }})) with inflight in Hc, Hr. rewrite Hix in Hf. rewrite Hif in Hcount, Hsub.
    assert (Forall (fetched (ss_index self) (block_status self) top (index + 1) max) new) as Hf'
      by (eapply Forall_impl; [exact Hf|]; intros h [A1 A2 A3]; split; [done|done|by rewrite <- Hbs']).
    destruct first.
    + exists (hv_inner w :: new). rewrite fmap_cons, <- app_assoc. split; [done|]. rewrite len_app, len_cons, len_nil in Hl.
      split; rewrite ?len_cons; [| |lia|lia|set_solver|].
      * constructor; [|by eapply Forall_impl]. unfold hv_number in Hnum. split; [lia| |congruence].
        by rewrite Hnum.
      * constructor; [done|]. eapply Forall_impl; [exact Hf'|]. intros h [A1 _ _]. unfold hv_number in Hnum. lia.
      * constructor; [|done]. apply Hr, Hin. done.
    + exists new. split; [done|]. split; [by eapply Forall_impl|done|lia|lia|set_solver|done].
  - eapply (IH _ _ v) in H; [|by rewrite ?Hix|by rewrite ?Hix|lia|done]. destruct H as (new & -> & [Hf Hs Hl Hc Hr Hq]). rewrite Hix in Hf. rewrite Hif in Hc, Hr.
    exists new. split; [done|]. split; [|done|lia|lia|done|done]. eapply Forall_impl; [exact Hf|]. intros h [A1 A2 A3]. split; [lia|done|by rewrite <- Hbs].
Qed.
End fetch.

(** An ancestor of an ancestor. *)
Lemma ancestor_trans {E} index v base top height k :
  views_ok (get_header_view index) -> get_header_view index base = Some v -> 0 <= k <= height -> height <= hv_number v ->
  sync_get_ancestor (E := E) index base height = Ok (Some top) ->
  sync_get_ancestor (E := E) index (h_hash top) k = sync_get_ancestor (E := E) index base k.
Proof.
  intros Hok Hv Hk Hh Ht. destruct (ancestor_at (E := E) _ Hok v _ height Hv) as (w & Ha & Hw & Hn & _ & Hsame); [lia|].
  rewrite Ha in Ht. injection Ht as <-. destruct (ancestor_at (E := E) _ Hok v _ k Hv) as (u & Hau & Hu & _ & Hhu & _); [lia|].
  destruct (ancestor_at (E := E) _ Hok w _ k Hw) as (u' & Hau' & Hu' & _ & Hhu' & _); [lia|].
  rewrite Hsame in Hhu' by lia. change (h_hash (hv_inner w)) with (hv_hash w). rewrite Hau, Hau'. congruence.
Qed.

Section fetcher.
Context {M L P Q : Type -> Type} `{LP : !LruCache H256 P} `{LQ : !LruCache (PeerIndex * H256) Q}.
Context {E : Type} (blake2b : Bytes -> H256) (serialize_header : RawHeader -> Seal -> Bytes) (pow : PowEngine) (now : Z).
Context (Hinj : forall raw seal raw' seal', blake2b (serialize_header raw seal) = blake2b (serialize_header raw' seal') ->
  raw = raw' /\ seal = seal').
#[local] Abbreviation SyncState := (SyncSharedState M L P Q).
#[local] Abbreviation ok := (sync_ok (M := M) (L := L) (P := P) (Q := Q) blake2b serialize_header pow).
Implicit Types self : SyncState.

Lemma common_peer_fields peer best self common self' :
  fetcher_last_common_header (E := E) peer best self = Ok (common, self') ->
  ss_index self' = ss_index self /\ ss_inflight_blocks self' = ss_inflight_blocks self /\ (forall h, block_status self' h = block_status self h).
Proof.
  unfold fetcher_last_common_header. intros H. destruct (presumed_common_header peer best self); [|apply Ok_pair in H as [_ <-]; done].
  apply bind_Ok in H as ([fixed|] & _ & H); apply Ok_pair in H as [_ <-]; [|done]. case_decide; [|done]. split_and!; [done|done|].
  intros hh. unfold block_status, get_block_status.
  change (ss_block_status_map (self {{ ss_peers ::= set_last_common_header peer fixed }})) with (ss_block_status_map self).
  change (ss_store (self {{ ss_peers ::= set_last_common_header peer fixed }})) with (ss_store self).
  destruct (ss_block_status_map self !! hh); [done|]. by destruct (get_block_header _ _).
Qed.

(** The blocks asked of a peer are on the chain of its best header, above the
    last common block and at most 128 of them further, in the order of their
    numbers; their headers were verified and they are not stored; they are
    charged to the peer, which then owes at most sixteen blocks. *)
Lemma fetch_asks peer self hashes self' :
  ok self -> BlockFetcher_fetch (E := E) now peer self = Ok (Some hashes, self') ->
  exists best common headers, get_best_known_header (ss_peers self) peer = Some best /\ known self common /\
    hashes = h_hash <$> headers /\ StronglySorted (fun a b => h_number a < h_number b) headers /\
    (forall h, h ∈ headers -> h_number common < h_number h <= Z.min (hv_number best) (h_number common + PER_FETCH_BLOCK_LIMIT) /\
      sync_get_ancestor (E := E) (ss_index self) (hv_hash best) (h_number h) = Ok (Some h) /\
      block_status self (h_hash h) = VALID_MASK /\ h_hash h ∈ requested (ss_inflight_blocks self') peer) /\
    peer_inflight_count (ss_inflight_blocks self') peer = peer_inflight_count (ss_inflight_blocks self) peer + len headers /\
    peer_inflight_count (ss_inflight_blocks self') peer <= MAX_BLOCKS_IN_TRANSIT_PER_PEER.
Proof.
  intros Hok H. pose proof (so_views _ _ _ _ Hok) as Hv. unfold BlockFetcher_fetch in H.
  destruct (reached_inflight_limit _ _) eqn:Hlim; [done|]. destruct (get_best_known_header (ss_peers self) peer) as [best|] eqn:Hbest; [|done].
  assert (known self (hv_inner best)) as (vb & Hvb & Hib).
  { unfold get_best_known_header in Hbest. destruct (ss_peers self !! peer) as [st|] eqn:Hst; [|done]. by eapply po_best; [eapply so_peers|]. }
  destruct (negb _); [done|]. apply bind_Ok in H as (kn & _ & H). destruct (negb kn); [done|].
  apply bind_Ok in H as ([common self1] & Hc & H). destruct common as [common|]; [|done].
  destruct (common_peer_fields _ _ _ _ _ Hc) as (Hi1 & Hf1 & Hs1). unfold fetcher_last_common_header in Hc.
  destruct (presumed_common_header peer best self) as [pre|] eqn:Hp; [|done]. apply bind_Ok in Hc as ([fixed|] & Hfix & Hc); [|done].
  apply Ok_pair in Hc as [[= ->] _]. assert (known self common) as Hkc
    by (eapply (last_common_known blake2b serialize_header pow); [done| |exact Hfix]; by eapply (presumed_known blake2b serialize_header pow)).
  pose proof (known_range blake2b serialize_header pow _ _ Hok Hkc) as Hrc.
  case_decide; [done|]. unfold fetch_window in H. apply bind_Ok in H as (we & [-> _]%add_w_Ok & H). apply bind_Ok in H as (ab & [-> _]%add_w_Ok & H).
  apply bind_Ok in H as (li & [-> _]%add_w_Ok & H). apply bind_Ok in H as ([top|] & Ht & H); [|done]. rewrite Hi1 in Ht. rewrite Hf1 in H.
  set (high := Z.min _ _) in Ht, H. assert (high <= hv_number best) as Hhb by (unfold high; lia).
  assert (hv_number best = hv_number vb) as Hnb by (unfold hv_number; by rewrite Hib).
  assert (0 <= high) as Hh0. { pose proof (known_range blake2b serialize_header pow _ _ Hok (ex_intro _ vb (conj Hvb Hib))). unfold high, BLOCK_DOWNLOAD_WINDOW, PER_FETCH_BLOCK_LIMIT, hv_number. lia. }
  destruct (ancestor_at (E := E) _ Hv vb _ high Hvb) as (w & Ha & Hw & Hnw & _); [lia|]. change (h_hash (hv_inner best)) with (hv_hash best) in *.
  rewrite Ha in Ht. injection Ht as <-.
  apply (fetch_loop_spec now _ _ _ w) in H as (headers & Heq & [Fn Fo Fc Fch Fk Fr]); [|by rewrite Hi1|by rewrite Hi1|lia|lia].
  injection Heq as ->. exists best, common, headers. rewrite Hi1 in Fn. rewrite Hf1 in Fch, Fk.
  unfold reached_inflight_limit in Hlim. apply bool_decide_eq_false in Hlim. rewrite len_nil in Fc. unfold saturating_sub in Fc.
  split_and!; [done|done|done|done| |done|unfold MAX_BLOCKS_IN_TRANSIT_PER_PEER in *; lia].
  intros h Hin. rewrite Forall_forall in Fn, Fr. destruct (Fn _ Hin) as [A1 A2 A3]. split_and!; [lia|unfold high in A1; lia| |by rewrite <- Hs1|by apply Fr].
  rewrite <- A2. symmetry. apply (ancestor_trans _ vb _ _ high); [done|done|lia|lia|done].
Qed.
End fetcher.
