(* ===== verification/Node.v ===== *)
(** * A node on the network

    The synchronizer, the relayer and the miner's calls work on one state.
    [node_handle] is one event; the states that are reached from a start on a
    chain are those that the theorems speak of. *)
From stdpp Require Import sorting relations.
From coqutil Require Import Datatypes.RecordSetters.
From S2P Require Import Prelude Capacity ByteStrings Transactions Blocks Fixtures Protocol CellSet Cells Epochs ChainStore Fork VerifyErrors ProposalTable MedianTime HeaderVerify BlockVerify LinkedMap ProposedPool TxPool Compact OrphanPool SyncHeaders SyncPeers ChainPool ChainService TxExecutor ChainInvariant ChainReach ChainApi SyncState Synchronizer Relayer SyncInvariant SyncRefinement RelayRefinement SyncProgress SyncFetch.

Inductive NodeEvent :=
| NeSync (event : SyncEvent)
| NeRelay (event : RelayEvent)
| NeSubmit (block : Block) (nonce : Z).

Section node.
Context {M L P Q : Type -> Type} `{LM : !LinkedHashMap Bytes M} `{LL : !LruCache Bytes L}.
Context `{LP : !LruCache H256 P} `{LQ : !LruCache (PeerIndex * H256) Q}.
Context {E : Type}.
Context (blake2b : Bytes -> H256) (siphash : Z -> Z -> Bytes -> Z) (serialize_raw : RawTransaction -> Bytes)
  (serialize_tx : RawTransaction -> list (list Bytes) -> Bytes) (serialize_header : RawHeader -> Seal -> Bytes)
  (serialize_uncles : list UncleBlock -> Bytes) (merkle_root : list H256 -> H256)
  (from_little_endian : Bytes -> option Z).
Context (pow : PowEngine) (process : Z -> @Shared M L -> Block -> outcome E (@Shared M L * (ChainError + list Block))).
Context (script_verify : ResolvedTransaction -> Z -> outcome ScriptError Z) (cache_insert : gmap Z Z -> Z -> Z -> gmap Z Z).
Context (set_order : list Block -> list Block).
#[local] Abbreviation SyncState := (SyncSharedState M L P Q).

Record NodeState := mkNode { nd_shared : SyncState; nd_orphans : gmap Z (list Block); nd_tasks : list RelayTask }.

(** ** The calls *)

(** [submit_block] of the miner's interface, with the block that the call's
    data describe and the random nonce of the announcement. *)
Definition submit_block (now nonce : Z) (block : Block) (self : SyncState) : outcome E (SyncState * (option H256 * list NetAction)) :=
  resolver ← HeaderResolverWrapper_new (ss_consensus self) (ss_store self) (b_header block);
  header_verify_ret ← catch (HeaderVerifier_verify pow (ChainState_median_context (ss_consensus self) (ss_store self)) now resolver);
  match header_verify_ret with
  | inl _ => Ok (self, (None, []))
  | inr _ =>
      '(shared, ret) ← process now (ss_shared self) block;
      Ok (self {{ ss_shared := shared }},
          match ret with
          | inr _ => (Some (b_hash block), [BroadcastAllRelay (build_compact_block blake2b siphash block ∅ nonce)])
          | inl _ => (None, [])
          end)
  end.

Definition node_handle (now instant : Z) (event : NodeEvent) (self : NodeState) : outcome E (NodeState * list NetAction) :=
  match event with
  | NeSync event =>
      '(sync, actions) ← sync_handle blake2b serialize_raw serialize_tx serialize_header serialize_uncles merkle_root
        from_little_endian pow (process now) set_order now instant event (mkSynchronizer (nd_shared self) (nd_orphans self));
      Ok (mkNode (sy_shared sync) (sy_orphans sync) (nd_tasks self), actions)
  | NeRelay event =>
      '(relay, actions) ← relay_handle blake2b siphash serialize_raw serialize_tx serialize_header serialize_uncles merkle_root
        from_little_endian pow (process now) script_verify cache_insert now instant event (mkRelayer (nd_shared self) (nd_tasks self));
      Ok (mkNode (re_shared relay) (nd_orphans self) (re_tasks relay), actions)
  | NeSubmit block nonce =>
      '(shared, (_, actions)) ← submit_block now nonce block (nd_shared self);
      Ok (mkNode shared (nd_orphans self) (nd_tasks self), actions)
  end.

(** ** The states *)
Context (Hinj : forall raw seal raw' seal', blake2b (serialize_header raw seal) = blake2b (serialize_header raw' seal') ->
  raw = raw' /\ seal = seal').
Context `{Hlaws : !forall now, ChainLaws (process now)} (Horder : forall l, set_order l ≡ₚ l).
#[local] Abbreviation ok := (sync_ok (M := M) (L := L) (P := P) (Q := Q) blake2b serialize_header pow).
#[local] Abbreviation hashed := (well_hashed blake2b serialize_header).
#[local] Abbreviation rok := (relay_ok (M := M) (L := L) (P := P) (Q := Q) blake2b siphash serialize_header pow).
#[local] Abbreviation sok := (synchronizer_ok (M := M) (L := L) (P := P) (Q := Q) blake2b serialize_header pow).
#[local] Abbreviation op now := (node_op (M := M) (L := L) (P := P) (Q := Q) (E := E) blake2b siphash serialize_header serialize_uncles merkle_root pow (process now)).
#[local] Abbreviation run now := (node_runs (M := M) (L := L) (P := P) (Q := Q) (E := E) blake2b siphash serialize_header serialize_uncles merkle_root pow (process now)).

(** A chain to start on: the invariant of the chain, headers with their own
    hashes, and numbers below 2^63. *)
Record start_ok (shared : @Shared M L) : Prop := {
  sk_chain : chain_ok (sh_chain shared);
  sk_hashed : forall h b, sd_blocks (ch_store (sh_chain shared)) !! h = Some b -> hashed (b_header b) /\ b_number b < 2 ^ 63
}.

Definition node_bounded (self : NodeState) (event : NodeEvent) : Prop :=
  match event with
  | NeSync event => event_bounded (nd_shared self) event
  | NeRelay event => relay_bounded event
  | NeSubmit block _ => hashed (b_header block) /\ b_number block < 2 ^ 63
  end.

(** Other components may change the pool and the cache at any time. *)
Inductive node_reachable : NodeState -> Prop :=
| node_start shared self : start_ok shared -> SyncSharedState_new (E := E) shared = Ok self -> node_reachable (mkNode self ∅ [])
| node_event now instant event self self' actions :
    node_reachable self -> 0 <= now < 2 ^ 63 -> node_bounded self event ->
    node_handle now instant event self = Ok (self', actions) -> node_reachable self'
| node_pool self shared : node_reachable self -> sh_chain shared = sh_chain (ss_shared (nd_shared self)) ->
    node_reachable (mkNode ((nd_shared self) {{ ss_shared := shared }}) (nd_orphans self) (nd_tasks self)).

Record node_ok (self : NodeState) : Prop := {
  nk_sync : sok (mkSynchronizer (nd_shared self) (nd_orphans self));
  nk_pending : pending_ok blake2b siphash serialize_header pow (nd_shared self) (ss_pending_compact_blocks (nd_shared self));
  nk_counter : counter_ok (nd_shared self);
  nk_inflight : inflight_good (ss_inflight_blocks (nd_shared self))
}.

Lemma node_op_counter now self self' : op now self self' -> counter_ok self -> counter_ok self'.
Proof.
  intros Hop Hc. destruct Hop as [self self' Hop|self header uncles txs proposals shared r Hpow Hon H|self block shared r Hw Hpow Hon H|self shared Hsh|self pending Hpend];
    [by eapply sync_op_counter|by apply (counter_same self)..].
Qed.

Lemma node_op_inflight now self self' : op now self self' -> inflight_moves (ss_inflight_blocks self) (ss_inflight_blocks self').
Proof.
  intros Hop. destruct Hop as [self self' Hop|self header uncles txs proposals shared r Hpow Hon H|self block shared r Hw Hpow Hon H|self shared Hsh|self pending Hpend];
    [by eapply sync_op_inflight|reflexivity..].
Qed.

(** What a run of abstract steps keeps. *)
Lemma node_runs_keep now self orphans tasks tasks' self' :
  node_ok (mkNode self orphans tasks) -> run now self self' -> node_ok (mkNode self' orphans tasks').
Proof.
  intros [[Hok Ho Hv] Hp Hc Hi] Hr. cbn [nd_shared nd_orphans sy_shared sy_orphans] in *.
  destruct (node_runs_ok _ _ _ _ _ _ _ Hinj _ _ Hr) as ([Hok' Hp'] & Hm & _); [by split|].
  assert (counter_ok self' /\ inflight_good (ss_inflight_blocks self')) as [Hc' Hi'].
  { clear - Hr Hc Hi. induction Hr as [|x y z Hop _ IH]; [done|]. apply IH; [by eapply node_op_counter|].
    apply node_op_inflight in Hop as [_ Hg]. by apply Hg. }
  split; cbn; [|done|done|done]. split; cbn; [done|done|]. intros b Hb. eapply verified_block_mono; [exact Hm|by apply Hv].
Qed.

(** ** The start *)
Lemma start_views (shared : @Shared M L) h v :
  get_header_view (mkHeaderIndex (ch_store (sh_chain shared)) ∅) h = Some v <->
  exists b ext, sd_blocks (ch_store (sh_chain shared)) !! h = Some b /\ sd_ext (ch_store (sh_chain shared)) !! h = Some ext /\
    v = HeaderView_new (b_header b) (total_difficulty ext) (total_uncles_count ext).
Proof.
  unfold get_header_view, get_block_header, get_block, get_block_ext. cbn. split.
  - destruct (sd_blocks _ !! h) as [b|]; [|done]. cbn. destruct (sd_ext _ !! h) as [ext|]; [|done]. intros [= <-]. by exists b, ext.
  - intros (b & ext & -> & -> & ->). done.
Qed.

Lemma start_view_stored (shared : @Shared M L) self h v :
  SyncSharedState_new (P := P) (Q := Q) (E := E) shared = Ok self -> get_header_view (ss_index self) h = Some v -> is_Some (sd_blocks (ch_store (sh_chain shared)) !! h).
Proof.
  unfold SyncSharedState_new. intros H Hv. apply bind_Ok in H as (ext & _ & H). injection H as <-.
  apply (start_views shared) in Hv as (b & e & Hb & _). by rewrite Hb.
Qed.

Lemma start_sync_ok shared self : start_ok shared -> SyncSharedState_new (E := E) shared = Ok self -> node_ok (mkNode self ∅ []).
Proof.
  intros [Hc Hh] H. unfold SyncSharedState_new in H. apply bind_Ok in H as (ext & He%expect_Ok & H). injection H as <-.
  set (self := {| ss_shared := shared |}). pose proof (co_stored _ Hc) as Hs. pose proof (start_views shared) as Hv.
  assert (Hi : ss_index self = mkHeaderIndex (ch_store (sh_chain shared)) ∅) by done.
  assert (Hview : forall h b, sd_blocks (ch_store (sh_chain shared)) !! h = Some b ->
    exists e, sd_ext (ch_store (sh_chain shared)) !! h = Some e /\
      get_header_view (ss_index self) h = Some (HeaderView_new (b_header b) (total_difficulty e) (total_uncles_count e))).
  { intros h b Hb. destruct (st_ext _ Hs _ _ Hb) as [e Hext]. exists e. split; [done|]. rewrite Hi. apply Hv. by exists b, e. }
  assert (known self (tip_header (sh_chain shared))) as Htip.
  { destruct (co_tip _ Hc) as (b & Hb & Hbt). destruct (Hview _ _ Hb) as (e & _ & Hg). eexists. split; [exact Hg|done]. }
  assert (ok self) as Hok; [split|]; cbn [ss_block_status_map ss_peers self]; try done.
  - split; rewrite ?Hi.
    + intros h v (b & e & Hb & _ & ->)%Hv. by destruct (st_blocks _ Hs _ _ Hb).
    + intros h v (b & e & Hb & _ & ->)%Hv. destruct (Hh _ _ Hb). by destruct (st_blocks _ Hs _ _ Hb).
    + intros h v (b & e & Hb & _ & ->)%Hv Hpos. destruct (st_parent _ Hs _ _ Hb Hpos) as (p & Hp & Hn).
      destruct (Hview _ _ Hp) as (e' & _ & Hg). eexists. split; [exact Hg|done].
    + intros h v sh (b & e & Hb & _ & ->)%Hv. done.
  - intros h v. rewrite Hi. intros (b & e & Hb & _ & ->)%Hv H0. pose proof (st_genesis _ Hs _ _ Hb H0) as Hg.
    pose proof (co_first _ Hc) as Hf. unfold ss_consensus, ss_chain. cbn. congruence.
  - intros h v. rewrite Hi. intros (b & e & Hb & _ & ->)%Hv. by apply (Hh h).
  - intros h b Hb. destruct (st_blocks _ Hs _ _ Hb), (Hh _ _ Hb), (Hview _ _ Hb) as (e & He' & _). split_and!; [done|done|by exists e].
  - split; cbn [nd_shared nd_orphans]; [|by intros h|by split|].
    + split; cbn [sy_shared sy_orphans]; [done|by intros h|]. intros b (l & Hl & _). by rewrite lookup_empty in Hl.
    + split; [apply inflight_default_ok|by intros h].
Qed.

(** ** The events *)
Lemma submit_runs now nonce block self self' r :
  rok self -> hashed (b_header block) -> b_number block < 2 ^ 63 -> submit_block now nonce block self = Ok (self', r) -> run now self self'.
Proof.
  intros [Hok Hp] Hw Hlt H. unfold submit_block in H. apply bind_Ok in H as (resolver & Hres & H).
  unfold HeaderResolverWrapper_new in Hres. apply bind_Ok in Hres as (epoch & _ & [= <-]).
  apply bind_Ok in H as ([e|[]] & Hv & H); [apply Ok_pair in H as [<- _]; by apply rtc_refl|].
  apply bind_Ok in H as ([shared ret] & Hpr & H). apply Ok_pair in H as [<- _].
  destruct (HeaderVerifier_verify _ _ _ _) as [[]| |] eqn:Hver; [|done|done]. clear Hv. apply HeaderVerifier_facts in Hver as (Hpow & p & Hpar & Hn).
  cbn [hr_header hr_parent] in *. unfold get_block_header, get_block in Hpar. destruct (sd_blocks _ !! _) as [b|] eqn:Hb; [|done]. injection Hpar as <-.
  destruct (stored_known _ _ _ Hinj _ _ _ Hok Hb) as [_ (v & Hv & Hi)]. pose proof (vo_range _ (so_views _ _ _ _ Hok) _ _ Hv) as Hr.
  unfold hv_number in Hr. rewrite Hi in Hr. apply node_runs_op. apply (no_submit _ _ _ _ _ _ _ _ block shared ret); [done|done| |done]. split; [unfold b_number in Hlt; lia|]. by exists b.
Qed.

Lemma node_ok_relay self : node_ok self -> rok (nd_shared self).
Proof. intros [[Hok _ _] Hp _ _]. by split. Qed.

Lemma node_handle_runs now instant event self self' actions :
  0 <= now < 2 ^ 63 -> node_ok self -> node_bounded self event -> node_handle now instant event self = Ok (self', actions) ->
  run now (nd_shared self) (nd_shared self') /\ node_ok self'.
Proof.
  intros Hnow Hok Hb H. pose proof (node_ok_relay _ Hok) as Hrok.
  assert (node_ok (mkNode (nd_shared self) (nd_orphans self) (nd_tasks self))) as Hok0 by by destruct self. destruct event as [event|event|block nonce]; cbn [node_handle] in H.
  - apply bind_Ok in H as ([sync acts] & Hs & H). apply Ok_pair in H as [<- _]. cbn [nd_shared].
    destruct (handle_runs _ _ _ _ _ _ _ _ (process now) Hinj set_order Horder now instant Hnow _ _ _ _ (nk_sync _ Hok) Hb Hs) as [Hr Hsok]. cbn [sy_shared] in Hr.
    pose proof (node_runs_sync _ siphash _ serialize_uncles merkle_root _ _ _ _ Hr) as Hr'. split; [done|].
    destruct (node_runs_keep now _ _ _ (nd_tasks self) _ Hok0 Hr') as [_ Hp Hc Hi]. by split; [destruct sync|..].
  - apply bind_Ok in H as ([relay acts] & Hs & H). apply Ok_pair in H as [<- _]. cbn [nd_shared].
    pose proof (relay_handle_runs _ _ _ _ _ _ _ _ _ (process now) _ _ Hinj now instant Hnow _ (mkRelayer (nd_shared self) (nd_tasks self)) _ _ Hrok Hb Hs) as Hr. cbn [re_shared] in Hr. split; [done|]. by eapply node_runs_keep.
  - apply bind_Ok in H as ([shared [r acts]] & Hs & H). apply Ok_pair in H as [<- _]. cbn [nd_shared]. destruct Hb as [Hw Hlt].
    apply submit_runs in Hs as Hr; [|done..]. split; [done|]. by eapply node_runs_keep.
Qed.

Lemma node_reachable_ok self : node_reachable self -> node_ok self.
Proof.
  intros Hr. induction Hr as [shared self Hst Hnew|now instant event self self' actions Hr IH Hnow Hb H|self shared Hr IH Hc].
  - by eapply start_sync_ok.
  - by eapply node_handle_runs.
  - destruct self as [shared0 orphans tasks]. eapply (node_runs_keep 0); [exact IH|]. by apply node_runs_op, no_pool.
Qed.

(** ** What every node does *)
Lemma start_sync_ibd now instant tip peers : forall (self self' : SyncState) actions,
  is_initial_block_download now self = true -> start_sync_loop (E := E) now instant tip peers self = Ok (self', actions) ->
  ss_n_sync_started self' = ss_n_sync_started self \/ (ss_n_sync_started self = 0 /\ ss_n_sync_started self' = 1).
Proof.
  induction peers as [|peer peers IH]; intros self self' actions Hibd H; cbn [start_sync_loop] in H; [apply Ok_pair in H as [<- _]; by left|].
  rewrite Hibd in H. cbn [andb] in H. case_bool_decide as Hn; [apply Ok_pair in H as [<- _]; by left|].
  apply bind_Ok in H as (self1 & Hs & H). apply bind_Ok in H as ([self2 sent] & Hg & H). apply bind_Ok in H as ([self3 acts] & Hl & H).
  apply Ok_pair in H as [<- _].
  assert (ss_shared self2 = ss_shared self1 /\ ss_n_sync_started self2 = ss_n_sync_started self1) as [Hs2 Hn2].
  { unfold send_getheaders_to_peer in Hg. destruct (match lru_get _ _ with Some _ => _ | None => _ end); [by injection Hg as <- _|].
    apply bind_Ok in Hg as (l & _ & Hg). by injection Hg as <- _. }
  assert (ss_shared self1 = ss_shared self /\ (ss_n_sync_started self1 = 0 \/ ss_n_sync_started self1 = 1)) as [Hs1 Hn1].
  { destruct (ss_peers self !! peer) as [st|]; [|injection Hs as <-; split; [done|lia]].
    destruct (negb _); [|injection Hs as <-; split; [done|lia]]. apply bind_Ok in Hs as (t & _ & Hs). injection Hs as <-. split; [done|]. right.
    change (fetch_add (ss_n_sync_started self) = 1). replace (ss_n_sync_started self) with 0 by lia. done. }
  apply IH in Hl; [|unfold is_initial_block_download, ss_chain in *; by rewrite Hs2, Hs1]. lia.
Qed.

(** C5. Every event is a sequence of abstract steps.  Whatever messages,
    timers, tasks and submitted blocks a node handles, from its start on: the
    state changes by steps that are described without the handlers, and what
    the steps keep holds afterwards. *)
Theorem node_refines now instant event self self' actions :
  node_reachable self -> 0 <= now < 2 ^ 63 -> node_bounded self event ->
  node_handle now instant event self = Ok (self', actions) ->
  run now (nd_shared self) (nd_shared self') /\ node_ok self'.
Proof. intros Hr Hnow Hb H. apply (node_handle_runs now instant event self self' actions); [done|by apply node_reachable_ok|done|done]. Qed.

(** C22. The timers return: in every reachable state each timer of the
    synchronizer and of the relayer, and the disconnection of a peer, runs to
    its end without a panic. *)
Theorem timers_return now instant self :
  node_reachable self -> 0 <= now < 2 ^ 63 ->
  (forall token order, exists self' actions, node_handle now instant (NeSync (EvNotify token order)) self = Ok (self', actions)) /\
  (forall peer, exists self' actions, node_handle now instant (NeSync (EvDisconnected peer)) self = Ok (self', actions) /\
     ss_peers (nd_shared self') = delete peer (ss_peers (nd_shared self))) /\
  (forall token ids order, token ∈ [TX_PROPOSAL_TOKEN; ASK_FOR_TXS_TOKEN] ->
     exists self' actions, node_handle now instant (NeRelay (RvNotify token ids order)) self = Ok (self', actions)).
Proof.
  intros Hr Hnow. destruct (node_reachable_ok _ Hr) as [[Hok _ _] _ Hc Hi]. cbn [sy_shared] in Hok. split_and!.
  - intros token order. destruct (notify_Ok _ _ _ (process now) Hinj now instant Hnow token order (nd_shared self) Hok Hi) as (shared & acts & Hn).
    cbn [node_handle sync_handle sy_shared sy_orphans]. rewrite Hn. rewrite !bind_ret_l. eauto.
  - intros peer. destruct (counter_disconnected (E := E) (nd_shared self) peer Hc) as (shared & Hd & _ & Hp). cbn [node_handle sync_handle sy_shared sy_orphans].
    rewrite Hd. rewrite !bind_ret_l. eauto.
  - intros token ids order Ht. cbn [node_handle relay_handle re_shared re_tasks]. unfold relay_notify. destruct (is_initial_block_download _ _); [rewrite !bind_ret_l; eauto|].
    repeat (apply elem_of_cons in Ht as [->|Ht]); [..|by apply not_elem_of_nil in Ht].
    + rewrite decide_True by done. rewrite bind_ret_l. destruct (prune_tx_proposal_request _ _ _). rewrite !bind_ret_l. eauto.
    + rewrite decide_False, decide_True by done. rewrite bind_ret_l. destruct (ask_for_txs _ _ _). rewrite !bind_ret_l. eauto.
Qed.

(** The counter of the peers that are synced from is their number, in every
    reachable state; and while the node is behind, the timer that starts the
    synchronization leaves at most one such peer where there was at most one. *)
Theorem sync_counter_exact self :
  node_reachable self ->
  let n := ss_n_sync_started (nd_shared self) in
  n = Z.of_nat (size (filter (fun kv => kv.2 = true) (sync_started <$> ss_peers (nd_shared self)))) /\
  forall now instant order shared actions, is_initial_block_download now (nd_shared self) = true ->
    start_sync_headers (E := E) now instant order (nd_shared self) = Ok (shared, actions) ->
    ss_n_sync_started shared <= Z.max n 1.
Proof.
  intros Hr n. destruct (node_reachable_ok _ Hr) as [_ _ [Hsize Hcount] _]. split; [exact Hcount|].
  intros now instant order shared actions Hibd H. apply start_sync_ibd in H; [|done]. unfold n. lia.
Qed.

End node.
