(* ===== verification/SyncStall.v ===== *)
(** * When the synchronization stops

    Two messages after which a node cannot go on: the header of the genesis
    block, and a block whose parent reaches the chain on another way. *)
From stdpp Require Import sorting relations.
From coqutil Require Import Datatypes.RecordSetters.
From S2P Require Import Prelude Capacity ByteStrings Transactions Blocks Fixtures Protocol CellSet Cells Epochs ChainStore Fork VerifyErrors ProposalTable MedianTime HeaderVerify BlockVerify LinkedMap ProposedPool TxPool Compact OrphanPool SyncHeaders SyncPeers ChainPool ChainService TxExecutor ChainInvariant ChainReach ChainApi SyncState Synchronizer Relayer SyncInvariant SyncRefinement RelayRefinement SyncProgress SyncFetch Node.

Section stall.
Context {M L P Q : Type -> Type} `{LP : !LruCache H256 P} `{LQ : !LruCache (PeerIndex * H256) Q}.
Context {E : Type} (blake2b : Bytes -> H256) (serialize_raw : RawTransaction -> Bytes)
  (serialize_tx : RawTransaction -> list (list Bytes) -> Bytes) (serialize_header : RawHeader -> Seal -> Bytes)
  (serialize_uncles : list UncleBlock -> Bytes) (merkle_root : list H256 -> H256)
  (from_little_endian : Bytes -> option Z).
Context (pow : PowEngine) (process : Z -> @Shared M L -> Block -> outcome E (@Shared M L * (ChainError + list Block))).
Context `{Hlaws : !forall now, ChainLaws (process now)}.
Context (Hinj : forall raw seal raw' seal', blake2b (serialize_header raw seal) = blake2b (serialize_header raw' seal') ->
  raw = raw' /\ seal = seal').
Context (set_order : list Block -> list Block) (Horder : forall l, set_order l ≡ₚ l).
#[local] Abbreviation SyncState := (SyncSharedState M L P Q).
#[local] Abbreviation Node := (Synchronizer (M := M) (L := L) (P := P) (Q := Q)).
#[local] Abbreviation ok := (sync_ok (M := M) (L := L) (P := P) (Q := Q) blake2b serialize_header pow).
#[local] Abbreviation sok := (synchronizer_ok (M := M) (L := L) (P := P) (Q := Q) blake2b serialize_header pow).
#[local] Abbreviation op now := (sync_op (M := M) (L := L) (P := P) (Q := Q) (E := E) blake2b serialize_header pow (process now)).
#[local] Abbreviation handle now instant := (sync_handle (M := M) (L := L) (P := P) (Q := Q) (E := E) blake2b serialize_raw serialize_tx
  serialize_header serialize_uncles merkle_root from_little_endian pow (process now) set_order now instant).
Implicit Types self : SyncState.

(** The states that the events of the synchronizer lead to. *)
Inductive sync_step (self self' : Node) : Prop :=
| sync_step_event now instant event actions :
    0 <= now < 2 ^ 63 -> event_bounded (sy_shared self) event -> handle now instant event self = Ok (self', actions) -> sync_step self self'.

(** Only the genesis block is known, and it counts as failed. *)
Definition only_genesis (self : SyncState) : Prop :=
  forall h v, get_header_view (ss_index self) h = Some v -> h = genesis_hash (ss_consensus self).
Record stalled (self : SyncState) : Prop := {
  sl_only : only_genesis self;
  sl_failed : ss_block_status_map self !! genesis_hash (ss_consensus self) = Some FAILED_MASK
}.

Lemma only_genesis_zero self header :
  ok self -> only_genesis self -> known self header -> h_number header = 0 /\ h_hash header = genesis_hash (ss_consensus self).
Proof.
  intros Hok Ho (v & Hv & <-). pose proof (Ho _ _ Hv) as Hg. split; [|done].
  destruct (decide (0 < hv_number v)) as [Hpos|]; [|pose proof (vo_range _ (so_views _ _ _ _ Hok) _ _ Hv); unfold hv_number in *; lia].
  destruct (vo_parent _ (so_views _ _ _ _ Hok) _ _ Hv Hpos) as (p & Hp & Hn). pose proof (Ho _ _ Hp) as Hg'.
  rewrite Hg', <- Hg, Hv in Hp. injection Hp as <-. lia.
Qed.

Lemma stalled_same self self' :
  stalled self -> ss_index self' = ss_index self -> ss_consensus self' = ss_consensus self ->
  ss_block_status_map self' = ss_block_status_map self -> stalled self'.
Proof. intros [H1 H2] Hi Hc Hs. split; unfold only_genesis in *; by rewrite ?Hi, ?Hc, ?Hs. Qed.

(** No step of the synchronizer leads out. *)
Lemma stalled_op now self self' : op now self self' -> ok self -> stalled self -> stalled self'.
Proof.
  intros Hop Hok Hst. pose proof Hst as [Ho Hf].
  destruct Hop as [self self' [H1 _ _ H4 H5 _ _ _]|self h Hh Hsome|self h|self header peer epoch parent self' Hw Hpow Hp Hpst Hn Hlt H|
    self block shared r Hk Hpow Hpos Hpar H|self h Hh|self peer f Hf1 Hf2|self peer state timeout Hs Hst'|self peer state until Hs Hst'|
    self peer outbound Hsize|self peer self' H]; try (by apply (stalled_same self)).
  - apply (stalled_same self); [done| | |done]; unfold ss_index, ss_store, ss_consensus, ss_chain; by rewrite ?H1, ?H4.
  - exfalso. destruct (header_view_stored _ _ _ Hinj _ _ Hok Hh) as [v Hv]. pose proof (Ho _ _ Hv) as ->.
    destruct Hsome as [Hnone|(header & Hk & Hhh & Hpos)]; [congruence|]. destruct (only_genesis_zero _ _ Hok Ho Hk). lia.
  - split; [exact Ho|]. change (<[h := FAILED_MASK]> (ss_block_status_map self) !! genesis_hash (ss_consensus self) = Some FAILED_MASK).
    destruct (decide (h = genesis_hash (ss_consensus self))) as [->|]; [by rewrite lookup_insert_eq|by rewrite lookup_insert_ne].
  - exfalso. pose proof (Ho _ _ Hp) as Hg. congruence.
  - exfalso. destruct (only_genesis_zero _ _ Hok Ho Hk). unfold b_number in Hpos. lia.
  - destruct (header_view_stored _ _ _ Hinj _ _ Hok Hh) as [v0 Hv0]. pose proof (Ho _ _ Hv0) as Hg. split; [|exact Hf].
    intros h' v'. change (ss_index (ss_remove_header_view h self)) with (remove_header_view (ss_index self) h).
    destruct (decide (h' = h)) as [->|Hne]; [done|]. unfold get_header_view. cbn. rewrite lookup_delete_ne by done. apply Ho.
  - unfold sync_on_connected. destruct (default false outbound && _); by apply (stalled_same self).
  - unfold sync_disconnected, ss_disconnected, Peers_disconnected in H.
    destruct (ss_peers self !! peer) as [st|]; [destruct (sync_started st); [case_decide; [done|]|]|]; injection H as <-; by apply (stalled_same self).
Qed.

Lemma stalled_runs now self self' : rtc (op now) self self' -> ok self -> stalled self -> stalled self'.
Proof.
  induction 1 as [|self1 self2 self3 Hop _ IH]; [done|]. intros Hok Hst. apply IH; [|by eapply stalled_op].
  by destruct (sync_op_ok _ _ _ _ Hinj _ _ Hop Hok).
Qed.

Lemma stalled_steps (self self' : Node) : rtc sync_step self self' -> sok self -> stalled (sy_shared self) -> stalled (sy_shared self').
Proof.
  induction 1 as [|self1 self2 self3 [now instant event actions Hnow Hb H] _ IH]; [done|]. intros Hsok Hst.
  destruct (handle_runs _ _ _ _ _ _ _ _ (process now) Hinj set_order Horder now instant Hnow _ _ _ _ Hsok Hb H) as [Hr Hsok2].
  apply IH; [done|]. eapply stalled_runs; [exact Hr|apply Hsok|done].
Qed.

(** A header with an unknown parent counts as failed. *)
Lemma unknown_parent_fails now header peer resolver self :
  ok self -> get_header_view (ss_index self) (h_parent_hash header) = None ->
  HeaderAcceptor_accept (E := E) pow now header peer resolver self =
    Ok (ValidationResult_dos (Some ValidationInvalidParent) 100 ValidationResult_default, header_failed header self).
Proof.
  intros Hok Hn. unfold HeaderAcceptor_accept, prev_block_check, get_block_status.
  destruct (ss_block_status_map self !! h_parent_hash header) as [st|] eqn:Hst.
  - destruct (so_status _ _ _ _ Hok _ _ Hst) as [->|[_ [v Hv]]]; [|congruence]. done.
  - destruct (get_block_header (ss_store self) (h_parent_hash header)) as [hd|] eqn:Hh; [|done].
    destruct (header_view_stored _ _ _ Hinj self (h_parent_hash header) Hok) as [v Hv]; [by rewrite Hh|congruence].
Qed.

Lemma header_viewed self h hd : ok self -> sync_get_header (ss_index self) h = Some hd -> is_Some (get_header_view (ss_index self) h).
Proof.
  intros Hok H. unfold sync_get_header in H. destruct (hi_header_map (ss_index self) !! h) eqn:Hl; [unfold get_header_view; rewrite Hl; eauto|].
  apply (header_view_stored _ _ pow Hinj); [done|]. by eexists.
Qed.

Lemma genesis_message_stalls now instant message genesis peer (self self' : Node) actions :
  sok self -> only_genesis (sy_shared self) ->
  try_map (header_try_from blake2b serialize_header from_little_endian) message = Ok [genesis] ->
  h_hash genesis = genesis_hash (ss_consensus (sy_shared self)) -> h_parent_hash genesis <> h_hash genesis ->
  handle now instant (EvReceived peer (Some (FbsHeaders (Some message)))) self = Ok (self', actions) ->
  stalled (sy_shared self') /\ sok self'.
Proof.
  intros [Hok Ho Hv] Hg Hm Hh Hp H. pose proof (try_map_length _ _ _ Hm) as Hl. cbn in Hl.
  cbn [sync_handle sync_received sync_try_process HeadersProcess_execute] in H.
  rewrite decide_False in H by (unfold MAX_HEADERS_LEN, len; lia). rewrite decide_False in H by (unfold len; lia).
  rewrite Hm in H. cbn [catch] in H. rewrite !bind_ret_l in H. cbn [is_continuous negb head expect] in H. rewrite bind_ret_l in H.
  assert (get_header_view (ss_index (sy_shared self)) (h_parent_hash genesis) = None) as Hn.
  { destruct (get_header_view _ _) as [v|] eqn:Hpv; [|done]. apply Hg in Hpv. congruence. }
  unfold accept_first, accept_header in H.
  assert (sync_get_header (ss_index (sy_shared self)) (h_parent_hash genesis) = None) as Hsh.
  { destruct (sync_get_header _ _) as [hd|] eqn:Hx; [|done]. destruct (header_viewed _ _ _ Hok Hx). congruence. }
  rewrite Hsh in H. change (VerifierResolver_new (E := E) (sy_shared self) None genesis) with (Ok (E := E) (mkResolver genesis None None)) in H.
  rewrite !bind_ret_l in H. rewrite unknown_parent_fails in H by done. rewrite bind_ret_l in H.
  unfold judge in H. cbn [ValidationResult_is_valid ValidationResult_dos vr_state vr_misbehavior] in H.
  rewrite decide_True in H by done. unfold ss_blame in H.
  destruct (misbehavior _ _ _) as [scores| |]; [|done|done]. rewrite !bind_ret_l in H. cbn [negb] in H. rewrite !bind_ret_l in H.
  apply Ok_pair in H as [<- _]. set (failed := header_failed genesis (sy_shared self) {{ ss_misbehavior := scores }}).
  assert (op now (sy_shared self) (header_failed genesis (sy_shared self))) as Hop by apply op_fail.
  destruct (sync_op_ok _ _ _ _ Hinj _ _ Hop Hok) as [Hok1 _].
  assert (op now (header_failed genesis (sy_shared self)) failed) as Hop2.
  { apply op_notes. split; try done. intros p. by destruct (ss_peers _ !! p); constructor. }
  destruct (sync_op_ok _ _ _ _ Hinj _ _ Hop2 Hok1) as [Hok2 _]. split.
  - apply (stalled_same (header_failed genesis (sy_shared self))); [|done..]. split; [exact Hg|].
    change (<[h_hash genesis := FAILED_MASK]> (ss_block_status_map (sy_shared self)) !! genesis_hash (ss_consensus (sy_shared self)) = Some FAILED_MASK).
    by rewrite Hh, lookup_insert_eq.
  - split; [exact Hok2|exact Ho|]. intros b Hb. eapply verified_block_mono; [|by apply Hv]. by apply knows_more_refl.
Qed.

End stall.
