(* ===== verification/NodeChain.v ===== *)
(** * The chain of a node

    The node of [Node] with the chain service of [ChainService]: which blocks
    reach the chain, and what holds of it. *)
From stdpp Require Import sorting relations.
From coqutil Require Import Datatypes.RecordSetters.
From S2P Require Import Prelude Capacity ByteStrings Transactions Blocks Fixtures Protocol CellSet Cells Epochs ChainStore Fork VerifyErrors ProposalTable MedianTime HeaderVerify BlockVerify LinkedMap ProposedPool TxPool Compact OrphanPool SyncHeaders SyncPeers ChainPool ChainService TxExecutor ChainInvariant ChainReach ChainApi SyncState Synchronizer Relayer SyncInvariant SyncRefinement RelayRefinement SyncProgress SyncFetch Node.

Section chain.
Context {M L W P Q : Type -> Type} `{LM : !LinkedHashMap Bytes M} `{LL : !LruCache Bytes L} `{LW : !LinkedHashMap H256 W}.
Context `{LP : !LruCache H256 P} `{LQ : !LruCache (PeerIndex * H256) Q}.
Context {E : Type}.
Context (blake2b : Bytes -> H256) (siphash : Z -> Z -> Bytes -> Z) (serialize_raw : RawTransaction -> Bytes)
  (serialize_tx : RawTransaction -> list (list Bytes) -> Bytes) (serialize_header : RawHeader -> Seal -> Bytes)
  (serialize_uncles : list UncleBlock -> Bytes) (merkle_root : list H256 -> H256)
  (from_little_endian : Bytes -> option Z).
Context (pow : PowEngine) (script_verify : ResolvedTransaction -> Z -> outcome ScriptError Z).
Context (diff_order : CellSetDiff -> DiffOrder) (ids_order : gset Bytes -> list Bytes).
Context (cache_insert : gmap Z Z -> Z -> Z -> gmap Z Z) (set_order : list Block -> list Block).
#[local] Abbreviation SyncState := (SyncSharedState M L P Q).
#[local] Abbreviation Chain := (@Shared M L).

(** The call of the two protocols and of the miner: [process_block] with the
    verification. *)
Definition chain_process (now : Z) (self : Chain) (block : Block) : outcome E (Chain * (ChainError + list Block)) :=
  process_block (W := W) blake2b merkle_root serialize_uncles script_verify pow diff_order ids_order cache_insert now self block true.

(** The runs in which no stored block is handed in again. *)
Definition fresh_process (now : Z) (self : Chain) (block : Block) : outcome E (Chain * (ChainError + list Block)) :=
  if decide (is_Some (sd_blocks (ch_store (sh_chain self)) !! b_hash block)) then Panic else chain_process now self block.

#[export] Instance chain_process_laws now : ChainLaws (chain_process now).
Proof. apply process_block_laws. Qed.
#[export] Instance fresh_process_laws now : ChainLaws (fresh_process now).
Proof.
  split; unfold fresh_process; intros self block self' r; case_decide as Hd; try done; intros H.
  - by eapply (law_refused (process := chain_process now)).
  - by eapply (law_accepted (process := chain_process now)).
Qed.

Context (Hinj : forall raw seal raw' seal', blake2b (serialize_header raw seal) = blake2b (serialize_header raw' seal') ->
  raw = raw' /\ seal = seal').
Context (Horder : forall l, set_order l ≡ₚ l).
#[local] Abbreviation ok := (sync_ok (M := M) (L := L) (P := P) (Q := Q) blake2b serialize_header pow).
#[local] Abbreviation rok := (relay_ok (M := M) (L := L) (P := P) (Q := Q) blake2b siphash serialize_header pow).
#[local] Abbreviation op now := (node_op (M := M) (L := L) (P := P) (Q := Q) (E := E) blake2b siphash serialize_header serialize_uncles merkle_root pow (fresh_process now)).
#[local] Abbreviation run now := (node_runs (M := M) (L := L) (P := P) (Q := Q) (E := E) blake2b siphash serialize_header serialize_uncles merkle_root pow (fresh_process now)).
#[local] Abbreviation reach := (node_reachable (M := M) (L := L) (P := P) (Q := Q) (E := E) blake2b siphash serialize_raw serialize_tx serialize_header
  serialize_uncles merkle_root from_little_endian pow fresh_process script_verify cache_insert set_order).
Implicit Types self : SyncState.

Lemma on_stored_admissible self header block :
  on_stored self header -> h_number (b_header block) = h_number header -> h_parent_hash (b_header block) = h_parent_hash header ->
  sd_blocks (ss_store self) !! b_hash block = None -> admissible (ss_chain self) block.
Proof.
  intros (Hr & p & Hp & Hn) Hnum Hpar Hnew. split; [done| |unfold b_number; lia]. exists p. unfold b_number, b_parent in *. rewrite Hnum, Hpar. done.
Qed.

(** A block with a known header and a stored parent. *)
Lemma known_on_stored self header :
  ok self -> known self header -> 0 < h_number header -> is_Some (get_block_header (ss_store self) (h_parent_hash header)) -> on_stored self header.
Proof.
  intros Hok (v & Hv & <-) Hpos [ph Hph]. destruct (vo_parent _ (so_views _ _ _ _ Hok) _ _ Hv Hpos) as (pv & Hpv & Hn).
  unfold get_block_header, get_block in Hph. destruct (sd_blocks _ !! _) as [p|] eqn:Hp; [|done].
  pose proof (vo_range _ (so_views _ _ _ _ Hok) _ _ Hv) as Hr. split; [exact (conj Hpos (proj2 Hr))|]. exists p. split; [done|].
  destruct (stored_known _ _ _ Hinj _ _ _ Hok Hp) as [Hh (v' & Hv' & Hi)]. change (h_hash (b_header p)) with (b_hash p) in Hv'. rewrite Hh in Hv'.
  unfold hv_parent_hash in Hpv. rewrite Hv' in Hpv. injection Hpv as ->. unfold hv_number in Hn. unfold b_number. by rewrite <- Hi.
Qed.

Lemma fresh_step self header block now shared r :
  chain_ok (ss_chain self) -> on_stored self header -> h_number (b_header block) = h_number header -> h_parent_hash (b_header block) = h_parent_hash header ->
  fresh_process now (ss_shared self) block = Ok (shared, r) -> chain_ok (sh_chain shared).
Proof.
  intros Hc Hon Hnum Hpar H. unfold fresh_process in H. case_decide as Hnew; [done|]. apply eq_None_not_Some in Hnew.
  eapply process_block_ok; [exact Hc| |exact H]. by eapply on_stored_admissible.
Qed.

Lemma node_op_chain now self self' : op now self self' -> rok self -> chain_ok (ss_chain self) -> chain_ok (ss_chain self').
Proof.
  intros Hop [Hok _] Hc.
  destruct Hop as [self self' Hop|self header uncles txs proposals shared r Hpow Hon H|self block shared r Hw Hpow Hon H|self shared Hsh|self pending Hpend].
  - destruct Hop as [self self' [H1 _ _ _ _ _ _ _]|self h Hh Hsome|self h|self header peer epoch parent self' Hw Hpow Hp Hpst Hn Hlt H|
      self block shared r Hk Hpow Hpos Hpar H|self h Hh|self peer f Hf1 Hf2|self peer state timeout Hs Hst'|self peer state until Hs Hst'|
      self peer outbound Hsize|self peer self' H]; try exact Hc.
    + unfold ss_chain. by rewrite H1.
    + destruct (insert_verified_fields _ _ _ _ _ Hp H) as (uncles & _ & Hsh & _). change (chain_ok (sh_chain (ss_shared self'))). by rewrite Hsh.
    + change (chain_ok (sh_chain shared)). eapply fresh_step; [exact Hc| |done|done|exact H]. by apply known_on_stored.
    + unfold sync_on_connected. by destruct (default false outbound && _).
    + unfold sync_disconnected, ss_disconnected, Peers_disconnected in H.
      destruct (ss_peers self !! peer) as [st|]; [destruct (sync_started st); [case_decide; [done|]|]|]; by injection H as <-.
  - change (chain_ok (sh_chain shared)). by eapply fresh_step; [exact Hc|exact Hon| | |exact H].
  - change (chain_ok (sh_chain shared)). by eapply fresh_step; [exact Hc|exact Hon| | |exact H].
  - change (chain_ok (sh_chain shared)). by rewrite Hsh.
  - exact Hc.
Qed.

Lemma node_runs_chain now self self' : run now self self' -> rok self -> chain_ok (ss_chain self) -> chain_ok (ss_chain self').
Proof.
  induction 1 as [|self1 self2 self3 Hop _ IH]; [done|]. intros Hok Hc.
  destruct (node_op_ok _ _ _ _ _ _ _ Hinj _ _ Hop Hok) as (Hok2 & _). apply IH; [done|]. by eapply node_op_chain.
Qed.

Lemma reach_chain_ok node : reach node -> chain_ok (ss_chain (nd_shared node)).
Proof.
  induction 1 as [shared self Hst Hnew|now instant event self self' actions Hr IH Hnow Hb H|self shared Hr IH Hc].
  - unfold SyncSharedState_new in Hnew. apply bind_Ok in Hnew as (ext & _ & Hnew). injection Hnew as <-. apply Hst.
  - pose proof (node_reachable_ok _ _ _ _ _ _ _ _ _ fresh_process _ _ _ Hinj Horder _ Hr) as Hok.
    destruct (node_handle_runs _ _ _ _ _ _ _ _ _ fresh_process _ _ _ Hinj Horder _ _ _ _ _ _ Hnow Hok Hb H) as [Hrun _].
    eapply node_runs_chain; [exact Hrun|by apply (node_ok_relay _ _ _ _ _)|done].
  - change (chain_ok (sh_chain shared)). by rewrite Hc.
Qed.

(** C4. A node follows the chain with the most work.  Whatever its peers and its
    miner send, in which order and at which times: as long as no stored block is
    handed to the chain again, the index lists the ancestors of the tip, all of
    them verified, and no stored block has more work than the tip. *)
Theorem node_heaviest_chain node :
  reach node ->
  let c := ss_chain (nd_shared node) in let s := ch_store c in
  is_main s (tip_number c) /\ sd_hash_of s !! tip_number c = Some (tip_hash c) /\
  (forall n h, sd_hash_of s !! n = Some h -> is_verified s h) /\
  work s (tip_hash c) (chain_total_difficulty c) /\
  (forall h b, sd_blocks s !! h = Some b -> exists w, work s h w /\ heavier (chain_total_difficulty c) (tip_hash c) w h).
Proof.
  intros Hr c s. pose proof (reach_chain_ok _ Hr) as Hc. fold c in Hc.
  split_and!; [apply (co_main c Hc)|apply (co_top c Hc)|intros n h; by apply main_verified|..].
  - destruct (co_tip c Hc) as (b & Hb & _), (co_work c Hc) as (e & He & <- & _). by apply (st_work _ (co_stored c Hc) _ b).
  - intros h b Hb. destruct (st_ext _ (co_stored c Hc) h b Hb) as [e He]. exists (total_difficulty e).
    split; [by apply (st_work _ (co_stored c Hc) h b)|by apply (co_heaviest c Hc h b)].
Qed.
End chain.
