(* ===== verification/NodeGaps.v ===== *)
(** * Between the two protocols

    The synchronizer and the relayer keep separate records of the blocks they
    know.  The theorems of this file say what falls between the records: the
    proof of work of a relayed block, a block that reaches the chain on both
    ways, and the orphans of a relayed block. *)
From stdpp Require Import sorting relations.
From coqutil Require Import Datatypes.RecordSetters.
From S2P Require Import Prelude Capacity ByteStrings Transactions Blocks Fixtures Protocol CellSet Cells Epochs ChainStore Fork VerifyErrors ProposalTable MedianTime HeaderVerify BlockVerify LinkedMap ProposedPool TxPool Compact OrphanPool SyncHeaders SyncPeers ChainPool ChainService TxExecutor ChainInvariant ChainReach ChainApi SyncState Synchronizer Relayer SyncInvariant SyncRefinement RelayRefinement SyncProgress SyncFetch Node NodeChain.

Section gaps.
Context {M L W P Q : Type -> Type} `{LM : !LinkedHashMap Bytes M} `{LL : !LruCache Bytes L} `{LW : !LinkedHashMap H256 W}.
Context `{LP : !LruCache H256 P} `{LQ : !LruCache (PeerIndex * H256) Q}.
Context {E : Type}.
Context (blake2b : Bytes -> H256) (siphash : Z -> Z -> Bytes -> Z) (serialize_raw : RawTransaction -> Bytes)
  (serialize_tx : RawTransaction -> list (list Bytes) -> Bytes) (serialize_header : RawHeader -> Seal -> Bytes)
  (serialize_uncles : list UncleBlock -> Bytes) (merkle_root : list H256 -> H256)
  (from_little_endian : Bytes -> option Z).
Context (pow : PowEngine) (script_verify : ResolvedTransaction -> Z -> outcome ScriptError Z).
Context (diff_order : CellSetDiff -> DiffOrder) (ids_order : gset Bytes -> list Bytes).
Context (cache_insert : gmap Z Z -> Z -> Z -> gmap Z Z) (set_order : list Block -> list Block).
#[local] Abbreviation SyncState := (SyncSharedState M L P Q).
#[local] Abbreviation Node := (NodeState (M := M) (L := L) (P := P) (Q := Q)).
#[local] Abbreviation process := (chain_process (M := M) (L := L) (W := W) (E := E) blake2b serialize_uncles merkle_root pow script_verify diff_order ids_order cache_insert).
#[local] Abbreviation handle := (node_handle (M := M) (L := L) (P := P) (Q := Q) (E := E) blake2b siphash serialize_raw serialize_tx serialize_header
  serialize_uncles merkle_root from_little_endian pow process script_verify cache_insert set_order).
#[local] Abbreviation to_block := (block_try_from blake2b serialize_raw serialize_tx serialize_header serialize_uncles merkle_root from_little_endian).
#[local] Abbreviation execute := (CompactBlockProcess_execute (M := M) (L := L) (P := P) (Q := Q) (E := E) blake2b siphash serialize_raw serialize_tx
  serialize_header serialize_uncles merkle_root from_little_endian pow).
#[local] Abbreviation reconstruct := (reconstruct_block (M := M) (L := L) (E := E) blake2b siphash serialize_header serialize_uncles merkle_root).
Implicit Types self : SyncState.

(** An announcement that is new for the node. *)
Record new_announcement (self : SyncState) (cb : CompactBlock) : Prop := {
  na_parent : exists v, get_header_view (ss_index self) (h_parent_hash (cb_header cb)) = Some v /\
    hv_total_difficulty (ss_shared_best_header self) < hv_total_difficulty v + h_difficulty (cb_header cb) < U256_SIZE;
  na_positive : 0 <= hv_total_difficulty (ss_shared_best_header self);
  na_flight : inflight_state_by_block (ss_inflight_blocks self) (h_hash (cb_header cb)) = None;
  na_pending : ss_pending_compact_blocks self !! h_hash (cb_header cb) = None;
  na_stored : get_block (ss_store self) (h_hash (cb_header cb)) = None
}.


(** A block that arrives on both ways loses its fees.  The relayer does not
    mark the blocks it stores, neither does the call of the miner, and an
    accepted header overwrites the mark of a stored block.  When such a block of the main chain, already verified, is
    then received by the synchronizer, it is handed to the chain once more: it
    stays on the main chain, but as an unverified block without fees. *)
Theorem resent_block_loses_fees now instant message peer block (self : Node) ext epoch ne :
  let c := ss_chain (nd_shared self) in
  to_block message = Ok block -> chain_ok c -> main_block (ch_store c) (b_number block) = Some block -> 0 < b_number block ->
  ss_block_status_map (nd_shared self) !! b_hash block = Some VALID_MASK ->
  is_Some (if_states (ss_inflight_blocks (nd_shared self)) !! b_hash block) ->
  nd_orphans self !! b_parent block = None -> nd_orphans self !! b_hash block = None ->
  BlockVerifier_verify blake2b merkle_root (ch_consensus c) pow block = Ok tt -> new_block_ext now c block = Ok (ext, epoch, ne) ->
  is_verified (ch_store c) (b_hash block) /\
  exists self' : Node, handle now instant (NeSync (EvReceived peer (Some (FbsSyncBlock message)))) self = Ok (self', []) /\
    main_block (ss_store (nd_shared self')) (b_number block) = Some block /\
    exists ext', sd_ext (ss_store (nd_shared self')) !! b_hash block = Some ext' /\ verified ext' = None /\ txs_fees ext' = [].
Proof.
  intros c Hconv Hc Hmain Hpos Hst [fl Hfl] Ho Ho' Hbv Hn.
  destruct (resubmitted_block_loses_fees (W := W) (E := E) blake2b merkle_root serialize_uncles script_verify pow diff_order ids_order cache_insert
    now (ss_shared (nd_shared self)) block true ext epoch ne Hc Hmain Hpos (fun _ => Hbv) Hn) as (Hver & shared & Hp & Hm & Hext).
  split; [done|]. destruct (st_parent _ (co_stored _ Hc) (b_hash block) block) as (p & Hpar & _); [by eapply main_block_stored|done|].
  cbn [node_handle sync_handle sync_received sync_try_process]. unfold BlockProcess_execute. rewrite Hconv. cbn [catch]. rewrite bind_ret_l.
  unfold new_block_received, remove_by_block. cbn [sy_shared sy_orphans]. rewrite Hfl.
  set (self1 := (nd_shared self) {{ ss_inflight_blocks := _ }}). unfold process_new_block. cbn [sy_shared sy_orphans].
  unfold orphan_contains. rewrite Ho, bool_decide_eq_false_2 by by intros []. unfold get_block_status.
  change (ss_block_status_map self1) with (ss_block_status_map (nd_shared self)). rewrite Hst. rewrite decide_True by done.
  unfold insert_new_block. cbn [sy_shared sy_orphans].
  assert (known_parent block self1 = true) as -> by (unfold known_parent; apply bool_decide_eq_true; unfold get_block_header, get_block;
    change (ss_store self1) with (ch_store c); rewrite Hpar; by eexists).
  cbn [negb]. unfold accept_block. change (ss_shared self1) with (ss_shared (nd_shared self)).
  change (process now (ss_shared (nd_shared self)) block = Ok (shared, inr [block])) in Hp. rewrite Hp, !bind_ret_l. cbn [negb].
  assert (remove_blocks_by_parent (E := E) set_order (b_hash block) (nd_orphans self) = Ok ([], nd_orphans self)) as ->
    by (unfold remove_blocks_by_parent; cbn [orphan_loop]; rewrite Ho'; by destruct (orphan_count _)).
  rewrite !bind_ret_l. cbn [try_fold]. rewrite !bind_ret_l. eexists. split_and!; [reflexivity|exact Hm|exact Hext].
Qed.

(** The events of the relayer and of the miner. *)
Inductive other_step (self self' : Node) : Prop :=
| other_relay now instant event actions : handle now instant (NeRelay event) self = Ok (self', actions) -> other_step self self'
| other_submit now instant block nonce actions : handle now instant (NeSubmit block nonce) self = Ok (self', actions) -> other_step self self'.

Lemma other_orphans (self self' : Node) : rtc other_step self self' -> nd_orphans self' = nd_orphans self.
Proof.
  induction 1 as [|self1 self2 self3 Hs _ IH]; [done|]. rewrite IH. destruct Hs as [now instant event actions H|now instant block nonce actions H];
    cbn [node_handle] in H; apply bind_Ok in H as ([x a] & _ & H); [|destruct a]; by apply Ok_pair in H as [<- _].
Qed.

(** The orphans of a relayed block stay behind.  A block whose parent is
    missing waits among the orphans under the hash of the parent.  When the
    parent then reaches the chain by the relayer or the miner, the entry stays;
    and as long as it is there, every block on this parent that a peer sends is
    dropped, also those that were never seen. *)
Theorem relayed_parent_keeps_orphans now instant message peer block waiting (self1 self2 : Node) :
  nd_orphans self1 !! b_parent block = Some waiting -> rtc other_step self1 self2 -> to_block message = Ok block ->
  exists self3 : Node, handle now instant (NeSync (EvReceived peer (Some (FbsSyncBlock message)))) self2 = Ok (self3, []) /\
    ss_shared (nd_shared self3) = ss_shared (nd_shared self2) /\
    ss_block_status_map (nd_shared self3) = ss_block_status_map (nd_shared self2) /\
    nd_orphans self3 !! b_parent block = Some waiting.
Proof.
  intros Hw Hs Hconv. apply other_orphans in Hs. rewrite <- Hs in Hw.
  cbn [node_handle sync_handle sync_received sync_try_process]. unfold BlockProcess_execute. rewrite Hconv. cbn [catch]. rewrite bind_ret_l.
  unfold new_block_received. cbn [sy_shared sy_orphans]. destruct (remove_by_block _ _) as [first inflight].
  assert (process_new_block (E := E) (process now) set_order peer block (mkSynchronizer ((nd_shared self2) {{ ss_inflight_blocks := inflight }}) (nd_orphans self2)) =
    Ok (mkSynchronizer ((nd_shared self2) {{ ss_inflight_blocks := inflight }}) (nd_orphans self2))) as Hp
    by (unfold process_new_block, orphan_contains; cbn [sy_orphans]; by rewrite Hw, bool_decide_eq_true_2 by eauto).
  rewrite Hp. destruct first; rewrite !bind_ret_l; (eexists; split_and!; [reflexivity|reflexivity|reflexivity|exact Hw]).
Qed.
End gaps.
