(* ===== verification/NodeExample.v ===== *)
(** * A small node

    Instances for the witnesses of the theorems on nodes: a hash without
    collisions that gives small numbers to the headers in use, and a chain of a
    genesis block with two blocks on top. *)
From stdpp Require Import sorting relations.
From coqutil Require Import Datatypes.RecordSetters.
From S2P Require Import Prelude Capacity ByteStrings Transactions Blocks Fixtures Protocol CellSet Cells Epochs ChainStore Fork VerifyErrors ProposalTable MedianTime HeaderVerify BlockVerify LinkedMap ProposedPool TxPool Compact OrphanPool SyncHeaders SyncPeers ChainPool ChainService TxExecutor ChainInvariant ChainReach ChainApi SyncState Synchronizer Relayer SyncInvariant SyncRefinement RelayRefinement SyncProgress SyncFetch Node SyncStall NodeChain NodeGaps.

(** The position in a table, or a code behind the table. *)
Definition table_hash (table : list Bytes) (bs : Bytes) : H256 :=
  match list_find (fun x => x = bs) table with
  | Some (i, _) => Z.of_nat i + 1
  | None => Z.of_nat (length table) + Z.pos (encode bs)
  end.

Lemma table_hash_inj table bs bs' : table_hash table bs = table_hash table bs' -> bs = bs'.
Proof.
  unfold table_hash. destruct (list_find (fun x => x = bs) table) as [[i x]|] eqn:H1, (list_find (fun x => x = bs') table) as [[j y]|] eqn:H2.
  - intros Hij. assert (i = j) as -> by lia. apply list_find_Some in H1 as (H1 & -> & _), H2 as (H2 & -> & _). congruence.
  - intros Hij. apply list_find_Some in H1 as (H1%lookup_lt_Some & _). lia.
  - intros Hij. apply list_find_Some in H2 as (H2%lookup_lt_Some & _). lia.
  - intros Hij. apply (inj encode). lia.
Qed.

Definition header_bytes (raw : RawHeader) (seal : Seal) : Bytes :=
  [raw_version raw; raw_parent_hash raw; raw_timestamp raw; raw_number raw; raw_transactions_root raw; raw_proposals_hash raw;
   raw_witnesses_root raw; raw_difficulty raw; raw_uncles_hash raw; raw_uncles_count raw; raw_epoch raw; seal_nonce seal] ++ seal_proof seal.

Lemma header_bytes_inj raw seal raw' seal' : header_bytes raw seal = header_bytes raw' seal' -> raw = raw' /\ seal = seal'.
Proof. destruct raw, seal, raw', seal'. unfold header_bytes. cbn. intros [= -> -> -> -> -> -> -> -> -> -> -> -> ->]. done. Qed.

Module NodeExample.
(** Numbers and parents; the roots are the numbers of transactions. *)
Definition raw (number parent root : Z) : RawHeader := mkRawHeader 0 parent (1000 * number) number root 0 root 1 0 0 0.
Definition seal : Seal := mkSeal 7 [].
Definition table : list Bytes :=
  [header_bytes (raw 0 0 1) seal; header_bytes (raw 1 1 1) seal; header_bytes (raw 1 1 99) seal; header_bytes (raw 2 2 1) seal].
Definition hash : Bytes -> H256 := table_hash table.
Definition root (l : list H256) : H256 := Z.of_nat (length l).
Definition encode_raw (raw : RawTransaction) : Bytes := [len (raw_tx_outputs raw)] ++ (ci_since <$> raw_tx_inputs raw).
Definition encode_tx (raw : RawTransaction) (w : list (list Bytes)) : Bytes := encode_raw raw ++ [len w; 5].
Definition encode_uncles (us : list UncleBlock) : Bytes := [len us].
Definition from_le (bs : Bytes) : option Z := if decide (length bs = 32%nat) then Some (le_combine bs) else None.
Definition siphash (key0 key1 : Z) (bs : Bytes) : Z := le_combine (take 8 (rev bs)).

Lemma hash_inj raw seal raw' seal' : hash (header_bytes raw seal) = hash (header_bytes raw' seal') -> raw = raw' /\ seal = seal'.
Proof. intros H. by apply header_bytes_inj, (table_hash_inj table). Qed.

Definition reward : Z := DEFAULT_EPOCH_REWARD / GENESIS_EPOCH_LENGTH.
Definition cellbase (number : Z) : Transaction :=
  Transaction_new hash encode_raw encode_tx 0 [] [new_cellbase_input number] [simple_output reward] [[replicate 32 0]].
Definition block (number parent : Z) : Block :=
  BlockBuilder_build hash header_bytes encode_uncles root (raw number parent 1) seal [] [cellbase number] [].
Definition genesis : Block := block 0 0.
Definition b1 : Block := block 1 1.
Definition b2 : Block := block 2 2.
Definition consensus : Consensus := Consensus_default genesis.
Definition pow : PowEngine := mkPowEngine (fun _ => true) 0.
Definition scripts (rtx : ResolvedTransaction) (max : Z) : outcome ScriptError Z := Ok 0.
Definition insert_entry (m : gmap Z Z) (k v : Z) : gmap Z Z := <[k := v]> m.
Abbreviation Chain := (Shared (M := AssocList Bytes) (L := AssocList Bytes)).
Abbreviation SyncState := (SyncSharedState (AssocList Bytes) (AssocList Bytes) (AssocList H256) (AssocList (PeerIndex * H256))).
Abbreviation Node := (NodeState (M := AssocList Bytes) (L := AssocList Bytes) (P := AssocList H256) (Q := AssocList (PeerIndex * H256))).
Abbreviation process := (fresh_process (W := AssocList H256) (E := unit) hash encode_uncles root pow scripts some_order elements insert_entry).
Abbreviation handle := (node_handle (E := unit) hash siphash encode_raw encode_tx header_bytes encode_uncles root from_le pow process scripts
  insert_entry (fun l => l)).

Definition start : ChainState :=
  ok_value (mkChainState empty_store (mkTipState (b_header genesis) 0 ∅ ∅) (TxProposalTable_new (mkWindow 0 0)) consensus
    (genesis_epoch_ext consensus)) (ChainState_init hash consensus empty_store ∅).
Definition chain0 : Chain := mkShared start (TxPool_new TxPoolConfig_default) ∅.
Definition unset : SyncState := mkSyncShared chain0 0 0 (HeaderView_new (b_header genesis) 0 0) (mkEpochIndices ∅ ∅) ∅ ∅ (lru_new 0) ∅ ∅ ∅ ∅ ∅
  (lru_new 0) ∅ ∅ (lru_new 0) InflightBlocks_default.
Definition sync0 : SyncState := ok_value unset (SyncSharedState_new (E := unit) chain0).
Definition node0 : Node := mkNode sync0 ∅ [].
Definition after (now : Z) (event : NodeEvent) (self : Node) : Node * list NetAction := ok_value (self, []) (handle now 0 event self).

(** A peer connects, is started, sends two headers and is asked for the blocks. *)
Definition headers12 : NodeEvent := NeSync (EvReceived 5 (Some (build_headers [b_header b1; b_header b2]))).
Definition node1 : Node := (after 1500 (NeSync (EvConnected 5 (Some true))) node0).1.
Definition node2 : Node := (after 1500 (NeSync (EvNotify SEND_GET_HEADERS_TOKEN [5])) node1).1.
Definition node3 : Node := (after 1500 headers12 node2).1.
Definition node4 : Node := (after 1500 (NeSync (EvNotify NOT_IBD_BLOCK_FETCH_TOKEN [5])) node3).1.
(** The blocks arrive, the second first. *)
Definition sends (b : Block) : NodeEvent := NeSync (EvReceived 5 (Some (build_block b))).
Definition node5 : Node := (after 1500 (sends b2) node4).1.
Definition node6 : Node := (after 1500 (sends b1) node5).1.
(** The first block is submitted by the miner instead, while it is in flight. *)
Definition node7 : Node := (after 1500 (NeSubmit b1 4) node4).1.

(** The states are compared by name, not by their values. *)
Strategy 1000 [ok_value start chain0 sync0 after node1 node2 node3 node4 node5 node6 node7].

Abbreviation reach := (node_reachable (M := AssocList Bytes) (L := AssocList Bytes) (P := AssocList H256) (Q := AssocList (PeerIndex * H256)) (E := unit)
  hash siphash encode_raw encode_tx header_bytes encode_uncles root from_le pow process scripts insert_entry (fun l => l)).

Lemma node_genesis_ok : genesis_ok consensus.
Proof. split; by_compute. Qed.

Lemma chain0_ok : start_ok hash header_bytes chain0.
Proof.
  split.
  - apply (init_first hash consensus node_genesis_ok). apply ok_value_eq. by_compute.
  - assert (map_Forall (fun _ b => h_hash (b_header b) = hash (header_bytes (h_raw (b_header b)) (h_seal (b_header b))) /\ b_number b < 2 ^ 63)
      (sd_blocks (ch_store (sh_chain chain0)))) as H by by_compute. intros h b Hb. exact (H h b Hb).
Qed.

Lemma node0_new : SyncSharedState_new (E := unit) chain0 = Ok sync0.
Proof. apply ok_value_eq. by_compute. Qed.
Lemma node_reach0 : reach node0.
Proof. eapply node_start; [exact chain0_ok|exact node0_new]. Qed.

Lemma handle_after now event (self : Node) :
  is_ok (handle now 0 event self) = true -> handle now 0 event self = Ok ((after now event self).1, (after now event self).2).
Proof. intros H. apply (ok_pair_eq (self, [])), H. Qed.

Lemma node_reach_after now event (self : Node) :
  reach self -> 0 <= now < 2 ^ 63 -> node_bounded hash header_bytes self event -> is_ok (handle now 0 event self) = true ->
  reach (after now event self).1.
Proof. intros Hr Hn Hb Hok. eapply node_event; [exact Hr|exact Hn|exact Hb|]. by apply handle_after. Qed.

Lemma headers_bounded (self : Node) : node_bounded hash header_bytes self headers12.
Proof. intros l [= <-]. by_compute. Qed.

Lemma node_reach1 : reach node1.
Proof. apply node_reach_after; [exact node_reach0|done|change (Z.of_nat (size (ss_peers (nd_shared node0))) + 1 < U64_SIZE)|]; by_compute. Qed.
Lemma node_reach2 : reach node2.
Proof. apply node_reach_after; [exact node_reach1|done|done|by_compute]. Qed.
Lemma node_reach3 : reach node3.
Proof. apply node_reach_after; [exact node_reach2|done|apply headers_bounded|by_compute]. Qed.
Lemma node_reach4 : reach node4.
Proof. apply node_reach_after; [exact node_reach3|done|done|by_compute]. Qed.
Lemma node_reach5 : reach node5.
Proof. apply node_reach_after; [exact node_reach4|done|done|by_compute]. Qed.
Lemma node_reach6 : reach node6.
Proof. apply node_reach_after; [exact node_reach5|done|done|by_compute]. Qed.
Lemma node_reach7 : reach node7.
Proof. apply node_reach_after; [exact node_reach4|done|split; [vm_compute; reflexivity|by_compute]|by_compute]. Qed.
Lemma order_id (l : list Block) : l ≡ₚ l.
Proof. done. Qed.
End NodeExample.

(** ** Witnesses *)
Section witnesses.
Import NodeExample.
#[local] Abbreviation run now := (node_runs (M := AssocList Bytes) (L := AssocList Bytes) (P := AssocList H256) (Q := AssocList (PeerIndex * H256)) (E := unit)
  hash siphash header_bytes encode_uncles root pow (process now)).

(** The first block arrives and its waiting child follows. *)
Lemma node_refines_witness :
  tip_hash (ss_chain (nd_shared node5)) = 1 /\ tip_hash (ss_chain (nd_shared node6)) = 4 /\
  run 1500 (nd_shared node5) (nd_shared node6) /\ node_ok hash siphash header_bytes pow node6.
Proof.
  split; [by_compute|]. split; [by_compute|].
  apply (node_refines hash siphash encode_raw encode_tx header_bytes encode_uncles root from_le pow process scripts insert_entry (fun l => l)
    hash_inj order_id 1500 0 (sends b1) node5 node6 (after 1500 (sends b1) node5).2 node_reach5); [done|exact I|]. apply handle_after. by_compute.
Defined.

Lemma timers_return_witness :
  exists self' actions, handle 2000000 0 (NeSync (EvNotify TIMEOUT_EVICTION_TOKEN [5])) node4 = Ok (self', actions).
Proof.
  assert (0 <= 2000000 < 2 ^ 63) as Hnow by by_compute.
  exact (proj1 (timers_return hash siphash encode_raw encode_tx header_bytes encode_uncles root from_le pow process scripts insert_entry (fun l => l)
    hash_inj order_id 2000000 0 node4 node_reach4 Hnow) TIMEOUT_EVICTION_TOKEN [5]).
Defined.

Lemma sync_counter_exact_witness :
  ss_n_sync_started (nd_shared node4) = Z.of_nat (size (filter (fun kv => kv.2 = true) (sync_started <$> ss_peers (nd_shared node4)))) /\
  ss_n_sync_started (nd_shared node4) = 1.
Proof.
  split; [|by_compute].
  exact (proj1 (sync_counter_exact hash siphash encode_raw encode_tx header_bytes encode_uncles root from_le pow process scripts insert_entry (fun l => l)
    hash_inj order_id node4 node_reach4)).
Defined.

(** The peer is asked for both blocks. *)
Definition fetch3 : option (list H256) * SyncState := ok_value (None, nd_shared node3) (BlockFetcher_fetch (E := unit) 1500 5 (nd_shared node3)).

(** After the header of the genesis block the two headers are refused. *)
#[local] Abbreviation sync_call now event self := (sync_handle (E := unit) hash encode_raw encode_tx header_bytes encode_uncles root from_le pow
  (process now) (fun l => l) now 0 event self).
#[local] Abbreviation Sync := (Synchronizer (M := AssocList Bytes) (L := AssocList Bytes) (P := AssocList H256) (Q := AssocList (PeerIndex * H256))).
Definition stall0 : Sync := mkSynchronizer (nd_shared node0) (nd_orphans node0).
Definition sync_after (event : SyncEvent) (self : Sync) : Sync * list NetAction := ok_value (self, []) (sync_call 1500 event self).
Lemma sync_after_eq event (self : Sync) :
  is_ok (sync_call 1500 event self) = true -> sync_call 1500 event self = Ok ((sync_after event self).1, (sync_after event self).2).
Proof. intros H. apply (ok_pair_eq (self, [])), H. Qed.
Definition genesis_headers : SyncEvent := EvReceived 5 (Some (build_headers [b_header genesis])).
Definition honest_headers : SyncEvent := EvReceived 5 (Some (build_headers [b_header b1; b_header b2])).
Definition stall1 : Sync := (sync_after genesis_headers stall0).1.
Definition stall2 : Sync := (sync_after honest_headers stall1).1.
Strategy 1000 [sync_after stall1 stall2].


(** Both blocks are on the main chain. *)
Lemma node_heaviest_chain_witness :
  let c := ss_chain (nd_shared node6) in let s := ch_store c in
  tip_hash c = 4 /\ is_main s (tip_number c) /\ sd_hash_of s !! tip_number c = Some (tip_hash c).
Proof.
  intros c s. split; [by_compute|].
  destruct (node_heaviest_chain (W := AssocList H256) (E := unit) hash siphash encode_raw encode_tx header_bytes encode_uncles root from_le pow scripts
    some_order elements insert_entry (fun l => l) hash_inj order_id node6 node_reach6) as (H1 & H2 & _). exact (conj H1 H2).
Defined.

(** The first block announced with another transactions root; the header that
    results has no proof of work. *)
Definition false_header : Header := Header_new hash header_bytes (raw 1 1 99) seal.
Definition announcement : FbsCompactBlock :=
  fbs_compact_block hash siphash (mkBlock false_header [] [cellbase 1] []) ∅ 3.
Definition strict_pow : PowEngine := mkPowEngine (fun h => bool_decide (h_hash h <> 2)) 0.
#[local] Abbreviation plain_process p := (chain_process (W := AssocList H256) (E := unit) hash encode_uncles root p scripts some_order elements insert_entry).
#[local] Abbreviation plain_handle := (node_handle (E := unit) hash siphash encode_raw encode_tx header_bytes encode_uncles root from_le pow
  (plain_process pow) scripts insert_entry (fun l => l)).
Definition announced_false : CompactBlock :=
  ok_value (mkCompact false_header [] 0 [] [] []) (compact_block_try_from hash encode_raw encode_tx header_bytes from_le announcement).
Definition accepted {E A B C} (r : outcome E (A * (B + C))) : bool := match r with Ok (_, inr _) => true | _ => false end.
Strategy 1000 [announced_false].

Lemma false_new : new_announcement sync0 announced_false.
Proof.
  split; [|by_compute..]. exists (default (ss_shared_best_header sync0) (get_header_view (ss_index sync0) 1)). split; [vm_compute; reflexivity|by_compute].
Qed.


(** The first block, stored by then, arrives from the peer. *)
Lemma resent_block_loses_fees_witness :
  is_verified (ss_store (nd_shared node7)) 2 /\
  exists self' : Node, plain_handle 1500 0 (sends b1) node7 = Ok (self', []) /\ main_block (ss_store (nd_shared self')) 1 = Some b1 /\
    exists ext, sd_ext (ss_store (nd_shared self')) !! 2 = Some ext /\ verified ext = None /\ txs_fees ext = [].
Proof.
  assert (is_ok (new_block_ext 1500 (ss_chain (nd_shared node7)) b1) = true) as Hok by by_compute.
  destruct (new_block_ext 1500 (ss_chain (nd_shared node7)) b1) as [[[ext epoch] ne]| |] eqn:Hn; [|discriminate Hok|discriminate Hok].
  refine (resent_block_loses_fees (W := AssocList H256) (E := unit) hash siphash encode_raw encode_tx header_bytes encode_uncles root from_le
    pow scripts some_order elements insert_entry (fun l => l) 1500 0 (fbs_block b1) 5 b1 node7 ext epoch ne _ _ _ _ _ _ _ _ _ Hn).
  - vm_compute. reflexivity.
  - exact (reach_chain_ok (W := AssocList H256) (E := unit) hash siphash encode_raw encode_tx header_bytes encode_uncles root from_le pow scripts
      some_order elements insert_entry (fun l => l) hash_inj order_id node7 node_reach7).
  - by_compute.
  - by_compute.
  - by_compute.
  - by_compute.
  - by_compute.
  - by_compute.
  - by_compute.
Defined.

(** The second block waits, the first is submitted by the miner; the second is
    then dropped whenever it arrives. *)
Definition submitted : Node := (ok_value (node5, []) (plain_handle 1500 0 (NeSubmit b1 4) node5)).1.
Strategy 1000 [submitted].
Lemma relayed_parent_keeps_orphans_witness :
  tip_hash (ss_chain (nd_shared submitted)) = 2 /\
  exists self : Node, plain_handle 1500 0 (sends b2) submitted = Ok (self, []) /\
    ss_shared (nd_shared self) = ss_shared (nd_shared submitted) /\ nd_orphans self !! 2 = Some [b2].
Proof.
  split; [by_compute|].
  destruct (relayed_parent_keeps_orphans (W := AssocList H256) (E := unit) hash siphash encode_raw encode_tx header_bytes encode_uncles root from_le
    pow scripts some_order elements insert_entry (fun l => l) 1500 0 (fbs_block b2) 5 b2 [b2] node5 submitted) as (self & H1 & H2 & _ & H3).
  - by_compute.
  - apply rtc_once. eapply other_submit. refine (ok_pair_eq (node5, []) (plain_handle 1500 0 (NeSubmit b1 4) node5) _). by_compute.
  - vm_compute. reflexivity.
  - exact (ex_intro _ self (conj H1 (conj H2 H3))).
Defined.
End witnesses.
