(* ===== verification/PoolTemplate.v ===== *)
(** * From the pool to a block

    A transaction that resolves against the proposed pool and the chain keeps
    the invariant of the pool, and the transactions that a block template takes
    from such a pool resolve, one after the other, when the block is verified on
    top of the tip. *)
From stdpp Require Import relations.
From S2P Require Import Prelude Capacity ByteStrings Transactions Blocks Fixtures CellSet Cells Epochs ChainStore Fork VerifyErrors ProposalTable MedianTime HeaderVerify LinkedMap ProposedPool PoolLinks PoolCommit TxPool ChainPool ChainService.

Section template.
Context {M : Type -> Type} `{LM : !LinkedHashMap Bytes M} `{!LinkedHashMapLaws Bytes M}.
Implicit Types (p : ProposedPool M) (c : ChainState) (tx t : Transaction).

Definition chain_live c (o : OutPoint) : Prop := exists m, chain_cell c o = Ok (CellLive m).
Definition header_fine c (o : OutPoint) : Prop :=
  chain_header c o = Ok HeaderUnspecified \/ exists h, chain_header c o = Ok (HeaderLive h).

(** The out point names an output of the transaction, by its hash. *)
Definition names (o : OutPoint) (h : H256) : Prop := exists cell, op_cell o = Some cell /\ cop_tx_hash cell = h.

(** No transaction of the pool is on the chain. *)
Definition apart c p : Prop :=
  forall id e, proposed_get p id = Some e -> ts_cell_set (ch_tip c) !! tx_hash (pe_transaction e) = None.

(** A transaction the node has not seen: neither in the pool nor on the chain,
    and nothing in the pool refers to it. *)
Record fresh c p tx : Prop := {
  fr_new : proposed_get p (proposal_short_id tx) = None;
  fr_chain : ts_cell_set (ch_tip c) !! tx_hash tx = None;
  fr_pool : forall id e o, proposed_get p id = Some e -> o ∈ entry_inputs e \/ o ∈ entry_deps e -> ~ names o (tx_hash tx);
  fr_self : forall o, o ∈ input_pts tx \/ o ∈ tx_deps tx -> ~ names o (tx_hash tx);
  fr_dao : tx_hash tx <> ISSUING_DAO_HASH;
  fr_cellbase : is_cellbase tx = false
}.

#[local] Abbreviation pool_chain p c := (OverlayCellProvider (ProposedPool_cell p) (chain_cell c)).

Lemma output_names tx o : o ∈ output_pts tx -> names o (tx_hash tx).
Proof. intros (i & -> & _)%list_elem_of_fmap. by eexists. Qed.

Lemma output_not_dao tx o : tx_hash tx <> ISSUING_DAO_HASH -> o ∈ output_pts tx -> is_issuing_dao o = false.
Proof.
  intros Hh (i & -> & _)%list_elem_of_fmap. unfold is_issuing_dao, new_cell. cbn. by rewrite bool_decide_eq_false_2.
Qed.

Lemma chain_live_names c o h : chain_live c o -> names o h -> ts_cell_set (ch_tip c) !! h <> None.
Proof.
  intros [m Hm] (cell & Hc & <-) Hn. unfold chain_cell, ChainState_cell in Hm. rewrite Hc, Hn in Hm. done.
Qed.

Lemma overlay_live p c o m :
  pool_chain p c o = Ok (CellLive m) ->
  e_inner (edges p) !! o = Some None \/
  (e_inner (edges p) !! o = None /\ e_outer (edges p) !! o = None /\ chain_live c o).
Proof.
  unfold OverlayCellProvider, ProposedPool_cell, get_inner, get_outer. destruct (op_cell o) as [cell|] eqn:Hc; cbn; [|done].
  destruct (e_inner (edges p) !! o) as [[x|]|]; cbn; [done|by left|].
  destruct (e_outer (edges p) !! o); cbn; [done|]. right. split_and!; [done|done|]. by exists m.
Qed.

Lemma overlay_unspecified p c o : pool_chain p c o = Ok CellUnspecified -> op_cell o = None.
Proof.
  unfold OverlayCellProvider, ProposedPool_cell, get_inner, get_outer. destruct (op_cell o) as [cell|] eqn:Hc; cbn; [|done].
  destruct (e_inner (edges p) !! o) as [[x|]|]; cbn; [done| |].
  - destruct (proposed_get_output p o); cbn; done.
  - destruct (e_outer (edges p) !! o); cbn; [done|]. unfold chain_cell, ChainState_cell, meta_status. rewrite Hc.
    destruct (_ !! _) as [meta|]; [|done]. destruct (is_dead _ _) as [[]|]; [done| |done].
    by destruct (expect _).
Qed.

Lemma creates_names p o : creates p o -> exists id e, proposed_get p id = Some e /\ names o (tx_hash (pe_transaction e)).
Proof. intros (id & e & He & Ho). exists id, e. split; [done|]. by apply output_names. Qed.

Lemma chain_live_not_created c p o : apart c p -> chain_live c o -> ~ creates p o.
Proof.
  intros Hap Hl (id & e & He & Hn)%creates_names. by apply (chain_live_names c o _ Hl Hn), (Hap id).
Qed.

Lemma found_header P c o m r : found P (chain_header c) o m r -> header_fine c o.
Proof. intros [_ [(h & Hh & _)|[Hh _]]]; [right; eauto|by left]. Qed.

(** *** What a resolution says of the inputs and of the cells read *)
Section resolved.
Context c p tx seen rtx (Hp : pool_ok p) (Hap : apart c p) (Hfr : fresh c p tx)
  (Hres : resolves (pool_chain p c) (chain_header c) ∅ tx seen rtx).

Lemma resolved_input i : i ∈ input_pts tx -> is_issuing_dao i = false ->
  (e_inner (edges p) !! i = Some None \/
   (e_inner (edges p) !! i = None /\ e_outer (edges p) !! i = None /\ chain_live c i)) /\ header_fine c i.
Proof.
  intros Hi Hd. destruct Hres as (_ & Hin & _). rewrite (fr_cellbase _ _ _ Hfr) in Hin.
  apply list_elem_of_lookup in Hi as [n Hn]. destruct (Forall2_lookup_l _ _ _ _ _ Hin Hn) as (r & _ & Hr).
  unfold input_resolves in Hr. rewrite Hd in Hr. destruct Hr as [m Hf].
  split; [by apply (overlay_live p c i m), Hf|by eapply found_header].
Qed.

Lemma resolved_dep d : d ∈ tx_deps tx ->
  (((e_inner (edges p) !! d = Some None \/
    (e_inner (edges p) !! d = None /\ e_outer (edges p) !! d = None /\ chain_live c d)) /\ header_fine c d) \/
   (op_cell d = None /\ exists h, chain_header c d = Ok (HeaderLive h))) /\
  (op_cell d = None \/ d ∉ spent_points tx).
Proof.
  intros Hd. destruct Hres as (_ & _ & _ & _ & Hseen & Hdeps).
  apply list_elem_of_lookup in Hd as [n Hn]. destruct (Forall2_lookup_l _ _ _ _ _ Hdeps Hn) as (r & _ & Hr).
  destruct Hr as [(Hns & m & Hf)|(Hu & h & Hh & _)].
  - split; [left; split; [by apply (overlay_live p c d m), Hf|by eapply found_header]|].
    right. intros Hin. apply Hns. rewrite Hseen. apply elem_of_union_r. by apply elem_of_list_to_set.
  - apply overlay_unspecified in Hu. split; [right; eauto|by left].
Qed.

Lemma resolved_addable : addable p tx.
Proof.
  destruct Hp as [Hl _ _]. split.
  - apply (fr_new _ _ _ Hfr).
  - intros i _ Hd. by apply (li_dao _ _ Hl).
  - intros i Hi Hd. destruct (resolved_input i Hi Hd) as [[H|(H1 & H2 & H3)] _]; [by left|].
    right. split_and!; [by eapply chain_live_not_created|done|done].
  - intros d Hd. destruct (resolved_dep d Hd) as [[[[H|(_ & _ & H)] _]|[H _]] _].
    + left. rewrite H. eauto.
    + right. by eapply chain_live_not_created.
    + right. intros (id & e & _ & cell & Hc & _)%creates_names. congruence.
  - intros o Ho. split; [by apply (output_not_dao tx), Ho; apply (fr_dao _ _ _ Hfr)|]. apply output_names in Ho.
    split; intros Hin; by apply (fr_self _ _ _ Hfr o); auto.
  - intros o id e Ho He Hu. apply output_names in Ho. apply (fr_pool _ _ _ Hfr id e o); [done| |done].
    destruct Hu as [[_ Hi]|Hd]; auto.
Qed.
End resolved.

(** ** A pool that can be mined

    No transaction reads a cell that it or an earlier one spends. *)
Fixpoint no_dead_reads (l : list Transaction) : Prop :=
  match l with
  | [] => True
  | t :: l => (forall q d, q ∈ t :: l -> d ∈ tx_deps q -> d ∉ spent_points t) /\ no_dead_reads l
  end.

Lemma no_dead_reads_snoc l tx :
  no_dead_reads (l ++ [tx]) <->
  no_dead_reads l /\ (forall t d, t ∈ l ++ [tx] -> d ∈ tx_deps tx -> d ∉ spent_points t).
Proof.
  induction l as [|t l IH]; cbn [app no_dead_reads].
  - split.
    + intros [H _]. split; [done|]. intros t d ->%list_elem_of_singleton. apply H. left.
    + intros [_ H]. split; [|done]. intros q d ->%list_elem_of_singleton. apply H. left.
  - rewrite IH. setoid_rewrite elem_of_cons. setoid_rewrite elem_of_app. setoid_rewrite list_elem_of_singleton. split.
    + intros [H1 [H2 H3]]. split_and!; [naive_solver|done|]. intros t' d [->|Ht] Hd; [by apply (H1 tx); auto|by apply H3].
    + intros [[H1 H2] H3]. split_and!; [|done|].
      * intros q d [->|[Hq| ->]] Hd; [by apply (H1 t); auto|by apply (H1 q); auto|by apply H3; auto].
      * intros t' d Ht Hd. by apply H3; auto.
Qed.

Definition available c p (o : OutPoint) : Prop := (creates p o \/ chain_live c o) /\ header_fine c o.

Record mineable c p : Prop := {
  mi_pool : pool_ok p;
  mi_apart : apart c p;
  mi_cellbase : forall id e, proposed_get p id = Some e -> is_cellbase (pe_transaction e) = false;
  mi_dao : forall id e, proposed_get p id = Some e -> tx_hash (pe_transaction e) <> ISSUING_DAO_HASH;
  mi_nodup : forall id e, proposed_get p id = Some e -> NoDup (spent_points (pe_transaction e));
  mi_input : forall id e i, proposed_get p id = Some e -> i ∈ spent_points (pe_transaction e) -> available c p i;
  mi_dep : forall id e d, proposed_get p id = Some e -> d ∈ entry_deps e ->
    available c p d \/ (op_cell d = None /\ exists h, chain_header c d = Ok (HeaderLive h));
  mi_reads : no_dead_reads (pool_txs p)
}.

Lemma available_cell c p o : available c p o -> op_cell o <> None.
Proof.
  intros [[(id & e & _ & cell & Hc & _)%creates_names|[m Hm]] _] Hn; [congruence|].
  unfold chain_cell, ChainState_cell in Hm. by rewrite Hn in Hm.
Qed.

Lemma spent_spends id e i p : proposed_get p id = Some e -> is_cellbase (pe_transaction e) = false ->
  i ∈ spent_points (pe_transaction e) <-> spends e i.
Proof.
  intros _ Hcb. unfold spent_points, spends, entry_inputs, non_dao. rewrite Hcb, list_elem_of_filter. done.
Qed.

Lemma pool_txs_entry p t : t ∈ pool_txs p <-> exists id e, proposed_get p id = Some e /\ pe_transaction e = t.
Proof.
  unfold pool_txs. rewrite list_elem_of_fmap. split.
  - intros ([id t'] & -> & (e & He & <-)%elem_of_shape). by exists id, e.
  - intros (id & e & He & <-). exists (id, pe_transaction e). split; [done|]. apply elem_of_shape. by exists e.
Qed.

Section mineable_add.
Context c p tx seen rtx (Hm : mineable c p) (Hfr : fresh c p tx)
  (Hres : resolves (pool_chain p c) (chain_header c) ∅ tx seen rtx) (cycles fee size : Z).
#[local] Abbreviation p' := (proposed_add_tx cycles fee size tx p).

Lemma added_get id e : proposed_get p' id = Some e ->
  (id = proposal_short_id tx /\ pe_transaction e = tx) \/ proposed_get p id = Some e.
Proof.
  destruct (add_tx_entry cycles fee size tx p) as (e' & Hv & Htx & _). unfold proposed_get. rewrite Hv, lhm_get_insert.
  case_decide as Hid; [|by right]. intros [= <-]. by left.
Qed.

Lemma added_txs : pool_txs p' = pool_txs p ++ [tx].
Proof.
  destruct (add_tx_entry cycles fee size tx p) as (e' & Hv & Htx & _). unfold pool_txs, shape.
  rewrite Hv, lhm_entries_insert, !fmap_app by apply (fr_new _ _ _ Hfr). cbn. by rewrite Htx.
Qed.

Lemma added_addable : addable p tx.
Proof. by apply (resolved_addable c p tx seen rtx (mi_pool _ _ Hm) (mi_apart _ _ Hm)). Qed.

Lemma added_available o : available c p o -> available c p' o.
Proof.
  intros [[Hc|Hl] Hh]; (split; [|done]); [left|by right]. apply add_tx_creates; [apply added_addable|]. by left.
Qed.

Lemma inner_available o : e_inner (edges p) !! o = Some None \/
   (e_inner (edges p) !! o = None /\ e_outer (edges p) !! o = None /\ chain_live c o) ->
  header_fine c o -> available c p o.
Proof.
  intros [Hi|(_ & _ & Hl)] Hh; (split; [|done]); [left|by right].
  by destruct (li_inner _ _ (po_linked _ (mi_pool _ _ Hm)) _ _ Hi).
Qed.

Lemma added_input i : i ∈ spent_points tx -> available c p i.
Proof.
  intros Hi. unfold spent_points in Hi. rewrite (fr_cellbase _ _ _ Hfr) in Hi. apply list_elem_of_filter in Hi as [Hd Hi].
  destruct (resolved_input c p tx seen rtx Hfr Hres i Hi Hd) as [H Hh]. by apply inner_available.
Qed.

Lemma added_dep d : d ∈ tx_deps tx ->
  available c p d \/ (op_cell d = None /\ exists h, chain_header c d = Ok (HeaderLive h)).
Proof.
  intros Hd. destruct (resolved_dep c p tx seen rtx Hres d Hd) as [[[H Hh]|H] _]; [|by right].
  left. by apply inner_available.
Qed.

(** The cells the transaction reads are spent neither by it nor in the pool. *)
Lemma added_reads t d : t ∈ pool_txs p ++ [tx] -> d ∈ tx_deps tx -> d ∉ spent_points t.
Proof.
  intros Ht Hd Hin. destruct (resolved_dep c p tx seen rtx Hres d Hd) as [Hdep Hown].
  apply elem_of_app in Ht as [Ht|Ht%list_elem_of_singleton].
  - apply pool_txs_entry in Ht as (id & e & He & <-).
    pose proof (available_cell c p d (mi_input _ _ Hm id e d He Hin)) as Hcell.
    apply (spent_spends id e d p He (mi_cellbase _ _ Hm id e He)) in Hin.
    destruct (li_spent _ _ (po_linked _ (mi_pool _ _ Hm)) id e d He Hin) as [[_ H]|(_ & H1 & [H2|[Hq _]])];
      [| |by apply not_elem_of_nil in Hq]; destruct Hdep as [[[H'|(H1' & H2' & _)] _]|[H' _]]; congruence.
  - subst t. destruct Hown as [Hn|Hn]; [|done]. by apply (available_cell c p d (added_input d Hin)).
Qed.

Lemma mineable_added : mineable c p'.
Proof.
  split.
  - apply add_tx_ok; [apply (mi_pool _ _ Hm)|apply added_addable].
  - intros id e [[_ ->]|He]%added_get; [apply (fr_chain _ _ _ Hfr)|by apply (mi_apart _ _ Hm id)].
  - intros id e [[_ ->]|He]%added_get; [apply (fr_cellbase _ _ _ Hfr)|by apply (mi_cellbase _ _ Hm id)].
  - intros id e [[_ ->]|He]%added_get; [apply (fr_dao _ _ _ Hfr)|by apply (mi_dao _ _ Hm id)].
  - intros id e [[_ ->]|He]%added_get; [by destruct Hres as (_ & _ & ? & _)|by apply (mi_nodup _ _ Hm id)].
  - intros id e i [[_ ->]|He]%added_get Hi; apply added_available; [by apply added_input|by apply (mi_input _ _ Hm id e)].
  - intros id e d [[_ Ht]|He]%added_get Hd.
    + unfold entry_deps in Hd. rewrite Ht in Hd. destruct (added_dep d Hd); [left; by apply added_available|by right].
    + destruct (mi_dep _ _ Hm id e d He Hd); [left; by apply added_available|by right].
  - rewrite added_txs. apply no_dead_reads_snoc. split; [apply (mi_reads _ _ Hm)|]. apply added_reads.
Qed.
End mineable_add.

Lemma mineable_new c : mineable c ProposedPool_new.
Proof.
  assert (Hg : forall id e, proposed_get (ProposedPool_new (M := M)) id <> Some e).
  { intros id e. unfold proposed_get, ProposedPool_new. cbn. by rewrite lhm_get_empty. }
  split; [apply pool_new_ok|intros id e; intros; by destruct (Hg id e)..|].
  unfold pool_txs, shape, ProposedPool_new. cbn. by rewrite lhm_entries_empty.
Qed.

(** ** The block *)
Lemma resolve_transactions_all P H txs : forall seen,
  (forall l1 t l2, txs = l1 ++ t :: l2 -> exists seen' rtx,
    resolves P H (seen ∪ list_to_set (l1 ≫= spent_points)) t seen' rtx) ->
  exists rtxs, resolve_transactions P H seen txs = Ok rtxs.
Proof.
  induction txs as [|t txs IH]; intros seen Hall; [by exists []|]. cbn.
  destruct (Hall [] t txs eq_refl) as (seen' & rtx & Hr). cbn in Hr. rewrite union_empty_r_L in Hr.
  destruct (IH seen') as [rtxs Hrs].
  { intros l1 t' l2 ->. destruct (Hall (t :: l1) t' l2 eq_refl) as (s' & r & Hr'). exists s', r.
    destruct Hr as (_ & _ & _ & _ & -> & _). cbn in Hr'. rewrite list_to_set_app_L, assoc_L in Hr' by apply _. done. }
  exists (rtx :: rtxs). apply resolve_transaction_Ok in Hr. rewrite Hr. cbn. by rewrite Hrs.
Qed.

Lemma no_dead_reads_before l1 t l2 t' d :
  no_dead_reads (l1 ++ t :: l2) -> d ∈ tx_deps t -> t' ∈ l1 ++ [t] -> d ∉ spent_points t'.
Proof.
  induction l1 as [|x l1 IH]; cbn [app no_dead_reads].
  - intros [H _] Hd ->%list_elem_of_singleton. apply (H t); [left|done].
  - intros [H1 H2] Hd [->|Hin]%elem_of_cons; [|by apply IH].
    apply (H1 t); [|done]. right. apply elem_of_app. right. left.
Qed.

Lemma pool_hashes p : linked p [] -> NoDup (tx_hash <$> pool_txs p).
Proof.
  intros Hl. apply (NoDup_fmap_1 from_tx_hash). rewrite <- list_fmap_compose.
  assert ((from_tx_hash ∘ tx_hash) <$> pool_txs p = (lhm_entries (vertices p)).*1) as ->; [|apply lhm_entries_keys].
  unfold pool_txs, shape. rewrite <- !list_fmap_compose. apply list_fmap_ext. intros i [k e] Hi. cbn.
  apply (li_id _ _ Hl k e). apply lhm_get_entries. by eapply list_elem_of_lookup_2.
Qed.

Lemma Forall2_exists {A B} (R : A -> B -> Prop) l : (forall x, x ∈ l -> exists y, R x y) -> exists l', Forall2 R l l'.
Proof.
  induction l as [|x l IH]; intros H; [by exists []|]. destruct (H x) as [y Hy]; [left|].
  destruct IH as [l' Hl']; [intros z Hz; apply H; by right|]. exists (y :: l'). by constructor.
Qed.

Lemma cellbase_input tx : is_cellbase tx = true ->
  exists inp, tx_inputs tx = [inp] /\ is_null (ci_previous_output inp) = true.
Proof.
  unfold is_cellbase. intros [[[H1%bool_decide_eq_true _]%andb_true_iff _]%andb_true_iff H4]%andb_true_iff.
  destruct (tx_inputs tx) as [|inp [|]]; [done| |done]. by exists inp.
Qed.

(** The context in which a block on top of the tip is verified. *)
Definition tip_context c : VerifyContext :=
  mkVerifyContext empty_diff (mkBlockHeaders ∅ ∅ ∅) ∅ (mkForkContext [] [] (ch_store c)).

Lemma build_tip_context {E} c b ext : build_verify_context (E := E) (mkFork [b] [] [ext]) (ch_store c) = Ok (tip_context c).
Proof. done. Qed.

Section block.
Context c p (Hm : mineable c p) (diff_order : CellSetDiff -> DiffOrder)
  (Hord : enumerates (diff_order empty_diff) empty_diff).
Context (b : Block) (cb : Transaction) (n : nat) (Hb : b_transactions b = cb :: take n (pool_txs p)).
Context (Hcb : is_cellbase cb = true) (Hdeps : tx_deps cb = []).
Context (Hcbh : ts_cell_set (ch_tip c) !! tx_hash cb = None) (Hcbp : tx_hash cb ∉ tx_hash <$> pool_txs p).
Context (Hnew : sd_blocks (ch_store c) !! b_hash b = None).
#[local] Abbreviation indices := (output_indices b).
#[local] Abbreviation P := (block_cell_provider diff_order c (tip_context c) b indices).
#[local] Abbreviation headers := (push_attached (vc_headers (tip_context c)) b).

Lemma overlay_tip o : ChainCellSetOverlay_cell (get_cell_meta (ch_store c))
  (new_overlay (ts_cell_set (ch_tip c)) (diff_order empty_diff)) ∅ o = chain_cell c o.
Proof.
  destruct Hord as (H1 & H2 & H3 & H4). unfold new_overlay.
  apply Permutation_nil_r in H1, H2, H3, H4. rewrite H1, H2, H3, H4. cbn.
  unfold ChainCellSetOverlay_cell, chain_cell, ChainState_cell. destruct (op_cell o) as [cell|]; [|done].
  unfold overlay_get. cbn. rewrite decide_False by apply not_elem_of_empty. by rewrite !lookup_empty.
Qed.

Lemma header_tip o : header_fine c o -> block_header_provider c headers o = chain_header c o.
Proof.
  unfold header_fine, block_header_provider, OverlayHeaderProvider, BlockHeadersProvider_header, chain_header, ChainState_header.
  destruct (op_block_hash o) as [h|]; [|done]. cbn. rewrite lookup_empty.
  destruct (decide (h = b_hash b)) as [->|Hne]; [|by rewrite lookup_insert_ne].
  unfold get_block_header. rewrite Hnew. cbn. intros [?|[? ?]]; done.
Qed.

Lemma block_hashes_nodup : NoDup (tx_hash <$> b_transactions b).
Proof.
  rewrite Hb. cbn. apply NoDup_cons. rewrite fmap_take. split.
  - intros (i & Hi & _)%elem_of_take. apply Hcbp. by eapply list_elem_of_lookup_2.
  - pose proof (pool_hashes p (po_linked _ (mi_pool _ _ Hm))) as Hnd.
    rewrite <- (take_drop n (tx_hash <$> pool_txs p)) in Hnd. by apply NoDup_app in Hnd as [? _].
Qed.

Lemma block_tx_hash t : t ∈ b_transactions b -> ts_cell_set (ch_tip c) !! tx_hash t = None.
Proof.
  rewrite Hb. intros [->|(i & Hi & _)%elem_of_take]%elem_of_cons; [done|]. apply list_elem_of_lookup_2 in Hi.
  apply pool_txs_entry in Hi as (id & e & He & <-). by apply (mi_apart _ _ Hm id).
Qed.

(** An available cell is live for a transaction behind its creator. *)
Lemma block_live l1 t l2 o :
  take n (pool_txs p) = l1 ++ t :: l2 -> tx_uses t o -> creates p o \/ chain_live c o -> exists m, P o = Ok (CellLive m).
Proof.
  intros Hl Hu Ho. pose proof block_hashes_nodup as Hnd. unfold block_cell_provider, OverlayCellProvider, BlockCellProvider.
  destruct Ho as [(id & e & He & Hout)|Hlive].
  - assert (pe_transaction e ∈ l1) as Hin.
    { assert (pool_txs p = l1 ++ t :: (l2 ++ drop n (pool_txs p))) as Hp
        by (rewrite <- (take_drop n (pool_txs p)) at 1; rewrite Hl; by rewrite <- app_assoc).
      pose proof (po_order _ (mi_pool _ _ Hm)) as Htop. rewrite Hp in Htop.
      apply (topological_creator _ _ _ _ o Htop); [|done|done]. rewrite <- Hp. apply pool_txs_entry. eauto. }
    assert (exists i, b_transactions b !! i = Some (pe_transaction e)) as [i Hi].
    { apply list_elem_of_lookup. rewrite Hb, Hl. right. apply elem_of_app. by left. }
    apply list_elem_of_fmap in Hout as (x & -> & Hx%elem_of_seq). cbn [op_cell new_cell cop_tx_hash].
    rewrite (proj2 (output_indices_lookup b (tx_hash (pe_transaction e)) i Hnd)) by eauto. rewrite Hi. cbn.
    destruct (lookup_lt_is_Some_2 (tx_outputs (pe_transaction e)) (cell_index (mkCellOutPoint (tx_hash (pe_transaction e)) (cast U32_SIZE (Z.of_nat x)))))
      as [out Hout]; [|unfold cell_index in *; cbn in *; rewrite Hout; eauto].
    unfold cell_index, cast. cbn. pose proof (Z.mod_le (Z.of_nat x) U32_SIZE). lia.
  - pose proof Hlive as [m Hm']. destruct (op_cell o) as [cell|] eqn:Hcell.
    2:{ unfold chain_cell, ChainState_cell in Hm'. by rewrite Hcell in Hm'. }
    destruct (indices !! cop_tx_hash cell) as [i|] eqn:Hi.
    + apply output_indices_lookup in Hi as (t' & Ht' & Hh); [|done]. exfalso.
      apply (chain_live_names c o (tx_hash t') Hlive); [by exists cell|]. apply block_tx_hash. by eapply list_elem_of_lookup_2.
    + cbn. exists m. by rewrite overlay_tip.
Qed.

Lemma block_found l1 t l2 o :
  take n (pool_txs p) = l1 ++ t :: l2 -> tx_uses t o -> available c p o ->
  exists m r, found P (block_header_provider c headers) o m r.
Proof.
  intros Hl Hu [Ho Hh]. destruct (block_live l1 t l2 o Hl Hu Ho) as [m Hlive]. pose proof (header_tip o Hh) as Heq.
  destruct Hh as [Hh|[h Hh]]; rewrite Hh in Heq.
  - exists m, (cell_only m). split; [done|]. by right.
  - exists m, (cell_and_header m h). split; [done|]. left. eauto.
Qed.

Section tx.
Context (l1 l2 : list Transaction) (t : Transaction) (Hl : take n (pool_txs p) = l1 ++ t :: l2).

Lemma tx_entry : exists id e, proposed_get p id = Some e /\ pe_transaction e = t.
Proof.
  apply pool_txs_entry. assert (t ∈ take n (pool_txs p)) as (i & Hi & _)%elem_of_take
    by (rewrite Hl; apply elem_of_app; right; left). by eapply list_elem_of_lookup_2.
Qed.

Lemma tx_before t' : t' ∈ l1 -> (exists id e, proposed_get p id = Some e /\ pe_transaction e = t') /\ tx_hash t' <> tx_hash t.
Proof.
  intros Hin. split.
  - apply pool_txs_entry. assert (t' ∈ take n (pool_txs p)) as (i & Hi & _)%elem_of_take
      by (rewrite Hl; apply elem_of_app; by left). by eapply list_elem_of_lookup_2.
  - pose proof block_hashes_nodup as Hnd. rewrite Hb, Hl in Hnd. cbn in Hnd. apply NoDup_cons in Hnd as [_ Hnd].
    rewrite fmap_app in Hnd. apply NoDup_app in Hnd as (_ & Hnd & _). intros Heq. apply (Hnd (tx_hash t)).
    + rewrite <- Heq. apply list_elem_of_fmap. eauto.
    + left.
Qed.

Lemma tx_resolves : exists seen' rtx,
  resolves P (block_header_provider c headers) (∅ ∪ list_to_set ((cb :: l1) ≫= spent_points)) t seen' rtx.
Proof.
  destruct tx_entry as (id & e & He & Ht). pose proof (mi_cellbase _ _ Hm id e He) as Hncb. rewrite Ht in Hncb.
  assert (forall t' o, t' ∈ cb :: l1 -> o ∈ spent_points t' -> t' ∈ l1) as Hcbs.
  { intros t' o [->|Hin]%elem_of_cons Ho; [|done]. unfold spent_points in Ho. rewrite Hcb in Ho. by apply not_elem_of_nil in Ho. }
  destruct (Forall2_exists (input_resolves P (block_header_provider c headers)) (input_pts t)) as [ins Hins].
  { intros i Hi. unfold input_resolves. destruct (is_issuing_dao i) eqn:Hd; [eauto|].
    destruct (block_found l1 t l2 i Hl) as (m & r & Hf); [by left| |eauto]. apply (mi_input _ _ Hm id e); [done|].
    rewrite Ht. unfold spent_points. rewrite Hncb. by apply list_elem_of_filter. }
  set (seen' := ∅ ∪ list_to_set ((cb :: l1) ≫= spent_points) ∪ list_to_set (spent_points t) : gset OutPoint).
  destruct (Forall2_exists (dep_resolves P (block_header_provider c headers) seen') (tx_deps t)) as [ds Hds].
  { intros d Hd. assert (d ∉ seen') as Hns.
    { unfold seen'. rewrite union_empty_l_L, elem_of_union, !elem_of_list_to_set, list_elem_of_bind.
      pose proof (mi_reads _ _ Hm) as Hr. rewrite <- (take_drop n (pool_txs p)), Hl, <- app_assoc in Hr.
      intros [(t' & Ho & Hin)|Ho].
      - apply (no_dead_reads_before _ _ _ t' d Hr Hd); [|done]. apply elem_of_app. left. by eapply Hcbs.
      - apply (no_dead_reads_before _ _ _ t d Hr Hd); [|done]. apply elem_of_app. right. left. }
    destruct (mi_dep _ _ Hm id e d He) as [Hav|[Hn [h Hh]]]; [unfold entry_deps; by rewrite Ht|..].
    - destruct (block_found l1 t l2 d Hl) as (m & r & Hf); [by right|done|]. exists r. left. eauto.
    - exists (header_only h). right. split.
      + unfold block_cell_provider, OverlayCellProvider, BlockCellProvider. by rewrite Hn.
      + exists h. rewrite header_tip by (right; eauto). done. }
  exists seen', (mkResolvedTx t ins ds). split_and!; [done|by rewrite Hncb|..|done|done].
  - rewrite <- Ht. by apply (mi_nodup _ _ Hm id).
  - intros o Ho. rewrite union_empty_l_L, elem_of_list_to_set, list_elem_of_bind. intros (t' & Ho' & Hin).
    apply (Hcbs _ _ Hin) in Ho' as Hin'. destruct (tx_before t' Hin') as [(id' & e' & He' & Ht') Hne].
    subst t'. apply (spent_spends id' e' o p He' (mi_cellbase _ _ Hm id' e' He')) in Ho'.
    rewrite <- Ht in Ho. apply (spent_spends id e o p He (mi_cellbase _ _ Hm id e He)) in Ho.
    pose proof (li_once _ _ (po_linked _ (mi_pool _ _ Hm)) _ _ _ _ _ He He' Ho Ho'). congruence.
Qed.
End tx.

(** References within the block go back. *)
Lemma block_use_before l1 t l2 o j t' :
  take n (pool_txs p) = l1 ++ t :: l2 -> tx_uses t o -> names o (tx_hash t') -> b_transactions b !! j = Some t' ->
  (j < S (length l1))%nat.
Proof.
  intros Hl Hu Hn Hj. pose proof block_hashes_nodup as Hnd.
  assert (forall t1 j1, b_transactions b !! j1 = Some t1 -> tx_hash t1 = tx_hash t' -> j1 = j) as Huniq.
  { intros t1 j1 H1 Hh. apply (NoDup_lookup _ j1 j (tx_hash t') Hnd); rewrite list_lookup_fmap; [by rewrite H1, <- Hh|by rewrite Hj]. }
  destruct (tx_entry l1 l2 t Hl) as (id & e & He & Ht).
  assert (is_issuing_dao o = true \/ available c p o) as Hcase.
  { destruct Hu as [Hi|Hd].
    - destruct (is_issuing_dao o) eqn:Ho; [by left|]. right. apply (mi_input _ _ Hm id e o He). rewrite Ht.
      unfold spent_points. rewrite <- Ht, (mi_cellbase _ _ Hm id e He), Ht. by apply list_elem_of_filter.
    - right. destruct (mi_dep _ _ Hm id e o He) as [Hav|[Hno _]]; [unfold entry_deps; by rewrite Ht|done|].
      destruct Hn as (cell & Hc & _). congruence. }
  destruct j as [|j]; [lia|]. rewrite Hb in Hj. cbn in Hj.
  assert (t' ∈ pool_txs p) as Hin' by (apply list_elem_of_lookup_2, elem_of_take in Hj as (k & Hk & _); by eapply list_elem_of_lookup_2).
  apply pool_txs_entry in Hin' as (id' & e' & He' & Ht'). destruct Hcase as [Hdao|[[(ic & ec & Hec & Hout)|Hlive] _]].
  - exfalso. apply (mi_dao _ _ Hm id' e' He'). rewrite Ht'. destruct Hn as (cell & Hc & <-).
    unfold is_issuing_dao in Hdao. rewrite Hc in Hdao. destruct (op_block_hash o); [done|].
    by apply andb_true_iff in Hdao as [?%bool_decide_eq_true _].
  - assert (tx_hash (pe_transaction ec) = tx_hash t') as Hh.
    { destruct (output_names _ _ Hout) as (cell & Hc & <-), Hn as (cell' & Hc' & <-). congruence. }
    assert (pe_transaction ec ∈ l1) as [q Hq]%list_elem_of_lookup.
    { assert (pool_txs p = l1 ++ t :: (l2 ++ drop n (pool_txs p))) as Hp
        by (rewrite <- (take_drop n (pool_txs p)) at 1; rewrite Hl; by rewrite <- app_assoc).
      pose proof (po_order _ (mi_pool _ _ Hm)) as Htop. rewrite Hp in Htop.
      apply (topological_creator _ _ _ _ o Htop); [|done|done]. rewrite <- Hp. apply pool_txs_entry. eauto. }
    pose proof (lookup_lt_Some _ _ _ Hq). assert (S q = S j) as <-; [|lia]. apply (Huniq (pe_transaction ec)); [|done].
    rewrite Hb, Hl. exact (lookup_app_l_Some (cb :: l1) (t :: l2) (S q) _ Hq).
  - exfalso. apply (chain_live_names c o (tx_hash t') Hlive Hn). rewrite <- Ht'. by apply (mi_apart _ _ Hm id').
Qed.

Lemma block_order : BlockCellProvider_new b = Ok indices.
Proof.
  assert (is_ok (BlockCellProvider_new b) = true) as Hok.
  2:{ unfold BlockCellProvider_new in *. by destruct (try_for_each _ _). }
  apply (BlockCellProvider_new_ok b block_hashes_nodup). intros idx t o cell j t' Hidx Ho Hc Hj Hh.
  destruct idx as [|i]; rewrite Hb in Hidx; cbn in Hidx.
  - injection Hidx as <-. exfalso. destruct (cellbase_input cb Hcb) as (inp & Hinp & Hnull).
    unfold input_pts in Ho. rewrite Hdeps, Hinp in Ho. apply list_elem_of_singleton in Ho as ->.
    unfold is_null in Hnull. by rewrite Hc in Hnull.
  - assert (take n (pool_txs p) = take i (take n (pool_txs p)) ++ t :: drop (S i) (take n (pool_txs p))) as Hl
      by (symmetry; by apply take_drop_middle).
    pose proof (lookup_lt_Some _ _ _ Hidx) as Hlt.
    pose proof (block_use_before _ _ _ o j t' Hl) as Hres. rewrite length_take, Nat.min_l in Hres by lia. apply Hres; [|by exists cell|done].
    apply elem_of_app in Ho as [?|?]; [by right|by left].
Qed.

Lemma block_resolves : exists rtxs,
  resolve_transactions P (block_header_provider c headers) ∅ (b_transactions b) = Ok rtxs.
Proof.
  apply resolve_transactions_all. intros l1 t l2 Hl. rewrite Hb in Hl. destruct l1 as [|x l1]; cbn in Hl; injection Hl as <- Hl.
  - exists (∅ ∪ list_to_set (([] : list Transaction) ≫= spent_points) ∪ list_to_set (spent_points cb)), (mkResolvedTx cb [] []).
    unfold resolves, spent_points. rewrite Hcb, Hdeps. split_and!; try done; try constructor.
  - exact (tx_resolves l1 l2 t Hl).
Qed.
End block.
End template.
