(* ===== verification/PoolSafety.v ===== *)
(** * What the pool promises

    The states of the proposed pool under its operations, the blocks made from
    it, and the transactions it should not hold. *)
From stdpp Require Import relations.
From S2P Require Import Prelude Capacity ByteStrings Transactions Blocks Fixtures CellSet Cells Epochs ChainStore Fork VerifyErrors ProposalTable Dao MedianTime HeaderVerify TxVerify BlockVerify LinkedMap ProposedPool PoolLinks PoolCommit TxPool ChainPool ChainService TxExecutor PoolTemplate.

(** ** The states of the proposed pool *)
Section states.
Context {M : Type -> Type} `{LM : !LinkedHashMap Bytes M} `{!LinkedHashMapLaws Bytes M} {E : Type}.
Implicit Types p : ProposedPool M.

(** A block commits a transaction of the pool after those it spends from, or
    one that the pool does not have. *)
Definition committable p (tx : Transaction) : Prop :=
  commits_pool_tx p tx \/
  (proposed_get p (proposal_short_id tx) = None /\ forall i, i ∈ input_pts tx -> ~ creates p i).

Inductive pool_step : ProposedPool M -> ProposedPool M -> Prop :=
| step_add p cycles fee size tx : addable p tx -> pool_step p (proposed_add_tx cycles fee size tx p)
| step_remove p id removed p' : remove_vertex (E := E) id p = Ok (removed, p') -> pool_step p p'
| step_commit p tx removed p' :
    committable p tx -> remove_committed_tx (E := E) tx p = Ok (removed, p') -> pool_step p p'.

Lemma commit_total p tx : pool_ok p -> committable p tx -> exists removed p',
  remove_committed_tx (E := E) tx p = Ok (removed, p') /\ pool_ok p' /\
  forall i id e, i ∈ input_pts tx -> proposed_get p' id = Some e -> ~ spends e i.
Proof.
  intros Hp [Hc|[Hnone Hi]].
  - destruct (commit_pool_tx (E := E) p tx Hp Hc) as (e & p' & Hrun & Hget & Hp' & Hsh). exists [e], p'. split_and!; [done|done|].
    intros i id e' Hin He' Hs. destruct (get_shape p' (mkProposed (lhm_remove (proposal_short_id tx) (vertices p)) (edges p)) id e' Hsh He')
      as (e0 & He0 & Htx). unfold proposed_get in He0. cbn in He0. rewrite lhm_get_remove in He0. case_decide as Hid; [done|].
    destruct (cp_entry _ _ Hc) as (ec & Hec & Hinp & _). apply Hid. symmetry.
    apply (li_once _ _ (po_linked _ Hp) id (proposal_short_id tx) e0 ec i); [done|done|..].
    + destruct Hs as [Hd Hx]. split; [done|]. unfold entry_inputs in *. by rewrite Htx.
    + destruct Hs as [Hd _]. split; [done|]. by rewrite Hinp.
  - destruct (resolve_conflict_ok (E := E) tx p Hp Hi) as (removed & p' & Hrun & Hp' & _ & Hun). exists removed, p'.
    split_and!; [|done|].
    + unfold remove_committed_tx. unfold proposed_get in Hnone. by rewrite Hnone.
    + intros i id e Hin He Hs. apply (Hun i Hin id e He). by left.
Qed.

Lemma pool_step_ok p p' : pool_step p p' -> pool_ok p -> pool_ok p'.
Proof.
  intros [p0 cycles fee size tx Had|p0 id removed p1 Hrun|p0 tx removed p1 Hc Hrun] Hp.
  - by apply add_tx_ok.
  - destruct (remove_vertex_ok (E := E) id p0 Hp) as (r & p2 & Hrun' & Hp' & _). rewrite Hrun in Hrun'. by injection Hrun' as _ ->.
  - destruct (commit_total p0 tx Hp Hc) as (r & p2 & Hrun' & Hp' & _). rewrite Hrun in Hrun'. by injection Hrun' as _ ->.
Qed.

Lemma pool_reach_ok p : rtc pool_step ProposedPool_new p -> pool_ok p.
Proof.
  assert (forall p0, pool_ok p0 -> rtc pool_step p0 p -> pool_ok p) as Hgen.
  { intros p0 H0 Hr. induction Hr as [|p0 p1 p2 Hs _ IH]; [done|]. apply IH. by eapply pool_step_ok. }
  apply Hgen, pool_new_ok.
Qed.


(** [remove_vertex] returns, and removes the transaction and those that use,
    directly or not, the cells it creates, and no other. *)
Theorem remove_takes_descendants p id :
  rtc pool_step ProposedPool_new p ->
  exists removed p', remove_vertex (E := E) id p = Ok (removed, p') /\
    (forall c e, proposed_get p c = Some e -> (e ∈ removed <-> rtc (child p) id c)) /\
    (forall c e, proposed_get p c = Some e -> (proposed_get p' c = Some e <-> ~ rtc (child p) id c)).
Proof.
  intros Hp%pool_reach_ok. destruct (remove_vertex_ok (E := E) id p Hp) as (r & p' & Hrun & _ & _ & _ & H1 & H2). eauto 10.
Qed.
End states.

(** ** A block made from the pool *)
Section template_block.
Context {M L : Type -> Type} `{LM : !LinkedHashMap Bytes M} `{!LinkedHashMapLaws Bytes M} `{LL : !LruCache Bytes L}.
Context (script_verify : ResolvedTransaction -> Z -> outcome ScriptError Z) {E : Type} (c : ChainState).
#[local] Abbreviation proposed now := (proposed_tx (M := M) (L := L) (E := E) c script_verify now).

Lemma proposed_tx_pool now cycles size tx tp tp' r :
  proposed now cycles size tx tp = Ok (tp', r) ->
  (exists e, r = inl e /\ tp_proposed tp' = tp_proposed tp) \/
  (exists rtx cy fee, r = inr cy /\ resolve_tx_from_proposed c tp tx = Ok rtx /\
     tp_proposed tp' = proposed_add_tx cy fee size tx (tp_proposed tp)).
Proof.
  unfold proposed_tx. destruct (resolve_tx_from_proposed c tp tx) as [rtx|err|]; cbn; [| |done].
  - destruct (verify_rtx _ _ _ _) as [cy|e|]; cbn; [|intros [= <- <-]; left; by eexists|done].
    destruct (rtx_fee _ _) as [fee|e|]; cbn; [|intros [= <- <-]; left; by eexists|done].
    intros [= <- <-]. right. by exists rtx, cy, fee.
  - intros [= <- <-]. left. eexists. split; [done|]. destruct err; try done.
    + unfold add_conflict. by destruct (lru_get _ _).
    + unfold add_orphan, orphan_add_tx. by destruct (o_vertices _ !! _).
Qed.

(** The pools at one tip: from an empty one, by fresh transactions; what else
    happens in the pool leaves the proposed transactions alone. *)
Inductive tip_pool : TxPool M L -> Prop :=
| tip_pool_new config : tip_pool (TxPool_new config)
| tip_pool_other tp tp' : tip_pool tp -> tp_proposed tp' = tp_proposed tp -> tip_pool tp'
| tip_pool_proposed now cycles size tx tp tp' r :
    tip_pool tp -> fresh c (tp_proposed tp) tx -> proposed now cycles size tx tp = Ok (tp', r) -> tip_pool tp'.

Lemma tip_pool_mineable tp : tip_pool tp -> mineable c (tp_proposed tp).
Proof.
  induction 1 as [config|tp tp' _ IH Heq|now cycles size tx tp tp' r _ IH Hf Hrun]; [apply mineable_new|by rewrite Heq|].
  apply proposed_tx_pool in Hrun as [(e & _ & ->)|(rtx & cy & fee & _ & Hres & ->)]; [done|].
  unfold resolve_tx_from_proposed in Hres. apply bind_Ok in Hres as ([seen rtx'] & Hr%resolve_transaction_Ok & _).
  by apply (mineable_added c (tp_proposed tp) tx seen rtx').
Qed.

Lemma tip_pool_reach tp : tip_pool tp -> rtc (pool_step (E := E)) ProposedPool_new (tp_proposed tp).
Proof.
  induction 1 as [config|tp tp' _ IH Heq|now cycles size tx tp tp' r Htp IH Hf Hrun]; [constructor|by rewrite Heq|].
  apply proposed_tx_pool in Hrun as [(e & _ & ->)|(rtx & cy & fee & _ & Hres & ->)]; [done|].
  apply (rtc_r _ (tp_proposed tp)); [done|]. constructor. apply tip_pool_mineable in Htp as Hm.
  unfold resolve_tx_from_proposed in Hres. apply bind_Ok in Hres as ([seen rtx'] & Hr%resolve_transaction_Ok & _).
  apply (resolved_addable c (tp_proposed tp) tx seen rtx'); [apply Hm|apply Hm|done|done].
Qed.

Lemma take_proposed_prefix sl cl l : forall s0 c0 entries s1 c1,
  take_proposed (E := E) sl cl s0 c0 l = Ok (entries, s1, c1) -> exists n, entries = take n l.
Proof.
  induction l as [|x l IH]; intros s0 c0 entries s1 c1 H; cbn in H; [injection H as <- _ _; by exists 0%nat|].
  apply bind_Ok in H as (cy & _ & H). apply bind_Ok in H as (sz & _ & H). destruct (_ && _); [|injection H as <- _ _; by exists 0%nat].
  apply bind_Ok in H as ([[es s2] c2] & Hrec & H). injection H as <- _ _.
  apply IH in Hrec as [n ->]. by exists (S n).
Qed.

(** A block made from the pool resolves.  The transactions that a template
    takes from the pool, behind a new cellbase, pass the order check of the
    block and resolve one after the other, with the cells, the headers and the
    seen inputs of the verification of a block on top of the tip. *)
Theorem template_resolves diff_order tp sl cl entries size cycles cb b ext :
  tip_pool tp -> enumerates (diff_order empty_diff) empty_diff ->
  get_proposed_txs (E := E) tp sl cl = Ok (entries, size, cycles) ->
  is_cellbase cb = true -> tx_deps cb = [] -> ts_cell_set (ch_tip c) !! tx_hash cb = None ->
  (forall t, t ∈ pool_txs (tp_proposed tp) -> tx_hash t <> tx_hash cb) ->
  b_transactions b = cb :: (pe_transaction <$> entries) -> sd_blocks (ch_store c) !! b_hash b = None ->
  exists vc indices rtxs,
    build_verify_context (E := E) (mkFork [b] [] [ext]) (ch_store c) = Ok vc /\ BlockCellProvider_new b = Ok indices /\
    resolve_transactions (block_cell_provider diff_order c vc b indices)
      (block_header_provider c (push_attached (vc_headers vc) b)) ∅ (b_transactions b) = Ok rtxs.
Proof.
  intros Htp%tip_pool_mineable Hord Hget Hcb Hdeps Hcbh Hcbp Hb Hnew.
  apply take_proposed_prefix in Hget as [n ->].
  assert (b_transactions b = cb :: take n (pool_txs (tp_proposed tp))) as Hb'.
  { rewrite Hb. f_equal. rewrite fmap_take. f_equal. unfold pool_txs, shape, txs_iter. by rewrite <- !list_fmap_compose. }
  assert (tx_hash cb ∉ tx_hash <$> pool_txs (tp_proposed tp)) as Hni.
  { intros (t & Heq & Ht)%list_elem_of_fmap. by apply (Hcbp t). }
  destruct (block_resolves c _ Htp diff_order Hord b cb n Hb' Hcb Hdeps Hcbh Hni Hnew) as [rtxs Hrtxs].
  exists (tip_context c), (output_indices b), rtxs. split_and!; [done| |exact Hrtxs].
  by apply (block_order c _ Htp b cb n Hb').
Qed.
End template_block.

(** ** A transaction in the shape of a cellbase *)
Section cellbase.
Context {M L : Type -> Type} `{LM : !LinkedHashMap Bytes M} `{!LinkedHashMapLaws Bytes M} `{LL : !LruCache Bytes L}.
Context (script_verify : ResolvedTransaction -> Z -> outcome ScriptError Z) {E : Type} (c : ChainState).

(** Nothing is looked up for it. *)
Lemma cellbase_resolves P H seen tx :
  is_cellbase tx = true -> tx_deps tx = [] -> resolve_transaction P H seen tx = Ok (seen, mkResolvedTx tx [] []).
Proof. intros Hcb Hd. unfold resolve_transaction. by rewrite Hcb, Hd. Qed.

Lemma cellbase_verified ctx number epoch consensus tx max :
  is_cellbase tx = true -> tx_deps tx = [] -> TxVersion_verify tx = Ok tt ->
  SizeVerifier_verify tx (max_block_bytes consensus) = Ok tt -> CapacityVerifier_verify (mkResolvedTx tx [] []) = Ok tt ->
  TransactionVerifier_verify ctx number epoch consensus script_verify (mkResolvedTx tx [] []) max =
  map_err ScriptFailure (script_verify (mkResolvedTx tx [] []) max).
Proof.
  intros Hcb Hd Hv Hs Hc. unfold TransactionVerifier_verify. cbn [rtx_transaction]. rewrite Hv, Hs, !bind_ret_l.
  assert (EmptyVerifier_verify tx = Ok tt) as ->.
  { unfold EmptyVerifier_verify, tx_is_empty. unfold is_cellbase in Hcb.
    apply andb_true_iff in Hcb as [[[H1%bool_decide_eq_true H2%bool_decide_eq_true]%andb_true_iff _]%andb_true_iff _].
    by destruct (tx_inputs tx), (tx_outputs tx). }
  assert (MaturityVerifier_verify (mkResolvedTx tx [] []) number (cellbase_maturity consensus) = Ok tt) as -> by done.
  rewrite !bind_ret_l, Hc, bind_ret_l. unfold DuplicateDepsVerifier_verify. by rewrite Hd.
Qed.

(** A transaction in the shape of a cellbase enters the pool.  It needs no
    input: it resolves without a lookup, its outputs are not compared with its
    inputs and it has the fee zero, so the proposed pool takes it; and no block
    that holds it behind its cellbase is valid. *)
Theorem cellbase_enters_pool now size tx tp cycles y :
  is_cellbase tx = true -> tx_deps tx = [] -> TxVersion_verify tx = Ok tt ->
  SizeVerifier_verify tx (max_block_bytes (ch_consensus c)) = Ok tt ->
  CapacityVerifier_verify (mkResolvedTx tx [] []) = Ok tt -> outputs_capacity tx = Ok y -> 0 <= y ->
  script_verify (mkResolvedTx tx [] []) (max_block_cycles (ch_consensus c)) = Ok cycles ->
  0 <= tip_number c < U64_SIZE - 1 ->
  (exists tp', proposed_tx (M := M) (L := L) (E := E) c script_verify now None size tx tp = Ok (tp', inr cycles) /\
     proposed_get_tx (tp_proposed tp') (proposal_short_id tx) = Some tx) /\
  (forall b cb l, b_transactions b = cb :: l -> is_cellbase cb = true -> tx ∈ l -> h_is_genesis (b_header b) = false ->
     CellbaseVerifier_verify b = Err (ErrCellbase InvalidQuantity)).
Proof.
  intros Hcb Hd Hv Hs Hc Hy Hy0 Hscr Htip. split.
  - exists (add_proposed now cycles 0 size tx tp). split.
    + unfold proposed_tx, resolve_tx_from_proposed. rewrite cellbase_resolves by done. cbn [catch mbind outcome_bind].
      unfold verify_rtx, tx_verify_block_number.
      rewrite add_w_eq, bind_ret_l by lia. rewrite cellbase_verified, Hscr by done. cbn [map_err catch]. rewrite bind_ret_l.
      unfold rtx_fee, calculate_transaction_fee. cbn [rtx_transaction rtx_inputs]. rewrite zip_with_nil_r. cbn [try_fold].
      rewrite !bind_ret_l, Hy. cbn [map_err]. rewrite bind_ret_l, decide_False by lia. done.
    + unfold proposed_get_tx, proposed_get. cbn. destruct (add_tx_entry cycles 0 size tx (tp_proposed tp)) as (e & Hvx & Htx & _).
      rewrite Hvx, lhm_get_insert, decide_True by done. cbn. by rewrite Htx.
  - intros b cb l Hb Hcb' Hin Hg. unfold CellbaseVerifier_verify. rewrite Hg, Hb, decide_True; [done|].
    rewrite filter_cons_True by done. apply list_elem_of_split in Hin as (l1 & l2 & ->). rewrite filter_app, filter_cons_True by done.
    cbn. rewrite length_app. cbn. lia.
Qed.
End cellbase.

(** ** Small pools *)
Module PoolExample.
Definition h (n : Z) : H256 := n * 2 ^ 248.
Definition genesis : Block := simple_block 0 0 100 [].
Definition output : CellOutput := simple_output 10000000000.
Definition tx (n : Z) (deps inputs : list OutPoint) : Transaction :=
  mkTransaction 0 deps ((fun o => mkCellInput o 0) <$> inputs) [output] [] (h n) (h n).
Definition id (t : Transaction) : Bytes := proposal_short_id t.
Definition cell (n i : Z) : OutPoint := new_cell (h n) i.
Definition meta (n i : Z) : CellMeta :=
  mkCellMeta (Some output) (mkCellOutPoint (h n) i) (Some (mkBlockInfo 0 0)) false 10000000000 None.
Definition store : StoreData :=
  mkStore ∅ ∅ ∅ ∅ ∅ ∅ {[(h 1, 0) := meta 1 0; (h 1, 1) := meta 1 1; (h 2, 0) := meta 2 0]} ∅ ∅ ∅ None None.
(** The chain at block 0 with the given cells; every id below is proposed. *)
Definition chain (cells : gmap Z TransactionMeta) : ChainState :=
  mkChainState store (mkTipState (b_header genesis) 1 cells ∅)
    (mkTable ∅ ∅ (list_to_set (from_tx_hash <$> (h <$> [2; 3; 4; 5; 6; 7]))) (mkWindow 2 10))
    (Consensus_default genesis) (genesis_epoch_ext (Consensus_default genesis)).
Definition scripts (rtx : ResolvedTransaction) (max : Z) : outcome ScriptError Z := Ok 5.
Definition insert_entry (m : gmap Z Z) (k v : Z) : gmap Z Z := <[k := v]> m.
Abbreviation Pool := (TxPool (AssocList Bytes) (AssocList Bytes)).
Definition empty : Pool := TxPool_new TxPoolConfig_default.
Abbreviation propose c t tp := (proposed_tx (M := AssocList Bytes) (L := AssocList Bytes) (E := unit) c scripts 9 (Some 5) 100 t tp).
Definition proposed (c : ChainState) (t : Transaction) (tp : Pool) : Pool := (ok_value (tp, inr 0) (propose c t tp)).1.

(** [parent] spends a cell of the chain; [child] and [rival] spend its output. *)
Definition parent : Transaction := tx 2 [] [cell 1 0].
Definition child : Transaction := tx 3 [] [cell 2 0].
Definition rival : Transaction := tx 4 [] [cell 2 0].
(** [reader] reads the cell that [spender] spends. *)
Definition reader : Transaction := tx 5 [cell 1 1] [cell 1 0].
Definition spender : Transaction := tx 6 [] [cell 1 1].

Definition live_two : gmap Z TransactionMeta := {[h 1 := mkMeta 0 0 false [false; false]]}.
Definition base : ChainState := chain live_two.
Definition pool1 : Pool := proposed base parent empty.
Definition pool2 : Pool := proposed base child pool1.

(** The chain with [parent] committed, and the pool with [child] on top of it. *)
Definition committed : ChainState := chain {[h 1 := mkMeta 0 0 false [true; false]; h 2 := mkMeta 1 0 false [false]]}.
Definition orphaned_child : Pool := proposed committed child empty.
Definition parent_block : Block := simple_block 1 100 101 [simple_tx 11 [] 1; parent].
Definition other_block : Block := simple_block 1 100 102 [simple_tx 12 [] 1].
Abbreviation reorg c det att tp :=
  (update_tx_pool_for_reorg (M := AssocList Bytes) (L := AssocList Bytes) (W := AssocList H256) (E := unit) c scripts 9 insert_entry
     det att [] tp ∅).
Definition after_reorg (c : ChainState) (det att : list Block) (tp : Pool) : Pool := (ok_value (tp, ∅) (reorg c det att tp)).1.
Abbreviation submit c t tp := (add_tx_to_pool (M := AssocList Bytes) (L := AssocList Bytes) (E := unit) c scripts 9 t 5 tp).
Definition back : Pool := after_reorg base [parent_block] [other_block] orphaned_child.
Definition submitted : Pool * (PoolError + Z) := ok_value (back, inr 0) (submit base rival back).

Definition spent : ChainState := chain {[h 1 := mkMeta 0 0 false [false; true]; h 6 := mkMeta 1 0 false [false]]}.
Definition spender_block : Block := simple_block 1 100 103 [simple_tx 13 [] 1; spender].
Definition pool_reader : Pool := proposed base spender (proposed base reader empty).
Definition left_over : Pool := after_reorg spent [] [spender_block] pool_reader.

(** [fresh], evaluated. *)
Definition avoids (t q : Transaction) : bool :=
  forallb (fun o => match op_cell o with Some cell => bool_decide (cop_tx_hash cell <> tx_hash t) | None => true end)
    (input_pts q ++ tx_deps q).

Lemma avoids_names t q o : avoids t q = true -> o ∈ input_pts q \/ o ∈ tx_deps q -> ~ names o (tx_hash t).
Proof.
  unfold avoids. rewrite forallb_forall. intros H Ho (c & Hc & Hh). specialize (H o).
  rewrite Hc, bool_decide_eq_true in H. apply H; [|done]. apply list_elem_of_In, elem_of_app. done.
Qed.

Definition is_fresh (c : ChainState) (p : ProposedPool (AssocList Bytes)) (t : Transaction) : bool :=
  bool_decide (proposed_get p (id t) = None) && bool_decide (ts_cell_set (ch_tip c) !! tx_hash t = None) &&
  forallb (avoids t) (t :: pool_txs p) && bool_decide (tx_hash t <> ISSUING_DAO_HASH) && negb (is_cellbase t).

Lemma is_fresh_eq c p t : is_fresh c p t = true -> fresh c p t.
Proof.
  unfold is_fresh. rewrite !andb_true_iff, negb_true_iff, !bool_decide_eq_true, forallb_forall.
  intros [[[[H1 H2] H3] H4] H5]. split; [done|done| |intros o; apply avoids_names, H3; by left|done|done].
  intros i e o He. apply (avoids_names t (pe_transaction e)). apply H3. right. apply list_elem_of_In, pool_txs_entry. eauto.
Qed.

Abbreviation tip := (tip_pool (M := AssocList Bytes) (L := AssocList Bytes) (E := unit) scripts base).

Lemma tip_proposed t tp : tip tp -> is_fresh base (tp_proposed tp) t && is_ok (propose base t tp) = true -> tip (proposed base t tp).
Proof.
  intros Htp [Hf%is_fresh_eq Hok]%andb_true_iff. apply (ok_value_eq (tp, inr 0)) in Hok as Hrun. unfold proposed.
  destruct (ok_value (tp, inr 0) (propose base t tp)) as [tp' r]. by eapply tip_pool_proposed.
Qed.

Lemma tip_pool2 : tip pool2.
Proof. do 2 (apply tip_proposed; [|by vm_compute]). constructor. Qed.

(** Removing a transaction hides the output it spent: the parent is still in
    the pool, but its output is unknown, and the next spender of it is kept
    away as an orphan although it would be valid. *)
Theorem removed_child_hides_output : exists removed p',
  remove_vertex (E := unit) (id child) (tp_proposed pool2) = Ok (removed, p') /\
  proposed_get_tx p' (id parent) = Some parent /\
  ProposedPool_cell (tp_proposed pool1) (cell 2 0) = Ok (CellLive (pool_cell_meta output (mkCellOutPoint (h 2) 0))) /\
  ProposedPool_cell p' (cell 2 0) = Ok CellUnknown.
Proof.
  exists (ok_value ([], ProposedPool_new) (remove_vertex (E := unit) (id child) (tp_proposed pool2))).1,
    (ok_value ([], ProposedPool_new) (remove_vertex (E := unit) (id child) (tp_proposed pool2))).2.
  split_and!; [apply ok_pair_eq|..]; vm_compute; reflexivity.
Qed.

(** After a reorganisation the pool can hold a double spend.  The block of
    [parent] is detached while [child], which spends the output of [parent], is
    in the pool; [parent] is put behind [child] with its output unspent, and the
    pool accepts [rival], which spends the same output. *)
Theorem reorg_pool_double_spend : exists tp cache,
  reorg base [parent_block] [other_block] orphaned_child = Ok (tp, cache) /\
  exists tp', submit base rival tp = Ok (tp', inr 5) /\
  pool_txs (tp_proposed tp') = [child; parent; rival] /\
  cell 2 0 ∈ input_pts child /\ cell 2 0 ∈ input_pts rival.
Proof.
  exists back, (ok_value (orphaned_child, ∅) (reorg base [parent_block] [other_block] orphaned_child)).2.
  split; [apply ok_pair_eq; by_compute|]. exists submitted.1.
  assert (submitted.2 = inr 5) as Hs by (vm_compute; reflexivity). rewrite <- Hs.
  split_and!; [apply ok_pair_eq| | |]; by_compute.
Qed.

(** A transaction that reads a cell stays in the pool after a block spends the
    cell with a transaction of the pool: the next template takes it, and does
    not resolve. *)
Theorem committed_spender_leaves_reader : exists tp cache,
  reorg spent [] [spender_block] pool_reader = Ok (tp, cache) /\
  (exists e, get_proposed_txs (E := unit) tp 1000 1000 = Ok ([e], 100, 5) /\ pe_transaction e = reader) /\
  resolve_transaction (chain_cell spent) (chain_header spent) ∅ reader = Err (UnresolvableDead (cell 1 1)).
Proof.
  exists left_over, (ok_value (pool_reader, ∅) (reorg spent [] [spender_block] pool_reader)).2.
  split_and!; [apply ok_pair_eq; by_compute|eexists; split; vm_compute; reflexivity|vm_compute; reflexivity].
Qed.
End PoolExample.

Section witnesses.
Import PoolExample.

Definition cellbase : Transaction := mkTransaction 0 [] [new_cellbase_input 1] [output] [[]] (h 9) (h 9).
Definition mined : Block := simple_block 1 100 104 [cellbase; parent; child].


(** With the parent the child goes. *)
Lemma remove_takes_descendants_witness : exists removed p',
  remove_vertex (E := unit) (id parent) (tp_proposed pool2) = Ok (removed, p') /\
  forall e, proposed_get (tp_proposed pool2) (id child) = Some e -> e ∈ removed.
Proof.
  destruct (remove_takes_descendants (E := unit) (tp_proposed pool2) (id parent) (tip_pool_reach _ _ _ tip_pool2))
    as (removed & p' & Hrun & Hrem & _).
  exists removed, p'. split; [exact Hrun|]. intros e He. apply (Hrem _ _ He), rtc_once.
  assert (is_Some (proposed_get (tp_proposed pool2) (id parent))) as [ep Hep] by by_compute.
  exists ep, e, (cell 2 0). split_and!; [done|done|..].
  - assert (entry_outputs <$> proposed_get (tp_proposed pool2) (id parent) = Some (output_pts parent)) as Ho by by_compute.
    rewrite Hep in Ho. injection Ho as ->. by_compute.
  - left. split; [by_compute|].
    assert (entry_inputs <$> proposed_get (tp_proposed pool2) (id child) = Some (input_pts child)) as Hi by by_compute.
    rewrite He in Hi. injection Hi as ->. by_compute.
Defined.

Definition simple_ext : BlockExt := mkBlockExt 0 2 0 None (mkDaoStats 0 0) [].

(** A template of both transactions, and the block mined from it. *)
Definition template : list ProposedEntry * Z * Z := ok_value ([], 0, 0) (get_proposed_txs (E := unit) pool2 1000 1000).

Lemma template_resolves_witness : exists vc indices rtxs,
  build_verify_context (E := unit) (mkFork [mined] [] [simple_ext]) store = Ok vc /\
  resolve_transactions (block_cell_provider some_order base vc mined indices)
    (block_header_provider base (push_attached (vc_headers vc) mined)) ∅ [cellbase; parent; child] = Ok rtxs.
Proof.
  destruct (template_resolves (E := unit) scripts base some_order pool2 1000 1000 template.1.1 template.1.2 template.2
    cellbase mined simple_ext tip_pool2) as (vc & indices & rtxs & H1 & _ & H2).
  - by_compute.
  - vm_compute; reflexivity.
  - by_compute.
  - by_compute.
  - by_compute.
  - apply Forall_forall. by_compute.
  - by_compute.
  - by_compute.
  - exists vc, indices, rtxs. exact (conj H1 H2).
Defined.

Lemma cellbase_enters_pool_witness : exists tp',
  proposed_tx (E := unit) base scripts 9 None 100 cellbase pool2 = Ok (tp', inr 5) /\
  proposed_get_tx (tp_proposed tp') (id cellbase) = Some cellbase.
Proof.
  apply (cellbase_enters_pool (E := unit) scripts base 9 100 cellbase pool2 5 10000000000); try by_compute; try done.
  all: vm_compute; reflexivity.
Defined.

(** Three transactions together; the last one spends an unknown cell. *)
Definition batch : list Transaction := [parent; spender; tx 7 [] [cell 9 0]].
Definition idle : Shared (M := AssocList Bytes) (L := AssocList Bytes) := mkShared base empty ∅.
Definition batch_prepared : Prepared :=
  match executor_resolve (E := unit) batch idle with
  | Ok (inr p) => p
  | _ => mkPrepared [] [] [] [] (Consensus_default genesis) 0 0
  end.
Definition batch_verified : list (H256 * (PoolError + ResolvedTransaction * Z)) := ok_value [] (executor_verify (E := unit) scripts store batch_prepared).

Lemma executor_in_order_witness :
  executor_add (E := unit) scripts 9 insert_entry batch_prepared batch_verified idle =
  ('(tx_pool, r) ← submit_in_order (E := unit) scripts 9 idle store base batch empty;
   Ok (mkShared base tx_pool (foldl (write_cache insert_entry) ∅ batch_verified), r)).
Proof.
  apply (executor_in_order (E := unit) scripts 9 insert_entry batch idle idle store (inr batch_prepared)).
  - by_compute.
  - vm_compute. reflexivity.
  - apply ok_value_eq. by_compute.
Defined.
End witnesses.
