(* ===== verification/Cuckoo.v ===== *)
(** * Proof of work

    [core/src/difficulty.rs], the engines of [pow/src] ([Pow], [PowEngine],
    [DummyPowEngine], [CuckooEngine]) and the verification of a cuckoo cycle:
    the nonces of a proof name edges of a bipartite graph, and the proof is
    valid when these edges form one cycle of the required length.  A proof has
    as many nonces as the cycle has edges, so the walk of [Cuckoo::verify]
    needs one round for each at most: the fuel of [cycle_walk] is the length of
    the proof. *)
From stdpp Require Import sorting.
From S2P Require Import Prelude ByteStrings Blocks HeaderVerify.

(** ** Difficulty *)

Definition T_NUMBER : Z := 2 ^ 255.

Definition target_to_difficulty (boundary : H256) : Z :=
  if decide (boundary <= 1) then U256_SIZE - 1
  else cast U256_SIZE (Z.shiftl (T_NUMBER / boundary) 1).

Definition difficulty_to_target (difficulty : Z) : H256 :=
  if decide (difficulty <= 1) then U256_SIZE - 1
  else cast U256_SIZE (Z.shiftl (T_NUMBER / difficulty) 1).

(** ** The keyed hash of the edges *)

(** [u64::rotate_left]. *)
Definition rotate_left (x : Z) (n : Z) : Z :=
  Z.lor (cast U64_SIZE (Z.shiftl x n)) (Z.shiftr x (64 - n)).

Record SipState := mkSip { sv0 : Z; sv1 : Z; sv2 : Z; sv3 : Z }.

Definition sipround (s : SipState) : SipState :=
  let '(mkSip v0 v1 v2 v3) := s in
  let v0 := wrapping_add U64_SIZE v0 v1 in
  let v2 := wrapping_add U64_SIZE v2 v3 in
  let v1 := rotate_left v1 13 in
  let v3 := rotate_left v3 16 in
  let v1 := Z.lxor v1 v0 in
  let v3 := Z.lxor v3 v2 in
  let v0 := rotate_left v0 32 in
  let v2 := wrapping_add U64_SIZE v2 v1 in
  let v0 := wrapping_add U64_SIZE v0 v3 in
  let v1 := rotate_left v1 17 in
  let v3 := rotate_left v3 21 in
  let v1 := Z.lxor v1 v2 in
  let v3 := Z.lxor v3 v0 in
  let v2 := rotate_left v2 32 in
  mkSip v0 v1 v2 v3.

Record CuckooSip := mkCuckooSip { key0 : Z; key1 : Z; key2 : Z; key3 : Z }.

Definition sip_hash (self : CuckooSip) (val : Z) : Z :=
  let s := mkSip (key0 self) (key1 self) (key2 self) (Z.lxor (key3 self) val) in
  let s := sipround (sipround s) in
  let s := mkSip (Z.lxor (sv0 s) val) (sv1 s) (Z.lxor (sv2 s) 255) (sv3 s) in
  let s := sipround (sipround (sipround (sipround s))) in
  Z.lxor (Z.lxor (Z.lxor (sv0 s) (sv1 s)) (sv2 s)) (sv3 s).

(** An edge joins an upper and a lower node. *)
Abbreviation Edge := (Z * Z)%type (only parsing).

Definition edge (self : CuckooSip) (val edge_mask : Z) : Edge :=
  (Z.land (sip_hash self (Z.shiftl val 1)) edge_mask,
   Z.land (sip_hash self (Z.shiftl val 1 + 1)) edge_mask).

Arguments edge self val edge_mask : simpl never.

(** The digest of [blake2b_256] as bytes; on a little-endian host [to_le] is
    the identity. *)
Definition message_to_keys (blake2b_256 : Bytes -> H256) (message : Bytes) : CuckooSip :=
  let result := h256_as_bytes (blake2b_256 message) in
  let key i := le_combine (take 8 (drop i result)) in
  mkCuckooSip (key 0%nat) (key 8%nat) (key 16%nat) (key 24%nat).

(** ** [Cuckoo] *)

Record Cuckoo := mkCuckoo { max_edge : Z; edge_mask : Z; cycle_length : Z }.

(** The shift of a [u64] by 64 bits or more panics. *)
Definition Cuckoo_new {E} (edge_bits cycle_length : Z) : outcome E Cuckoo :=
  _ ← assert (bool_decide (0 < cycle_length));
  _ ← assert (bool_decide (edge_bits < 64));
  Ok (mkCuckoo (Z.shiftl 1 edge_bits) (Z.shiftl 1 edge_bits - 1) cycle_length).

(** [entry(k).and_modify(|l| l.push(v)).or_insert_with(|| vec![v])]. *)
Definition entry_push (k v : Z) (m : gmap Z (list Z)) : gmap Z (list Z) :=
  <[k := default [] (m !! k) ++ [v]]> m.

Definition adjacency (edges : list Edge) : gmap Z (list Z) * gmap Z (list Z) :=
  foldl (fun '(from_upper, from_lower) '(u, v) =>
    (entry_push u v from_upper, entry_push v u from_lower)) (∅, ∅) edges.

(** [!map.values().any(|list| list.len() != 2)]. *)
Definition all_pairs (m : gmap Z (list Z)) : bool :=
  bool_decide (map_Forall (fun _ l => length l = 2%nat) m).

(** [*map[&k].iter().find(|x| **x != other).expect(..)]. *)
Definition find_other {E} (m : gmap Z (list Z)) (k other : Z) : outcome E Z :=
  l ← expect (m !! k);
  expect (snd <$> list_find (fun x => x <> other) l).

(** The [loop] of [verify]; [n] is the local [cycle_length]. *)
Fixpoint cycle_walk {E} (fuel : nat) (from_upper from_lower : gmap Z (list Z))
    (start : Z) (cur_edge : Edge) (n : Z) : outcome E Z :=
  match fuel with
  | O => Panic
  | S fuel =>
      next_lower ← find_other from_upper cur_edge.1 cur_edge.2;
      next_upper ← find_other from_lower next_lower cur_edge.1;
      if decide (start = next_upper) then Ok (n + 2)
      else cycle_walk fuel from_upper from_lower start (next_upper, next_lower) (n + 2)
  end.

Definition is_monotonous (proof : list Z) : bool :=
  forallb (fun w => bool_decide (w.1 < w.2)) (zip proof (tail proof)).

Definition Cuckoo_verify {E} (blake2b_256 : Bytes -> H256) (self : Cuckoo) (message : Bytes)
    (proof : list Z) : outcome E bool :=
  if decide (len proof <> cycle_length self) then Ok false
  else
    last ← expect (proof !! Z.to_nat (cycle_length self - 1));
    if decide (edge_mask self < last) then Ok false
    else if negb (is_monotonous proof) then Ok false
    else
      let hasher := message_to_keys blake2b_256 message in
      let '(from_upper, from_lower) :=
        adjacency (map (fun i => edge hasher i (edge_mask self)) proof) in
      if negb (all_pairs from_upper) then Ok false
      else if negb (all_pairs from_lower) then Ok false
      else
        first ← expect (proof !! 0%nat);
        let cur_edge := edge hasher first (edge_mask self) in
        n ← cycle_walk (length proof) from_upper from_lower cur_edge.1 cur_edge 0;
        Ok (bool_decide (n = cycle_length self)).

(** ** The engines *)

Record CuckooParams := mkCuckooParams { edge_bits : Z; params_cycle_length : Z }.

Definition CuckooParams_default : CuckooParams := mkCuckooParams 29 42.

(** What deserialisation accepts of the field. *)
Definition validate_cycle_length (value : Z) : outcome unit Z :=
  if decide (Z.land value 1 = 1) then Err tt else Ok value.

Inductive Pow := PowDummy | PowCuckoo (params : CuckooParams).

Definition CuckooEngine_new {E} (params : CuckooParams) : outcome E Cuckoo :=
  Cuckoo_new (edge_bits params) (params_cycle_length params).

(** [LittleEndian::read_u32_into]. *)
Fixpoint read_u32s (n : nat) (b : Bytes) : list Z :=
  match n with
  | O => []
  | S n => le_combine (take 4 b) :: read_u32s n (drop 4 b)
  end.

Definition CuckooEngine_proof_size (self : Cuckoo) : Z := Z.shiftl (cycle_length self) 2.

Definition CuckooEngine_verify {E} (blake2b_256 : Bytes -> H256) (self : Cuckoo)
    (message proof : Bytes) : outcome E bool :=
  if decide (len proof <> Z.shiftl (cycle_length self) 2) then Ok false
  else
    let proof_u32 := read_u32s (Z.to_nat (cycle_length self)) proof in
    Cuckoo_verify blake2b_256 self message proof_u32.

Definition pow_message (pow_hash : H256) (nonce : Z) : Bytes :=
  u64_to_le_bytes nonce ++ h256_as_bytes pow_hash.

Definition verify_proof_difficulty (blake2b_256 : Bytes -> H256) (proof : Bytes)
    (difficulty : Z) : bool :=
  bool_decide (blake2b_256 proof < difficulty_to_target difficulty).

(** [PowEngine::verify_header] of the cuckoo engine. *)
Definition CuckooEngine_verify_header {E} (blake2b_256 : Bytes -> H256)
    (serialize : RawHeader -> Bytes) (self : Cuckoo) (header : Header) : outcome E bool :=
  if verify_proof_difficulty blake2b_256 (seal_proof (h_seal header)) (h_difficulty header) then
    let message := pow_message (pow_hash blake2b_256 serialize (h_raw header))
                     (seal_nonce (h_seal header)) in
    CuckooEngine_verify blake2b_256 self message (seal_proof (h_seal header))
  else Ok false.

Definition DummyPowEngine_verify_header {E} (header : Header) : outcome E bool := Ok true.

(** The engine a chain specification names, and its checks of a header. *)
Definition Pow_verify_header {E} (blake2b_256 : Bytes -> H256) (serialize : RawHeader -> Bytes)
    (pow : Pow) (header : Header) : outcome E bool :=
  match pow with
  | PowDummy => DummyPowEngine_verify_header header
  | PowCuckoo params =>
      engine ← CuckooEngine_new params;
      CuckooEngine_verify_header blake2b_256 serialize engine header
  end.

(** ** The adjacency maps *)

Definition lowers (es : list Edge) (u : Z) : list Z := (filter (fun e => e.1 = u) es).*2.
Definition uppers (es : list Edge) (v : Z) : list Z := (filter (fun e => e.2 = v) es).*1.

Definition nonempty (l : list Z) : option (list Z) :=
  match l with [] => None | _ => Some l end.

Lemma default_nonempty l : default [] (nonempty l) = l.
Proof. by destruct l. Qed.

Lemma nonempty_snoc l x : nonempty (l ++ [x]) = Some (l ++ [x]).
Proof. by destruct l. Qed.

Lemma entry_push_lookup k v m j :
  entry_push k v m !! j = if decide (k = j) then Some (default [] (m !! k) ++ [v]) else m !! j.
Proof. unfold entry_push. case_decide; [subst; apply lookup_insert_eq|by apply lookup_insert_ne]. Qed.

Lemma adjacency_snoc es u v :
  adjacency (es ++ [(u, v)]) =
    (entry_push u v (adjacency es).1, entry_push v u (adjacency es).2).
Proof. unfold adjacency. rewrite foldl_app. simpl. by destruct (foldl _ _ _). Qed.

Lemma adjacency_lookup es k :
  (adjacency es).1 !! k = nonempty (lowers es k) /\
  (adjacency es).2 !! k = nonempty (uppers es k).
Proof.
  induction es as [|[u v] es [IH1 IH2]] using rev_ind; [done|].
  rewrite adjacency_snoc. simpl. rewrite !entry_push_lookup.
  unfold lowers, uppers in *. rewrite !filter_app, !fmap_app.
  rewrite !filter_cons, !filter_nil. simpl.
  split; case_decide; subst; simpl.
  - by rewrite IH1, default_nonempty, nonempty_snoc.
  - by rewrite app_nil_r.
  - by rewrite IH2, default_nonempty, nonempty_snoc.
  - by rewrite app_nil_r.
Qed.

Lemma elem_of_lowers es u v : v ∈ lowers es u <-> (u, v) ∈ es.
Proof.
  unfold lowers. rewrite list_elem_of_fmap. setoid_rewrite list_elem_of_filter.
  split; [intros ([??] & -> & ? & ?); simpl in *; by subst|intros; by exists (u, v)].
Qed.

Lemma elem_of_uppers es u v : u ∈ uppers es v <-> (u, v) ∈ es.
Proof.
  unfold uppers. rewrite list_elem_of_fmap. setoid_rewrite list_elem_of_filter.
  split; [intros ([??] & -> & ? & ?); simpl in *; by subst|intros; by exists (u, v)].
Qed.

(** Every node of the graph is on exactly two of its edges. *)
Definition two_regular (es : list Edge) : Prop :=
  forall u v, (u, v) ∈ es -> length (lowers es u) = 2%nat /\ length (uppers es v) = 2%nat.

Lemma all_pairs_spec m :
  all_pairs m = true <-> forall k l, m !! k = Some l -> length l = 2%nat.
Proof. unfold all_pairs. rewrite bool_decide_eq_true. done. Qed.

Lemma nonempty_Some l l' : nonempty l = Some l' <-> l = l' /\ l <> [].
Proof. destruct l; naive_solver. Qed.

Lemma two_regular_spec es :
  all_pairs (adjacency es).1 = true /\ all_pairs (adjacency es).2 = true <-> two_regular es.
Proof.
  rewrite !all_pairs_spec. setoid_rewrite (fun k => proj1 (adjacency_lookup es k)).
  setoid_rewrite (fun k => proj2 (adjacency_lookup es k)). setoid_rewrite nonempty_Some.
  split.
  - intros [H1 H2] u v Huv. split.
    + apply (H1 u). split; [done|]. intros E.
      apply elem_of_lowers in Huv. rewrite E in Huv. by apply not_elem_of_nil in Huv.
    + apply (H2 v). split; [done|]. intros E.
      apply elem_of_uppers in Huv. rewrite E in Huv. by apply not_elem_of_nil in Huv.
  - intros H. split; intros k l [<- Hne].
    + destruct (lowers es k) as [|v l'] eqn:El; [done|].
      rewrite <- El. apply (H k v), elem_of_lowers. rewrite El. left.
    + destruct (uppers es k) as [|u l'] eqn:El; [done|].
      rewrite <- El. apply (H u k), elem_of_uppers. rewrite El. left.
Qed.

(** In a list of two elements that holds two distinct ones, there are no
    others. *)
Lemma pair_elements (l : list Z) a b x :
  length l = 2%nat -> a ∈ l -> b ∈ l -> a <> b -> x ∈ l -> x = a \/ x = b.
Proof.
  destruct l as [|c [|d [|]]]; try done. intros _.
  rewrite !elem_of_cons, !elem_of_nil. naive_solver.
Qed.

(** [find_other] on the two maps. *)
Lemma find_other_Ok {E} m k other l x :
  m !! k = Some l -> find_other (E := E) m k other = Ok x -> x ∈ l /\ x <> other.
Proof.
  intros Hl. unfold find_other. rewrite Hl. simpl.
  destruct (list_find _ l) as [[i y]|] eqn:Hf; simpl; [|done].
  intros [= <-]. apply list_find_Some in Hf as (Hi & Hne & _).
  split; [by eapply list_elem_of_lookup_2|done].
Qed.

Lemma find_other_lower {E} es u v v' :
  (u, v) ∈ es -> find_other (E := E) (adjacency es).1 u v = Ok v' ->
  (u, v') ∈ es /\ v' <> v.
Proof.
  intros Hin Hf. destruct (adjacency_lookup es u) as [Hl _].
  apply elem_of_lowers in Hin. destruct (lowers es u) as [|a l] eqn:El.
  { by apply not_elem_of_nil in Hin. }
  destruct (find_other_Ok _ _ _ _ _ Hl Hf) as [Hx ?].
  rewrite <- El in Hx. by apply elem_of_lowers in Hx.
Qed.

Lemma find_other_upper {E} es u v u' :
  (u, v) ∈ es -> find_other (E := E) (adjacency es).2 v u = Ok u' ->
  (u', v) ∈ es /\ u' <> u.
Proof.
  intros Hin Hf. destruct (adjacency_lookup es v) as [_ Hl].
  apply elem_of_uppers in Hin. destruct (uppers es v) as [|a l] eqn:El.
  { by apply not_elem_of_nil in Hin. }
  destruct (find_other_Ok _ _ _ _ _ Hl Hf) as [Hx ?].
  rewrite <- El in Hx. by apply elem_of_uppers in Hx.
Qed.

(** With no edge twice, the other node is found. *)
Lemma find_other_exists {E} m k other l :
  m !! k = Some l -> length l = 2%nat -> NoDup l -> exists x, find_other (E := E) m k other = Ok x.
Proof.
  intros Hl Hlen Hnd. unfold find_other. rewrite Hl. simpl.
  destruct l as [|a [|b [|]]]; try done.
  apply NoDup_cons in Hnd as [Hab _]. rewrite list_elem_of_singleton in Hab.
  destruct (list_find _ _) as [[i y]|] eqn:Hf; simpl; [by eexists|].
  apply list_find_None in Hf. rewrite !Forall_cons in Hf.
  destruct Hf as (Ha & Hb & _). destruct (decide (a = other)), (decide (b = other)); naive_solver.
Qed.

Lemma NoDup_lowers es u : NoDup es -> NoDup (lowers es u).
Proof.
  intros H. unfold lowers. apply NoDup_fmap_2_strong; [|by apply NoDup_filter].
  intros [??] [??]. rewrite !list_elem_of_filter. simpl. naive_solver.
Qed.

Lemma NoDup_uppers es u : NoDup es -> NoDup (uppers es u).
Proof.
  intros H. unfold uppers. apply NoDup_fmap_2_strong; [|by apply NoDup_filter].
  intros [??] [??]. rewrite !list_elem_of_filter. simpl. naive_solver.
Qed.

(** ** Cycles *)

(** The cycle through the upper nodes [us] and the lower nodes [vs]: the lower
    node [vs[j]] joins [us[j]] to the upper node after it, the last one to the
    first. *)
Definition next_uppers (us : list Z) : list Z := tail us ++ take 1 us.
Definition cycle_edges (us vs : list Z) : list Edge := zip us vs ++ zip (next_uppers us) vs.

(** The edges form one cycle, which meets no node twice. *)
Definition single_cycle (es : list Edge) : Prop :=
  exists us vs, length us = length vs /\ (2 <= length us)%nat /\ NoDup us /\ NoDup vs /\
    es ≡ₚ cycle_edges us vs.

Lemma next_uppers_Permutation us : next_uppers us ≡ₚ us.
Proof. destruct us as [|u us]; [done|]. unfold next_uppers. simpl. by rewrite take_0, Permutation_app_comm. Qed.

Lemma next_uppers_lookup us j :
  next_uppers us !! j =
    if decide (S j < length us)%nat then us !! S j
    else if decide (S j = length us) then us !! 0%nat else None.
Proof.
  destruct us as [|u us]; unfold next_uppers; simpl.
  { repeat case_decide; try lia. by rewrite lookup_nil. }
  rewrite take_0. repeat case_decide; try lia.
  - apply lookup_app_l. lia.
  - rewrite lookup_app_r by lia. by replace (j - length us)%nat with 0%nat by lia.
  - apply lookup_ge_None. rewrite length_app. simpl. lia.
Qed.

Lemma elem_of_zip_iff (us vs : list Z) u v :
  (u, v) ∈ zip us vs <-> exists j, us !! j = Some u /\ vs !! j = Some v.
Proof.
  rewrite list_elem_of_lookup. split; intros [j Hj]; exists j.
  - by apply lookup_zip_Some in Hj.
  - by apply lookup_zip_Some.
Qed.

Lemma NoDup_zip (us vs : list Z) : NoDup us -> NoDup (zip us vs).
Proof.
  intros H. revert vs. induction H as [|u us Hu Hus IH]; intros [|v vs]; simpl; try constructor; auto.
  rewrite elem_of_zip_iff. intros (j & Hj & _). apply Hu. by eapply list_elem_of_lookup_2.
Qed.

Lemma NoDup_cycle_edges us vs :
  length us = length vs -> (2 <= length us)%nat -> NoDup us -> NoDup vs ->
  NoDup (cycle_edges us vs).
Proof.
  intros Hl H2 Hus Hvs. unfold cycle_edges. apply NoDup_app. split; [by apply NoDup_zip|].
  split; [|apply NoDup_zip; by rewrite next_uppers_Permutation].
  intros [u v] (i & Hu & Hv)%elem_of_zip_iff (j & Hu' & Hv')%elem_of_zip_iff.
  assert (i = j) as -> by (by eapply (NoDup_lookup vs)).
  rewrite next_uppers_lookup in Hu'. repeat case_decide; [| |done].
  - assert (j = S j) by (by eapply (NoDup_lookup us)). lia.
  - assert (j = 0)%nat by (by eapply (NoDup_lookup us)). lia.
Qed.

Lemma length_cycle_edges us vs :
  length us = length vs -> length (cycle_edges us vs) = (2 * length us)%nat.
Proof.
  intros Hl. unfold cycle_edges. rewrite length_app, !length_zip_with.
  rewrite (Permutation_length (next_uppers_Permutation us)). lia.
Qed.

Lemma single_cycle_NoDup es : single_cycle es -> NoDup es.
Proof. intros (us & vs & ? & ? & ? & ? & ->). by apply NoDup_cycle_edges. Qed.

(** Every upper node of the cycle is on two of its edges, and every lower one. *)
Lemma filter_once {A} (f : A -> Z) (l : list A) x :
  NoDup (f <$> l) -> x ∈ f <$> l -> length (filter (fun e => f e = x) l) = 1%nat.
Proof.
  induction l as [|a l IH]; simpl; [by intros _ ?%not_elem_of_nil|].
  rewrite NoDup_cons, elem_of_cons, filter_cons. intros [Ha Hnd] Hin.
  destruct (decide (f a = x)) as [<-|Hne]; [|apply IH; naive_solver].
  simpl. f_equal. apply length_zero_iff_nil, elem_of_nil_inv.
  intros b [E Hb]%list_elem_of_filter. apply Ha. rewrite <- E. by apply list_elem_of_fmap_2.
Qed.

Lemma fst_cycle_edges us vs :
  length us = length vs -> (cycle_edges us vs).*1 = us ++ next_uppers us.
Proof.
  intros Hl. unfold cycle_edges. rewrite fmap_app, !fst_zip; [done| |lia].
  rewrite (Permutation_length (next_uppers_Permutation us)). lia.
Qed.

Lemma snd_cycle_edges us vs :
  length us = length vs -> (cycle_edges us vs).*2 = vs ++ vs.
Proof.
  intros Hl. unfold cycle_edges. rewrite fmap_app, !snd_zip; [done| |lia].
  rewrite (Permutation_length (next_uppers_Permutation us)). lia.
Qed.

Lemma single_cycle_two_regular es : single_cycle es -> two_regular es.
Proof.
  intros (us & vs & Hl & H2 & Hus & Hvs & Hes) u v Huv.
  assert (length (next_uppers us) = length vs) as Hl'
    by (rewrite (Permutation_length (next_uppers_Permutation us)); done).
  assert (u ∈ us /\ v ∈ vs) as [Hu Hv].
  { rewrite Hes in Huv. pose proof (list_elem_of_fmap_2 fst _ _ Huv) as Hu.
    pose proof (list_elem_of_fmap_2 snd _ _ Huv) as Hv.
    rewrite fst_cycle_edges, next_uppers_Permutation in Hu by done.
    rewrite snd_cycle_edges in Hv by done. rewrite elem_of_app in Hu, Hv. naive_solver. }
  unfold lowers, uppers. rewrite Hes. unfold cycle_edges.
  rewrite !length_fmap, !filter_app, !length_app. split.
  - rewrite (filter_once fst (zip us vs)), (filter_once fst (zip (next_uppers us) vs));
      rewrite ?fst_zip by lia; rewrite ?next_uppers_Permutation; done.
  - rewrite (filter_once snd (zip us vs)), (filter_once snd (zip (next_uppers us) vs));
      rewrite ?snd_zip by lia; done.
Qed.

(** ** The walk *)

Section walk.
Context (es : list Edge) (Hreg : two_regular es).

(** What the walk has seen when it is at [cur]: the upper nodes [us], the last
    of them at [cur], and the lower nodes [vs] between them. *)
Record trail (start : Z) (us vs : list Z) (cur : Edge) : Prop := mkTrail {
  tr_length : length us = S (length vs);
  tr_start : us !! 0%nat = Some start;
  tr_cur : us !! length vs = Some cur.1;
  tr_prev : forall j, S j = length vs -> vs !! j = Some cur.2;
  tr_edge : cur ∈ es;
  tr_us : NoDup us;
  tr_vs : NoDup vs;
  tr_left : forall j u v, us !! j = Some u -> vs !! j = Some v -> (u, v) ∈ es;
  tr_right : forall j u v, us !! S j = Some u -> vs !! j = Some v -> (u, v) ∈ es
}.

(** A closed walk. *)
Record closed (us vs : list Z) : Prop := mkClosed {
  cl_length : length us = length vs;
  cl_two : (2 <= length us)%nat;
  cl_us : NoDup us;
  cl_vs : NoDup vs;
  cl_edges : forall e, e ∈ cycle_edges us vs -> e ∈ es
}.

Lemma regular_lower u v1 v2 v :
  (u, v1) ∈ es -> (u, v2) ∈ es -> v1 <> v2 -> (u, v) ∈ es -> v = v1 \/ v = v2.
Proof.
  intros H1 H2 Hne H. destruct (Hreg _ _ H1) as [Hl _]. rewrite <- !elem_of_lowers in *.
  by eapply pair_elements.
Qed.

Lemma regular_upper v u1 u2 u :
  (u1, v) ∈ es -> (u2, v) ∈ es -> u1 <> u2 -> (u, v) ∈ es -> u = u1 \/ u = u2.
Proof.
  intros H1 H2 Hne H. destruct (Hreg _ _ H1) as [_ Hl]. rewrite <- !elem_of_uppers in *.
  by eapply pair_elements.
Qed.

Lemma trail_fresh_lower start us vs cur v' :
  trail start us vs cur -> (cur.1, v') ∈ es -> v' <> cur.2 -> v' ∉ vs.
Proof.
  intros T Hv' Hne [j Hj]%list_elem_of_lookup.
  pose proof (lookup_lt_Some _ _ _ Hj) as Hlt. destruct T as [Hl Hst' Hc Hprev _ Hus Hvs Hleft Hright].
  destruct (lookup_lt_is_Some_2 us j) as [u1 H1]; [lia|].
  destruct (lookup_lt_is_Some_2 us (S j)) as [u2 H2]; [lia|].
  assert (u1 <> u2) as Hu.
  { intros ->. assert (j = S j) by (by eapply (NoDup_lookup us)). lia. }
  destruct (regular_upper v' u1 u2 cur.1) as [E|E]; try done.
  - by eapply Hleft.
  - by eapply Hright.
  - rewrite <- E in H1. assert (length vs = j) by (by eapply (NoDup_lookup us)). lia.
  - rewrite <- E in H2. assert (length vs = S j) by (by eapply (NoDup_lookup us)).
    rewrite (Hprev j) in Hj by lia. naive_solver.
Qed.

Lemma trail_fresh_upper start us vs cur u' v' :
  trail start us vs cur -> v' ∉ vs -> (u', v') ∈ es -> u' <> cur.1 -> u' <> start -> u' ∉ us.
Proof.
  intros T Hv' Hu' Hne Hst [j Hj]%list_elem_of_lookup.
  pose proof (lookup_lt_Some _ _ _ Hj) as Hlt. destruct T as [Hl Hst' Hc Hprev _ Hus Hvs Hleft Hright].
  destruct j as [|j]; [rewrite Hst' in Hj; naive_solver|].
  destruct (decide (S j = length vs)) as [E|Hj2].
  { rewrite E, Hc in Hj. naive_solver. }
  destruct (lookup_lt_is_Some_2 vs j) as [v1 H1]; [lia|].
  destruct (lookup_lt_is_Some_2 vs (S j)) as [v2 H2]; [lia|].
  assert (v1 <> v2) as Hv.
  { intros ->. assert (j = S j) by (by eapply (NoDup_lookup vs)). lia. }
  apply Hv'. destruct (regular_lower u' v1 v2 v') as [->| ->]; try done.
  - by eapply Hright.
  - by eapply Hleft.
  - by eapply list_elem_of_lookup_2.
  - by eapply list_elem_of_lookup_2.
Qed.

Lemma trail_extend start us vs cur u' v' :
  trail start us vs cur -> (cur.1, v') ∈ es -> v' <> cur.2 ->
  (u', v') ∈ es -> u' <> cur.1 -> u' <> start ->
  trail start (us ++ [u']) (vs ++ [v']) (u', v').
Proof.
  intros T Hv' Hnv Hu' Hnu Hst.
  pose proof (trail_fresh_lower _ _ _ _ _ T Hv' Hnv) as Hfv.
  pose proof (trail_fresh_upper _ _ _ _ _ _ T Hfv Hu' Hnu Hst) as Hfu.
  destruct T as [Hl Hst' Hc Hprev Hin Hus Hvs Hleft Hright].
  split; simpl; rewrite ?length_app; simpl; try done.
  - lia.
  - by rewrite lookup_app_l by lia.
  - rewrite lookup_app_r, Hl by lia. by replace (length vs + 1 - S (length vs))%nat with 0%nat by lia.
  - intros j Hj. rewrite lookup_app_r by lia. by replace (j - length vs)%nat with 0%nat by lia.
  - apply NoDup_app. split; [done|]. split; [set_solver|apply NoDup_singleton].
  - apply NoDup_app. split; [done|]. split; [set_solver|apply NoDup_singleton].
  - intros j u v [Hj|[Hj Hj']]%lookup_app_Some [Hk|[Hk Hk']]%lookup_app_Some.
    + by eapply Hleft.
    + apply list_lookup_singleton_Some in Hk' as [? <-].
      replace j with (length vs) in Hj by lia. rewrite Hc in Hj. naive_solver.
    + apply lookup_lt_Some in Hk. lia.
    + apply list_lookup_singleton_Some in Hj' as [? <-].
      apply list_lookup_singleton_Some in Hk' as [? <-]. lia.
  - intros j u v [Hj|[Hj Hj']]%lookup_app_Some [Hk|[Hk Hk']]%lookup_app_Some.
    + by eapply Hright.
    + apply lookup_lt_Some in Hj. lia.
    + apply lookup_lt_Some in Hk. lia.
    + apply list_lookup_singleton_Some in Hj' as [? <-].
      by apply list_lookup_singleton_Some in Hk' as [? <-].
Qed.

Lemma trail_close start us vs cur v' :
  trail start us vs cur -> (cur.1, v') ∈ es -> v' <> cur.2 ->
  (start, v') ∈ es -> start <> cur.1 -> closed us (vs ++ [v']).
Proof.
  intros T Hv' Hnv Hu' Hnu.
  pose proof (trail_fresh_lower _ _ _ _ _ T Hv' Hnv) as Hfv.
  destruct T as [Hl Hst' Hc Hprev Hin Hus Hvs Hleft Hright].
  split; rewrite ?length_app; simpl; try done.
  - lia.
  - destruct (decide (length vs = 0%nat)) as [E|]; [|lia].
    rewrite E, Hst' in Hc. naive_solver.
  - apply NoDup_app. split; [done|]. split; [set_solver|apply NoDup_singleton].
  - intros [u v] [(j & Hj & Hk)%elem_of_zip_iff|(j & Hj & Hk)%elem_of_zip_iff]%elem_of_app;
      apply lookup_app_Some in Hk as [Hk|[Hk Hk']].
    + by eapply Hleft.
    + apply list_lookup_singleton_Some in Hk' as [? <-].
      replace j with (length vs) in Hj by lia. rewrite Hc in Hj. naive_solver.
    + pose proof (lookup_lt_Some _ _ _ Hk). rewrite next_uppers_lookup in Hj.
      rewrite decide_True in Hj by lia. by eapply Hright.
    + apply list_lookup_singleton_Some in Hk' as [? <-].
      rewrite next_uppers_lookup, decide_False, decide_True, Hst' in Hj by lia. naive_solver.
Qed.

Lemma trail_bound start us vs cur : trail start us vs cur -> (length us <= length es)%nat.
Proof.
  intros T. rewrite <- (length_fmap fst es). apply submseteq_length, NoDup_submseteq; [apply T|].
  intros u [j Hj]%list_elem_of_lookup. pose proof (lookup_lt_Some _ _ _ Hj) as Hlt.
  destruct T as [Hl Hst' Hc Hprev Hin Hus Hvs Hleft Hright].
  destruct (decide (j = length vs)) as [->|].
  - rewrite Hc in Hj. injection Hj as <-. by apply list_elem_of_fmap_2.
  - destruct (lookup_lt_is_Some_2 vs j) as [v Hv]; [lia|].
    apply (list_elem_of_fmap_2 fst _ (u, v)). by eapply Hleft.
Qed.

(** When the walk returns, it has gone around a closed walk that begins at
    [start], and counted its edges. *)
Lemma cycle_walk_closed {E} fuel start us vs cur r :
  trail start us vs cur ->
  cycle_walk (E := E) fuel (adjacency es).1 (adjacency es).2 start cur (2 * len vs) = Ok r ->
  exists us' vs', closed us' vs' /\ us' !! 0%nat = Some start /\ r = 2 * len us'.
Proof.
  revert us vs cur. induction fuel as [|fuel IH]; intros us vs cur T; simpl; [done|].
  intros (v' & Hv & Hw)%bind_Ok. apply bind_Ok in Hw as (u' & Hu & Hw).
  apply find_other_lower in Hv as [Hv Hnv]; [|rewrite <- surjective_pairing; apply T].
  apply (find_other_upper _ cur.1) in Hu as [Hu Hnu]; [|done].
  case_decide as Hst.
  - injection Hw as <-. subst u'. exists us, (vs ++ [v']).
    split; [by eapply trail_close|]. split; [apply T|].
    unfold len. rewrite (tr_length _ _ _ _ T). lia.
  - apply (IH (us ++ [u']) (vs ++ [v']) (u', v')); [by apply (trail_extend _ _ _ cur)|].
    rewrite <- Hw. f_equal. unfold len. rewrite length_app. simpl. lia.
Qed.

(** With no edge twice, the walk returns. *)
Lemma cycle_walk_returns {E} fuel start us vs cur n :
  NoDup es -> trail start us vs cur -> (length es < fuel + length us)%nat ->
  exists r, cycle_walk (E := E) fuel (adjacency es).1 (adjacency es).2 start cur n = Ok r.
Proof.
  intros Hnd. revert us vs cur n. induction fuel as [|fuel IH]; intros us vs cur n T Hf; simpl.
  { pose proof (trail_bound _ _ _ _ T). lia. }
  pose proof (tr_edge _ _ _ _ T) as Hin. rewrite (surjective_pairing cur) in Hin.
  destruct (Hreg _ _ Hin) as [Hl _]. destruct (adjacency_lookup es cur.1) as [Ha _].
  destruct (find_other_exists (E := E) (adjacency es).1 cur.1 cur.2 (lowers es cur.1)) as [v' Hv'];
    [by rewrite Ha; destruct (lowers es cur.1)|done|by apply NoDup_lowers|].
  destruct (find_other_lower _ _ _ _ Hin Hv') as [Hv Hnv].
  destruct (Hreg _ _ Hv) as [_ Hl']. destruct (adjacency_lookup es v') as [_ Ha'].
  destruct (find_other_exists (E := E) (adjacency es).2 v' cur.1 (uppers es v')) as [u' Hu'];
    [by rewrite Ha'; destruct (uppers es v')|done|by apply NoDup_uppers|].
  destruct (find_other_upper _ _ _ _ Hv Hu') as [Hu Hnu].
  rewrite Hv'. simpl. rewrite Hu'. simpl. case_decide as Hst; [by eexists|].
  apply (IH (us ++ [u']) (vs ++ [v'])); [by apply (trail_extend _ _ _ cur)|].
  rewrite length_app. simpl. lia.
Qed.

Lemma trail_start e : e ∈ es -> trail e.1 [e.1] [] e.
Proof.
  intros He. split; simpl; try done; try apply NoDup_singleton; try constructor.
Qed.

Lemma closed_submseteq us vs : closed us vs -> cycle_edges us vs ⊆+ es.
Proof.
  intros [Hl H2 Hus Hvs Hes]. apply NoDup_submseteq; [by apply NoDup_cycle_edges|done].
Qed.

(** A closed walk over all the edges is the cycle. *)
Lemma closed_single_cycle us vs :
  closed us vs -> (2 * length us)%nat = length es -> single_cycle es.
Proof.
  intros C Hlen. exists us, vs. pose proof (closed_submseteq _ _ C) as Hsub.
  destruct C as [Hl H2 Hus Hvs Hes]. repeat split; try done.
  symmetry. apply submseteq_length_Permutation; [done|]. rewrite length_cycle_edges; lia.
Qed.

(** A closed walk has both neighbours of its nodes. *)
Lemma closed_lower us vs u v : closed us vs -> u ∈ us -> (u, v) ∈ es -> v ∈ vs.
Proof.
  intros [Hl H2 Hus Hvs Hes] [j Hj]%list_elem_of_lookup Huv.
  pose proof (lookup_lt_Some _ _ _ Hj) as Hlt.
  destruct (lookup_lt_is_Some_2 vs j) as [v1 H1]; [lia|].
  set (i := match j with O => Nat.pred (length us) | S i => i end).
  destruct (lookup_lt_is_Some_2 vs i) as [v2 Hv2]; [subst i; destruct j; lia|].
  assert (next_uppers us !! i = Some u) as Hn.
  { rewrite next_uppers_lookup. subst i. destruct j; repeat case_decide; try lia; done. }
  assert (v1 <> v2) as Hne.
  { intros ->. assert (j = i) by (by eapply (NoDup_lookup vs)). subst i. destruct j; lia. }
  destruct (regular_lower u v1 v2 v) as [->| ->]; try done;
    try (by eapply list_elem_of_lookup_2).
  - apply Hes, elem_of_app. left. apply elem_of_zip_iff. by exists j.
  - apply Hes, elem_of_app. right. apply elem_of_zip_iff. by exists i.
Qed.

Lemma closed_upper us vs u v : closed us vs -> v ∈ vs -> (u, v) ∈ es -> u ∈ us.
Proof.
  intros [Hl H2 Hus Hvs Hes] [j Hj]%list_elem_of_lookup Huv.
  pose proof (lookup_lt_Some _ _ _ Hj) as Hlt.
  destruct (lookup_lt_is_Some_2 us j) as [u1 H1]; [lia|].
  destruct (lookup_lt_is_Some_2 (next_uppers us) j) as [u2 Hu2].
  { rewrite (Permutation_length (next_uppers_Permutation us)). lia. }
  assert (u2 ∈ us) by (rewrite <- next_uppers_Permutation; by eapply list_elem_of_lookup_2).
  assert (NoDup (cycle_edges us vs)) as Hnd by (by apply NoDup_cycle_edges).
  assert (u1 <> u2) as Hne.
  { intros ->. unfold cycle_edges in Hnd. apply NoDup_app in Hnd as (_ & Hd & _).
    apply (Hd (u2, v)); apply elem_of_zip_iff; by exists j. }
  destruct (regular_upper v u1 u2 u) as [->| ->]; try done;
    try (by eapply list_elem_of_lookup_2).
  - apply Hes, elem_of_app. left. apply elem_of_zip_iff. by exists j.
  - apply Hes, elem_of_app. right. apply elem_of_zip_iff. by exists j.
Qed.

End walk.

(** What holds at one index of a ring and passes from each to the next holds at
    all. *)
Lemma ring_induction (P : nat -> Prop) k i :
  (i < k)%nat -> P i -> (forall j, (S j < k)%nat -> P j -> P (S j)) ->
  (P (Nat.pred k) -> P 0%nat) -> forall j, (j < k)%nat -> P j.
Proof.
  intros Hi HP Hstep Hwrap.
  assert (forall d a, (a + d < k)%nat -> P a -> P (a + d)%nat) as Hfwd.
  { induction d as [|d IH]; intros a Ha Hpa; [by rewrite Nat.add_0_r|].
    rewrite Nat.add_succ_r. apply Hstep; [lia|]. apply IH; [lia|done]. }
  intros j Hj. apply (Hfwd j 0%nat); [lia|]. apply Hwrap.
  replace (Nat.pred k) with (i + (Nat.pred k - i))%nat by lia. apply Hfwd; [lia|done].
Qed.

(** In a graph that is one cycle, a closed walk covers it. *)
Section covering.
Context (us0 vs0 us vs : list Z).
Let es := cycle_edges us0 vs0.
Context (Hl0 : length us0 = length vs0) (Hreg : two_regular es) (C : closed es us vs).

Lemma covering_meets : exists i u, us0 !! i = Some u /\ u ∈ us.
Proof.
  pose proof (cl_two _ _ _ C). pose proof (cl_length _ _ _ C).
  destruct (lookup_lt_is_Some_2 us 0%nat) as [u Hu]; [lia|].
  destruct (lookup_lt_is_Some_2 vs 0%nat) as [v Hv]; [lia|].
  assert ((u, v) ∈ es) as Huv.
  { apply (cl_edges _ _ _ C), elem_of_app. left. apply elem_of_zip_iff. by exists 0%nat. }
  apply (list_elem_of_fmap_2 fst) in Huv. unfold es in Huv.
  rewrite fst_cycle_edges, next_uppers_Permutation in Huv by done.
  assert (u ∈ us0) as [i Hi]%list_elem_of_lookup by (apply elem_of_app in Huv; tauto).
  exists i, u. split; [done|by eapply list_elem_of_lookup_2].
Qed.

Lemma covering_next j u u' :
  us0 !! j = Some u -> next_uppers us0 !! j = Some u' -> u ∈ us -> u' ∈ us.
Proof.
  intros Hj Hj' Hu. pose proof (lookup_lt_Some _ _ _ Hj).
  destruct (lookup_lt_is_Some_2 vs0 j) as [v Hv]; [lia|].
  apply (closed_upper es Hreg us vs u' v C).
  - apply (closed_lower es Hreg us vs u v C); [done|].
    apply elem_of_app. left. apply elem_of_zip_iff. by exists j.
  - apply elem_of_app. right. apply elem_of_zip_iff. by exists j.
Qed.

Lemma covering_all u : u ∈ us0 -> u ∈ us.
Proof.
  destruct covering_meets as (i & u0 & Hi & Hu0). intros [j Hj]%list_elem_of_lookup.
  pose proof (lookup_lt_Some _ _ _ Hj) as Hlt. revert u Hj. apply (ring_induction (fun j => forall u, us0 !! j = Some u -> u ∈ us) (length us0) i).
  - by eapply lookup_lt_Some.
  - intros u Hu. rewrite Hi in Hu. by injection Hu as <-.
  - intros k Hk IH u Hu. destruct (lookup_lt_is_Some_2 us0 k) as [w Hw]; [lia|].
    apply (covering_next k w u Hw); [|by apply IH]. by rewrite next_uppers_lookup, decide_True.
  - intros IH u Hu. pose proof (lookup_lt_Some _ _ _ Hu).
    destruct (lookup_lt_is_Some_2 us0 (Nat.pred (length us0))) as [w Hw]; [lia|].
    apply (covering_next _ w u Hw); [|by apply IH].
    by rewrite next_uppers_lookup, decide_False, decide_True by lia.
  - done.
Qed.

End covering.

Lemma closed_Permutation es es' us vs : es ≡ₚ es' -> closed es us vs -> closed es' us vs.
Proof. intros Hp [? ? ? ? He]. split; try done. intros e H. rewrite <- Hp. by apply He. Qed.

Lemma single_cycle_closed es us vs :
  single_cycle es -> closed es us vs -> (2 * length us)%nat = length es.
Proof.
  intros Hs C. destruct Hs as (us0 & vs0 & Hl0 & H20 & Hus0 & Hvs0 & Hes).
  apply (closed_Permutation _ _ _ _ Hes) in C.
  assert (two_regular (cycle_edges us0 vs0)) as Hreg.
  { apply single_cycle_two_regular. by exists us0, vs0. }
  pose proof (submseteq_length _ _ (closed_submseteq _ _ _ C)) as Hsub.
  rewrite Hes, !length_cycle_edges in * by first [done|apply C].
  assert (length us0 <= length us)%nat; [|lia].
  apply submseteq_length, NoDup_submseteq; [done|]. intros u. by apply (covering_all us0 vs0 us vs).
Qed.

(** ** [Cuckoo::verify] *)

(** The edges a proof names. *)
Definition proof_edges (blake2b_256 : Bytes -> H256) (self : Cuckoo) (message : Bytes)
    (proof : list Z) : list Edge :=
  map (fun i => edge (message_to_keys blake2b_256 message) i (edge_mask self)) proof.

(** The nonces of a proof: as many as the cycle is long, in strictly increasing
    order and within the graph. *)
Definition valid_nonces (self : Cuckoo) (proof : list Z) : Prop :=
  len proof = cycle_length self /\ StronglySorted Z.lt proof /\
  Forall (fun n => n <= edge_mask self) proof.

Lemma is_monotonous_spec proof : is_monotonous proof = true <-> StronglySorted Z.lt proof.
Proof.
  transitivity (Sorted Z.lt proof).
  - induction proof as [|a [|b l] IH]; [split; by repeat constructor..|].
    unfold is_monotonous in *. simpl in *. rewrite andb_true_iff, IH, bool_decide_eq_true.
    split; [intros [? ?]; constructor; [done|by constructor]|].
    intros H. apply Sorted_inv in H as [H1 H2]. by apply HdRel_inv in H2.
  - split; [apply Sorted_StronglySorted; intros ???; lia|apply StronglySorted_Sorted].
Qed.

Lemma last_bound (proof : list Z) b m :
  StronglySorted Z.lt proof -> proof !! Nat.pred (length proof) = Some b ->
  b <= m <-> Forall (fun n => n <= m) proof.
Proof.
  intros Hs Hb. rewrite <- last_lookup in Hb. destruct (last_Some proof b) as [[l ->] _]; [done|].
  rewrite Forall_app, Forall_singleton. split; [|tauto]. intros Hle. split; [|done].
  apply Forall_forall. intros x Hx.
  assert (x < b); [|lia]. apply (StronglySorted_app_1_elem_of _ l [b]); [done..|]. left.
Qed.

(** The checks of [verify] before the walk. *)
Lemma verify_checks {E} blake2b_256 self message proof :
  0 < cycle_length self ->
  let es := proof_edges blake2b_256 self message proof in
  valid_nonces self proof /\ two_regular es /\
    (exists e, e ∈ es /\
      Cuckoo_verify (E := E) blake2b_256 self message proof =
        (n ← cycle_walk (length proof) (adjacency es).1 (adjacency es).2 e.1 e 0;
         Ok (bool_decide (n = cycle_length self)))) \/
  ~ (valid_nonces self proof /\ two_regular es) /\
    Cuckoo_verify (E := E) blake2b_256 self message proof = Ok false.
Proof.
  intros Hc es. unfold Cuckoo_verify, valid_nonces. case_decide as Hlen; [right; tauto|].
  unfold len in Hlen.
  replace (Z.to_nat (cycle_length self - 1)) with (Nat.pred (length proof)) by lia.
  destruct (lookup_lt_is_Some_2 proof (Nat.pred (length proof))) as [b Hb]; [lia|].
  destruct (lookup_lt_is_Some_2 proof 0%nat) as [a Ha]; [lia|].
  rewrite Hb, Ha. simpl. pose proof (last_bound proof b (edge_mask self)) as Hlast.
  fold (proof_edges blake2b_256 self message proof). fold es.
  pose proof (two_regular_spec es) as Hreg.
  destruct (is_monotonous proof) eqn:Hm.
  2: { right. split; [|by case_decide]. intros ((_ & Hs & _) & _).
       apply is_monotonous_spec in Hs. congruence. }
  apply is_monotonous_spec in Hm. case_decide as Hmask.
  { right. split; [|done]. intros ((_ & _ & Hf) & _). apply Hlast in Hf; [lia|done..]. }
  assert (Forall (fun n => n <= edge_mask self) proof) as Hf by (apply Hlast; [done..|lia]).
  destruct (adjacency es) as [from_upper from_lower]. simpl in *.
  destruct (all_pairs from_upper); simpl;
    [|right; split; [intros [_ Hr]; by destruct (proj2 Hreg Hr)|done]].
  destruct (all_pairs from_lower); simpl;
    [|right; split; [intros [_ Hr]; by destruct (proj2 Hreg Hr)|done]].
  left. split; [exact (conj Hlen (conj Hm Hf))|]. split; [exact (proj1 Hreg (conj eq_refl eq_refl))|].
  exists (edge (message_to_keys blake2b_256 message) a (edge_mask self)). split; [|exact eq_refl].
  apply list_elem_of_fmap. exists a. split; [done|by eapply list_elem_of_lookup_2].
Qed.

Lemma cuckoo_verify_cases {E} blake2b_256 self message proof :
  0 < cycle_length self ->
  let es := proof_edges blake2b_256 self message proof in
  (Cuckoo_verify (E := E) blake2b_256 self message proof = Ok true <->
     valid_nonces self proof /\ single_cycle es) /\
  (NoDup es -> exists b, Cuckoo_verify (E := E) blake2b_256 self message proof = Ok b).
Proof.
  intros Hc es.
  destruct (verify_checks (E := E) blake2b_256 self message proof Hc)
    as [(Hv & Hreg & e & He & Hver)|[Hno Hver]];
    fold es in Hver; [fold es in Hreg, He|fold es in Hno].
  2: { rewrite Hver. split; [|naive_solver]. split; [done|]. intros [Hv Hs].
       destruct Hno. split; [done|by apply single_cycle_two_regular]. }
  assert (length es = length proof) as Hes by apply length_fmap.
  assert (len proof = cycle_length self) as Hl by apply Hv. unfold len in Hl.
  assert (NoDup es -> exists r, cycle_walk (E := E) (length proof) (adjacency es).1
            (adjacency es).2 e.1 e 0 = Ok r) as Hret.
  { intros Hnd. apply (cycle_walk_returns es Hreg _ _ [e.1] []); [done|by apply trail_start|].
    simpl. lia. }
  rewrite Hver. split; [|intros Hnd; destruct (Hret Hnd) as [r ->]; by eexists]. split.
  - intros (r & Hr & Hb)%bind_Ok. injection Hb as Hb%bool_decide_eq_true. split; [done|].
    destruct (cycle_walk_closed es Hreg _ _ _ _ _ _ (trail_start es e He) Hr)
      as (us & vs & C & _ & Hn).
    apply (closed_single_cycle es us vs C). unfold len in Hn. lia.
  - intros [_ Hs]. destruct (Hret (single_cycle_NoDup _ Hs)) as [r Hr].
    destruct (cycle_walk_closed es Hreg _ _ _ _ _ _ (trail_start es e He) Hr)
      as (us & vs & C & _ & Hn).
    rewrite Hr. simpl. f_equal. apply bool_decide_eq_true.
    pose proof (single_cycle_closed _ _ _ Hs C). unfold len in Hn. lia.
Qed.

(** C11. [Cuckoo::verify] accepts a proof exactly when it has as many nonces as
    the cycle is long, strictly increasing and within the graph, and the edges
    they name form one cycle that meets no node twice.  When no two of the
    nonces name the same edge it returns an answer, so its loop ends and none
    of its lookups fails. *)
Theorem cuckoo_verify_exact {E} blake2b_256 self message proof :
  0 < cycle_length self ->
  let es := proof_edges blake2b_256 self message proof in
  (Cuckoo_verify (E := E) blake2b_256 self message proof = Ok true <->
     valid_nonces self proof /\ single_cycle es) /\
  (NoDup es -> exists b, Cuckoo_verify (E := E) blake2b_256 self message proof = Ok b).
Proof. apply cuckoo_verify_cases. Qed.

(** ** Proofs that name an edge twice *)

Lemma pair_twice (es : list Edge) e :
  e ∈ es -> lowers (e :: es) e.1 = [e.2; e.2] \/ (2 < length (lowers (e :: es) e.1))%nat.
Proof.
  intros He. unfold lowers. rewrite filter_cons_True by done. simpl.
  assert (e ∈ filter (fun e' : Edge => e'.1 = e.1) es) as Hin by (by apply list_elem_of_filter).
  destruct (filter _ es) as [|a [|b l]].
  - by apply not_elem_of_nil in Hin.
  - apply list_elem_of_singleton in Hin as <-. by left.
  - right. simpl. lia.
Qed.

Lemma find_other_twice {E} m k x :
  m !! k = Some [x; x] -> find_other (E := E) m k x = Panic.
Proof. intros Hl. unfold find_other. rewrite Hl. simpl. by rewrite !decide_False by tauto. Qed.

(** Two nonces may name the same edge, and then [Cuckoo::verify] does not
    reject the proof but panics: a proof in which another nonce repeats the edge of
    the first one, and which is otherwise well formed with every node on two
    edges, has no other lower node to walk to. *)
Theorem repeated_edge_panics {E} blake2b_256 self message first rest :
  let es := proof_edges blake2b_256 self message (first :: rest) in
  0 < cycle_length self -> valid_nonces self (first :: rest) -> two_regular es ->
  edge (message_to_keys blake2b_256 message) first (edge_mask self) ∈
    proof_edges blake2b_256 self message rest ->
  Cuckoo_verify (E := E) blake2b_256 self message (first :: rest) = Panic.
Proof.
  intros es Hc (Hlen & Hs & Hf) Hreg Hin. unfold Cuckoo_verify. rewrite decide_False by tauto.
  unfold len in Hlen. simpl length in Hlen.
  destruct (lookup_lt_is_Some_2 (first :: rest) (Z.to_nat (cycle_length self - 1))) as [b Hb];
    [simpl; lia|].
  rewrite Hb. simpl expect. rewrite bind_ret_l.
  assert (b <= edge_mask self).
  { rewrite Forall_forall in Hf. apply Hf. by eapply list_elem_of_lookup_2. }
  rewrite decide_False by lia. rewrite (proj2 (is_monotonous_spec _) Hs). simpl negb. cbv iota.
  fold (proof_edges blake2b_256 self message (first :: rest)). fold es.
  destruct (proj2 (two_regular_spec es) Hreg) as [Hup Hlow].
  destruct (adjacency_lookup es (edge (message_to_keys blake2b_256 message) first (edge_mask self)).1)
    as [Hl _].
  assert (exists e, edge (message_to_keys blake2b_256 message) first (edge_mask self) = e /\
    lowers es e.1 = [e.2; e.2]) as (e & He & Htwo).
  { set (e := edge _ first _) in *. exists e. split; [done|].
    change es with (e :: proof_edges blake2b_256 self message rest) in Hreg |- *.
    destruct (pair_twice _ _ Hin) as [?|Hgt]; [done|].
    destruct (Hreg e.1 e.2) as [H2 _]; [rewrite <- surjective_pairing; left|]. lia. }
  rewrite He, Htwo in Hl. clear Htwo Hreg Hin. clearbody es. destruct (adjacency es) as [from_upper from_lower]. cbn [fst snd nonempty] in *.
  rewrite Hup, Hlow. simpl negb. cbv iota. simpl expect. rewrite bind_ret_l, He.
  cbv zeta. simpl length. cbn [cycle_walk]. 
  by rewrite (find_other_twice _ _ _ Hl).
Qed.

(** ** Difficulty *)

(** The target is the even number nearest below [2^256 / difficulty], up to one
    step: the halved dividend loses the low bit of the quotient. *)
Lemma difficulty_to_target_bounds difficulty :
  2 <= difficulty < U256_SIZE ->
  difficulty * difficulty_to_target difficulty <= 2 ^ 256 /\
  2 ^ 256 < difficulty * (difficulty_to_target difficulty + 2) /\
  difficulty_to_target difficulty < U256_SIZE.
Proof.
  intros Hd. unfold difficulty_to_target. rewrite decide_False by lia.
  rewrite Z.shiftl_mul_pow2 by lia. change (2 ^ 1) with 2.
  pose proof (Z.mul_div_le T_NUMBER difficulty ltac:(lia)) as H1.
  pose proof (Z.mul_succ_div_gt T_NUMBER difficulty ltac:(lia)) as H2.
  assert (0 <= T_NUMBER / difficulty) by (apply Z.div_pos; unfold T_NUMBER; lia).
  assert (T_NUMBER / difficulty <= 2 ^ 254) as H4.
  { change (2 ^ 254) with (T_NUMBER / 2). apply Z.div_le_compat_l; unfold T_NUMBER; lia. }
  assert (2 ^ 256 = 2 * T_NUMBER) as -> by reflexivity.
  unfold cast. rewrite Z.mod_small by (change U256_SIZE with (2 ^ 256); lia).
  assert (2 ^ 254 * 2 < U256_SIZE) by reflexivity. nia.
Qed.

(** ** Examples *)

(** The first message of the tests of [cuckoo.rs], by its digest, with the
    proof the test accepts. *)
Definition test_cuckoo : Cuckoo := mkCuckoo 64 63 8.
Definition test_digest (message : Bytes) : H256 :=
  76751349997289991403681453634335941623438669619877440130710017369350859093280.
Definition test_proof : list Z := [1; 12; 23; 27; 31; 48; 50; 60].

Lemma cuckoo_verify_exact_witness :
  valid_nonces test_cuckoo test_proof /\
  single_cycle (proof_edges test_digest test_cuckoo [] test_proof).
Proof.
  refine (proj1 (proj1 (cuckoo_verify_exact (E := unit) test_digest test_cuckoo [] test_proof _)) _).
  - reflexivity.
  - vm_compute. reflexivity.
Defined.

(** A digest under which the nonces 26 and 32 name the same edge. *)
Definition twice_digest (message : Bytes) : H256 :=
  99012568339670768768058471342521552339568261770491387169413908561768589414722.
Definition twice_proof : list Z := [28; 32; 35; 43; 50; 54; 63].

Lemma repeated_edge_panics_witness :
  Cuckoo_verify (E := unit) twice_digest test_cuckoo [] (26 :: twice_proof) = Panic.
Proof.
  apply (repeated_edge_panics twice_digest test_cuckoo [] 26 twice_proof).
  - reflexivity.
  - split; [reflexivity|]. split; [by apply is_monotonous_spec|].
    by repeat (constructor; [vm_compute; discriminate|]).
  - apply two_regular_spec. split; vm_compute; reflexivity.
  - refine (bool_decide_unpack _ _). vm_compute. exact I.
Defined.
