(* ===== verification/CuckooSolve.v ===== *)
(** * The cuckoo solver of the miner

    [miner/src/worker/cuckoo_simple.rs] and the messages of
    [miner/src/worker/mod.rs].  The solver keeps a forest of parent pointers in
    an array, in which 0 stands for no parent; an edge that joins two trees
    links them, one that joins two nodes of a tree closes a cycle.  The fuel of
    [path] is the length of the array, which no path exceeds.  A channel is the
    list of the messages sent and not yet received. *)
From stdpp Require Import sorting.
From S2P Require Import Prelude ByteStrings Blocks HeaderVerify Cuckoo.

Inductive WorkerMessage := Stop | Start | NewWork (pow_hash : H256).

Record CuckooSimple := mkCuckooSimple {
  cs_start : bool;
  cs_pow_hash : option H256;
  cs_cuckoo : Cuckoo;
  cs_seal_tx : list (H256 * Seal);
  cs_worker_rx : list WorkerMessage;
  cs_seal_candidates_found : Z
}.

Definition CuckooSimple_new (cuckoo : Cuckoo) (seal_tx : list (H256 * Seal))
    (worker_rx : list WorkerMessage) : CuckooSimple :=
  mkCuckooSimple true None cuckoo seal_tx worker_rx 0.

(** [WorkerController::send_message], to the channels of the workers. *)
Definition send_message (inner : list (list WorkerMessage)) (message : WorkerMessage)
    : list (list WorkerMessage) :=
  map (fun worker_tx => worker_tx ++ [message]) inner.

Definition poll_worker_message (self : CuckooSimple) : CuckooSimple :=
  match cs_worker_rx self with
  | [] => self
  | msg :: rx =>
      let start := match msg with NewWork _ => cs_start self | Stop => false | Start => true end in
      let pow_hash := match msg with NewWork h => Some h | _ => cs_pow_hash self end in
      mkCuckooSimple start pow_hash (cs_cuckoo self) (cs_seal_tx self) rx
        (cs_seal_candidates_found self)
  end.

(** [graph[i]] and [graph[i] = x]. *)
Definition graph_get {E} (graph : list Z) (i : Z) : outcome E Z :=
  expect (graph !! Z.to_nat i).
Definition graph_set {E} (graph : list Z) (i x : Z) : outcome E (list Z) :=
  _ ← assert (bool_decide (i < len graph));
  Ok (<[Z.to_nat i := x]> graph).

(** The [loop] of [path] from [node], which is on the path already. *)
Fixpoint path_loop {E} (fuel : nat) (graph : list Z) (node : Z) : outcome E (list Z) :=
  match fuel with
  | O => Panic
  | S fuel =>
      node ← graph_get graph node;
      if decide (node <> 0) then p ← path_loop fuel graph node; Ok (node :: p)
      else Ok []
  end.

Definition path {E} (graph : list Z) (start : Z) : outcome E (list Z) :=
  p ← path_loop (length graph) graph start;
  Ok (start :: p).

(** [l.windows(2)]. *)
Definition windows (l : list Z) : list (Z * Z) := zip l (tail l).

(** The two nodes of an edge in the array: upper nodes are even, lower nodes
    odd. *)
Definition graph_edge (hasher : CuckooSip) (cuckoo : Cuckoo) (e : Z) : Edge :=
  let edge := edge hasher (cast U32_SIZE e) (edge_mask cuckoo) in
  (cast U64_SIZE (Z.shiftl edge.1 1), cast U64_SIZE (Z.shiftl edge.2 1) + 1).

(** The number of nodes at the ends of the two paths that are equal. *)
Fixpoint take_while_eq (l1 l2 : list Z) : nat :=
  match l1, l2 with
  | x :: l1, y :: l2 => if decide (x = y) then S (take_while_eq l1 l2) else 0
  | _, _ => 0
  end.

Definition cycle_of (path_u path_v : list Z) (common : nat) (u : Z) : list Edge :=
  windows (take (length path_u - common + 1) path_u ++ drop common (reverse path_v) ++ [u]).

(** The inner [for]: the first edge of the cycle that is [cur_edge], in one
    direction or the other. *)
Definition find_cycle_edge (cycle : list Edge) (cur_edge : Edge) : option nat :=
  fst <$> list_find (fun c => c = cur_edge \/ (c.2, c.1) = cur_edge) cycle.

Definition scan_nonce (hasher : CuckooSip) (cuckoo : Cuckoo) (st : list Z * list Edge) (n : Z)
    : list Z * list Edge :=
  let '(result, cycle) := st in
  match find_cycle_edge cycle (graph_edge hasher cuckoo n) with
  | Some i => (result ++ [cast U32_SIZE n], delete i cycle)
  | None => (result, cycle)
  end.

Definition scan_nonces (hasher : CuckooSip) (cuckoo : Cuckoo) (cycle : list Edge) : list Z :=
  (foldl (scan_nonce hasher cuckoo) ([], cycle) (seqZ 0 (max_edge cuckoo))).1.

(** [LittleEndian::write_u32_into] asserts that the lengths agree. *)
Definition write_u32s {E} (size : Z) (result : list Z) : outcome E Bytes :=
  _ ← assert (bool_decide (size = 4 * len result));
  Ok (concat (map u32_to_le_bytes result)).

(** [for edge in path.windows(2) { graph[edge[1]] = edge[0] }; graph[a] = b]. *)
Definition reroot {E} (graph : list Z) (path : list Z) (a b : Z) : outcome E (list Z) :=
  graph ← try_fold (fun graph edge => graph_set graph edge.2 edge.1) graph (windows path);
  graph_set graph a b.

(** The body of the [for] over the edges: the array and the proofs sent. *)
Definition solve_edge {E} (hasher : CuckooSip) (cuckoo : Cuckoo) (st : list Z * list Bytes) (e : Z)
    : outcome E (list Z * list Bytes) :=
  let '(graph, proofs) := st in
  let '(u, v) := graph_edge hasher cuckoo e in
  if decide (u = 0) then Ok st
  else
    path_u ← path graph u;
    path_v ← path graph v;
    if decide (last path_u <> None /\ last path_u = last path_v) then
      let common := take_while_eq (reverse path_u) (reverse path_v) in
      if decide (Z.of_nat (length path_u - common) + Z.of_nat (length path_v - common) + 1
                 = cycle_length cuckoo) then
        let cycle := cycle_of path_u path_v common u in
        proof ← write_u32s (Z.shiftl (cycle_length cuckoo) 2) (scan_nonces hasher cuckoo cycle);
        Ok (graph, proofs ++ [proof])
      else Ok st
    else if decide (length path_u < length path_v)%nat then
      graph ← reroot graph path_u u v;
      Ok (graph, proofs)
    else
      graph ← reroot graph path_v v u;
      Ok (graph, proofs).

Definition solve {E} (blake2b_256 : Bytes -> H256) (self : CuckooSimple) (pow_hash : H256)
    (nonce : Z) : outcome E CuckooSimple :=
  let cuckoo := cs_cuckoo self in
  let graph := replicate (Z.to_nat (cast U64_SIZE (Z.shiftl (max_edge cuckoo) 1))) 0 in
  let hasher := message_to_keys blake2b_256 (pow_message pow_hash nonce) in
  '(_, proofs) ← try_fold (solve_edge hasher cuckoo) (graph, []) (seqZ 0 (max_edge cuckoo));
  Ok (mkCuckooSimple (cs_start self) (cs_pow_hash self) cuckoo
        (cs_seal_tx self ++ map (fun proof => (pow_hash, mkSeal nonce proof)) proofs)
        (cs_worker_rx self) (cs_seal_candidates_found self + len proofs)).

(** One round of the loop of [run], with the random nonce it draws. *)
Definition CuckooSimple_round {E} (blake2b_256 : Bytes -> H256) (self : CuckooSimple) (nonce : Z)
    : outcome E CuckooSimple :=
  let self := poll_worker_message self in
  if cs_start self then
    match cs_pow_hash self with
    | Some pow_hash => solve blake2b_256 self pow_hash nonce
    | None => Ok self
    end
  else Ok self.

(** ** Paths in a forest of parent pointers *)

Section forest.
Implicit Types (f : Z -> Z) (p q : list Z).

Inductive is_path f : Z -> list Z -> Prop :=
| path_end x : f x = 0 -> is_path f x [x]
| path_step x p : f x <> 0 -> is_path f (f x) p -> is_path f x (x :: p).

Lemma is_path_det f x p q : is_path f x p -> is_path f x q -> p = q.
Proof.
  intros Hp. revert q. induction Hp as [x Hx|x p Hx Hp IH]; intros q Hq; inversion Hq; subst; try done.
  f_equal. by apply IH.
Qed.

Lemma is_path_head f x p : is_path f x p -> exists p', p = x :: p'.
Proof. inversion 1; by eexists. Qed.

Lemma is_path_suffix f x p y q : is_path f x (p ++ y :: q) -> is_path f y (y :: q).
Proof.
  revert x. induction p as [|a p IH]; intros x Hp; simpl in Hp.
  - destruct (is_path_head _ _ _ Hp) as [p' [= -> ->]]. done.
  - inversion Hp as [|? ? ? Hp']; subst; [by destruct p|]. by apply (IH (f a)).
Qed.

Lemma is_path_NoDup f x p : is_path f x p -> NoDup p.
Proof.
  induction 1 as [x Hx|x p Hx Hp IH]; [apply NoDup_singleton|].
  constructor; [|done]. intros (p1 & p2 & ->)%list_elem_of_split.
  pose proof (is_path_suffix _ _ _ _ _ Hp) as Hs.
  assert (is_path f x (x :: p1 ++ x :: p2)) as Hl by (by constructor).
  pose proof (f_equal length (is_path_det _ _ _ _ Hs Hl)) as Hlen.
  simpl in Hlen. rewrite length_app in Hlen. simpl in Hlen. lia.
Qed.

Lemma is_path_windows f x p a b :
  is_path f x p -> (a, b) ∈ windows p -> f a = b /\ b <> 0.
Proof.
  induction 1 as [x Hx|x p Hx Hp IH]; [by intros ?%not_elem_of_nil|].
  destruct (is_path_head _ _ _ Hp) as [p' ->]. unfold windows in *. simpl.
  rewrite elem_of_cons. intros [[= <- ->]|Hin]; [done|]. by apply IH.
Qed.

Lemma is_path_last f x p : is_path f x p -> exists r, last p = Some r /\ f r = 0.
Proof.
  induction 1 as [x Hx|x p Hx Hp (r & Hr & ?)]; [by exists x|].
  exists r. split; [|done]. destruct (is_path_head _ _ _ Hp) as [p' ->]. by rewrite last_cons_cons.
Qed.

Lemma is_path_ext f g x p : is_path f x p -> (forall z, z ∈ p -> g z = f z) -> is_path g x p.
Proof.
  induction 1 as [x Hx|x p Hx Hp IH]; intros Hfg.
  - constructor. by rewrite Hfg by left.
  - assert (g x = f x) as E by (apply Hfg; left).
    constructor; rewrite E; [done|]. apply IH. intros z Hz. apply Hfg. by right.
Qed.

(** Two paths that meet end in the same root. *)
Lemma is_path_meet f x y p q z :
  is_path f x p -> is_path f y q -> z ∈ p -> z ∈ q -> last p = last q.
Proof.
  intros Hp Hq (p1 & p2 & ->)%list_elem_of_split (q1 & q2 & ->)%list_elem_of_split.
  pose proof (is_path_det _ _ _ _ (is_path_suffix _ _ _ _ _ Hp) (is_path_suffix _ _ _ _ _ Hq)) as E.
  rewrite !last_app, E. destruct (last (z :: q2)) eqn:El; [done|]. by apply last_None in El.
Qed.

(** ** Turning a path around *)

Definition upd f (e : Z * Z) : Z -> Z := fun y => if decide (y = e.2) then e.1 else f y.
Definition reroot_fn f p a b : Z -> Z := upd (foldl upd f (windows p)) (b, a).

Lemma foldl_upd_other f l y : (forall e, e ∈ l -> e.2 <> y) -> foldl upd f l y = f y.
Proof.
  revert f. induction l as [|e l IH]; intros f Hl; simpl; [done|].
  rewrite IH by (intros; apply Hl; by right).
  unfold upd. rewrite decide_False; [done|]. intros ->. by apply (Hl e); [left|].
Qed.

Lemma windows_snd p e : e ∈ windows p -> e.2 ∈ tail p.
Proof.
  unfold windows. intros H. destruct e as [a b]. apply elem_of_zip_iff in H as (j & _ & Hj).
  by eapply list_elem_of_lookup_2.
Qed.

Lemma windows_fst p e : e ∈ windows p -> e.1 ∈ p.
Proof.
  unfold windows. intros H. destruct e as [a b]. apply elem_of_zip_iff in H as (j & Hj & _).
  by eapply list_elem_of_lookup_2.
Qed.

Lemma foldl_upd_windows f p x y :
  NoDup p -> (x, y) ∈ windows p -> foldl upd f (windows p) y = x.
Proof.
  revert f. induction p as [|a [|b p] IH]; intros f Hnd; [by intros ?%not_elem_of_nil..|].
  apply NoDup_cons in Hnd as [Ha Hnd].
  change (windows (a :: b :: p)) with ((a, b) :: windows (b :: p)). simpl.
  rewrite elem_of_cons. intros [[= -> ->]|Hin]; [|by apply IH].
  rewrite foldl_upd_other; [unfold upd; by rewrite decide_True|].
  intros e He%windows_snd Heq. simpl in He. rewrite Heq in He. apply NoDup_cons in Hnd. tauto.
Qed.

Lemma reroot_fn_outside f p a b y : y <> a -> y ∉ tail p -> reroot_fn f p a b y = f y.
Proof.
  intros Hy Hp. unfold reroot_fn, upd at 1. simpl. rewrite decide_False by done.
  apply foldl_upd_other. intros e He%windows_snd. set_solver.
Qed.

Lemma reroot_fn_inside f p a b x y :
  NoDup (a :: p) -> (x, y) ∈ windows (a :: p) -> reroot_fn f (a :: p) a b y = x.
Proof.
  intros Hnd Hin. unfold reroot_fn, upd at 1. simpl. rewrite decide_False.
  - by apply foldl_upd_windows.
  - intros ->. apply windows_snd in Hin. apply NoDup_cons in Hnd. tauto.
Qed.

Lemma reroot_fn_start f p a b : reroot_fn f p a b a = b.
Proof. unfold reroot_fn, upd at 1. simpl. by rewrite decide_True. Qed.

(** Every node has a path. *)
Definition is_forest f : Prop := forall x, exists p, is_path f x p.

Section reroot.
Context f p q a b (Hp : is_path f a p) (Hq : is_path f b q).
Context (Hdis : forall z, z ∈ p -> z ∉ q) (Hnz : forall z, z ∈ p -> z <> 0) (Hb : b <> 0).
Let g := reroot_fn f p a b.

Lemma reroot_kept x : x ∉ p -> g x = f x.
Proof.
  intros Hx. destruct (is_path_head _ _ _ Hp) as [p' Hp']. apply reroot_fn_outside.
  - intros ->. apply Hx. rewrite Hp'. left.
  - rewrite Hp' in *. intros H. apply Hx. by right.
Qed.

Lemma reroot_path_b : is_path g b q.
Proof.
  apply (is_path_ext f); [done|]. intros z Hz. apply reroot_kept. intros H. by apply (Hdis z).
Qed.

Lemma reroot_path_p pre y suf :
  p = pre ++ y :: suf -> is_path g y (y :: reverse pre ++ q).
Proof.
  revert y suf. induction pre as [|x pre IH] using rev_ind; intros y suf E.
  - destruct (is_path_head _ _ _ Hp) as [p' Hp']. rewrite E in Hp'. injection Hp' as -> ->.
    constructor; unfold g; rewrite reroot_fn_start; [done|]. apply reroot_path_b.
  - rewrite <- app_assoc in E. simpl in E.
    assert (g y = x) as Hg.
    { destruct (is_path_head _ _ _ Hp) as [p' Hp'].
      pose proof (is_path_NoDup _ _ _ Hp) as Hnd. unfold g. rewrite Hp' in *.
      apply reroot_fn_inside; [done|]. rewrite E. unfold windows. apply elem_of_zip_iff.
      exists (length pre). split; [by apply list_lookup_middle|].
      rewrite lookup_tail. replace (pre ++ x :: y :: suf) with ((pre ++ [x]) ++ y :: suf)
        by (by rewrite <- app_assoc).
      apply list_lookup_middle. rewrite length_app. simpl. lia. }
    rewrite reverse_app. simpl. constructor; rewrite Hg.
    + apply Hnz. rewrite E. set_solver.
    + by apply (IH x (y :: suf)).
Qed.

Lemma reroot_forest : is_forest f -> is_forest g.
Proof.
  intros Hf x. destruct (Hf x) as [r Hr]. induction Hr as [x Hx|x r Hx Hr [r' IH]].
  - destruct (decide (x ∈ p)) as [(pre & suf & E)%list_elem_of_split|Hn].
    + eexists. by eapply reroot_path_p.
    + exists [x]. constructor. by rewrite reroot_kept.
  - destruct (decide (x ∈ p)) as [(pre & suf & E)%list_elem_of_split|Hn].
    + eexists. by eapply reroot_path_p.
    + exists (x :: r'). constructor; rewrite reroot_kept by done; done.
Qed.

End reroot.
End forest.
