(* ===== verification/CuckooSound.v ===== *)
(** * The cuckoo solver finds valid proofs

    The array of the solver holds a forest whose pointers are edges of the
    graph; where two paths of a tree meet, the edge that joins their starts
    closes a cycle, and the nonces of its edges are a proof that
    [Cuckoo::verify] accepts. *)
From stdpp Require Import sorting.
From S2P Require Import Prelude ByteStrings Blocks HeaderVerify Cuckoo CuckooSolve.

#[local] Opaque sip_hash.

(** ** Cycles as lists of nodes *)

(** The node list of the cycle through [us] and [vs], as the array numbers
    them. *)
Definition interleave (us vs : list Z) : list Z :=
  concat (zip_with (fun u v => [2 * u; 2 * v + 1]) us vs).
Definition node_edge (e : Edge) : Edge := (2 * e.1, 2 * e.2 + 1).

(** An edge of a cycle from its upper to its lower node. *)
Definition norm (c : Edge) : Edge := if Z.even c.1 then c else (c.2, c.1).

Lemma even_double x : Z.even (2 * x) = true.
Proof. by rewrite Z.even_mul. Qed.
Lemma even_double_1 x : Z.even (2 * x + 1) = false.
Proof. by rewrite Z.even_add, Z.even_mul. Qed.

Lemma norm_up u v : norm (2 * u, v) = (2 * u, v).
Proof. unfold norm. cbn [fst snd]. by rewrite even_double. Qed.
Lemma norm_down u v : norm (2 * v + 1, u) = (u, 2 * v + 1).
Proof. unfold norm. cbn [fst snd]. by rewrite even_double_1. Qed.

Lemma length_interleave us vs :
  length us = length vs -> length (interleave us vs) = (2 * length us)%nat.
Proof.
  revert vs. induction us as [|u us IH]; intros [|v vs] Hl; simpl in *; try done.
  unfold interleave in IH. rewrite IH by lia. lia.
Qed.

(** The edges around the cycle, which ends in [z] after its last lower node. *)
Lemma windows_interleave us vs z :
  length us = length vs ->
  norm <$> windows (interleave us vs ++ [2 * z]) ≡ₚ
    node_edge <$> (zip us vs ++ zip (tail us ++ [z]) vs).
Proof.
  revert vs. induction us as [|a us IH]; intros [|b vs] Hl; simpl in Hl; try done.
  injection Hl as Hl. specialize (IH vs Hl).
  change (interleave (a :: us) (b :: vs)) with (2 * a :: (2 * b + 1) :: interleave us vs).
  change (zip (a :: us) (b :: vs)) with ((a, b) :: zip us vs).
  destruct us as [|c us], vs as [|d vs]; try done.
  - unfold windows. simpl zip. rewrite !fmap_cons, norm_up, norm_down. done.
  - change (windows ((2 * a :: 2 * b + 1 :: interleave (c :: us) (d :: vs)) ++ [2 * z]))
      with ((2 * a, 2 * b + 1) :: (2 * b + 1, 2 * c) ::
              windows (interleave (c :: us) (d :: vs) ++ [2 * z])).
    change (zip (tail (a :: c :: us) ++ [z]) (b :: d :: vs))
      with ((c, b) :: zip (tail (c :: us) ++ [z]) (d :: vs)).
    rewrite !fmap_cons, norm_up, norm_down, IH, <- app_comm_cons, fmap_cons.
    constructor. rewrite fmap_app, (fmap_app node_edge (zip _ _) (_ :: _)), fmap_cons.
    apply Permutation_middle.
Qed.

Lemma cycle_edges_cons u us vs :
  cycle_edges (u :: us) vs = zip (u :: us) vs ++ zip (tail (u :: us) ++ [u]) vs.
Proof. unfold cycle_edges, next_uppers. simpl. by rewrite take_0. Qed.

Lemma windows_prefix (p q : list Z) a b : (a, b) ∈ windows p -> (a, b) ∈ windows (p ++ q).
Proof.
  intros (j & Ha & Hb)%elem_of_zip_iff. apply elem_of_zip_iff. exists j.
  rewrite lookup_tail in *. split; by apply lookup_app_l_Some.
Qed.

(** A list of nodes that starts at an even one, ends at an odd one and changes
    side at every step. *)
Definition alternates (l : list Z) : Prop :=
  forall a b, (a, b) ∈ windows l -> Z.even b = negb (Z.even a).

Lemma even_half x : Z.even x = true -> x = 2 * (x / 2).
Proof. intros H. apply Z.even_spec in H as [k ->]. rewrite (Z.mul_comm 2 k), Z.div_mul by lia. lia. Qed.
Lemma odd_half x : Z.even x = false -> x = 2 * (x / 2) + 1.
Proof.
  intros H. assert (Z.odd x = true) as [k ->]%Z.odd_spec by (rewrite <- Z.negb_even, H; done).
  rewrite (Z.add_comm (2 * k) 1), (Z.mul_comm 2 k), Z.div_add by lia. change (1 / 2) with 0. lia.
Qed.

Lemma alternates_interleave n l u v :
  (length l <= n)%nat -> alternates l -> head l = Some u -> last l = Some v ->
  Z.even u = true -> Z.even v = false ->
  exists us vs, length us = length vs /\ l = interleave us vs.
Proof.
  revert l u. induction n as [|n IH]; intros l u Hn Ha Hu Hv Heu Hev.
  { destruct l; simpl in *; [done|lia]. }
  destruct l as [|a [|b l]]; [done|..].
  { simpl in *. congruence. }
  injection Hu as ->. assert (Z.even b = false) as Hb.
  { rewrite (Ha u b), Heu; [done|]. left. }
  assert (exists us vs, length us = length vs /\ l = interleave us vs) as (us & vs & Hl & ->).
  { destruct l as [|c l]; [by exists [], []|].
    apply (IH (c :: l) c); simpl in *; try done; [lia|..].
    - intros x y Hxy. apply Ha. unfold windows in *. simpl. by do 2 right.
    - rewrite (Ha b c), Hb; [done|]. unfold windows. simpl. right. left. }
  exists (u / 2 :: us), (b / 2 :: vs). split; [simpl; lia|].
  change (interleave (u / 2 :: us) (b / 2 :: vs))
    with (2 * (u / 2) :: (2 * (b / 2) + 1) :: interleave us vs).
  by rewrite <- even_half, <- odd_half by done.
Qed.

Lemma elem_of_interleave us vs x :
  length us = length vs ->
  (x ∈ us -> 2 * x ∈ interleave us vs) /\ (x ∈ vs -> 2 * x + 1 ∈ interleave us vs).
Proof.
  revert vs. induction us as [|a us IH]; intros [|b vs] Hl; simpl in Hl; rewrite ?elem_of_nil; try done.
  change (interleave (a :: us) (b :: vs)) with (2 * a :: (2 * b + 1) :: interleave us vs).
  rewrite !elem_of_cons. destruct (IH vs) as [H1 H2]; [lia|]. naive_solver.
Qed.

Lemma interleave_NoDup us vs :
  length us = length vs -> NoDup (interleave us vs) -> NoDup us /\ NoDup vs.
Proof.
  revert vs. induction us as [|u us IH]; intros [|v vs] Hl; simpl in Hl; try done.
  change (interleave (u :: us) (v :: vs)) with (2 * u :: (2 * v + 1) :: interleave us vs).
  rewrite !NoDup_cons, elem_of_cons. intros (Hu & Hv & Hnd).
  destruct (IH vs) as [Hus Hvs]; [lia|done|]. injection Hl as Hl.
  destruct (elem_of_interleave us vs u Hl), (elem_of_interleave us vs v Hl). naive_solver.
Qed.

#[export] Instance node_edge_inj : Inj (=) (=) node_edge.
Proof. intros [a b] [c d]. unfold node_edge. simpl. intros [= ? ?]. f_equal; lia. Qed.

Lemma node_edge_Permutation (l k : list Edge) : node_edge <$> l ≡ₚ node_edge <$> k -> l ≡ₚ k.
Proof.
  set (half := fun e : Edge => (e.1 / 2, e.2 / 2)). intros H. apply (Permutation_map half) in H.
  assert (forall l : list Edge, map half (node_edge <$> l) = l) as Hid; [|by rewrite !Hid in H].
  intros m. induction m as [|[a b] m IH]; [done|].
  rewrite fmap_cons, map_cons, IH. f_equal. unfold half, node_edge. cbn [fst snd].
  rewrite (Z.mul_comm 2 a), Z.div_mul by lia.
  by rewrite (Z.add_comm (2 * b) 1), (Z.mul_comm 2 b), Z.div_add by lia.
Qed.

(** ** Where two paths of a tree meet *)

Lemma take_while_eq_spec l1 l2 :
  exists c r1 r2, l1 = c ++ r1 /\ l2 = c ++ r2 /\ length c = take_while_eq l1 l2 /\
    (forall x, head r1 = Some x -> head r2 <> Some x).
Proof.
  revert l2. induction l1 as [|x l1 IH]; intros l2; [by exists [], [], l2|].
  destruct l2 as [|y l2]; [by exists [], (x :: l1), []|]. simpl. case_decide as Hxy.
  - subst y. destruct (IH l2) as (c & r1 & r2 & -> & -> & Hc & Hd).
    exists (x :: c), r1, r2. simpl. repeat split; try done. by rewrite Hc.
  - exists [], (x :: l1), (y :: l2). repeat split; try done. simpl. naive_solver.
Qed.

Section meeting.
Context (f : Z -> Z) (x y : Z) (p q : list Z).
Context (Hp : is_path f x p) (Hq : is_path f y q) (Hlast : last p = last q).

(** The paths up to the node [w] where they meet, and from there on. *)
Lemma paths_meet :
  exists A B w C, p = A ++ w :: C /\ q = B ++ w :: C /\
    S (length C) = take_while_eq (reverse p) (reverse q) /\ NoDup (A ++ reverse (B ++ [w])).
Proof.
  destruct (take_while_eq_spec (reverse p) (reverse q)) as (c & r1 & r2 & E1 & E2 & Hc & Hd).
  apply (f_equal reverse) in E1, E2. rewrite reverse_involutive, reverse_app in E1, E2.
  destruct (reverse c) as [|w C] eqn:Ec.
  { destruct (is_path_last _ _ _ Hp) as (r & Hr & _). pose proof Hr as Hr'. rewrite Hlast in Hr'.
    rewrite E1, app_nil_r in Hr. rewrite E2, app_nil_r in Hr'.
    rewrite <- head_reverse, reverse_involutive in Hr, Hr'. by destruct (Hd r). }
  assert (length c = S (length C)) as Hlc by (rewrite <- length_reverse, Ec; done).
  exists (reverse r1), (reverse r2), w, C. split; [done|]. split; [done|]. split; [lia|].
  pose proof (is_path_NoDup _ _ _ Hp) as Hndp. pose proof (is_path_NoDup _ _ _ Hq) as Hndq.
  rewrite E1 in Hndp. rewrite E2 in Hndq.
  rewrite (reverse_Permutation (reverse r2 ++ [w])).
  apply NoDup_app in Hndp as (HA & HAw & _). apply NoDup_app in Hndq as (HB & HBw & _).
  apply NoDup_app. split; [done|]. split.
  - intros z Hz [Hz'|Hz']%elem_of_app.
    + apply list_elem_of_split in Hz as (a1 & a2 & Ea). apply list_elem_of_split in Hz' as (b1 & b2 & Eb).
      rewrite E1, Ea, <- app_assoc in Hp. rewrite E2, Eb, <- app_assoc in Hq. simpl in Hp, Hq.
      pose proof (is_path_det _ _ _ _ (is_path_suffix _ _ _ _ _ Hp) (is_path_suffix _ _ _ _ _ Hq)) as E.
      injection E as E. apply app_inv_tail in E. subst b2.
      apply (f_equal last) in Ea, Eb. rewrite last_app in Ea, Eb.
      destruct (last (z :: a2)) as [t|] eqn:Et; [|by apply last_None in Et].
      rewrite <- head_reverse, reverse_involutive in Ea, Eb. by destruct (Hd t).
    + apply (HAw z Hz). apply list_elem_of_singleton in Hz' as ->. left.
  - apply NoDup_app. split; [done|]. split; [|apply NoDup_singleton].
    intros z Hz Hw%list_elem_of_singleton. subst z. apply (HBw w Hz). left.
Qed.

End meeting.

(** Sublists of increasing lists. *)
Lemma StronglySorted_seqZ m n : StronglySorted Z.lt (seqZ m n).
Proof.
  remember (Z.to_nat n) as k eqn:Hk. revert m n Hk.
  induction k as [|k IH]; intros m n Hk; [rewrite seqZ_nil by lia; constructor|].
  rewrite seqZ_cons by lia. constructor; [apply IH; lia|].
  apply Forall_forall. intros x Hx%elem_of_seqZ. lia.
Qed.

Lemma StronglySorted_sublist (l k : list Z) :
  StronglySorted Z.lt k -> l `sublist_of` k -> StronglySorted Z.lt l.
Proof.
  intros Hk Hs. induction Hs as [|x l k Hs IH|x l k Hs IH]; [done|..];
    apply StronglySorted_inv in Hk as [Hk Hf]; [|by apply IH].
  constructor; [by apply IH|]. rewrite Forall_forall in *.
  intros y Hy. apply Hf. by eapply elem_of_sublist.
Qed.

(** ** The graph of a message *)

Section solver.
Context (hasher : CuckooSip) (cuckoo : Cuckoo) (bits : Z).
Context (Hbits : 0 <= bits <= 32) (Hmax : max_edge cuckoo = 2 ^ bits)
        (Hmask : edge_mask cuckoo = 2 ^ bits - 1).

Lemma max_edge_bound : 0 < max_edge cuckoo <= U32_SIZE.
Proof.
  rewrite Hmax. split; [apply Z.pow_pos_nonneg; lia|].
  change U32_SIZE with (2 ^ 32). apply Z.pow_le_mono_r; lia.
Qed.

Lemma edge_bound n :
  0 <= (edge hasher n (edge_mask cuckoo)).1 < max_edge cuckoo /\
  0 <= (edge hasher n (edge_mask cuckoo)).2 < max_edge cuckoo.
Proof.
  unfold edge. cbn [fst snd]. rewrite Hmask, Hmax.
  replace (2 ^ bits - 1) with (Z.ones bits) by (rewrite Z.ones_equiv; lia).
  rewrite !Z.land_ones by lia.
  split; apply Z.mod_pos_bound; apply Z.pow_pos_nonneg; lia.
Qed.

Lemma graph_edge_eq n :
  0 <= n < max_edge cuckoo ->
  graph_edge hasher cuckoo n = node_edge (edge hasher n (edge_mask cuckoo)).
Proof.
  intros Hn. pose proof max_edge_bound. unfold graph_edge, node_edge, cast.
  rewrite (Z.mod_small n) by lia. destruct (edge_bound n) as [H1 H2].
  rewrite !Z.shiftl_mul_pow2 by lia. change (2 ^ 1) with 2.
  assert (2 * U32_SIZE < U64_SIZE) by reflexivity.
  rewrite !Z.mod_small by lia. f_equal; lia.
Qed.

Lemma graph_edge_cases n :
  0 <= n < max_edge cuckoo ->
  exists x y, graph_edge hasher cuckoo n = (2 * x, 2 * y + 1) /\
    0 <= x < max_edge cuckoo /\ 0 <= y < max_edge cuckoo.
Proof.
  intros Hn. rewrite graph_edge_eq by done. unfold node_edge.
  destruct (edge_bound n) as [H1 H2]. destruct (edge hasher n _) as [x y]. by exists x, y.
Qed.

(** Two nodes of the array an edge joins. *)
Definition adj (a b : Z) : Prop :=
  a <> 0 /\ b <> 0 /\ exists n, 0 <= n < max_edge cuckoo /\
    (graph_edge hasher cuckoo n = (a, b) \/ graph_edge hasher cuckoo n = (b, a)).

Lemma adj_sym a b : adj a b -> adj b a.
Proof. intros (? & ? & n & ? & ?). split; [done|]. split; [done|]. exists n. tauto. Qed.

Lemma adj_range a b : adj a b -> 0 < a < 2 * max_edge cuckoo /\ 0 < b < 2 * max_edge cuckoo.
Proof.
  intros (Ha & Hb & n & Hn & H). destruct (graph_edge_cases n Hn) as (x & y & E & ? & ?).
  rewrite E in H. destruct H as [[= <- <-]|[= <- <-]]; lia.
Qed.

Lemma adj_parity a b : adj a b -> Z.even b = negb (Z.even a).
Proof.
  intros (Ha & Hb & n & Hn & H). destruct (graph_edge_cases n Hn) as (x & y & E & _).
  rewrite E in H. destruct H as [[= <- <-]|[= <- <-]]; by rewrite even_double, even_double_1.
Qed.

Lemma adj_norm a b :
  adj a b -> exists n, 0 <= n < max_edge cuckoo /\ graph_edge hasher cuckoo n = norm (a, b).
Proof.
  intros (Ha & Hb & n & Hn & H). exists n. split; [done|].
  destruct (graph_edge_cases n Hn) as (x & y & E & _). rewrite E in *.
  destruct H as [[= <- <-]|[= <- <-]]; [by rewrite norm_up|by rewrite norm_down].
Qed.

(** ** Scanning the nonces for the edges of a cycle *)

Lemma find_cycle_edge_norm cycle n i :
  Forall (fun c => Z.even c.2 = negb (Z.even c.1)) cycle -> 0 <= n < max_edge cuckoo ->
  find_cycle_edge cycle (graph_edge hasher cuckoo n) = Some i ->
  exists c, cycle !! i = Some c /\ norm c = graph_edge hasher cuckoo n.
Proof.
  intros Hc Hn. unfold find_cycle_edge. destruct (graph_edge_cases n Hn) as (x & y & E & _). rewrite E.
  destruct (list_find _ _) as [[j c]|] eqn:Hf; simpl; [|done]. intros [= <-].
  apply list_find_Some in Hf as (Hj & H & _). exists c. split; [done|].
  destruct c as [a b]. simpl in H.
  destruct H as [[= -> ->]|[= -> ->]]; [by rewrite norm_up|by rewrite norm_down].
Qed.

Lemma find_cycle_edge_None cycle n :
  0 <= n < max_edge cuckoo -> find_cycle_edge cycle (graph_edge hasher cuckoo n) = None ->
  graph_edge hasher cuckoo n ∉ norm <$> cycle.
Proof.
  intros Hn. unfold find_cycle_edge.
  destruct (list_find _ _) as [[j c]|] eqn:Hf; simpl; [done|]. intros _.
  apply list_find_None in Hf. rewrite list_elem_of_fmap. intros (c & E & Hin).
  rewrite Forall_forall in Hf. apply (Hf c Hin). destruct c as [a b]. unfold norm in E.
  simpl in *. destruct (Z.even a); [left|right]; done.
Qed.

(** After the nonces [ns]: what was found with what is left are the edges of
    the cycle, and none of [ns] names an edge that is left. *)
Record scanned (cycle0 : list Edge) (ns : list Z) (st : list Z * list Edge) : Prop := mkScanned {
  sc_edges : (graph_edge hasher cuckoo <$> st.1) ++ (norm <$> st.2) ≡ₚ norm <$> cycle0;
  sc_left : forall n, n ∈ ns -> graph_edge hasher cuckoo n ∉ norm <$> st.2;
  sc_parity : Forall (fun c => Z.even c.2 = negb (Z.even c.1)) st.2;
  sc_sublist : st.1 `sublist_of` ns
}.

Lemma scan_nonce_scanned cycle0 ns st n :
  NoDup (norm <$> cycle0) -> 0 <= n < max_edge cuckoo ->
  scanned cycle0 ns st -> scanned cycle0 (ns ++ [n]) (scan_nonce hasher cuckoo st n).
Proof.
  intros Hnd Hn [He Hl Hp Hs]. destruct st as [result cycle]. simpl in *.
  destruct (find_cycle_edge cycle (graph_edge hasher cuckoo n)) as [i|] eqn:Hf.
  - destruct (find_cycle_edge_norm _ _ _ Hp Hn Hf) as (c & Hc & Enorm).
    pose proof max_edge_bound.
    assert (cast U32_SIZE n = n) as Hcast by (apply Z.mod_small; lia). rewrite Hcast.
    assert (norm <$> cycle ≡ₚ graph_edge hasher cuckoo n :: (norm <$> delete i cycle)) as Hperm.
    { rewrite <- Enorm, <- fmap_cons. apply Permutation_map.
      by apply delete_Permutation. }
    rewrite Hperm in He.
    split; simpl.
    + rewrite fmap_app. simpl. by rewrite <- app_assoc.
    + rewrite <- He in Hnd. apply NoDup_app in Hnd as (_ & _ & Hnd%NoDup_cons).
      intros m [Hm|Hm]%elem_of_app.
      * intros Hin. apply (Hl m Hm). rewrite Hperm. by right.
      * apply list_elem_of_singleton in Hm as ->. tauto.
    + by apply Forall_delete.
    + by apply sublist_app.
  - split; simpl; try done.
    + intros m [Hm|Hm]%elem_of_app; [by apply Hl|].
      apply list_elem_of_singleton in Hm as ->. by apply find_cycle_edge_None.
    + by apply sublist_inserts_r.
Qed.

Lemma scan_nonces_all cycle0 ns :
  NoDup (norm <$> cycle0) -> Forall (fun n => 0 <= n < max_edge cuckoo) ns ->
  Forall (fun c => Z.even c.2 = negb (Z.even c.1)) cycle0 ->
  scanned cycle0 ns (foldl (scan_nonce hasher cuckoo) ([], cycle0) ns).
Proof.
  intros Hnd Hns Hp. induction ns as [|n ns IH] using rev_ind.
  - split; simpl; try done. intros n. by rewrite elem_of_nil.
  - rewrite Forall_app, Forall_singleton in Hns. destruct Hns as [Hns Hn]. rewrite foldl_app. simpl.
    apply scan_nonce_scanned; [done|exact Hn|by apply IH].
Qed.

(** The nonces found are increasing and name exactly the edges of the cycle. *)
Lemma scan_nonces_spec cycle0 :
  NoDup (norm <$> cycle0) -> (forall c, c ∈ cycle0 -> adj c.1 c.2) ->
  StronglySorted Z.lt (scan_nonces hasher cuckoo cycle0) /\
  Forall (fun n => 0 <= n < max_edge cuckoo) (scan_nonces hasher cuckoo cycle0) /\
  graph_edge hasher cuckoo <$> scan_nonces hasher cuckoo cycle0 ≡ₚ norm <$> cycle0.
Proof.
  intros Hnd Hadj. unfold scan_nonces.
  assert (Forall (fun n => 0 <= n < max_edge cuckoo) (seqZ 0 (max_edge cuckoo))) as Hns.
  { apply Forall_forall. intros n Hn%elem_of_seqZ. lia. }
  destruct (scan_nonces_all cycle0 _ Hnd Hns) as [He Hl _ Hs].
  { apply Forall_forall. intros c Hc. apply adj_parity. by apply Hadj. }
  destruct (foldl _ _ _) as [result rest]. simpl in *.
  split; [|split].
  - by eapply StronglySorted_sublist; [apply StronglySorted_seqZ|].
  - rewrite Forall_forall in *. intros n Hn. apply Hns. by eapply elem_of_sublist.
  - rewrite <- He. destruct rest as [|c rest]; [by rewrite app_nil_r|].
    exfalso. assert (norm c ∈ norm <$> cycle0) as Hc.
    { rewrite <- He. apply elem_of_app. right. left. }
    apply list_elem_of_fmap in Hc as (c' & E & Hc'). destruct (adj_norm _ _ (Hadj _ Hc')) as (n & Hn & En).
    rewrite <- surjective_pairing in En. apply (Hl n); [by apply elem_of_seqZ; lia|].
    rewrite En, <- E. left.
Qed.

(** ** A closed path is a valid proof *)

(** The nodes of a cycle, [u] first. *)
Lemma loop_proof (nodes : list Z) u v :
  NoDup nodes -> head nodes = Some u -> last nodes = Some v -> (3 <= length nodes)%nat ->
  Z.even u = true -> Z.even v = false ->
  (forall a b, (a, b) ∈ windows (nodes ++ [u]) -> adj a b) ->
  let result := scan_nonces hasher cuckoo (windows (nodes ++ [u])) in
  StronglySorted Z.lt result /\ Forall (fun n => 0 <= n < max_edge cuckoo) result /\
  length result = length nodes /\
  single_cycle (map (fun n => edge hasher n (edge_mask cuckoo)) result).
Proof.
  intros Hnd Hu Hv H3 Heu Hev Hadj result.
  destruct (alternates_interleave (length nodes) nodes u v) as (us & vs & Hl & Hnodes); try done.
  { intros a b Hab. apply adj_parity, Hadj.
    by apply windows_prefix. }
  assert (length nodes = 2 * length us)%nat as Hlen by (rewrite Hnodes; by apply length_interleave).
  destruct us as [|u0 us]; [simpl in *; lia|].
  assert (u = 2 * u0) as Eu.
  { rewrite Hnodes in Hu. destruct vs; [done|]. simpl in Hu. congruence. }
  assert (NoDup (u0 :: us) /\ NoDup vs) as [Hus Hvs] by (rewrite Hnodes in Hnd; by apply interleave_NoDup).
  assert (norm <$> windows (nodes ++ [u]) ≡ₚ node_edge <$> cycle_edges (u0 :: us) vs) as Hperm.
  { rewrite cycle_edges_cons, Hnodes, Eu. by apply windows_interleave. }
  assert (NoDup (cycle_edges (u0 :: us) vs)) as Hce by (apply NoDup_cycle_edges; try done; lia).
  destruct (scan_nonces_spec (windows (nodes ++ [u]))) as (Hs & Hr & Hedges).
  { rewrite Hperm. by apply NoDup_fmap_2; [apply node_edge_inj|]. }
  { intros [a b] Hc. by apply Hadj. }
  fold result in Hs, Hr, Hedges. split; [done|]. split; [done|].
  assert (map (fun n => edge hasher n (edge_mask cuckoo)) result ≡ₚ cycle_edges (u0 :: us) vs) as Hes.
  { apply (node_edge_Permutation). rewrite <- Hperm, <- Hedges.
    enough (node_edge <$> map (fun n => edge hasher n (edge_mask cuckoo)) result
            = graph_edge hasher cuckoo <$> result) as -> by done.
    clear -Hr Hbits Hmax Hmask. induction Hr as [|n l Hn Hl IH]; [done|].
    simpl map. rewrite !fmap_cons, IH, graph_edge_eq by done. done. }
  split.
  - apply Permutation_length in Hes. rewrite length_map, length_cycle_edges in Hes by done. lia.
  - exists (u0 :: us), vs. repeat split; try done. lia.
Qed.

(** ** The array *)

Definition par (graph : list Z) (x : Z) : Z := default 0 (graph !! Z.to_nat x).

Record good_array (graph : list Z) : Prop := mkGoodArray {
  ga_length : len graph = 2 * max_edge cuckoo;
  ga_edges : forall x, par graph x <> 0 -> adj x (par graph x);
  ga_forest : is_forest (par graph)
}.

Definition is_node (x : Z) : Prop := 0 < x < 2 * max_edge cuckoo.

Lemma path_nodes graph x p :
  good_array graph -> is_node x -> is_path (par graph) x p -> Forall is_node p.
Proof.
  intros G Hx Hp. revert Hx. induction Hp as [x Hpx|x p Hpx Hp IH]; intros Hx.
  - by constructor.
  - constructor; [done|]. apply IH. by apply (adj_range x), (ga_edges _ G).
Qed.

Lemma graph_get_node {E} graph x :
  good_array graph -> is_node x -> graph_get (E := E) graph x = Ok (par graph x).
Proof.
  intros G Hx. unfold graph_get, par. pose proof (ga_length _ G) as Hl. unfold len in Hl.
  destruct (lookup_lt_is_Some_2 graph (Z.to_nat x)) as [y ->]; [unfold is_node in Hx; lia|done].
Qed.

Lemma path_loop_Ok {E} graph x p fuel :
  good_array graph -> is_node x -> is_path (par graph) x p -> (length p <= fuel)%nat ->
  path_loop (E := E) fuel graph x = Ok (tail p).
Proof.
  intros G Hx Hp. revert fuel Hx. induction Hp as [x Hpx|x p Hpx Hp IH]; intros [|fuel] Hx Hf;
    simpl in Hf; try lia; simpl; rewrite graph_get_node by done; simpl.
  - by rewrite decide_False by tauto.
  - rewrite decide_True by done. rewrite IH; [|by apply (adj_range x), (ga_edges _ G)|lia].
    simpl. destruct (is_path_head _ _ _ Hp) as [p' ->]. done.
Qed.

Lemma path_bound graph x p :
  good_array graph -> is_node x -> is_path (par graph) x p -> (length p <= length graph)%nat.
Proof.
  intros G Hx Hp. pose proof (path_nodes _ _ _ G Hx Hp) as Hn.
  pose proof (ga_length _ G) as Hl. unfold len in Hl.
  transitivity (length (seqZ 0 (2 * max_edge cuckoo))); [|rewrite length_seqZ; lia].
  apply submseteq_length, NoDup_submseteq; [by eapply is_path_NoDup|].
  intros y Hy. rewrite Forall_forall in Hn. apply elem_of_seqZ. specialize (Hn y Hy).
  unfold is_node in Hn. lia.
Qed.

(** [path] finds the path to the root. *)
Lemma path_Ok {E} graph x :
  good_array graph -> is_node x ->
  exists p, path (E := E) graph x = Ok p /\ is_path (par graph) x p.
Proof.
  intros G Hx. destruct (ga_forest _ G x) as [p Hp]. exists p. split; [|done].
  unfold path. rewrite (path_loop_Ok graph x p) by (eauto using path_bound). simpl.
  by destruct (is_path_head _ _ _ Hp) as [p' ->].
Qed.

(** Writing to the array. *)
Lemma par_insert graph i x y :
  0 < i -> i < len graph -> par (<[Z.to_nat i := x]> graph) y = upd (par graph) (x, i) y.
Proof.
  intros Hi Hl. unfold par, upd, len in *. simpl. case_decide as Hy.
  - subst y. rewrite list_lookup_insert_eq by lia. done.
  - destruct (decide (Z.to_nat i = Z.to_nat y)) as [E|Hne]; [lia|].
    by rewrite list_lookup_insert_ne.
Qed.

Lemma graph_set_Ok {E} graph i x :
  is_node i -> len graph = 2 * max_edge cuckoo ->
  exists graph', graph_set (E := E) graph i x = Ok graph' /\
    len graph' = len graph /\ forall y, par graph' y = upd (par graph) (x, i) y.
Proof.
  intros Hi Hl. unfold graph_set, is_node in *. rewrite bool_decide_eq_true_2 by lia.
  eexists. split; [done|]. split; [unfold len; by rewrite length_insert|].
  intros y. apply par_insert; lia.
Qed.

Lemma upd_ext f g e : (forall y, f y = g y) -> forall y, upd f e y = upd g e y.
Proof. intros H y. unfold upd. by rewrite H. Qed.

Lemma foldl_upd_ext f g l : (forall y, f y = g y) -> forall y, foldl upd f l y = foldl upd g l y.
Proof.
  revert f g. induction l as [|e l IH]; intros f g H; simpl; [done|]. apply IH. by apply upd_ext.
Qed.

Lemma set_windows_Ok {E} l graph :
  Forall (fun e => is_node e.2) l -> len graph = 2 * max_edge cuckoo ->
  exists graph', try_fold (E := E) (fun graph edge => graph_set graph edge.2 edge.1) graph l
      = Ok graph' /\ len graph' = len graph /\ forall y, par graph' y = foldl upd (par graph) l y.
Proof.
  intros Hl. revert graph. induction Hl as [|e l He Hl IH]; intros graph Hlen; simpl; [by eexists|].
  destruct (graph_set_Ok (E := E) graph e.2 e.1 He Hlen) as (graph1 & -> & Hl1 & Hp1). simpl.
  destruct (IH graph1) as (graph2 & -> & Hl2 & Hp2); [congruence|].
  exists graph2. split; [done|]. split; [congruence|]. intros y. rewrite Hp2.
  apply foldl_upd_ext. intros z. rewrite Hp1. by destruct e.
Qed.

Lemma elem_of_windows p b : b ∈ tail p -> exists a, (a, b) ∈ windows p.
Proof.
  intros [j Hj]%list_elem_of_lookup. pose proof Hj as Hj'. rewrite lookup_tail in Hj'.
  pose proof (lookup_lt_Some _ _ _ Hj'). destruct (lookup_lt_is_Some_2 p j) as [a Ha]; [lia|].
  exists a. apply elem_of_zip_iff. by exists j.
Qed.

(** Joining two trees. *)
Lemma reroot_good {E} graph a b p q :
  good_array graph -> adj a b -> is_path (par graph) a p -> is_path (par graph) b q ->
  last p <> last q ->
  exists graph', reroot (E := E) graph p a b = Ok graph' /\ good_array graph'.
Proof.
  intros G Hab Hp Hq Hroots. destruct (adj_range _ _ Hab) as [Ha Hb].
  pose proof (path_nodes _ _ _ G Ha Hp) as Hn. rewrite Forall_forall in Hn.
  destruct (is_path_head _ _ _ Hp) as [p' Hp']. pose proof (is_path_NoDup _ _ _ Hp) as Hnd.
  destruct (set_windows_Ok (E := E) (windows p) graph) as (graph1 & E1 & Hl1 & Hp1).
  { apply Forall_forall. intros e He%windows_snd. apply Hn. rewrite Hp' in *. by right. }
  { apply G. }
  destruct (graph_set_Ok (E := E) graph1 a b) as (graph2 & E2 & Hl2 & Hp2);
    [done|rewrite Hl1; apply G|].
  exists graph2. unfold reroot. rewrite E1. simpl. split; [done|].
  assert (forall y, par graph2 y = reroot_fn (par graph) p a b y) as Hpar.
  { intros y. rewrite Hp2. unfold reroot_fn. by apply upd_ext. }
  split.
  - rewrite Hl2, Hl1. apply G.
  - intros x. rewrite Hpar. destruct (decide (x = a)) as [->|Hxa]; [by rewrite reroot_fn_start|].
    destruct (decide (x ∈ tail p)) as [Hx|Hx].
    + destruct (elem_of_windows _ _ Hx) as [w Hw]. intros _.
      destruct (is_path_windows _ _ _ _ _ Hp Hw) as [Hfw Hx0]. subst p.
      rewrite (reroot_fn_inside _ _ _ _ w) by done.
      apply adj_sym. rewrite <- Hfw in *. by apply (ga_edges _ G).
    + rewrite reroot_fn_outside by done. apply (ga_edges _ G).
  - assert (is_forest (reroot_fn (par graph) p a b)) as Hf.
    { apply (reroot_forest (par graph) p q a b); try done; [| |lia|apply G].
      - intros z Hz Hz'. apply Hroots. by eapply is_path_meet.
      - intros z Hz. specialize (Hn z Hz). unfold is_node in Hn. lia. }
    intros x. destruct (Hf x) as [r Hr]. exists r. by eapply is_path_ext.
Qed.

(** What the solver sends. *)
Definition good_proof (proof : Bytes) : Prop :=
  exists result, proof = concat (map u32_to_le_bytes result) /\
    StronglySorted Z.lt result /\ Forall (fun n => 0 <= n < max_edge cuckoo) result /\
    len result = cycle_length cuckoo /\
    single_cycle (map (fun n => edge hasher n (edge_mask cuckoo)) result).

Lemma windows_app_elem (p : list Z) x q a b :
  (a, b) ∈ windows (p ++ x :: q) -> (a, b) ∈ windows (p ++ [x]) \/ (a, b) ∈ windows (x :: q).
Proof.
  intros (j & Ha & Hb)%elem_of_zip_iff. rewrite lookup_tail in Hb.
  destruct (decide (S j <= length p)%nat) as [Hj|Hj].
  - left. apply elem_of_zip_iff. exists j. rewrite lookup_tail.
    rewrite lookup_app_l in Ha by lia. split; [by apply lookup_app_l_Some|].
    destruct (decide (S j = length p)) as [E|].
    + rewrite E, list_lookup_middle in * by done. done.
    + rewrite lookup_app_l in Hb by lia. by apply lookup_app_l_Some.
  - right. apply elem_of_zip_iff. exists (j - length p)%nat. rewrite lookup_tail.
    rewrite lookup_app_r in Ha, Hb by lia. split; [done|].
    rewrite <- Hb. f_equal. lia.
Qed.

Lemma windows_reverse p a b : (a, b) ∈ windows (reverse p) -> (b, a) ∈ windows p.
Proof.
  intros (j & Ha & Hb)%elem_of_zip_iff. rewrite lookup_tail in Hb.
  apply reverse_lookup_Some in Ha as [Ha Hj]. apply reverse_lookup_Some in Hb as [Hb Hj'].
  apply elem_of_zip_iff. exists (length p - S (S j))%nat. rewrite lookup_tail. split; [done|].
  rewrite <- Ha. f_equal. lia.
Qed.

(** The edges of a path are edges of the graph. *)
Lemma path_windows_adj graph x p a b :
  good_array graph -> is_path (par graph) x p -> (a, b) ∈ windows p -> adj a b.
Proof.
  intros G Hp Hab. destruct (is_path_windows _ _ _ _ _ Hp Hab) as [<- Hb]. by apply (ga_edges _ G).
Qed.

(** The edge that closes a cycle. *)
Lemma closing_edge graph u v p q :
  good_array graph -> adj v u -> is_path (par graph) u p -> is_path (par graph) v q ->
  last p = last q ->
  let common := take_while_eq (reverse p) (reverse q) in
  exists nodes, cycle_of p q common u = windows (nodes ++ [u]) /\ NoDup nodes /\
    head nodes = Some u /\ last nodes = Some v /\
    length nodes = (length p - common + (length q - common) + 1)%nat /\
    (forall a b, (a, b) ∈ windows (nodes ++ [u]) -> adj a b).
Proof.
  intros G Hvu Hp Hq Hlast common.
  destruct (paths_meet _ _ _ _ _ Hp Hq Hlast) as (A & B & w & C & Ep & Eq & Hc & Hnd).
  fold common in Hc. destruct (is_path_head _ _ _ Hp) as [p' Hp'], (is_path_head _ _ _ Hq) as [q' Hq'].
  assert (head (A ++ [w]) = Some u) as HA.
  { rewrite Hp' in Ep. by destruct A; injection Ep as -> _. }
  assert (head (B ++ [w]) = Some v) as HB.
  { rewrite Hq' in Eq. by destruct B; injection Eq as -> _. }
  exists (A ++ reverse (B ++ [w])). split.
  { unfold cycle_of. f_equal. rewrite reverse_snoc, Ep, Eq, reverse_app, reverse_cons.
    rewrite length_app. simpl length. rewrite <- Hc.
    replace (length A + S (length C) - S (length C) + 1)%nat with (length A + 1)%nat by lia.
    replace (A ++ w :: C) with ((A ++ [w]) ++ C) by (by rewrite <- app_assoc).
    rewrite take_app_length' by (rewrite length_app; done).
    rewrite drop_app_length' by (rewrite length_app, length_reverse; simpl; lia).
    by rewrite <- !app_assoc. }
  split; [done|]. split; [|split; [|split]].
  - rewrite reverse_snoc. by destruct A.
  - rewrite last_app, last_reverse, HB. done.
  - rewrite Ep, Eq, !length_app, length_reverse, length_app. simpl. lia.
  - intros a b. rewrite reverse_snoc, <- app_assoc. simpl.
    intros [Hab|Hab]%windows_app_elem.
    { apply (path_windows_adj graph u p _ _ G Hp). rewrite Ep.
      replace (A ++ w :: C) with ((A ++ [w]) ++ C) by (by rewrite <- app_assoc).
      by apply windows_prefix. }
    change (w :: reverse B ++ [u]) with ((w :: reverse B) ++ [u]) in Hab.
    rewrite <- reverse_snoc in Hab. destruct (B ++ [w]) as [|v' B'] eqn:EB; [by destruct B|].
    injection HB as ->. rewrite reverse_cons, <- app_assoc in Hab. simpl in Hab.
    apply windows_app_elem in Hab as [Hab|Hab].
    + rewrite <- reverse_cons, <- EB in Hab. apply windows_reverse in Hab. apply adj_sym.
      apply (path_windows_adj graph v q _ _ G Hq). rewrite Eq.
      replace (B ++ w :: C) with ((B ++ [w]) ++ C) by (by rewrite <- app_assoc).
      by apply windows_prefix.
    + unfold windows in Hab. simpl in Hab. apply list_elem_of_singleton in Hab.
      by injection Hab as -> ->.
Qed.

Lemma close_cycle {E} graph proofs u v p q :
  good_array graph -> adj v u -> Z.even u = true -> Z.even v = false -> 3 <= cycle_length cuckoo ->
  is_path (par graph) u p -> is_path (par graph) v q -> last p = last q ->
  let common := take_while_eq (reverse p) (reverse q) in
  Z.of_nat (length p - common) + Z.of_nat (length q - common) + 1 = cycle_length cuckoo ->
  exists proof, good_proof proof /\
    (proof ← write_u32s (E := E) (Z.shiftl (cycle_length cuckoo) 2)
               (scan_nonces hasher cuckoo (cycle_of p q common u));
     Ok (graph, proofs ++ [proof])) = Ok (graph, proofs ++ [proof]).
Proof.
  intros G Hvu Heu Hev H3 Hp Hq Hlast common Hlen.
  destruct (closing_edge graph u v p q G Hvu Hp Hq Hlast)
    as (nodes & Ec & Hnd & Hu & Hv & Hl & Hadj).
  fold common in Ec, Hl. rewrite Ec.
  destruct (loop_proof nodes u v) as (Hs & Hr & Hlr & Hc); try done; [lia|].
  set (result := scan_nonces _ _ _) in *.
  exists (concat (map u32_to_le_bytes result)). split.
  - exists result. repeat split; try done. unfold len. lia.
  - unfold write_u32s. rewrite bool_decide_eq_true_2; [done|].
    rewrite Z.shiftl_mul_pow2 by lia. change (2 ^ 2) with 4. unfold len. lia.
Qed.

Lemma solve_edge_good {E} graph proofs e :
  good_array graph -> 0 <= e < max_edge cuckoo -> 3 <= cycle_length cuckoo ->
  Forall good_proof proofs ->
  exists graph' proofs', solve_edge (E := E) hasher cuckoo (graph, proofs) e = Ok (graph', proofs') /\
    good_array graph' /\ Forall good_proof proofs'.
Proof.
  intros G He H3 Hps. unfold solve_edge.
  destruct (graph_edge_cases e He) as (x & y & Ee & Hx & Hy). rewrite Ee.
  case_decide as Hu0; [by exists graph, proofs|].
  assert (adj (2 * x) (2 * y + 1)) as Huv.
  { split; [done|]. split; [lia|]. exists e. tauto. }
  destruct (adj_range _ _ Huv) as [Hu Hv].
  destruct (path_Ok (E := E) graph (2 * x) G Hu) as (p & -> & Hp).
  destruct (path_Ok (E := E) graph (2 * y + 1) G Hv) as (q & -> & Hq).
  rewrite !bind_ret_l. case_decide as Hlast.
  - case_decide as Hlen; [|by exists graph, proofs].
    destruct (close_cycle (E := E) graph proofs (2 * x) (2 * y + 1) p q) as (proof & Hgood & ->);
      try done; [by apply adj_sym|apply even_double|apply even_double_1|apply Hlast|].
    exists graph, (proofs ++ [proof]). split; [done|]. split; [done|].
    apply Forall_app. split; [done|by constructor].
  - assert (last p <> last q) as Hne.
    { intros E'. apply Hlast. split; [|done]. destruct (is_path_last _ _ _ Hp) as (r & -> & _). done. }
    case_decide.
    + destruct (reroot_good (E := E) graph (2 * x) (2 * y + 1) p q G Huv Hp Hq Hne)
        as (graph' & -> & G'). by exists graph', proofs.
    + destruct (reroot_good (E := E) graph (2 * y + 1) (2 * x) q p G (adj_sym _ _ Huv) Hq Hp)
        as (graph' & -> & G'); [congruence|]. by exists graph', proofs.
Qed.

Lemma solve_edges_good {E} es graph proofs :
  Forall (fun e => 0 <= e < max_edge cuckoo) es -> 3 <= cycle_length cuckoo ->
  good_array graph -> Forall good_proof proofs ->
  exists graph' proofs', try_fold (solve_edge (E := E) hasher cuckoo) (graph, proofs) es
      = Ok (graph', proofs') /\ Forall good_proof proofs'.
Proof.
  intros Hes H3. revert graph proofs. induction Hes as [|e es He Hes IH]; intros graph proofs G Hps.
  - by exists graph, proofs.
  - cbn [try_fold].
    destruct (solve_edge_good (E := E) graph proofs e) as (graph1 & proofs1 & -> & G1 & Hps1); try done.
    rewrite bind_ret_l. by apply IH.
Qed.

Lemma good_array_empty : good_array (replicate (Z.to_nat (2 * max_edge cuckoo)) 0).
Proof.
  assert (forall x, par (replicate (Z.to_nat (2 * max_edge cuckoo)) 0) x = 0) as Hz.
  { intros x. unfold par. destruct (replicate _ 0 !! Z.to_nat x) as [z|] eqn:Ez; [|done].
    by apply lookup_replicate in Ez as [-> _]. }
  pose proof max_edge_bound. split.
  - unfold len. rewrite length_replicate. lia.
  - intros x. by rewrite Hz.
  - intros x. exists [x]. by constructor.
Qed.

End solver.

(** ** The proof on the wire *)

Lemma read_write_u32s result :
  Forall (fun n => 0 <= n < U32_SIZE) result ->
  read_u32s (length result) (concat (map u32_to_le_bytes result)) = result.
Proof.
  induction 1 as [|n l Hn Hl IH]; [done|]. cbn [length map concat read_u32s].
  assert (length (u32_to_le_bytes n) = 4%nat) as H4 by apply length_le_split.
  rewrite take_app_length', drop_app_length' by done. rewrite IH. f_equal.
  apply le_combine_split_range. exact Hn.
Qed.

Lemma length_write_u32s result :
  length (concat (map u32_to_le_bytes result)) = (4 * length result)%nat.
Proof.
  induction result as [|n l IH]; [done|]. cbn [length map concat].
  rewrite length_app, IH. unfold u32_to_le_bytes. rewrite length_le_split. lia.
Qed.

Lemma good_proof_verifies {E} blake2b_256 cuckoo bits message proof :
  0 <= bits <= 32 -> max_edge cuckoo = 2 ^ bits -> edge_mask cuckoo = 2 ^ bits - 1 ->
  3 <= cycle_length cuckoo ->
  good_proof (message_to_keys blake2b_256 message) cuckoo proof ->
  CuckooEngine_verify (E := E) blake2b_256 cuckoo message proof = Ok true.
Proof.
  intros Hbits Hmax Hmask H3 (result & -> & Hs & Hr & Hl & Hc). unfold CuckooEngine_verify.
  rewrite decide_False; cycle 1.
  { intros H. apply H. unfold len in *. rewrite length_write_u32s, Z.shiftl_mul_pow2 by lia.
    change (2 ^ 2) with 4. lia. }
  replace (Z.to_nat (cycle_length cuckoo)) with (length result) by (unfold len in Hl; lia).
  pose proof (max_edge_bound cuckoo bits Hbits Hmax).
  rewrite read_write_u32s by (eapply Forall_impl; [exact Hr|]; simpl; lia).
  apply (cuckoo_verify_cases (E := E)); [lia|]. split; [|done]. split; [done|]. split; [done|].
  eapply Forall_impl; [exact Hr|]. simpl. lia.
Qed.

Lemma solve_found {E} blake2b_256 self edge_bits pow_hash nonce :
  0 <= edge_bits <= 32 ->
  Cuckoo_new (E := E) edge_bits (cycle_length (cs_cuckoo self)) = Ok (cs_cuckoo self) ->
  3 <= cycle_length (cs_cuckoo self) ->
  exists self' found, solve (E := E) blake2b_256 self pow_hash nonce = Ok self' /\
    cs_seal_tx self' = cs_seal_tx self ++ found /\
    Forall (fun '(hash, seal) =>
      hash = pow_hash /\ seal_nonce seal = nonce /\
      CuckooEngine_verify (E := E) blake2b_256 (cs_cuckoo self) (pow_message pow_hash nonce)
        (seal_proof seal) = Ok true) found.
Proof.
  intros Hbits Hnew H3. unfold Cuckoo_new in Hnew. rewrite !bool_decide_eq_true_2 in Hnew by lia.
  simpl in Hnew. rewrite Z.shiftl_1_l in Hnew. injection Hnew as Hnew.
  assert (max_edge (cs_cuckoo self) = 2 ^ edge_bits) as Hmax by (by rewrite <- Hnew).
  assert (edge_mask (cs_cuckoo self) = 2 ^ edge_bits - 1) as Hmask by (by rewrite <- Hnew).
  clear Hnew. pose proof (max_edge_bound _ _ Hbits Hmax) as Hb. unfold solve.
  assert (cast U64_SIZE (Z.shiftl (max_edge (cs_cuckoo self)) 1) = 2 * max_edge (cs_cuckoo self)) as ->.
  { rewrite Z.shiftl_mul_pow2 by lia. change (2 ^ 1) with 2. unfold cast.
    assert (2 * U32_SIZE < U64_SIZE) by reflexivity. rewrite Z.mod_small; lia. }
  set (hasher := message_to_keys _ _).
  destruct (solve_edges_good hasher (cs_cuckoo self) edge_bits Hbits Hmax Hmask (E := E)
    (seqZ 0 (max_edge (cs_cuckoo self)))
    (replicate (Z.to_nat (2 * max_edge (cs_cuckoo self))) 0) []) as (graph & proofs & -> & Hps); try done.
  { apply Forall_forall. intros n Hn%elem_of_seqZ. lia. }
  { by apply (good_array_empty hasher _ edge_bits). }
  rewrite bind_ret_l. do 2 eexists. split; [done|]. split; [done|].
  apply Forall_map. eapply Forall_impl; [exact Hps|]. intros proof Hproof. simpl.
  split; [done|]. split; [done|]. by apply (good_proof_verifies (E := E) _ _ edge_bits).
Qed.

(** C10. The solver is sound and does not fail: on every message, for a graph of
    at most [2^32] edges and a cycle length of at least three, [solve] returns, and
    every seal it sends carries the nonce it worked on and a proof that
    [CuckooEngine::verify] accepts for that message. *)
Theorem solver_sound {E} blake2b_256 self edge_bits pow_hash nonce :
  0 <= edge_bits <= 32 ->
  Cuckoo_new (E := E) edge_bits (cycle_length (cs_cuckoo self)) = Ok (cs_cuckoo self) ->
  3 <= cycle_length (cs_cuckoo self) ->
  exists self' found, solve (E := E) blake2b_256 self pow_hash nonce = Ok self' /\
    cs_seal_tx self' = cs_seal_tx self ++ found /\
    Forall (fun '(hash, seal) =>
      hash = pow_hash /\ seal_nonce seal = nonce /\
      CuckooEngine_verify (E := E) blake2b_256 (cs_cuckoo self) (pow_message pow_hash nonce)
        (seal_proof seal) = Ok true) found.
Proof. apply solve_found. Qed.

(** The seals found on the message of the tests. *)
Lemma solver_sound_witness :
  exists self' found,
    solve (E := unit) test_digest (CuckooSimple_new test_cuckoo [] []) 5 6 = Ok self' /\
    cs_seal_tx self' = found /\
    map (fun s => read_u32s 8 (seal_proof s.2)) found = [test_proof] /\
    Forall (fun '(hash, seal) =>
      hash = 5 /\ seal_nonce seal = 6 /\
      CuckooEngine_verify (E := unit) test_digest test_cuckoo (pow_message 5 6)
        (seal_proof seal) = Ok true) found.
Proof.
  destruct (solver_sound (E := unit) test_digest (CuckooSimple_new test_cuckoo [] []) 6 5 6)
    as (self' & found & Hs & Htx & Hall).
  - lia.
  - reflexivity.
  - vm_compute. discriminate.
  - exists self', found. split; [exact Hs|]. split; [exact Htx|]. split; [|exact Hall].
    assert (match solve (E := unit) test_digest (CuckooSimple_new test_cuckoo [] []) 5 6 with
            | Ok s => map (fun s => read_u32s 8 (seal_proof s.2)) (cs_seal_tx s) = [test_proof]
            | _ => False end) as H by (vm_compute; reflexivity).
    rewrite Hs in H. rewrite Htx in H. exact H.
Defined.
