(* ===== verification/JsonTypes.v ===== *)
(** * The types of the RPC

    [util/jsonrpc-types/src]: the records a client sends and receives, their
    conversions to and from the data of the node, and the strings that bytes,
    short ids and numbers travel as.  The newtypes around integers
    ([Unsigned], [BlockNumber], ...) and around bytes are what they wrap.  The
    codec of the package [faster_hex] is an argument. *)
From S2P Require Import Prelude Capacity ByteStrings Transactions Blocks Fixtures Protocol Epochs CellSet LiveCells Cells.

(** ** Strings *)

(** A string is its UTF-8 encoding; a slice of it panics when it does not end
    between two characters, that is before a continuation byte. *)
Definition is_char_boundary (v : Bytes) (i : nat) : bool :=
  match v !! i with
  | Some b => negb (bool_decide (128 <= b < 192))
  | None => bool_decide (i = length v)
  end.
Definition str_prefix {E} (v : Bytes) (n : nat) : outcome E Bytes :=
  _ ← assert (is_char_boundary v n); Ok (take n v).

(** The bytes of "0x". *)
Definition PREFIX_0X : Bytes := [48; 120].

Inductive StrError := InvalidValue | InvalidLength | HexError | ParseIntError.

#[export] Instance StrError_eq_dec : EqDecision StrError.
Proof. solve_decision. Defined.

Section hex.
(** [hex_decode] fills a buffer of half the length of its input. *)
Context (hex_encode : Bytes -> Bytes) (hex_decode : Bytes -> option Bytes).

Definition JsonBytes_serialize (self : Bytes) : Bytes := PREFIX_0X ++ hex_encode self.

Definition JsonBytes_visit_str (v : Bytes) : outcome StrError Bytes :=
  if decide (len v < 2) then Err InvalidValue
  else
    prefix ← str_prefix v 2;
    if decide (prefix <> PREFIX_0X) then Err InvalidValue
    else if decide (Z.land (len v) 1 <> 0) then Err InvalidLength
    else
      let bytes := drop 2 v in
      if decide (bytes = []) then Ok []
      else ok_or (hex_decode bytes) HexError.

Definition ProposalShortId_serialize (self : Bytes) : Bytes := PREFIX_0X ++ hex_encode self.

Definition ProposalShortId_visit_str (v : Bytes) : outcome StrError Bytes :=
  if decide (len v < 2) then Err InvalidValue
  else
    prefix ← str_prefix v 2;
    if decide (prefix <> PREFIX_0X) then Err InvalidValue
    else if decide (len v <> 22) then Err InvalidValue
    else ok_or (hex_decode (drop 2 v)) HexError.
End hex.

(** [Display] and [FromStr] of the unsigned types, which [string.rs] writes and
    reads numbers with.  The fuel is the number of digits of [u64::max_value()]. *)
Fixpoint display_digits (fuel : nat) (n : Z) (acc : Bytes) : Bytes :=
  match fuel with
  | O => acc
  | S fuel =>
      let acc := 48 + n mod 10 :: acc in
      if decide (n < 10) then acc else display_digits fuel (n / 10) acc
  end.
Definition display_uint (n : Z) : Bytes := display_digits 20 n [].

Definition parse_digit (size : Z) (acc : Z) (c : Z) : outcome StrError Z :=
  _ ← ensure (bool_decide (48 <= c <= 57)) ParseIntError;
  acc ← ok_or (checked_mul size acc 10) ParseIntError;
  ok_or (checked_add size acc (c - 48)) ParseIntError.

(** A leading [+] (43) is accepted; no digit at all is an error. *)
Definition parse_uint (size : Z) (s : Bytes) : outcome StrError Z :=
  let digits := if decide (head s = Some 43) then tail s else s in
  if decide (digits = []) then Err ParseIntError
  else try_fold (parse_digit size) 0 digits.

(** ** Blocks and their parts *)

Record JScript := mkJScript { js_args : list Bytes; js_code_hash : H256 }.
Record JCellOutput := mkJCellOutput {
  jo_capacity : Capacity; jo_data : Bytes; jo_lock : JScript; jo_type : option JScript }.
Record JCellOutPoint := mkJCellOutPoint { jc_tx_hash : H256; jc_index : Z }.
Record JOutPoint := mkJOutPoint { jp_cell : option JCellOutPoint; jp_block_hash : option H256 }.
Record JCellInput := mkJCellInput { ji_previous_output : JOutPoint; ji_since : Z }.
Record JWitness := mkJWitness { jw_data : list Bytes }.
Record JTransaction := mkJTransaction {
  jt_version : Z;
  jt_deps : list JOutPoint;
  jt_inputs : list JCellInput;
  jt_outputs : list JCellOutput;
  jt_witnesses : list JWitness
}.
Record JTransactionView := mkJTransactionView { jtv_inner : JTransaction; jtv_hash : H256 }.
Record JSeal := mkJSeal { jseal_nonce : Z; jseal_proof : Bytes }.
Record JHeader := mkJHeader {
  jh_version : Z;
  jh_parent_hash : H256;
  jh_timestamp : Z;
  jh_number : Z;
  jh_epoch : Z;
  jh_transactions_root : H256;
  jh_witnesses_root : H256;
  jh_proposals_hash : H256;
  jh_difficulty : Z;
  jh_uncles_hash : H256;
  jh_uncles_count : Z;
  jh_seal : JSeal
}.
Record JHeaderView := mkJHeaderView { jhv_inner : JHeader; jhv_hash : H256 }.
Record JUncleBlock := mkJUncleBlock { ju_header : JHeader; ju_proposals : list Bytes }.
Record JUncleBlockView := mkJUncleBlockView { juv_header : JHeaderView; juv_proposals : list Bytes }.
Record JBlock := mkJBlock {
  jb_header : JHeader; jb_uncles : list JUncleBlock;
  jb_transactions : list JTransaction; jb_proposals : list Bytes }.
Record JBlockView := mkJBlockView {
  jbv_header : JHeaderView; jbv_uncles : list JUncleBlockView;
  jbv_transactions : list JTransactionView; jbv_proposals : list Bytes }.
Record JEpochExt := mkJEpochExt {
  je_number : Z; je_block_reward : Capacity; je_last_block_hash_in_previous_epoch : H256;
  je_start_number : Z; je_length : Z; je_difficulty : Z; je_remainder_reward : Capacity }.

(** [From<Core..>]. *)
Definition json_script (core : Script) : JScript :=
  mkJScript (script_args core) (script_code_hash core).
Definition json_output (core : CellOutput) : JCellOutput :=
  mkJCellOutput (co_capacity core) (co_data core) (json_script (co_lock core))
    (json_script <$> co_type core).
Definition json_cell_point (core : CellOutPoint) : JCellOutPoint :=
  mkJCellOutPoint (cop_tx_hash core) (cop_index core).
Definition json_point (core : OutPoint) : JOutPoint :=
  mkJOutPoint (json_cell_point <$> op_cell core) (op_block_hash core).
Definition json_input (core : CellInput) : JCellInput :=
  mkJCellInput (json_point (ci_previous_output core)) (ci_since core).
Definition json_witness (core : list Bytes) : JWitness := mkJWitness core.
Definition json_transaction (core : Transaction) : JTransaction :=
  mkJTransaction (tx_version core) (json_point <$> tx_deps core) (json_input <$> tx_inputs core)
    (json_output <$> tx_outputs core) (json_witness <$> tx_witnesses core).
Definition json_transaction_view (core : Transaction) : JTransactionView :=
  mkJTransactionView (json_transaction core) (tx_hash core).
Definition json_seal (core : Seal) : JSeal := mkJSeal (seal_nonce core) (seal_proof core).
Definition json_header (core : Header) : JHeader :=
  mkJHeader (h_version core) (h_parent_hash core) (h_timestamp core) (h_number core) (h_epoch core)
    (h_transactions_root core) (h_witnesses_root core) (h_proposals_hash core) (h_difficulty core)
    (h_uncles_hash core) (h_uncles_count core) (json_seal (h_seal core)).
Definition json_header_view (core : Header) : JHeaderView :=
  mkJHeaderView (json_header core) (h_hash core).
Definition json_uncle (core : UncleBlock) : JUncleBlock :=
  mkJUncleBlock (json_header (uncle_header core)) (uncle_proposals core).
Definition json_uncle_view (core : UncleBlock) : JUncleBlockView :=
  mkJUncleBlockView (json_header_view (uncle_header core)) (uncle_proposals core).
Definition json_block (core : Block) : JBlock :=
  mkJBlock (json_header (b_header core)) (json_uncle <$> b_uncles core)
    (json_transaction <$> b_transactions core) (b_proposals core).
Definition json_block_view (core : Block) : JBlockView :=
  mkJBlockView (json_header_view (b_header core)) (json_uncle_view <$> b_uncles core)
    (json_transaction_view <$> b_transactions core) (b_proposals core).
Definition json_epoch (core : EpochExt) : JEpochExt :=
  mkJEpochExt (ep_number core) (ep_block_reward core) (ep_last_block_hash_in_previous_epoch core)
    (ep_start_number core) (ep_length core) (ep_difficulty core) (ep_remainder_reward core).

(** [From<json> for Core..]; [as u32] keeps the low 32 bits. *)
Definition core_script (json : JScript) : Script := mkScript (js_args json) (js_code_hash json).
Definition core_output (json : JCellOutput) : CellOutput :=
  mkCellOutput (jo_capacity json) (jo_data json) (core_script (jo_lock json))
    (core_script <$> jo_type json).
Definition core_cell_point (json : JCellOutPoint) : CellOutPoint :=
  mkCellOutPoint (jc_tx_hash json) (cast U32_SIZE (jc_index json)).
Definition core_point (json : JOutPoint) : OutPoint :=
  mkOutPoint (core_cell_point <$> jp_cell json) (jp_block_hash json).
Definition core_input (json : JCellInput) : CellInput :=
  mkCellInput (core_point (ji_previous_output json)) (ji_since json).
Definition core_witness (json : JWitness) : list Bytes := jw_data json.
Definition core_seal (json : JSeal) : Seal := mkSeal (jseal_nonce json) (jseal_proof json).
Definition core_epoch (json : JEpochExt) : EpochExt :=
  mkEpochExt (je_number json) (je_block_reward json) (je_remainder_reward json)
    (je_last_block_hash_in_previous_epoch json) (je_start_number json) (je_length json)
    (je_difficulty json).

Section hashes.
Context (blake2b : Bytes -> H256) (serialize_raw : RawTransaction -> Bytes)
  (serialize_tx : RawTransaction -> list (list Bytes) -> Bytes) (serialize_header : RawHeader -> Seal -> Bytes)
  (serialize_uncles : list UncleBlock -> Bytes) (merkle_root : list H256 -> H256).

Definition core_transaction (json : JTransaction) : Transaction :=
  Transaction_new blake2b serialize_raw serialize_tx (jt_version json) (core_point <$> jt_deps json)
    (core_input <$> jt_inputs json) (core_output <$> jt_outputs json) (core_witness <$> jt_witnesses json).
Definition core_transaction_view (json : JTransactionView) : Transaction :=
  core_transaction (jtv_inner json).
Definition core_header (json : JHeader) : Header :=
  Header_new blake2b serialize_header
    (mkRawHeader (jh_version json) (jh_parent_hash json) (jh_timestamp json) (jh_number json)
       (jh_transactions_root json) (jh_proposals_hash json) (jh_witnesses_root json)
       (jh_difficulty json) (jh_uncles_hash json) (cast U32_SIZE (jh_uncles_count json)) (jh_epoch json))
    (core_seal (jh_seal json)).
Definition core_header_view (json : JHeaderView) : Header := core_header (jhv_inner json).
Definition core_uncle (json : JUncleBlock) : UncleBlock :=
  mkUncleBlock (core_header (ju_header json)) (ju_proposals json).
Definition core_uncle_view (json : JUncleBlockView) : UncleBlock :=
  mkUncleBlock (core_header_view (juv_header json)) (juv_proposals json).
Definition core_block (json : JBlock) : Block :=
  let header := core_header (jb_header json) in
  BlockBuilder_build blake2b serialize_header serialize_uncles merkle_root (h_raw header) (h_seal header)
    (core_uncle <$> jb_uncles json) (core_transaction <$> jb_transactions json) (jb_proposals json).
Definition core_block_view (json : JBlockView) : Block :=
  let header := core_header_view (jbv_header json) in
  BlockBuilder_build blake2b serialize_header serialize_uncles merkle_root (h_raw header) (h_seal header)
    (core_uncle_view <$> jbv_uncles json) (core_transaction_view <$> jbv_transactions json)
    (jbv_proposals json).
End hashes.

(** ** The status of a transaction and of a cell *)

Inductive Status := Pending | Proposed | Committed.
Record TxStatus := mkTxStatus { ts_status : Status; ts_block_hash : option H256 }.
Definition TxStatus_pending : TxStatus := mkTxStatus Pending None.
Definition TxStatus_proposed : TxStatus := mkTxStatus Proposed None.
Definition TxStatus_committed (hash : H256) : TxStatus := mkTxStatus Committed (Some hash).
Record TransactionWithStatus := mkTransactionWithStatus {
  tws_transaction : JTransactionView; tws_tx_status : TxStatus }.
Definition with_pending (tx : Transaction) : TransactionWithStatus :=
  mkTransactionWithStatus (json_transaction_view tx) TxStatus_pending.
Definition with_proposed (tx : Transaction) : TransactionWithStatus :=
  mkTransactionWithStatus (json_transaction_view tx) TxStatus_proposed.
Definition with_committed (tx : Transaction) (hash : H256) : TransactionWithStatus :=
  mkTransactionWithStatus (json_transaction_view tx) (TxStatus_committed hash).

Inductive CellStatusName := StatusLive | StatusDead | StatusUnknown | StatusUnspecified.
Record CellWithStatus := mkCellWithStatus { cws_cell : option JCellOutput; cws_status : CellStatusName }.
Definition json_cell_status (status : CellStatus) : CellWithStatus :=
  let '(cell, status) :=
    match status with
    | CellLive cell_meta => (cm_cell_output cell_meta, StatusLive)
    | CellDead => (None, StatusDead)
    | CellUnknown => (None, StatusUnknown)
    | CellUnspecified => (None, StatusUnspecified)
    end in
  mkCellWithStatus (json_output <$> cell) status.

(** ** Block templates *)

Record UncleTemplate := mkUncleTemplate {
  ut_hash : H256; ut_required : bool; ut_proposals : list Bytes; ut_header : JHeader }.
Record CellbaseTemplate := mkCellbaseTemplate {
  ct_hash : H256; ct_cycles : option Z; ct_data : JTransaction }.
Record TransactionTemplate := mkTransactionTemplate {
  tt_hash : H256; tt_required : bool; tt_cycles : option Z; tt_depends : option (list Z);
  tt_data : JTransaction }.
Record BlockTemplate := mkBlockTemplate {
  bt_version : Z;
  bt_difficulty : Z;
  bt_current_time : Z;
  bt_number : Z;
  bt_epoch : Z;
  bt_parent_hash : H256;
  bt_cycles_limit : Z;
  bt_bytes_limit : Z;
  bt_uncles_count_limit : Z;
  bt_uncles : list UncleTemplate;
  bt_transactions : list TransactionTemplate;
  bt_proposals : list Bytes;
  bt_cellbase : CellbaseTemplate;
  bt_work_id : Z
}.

Section templates.
Context (blake2b : Bytes -> H256) (serialize_raw : RawTransaction -> Bytes)
  (serialize_tx : RawTransaction -> list (list Bytes) -> Bytes) (serialize_header : RawHeader -> Seal -> Bytes).

Definition core_uncle_template (template : UncleTemplate) : UncleBlock :=
  mkUncleBlock (core_header blake2b serialize_header (ut_header template)) (ut_proposals template).
Definition core_cellbase_template (template : CellbaseTemplate) : Transaction :=
  core_transaction blake2b serialize_raw serialize_tx (ct_data template).
Definition core_transaction_template (template : TransactionTemplate) : Transaction :=
  core_transaction blake2b serialize_raw serialize_tx (tt_data template).
End templates.

(** ** Round trips *)

(** Indexes and counts are [u32] in the node. *)
Definition point_u32 (o : OutPoint) : Prop := if_some (fun c => u32 (cop_index c)) (op_cell o).
Definition indexes_u32 (tx : Transaction) : Prop :=
  Forall point_u32 (tx_deps tx) /\ Forall (fun i => point_u32 (ci_previous_output i)) (tx_inputs tx).

Lemma fmap_round_trip {A B} (f : A -> B) (g : B -> A) (P : A -> Prop) (l : list A) :
  (forall a, P a -> g (f a) = a) -> Forall P l -> g <$> (f <$> l) = l.
Proof.
  intros H. induction 1 as [|a l Ha Hl IH]; [done|]. by rewrite !fmap_cons, IH, H.
Qed.

Lemma core_json_script s : core_script (json_script s) = s.
Proof. by destruct s. Qed.

Lemma core_json_output o : core_output (json_output o) = o.
Proof.
  destruct o as [c d l [t|]]; unfold core_output, json_output; simpl; by rewrite !core_json_script.
Qed.

Lemma core_json_point o : point_u32 o -> core_point (json_point o) = o.
Proof.
  destruct o as [[[h i]|] b]; unfold point_u32, core_point, json_point; simpl; [|done].
  intros Hi. unfold core_cell_point, json_cell_point, cast. simpl. by rewrite Z.mod_small.
Qed.

Lemma core_json_input i : point_u32 (ci_previous_output i) -> core_input (json_input i) = i.
Proof. destruct i as [o s]. simpl. intros H. unfold core_input, json_input. simpl. by rewrite core_json_point. Qed.

Lemma core_json_epoch e : core_epoch (json_epoch e) = e.
Proof. by destruct e. Qed.

Section round_trip.
Context (blake2b : Bytes -> H256) (serialize_raw : RawTransaction -> Bytes)
  (serialize_tx : RawTransaction -> list (list Bytes) -> Bytes) (serialize_header : RawHeader -> Seal -> Bytes)
  (serialize_uncles : list UncleBlock -> Bytes) (merkle_root : list H256 -> H256).

(** Data as the constructors make it, with its derived digests. *)
Definition built_transaction (tx : Transaction) : Prop :=
  indexes_u32 tx /\
  tx = Transaction_new blake2b serialize_raw serialize_tx (tx_version tx) (tx_deps tx) (tx_inputs tx)
         (tx_outputs tx) (tx_witnesses tx).
Definition built_header (h : Header) : Prop :=
  u32 (h_uncles_count h) /\ h = Header_new blake2b serialize_header (h_raw h) (h_seal h).
Definition built_block (b : Block) : Prop :=
  built_header (b_header b) /\ Forall (fun u => built_header (uncle_header u)) (b_uncles b) /\
  Forall built_transaction (b_transactions b) /\
  roots_ok blake2b serialize_header serialize_uncles merkle_root (b_header b) (b_uncles b)
    (b_transactions b) (b_proposals b).

Lemma core_json_transaction tx :
  built_transaction tx -> core_transaction blake2b serialize_raw serialize_tx (json_transaction tx) = tx.
Proof.
  intros [[Hd Hi] Htx]. unfold core_transaction, json_transaction. simpl.
  rewrite (fmap_round_trip json_point core_point point_u32) by auto using core_json_point.
  rewrite (fmap_round_trip json_input core_input (fun i => point_u32 (ci_previous_output i)))
    by auto using core_json_input.
  rewrite (fmap_round_trip json_output core_output (fun _ => True))
    by (auto using core_json_output; by apply Forall_true).
  rewrite (fmap_round_trip json_witness core_witness (fun _ => True)) by (done || by apply Forall_true).
  by rewrite <- Htx.
Qed.

Lemma core_json_header h : built_header h -> core_header blake2b serialize_header (json_header h) = h.
Proof.
  intros [Hu Hh]. rewrite Hh at 2. unfold core_header, json_header. simpl.
  destruct h as [[] [nonce proof] hash]. unfold h_uncles_count in *. simpl in *.
  unfold cast. by rewrite Z.mod_small.
Qed.

Lemma core_json_uncle u :
  built_header (uncle_header u) -> core_uncle blake2b serialize_header (json_uncle u) = u.
Proof.
  destruct u as [h ps]. intros H. unfold core_uncle, json_uncle. cbn [ju_header ju_proposals uncle_header uncle_proposals] in *.
  by rewrite core_json_header.
Qed.

Lemma core_json_uncle_view u :
  built_header (uncle_header u) -> core_uncle_view blake2b serialize_header (json_uncle_view u) = u.
Proof. apply core_json_uncle. Qed.

Lemma core_json_block b :
  built_block b ->
  core_block blake2b serialize_raw serialize_tx serialize_header serialize_uncles merkle_root (json_block b) = b.
Proof.
  intros (Hh & Hu & Ht & Hr). unfold core_block, json_block.
  cbn [jb_header jb_uncles jb_transactions jb_proposals].
  rewrite core_json_header by done.
  rewrite (fmap_round_trip json_uncle _ (fun u => built_header (uncle_header u))) by auto using core_json_uncle.
  rewrite (fmap_round_trip json_transaction _ built_transaction) by auto using core_json_transaction.
  rewrite Hr. by destruct b.
Qed.

Lemma core_json_block_view b :
  built_block b ->
  core_block_view blake2b serialize_raw serialize_tx serialize_header serialize_uncles merkle_root
    (json_block_view b) = b.
Proof.
  intros (Hh & Hu & Ht & Hr). unfold core_block_view, json_block_view, core_header_view, json_header_view.
  cbn [jbv_header jbv_uncles jbv_transactions jbv_proposals jhv_inner].
  rewrite core_json_header by done.
  rewrite (fmap_round_trip json_uncle_view _ (fun u => built_header (uncle_header u)))
    by auto using core_json_uncle_view.
  rewrite (fmap_round_trip json_transaction_view _ built_transaction) by (try done; apply core_json_transaction).
  rewrite Hr. by destruct b.
Qed.

(** C27. Blocks survive the RPC: a block as its constructors make it, sent as the
    JSON block a miner submits or as the view a client reads, is converted back to
    the same block, its hashes and roots computed again; so is an epoch. *)
Theorem json_block_round_trip b :
  built_block b ->
  core_block blake2b serialize_raw serialize_tx serialize_header serialize_uncles merkle_root
    (json_block b) = b /\
  core_block_view blake2b serialize_raw serialize_tx serialize_header serialize_uncles merkle_root
    (json_block_view b) = b /\
  forall e, core_epoch (json_epoch e) = e.
Proof.
  intros Hb. split; [by apply core_json_block|].
  split; [by apply core_json_block_view|apply core_json_epoch].
Qed.
End round_trip.

(** ** Strings *)

Lemma display_digits_app fuel n acc : display_digits fuel n acc = display_digits fuel n [] ++ acc.
Proof.
  revert n acc. induction fuel as [|fuel IH]; intros n acc; simpl; [done|].
  case_decide; [done|]. rewrite (IH _ (_ :: acc)), (IH _ [_]). by rewrite <- app_assoc.
Qed.

Lemma parse_digit_Ok size acc d :
  0 <= d < 10 -> 0 <= acc -> acc * 10 + d < size -> parse_digit size acc (48 + d) = Ok (acc * 10 + d).
Proof.
  intros Hd Ha Hs. unfold parse_digit. rewrite bool_decide_eq_true_2 by lia.
  unfold checked_mul, checked_add. rewrite decide_True by lia. simpl.
  rewrite decide_True by lia. simpl. f_equal. lia.
Qed.

Lemma parse_display_digits size fuel n :
  0 <= n < size -> n < 10 ^ Z.of_nat fuel -> (0 < fuel)%nat ->
  try_fold (parse_digit size) 0 (display_digits fuel n []) = Ok n.
Proof.
  revert n. induction fuel as [|fuel IH]; intros n Hn Hf Hpos; [lia|]. simpl.
  pose proof (Z.mod_pos_bound n 10 ltac:(lia)). pose proof (Z.div_mod n 10 ltac:(lia)).
  case_decide as Hlt.
  - cbn [try_fold]. rewrite parse_digit_Ok by (rewrite ?Z.mod_small by lia; lia). simpl.
    rewrite Z.mod_small by lia. done.
  - rewrite display_digits_app, try_fold_app.
    assert (0 < fuel)%nat.
    { destruct fuel; [|lia]. change (10 ^ Z.of_nat 1) with 10 in Hf. lia. }
    rewrite IH; [| |apply Z.div_lt_upper_bound; [lia|]|done].
    + rewrite bind_ret_l. cbn [try_fold]. rewrite parse_digit_Ok by lia. simpl. f_equal. lia.
    + lia.
    + replace (Z.of_nat (S fuel)) with (Z.of_nat fuel + 1) in Hf by lia.
      rewrite Z.pow_add_r in Hf by lia. lia.
Qed.

(** What [faster_hex] promises: two ASCII characters for each byte, which are
    read back. *)
Class HexLaws (hex_encode : Bytes -> Bytes) (hex_decode : Bytes -> option Bytes) : Prop := {
  hex_length b : length (hex_encode b) = (2 * length b)%nat;
  hex_ascii b : Forall is_byte b -> Forall (fun c => 0 <= c < 128) (hex_encode b);
  hex_decode_encode b : Forall is_byte b -> hex_decode (hex_encode b) = Some b
}.

Lemma display_digits_nonempty fuel n : display_digits (S fuel) n [] <> [].
Proof.
  simpl. case_decide; [done|]. rewrite display_digits_app. by destruct (display_digits _ _ _).
Qed.

Lemma display_digits_range fuel n acc :
  Forall (fun c => 48 <= c <= 57) acc -> Forall (fun c => 48 <= c <= 57) (display_digits fuel n acc).
Proof.
  revert n acc. induction fuel as [|fuel IH]; intros n acc Ha; simpl; [done|].
  pose proof (Z.mod_pos_bound n 10 ltac:(lia)).
  assert (Forall (fun c => 48 <= c <= 57) (48 + n mod 10 :: acc)) by (constructor; [lia|done]).
  case_decide; [done|by apply IH].
Qed.

Lemma parse_display_uint size n :
  0 <= n < size -> size <= U64_SIZE -> parse_uint size (display_uint n) = Ok n.
Proof.
  intros Hn Hs. assert (head (display_uint n) <> Some 43) as Hh.
  { pose proof (display_digits_range 20 n [] ltac:(constructor)) as Hr. unfold display_uint.
    destruct (display_digits 20 n []) as [|c l]; [done|]. simpl. intros [= ->].
    apply Forall_cons in Hr as [Hc _]. lia. }
  unfold parse_uint. rewrite (decide_False (P := head _ = _)) by done.
  rewrite decide_False by apply display_digits_nonempty. apply parse_display_digits; [done| |lia].
  assert (U64_SIZE < 10 ^ Z.of_nat 20) by reflexivity. lia.
Qed.

Section strings.
Context (hex_encode : Bytes -> Bytes) (hex_decode : Bytes -> option Bytes).

Lemma visit_prefix {E} v :
  Forall (fun c => 0 <= c < 128) v -> str_prefix (E := E) (PREFIX_0X ++ v) 2 = Ok PREFIX_0X.
Proof.
  intros Hv. unfold str_prefix, is_char_boundary. simpl.
  destruct v as [|c v]; simpl; [done|]. apply Forall_cons in Hv as [Hc _].
  by rewrite bool_decide_eq_false_2 by lia.
Qed.

Lemma json_bytes_round_trip `{!HexLaws hex_encode hex_decode} b :
  Forall is_byte b -> JsonBytes_visit_str hex_decode (JsonBytes_serialize hex_encode b) = Ok b.
Proof.
  intros Hb. unfold JsonBytes_visit_str, JsonBytes_serialize.
  assert (len (PREFIX_0X ++ hex_encode b) = 2 + 2 * len b) as Hl.
  { unfold len. rewrite length_app, hex_length. simpl. lia. }
  pose proof (len_nonneg b). rewrite Hl, decide_False by lia.
  rewrite visit_prefix by (by apply hex_ascii). rewrite bind_ret_l, decide_False by tauto.
  rewrite decide_False; cycle 1.
  { intros H'. apply H'. change 1 with (Z.ones 1). rewrite Z.land_ones by lia.
    change (2 ^ 1) with 2. replace (2 + 2 * len b) with ((1 + len b) * 2) by lia. apply Z.mod_mul. lia. }
  change (drop 2 (PREFIX_0X ++ hex_encode b)) with (hex_encode b). case_decide as He.
  - pose proof (hex_length b) as Hlen. rewrite He in Hlen. destruct b; [done|simpl in Hlen; lia].
  - by rewrite hex_decode_encode.
Qed.

Lemma proposal_id_round_trip `{!HexLaws hex_encode hex_decode} b :
  Forall is_byte b -> length b = 10%nat ->
  ProposalShortId_visit_str hex_decode (ProposalShortId_serialize hex_encode b) = Ok b.
Proof.
  intros Hb Hlb. unfold ProposalShortId_visit_str, ProposalShortId_serialize.
  assert (len (PREFIX_0X ++ hex_encode b) = 22) as Hl.
  { unfold len. rewrite length_app, hex_length, Hlb. done. }
  rewrite Hl, decide_False by lia.
  rewrite visit_prefix by (by apply hex_ascii). rewrite bind_ret_l, decide_False by tauto.
  rewrite decide_False by lia. change (drop 2 (PREFIX_0X ++ hex_encode b)) with (hex_encode b).
  by rewrite hex_decode_encode.
Qed.

(** The strings of the RPC are read back: bytes and short ids written as
    [0x] strings, and numbers of every width up to 64 bits written in decimal, are
    parsed to the value they were written for. *)
Theorem json_strings_round_trip `{!HexLaws hex_encode hex_decode} b id size n :
  Forall is_byte b -> Forall is_byte id -> length id = 10%nat -> 0 <= n < size -> size <= U64_SIZE ->
  JsonBytes_visit_str hex_decode (JsonBytes_serialize hex_encode b) = Ok b /\
  ProposalShortId_visit_str hex_decode (ProposalShortId_serialize hex_encode id) = Ok id /\
  parse_uint size (display_uint n) = Ok n.
Proof.
  intros. split; [by apply json_bytes_round_trip|].
  split; [by apply proposal_id_round_trip|by apply parse_display_uint].
Qed.

Lemma str_prefix_panic (v : Bytes) :
  2 <= len v ->
  (str_prefix (E := StrError) v 2 = Panic <-> exists c, v !! 2%nat = Some c /\ 128 <= c < 192).
Proof.
  intros Hl. unfold str_prefix, is_char_boundary, len in *.
  destruct (v !! 2%nat) as [c|] eqn:Hc.
  - destruct (bool_decide (128 <= c < 192)) eqn:Hb; simpl; rewrite ?bool_decide_eq_true, ?bool_decide_eq_false in Hb;
      split; naive_solver.
  - apply lookup_ge_None in Hc. rewrite bool_decide_eq_true_2 by lia. simpl. split; naive_solver.
Qed.

(** Reading the string of bytes or of a short id panics, instead of rejecting
    it, exactly when a character of more than one byte starts at its second byte
    and goes on after it: the two bytes compared with [0x] are taken as a slice of the
    string.  Every other string gives the bytes or an error. *)
Theorem json_string_panics v :
  (JsonBytes_visit_str hex_decode v = Panic <-> exists c, v !! 2%nat = Some c /\ 128 <= c < 192) /\
  (ProposalShortId_visit_str hex_decode v = Panic <-> exists c, v !! 2%nat = Some c /\ 128 <= c < 192).
Proof.
  assert (len v < 2 -> ~ exists c, v !! 2%nat = Some c /\ 128 <= c < 192) as Hshort.
  { intros Hl (c & Hc & _). apply lookup_lt_Some in Hc. unfold len in Hl. lia. }
  unfold JsonBytes_visit_str, ProposalShortId_visit_str.
  destruct (decide (len v < 2)) as [Hl|Hl]; [naive_solver|].
  pose proof (str_prefix_panic v ltac:(lia)) as Hp.
  destruct (str_prefix (E := StrError) v 2) as [prefix|e|]; simpl; [|naive_solver..].
  rewrite <- Hp. split; split; try done; repeat case_decide; try done;
    by destruct (hex_decode _).
Qed.
End strings.

(** ** Examples *)
Module JsonExample.
Definition nibble (n : Z) : Z := if decide (n < 10) then 48 + n else 87 + n.
Definition un_nibble (c : Z) : Z := if decide (c < 58) then c - 48 else c - 87.
Definition encode (b : Bytes) : Bytes := concat (map (fun x => [nibble (x / 16); nibble (x mod 16)]) b).
Fixpoint decode (s : Bytes) : option Bytes :=
  match s with
  | [] => Some []
  | [_] => None
  | a :: b :: s => rest ← decode s; Some (16 * un_nibble a + un_nibble b :: rest)
  end.

Lemma un_nibble_nibble n : 0 <= n < 16 -> un_nibble (nibble n) = n /\ 0 <= nibble n < 128.
Proof. intros Hn. unfold un_nibble, nibble. repeat case_decide; lia. Qed.

#[export] Instance hex_laws : HexLaws encode decode.
Proof.
  split.
  - induction b as [|x b IH]; [done|]. unfold encode in *. cbn [map concat]. rewrite length_app, IH. simpl. lia.
  - intros b Hb. induction Hb as [|x b Hx Hb IH]; [constructor|]. unfold encode in *. cbn [map concat].
    unfold is_byte in Hx. pose proof (Z.div_mod x 16 ltac:(lia)). pose proof (Z.mod_pos_bound x 16 ltac:(lia)).
    constructor; [apply un_nibble_nibble; lia|]. constructor; [apply un_nibble_nibble; lia|done].
  - intros b Hb. induction Hb as [|x b Hx Hb IH]; [done|]. unfold encode in *. cbn [map concat app decode].
    rewrite IH. unfold is_byte in Hx. simpl. do 2 f_equal.
    pose proof (Z.div_mod x 16 ltac:(lia)). pose proof (Z.mod_pos_bound x 16 ltac:(lia)).
    destruct (un_nibble_nibble (x / 16)) as [-> _]; [lia|].
    destruct (un_nibble_nibble (x mod 16)) as [-> _]; lia.
Qed.
End JsonExample.

Section witnesses.
Import ProtocolExample JsonExample.

Lemma json_block_round_trip_witness :
  length (b_uncles block) = 1%nat /\
  core_block digest encode_raw encode_tx encode_header encode_uncles root (json_block block) = block.
Proof.
  split; [done|].
  apply (json_block_round_trip digest encode_raw encode_tx encode_header encode_uncles root block).
  repeat split; try by_compute. all: repeat constructor; try by_compute.
Defined.

Lemma json_strings_round_trip_witness :
  JsonBytes_visit_str decode (JsonBytes_serialize encode [1; 255]) = Ok [1; 255] /\
  ProposalShortId_visit_str decode (ProposalShortId_serialize encode (replicate 10 171)) = Ok (replicate 10 171) /\
  parse_uint U64_SIZE (display_uint 18446744073709551615) = Ok 18446744073709551615.
Proof.
  apply (json_strings_round_trip encode decode [1; 255] (replicate 10 171) U64_SIZE 18446744073709551615);
    by_compute.
Defined.
End witnesses.
