(* ===== verification/BlockAssembler.v ===== *)
(** * The block assembler

    [miner/src/block_assembler.rs]: the templates a miner works on, from the
    tip, the pool and the uncles the node has seen, with the cache of the last
    templates.  The store is read once before the chain is locked and the
    chain, the pool and the store again under the lock; the two instants are
    two arguments, as are the two readings of the clock.  The iteration orders
    of the hash sets of uncles and of proposals are arguments. *)
From S2P Require Import Prelude Capacity ByteStrings Transactions Blocks Fixtures Protocol CellSet LiveCells Cells Epochs ChainStore VerifyErrors ProposalTable Reward MedianTime HeaderVerify LinkedMap ProposedPool TxPool ChainPool ChainService JsonTypes.

Definition MAX_CANDIDATE_UNCLES : Z := 42.
Definition BLOCK_TEMPLATE_TIMEOUT : Z := 3000.
Definition TEMPLATE_CACHE_SIZE : Z := 10.

Record TemplateCache := mkTemplateCache {
  tc_time : Z;
  tc_uncles_updated_at : Z;
  tc_txs_updated_at : Z;
  tc_template : BlockTemplate
}.

Definition is_outdate (self : TemplateCache) (current_time : Z) : bool :=
  bool_decide (BLOCK_TEMPLATE_TIMEOUT < saturating_sub current_time (tc_time self)).
Definition is_modified (self : TemplateCache) (last_uncles_updated_at last_txs_updated_at : Z) : bool :=
  bool_decide (last_uncles_updated_at <> tc_uncles_updated_at self)
  || bool_decide (last_txs_updated_at <> tc_txs_updated_at self).

Record BlockAssemblerConfig := mkAssemblerConfig {
  cfg_code_hash : H256; cfg_args : list Bytes; cfg_data : Bytes }.

(** The errors of a call: those of the reward, of the capacities, of the
    output of the cellbase and of the parameters. *)
Inductive AssemblerError :=
| AeReward (e : RewardError)
| AeCapacity (e : CapacityError)
| AeInsufficientCellCapacity
| AeInvalidParams (bytes_limit : Z).

(** The key of a template: the tip, the limits of cycles and of bytes, the
    version. *)
Abbreviation TemplateKey := (H256 * Z * Z * Z)%type (only parsing).

(** [Option::min] puts [None] first. *)
Definition limit_by (limit : option Z) (max : Z) : Z :=
  match limit with Some l => Z.min l max | None => max end.

Section assembler.
Context {M L LT LU : Type -> Type} `{!LinkedHashMap Bytes M} `{!LruCache Bytes L}
  `{!LruCache TemplateKey LT} `{!LruCache H256 LU}.
Context (blake2b : Bytes -> H256) (serialize_raw : RawTransaction -> Bytes)
  (serialize_tx : RawTransaction -> list (list Bytes) -> Bytes).
Context (ids_order : gset Bytes -> list Bytes) (uncles_order : list UncleBlock -> list UncleBlock).

Record BlockAssembler := mkAssembler {
  ba_config : BlockAssemblerConfig;
  ba_work_id : Z;
  ba_last_uncles_updated_at : Z;
  ba_template_caches : LT TemplateCache;
  ba_proof_size : Z;
  ba_candidate_uncles : LU Block
}.

Definition BlockAssembler_new (pow : PowEngine) (config : BlockAssemblerConfig) : BlockAssembler :=
  mkAssembler config 0 0 (lru_new TEMPLATE_CACHE_SIZE) (proof_size pow) (lru_new MAX_CANDIDATE_UNCLES).

Definition transform_params (consensus : Consensus) (bytes_limit proposals_limit max_version : option Z)
    : Z * Z * Z :=
  (limit_by bytes_limit (max_block_bytes consensus),
   limit_by proposals_limit (max_block_proposals_limit consensus),
   limit_by max_version (block_version consensus)).

Definition transform_uncle (uncle : UncleBlock) : UncleTemplate :=
  mkUncleTemplate (uncle_hash uncle) false (uncle_proposals uncle) (json_header (uncle_header uncle)).
Definition transform_cellbase (tx : Transaction) (cycles : option Z) : CellbaseTemplate :=
  mkCellbaseTemplate (tx_hash tx) cycles (json_transaction tx).
Definition transform_tx (tx : ProposedEntry) (required : bool) (depends : option (list Z))
    : TransactionTemplate :=
  mkTransactionTemplate (tx_hash (pe_transaction tx)) required (Some (pe_cycles tx)) depends
    (json_transaction (pe_transaction tx)).

Definition calculate_txs_size_limit (proof_size cellbase_size bytes_limit : Z)
    (uncles : list UncleBlock) (proposals : gset Bytes) : outcome AssemblerError Z :=
  let occupied := Header_serialized_size proof_size
    + sum_z ((fun u => UncleBlock_serialized_size u proof_size) <$> uncles)
    + Z.of_nat (size proposals) * 10
    + cellbase_size in
  ok_or (checked_sub bytes_limit occupied) (AeInvalidParams bytes_limit).

(** ** The cellbase *)

Definition custom_output (config : BlockAssemblerConfig) (reward : Capacity) (output : CellOutput)
    : outcome AssemblerError CellOutput :=
  occupied_capacity ← map_err AeCapacity (occupied_capacity output);
  if decide (reward < occupied_capacity) then Err AeInsufficientCellCapacity
  else
    let data := cfg_data config in
    if decide (data = []) then Ok output
    else
      data_max_len ← reward -64 occupied_capacity;
      let data := if decide (data_max_len < len data) then take (Z.to_nat data_max_len) data else data in
      Ok (mkCellOutput (co_capacity output) data (co_lock output) (co_type output)).

(** [TransactionBuilder] with one input, one output and one witness. *)
Definition build_cellbase_tx (input : CellInput) (output : CellOutput) (witness : list Bytes) : Transaction :=
  Transaction_new blake2b serialize_raw serialize_tx TX_VERSION [] [input] [output] [witness].

Definition bootstrap_cellbase (config : BlockAssemblerConfig) (consensus : Consensus)
    (candidate_number : Z) (lock : Script) : outcome AssemblerError Transaction :=
  let witness := into_witness lock in
  let input := new_cellbase_input candidate_number in
  block_reward ← map_err AeCapacity (block_reward (genesis_epoch_ext consensus) candidate_number);
  let raw_output := mkCellOutput block_reward [] (bootstrap_lock consensus) None in
  output ← custom_output config block_reward raw_output;
  Ok (build_cellbase_tx input output witness).

Definition ordinary_cellbase (config : BlockAssemblerConfig) (consensus : Consensus) (s : StoreData)
    (tip : Header) (lock : Script) : outcome AssemblerError Transaction :=
  candidate_number ← h_number tip +64 1;
  '(target_lock, block_reward) ← map_err AeReward (finalize_block_reward consensus s tip);
  let witness := into_witness lock in
  let input := new_cellbase_input candidate_number in
  let raw_output := mkCellOutput block_reward [] target_lock None in
  output ← custom_output config block_reward raw_output;
  Ok (build_cellbase_tx input output witness).

Definition build_cellbase (config : BlockAssemblerConfig) (consensus : Consensus) (s : StoreData)
    (tip : Header) (lock : Script) : outcome AssemblerError (Transaction * Z) :=
  candidate_number ← h_number tip +64 1;
  reserve ← reserve_number consensus;
  tx ← (if decide (reserve < candidate_number) then ordinary_cellbase config consensus s tip lock
        else bootstrap_cellbase config consensus candidate_number lock);
  Ok (tx, Transaction_serialized_size tx).

(** ** The uncles *)

Definition is_candidate_uncle (s : StoreData) (candidate_number : Z) (epoch : EpochExt) (hash : H256)
    (block : Block) : bool :=
  negb (bool_decide (h_difficulty (b_header block) <> ep_difficulty epoch)
    || bool_decide (h_epoch (b_header block) <> ep_number epoch)
    || bool_decide (is_Some (get_block_number s hash))
    || is_uncle s hash
    || bool_decide (candidate_number <= b_number block)).

(** The set of uncles is kept as the list of its elements; [PartialEq] of
    uncles compares the hashes. *)
Definition insert_uncle (uncles : list UncleBlock) (uncle : UncleBlock) : list UncleBlock :=
  if decide (uncle_hash uncle ∈ uncle_hash <$> uncles) then uncles else uncles ++ [uncle].

Fixpoint collect_uncles (s : StoreData) (candidate_number : Z) (epoch : EpochExt) (max_uncles_num : Z)
    (entries : list (H256 * Block)) (candidates : LU Block) (uncles : list UncleBlock)
    : LU Block * list UncleBlock :=
  match entries with
  | [] => (candidates, uncles)
  | (hash, block) :: entries =>
      if decide (len uncles = max_uncles_num) then (candidates, uncles)
      else if is_candidate_uncle s candidate_number epoch hash block then
        collect_uncles s candidate_number epoch max_uncles_num entries candidates
          (insert_uncle uncles (uncle_from_block block))
      else
        collect_uncles s candidate_number epoch max_uncles_num entries (lru_remove hash candidates) uncles
  end.

Definition prepare_uncles (consensus : Consensus) (s : StoreData) (candidate_number : Z) (epoch : EpochExt)
    (candidates : LU Block) : LU Block * list UncleBlock :=
  collect_uncles s candidate_number epoch (max_uncles_num consensus) (lru_entries candidates) candidates [].

(** ** The template *)

(** The template of a call that finds none in the cache, from the chain under
    the lock; [now] is the time after the cellbase has been made. *)
Definition new_template (self : BlockAssembler) (shared : Shared (M := M) (L := L)) (now : Z)
    (bytes_limit proposals_limit version : Z) (tip_header : Header) (current_epoch : EpochExt)
    (uncles : list UncleBlock) : outcome AssemblerError BlockTemplate :=
  let chain_state := sh_chain shared in
  let consensus := ch_consensus chain_state in
  let s := ch_store chain_state in
  let cycles_limit := max_block_cycles consensus in
  let uncles_count_limit := cast U32_SIZE (max_uncles_num consensus) in
  candidate_number ← h_number tip_header +64 1;
  let cellbase_lock := mkScript (cfg_args (ba_config self)) (cfg_code_hash (ba_config self)) in
  '(cellbase, cellbase_size) ← build_cellbase (ba_config self) consensus s tip_header cellbase_lock;
  let proposals := get_proposals (sh_pool shared) proposals_limit in
  txs_size_limit ← calculate_txs_size_limit (ba_proof_size self) cellbase_size bytes_limit uncles proposals;
  '(entries, size, cycles) ← get_proposed_txs (sh_pool shared) txs_size_limit cycles_limit;
  earliest ← h_timestamp tip_header +64 1;
  Ok (mkBlockTemplate version (ep_difficulty current_epoch) (Z.max now earliest) candidate_number
        (ep_number current_epoch) (h_hash tip_header) cycles_limit bytes_limit uncles_count_limit
        (transform_uncle <$> uncles_order uncles)
        ((fun entry => transform_tx entry false None) <$> entries)
        (ids_order proposals) (transform_cellbase cellbase None) (ba_work_id self)).

(** [store0] is the store before the lock, [now0] the time of the call. *)
Definition get_block_template {E} (self : BlockAssembler) (store0 : StoreData)
    (shared : Shared (M := M) (L := L)) (now0 now : Z)
    (bytes_limit proposals_limit max_version : option Z)
    : outcome E (BlockAssembler * (AssemblerError + BlockTemplate)) :=
  let chain_state := sh_chain shared in
  let consensus := ch_consensus chain_state in
  let cycles_limit := max_block_cycles consensus in
  let '(bytes_limit, proposals_limit, version) :=
    transform_params consensus bytes_limit proposals_limit max_version in
  let last_uncles_updated_at := ba_last_uncles_updated_at self in
  tip0 ← expect (get_tip_header store0);
  earliest ← h_timestamp tip0 +64 1;
  let current_time := Z.max now0 earliest in
  let cached := lru_get (h_hash tip0, cycles_limit, bytes_limit, version) (ba_template_caches self) in
  match (cache ← cached; if is_outdate cache current_time then None else Some (tc_template cache)) with
  | Some template => Ok (self, inr template)
  | None =>
      let tip_header := tip_header chain_state in
      let key := (h_hash tip_header, cycles_limit, bytes_limit, version) in
      let last_txs_updated_at := tp_last_txs_updated_at (sh_pool shared) in
      candidate_number ← h_number tip_header +64 1;
      let cached := lru_get key (ba_template_caches self) in
      match (cache ← cached;
             if is_modified cache last_uncles_updated_at last_txs_updated_at then None
             else Some (tc_template cache)) with
      | Some template => Ok (self, inr template)
      | None =>
          last_epoch ← expect (sd_current_epoch (ch_store chain_state));
          next ← shared_next_epoch_ext consensus (ch_store chain_state) last_epoch tip_header;
          let current_epoch := default last_epoch next in
          let '(candidates, uncles) :=
            prepare_uncles consensus (ch_store chain_state) candidate_number current_epoch
              (ba_candidate_uncles self) in
          let self := mkAssembler (ba_config self) (ba_work_id self) (ba_last_uncles_updated_at self)
            (ba_template_caches self) (ba_proof_size self) candidates in
          template ← catch (new_template self shared now bytes_limit proposals_limit version tip_header
                              current_epoch uncles);
          match template with
          | inl err => Ok (self, inl err)
          | inr template =>
              let cache := mkTemplateCache (bt_current_time template) last_uncles_updated_at
                last_txs_updated_at template in
              Ok (mkAssembler (ba_config self) (wrapping_add U64_SIZE (ba_work_id self) 1)
                    (ba_last_uncles_updated_at self) (lru_insert key cache (ba_template_caches self))
                    (ba_proof_size self) (ba_candidate_uncles self), inr template)
          end
      end
  end.

(** A block of a fork is kept as a candidate. *)
Definition receive_new_uncle (self : BlockAssembler) (now : Z) (uncle_block : Block) : BlockAssembler :=
  mkAssembler (ba_config self) (ba_work_id self) now (ba_template_caches self) (ba_proof_size self)
    (lru_insert (b_hash uncle_block) uncle_block (ba_candidate_uncles self)).

End assembler.
