(* ===== verification/Miner.v ===== *)
(** * The miner

    [miner/src/client.rs], [miner/src/miner.rs] and
    [miner/src/worker/dummy.rs]: the client that asks the node for templates and
    submits blocks, and the loop that gives the work to the workers and checks
    the seals they find.  The answers of the node are arguments; the requests
    and the messages to the workers are the lists of what was sent. *)
From S2P Require Import Prelude Capacity ByteStrings Transactions Blocks Fixtures Protocol Epochs HeaderVerify LinkedMap Cuckoo CuckooSolve JsonTypes.

Definition WORK_CACHE_SIZE : Z := 32.

Record Work := mkWork { wk_work_id : Z; wk_block : Block }.

Inductive RpcError := RpcHttp | RpcCanceled | RpcJson | RpcFail (code : Z).

Record ClientConfig := mkClientConfig { cc_poll_interval : Z; cc_block_on_submit : bool }.

(** [cl_submitted] are the [submit_block] requests: the work id and the block. *)
Record Client := mkClient {
  cl_current_work_id : option Z;
  cl_new_work_tx : list Work;
  cl_config : ClientConfig;
  cl_submitted : list (Z * JBlock)
}.

Definition Client_new (config : ClientConfig) : Client := mkClient None [] config [].

Section miner.
Context {LW : Type -> Type} `{!LruCache H256 LW}.
Context (blake2b : Bytes -> H256) (serialize_raw : RawTransaction -> Bytes)
  (serialize_tx : RawTransaction -> list (list Bytes) -> Bytes)
  (serialize_raw_header : RawHeader -> Bytes) (serialize_header : RawHeader -> Seal -> Bytes)
  (serialize_uncles : list UncleBlock -> Bytes) (merkle_root : list H256 -> H256).

(** ** The client *)

(** The request goes out at once; with [block_on_submit] the client waits for
    the answer and logs it. *)
Definition client_submit_block (self : Client) (work_id : Z) (block : Block) : Client :=
  mkClient (cl_current_work_id self) (cl_new_work_tx self) (cl_config self)
    (cl_submitted self ++ [(work_id, json_block block)]).

(** The block of a template, with the default seal. *)
Definition template_block (block_template : BlockTemplate) : Block :=
  let cellbase := core_transaction blake2b serialize_raw serialize_tx (ct_data (bt_cellbase block_template)) in
  let raw := mkRawHeader (bt_version block_template) (bt_parent_hash block_template)
    (bt_current_time block_template) (bt_number block_template) 0 0 0 (bt_difficulty block_template)
    0 0 (bt_epoch block_template) in
  BlockBuilder_build blake2b serialize_header serialize_uncles merkle_root raw (mkSeal 0 [])
    (core_uncle_template blake2b serialize_header <$> bt_uncles block_template)
    (cellbase :: (core_transaction_template blake2b serialize_raw serialize_tx <$> bt_transactions block_template))
    (bt_proposals block_template).

Definition notify_new_work (self : Client) (block_template : BlockTemplate) : Client :=
  let work := mkWork (bt_work_id block_template) (template_block block_template) in
  mkClient (cl_current_work_id self) (cl_new_work_tx self ++ [work]) (cl_config self) (cl_submitted self).

(** [response] is the answer to [get_block_template]. *)
Definition try_update_block_template (self : Client) (response : RpcError + BlockTemplate) : Client :=
  match response with
  | inr block_template =>
      if decide (cl_current_work_id self <> Some (bt_work_id block_template)) then
        let self := mkClient (Some (bt_work_id block_template)) (cl_new_work_tx self) (cl_config self)
          (cl_submitted self) in
        notify_new_work self block_template
      else self
  | inl _ => self
  end.

(** ** The loop *)

(** [mn_controllers] are the channels of the workers of each controller. *)
Record Miner := mkMiner {
  mn_client : Client;
  mn_works : LW Work;
  mn_controllers : list (list (list WorkerMessage));
  mn_seals_found : Z
}.

Definition notify_workers (self : Miner) (message : WorkerMessage) : Miner :=
  mkMiner (mn_client self) (mn_works self) (map (fun c => send_message c message) (mn_controllers self))
    (mn_seals_found self).

Definition receive_work (self : Miner) (work : Work) : Miner :=
  let hash := pow_hash blake2b serialize_raw_header (h_raw (b_header (wk_block work))) in
  notify_workers (mkMiner (mn_client self) (lru_insert hash work (mn_works self)) (mn_controllers self)
                    (mn_seals_found self)) (NewWork hash).

(** [BlockBuilder::from_block(block).header(raw_header.with_seal(seal)).build()]. *)
Definition sealed_block (block : Block) (seal : Seal) : Block :=
  BlockBuilder_build blake2b serialize_header serialize_uncles merkle_root (h_raw (b_header block)) seal
    (b_uncles block) (b_transactions block) (b_proposals block).

(** [engine] is [verify_proof_difficulty] of the engine. *)
Definition check_seal (engine : Bytes -> Z -> bool) (self : Miner) (response : RpcError + BlockTemplate)
    (hash : H256) (seal : Seal) : Miner :=
  match lru_get hash (mn_works self) with
  | Some work =>
      let self := mkMiner (mn_client self) (lru_refresh hash (mn_works self)) (mn_controllers self)
        (mn_seals_found self) in
      let block := wk_block work in
      if engine (seal_proof seal) (h_difficulty (b_header block)) then
        let self := notify_workers self Stop in
        let block := sealed_block block seal in
        let client := client_submit_block (mn_client self) (wk_work_id work) block in
        let client := try_update_block_template client response in
        let self := notify_workers (mkMiner client (mn_works self) (mn_controllers self)
                                      (mn_seals_found self)) Start in
        mkMiner (mn_client self) (mn_works self) (mn_controllers self) (mn_seals_found self + 1)
      else self
  | None => self
  end.

Inductive MinerEvent :=
| MinerWork (work : Work)
| MinerSeal (hash : H256) (seal : Seal) (response : RpcError + BlockTemplate).

Definition miner_step (engine : Bytes -> Z -> bool) (self : Miner) (event : MinerEvent) : Miner :=
  match event with
  | MinerWork work => receive_work self work
  | MinerSeal hash seal response => check_seal engine self response hash seal
  end.
End miner.

(** ** The dummy worker *)

Record Dummy := mkDummy {
  du_start : bool; du_pow_hash : option H256; du_seal_tx : list (H256 * Seal); du_worker_rx : list WorkerMessage }.

Definition Dummy_new (seal_tx : list (H256 * Seal)) (worker_rx : list WorkerMessage) : Dummy :=
  mkDummy true None seal_tx worker_rx.

(** [recv] waits for a message; here one is there. *)
Definition Dummy_poll (self : Dummy) : Dummy :=
  match du_worker_rx self with
  | [] => self
  | NewWork pow_hash :: rx => mkDummy (du_start self) (Some pow_hash) (du_seal_tx self) rx
  | Stop :: rx => mkDummy false (du_pow_hash self) (du_seal_tx self) rx
  | Start :: rx => mkDummy true (du_pow_hash self) (du_seal_tx self) rx
  end.

Definition Dummy_solve (self : Dummy) (pow_hash : H256) (nonce : Z) : Dummy :=
  mkDummy (du_start self) (du_pow_hash self) (du_seal_tx self ++ [(pow_hash, mkSeal nonce [])]) (du_worker_rx self).

(** One round of [run]; [current] is the work of the round before. *)
Definition Dummy_round (self : Dummy) (current : option H256) (nonce : Z) : Dummy * option H256 :=
  let self := Dummy_poll self in
  let self :=
    if decide (current <> du_pow_hash self /\ du_start self = true) then
      match du_pow_hash self with Some pow_hash => Dummy_solve self pow_hash nonce | None => self end
    else self in
  (self, du_pow_hash self).
