(* ===== verification/MinerSound.v ===== *)
(** * Every block the miner submits carries its work

    The template, the miner's cache of works, the solver and the check of the
    difficulty together: the block that arrives at the node after a seal has
    been found passes the proof of work check of the header. *)
From S2P Require Import Prelude Capacity ByteStrings Transactions Blocks Fixtures Protocol Epochs HeaderVerify LinkedMap Cuckoo CuckooSolve CuckooSound JsonTypes Miner.

Section miner_sound.
Context {LW : Type -> Type} `{Hlru : !LruCache H256 LW} `{!LruLaws H256 LW}.
Context (blake2b : Bytes -> H256) (serialize_raw : RawTransaction -> Bytes)
  (serialize_tx : RawTransaction -> list (list Bytes) -> Bytes)
  (serialize_raw_header : RawHeader -> Bytes) (serialize_header : RawHeader -> Seal -> Bytes)
  (serialize_uncles : list UncleBlock -> Bytes) (merkle_root : list H256 -> H256).
#[local] Abbreviation built :=
  (built_block blake2b serialize_raw serialize_tx serialize_header serialize_uncles merkle_root).
#[local] Abbreviation build := (BlockBuilder_build blake2b serialize_header serialize_uncles merkle_root).
#[local] Abbreviation of_template :=
  (template_block blake2b serialize_raw serialize_tx serialize_header serialize_uncles merkle_root).
#[local] Abbreviation sealed := (sealed_block blake2b serialize_header serialize_uncles merkle_root).
#[local] Abbreviation received :=
  (core_block blake2b serialize_raw serialize_tx serialize_header serialize_uncles merkle_root).

(** ** Blocks that were built *)

Lemma build_again raw seal seal' us txs ps :
  build (h_raw (b_header (build raw seal us txs ps))) seal' us txs ps = build raw seal' us txs ps.
Proof. done. Qed.

Lemma build_raw raw seal seal' us txs ps :
  h_raw (b_header (build raw seal us txs ps)) = h_raw (b_header (build raw seal' us txs ps)).
Proof. done. Qed.

Lemma core_transaction_built json :
  built_transaction blake2b serialize_raw serialize_tx (core_transaction blake2b serialize_raw serialize_tx json).
Proof.
  assert (forall p, point_u32 (core_point p)) as Hp.
  { intros [[c|] b]; unfold point_u32; simpl; [|done]. unfold cast. apply Z.mod_pos_bound. done. }
  split; [|done]. split; apply Forall_fmap, Forall_true; intros x; apply Hp.
Qed.

Lemma built_build raw seal us txs ps :
  Forall (fun u => built_header blake2b serialize_header (uncle_header u)) us ->
  Forall (built_transaction blake2b serialize_raw serialize_tx) txs ->
  built (build raw seal us txs ps).
Proof.
  intros Hu Ht. split; [|split; [done|split; [done|done]]].
  split; [|done]. unfold h_uncles_count. simpl. unfold cast. apply Z.mod_pos_bound. done.
Qed.

Lemma template_built t : built (of_template t).
Proof.
  apply built_build.
  - apply Forall_fmap, Forall_true. intros u. split; [|done].
    unfold h_uncles_count. simpl. unfold cast. apply Z.mod_pos_bound. done.
  - constructor; [apply core_transaction_built|].
    apply Forall_fmap, Forall_true. intros tx. apply core_transaction_built.
Qed.

(** Sealing keeps the raw header, so the hash that was worked on. *)
Lemma sealed_raw b seal : built b -> h_raw (b_header (sealed b seal)) = h_raw (b_header b).
Proof.
  intros (_ & _ & _ & Hr). unfold roots_ok in Hr. unfold sealed_block.
  rewrite (build_raw _ seal (h_seal (b_header b))), Hr. done.
Qed.

Lemma sealed_seal b seal : h_seal (b_header (sealed b seal)) = seal.
Proof. done. Qed.

Lemma sealed_built b seal : built b -> built (sealed b seal).
Proof. intros (_ & Hu & Ht & _). by apply built_build. Qed.

(** ** The runs of the miner *)

Definition Miner_new (client : Client) (controllers : list (list (list WorkerMessage))) : Miner (LW := LW) :=
  mkMiner client (lru_new WORK_CACHE_SIZE) controllers 0.

#[local] Abbreviation engine := (verify_proof_difficulty blake2b).
#[local] Abbreviation step :=
  (miner_step blake2b serialize_raw serialize_tx serialize_raw_header serialize_header serialize_uncles
     merkle_root engine).

(** The works come from templates and the seals from a solver. *)
Definition good_event (E : Type) (cuckoo : Cuckoo) (event : MinerEvent) : Prop :=
  match event with
  | MinerWork work => exists t, wk_block work = of_template t
  | MinerSeal hash seal _ => exists worker worker' nonce,
      cs_cuckoo worker = cuckoo /\ solve (E := E) blake2b worker hash nonce = Ok worker' /\
      (hash, seal) ∈ cs_seal_tx worker' /\ (hash, seal) ∉ cs_seal_tx worker
  end.

Definition has_work (E : Type) (cuckoo : Cuckoo) (submitted : Z * JBlock) : Prop :=
  CuckooEngine_verify_header (E := E) blake2b serialize_raw_header cuckoo (b_header (received submitted.2)) = Ok true.

Record miner_ok (E : Type) (cuckoo : Cuckoo) (self : Miner (LW := LW)) : Prop := {
  mo_works : forall hash work, lru_get hash (mn_works self) = Some work ->
    hash = pow_hash blake2b serialize_raw_header (h_raw (b_header (wk_block work))) /\ built (wk_block work);
  mo_submitted : Forall (has_work E cuckoo) (cl_submitted (mn_client self))
}.

Lemma update_submitted client response :
  cl_submitted (try_update_block_template blake2b serialize_raw serialize_tx serialize_header serialize_uncles
                  merkle_root client response) = cl_submitted client.
Proof. unfold try_update_block_template. destruct response; [done|]. by case_decide. Qed.

Lemma sealed_has_work E cuckoo edge_bits hash work worker worker' nonce seal :
  0 <= edge_bits <= 32 -> Cuckoo_new (E := E) edge_bits (cycle_length cuckoo) = Ok cuckoo -> 3 <= cycle_length cuckoo ->
  hash = pow_hash blake2b serialize_raw_header (h_raw (b_header (wk_block work))) -> built (wk_block work) ->
  cs_cuckoo worker = cuckoo -> solve (E := E) blake2b worker hash nonce = Ok worker' ->
  (hash, seal) ∈ cs_seal_tx worker' -> (hash, seal) ∉ cs_seal_tx worker ->
  engine (seal_proof seal) (h_difficulty (b_header (wk_block work))) = true ->
  has_work E cuckoo (wk_work_id work, json_block (sealed (wk_block work) seal)).
Proof.
  intros Hbits Hnew H3 Hhash Hb <- Hs Hin Hnin Hd.
  destruct (solve_found (E := E) blake2b worker edge_bits hash nonce Hbits Hnew H3)
    as (w & found & Hs' & Htx & Hall).
  rewrite Hs in Hs'. injection Hs' as <-. rewrite Htx in Hin.
  apply elem_of_app in Hin as [Hin|Hin]; [done|].
  rewrite Forall_forall in Hall. destruct (Hall _ Hin) as (_ & Hn & Hv).
  unfold has_work. cbn [snd]. rewrite (core_json_block _ _ _ _ _ _ _ (sealed_built _ seal Hb)).
  unfold CuckooEngine_verify_header, h_difficulty. rewrite sealed_seal, (sealed_raw _ seal Hb).
  unfold h_difficulty in Hd. rewrite Hd, <- Hhash, Hn. exact Hv.
Qed.

Lemma step_ok E cuckoo edge_bits self event :
  0 <= edge_bits <= 32 -> Cuckoo_new (E := E) edge_bits (cycle_length cuckoo) = Ok cuckoo -> 3 <= cycle_length cuckoo ->
  good_event E cuckoo event -> miner_ok E cuckoo self -> miner_ok E cuckoo (step self event).
Proof.
  intros Hbits Hnew H3 Hev [Hw Hsub]. destruct event as [work|hash seal response]; simpl.
  - destruct Hev as [t Ht]. split; [|done]. simpl. intros h w Hg.
    apply lru_get_insert in Hg as [[-> ->]|[_ Hg]]; [|by apply Hw].
    split; [done|]. rewrite Ht. apply template_built.
  - destruct Hev as (worker & worker' & nonce & Hc & Hs & Hin & Hnin).
    unfold check_seal. destruct (lru_get hash (mn_works self)) as [work|] eqn:Hg; [|done].
    destruct (Hw _ _ Hg) as [Hhash Hb].
    destruct (engine (seal_proof seal) _) eqn:Hd.
    + split; simpl.
      * intros h w. rewrite lru_get_refresh. apply Hw.
      * rewrite update_submitted. simpl. apply Forall_app. split; [done|]. constructor; [|done].
        by apply (sealed_has_work E cuckoo edge_bits hash work worker worker' nonce).
    + split; simpl; [|done]. intros h w. rewrite lru_get_refresh. apply Hw.
Qed.

(** C9. Mining is sound from the template to the node.  However the works and
    the seals interleave, when the works are made from templates and the seals are
    those the solver sends, every block the miner submits is, as the node decodes
    it, a block whose header passes the proof of work check of the cuckoo engine:
    its proof is a cycle of the graph of its own header and meets its
    difficulty. *)
Theorem mined_blocks_have_work E cuckoo edge_bits config controllers events :
  0 <= edge_bits <= 32 -> Cuckoo_new (E := E) edge_bits (cycle_length cuckoo) = Ok cuckoo -> 3 <= cycle_length cuckoo ->
  Forall (good_event E cuckoo) events ->
  Forall (has_work E cuckoo)
    (cl_submitted (mn_client (foldl step (Miner_new (Client_new config) controllers) events))).
Proof.
  intros Hbits Hnew H3 Hev.
  enough (forall self, miner_ok E cuckoo self -> miner_ok E cuckoo (foldl step self events)) as H.
  { apply H. split; [|constructor]. simpl. intros h w. by rewrite lru_get_new. }
  induction Hev as [|event events He Hevs IH]; intros self Hok; simpl; [done|].
  apply IH. by apply (step_ok E cuckoo edge_bits).
Qed.
End miner_sound.

(** ** Example: the cuckoo graph of the tests *)

Module MinerExample.
Import ProtocolExample.

Definition raw_header (raw : RawHeader) : Bytes := [].
Definition template : BlockTemplate :=
  mkBlockTemplate 0 1 2000 2 0 5 100 100 2 [] [] [] (mkCellbaseTemplate 0 None (json_transaction (tx 2 [OutPoint_null] 1))) 7.
Definition work : Work :=
  mkWork 7 (template_block test_digest encode_raw encode_tx encode_header encode_uncles root template).
Definition hash : H256 := test_digest [].
Definition seal : Seal := mkSeal 6 (concat (map u32_to_le_bytes test_proof)).
Definition worker : CuckooSimple := CuckooSimple_new test_cuckoo [] [].
Definition worker' : CuckooSimple :=
  ok_value worker (solve (E := unit) test_digest worker hash 6).
Definition events : list MinerEvent := [MinerWork work; MinerSeal hash seal (inl RpcHttp)].

Lemma worker_solves : solve (E := unit) test_digest worker hash 6 = Ok worker'.
Proof. apply ok_value_eq. vm_compute. reflexivity. Qed.
End MinerExample.

Section miner_witness.
Import ProtocolExample MinerExample.

Lemma mined_blocks_have_work_witness :
  let submitted := cl_submitted (mn_client (foldl
    (miner_step (LW := AssocList H256) test_digest encode_raw encode_tx raw_header encode_header encode_uncles root
       (verify_proof_difficulty test_digest)) (Miner_new (Client_new (mkClientConfig 0 false)) []) events)) in
  length submitted = 1%nat /\
  Forall (has_work test_digest encode_raw encode_tx raw_header encode_header encode_uncles root unit test_cuckoo) submitted.
Proof.
  cbv zeta. split; [vm_compute; reflexivity|].
  apply (mined_blocks_have_work (LW := AssocList H256) test_digest encode_raw encode_tx raw_header encode_header
           encode_uncles root unit test_cuckoo 6).
  - lia.
  - reflexivity.
  - vm_compute. discriminate.
  - constructor; [by exists template|]. constructor; [|constructor].
    exists worker, worker', 6. split; [reflexivity|]. split; [exact worker_solves|].
    split; [|apply not_elem_of_nil]. refine (bool_decide_unpack _ _). vm_compute. exact I.
Defined.
End miner_witness.
