(* ===== verification/AssemblerSound.v ===== *)
(** * Blocks made from a fresh template are accepted

    The block assembler against the verification of blocks: what the miner gets
    by sealing the block of a template passes the checks of the header, the
    checks of the block on its own and the contextual checks up to the
    transactions themselves. *)
From S2P Require Import Prelude Capacity ByteStrings Transactions Blocks Fixtures Protocol CellSet LiveCells Cells Epochs ChainStore Fork VerifyErrors ProposalTable Dao Reward MedianTime HeaderVerify Scripts TxVerify BlockVerify LinkedMap ProposedPool PoolLinks PoolCommit TxPool ChainPool ChainService ChainInvariant ChainReach PoolTemplate PoolSafety JsonTypes BlockAssembler Miner MinerSound.

(** ** Timestamps *)

Lemma below_mono a b l : a <= b -> (below a l <= below b l)%nat.
Proof. intros H. induction l as [|x l IH]; [done|]. rewrite !below_cons. repeat case_decide; lia. Qed.

(** The median after a block whose timestamp is above the median before it is
    at most that timestamp. *)
Lemma median_below_new l k t m m' :
  median l = Some m -> median (t :: take k l) = Some m' -> m < t -> (length l <= S k)%nat -> m' <= t.
Proof.
  intros Hm Hm' Ht Hk. destruct (decide (m' <= t)) as [|Hn]; [done|exfalso].
  assert (below (t + 1) (t :: take k l) <= length (t :: take k l) / 2)%nat as H1
    by (apply (median_spec _ m' (t + 1) Hm'); lia).
  assert (~ (below t l <= length l / 2)%nat) as H2 by (rewrite <- (median_spec l m t Hm); lia).
  assert (below t l <= below (t + 1) l)%nat as H3 by (apply below_mono; lia).
  assert (below (t + 1) l <= below (t + 1) (take k l) + length (drop k l))%nat as H4.
  { rewrite <- (take_drop k l) at 1. rewrite below_app. unfold below at 2. pose proof (length_filter (fun x => x < t + 1) (drop k l)). lia. }
  rewrite below_cons, decide_True in H1 by lia. rewrite length_cons, length_take in H1.
  rewrite length_drop in H4.
  destruct (decide (length l <= k)%nat).
  - rewrite Nat.min_r in H1 by done.
    pose proof (Nat.div_mod (length l) 2). pose proof (Nat.div_mod (S (length l)) 2).
    pose proof (Nat.mod_upper_bound (length l) 2). pose proof (Nat.mod_upper_bound (S (length l)) 2). lia.
  - rewrite Nat.min_l in H1 by lia. replace (length l) with (S k) in * by lia. lia.
Qed.

Lemma tip_median_time {E} consensus s tip b now :
  is_main s tip -> 0 < tip < U64_SIZE - 1 -> 0 < median_time_block_count consensus -> main_block s tip = Some b ->
  TimestampVerifier_verify (ChainState_median_context consensus s) now (b_header b) = Ok tt ->
  exists m, block_median_time (E := E) (ChainState_median_context consensus s) tip (b_hash b) = Ok m /\
    m <= h_timestamp (b_header b).
Proof.
  intros Hm Ht Hc Hb Hok. set (ctx := ChainState_median_context consensus s) in *.
  destruct (main_block_Some s tip tip Hm ltac:(lia)) as (b' & Hb' & _ & _ & Hbn & Hp).
  rewrite Hb in Hb'. injection Hb' as <-. specialize (Hp ltac:(lia)).
  destruct (main_block_Some s tip (tip - 1) Hm ltac:(lia)) as (pb & Hpb & Hph & _).
  rewrite Hp in Hph. injection Hph as Hph.
  destruct (block_median_time_main (E := E) ctx s tip tip b) as (m' & Hm' & Hmed'); try done; [lia..|].
  destruct (block_median_time_main (E := VerifyError) ctx s tip (tip - 1) pb) as (m & Hmt & Hmed); try done; [lia..|].
  change (h_number (b_header b)) with (b_number b) in *.
  apply TimestampVerifier_Ok in Hok as (_ & min & Hmin & Hlt & _); [|unfold b_number in Hbn; lia].
  change (h_number (b_header b)) with (b_number b) in Hmin. rewrite Hbn in Hmin.
  change (h_parent_hash (b_header b)) with (b_parent b) in Hmin. rewrite Hph, Hmt in Hmin. injection Hmin as <-.
  exists m'. split; [done|].
  set (count := median_block_count ctx) in *.
  assert (0 < count) by done.
  destruct (median_span count tip) as [|k] eqn:Hk; [unfold median_span in Hk; lia|].
  rewrite past_timestamps_S in Hmed'. unfold main_timestamp at 1 in Hmed'. rewrite Hb in Hmed'. simpl from_option in Hmed'.
  assert (k <= median_span count (tip - 1) <= S k)%nat as Hspan by (unfold median_span in *; lia).
  rewrite <- (take_past_timestamps s (tip - 1) k (median_span count (tip - 1))) in Hmed' by lia.
  eapply median_below_new; [exact Hmed|exact Hmed'|lia|]. rewrite length_past_timestamps. lia.
Qed.

(** ** Proposals *)

(** Every block that commits only what the table offers passes [CommitVerifier]. *)
Lemma commit_offered w s tip lo t block :
  is_main s tip -> table_tracks w s tip lo t -> window_start w tip <= lo ->
  0 <= farthest w -> 1 <= closest w <= tip ->
  b_number block = tip + 1 -> sd_hash_of s !! tip = Some (b_parent block) ->
  committed_ids block ⊆ pt_set t -> CommitVerifier_verify s w block = Ok tt.
Proof.
  intros Hm Ht Hlo Hf Hc Hn Hp Hsub. unfold CommitVerifier_verify, h_is_genesis.
  change (h_number (b_header block)) with (b_number block).
  rewrite bool_decide_eq_false_2 by lia. rewrite Hn.
  destruct (main_block_Some s tip tip Hm ltac:(lia)) as (tb & Htb & Hth & _ & Htn & _).
  rewrite Hp in Hth. injection Hth as Hth. rewrite Hth.
  assert (saturating_sub (tip + 1) (closest w) = window_end w tip /\ 0 < window_end w tip <= tip)
    as [-> Hend] by (unfold window_end, saturating_sub; lia).
  rewrite (get_ancestor_main s tip) by (done || congruence || lia).
  destruct (main_block_Some s tip (window_end w tip) Hm ltac:(lia)) as (eb & Heb & Heh & _).
  rewrite Heb. cbn [fmap option_fmap option_map ok_or]. rewrite bind_ret_l.
  destruct (collect_proposals_main s tip (Z.to_nat (window_end w tip))
    (saturating_sub (tip + 1) (farthest w)) (b_hash eb) ∅ Hm)
    as (ids & Hids & Hin); [unfold saturating_sub; lia|lia|by rewrite Z2Nat.id by lia|].
  change (h_hash (b_header eb)) with (b_hash eb). rewrite Hids, bind_ret_l.
  unfold ensure. rewrite bool_decide_eq_true_2; [done|].
  enough (pt_set t ⊆ ids) by set_solver.
  intros id. rewrite (tt_set _ _ _ _ _ Ht), Hin, Z2Nat.id by lia. intros (i & Hi & Hid).
  right. exists i. split; [|done]. unfold window_start, saturating_sub in *. lia.
Qed.

(** ** The cellbase *)
Section assembler_sound.
Context {M L LT LU : Type -> Type} `{LM : !LinkedHashMap Bytes M} `{!LinkedHashMapLaws Bytes M}
  `{LL : !LruCache Bytes L} `{LLT : !LruCache TemplateKey LT} `{LLU : !LruCache H256 LU}.
Context (blake2b : Bytes -> H256) (serialize_raw : RawTransaction -> Bytes)
  (serialize_tx : RawTransaction -> list (list Bytes) -> Bytes)
  (serialize_header : RawHeader -> Seal -> Bytes)
  (serialize_uncles : list UncleBlock -> Bytes) (merkle_root : list H256 -> H256).
Context (ids_order : gset Bytes -> list Bytes) (uncles_order : list UncleBlock -> list UncleBlock).
Context (pow : PowEngine).

Lemma custom_output_inv config reward output output' :
  custom_output config reward output = Ok output' ->
  co_capacity output' = co_capacity output /\ co_lock output' = co_lock output /\
  co_type output' = co_type output /\ 0 <= reward.
Proof.
  unfold custom_output. intros H. apply bind_Ok in H as (occ & Hocc & H).
  assert (0 <= occ).
  { apply map_err_Ok in Hocc. rewrite (occ_spec output) in Hocc. apply bytes_Ok in Hocc as [-> _].
    pose proof (occ_size_nonneg output). unfold BYTE_SHANNONS. lia. }
  case_decide; [done|]. case_decide; [injection H as <-; split_and!; done || lia|].
  apply bind_Ok in H as (max & _ & H). injection H as <-. split_and!; done || lia.
Qed.

(** The lock and the reward that the verification of a block on [tip] asks for. *)
Definition expected_reward (consensus : Consensus) (s : StoreData) (tip : Header) (lock : Script)
    (reward : Capacity) : Prop :=
  exists reserve, farthest (tx_proposal_window consensus) + 1 = reserve /\ reserve < U64_SIZE /\
  if decide (reserve < h_number tip + 1) then finalize_block_reward consensus s tip = Ok (lock, reward)
  else lock = bootstrap_lock consensus /\ block_reward (genesis_epoch_ext consensus) (h_number tip + 1) = Ok reward.

Lemma build_cellbase_inv config consensus s tip lock cb size :
  ep_block_reward (genesis_epoch_ext consensus) < U64_SIZE ->
  build_cellbase blake2b serialize_raw serialize_tx config consensus s tip lock = Ok (cb, size) ->
  size = Transaction_serialized_size cb /\ h_number tip + 1 < U64_SIZE /\
  exists output, cb = build_cellbase_tx blake2b serialize_raw serialize_tx (new_cellbase_input (h_number tip + 1)) output (into_witness lock) /\
    co_type output = None /\ 0 <= co_capacity output < U64_SIZE /\
    expected_reward consensus s tip (co_lock output) (co_capacity output).
Proof.
  intros Hep H. unfold build_cellbase in H. apply bind_Ok in H as (n & Hn & H).
  apply add_w_Ok in Hn as [-> Hn]. apply bind_Ok in H as (reserve & Hr & H).
  apply add_w_Ok in Hr as [-> Hr]. apply bind_Ok in H as (tx & Htx & H). injection H as -> <-.
  split; [done|]. split; [done|]. unfold expected_reward.
  case_decide as Hd.
  - unfold ordinary_cellbase in Htx. rewrite add_w_eq, bind_ret_l in Htx by done.
    apply bind_Ok in Htx as ([target_lock reward] & Hf%map_err_Ok & Htx).
    apply bind_Ok in Htx as (output & Ho & Htx). injection Htx as <-.
    apply custom_output_inv in Ho as (Hc & Hl & Ht & Hpos). simpl in Hc, Hl, Ht. exists output.
    split; [done|]. split; [done|]. rewrite Hc, Hl. split; [split; [done|]|].
    + unfold finalize_block_reward in Hf. capacity_inv. simplify_eq. lia.
    + eexists. split; [done|]. split; [done|]. by rewrite decide_True.
  - unfold bootstrap_cellbase in Htx. apply bind_Ok in Htx as (reward & Hb%map_err_Ok & Htx).
    apply bind_Ok in Htx as (output & Ho & Htx). injection Htx as <-.
    apply custom_output_inv in Ho as (Hc & Hl & Ht & Hpos). simpl in Hc, Hl, Ht. exists output.
    split; [done|]. split; [done|]. rewrite Hc, Hl. split; [split; [done|]|].
    + unfold block_reward in Hb. case_decide; capacity_inv; try case_decide; capacity_inv; simplify_eq; lia.
    + eexists. split; [done|]. split; [done|]. by rewrite decide_False.
Qed.

Lemma reward_accepted consensus s tip cb rtx resolved input output witness :
  rtx_transaction rtx = cb -> cb = build_cellbase_tx blake2b serialize_raw serialize_tx input output witness ->
  h_number tip + 1 < U64_SIZE -> 0 <= co_capacity output < U64_SIZE ->
  expected_reward consensus s tip (co_lock output) (co_capacity output) ->
  RewardVerifier_verify consensus s (rtx :: resolved) tip =
  try_map (fun tx => map_err (fun _ => ErrFeeCalculation) (calculate_transaction_fee (DataLoaderWrapper s) tx)) resolved.
Proof.
  intros Hrtx Hcb Hn Hcap (reserve & Hres & Hrs & Hrew). unfold RewardVerifier_verify.
  cbn [lookup list_lookup expect drop]. rewrite bind_ret_l, Hrtx.
  assert (outputs_capacity cb = Ok (co_capacity output)) as Hout.
  { rewrite Hcb. unfold outputs_capacity. rewrite safe_sum_spec by (repeat constructor; lia).
    cbn. by rewrite decide_True by lia; f_equal; lia. }
  assert (tx_outputs cb !! 0%nat = Some output) as Hfirst by (by rewrite Hcb).
  rewrite add_w_eq, bind_ret_l by done. unfold reserve_number, finalization_delay_length.
  rewrite add_w_eq, bind_ret_l by (by rewrite Hres). rewrite Hres.
  case_decide as Hd.
  - rewrite Hrew. cbn [map_err]. rewrite !bind_ret_l, Hout. cbn [map_err]. rewrite bind_ret_l, Hfirst.
    rewrite bool_decide_eq_true_2 by done. cbn [expect ensure]. rewrite !bind_ret_l.
    by rewrite bool_decide_eq_true_2.
  - destruct Hrew as [Hl Hrew]. rewrite Hout, Hrew. cbn [map_err]. rewrite !bind_ret_l, Hfirst.
    rewrite bool_decide_eq_true_2 by done. cbn [expect ensure]. rewrite !bind_ret_l.
    by rewrite bool_decide_eq_true_2.
Qed.

(** ** Sizes *)
Lemma take_proposed_size {E} sl cl l : forall s0 c0 entries s1 c1,
  take_proposed (E := E) sl cl s0 c0 l = Ok (entries, s1, c1) -> s0 <= sl ->
  s0 + sum_z (pe_size <$> entries) <= sl.
Proof.
  induction l as [|x l IH]; intros s0 c0 entries s1 c1 H Hs; cbn in H; [injection H as <- _ _; cbn; lia|].
  apply bind_Ok in H as (cy & _ & H). apply bind_Ok in H as (sz & Hsz & H). apply add_w_Ok in Hsz as [-> _].
  destruct (_ && _) eqn:Hlt; [|injection H as <- _ _; cbn; lia].
  apply andb_true_iff in Hlt as [Hlt%bool_decide_eq_true _].
  apply bind_Ok in H as ([[es s2] c2] & Hrec & H). injection H as <- _ _.
  apply IH in Hrec; [|lia]. rewrite fmap_cons. unfold sum_z in *. cbn [foldr]. lia.
Qed.

(** ** Uncles *)
Lemma collect_uncles_ok (P : UncleBlock -> Prop) s n epoch max entries : forall candidates uncles candidates' uncles',
  (forall h b, (h, b) ∈ entries -> is_candidate_uncle s n epoch h b = true -> P (uncle_from_block b)) ->
  Forall P uncles -> NoDup (uncle_hash <$> uncles) -> len uncles <= max ->
  collect_uncles (LU := LU) s n epoch max entries candidates uncles = (candidates', uncles') ->
  Forall P uncles' /\ NoDup (uncle_hash <$> uncles') /\ len uncles' <= max.
Proof.
  induction entries as [|[h b] entries IH]; intros candidates uncles candidates' uncles' HP Hf Hnd Hlen H; cbn in H.
  { by injection H as _ <-. }
  case_decide as Hmax; [by injection H as _ <-|].
  destruct (is_candidate_uncle s n epoch h b) eqn:Hc;
    apply IH in H; try done; try (intros h' b' Hin; apply HP; by constructor).
  - unfold insert_uncle. case_decide; [done|]. apply Forall_app. split; [done|]. constructor; [|done].
    apply (HP h); [by constructor|done].
  - unfold insert_uncle. case_decide as Hin; [done|]. rewrite fmap_app. apply NoDup_app.
    split; [done|]. split; [|apply NoDup_singleton]. intros x Hx Hx'. apply Hin.
    apply list_elem_of_singleton in Hx'. simpl in Hx'. by subst x.
  - unfold insert_uncle. case_decide; [done|]. unfold len in *. rewrite length_app. simpl. lia.
Qed.

(** ** What the template needs *)

(** The chain: the invariant of the node; the epoch of the tip is the current
    one; the proposal table is cut to the window and the chain is as long as its
    closest distance; the tip passed the check of its timestamp; and the
    parameters of the consensus have their types. *)
Record chain_ready (c : ChainState) : Prop := {
  cr_chain : chain_ok c;
  cr_epoch : get_block_epoch (ch_store c) (tip_hash c) = Some (ch_current_epoch_ext c);
  cr_table : exists lo, window_start (tx_proposal_window (ch_consensus c)) (tip_number c) <= lo /\
    table_tracks (tx_proposal_window (ch_consensus c)) (ch_store c) (tip_number c) lo (ch_proposal_ids c);
  cr_window : 1 <= closest (tx_proposal_window (ch_consensus c)) <= tip_number c;
  cr_time : exists now, TimestampVerifier_verify (ChainState_median_context (ch_consensus c) (ch_store c)) now
    (tip_header c) = Ok tt;
  cr_median : 0 < median_time_block_count (ch_consensus c);
  cr_proposals : 0 <= max_block_proposals_limit (ch_consensus c);
  cr_uncles : 0 <= max_uncles_num (ch_consensus c) < U32_SIZE;
  cr_bytes : max_block_bytes (ch_consensus c) < U64_SIZE;
  cr_version : block_version (ch_consensus c) = HEADER_VERSION;
  cr_reward : ep_block_reward (genesis_epoch_ext (ch_consensus c)) < U64_SIZE
}.

(** The pool: its transactions can be mined at the tip, are built by the
    constructors, are entered with their sizes, and are proposed. *)
Record pool_ready (c : ChainState) (pool : TxPool M L) : Prop := {
  pr_mineable : mineable c (tp_proposed pool);
  pr_entry : forall id e, proposed_get (tp_proposed pool) id = Some e ->
    built_transaction blake2b serialize_raw serialize_tx (pe_transaction e) /\
    pe_size e = Transaction_serialized_size (pe_transaction e) /\ id ∈ pt_set (ch_proposal_ids c)
}.

(** A candidate for an uncle is a block that was verified, under its hash. *)
Definition candidate_ok (consensus : Consensus) (entry : H256 * Block) : Prop :=
  let '(hash, block) := entry in
  hash = b_hash block /\ built_header blake2b serialize_header (b_header block) /\
  len (b_proposals block) <= max_block_proposals_limit consensus /\
  h_proposals_hash (b_header block) = cal_proposals_hash blake2b (b_proposals block) /\
  NoDup (b_proposals block) /\ verify_header pow (b_header block) = true.

(** ** The block of a template *)
#[local] Abbreviation build := (BlockBuilder_build blake2b serialize_header serialize_uncles merkle_root).
#[local] Abbreviation of_template :=
  (template_block blake2b serialize_raw serialize_tx serialize_header serialize_uncles merkle_root).
#[local] Abbreviation sealed := (sealed_block blake2b serialize_header serialize_uncles merkle_root).

Lemma entries_in_pool {E} pool sl cl entries size cycles :
  get_proposed_txs (M := M) (L := L) (E := E) pool sl cl = Ok (entries, size, cycles) ->
  exists n, pe_transaction <$> entries = take n (pool_txs (tp_proposed pool)) /\
    Forall (fun e => exists id, proposed_get (tp_proposed pool) id = Some e) entries.
Proof.
  intros [n ->]%take_proposed_prefix. exists n. split.
  - rewrite fmap_take. f_equal. unfold pool_txs, shape, txs_iter. by rewrite <- !list_fmap_compose.
  - apply Forall_take, Forall_forall. intros e ((id & e') & -> & Hin)%list_elem_of_fmap.
    exists id. by apply lhm_get_entries.
Qed.

Lemma cellbase_tx_built n output witness :
  built_transaction blake2b serialize_raw serialize_tx
    (build_cellbase_tx blake2b serialize_raw serialize_tx (new_cellbase_input n) output witness).
Proof. split; [|done]. split; [constructor|]. by repeat constructor. Qed.

(** The header of the block, before the roots. *)
Definition template_raw (tip : Header) (epoch : EpochExt) (version timestamp : Z) : RawHeader :=
  mkRawHeader version (h_hash tip) timestamp (h_number tip + 1) 0 0 0 (ep_difficulty epoch) 0 0 (ep_number epoch).

Lemma new_template_block self shared now bytes_limit proposals_limit version epoch uncles t seal :
  let c := sh_chain shared in
  chain_ready c -> pool_ready c (sh_pool shared) ->
  Forall (fun u => built_header blake2b serialize_header (uncle_header u)) (uncles_order uncles) ->
  new_template (LT := LT) (LU := LU) blake2b serialize_raw serialize_tx ids_order uncles_order self shared now
    bytes_limit proposals_limit version (tip_header c) epoch uncles = Ok t ->
  exists cb size entries esize cycles limit,
    build_cellbase blake2b serialize_raw serialize_tx (ba_config self) (ch_consensus c) (ch_store c) (tip_header c)
      (mkScript (cfg_args (ba_config self)) (cfg_code_hash (ba_config self))) = Ok (cb, size) /\
    calculate_txs_size_limit (ba_proof_size self) size bytes_limit uncles (get_proposals (sh_pool shared) proposals_limit) = Ok limit /\
    get_proposed_txs (E := AssemblerError) (sh_pool shared) limit (max_block_cycles (ch_consensus c)) = Ok (entries, esize, cycles) /\
    sealed (of_template t) seal =
      build (template_raw (tip_header c) epoch version (Z.max now (h_timestamp (tip_header c) + 1))) seal
        (uncles_order uncles) (cb :: (pe_transaction <$> entries)) (ids_order (get_proposals (sh_pool shared) proposals_limit)).
Proof.
  intros c Hc Hp Hu H. unfold new_template in H. fold c in H.
  apply bind_Ok in H as (n & Hn & H). apply add_w_Ok in Hn as [-> _].
  apply bind_Ok in H as ([cb size] & Hcb & H). apply bind_Ok in H as (limit & Hl & H).
  apply bind_Ok in H as ([[entries esize] cycles] & He & H).
  apply bind_Ok in H as (earliest & Ht & H). apply add_w_Ok in Ht as [-> _]. injection H as <-.
  exists cb, size, entries, esize, cycles, limit. split_and!; [done..|].
  destruct (build_cellbase_inv _ _ _ _ _ _ _ (cr_reward _ Hc) Hcb) as (_ & _ & output & Hcb' & _).
  unfold sealed_block, template_block. rewrite build_again. cbn.
  rewrite (core_json_transaction blake2b serialize_raw serialize_tx cb) by (rewrite Hcb'; apply cellbase_tx_built).
  rewrite (fmap_round_trip transform_uncle _ (fun u => built_header blake2b serialize_header (uncle_header u)));
    [|intros u Hbu; unfold core_uncle_template; cbn; rewrite core_json_header by done; by destruct u|done].
  f_equal. f_equal. rewrite <- list_fmap_compose. apply list_fmap_ext. intros i e Hin.
  unfold compose, core_transaction_template, transform_tx. cbn. apply core_json_transaction.
  destruct (entries_in_pool _ _ _ _ _ _ He) as (_ & _ & Hin'). rewrite Forall_forall in Hin'.
  destruct (Hin' e) as [id Hid]; [by eapply list_elem_of_lookup_2|]. apply (pr_entry _ _ Hp id e Hid).
Qed.

(** ** The checks *)
Section checks.
Context (shared : Shared (M := M) (L := L)) (config : BlockAssemblerConfig).
#[local] Abbreviation c := (sh_chain shared).
#[local] Abbreviation consensus := (ch_consensus c).
#[local] Abbreviation s := (ch_store c).
Context (Hc : chain_ready c) (Hp : pool_ready c (sh_pool shared)).
Context (version timestamp bytes_limit proposals_limit : Z) (epoch : EpochExt) (seal : Seal)
  (cb : Transaction) (size : Z) (entries : list ProposedEntry) (esize cycles limit : Z) (uncles : list UncleBlock).
#[local] Abbreviation proposals := (get_proposals (sh_pool shared) proposals_limit).
#[local] Abbreviation lock := (mkScript (cfg_args config) (cfg_code_hash config)).
#[local] Abbreviation block :=
  (build (template_raw (tip_header c) epoch version timestamp) seal (uncles_order uncles)
     (cb :: (pe_transaction <$> entries)) (ids_order proposals)).
Context (Hcb : build_cellbase blake2b serialize_raw serialize_tx config consensus s (tip_header c) lock = Ok (cb, size))
  (Hlimit : calculate_txs_size_limit (proof_size pow) size bytes_limit uncles proposals = Ok limit)
  (Hentries : get_proposed_txs (E := AssemblerError) (sh_pool shared) limit (max_block_cycles consensus) = Ok (entries, esize, cycles))
  (Hids : forall X, ids_order X ≡ₚ elements X) (Hus : forall l, uncles_order l ≡ₚ l).

Lemma tip_nonneg : 0 < tip_number c < U64_SIZE - 1.
Proof. pose proof (cr_window _ Hc). pose proof (co_number _ (cr_chain _ Hc)). lia. Qed.

Lemma txs_in_pool : Forall (fun e => exists id, proposed_get (tp_proposed (sh_pool shared)) id = Some e) entries.
Proof. by destruct (entries_in_pool _ _ _ _ _ _ Hentries) as (_ & _ & ?). Qed.

Lemma entries_size : sum_z (Transaction_serialized_size <$> (pe_transaction <$> entries)) = sum_z (pe_size <$> entries).
Proof.
  rewrite <- list_fmap_compose. f_equal. apply list_fmap_ext. intros i e He. unfold compose.
  pose proof txs_in_pool as H. rewrite Forall_forall in H. destruct (H e) as [id Hid]; [by eapply list_elem_of_lookup_2|].
  symmetry. apply (pr_entry _ _ Hp id e Hid).
Qed.

Lemma block_size : Block_serialized_size block (proof_size pow) <= bytes_limit.
Proof.
  unfold calculate_txs_size_limit in Hlimit. apply ok_or_Ok in Hlimit as H.
  unfold checked_sub in H. case_decide as Hle; [|done]. injection H as H.
  destruct (build_cellbase_inv _ _ _ _ _ _ _ (cr_reward _ Hc) Hcb) as (Hsize & _).
  pose proof (take_proposed_size _ _ _ _ _ _ _ _ Hentries ltac:(lia)) as Hsum.
  unfold Block_serialized_size, UncleBlock_serialized_size in *. cbn [b_uncles b_proposals b_transactions BlockBuilder_build].
  rewrite fmap_cons. change (sum_z (?x :: ?l)) with (x + sum_z l).
  rewrite entries_size.
  rewrite (sum_z_perm _ ((fun _ => Header_serialized_size (proof_size pow)) <$> uncles)) by (by rewrite Hus).
  assert (len (ids_order proposals) = Z.of_nat (base.size proposals)) as -> by (unfold len; by rewrite Hids).
  lia.
Qed.

Lemma Transaction_size_nonneg tx : 0 <= Transaction_serialized_size tx.
Proof.
  assert (forall o, 0 <= OutPoint_serialized_size o) as Ho.
  { intros [[?|] [?|]]; unfold OutPoint_serialized_size; cbn; try lia. }
  unfold Transaction_serialized_size.
  assert (0 <= sum_z (OutPoint_serialized_size <$> tx_deps tx)) by (apply sum_z_nonneg, Forall_fmap, Forall_true; auto).
  assert (0 <= sum_z (CellInput_serialized_size <$> tx_inputs tx)).
  { apply sum_z_nonneg, Forall_fmap, Forall_true. intros i. unfold compose, CellInput_serialized_size.
    pose proof (Ho (ci_previous_output i)). lia. }
  assert (0 <= sum_z (CellOutput_serialized_size <$> tx_outputs tx))
    by (apply sum_z_nonneg, Forall_fmap, Forall_true; intros o; apply (occ_size_nonneg o)).
  assert (0 <= sum_z (len <$> concat (tx_witnesses tx))) by (apply sum_z_nonneg, Forall_fmap, Forall_true; intros w; apply len_nonneg).
  lia.
Qed.

Lemma block_size_nonneg b n : 0 <= n -> 0 <= Block_serialized_size b n.
Proof.
  intros Hn. unfold Block_serialized_size, UncleBlock_serialized_size, Header_serialized_size, RawHeader_serialized_size.
  pose proof (len_nonneg (b_proposals b)).
  assert (0 <= sum_z ((fun _ => 4 + 32 * 5 + 32 + 8 * 3 + 4 + n + 8) <$> b_uncles b))
    by (apply sum_z_nonneg, Forall_fmap, Forall_true; intros u; cbn; lia).
  assert (0 <= sum_z (Transaction_serialized_size <$> b_transactions b))
    by (apply sum_z_nonneg, Forall_fmap, Forall_true; intros u; apply Transaction_size_nonneg).
  lia.
Qed.

Lemma block_cellbase : u256 (cfg_code_hash config) -> cellbase_ok block.
Proof.
  intros Hcode. destruct (build_cellbase_inv _ _ _ _ _ _ _ (cr_reward _ Hc) Hcb) as (_ & _ & output & -> & Hty & _).
  do 4 eexists. split_and!; [done|done| |done|by apply from_into_witness|by repeat constructor|done].
  apply Forall_fmap. eapply Forall_impl; [exact txs_in_pool|]. intros e [id He].
  apply (mi_cellbase _ _ (pr_mineable _ _ Hp) id e He).
Qed.

Lemma block_own_checks :
  u256 (cfg_code_hash config) -> 0 <= proof_size pow -> bytes_limit <= max_block_bytes consensus ->
  proposals_limit <= max_block_proposals_limit consensus ->
  tx_hash cb ∉ tx_hash <$> pool_txs (tp_proposed (sh_pool shared)) ->
  BlockVerifier_verify blake2b merkle_root consensus pow block = Ok tt.
Proof.
  intros Hcode Hpow Hbytes Hlim Hnew. apply BlockVerifier_iff.
  split_and!; [| | | |done..].
  - cbn. unfold len. rewrite Hids. change (length (elements proposals)) with (base.size proposals).
    pose proof (size_list_to_set_le (take (Z.to_nat proposals_limit)
      (pending_keys (tp_pending (sh_pool shared)) ++ pending_keys (tp_gap (sh_pool shared))))) as Hs.
    rewrite length_take in Hs. unfold get_proposals. pose proof (cr_proposals _ Hc). lia.
  - intros _. split; [|by apply block_cellbase].
    pose proof block_size. pose proof (block_size_nonneg block _ Hpow). unfold cast.
    pose proof (Z.mod_le (Block_serialized_size block (proof_size pow)) U64_SIZE). lia.
  - cbn [b_transactions BlockBuilder_build]. rewrite fmap_cons.
    destruct (entries_in_pool _ _ _ _ _ _ Hentries) as (n & -> & _). rewrite fmap_take. apply NoDup_cons. split.
    + intros (i & Hi & _)%elem_of_take. apply Hnew. by eapply list_elem_of_lookup_2.
    + eapply sublist_NoDup; [|apply sublist_take]. apply pool_hashes. apply (mi_pool _ _ (pr_mineable _ _ Hp)).
  - cbn. rewrite Hids. apply NoDup_elements.
Qed.

Lemma tip_block : exists b, main_block s (tip_number c) = Some b /\ b_hash b = tip_hash c /\ b_header b = tip_header c /\
  get_block_header s (tip_hash c) = Some (tip_header c).
Proof.
  destruct (co_tip _ (cr_chain _ Hc)) as (b & Hb & Hh). exists b.
  unfold main_block, get_block_header. rewrite (co_top _ (cr_chain _ Hc)). cbn. rewrite Hb.
  split_and!; [done|unfold b_hash, tip_hash; by rewrite Hh|done|cbn; by rewrite Hh].
Qed.

Context (next : option EpochExt)
  (Hnext : shared_next_epoch_ext (E := VerifyError) consensus s (ch_current_epoch_ext c) (tip_header c) = Ok next)
  (Hepoch : epoch = default (ch_current_epoch_ext c) next).

Lemma block_header_checks now :
  version = HEADER_VERSION -> verify_header pow (b_header block) = true ->
  h_timestamp (tip_header c) < timestamp <= now + ALLOWED_FUTURE_BLOCKTIME ->
  now + ALLOWED_FUTURE_BLOCKTIME < U64_SIZE ->
  exists resolver, HeaderResolverWrapper_new (E := VerifyError) consensus s (b_header block) = Ok resolver /\
    HeaderVerifier_verify pow (ChainState_median_context consensus s) now resolver = Ok tt.
Proof.
  intros Hv Hpow Hts Hnow. destruct tip_block as (b & Hb & Hbh & Hbt & Htip). pose proof tip_nonneg as Htn.
  exists (mkResolver (b_header block) (Some (tip_header c)) (Some epoch)). split.
  - unfold HeaderResolverWrapper_new. change (h_parent_hash (b_header block)) with (tip_hash c).
    rewrite Htip. cbn [mbind option_bind]. change (h_hash (tip_header c)) with (tip_hash c).
    rewrite (cr_epoch _ Hc). cbn [mbind option_bind]. by rewrite Hnext, !bind_ret_l, <- Hepoch.
  - destruct (cr_time _ Hc) as [now0 Hnow0].
    destruct (tip_median_time (E := VerifyError) consensus s (tip_number c) b now0) as (m & Hm & Hle);
      [apply (co_main _ (cr_chain _ Hc))|done|apply (cr_median _ Hc)|done|by rewrite Hbt|].
    apply (HeaderVerifier_iff pow _ now _ (tip_header c)); [done|fold (tip_number c); lia|done|].
    rewrite Hbh in Hm. rewrite Hbt in Hle.
    split_and!; [done|done|done| |by exists epoch]. exists m. split; [exact Hm|]. unfold h_timestamp at 1 2. cbn. lia.
Qed.

Context (Huncles : Forall (fun u => exists h b, u = uncle_from_block b /\ candidate_ok consensus (h, b) /\
    h <> b_hash block /\ is_candidate_uncle s (tip_number c + 1) epoch h b = true) uncles)
  (Hunique : NoDup (uncle_hash <$> uncles)) (Hcount : len uncles <= max_uncles_num consensus).
#[local] Abbreviation fork := (mkForkContext [] [] s).

Lemma block_uncles :
  UnclesVerifier_verify blake2b serialize_uncles (UncleVerifierContext_new consensus pow fork epoch block) block = Ok tt.
Proof.
  unfold UnclesVerifier_verify. rewrite !decide_False by (intros Hn; by apply Hn).
  cbn [b_uncles BlockBuilder_build]. assert (len (uncles_order uncles) = len uncles) as Hl by (unfold len; by rewrite Hus).
  rewrite Hl. case_decide; [done|]. unfold h_is_genesis, h_number. cbn [b_header BlockBuilder_build h_raw Header_new raw_number template_raw].
  pose proof tip_nonneg as Htn. unfold tip_number in Htn. rewrite bool_decide_eq_false_2 by lia.
  pose proof (cr_uncles _ Hc). pose proof (len_nonneg uncles).
  cbn [up_consensus UncleVerifierContext_new]. rewrite decide_False by (unfold cast; rewrite !Z.mod_small; lia).
  destruct (proj2 (verify_uncles_Ok blake2b serialize_uncles (UncleVerifierContext_new consensus pow fork epoch block) block
    (uncles_order uncles) ∅)) as [inc ->]; [|done].
  split_and!; [|by rewrite Hus|apply Forall_true; set_solver].
  apply Forall_forall. intros u Hu. rewrite Hus in Hu. rewrite Forall_forall in Huncles.
  destruct (Huncles u Hu) as (h & b & -> & (Hh & _ & Hlim & Hhash & Hnd & Hpw) & Hne & Hcand). clear Hu.
  unfold is_candidate_uncle in Hcand. rewrite negb_true_iff, !orb_false_iff, !bool_decide_eq_false in Hcand.
  destruct Hcand as ((((Hd & He) & Hnum) & Hun) & Hbelow). subst h.
  split; cbn; try done; [by apply dec_stable|by apply dec_stable|unfold uncle_number, b_number in *; cbn in *; unfold tip_number in *; lia|].
  unfold fork_double_inclusion, fork_excluded. cbn [fc_attached_blocks fc_store fold_left].
  change (uncle_hash (uncle_from_block b)) with (b_hash b).
  rewrite decide_False by (apply not_elem_of_singleton; exact Hne). rewrite decide_False by done. by rewrite Hun.
Qed.

Lemma block_commits : CommitVerifier_verify s (tx_proposal_window consensus) block = Ok tt.
Proof.
  destruct (cr_table _ Hc) as (lo & Hlo & Htr). pose proof (cr_chain _ Hc) as Hok.
  apply (commit_offered _ _ (tip_number c) lo (ch_proposal_ids c)); try done;
    [apply (co_main _ Hok)|apply (co_window _ Hok)|apply (cr_window _ Hc)|apply (co_top _ Hok)|].
  unfold committed_ids. change (drop 1 (b_transactions block)) with (pe_transaction <$> entries). intros id Hin.
  rewrite elem_of_list_to_set, <- list_fmap_compose in Hin. apply list_elem_of_fmap in Hin as (e & -> & Hin).
  pose proof txs_in_pool as H. rewrite Forall_forall in H. destruct (H e Hin) as [id Hid].
  unfold compose. pose proof (li_id _ _ (po_linked _ (mi_pool _ _ (pr_mineable _ _ Hp))) id e Hid) as Heq.
  unfold entry_id in Heq. rewrite Heq. apply (pr_entry _ _ Hp id e Hid).
Qed.

Lemma block_contextual resolved :
  rtx_transaction <$> resolved = b_transactions block ->
  verify_before_txs blake2b serialize_uncles consensus pow fork resolved block =
  try_map (fun tx => map_err (fun _ => ErrFeeCalculation) (calculate_transaction_fee (DataLoaderWrapper s) tx)) (drop 1 resolved).
Proof.
  intros Hres. destruct tip_block as (b & Hb & Hbh & Hbt & Htip). pose proof tip_nonneg as Htn.
  unfold verify_before_txs. cbn [fc_store]. change (b_parent block) with (tip_hash c). rewrite Htip. cbn [ok_or].
  rewrite bind_ret_l. unfold h_is_genesis. change (h_number (b_header block)) with (tip_number c + 1).
  rewrite bool_decide_eq_false_2 by lia. unfold prepare_epoch_ext. change (h_hash (tip_header c)) with (tip_hash c).
  rewrite (cr_epoch _ Hc). cbn [ok_or]. rewrite bind_ret_l, Hnext, !bind_ret_l, <- Hepoch.
  rewrite block_uncles, bind_ret_l, block_commits, bind_ret_l.
  destruct resolved as [|rtx resolved]; [done|]. cbn [drop]. rewrite fmap_cons in Hres. injection Hres as Hrtx _.
  destruct (build_cellbase_inv _ _ _ _ _ _ _ (cr_reward _ Hc) Hcb) as (_ & Hn & output & Hcb' & _ & Hcap & Hrew).
  by apply (reward_accepted consensus s (tip_header c) cb rtx resolved _ output _ Hrtx Hcb').
Qed.
End checks.

(** ** A fresh template *)
#[local] Abbreviation get_template :=
  (get_block_template (LT := LT) (LU := LU) (E := VerifyError) blake2b serialize_raw serialize_tx ids_order uncles_order).

Lemma limit_by_le limit max : limit_by limit max <= max.
Proof. destruct limit; cbn; lia. Qed.

(** What a call that finds nothing in the cache has done. *)
Lemma get_template_fresh self store0 (shared : Shared (M := M) (L := L)) now0 now bytes_limit proposals_limit max_version self' template :
  let c := sh_chain shared in
  chain_ok c -> (forall key, lru_get key (ba_template_caches self) = None) ->
  get_template self store0 shared now0 now bytes_limit proposals_limit max_version = Ok (self', inr template) ->
  exists next candidates uncles,
    shared_next_epoch_ext (E := VerifyError) (ch_consensus c) (ch_store c) (ch_current_epoch_ext c) (tip_header c) = Ok next /\
    prepare_uncles (ch_consensus c) (ch_store c) (tip_number c + 1) (default (ch_current_epoch_ext c) next)
      (ba_candidate_uncles self) = (candidates, uncles) /\
    new_template blake2b serialize_raw serialize_tx ids_order uncles_order
      (mkAssembler (ba_config self) (ba_work_id self) (ba_last_uncles_updated_at self) (ba_template_caches self)
         (ba_proof_size self) candidates) shared now
      (limit_by bytes_limit (max_block_bytes (ch_consensus c))) (limit_by proposals_limit (max_block_proposals_limit (ch_consensus c)))
      (limit_by max_version (block_version (ch_consensus c))) (tip_header c) (default (ch_current_epoch_ext c) next) uncles = Ok template.
Proof.
  intros c Hc Hfresh H. unfold get_block_template in H. cbn [transform_params] in H. fold c in H.
  apply bind_Ok in H as (tip0 & _ & H). apply bind_Ok in H as (earliest & _ & H).
  rewrite !Hfresh in H. cbn [mbind option_bind] in H.
  apply bind_Ok in H as (n & Hn & H). apply add_w_Ok in Hn as [-> _].
  rewrite (co_epoch _ Hc) in H. cbn [expect] in H. rewrite bind_ret_l in H.
  apply bind_Ok in H as (next & Hnext & H). fold (tip_number c) in H.
  destruct (prepare_uncles _ _ _ _ _) as [candidates uncles] eqn:Hu.
  apply bind_Ok in H as (r & Hr & H). destruct r as [err|t]; [done|]. injection H as _ <-.
  exists next, candidates, uncles. split_and!; [done|done|]. revert Hr. unfold catch.
  by destruct (new_template _ _ _ _ _ _ _ _ _ _ _ _ _ _); [intros [= <-]|..].
Qed.

End assembler_sound.

(** ** Example: a transaction and an uncle on a chain of three blocks *)
Module AssemblerExample.
Import ReachExample.

Definition digest (bs : Bytes) : H256 := foldl (fun acc b => (acc * 1000003 + b + 1) mod U256_SIZE) 7 bs.
Definition encode_raw (tx : RawTransaction) : Bytes := [len (raw_tx_inputs tx); sum_z (co_capacity <$> raw_tx_outputs tx)].
Definition encode_tx (tx : RawTransaction) (ws : list (list Bytes)) : Bytes := encode_raw tx ++ [len ws].
Definition header_bytes (raw : RawHeader) (seal : Seal) : Bytes := [raw_number raw; raw_timestamp raw; seal_nonce seal].
Definition first_list (l : list UncleBlock) : list UncleBlock := l.

Definition pooled : Transaction :=
  Transaction_new digest encode_raw encode_tx 0 [] [mkCellInput (new_cell 14 0) 0] [simple_output 9000000000] [].
Definition x1 : Block := mkBlock (simple_header 1 100 111) [] [simple_tx 11 [] 1; simple_tx 14 [new_cell 10 1] 1] [proposal_short_id pooled].
Definition x2 : Block := simple_block 2 111 112 [simple_tx 13 [] 1].
Definition chain1 : State := (after 5 state0 x1).1.
Definition chain2 : State := (after 6 chain1 x2).1.
Definition c2 : ChainState := sh_chain chain2.
Definition entered : TxPool (AssocList Bytes) (AssocList Bytes) * (PoolError + Z) :=
  ok_value (TxPool_new TxPoolConfig_default, inr 0)
    (proposed_tx (E := unit) c2 scripts 9 None (Transaction_serialized_size pooled) pooled (TxPool_new TxPoolConfig_default)).
Definition ready : State := mkShared c2 entered.1 ∅.

(** A block of another branch. *)
Definition uncle : Block :=
  mkBlock (Header_new digest header_bytes (mkRawHeader 0 100 1001 1 0 0 0 1 0 0 0) (mkSeal 3 [])) [] [] [].
Definition config : BlockAssemblerConfig := mkAssemblerConfig 5 [] [].
Definition assembler : BlockAssembler (LT := AssocList TemplateKey) (LU := AssocList H256) :=
  receive_new_uncle (BlockAssembler_new pow config) 8 uncle.
Definition answer : BlockAssembler * (AssemblerError + BlockTemplate) :=
  ok_value (assembler, inl AeInsufficientCellCapacity)
    (get_block_template (E := VerifyError) digest encode_raw encode_tx elements first_list assembler (ch_store c2) ready 9 10 None None None).
Definition template : BlockTemplate :=
  match answer.2 with
  | inr t => t
  | inl _ => mkBlockTemplate 0 0 0 0 0 0 0 0 0 [] [] [] (mkCellbaseTemplate 0 None (json_transaction pooled)) 0
  end.
Definition mined_block : Block :=
  sealed_block digest header_bytes encode root
    (template_block digest encode_raw encode_tx header_bytes encode root template) (mkSeal 4 []).
Definition mined_resolved : list ResolvedTransaction := (fun tx => mkResolvedTx tx [] []) <$> b_transactions mined_block.

Lemma answer_eq :
  get_block_template (E := VerifyError) digest encode_raw encode_tx elements first_list assembler (ch_store c2) ready 9 10 None None None
  = Ok (answer.1, inr template).
Proof. transitivity (Ok (E := VerifyError) answer); [apply ok_value_eq; vm_compute; reflexivity|vm_compute; reflexivity]. Qed.

Lemma chain2_reach : reachable (W := AssocList H256) (E := unit) hash root encode scripts pow some_order elements insert_entry consensus chain2.
Proof. apply reach_after; [apply reach_after; [exact reach0|by_compute..]|by_compute..]. Qed.

Lemma c2_ready : chain_ready c2.
Proof.
  split; try by_compute.
  - apply (reachable_ok _ _ _ _ _ _ _ _ _ _ consensus_genesis chain2_reach).
  - exists (Z.max 1 (window_start (tx_proposal_window (ch_consensus c2)) (tip_number c2))).
    split; [by_compute|]. apply table_tracks_check. by_compute.
  - exists 1. vm_compute. reflexivity.
Qed.

Lemma pool_entries : lhm_entries (vertices (tp_proposed entered.1)) =
  [(proposal_short_id pooled, mkProposedEntry pooled 0 0 1000000000 (Transaction_serialized_size pooled))].
Proof. vm_compute. reflexivity. Qed.

Lemma entered_ready : pool_ready (M := AssocList Bytes) (L := AssocList Bytes) digest encode_raw encode_tx c2 entered.1.
Proof.
  split.
  - apply (tip_pool_mineable (E := unit) scripts c2).
    apply (tip_pool_proposed (E := unit) scripts c2 9 None (Transaction_serialized_size pooled) pooled
      (TxPool_new TxPoolConfig_default) _ entered.2); [constructor|apply PoolExample.is_fresh_eq; by_compute|].
    rewrite <- surjective_pairing. apply ok_value_eq. vm_compute. reflexivity.
  - intros id e He%lhm_get_entries. rewrite pool_entries in He. apply list_elem_of_singleton in He.
    injection He as -> ->. split; [|by_compute]. split; [|done]. by_compute.
Qed.
End AssemblerExample.

Section witness.
Import ReachExample AssemblerExample.

End witness.
