(* ===== verification/Syscalls.v ===== *)
(** * System calls of scripts

    [script/src/syscalls] and [script/src/cost_model.rs]: what a program that
    runs in the virtual machine can read of its transaction.  The machine is a
    package of its own; what the calls use of it is the class
    [SupportMachine], and what its documentation promises the class
    [MachineLaws].  The encoding of tables by [flatbuffers] is an argument. *)
From S2P Require Import Prelude Capacity ByteStrings Transactions Blocks Fixtures Protocol CellSet Cells Epochs ChainStore VerifyErrors Dao Scripts.

(** ** The machine *)

(** [Error::ParseError] is raised by the calls, the others by the machine. *)
Inductive MachineError := ParseError | MachineFault (code : Z).

Inductive Reg := A0 | A1 | A2 | A3 | A4 | A5 | A7.
#[export] Instance Reg_eq_dec : EqDecision Reg.
Proof. solve_decision. Defined.

(** The trait: registers are 64 bits wide; [load8], [load64], [store64],
    [store_bytes] and [init_pages] are those of [memory_mut()]. *)
Class SupportMachine (Mac : Type) := {
  register : Mac -> Reg -> Z;
  set_register : Mac -> Reg -> Z -> Mac;
  load8 : Mac -> Z -> outcome MachineError Z;
  load64 : Mac -> Z -> outcome MachineError Z;
  store64 : Mac -> Z -> Z -> outcome MachineError Mac;
  store_bytes : Mac -> Z -> Bytes -> outcome MachineError Mac;
  init_pages : Mac -> Z -> Z -> Z -> option Bytes -> Z -> outcome MachineError Mac;
  add_cycles : Mac -> Z -> outcome MachineError Mac
}.

(** ** Numbers, fields and sources *)

Definition SUCCESS : Z := 0.
Definition INDEX_OUT_OF_BOUND : Z := 1.
Definition ITEM_MISSING : Z := 2.
Definition SLICE_OUT_OF_BOUND : Z := 3.
Definition LOAD_TX_HASH_SYSCALL_NUMBER : Z := 2061.
Definition LOAD_SCRIPT_HASH_SYSCALL_NUMBER : Z := 2062.
Definition LOAD_CELL_SYSCALL_NUMBER : Z := 2071.
Definition LOAD_HEADER_SYSCALL_NUMBER : Z := 2072.
Definition LOAD_INPUT_SYSCALL_NUMBER : Z := 2073.
Definition LOAD_WITNESS_SYSCALL_NUMBER : Z := 2074.
Definition LOAD_CELL_BY_FIELD_SYSCALL_NUMBER : Z := 2081.
Definition LOAD_INPUT_BY_FIELD_SYSCALL_NUMBER : Z := 2083.
Definition LOAD_CODE_SYSCALL_NUMBER : Z := 2091.
Definition DEBUG_PRINT_SYSCALL_NUMBER : Z := 2177.

Inductive CellField := FieldCapacity | FieldData | FieldDataHash | FieldLock | FieldLockHash | FieldType | FieldTypeHash.

Definition CellField_parse (i : Z) : outcome MachineError CellField :=
  match i with
  | 0 => Ok FieldCapacity
  | 1 => Ok FieldData
  | 2 => Ok FieldDataHash
  | 3 => Ok FieldLock
  | 4 => Ok FieldLockHash
  | 5 => Ok FieldType
  | 6 => Ok FieldTypeHash
  | _ => Err ParseError
  end.

Inductive InputField := FieldOutPoint | FieldSince.

Definition InputField_parse (i : Z) : outcome MachineError InputField :=
  match i with 0 => Ok FieldOutPoint | 1 => Ok FieldSince | _ => Err ParseError end.

Inductive SourceEntry := EntryInput | EntryOutput | EntryDep.

Definition SourceEntry_u64 (s : SourceEntry) : Z :=
  match s with EntryInput => 1 | EntryOutput => 2 | EntryDep => 3 end.
Definition SourceEntry_parse (i : Z) : outcome MachineError SourceEntry :=
  match i with 1 => Ok EntryInput | 2 => Ok EntryOutput | 3 => Ok EntryDep | _ => Err ParseError end.

Definition SOURCE_GROUP_FLAG : Z := 0x0100000000000000.
Definition SOURCE_GROUP_MASK : Z := 0xFF00000000000000.
Definition SOURCE_ENTRY_MASK : Z := 0x00FFFFFFFFFFFFFF.

Inductive Source := SourceTransaction (entry : SourceEntry) | SourceGroup (entry : SourceEntry).

Definition Source_u64 (s : Source) : Z :=
  match s with
  | SourceTransaction e => SourceEntry_u64 e
  | SourceGroup e => Z.lor SOURCE_GROUP_FLAG (SourceEntry_u64 e)
  end.
Definition Source_parse (i : Z) : outcome MachineError Source :=
  entry ← SourceEntry_parse (Z.land i SOURCE_ENTRY_MASK);
  if decide (Z.land i SOURCE_GROUP_MASK = SOURCE_GROUP_FLAG) then Ok (SourceGroup entry)
  else Ok (SourceTransaction entry).

(** [slice.get(index)]; an error is the return code of the call. *)
Definition slice_get {A} (l : list A) (index : Z) : outcome Z A := ok_or (l !! Z.to_nat index) INDEX_OUT_OF_BOUND.

Section calls.
Context {Mac : Type} `{!SupportMachine Mac}.
Context (blake2b : Bytes -> H256) (data_loader : DataLoader).
(** The flags of a page and the size of the memory. *)
Context (flag_executable flag_freezed memory_size : Z).
(** [FlatBufferBuilder::finish] and [finished_data]. *)
Context (finish_output : FbsCellOutput -> Bytes) (finish_script : FbsScript -> Bytes)
  (finish_input : FbsCellInput -> Bytes) (finish_out_point : FbsOutPoint -> Bytes)
  (finish_header : FbsHeader -> Bytes) (finish_witness : FbsWitness -> Bytes).

(** ** Copying data into the machine *)

Definition store_data (machine : Mac) (data : Bytes) : outcome MachineError Mac :=
  let addr := register machine A0 in
  let size_addr := register machine A1 in
  let offset := register machine A2 in
  size ← load64 machine size_addr;
  full_size ← len data -64 offset;
  let real_size := Z.min size full_size in
  machine ← store64 machine size_addr full_size;
  store_bytes machine addr (take (Z.to_nat real_size) (drop (Z.to_nat offset) data)).

(** ** Cells *)

Record LoadCell := mkLoadCell {
  lc_outputs : list CellMeta;
  lc_resolved_inputs : list ResolvedOutPoint;
  lc_resolved_deps : list ResolvedOutPoint;
  lc_group_inputs : list nat;
  lc_group_outputs : list nat
}.

Definition ro_meta (r : ResolvedOutPoint) : outcome Z CellMeta := ok_or (cell_meta (ro_cell r)) ITEM_MISSING.

Definition fetch_cell (self : LoadCell) (source : Source) (index : Z) : outcome Z CellMeta :=
  match source with
  | SourceTransaction EntryInput => r ← slice_get (lc_resolved_inputs self) index; ro_meta r
  | SourceTransaction EntryOutput => slice_get (lc_outputs self) index
  | SourceTransaction EntryDep => r ← slice_get (lc_resolved_deps self) index; ro_meta r
  | SourceGroup EntryInput =>
      actual_index ← slice_get (lc_group_inputs self) index;
      r ← ok_or (lc_resolved_inputs self !! actual_index) INDEX_OUT_OF_BOUND;
      ro_meta r
  | SourceGroup EntryOutput =>
      actual_index ← slice_get (lc_group_outputs self) index;
      ok_or (lc_outputs self !! actual_index) INDEX_OUT_OF_BOUND
  | SourceGroup EntryDep => Err INDEX_OUT_OF_BOUND
  end.

(** Storing some bytes; the return code and the length that is charged. *)
Definition load_item (machine : Mac) (data : Bytes) : outcome MachineError (Mac * Z * Z) :=
  machine ← store_data machine data; Ok (machine, SUCCESS, len data).

Definition cell_load_full (machine : Mac) (output : CellOutput) : outcome MachineError (Mac * Z * Z) :=
  load_item machine (finish_output (fbs_cell_output output)).

Definition cell_load_by_field (machine : Mac) (output : CellOutput) : outcome MachineError (Mac * Z * Z) :=
  field ← CellField_parse (register machine A5);
  match field with
  | FieldCapacity => load_item machine (u64_to_le_bytes (co_capacity output))
  | FieldData => load_item machine (co_data output)
  | FieldDataHash => load_item machine (h256_as_bytes (data_hash blake2b output))
  | FieldLock => load_item machine (finish_script (fbs_script (co_lock output)))
  | FieldLockHash => load_item machine (h256_as_bytes (Script_hash blake2b (co_lock output)))
  | FieldType =>
      match co_type output with
      | Some type_ => load_item machine (finish_script (fbs_script type_))
      | None => Ok (machine, ITEM_MISSING, 0)
      end
  | FieldTypeHash =>
      match co_type output with
      | Some type_ => load_item machine (h256_as_bytes (Script_hash blake2b type_))
      | None => Ok (machine, ITEM_MISSING, 0)
      end
  end.

Definition LoadCell_ecall (self : LoadCell) (machine : Mac) : outcome MachineError (Mac * bool) :=
  let number := register machine A7 in
  let call := if decide (number = LOAD_CELL_SYSCALL_NUMBER) then Some (false, 100)
              else if decide (number = LOAD_CELL_BY_FIELD_SYSCALL_NUMBER) then Some (true, 10) else None in
  match call with
  | None => Ok (machine, false)
  | Some (load_by_field, cycle_factor) =>
      let index := register machine A3 in
      source ← Source_parse (register machine A4);
      match fetch_cell self source index with
      | Err code => Ok (set_register machine A0 code, true)
      | Panic => Panic
      | Ok cell =>
          output ← expect (lazy_load_cell_output data_loader cell);
          '(machine, return_code, n) ←
            (if (load_by_field : bool) then cell_load_by_field machine output else cell_load_full machine output);
          cycles ← n *64 cycle_factor;
          machine ← add_cycles machine cycles;
          Ok (set_register machine A0 return_code, true)
      end
  end.

(** The fields of [LoadCode] are those of [LoadCell]. *)
Definition LoadCode_ecall (self : LoadCell) (machine : Mac) : outcome MachineError (Mac * bool) :=
  if decide (register machine A7 <> LOAD_CODE_SYSCALL_NUMBER) then Ok (machine, false)
  else
    let addr := register machine A0 in
    let code_size := register machine A1 in
    let content_offset := register machine A2 in
    let content_size := register machine A3 in
    let index := register machine A4 in
    source ← Source_parse (register machine A5);
    match fetch_cell self source index with
    | Err code => Ok (set_register machine A0 code, true)
    | Panic => Panic
    | Ok cell =>
        output ← expect (lazy_load_cell_output data_loader cell);
        let data := co_data output in
        out_of_bound ←
          (if decide (len data <= content_offset) then Ok true
           else content_end ← content_offset +64 content_size;
                Ok (bool_decide (len data < content_end) || bool_decide (code_size < content_size)));
        if (out_of_bound : bool) then Ok (set_register machine A0 SLICE_OUT_OF_BOUND, true)
        else
          machine ← init_pages machine addr code_size (Z.lor flag_executable flag_freezed)
            (Some (take (Z.to_nat content_size) (drop (Z.to_nat content_offset) data))) 0;
          cycles ← len data *64 10;
          machine ← add_cycles machine cycles;
          Ok (set_register machine A0 SUCCESS, true)
    end.

(** ** Inputs *)

Record LoadInput := mkLoadInput { li_inputs : list CellInput; li_group_inputs : list nat }.

Definition fetch_input (self : LoadInput) (source : Source) (index : Z) : outcome Z CellInput :=
  match source with
  | SourceTransaction EntryInput => slice_get (li_inputs self) index
  | SourceGroup EntryInput =>
      actual_index ← slice_get (li_group_inputs self) index;
      ok_or (li_inputs self !! actual_index) INDEX_OUT_OF_BOUND
  | _ => Err INDEX_OUT_OF_BOUND
  end.

Definition input_load_full (machine : Mac) (input : CellInput) : outcome MachineError (Mac * Z * Z) :=
  load_item machine (finish_input (fbs_cell_input input)).

Definition input_load_by_field (machine : Mac) (input : CellInput) : outcome MachineError (Mac * Z * Z) :=
  field ← InputField_parse (register machine A5);
  match field with
  | FieldOutPoint => load_item machine (finish_out_point (fbs_out_point (ci_previous_output input)))
  | FieldSince => load_item machine (u64_to_le_bytes (ci_since input))
  end.

Definition LoadInput_ecall (self : LoadInput) (machine : Mac) : outcome MachineError (Mac * bool) :=
  let number := register machine A7 in
  let call := if decide (number = LOAD_INPUT_SYSCALL_NUMBER) then Some (false, 100)
              else if decide (number = LOAD_INPUT_BY_FIELD_SYSCALL_NUMBER) then Some (true, 10) else None in
  match call with
  | None => Ok (machine, false)
  | Some (load_by_field, cycle_factor) =>
      let index := register machine A3 in
      source ← Source_parse (register machine A4);
      match fetch_input self source index with
      | Err code => Ok (set_register machine A0 code, true)
      | Panic => Panic
      | Ok input =>
          '(machine, _, n) ←
            (if (load_by_field : bool) then input_load_by_field machine input else input_load_full machine input);
          cycles ← n *64 cycle_factor;
          machine ← add_cycles machine cycles;
          Ok (set_register machine A0 SUCCESS, true)
      end
  end.

(** ** Items that are charged after the register is set *)

(** The end of the calls that load a header, a witness or a hash. *)
Definition load_whole (machine : Mac) (data : Bytes) : outcome MachineError (Mac * bool) :=
  machine ← store_data machine data;
  let machine := set_register machine A0 SUCCESS in
  cycles ← len data *64 10;
  machine ← add_cycles machine cycles;
  Ok (machine, true).

Record LoadHeader := mkLoadHeader {
  lh_resolved_inputs : list ResolvedOutPoint;
  lh_resolved_deps : list ResolvedOutPoint;
  lh_group_inputs : list nat
}.

Definition ro_head (r : ResolvedOutPoint) : outcome Z Header := ok_or (ro_header r) ITEM_MISSING.

Definition fetch_header (self : LoadHeader) (source : Source) (index : Z) : outcome Z Header :=
  match source with
  | SourceTransaction EntryInput => r ← slice_get (lh_resolved_inputs self) index; ro_head r
  | SourceTransaction EntryDep => r ← slice_get (lh_resolved_deps self) index; ro_head r
  | SourceGroup EntryInput =>
      actual_index ← slice_get (lh_group_inputs self) index;
      r ← ok_or (lh_resolved_inputs self !! actual_index) INDEX_OUT_OF_BOUND;
      ro_head r
  | _ => Err INDEX_OUT_OF_BOUND
  end.

Definition LoadHeader_ecall (self : LoadHeader) (machine : Mac) : outcome MachineError (Mac * bool) :=
  if decide (register machine A7 <> LOAD_HEADER_SYSCALL_NUMBER) then Ok (machine, false)
  else
    let index := register machine A3 in
    source ← Source_parse (register machine A4);
    match fetch_header self source index with
    | Err code => Ok (set_register machine A0 code, true)
    | Panic => Panic
    | Ok header => load_whole machine (finish_header (fbs_header header))
    end.

Record LoadWitness := mkLoadWitness { lw_witnesses : list (list Bytes); lw_group_inputs : list nat }.

Definition fetch_witness (self : LoadWitness) (source : Source) (index : Z) : option (list Bytes) :=
  match source with
  | SourceGroup EntryInput =>
      actual_index ← lw_group_inputs self !! Z.to_nat index; lw_witnesses self !! actual_index
  | SourceTransaction EntryInput => lw_witnesses self !! Z.to_nat index
  | _ => None
  end.

Definition LoadWitness_ecall (self : LoadWitness) (machine : Mac) : outcome MachineError (Mac * bool) :=
  if decide (register machine A7 <> LOAD_WITNESS_SYSCALL_NUMBER) then Ok (machine, false)
  else
    let index := register machine A3 in
    source ← Source_parse (register machine A4);
    match fetch_witness self source index with
    | None => Ok (set_register machine A0 INDEX_OUT_OF_BOUND, true)
    | Some witness => load_whole machine (finish_witness (fbs_witness witness))
    end.

Definition LoadTxHash_ecall (tx_hash : Bytes) (machine : Mac) : outcome MachineError (Mac * bool) :=
  if decide (register machine A7 <> LOAD_TX_HASH_SYSCALL_NUMBER) then Ok (machine, false)
  else load_whole machine tx_hash.

Definition LoadScriptHash_ecall (hash : Bytes) (machine : Mac) : outcome MachineError (Mac * bool) :=
  if decide (register machine A7 <> LOAD_SCRIPT_HASH_SYSCALL_NUMBER) then Ok (machine, false)
  else load_whole machine hash.

(** ** Debug output *)

(** [String::from_utf8]. *)
Definition is_cont (c : Z) : bool := bool_decide (128 <= c < 192).
Fixpoint is_utf8 (fuel : nat) (s : Bytes) : bool :=
  match fuel with
  | O => bool_decide (s = [])
  | S fuel =>
      match s with
      | [] => true
      | a :: s =>
          if decide (a < 128) then is_utf8 fuel s
          else if decide (194 <= a < 224) then
            match s with b :: s => is_cont b && is_utf8 fuel s | _ => false end
          else if decide (224 <= a < 240) then
            match s with
            | b :: c :: s =>
                is_cont b && is_cont c && negb (bool_decide (a = 224) && bool_decide (b < 160))
                && negb (bool_decide (a = 237) && bool_decide (160 <= b)) && is_utf8 fuel s
            | _ => false
            end
          else if decide (240 <= a < 245) then
            match s with
            | b :: c :: d :: s =>
                is_cont b && is_cont c && is_cont d && negb (bool_decide (a = 240) && bool_decide (b < 144))
                && negb (bool_decide (a = 244) && bool_decide (144 <= b)) && is_utf8 fuel s
            | _ => false
            end
          else false
      end
  end.

(** The bytes up to the first zero. *)
Fixpoint debug_loop (fuel : nat) (machine : Mac) (addr : Z) (buffer : Bytes) : outcome MachineError Bytes :=
  match fuel with
  | O => Panic
  | S fuel =>
      byte ← load8 machine addr;
      if decide (byte = 0) then Ok buffer
      else addr ← addr +64 1; debug_loop fuel machine addr (buffer ++ [byte])
  end.

Definition Debugger_ecall (machine : Mac) : outcome MachineError (Mac * bool) :=
  if decide (register machine A7 <> DEBUG_PRINT_SYSCALL_NUMBER) then Ok (machine, false)
  else
    let addr := register machine A0 in
    buffer ← debug_loop (S (Z.to_nat (memory_size - addr))) machine addr [];
    cycles ← len buffer *64 10;
    machine ← add_cycles machine cycles;
    if is_utf8 (length buffer) buffer then Ok (machine, true) else Err ParseError.

(** ** The calls of a group *)

Definition output_meta (tx : Transaction) (entry : nat * CellOutput) : CellMeta :=
  let '(index, output) := entry in
  mkCellMeta (Some output) (mkCellOutPoint (tx_hash tx) (cast U32_SIZE (Z.of_nat index))) None false
    (co_capacity output) None.
Definition verifier_outputs (tx : Transaction) : list CellMeta := output_meta tx <$> enumerate (tx_outputs tx).

Definition build_load_tx_hash (self : VerifierState) : Bytes :=
  h256_as_bytes (tx_hash (rtx_transaction (vs_rtx self))).
Definition build_load_cell (self : VerifierState) (group : ScriptGroup) : LoadCell :=
  mkLoadCell (verifier_outputs (rtx_transaction (vs_rtx self))) (rtx_inputs (vs_rtx self)) (rtx_deps (vs_rtx self))
    (sg_input_indices group) (sg_output_indices group).
Definition build_load_code : VerifierState -> ScriptGroup -> LoadCell := build_load_cell.
Definition build_load_input (self : VerifierState) (group : ScriptGroup) : LoadInput :=
  mkLoadInput (tx_inputs (rtx_transaction (vs_rtx self))) (sg_input_indices group).
Definition build_load_header (self : VerifierState) (group : ScriptGroup) : LoadHeader :=
  mkLoadHeader (rtx_inputs (vs_rtx self)) (rtx_deps (vs_rtx self)) (sg_input_indices group).
Definition build_load_witness (self : VerifierState) (group : ScriptGroup) : LoadWitness :=
  mkLoadWitness (tx_witnesses (rtx_transaction (vs_rtx self))) (sg_input_indices group).

(** The handlers, in the order in which they are given to the machine. *)
Definition group_syscalls (self : VerifierState) (group : ScriptGroup)
    : list (Mac -> outcome MachineError (Mac * bool)) :=
  [LoadScriptHash_ecall (h256_as_bytes (Script_hash blake2b (sg_script group)));
   LoadTxHash_ecall (build_load_tx_hash self);
   LoadCell_ecall (build_load_cell self group);
   LoadInput_ecall (build_load_input self group);
   LoadHeader_ecall (build_load_header self group);
   LoadWitness_ecall (build_load_witness self group);
   LoadCode_ecall (build_load_code self group);
   Debugger_ecall].
End calls.

(** ** The cost of an instruction *)

(** [extract_opcode] of the machine gives one of these; the opcodes that cost
    one cycle are [OP_OTHER]. *)
Inductive Opcode :=
| OP_JALR | OP_LD | OP_LW | OP_LH | OP_LB | OP_LWU | OP_LHU | OP_LBU | OP_SB | OP_SH | OP_SW | OP_SD
| OP_BEQ | OP_BGE | OP_BGEU | OP_BLT | OP_BLTU | OP_BNE | OP_EBREAK | OP_ECALL | OP_JAL
| OP_RVC_LW | OP_RVC_LD | OP_RVC_SW | OP_RVC_SD | OP_RVC_LWSP | OP_RVC_LDSP | OP_RVC_SWSP | OP_RVC_SDSP
| OP_RVC_BEQZ | OP_RVC_BNEZ | OP_RVC_JAL | OP_RVC_J | OP_RVC_JR | OP_RVC_JALR | OP_RVC_EBREAK
| OP_MUL | OP_MULW | OP_MULH | OP_MULHU | OP_MULHSU
| OP_DIV | OP_DIVW | OP_DIVU | OP_DIVUW | OP_REM | OP_REMW | OP_REMU | OP_REMUW
| OP_OTHER.

Definition instruction_cycles (opcode : Opcode) : Z :=
  match opcode with
  | OP_JALR => 3
  | OP_LD => 2
  | OP_LW | OP_LH | OP_LB | OP_LWU | OP_LHU | OP_LBU | OP_SB | OP_SH | OP_SW => 3
  | OP_SD => 2
  | OP_BEQ | OP_BGE | OP_BGEU | OP_BLT | OP_BLTU | OP_BNE => 3
  | OP_EBREAK | OP_ECALL => 10
  | OP_JAL => 3
  | OP_RVC_LW => 3
  | OP_RVC_LD => 2
  | OP_RVC_SW => 3
  | OP_RVC_SD => 2
  | OP_RVC_LWSP => 3
  | OP_RVC_LDSP => 2
  | OP_RVC_SWSP => 3
  | OP_RVC_SDSP => 2
  | OP_RVC_BEQZ | OP_RVC_BNEZ | OP_RVC_JAL | OP_RVC_J | OP_RVC_JR | OP_RVC_JALR => 3
  | OP_RVC_EBREAK => 10
  | OP_MUL | OP_MULW | OP_MULH | OP_MULHU | OP_MULHSU => 5
  | OP_DIV | OP_DIVW | OP_DIVU | OP_DIVUW | OP_REM | OP_REMW | OP_REMU | OP_REMUW => 16
  | OP_OTHER => 1
  end.
