(* ===== verification/SyscallsSound.v ===== *)
(** * What scripts read by system calls

    The system calls against the machine they run on: what is copied into its
    memory, that a call number belongs to one handler, which calls panic, and
    that the cells of a group are those its script was grouped by. *)
From S2P Require Import Prelude Sums Capacity ByteStrings Transactions Blocks Fixtures Protocol CellSet Cells Epochs ChainStore VerifyErrors Dao Scripts Syscalls.

(** ** What the machine promises *)

Definition overwrite (a : Z) (bs : Bytes) (mem : Z -> Z) (x : Z) : Z :=
  if decide (a <= x < a + len bs) then default 0 (bs !! Z.to_nat (x - a)) else mem x.
Definition read (mem : Z -> Z) (a n : Z) : Bytes := (fun i => mem (a + Z.of_nat i)) <$> seq 0 (Z.to_nat n).

(** The bytes of the memory, the cycles used and their limit, and the ranges
    that may be read and written: loads and stores of such a range succeed,
    nothing else changes, and no operation panics. *)
Class MachineLaws (Mac : Type) `{!SupportMachine Mac} := {
  memory : Mac -> Z -> Z;
  used : Mac -> Z;
  limit : Mac -> Z;
  accessible : Mac -> Z -> Z -> Prop;
  keeps (m m' : Mac) : Prop :=
    (forall r, register m' r = register m r) /\ used m' = used m /\ limit m' = limit m /\
    forall a n, accessible m a n -> accessible m' a n;
  register_set m r v r' : register (set_register m r v) r' = if decide (r = r') then v else register m r';
  memory_set m r v x : memory (set_register m r v) x = memory m x;
  used_set m r v : used (set_register m r v) = used m;
  limit_set m r v : limit (set_register m r v) = limit m;
  load64_Ok m a : accessible m a 8 -> load64 m a = Ok (le_combine (read (memory m) a 8));
  store64_Ok m a v : accessible m a 8 ->
    exists m', store64 m a v = Ok m' /\ keeps m m' /\ forall x, memory m' x = overwrite a (u64_to_le_bytes v) (memory m) x;
  store_bytes_Ok m a bs : accessible m a (len bs) ->
    exists m', store_bytes m a bs = Ok m' /\ keeps m m' /\ forall x, memory m' x = overwrite a bs (memory m) x;
  add_cycles_Ok m n : used m + n <= limit m ->
    exists m', add_cycles m n = Ok m' /\ (forall r, register m' r = register m r) /\
      (forall x, memory m' x = memory m x) /\ used m' = used m + n;
  load64_no_panic m a : load64 m a <> Panic;
  store64_no_panic m a v : store64 m a v <> Panic;
  store_bytes_no_panic m a bs : store_bytes m a bs <> Panic;
  init_pages_no_panic m a n flags bs o : init_pages m a n flags bs o <> Panic;
  add_cycles_no_panic m n : add_cycles m n <> Panic
}.

Lemma read_overwrite mem mem' a bs :
  (forall x, mem' x = overwrite a bs mem x) -> read mem' a (len bs) = bs.
Proof.
  intros Hm. apply list_eq. intros i. unfold read. rewrite list_lookup_fmap.
  unfold len. rewrite Nat2Z.id. destruct (decide (i < length bs)%nat) as [Hi|Hi].
  - rewrite lookup_seq_lt by done. cbn. rewrite Hm. unfold overwrite, len.
    rewrite decide_True by lia. replace (Z.to_nat (a + Z.of_nat i - a)) with i by lia.
    by destruct (lookup_lt_is_Some_2 bs i Hi) as [b ->].
  - rewrite lookup_seq_ge by lia. cbn. symmetry. apply lookup_ge_None_2. lia.
Qed.

Lemma read_outside mem mem' a n :
  (forall x, a <= x < a + n -> mem' x = mem x) -> read mem' a n = read mem a n.
Proof.
  intros Hm. unfold read. apply list_fmap_ext. intros k i Hk%lookup_seq. apply Hm. lia.
Qed.

Section sound.
Context {Mac : Type} `{HM : !SupportMachine Mac} `{!MachineLaws Mac}.
Implicit Types (m : Mac).

(** ** Copying *)

(** The part of an item that a call copies: from the offset in [A2], at most as
    many bytes as the word at [A1] allows. *)
Definition room m : Z := le_combine (read (memory m) (register m A1) 8).
Definition part m (data : Bytes) : Bytes :=
  take (Z.to_nat (Z.min (room m) (len data - register m A2))) (drop (Z.to_nat (register m A2)) data).

(** The buffer and the size word of a call do not overlap and may be accessed. *)
Record call_ok m (data : Bytes) : Prop := {
  ck_offset : 0 <= register m A2 <= len data;
  ck_room : 0 <= room m;
  ck_length : len data < U64_SIZE;
  ck_size : accessible m (register m A1) 8;
  ck_buffer : accessible m (register m A0) (len (part m data));
  ck_apart : register m A0 + len (part m data) <= register m A1 \/ register m A1 + 8 <= register m A0
}.

(** What a call leaves behind: the part in the buffer, the bytes that remained
    from the offset on in the size word, and the rest of the memory as it was. *)
Record copied m (data : Bytes) m' : Prop := {
  cp_buffer : read (memory m') (register m A0) (len (part m data)) = part m data;
  cp_size : le_combine (read (memory m') (register m A1) 8) = len data - register m A2;
  cp_rest : forall x, (x < register m A0 \/ register m A0 + len (part m data) <= x) ->
    (x < register m A1 \/ register m A1 + 8 <= x) -> memory m' x = memory m x
}.

Lemma store_data_spec m data :
  call_ok m data -> exists m', store_data m data = Ok m' /\ keeps m m' /\ copied m data m'.
Proof.
  intros [Ho Hroom Hlen Hs Hb Hap]. unfold store_data. rewrite load64_Ok by done. rewrite bind_ret_l.
  fold (room m). rewrite sub_w_eq by lia. rewrite bind_ret_l. fold (part m data).
  destruct (store64_Ok m (register m A1) (len data - register m A2) Hs) as (m1 & -> & K1 & M1).
  rewrite bind_ret_l. destruct K1 as (R1 & U1 & L1 & Ac1).
  destruct (store_bytes_Ok m1 (register m A0) (part m data) (Ac1 _ _ Hb)) as (m2 & -> & (R2 & U2 & L2 & Ac2) & M2).
  exists m2. split; [done|]. split.
  { split_and!; [intros r; by rewrite R2|congruence|congruence|auto]. }
  assert (length (u64_to_le_bytes (len data - register m A2)) = 8%nat) as H8 by apply length_le_split.
  assert (len (u64_to_le_bytes (len data - register m A2)) = 8) as H8' by (unfold len at 1; lia).
  split.
  - by apply (read_overwrite (memory m1)).
  - rewrite (read_outside (memory m1)).
    + assert (read (memory m1) (register m A1) 8 = u64_to_le_bytes (len data - register m A2)) as ->.
      { rewrite <- H8' at 1. by apply (read_overwrite (memory m)). }
      apply le_combine_split_range. change (256 ^ Z.of_nat 8) with U64_SIZE. lia.
    + intros x Hx. rewrite M2. unfold overwrite. rewrite decide_False; [done|]. lia.
  - intros x H0 H1. rewrite M2. unfold overwrite. rewrite decide_False by lia.
    rewrite M1. unfold overwrite. by rewrite H8', decide_False by lia.
Qed.

(** ** Panics *)
Lemma store_data_panics m data :
  store_data m data = Panic <-> (exists size, load64 m (register m A1) = Ok size) /\ len data < register m A2.
Proof.
  unfold store_data. pose proof (load64_no_panic m (register m A1)) as Hl.
  destruct (load64 m (register m A1)) as [size|e|]; cbn; [|naive_solver..].
  unfold sub_w. case_decide as Hd; cbn.
  - split; [|intros [_ ?]; lia]. destruct (store64 _ _ _) as [m1|e|] eqn:Hs; cbn; [|done|].
    + intros H. by apply store_bytes_no_panic in H.
    + by apply store64_no_panic in Hs.
  - split; [|done]. intros _. split; [eauto|lia].
Qed.

(** The string of a debug call ends before the memory does: the fuel suffices. *)
Lemma debug_loop_returns m memory_size fuel : forall addr buffer,
  (forall a, load8 m a <> Panic) -> (forall a, memory_size <= a -> exists e, load8 m a = Err e) ->
  memory_size < U64_SIZE -> (Z.to_nat (memory_size - addr) < fuel)%nat ->
  debug_loop fuel m addr buffer <> Panic.
Proof.
  induction fuel as [|fuel IH]; intros addr buffer Hnp Hend Hsize Hfuel; [lia|]. cbn [debug_loop].
  pose proof (Hnp addr) as Hp. destruct (load8 m addr) as [byte|e|] eqn:Hl; cbn; [|done|done].
  case_decide; [done|]. destruct (decide (memory_size <= addr)) as [Ha|Ha].
  { destruct (Hend addr Ha) as [e He]. congruence. }
  rewrite add_w_eq, bind_ret_l by lia. apply IH; [done|done|done|lia].
Qed.

Context (blake2b : Bytes -> H256) (data_loader : DataLoader) (flag_executable flag_freezed memory_size : Z).
Context (finish_output : FbsCellOutput -> Bytes) (finish_script : FbsScript -> Bytes)
  (finish_input : FbsCellInput -> Bytes) (finish_out_point : FbsOutPoint -> Bytes)
  (finish_header : FbsHeader -> Bytes) (finish_witness : FbsWitness -> Bytes).
#[local] Abbreviation load_cell := (LoadCell_ecall blake2b data_loader finish_output finish_script).
#[local] Abbreviation load_code := (LoadCode_ecall data_loader flag_executable flag_freezed).
#[local] Abbreviation syscalls := (group_syscalls blake2b data_loader flag_executable flag_freezed memory_size
  finish_output finish_script finish_input finish_out_point finish_header finish_witness).

(** A script can stop the node.  Asking for the hash of the script panics
    exactly when the offset is beyond the hash and the size word can be read; loading
    the code of a cell panics exactly when the offset is within the data and its sum
    with the size does not fit into 64 bits.  Both numbers are registers that the
    program sets. *)
Theorem syscall_panics m h (self : LoadCell) source cell output :
  Source_parse (register m A5) = Ok source -> fetch_cell self source (register m A4) = Ok cell ->
  lazy_load_cell_output data_loader cell = Some output -> len (co_data output) * 10 < U64_SIZE ->
  (LoadScriptHash_ecall (h256_as_bytes h) m = Panic <->
     register m A7 = LOAD_SCRIPT_HASH_SYSCALL_NUMBER /\ (exists size, load64 m (register m A1) = Ok size) /\
     32 < register m A2) /\
  (load_code self m = Panic <->
     register m A7 = LOAD_CODE_SYSCALL_NUMBER /\ register m A2 < len (co_data output) /\
     U64_SIZE <= register m A2 + register m A3).
Proof.
  intros Hsrc Hf Ho Hlen. split.
  - assert (len (h256_as_bytes h) = 32) as H32 by (unfold len; by rewrite length_h256_as_bytes).
    unfold LoadScriptHash_ecall. case_decide as Hn; [naive_solver|].
    pose proof (store_data_panics m (h256_as_bytes h)) as Hp. rewrite H32 in Hp. unfold load_whole. rewrite H32.
    destruct (store_data m (h256_as_bytes h)) as [m1|e|]; [|naive_solver..].
    rewrite bind_ret_l, mul_w_eq, bind_ret_l by done.
    destruct (add_cycles _ (32 * 10)) as [m2|e|] eqn:Ha; cbn; [naive_solver..|]. by apply add_cycles_no_panic in Ha.
  - unfold LoadCode_ecall. case_decide as Hn; [naive_solver|].
    rewrite Hsrc, bind_ret_l, Hf, Ho. cbn [expect]. rewrite bind_ret_l. case_decide as Hd; cbn.
    + split; [done|]. intros (_ & ? & _). lia.
    + unfold add_w. case_decide as Hadd; cbn; [|split; [intros _; split; [done|lia]|done]].
      split; [|intros (_ & _ & ?); lia]. destruct (_ || _); [done|].
      destruct (init_pages _ _ _ _ _ _) as [m1|e|] eqn:Hi; cbn; [|done|by apply init_pages_no_panic in Hi].
      rewrite mul_w_eq, bind_ret_l by done.
      destruct (add_cycles _ (len (co_data output) * 10)) as [m2|e|] eqn:Ha; cbn; [done..|].
      by apply add_cycles_no_panic in Ha.
Qed.

(** No call number belongs to two handlers: of any two of the handlers of a
    group, one leaves the machine as it is and says that the call is not its own. *)
Theorem syscalls_disjoint self group m i j f g :
  syscalls self group !! i = Some f -> syscalls self group !! j = Some g -> i <> j ->
  f m = Ok (m, false) \/ g m = Ok (m, false).
Proof.
  assert (forall k h, syscalls self group !! k = Some h -> h m = Ok (m, false) \/
    register m A7 ∈ nth k [[2062]; [2061]; [2071; 2081]; [2073; 2083]; [2072]; [2074]; [2091]; [2177]] []) as H.
  { intros k h Hk. unfold group_syscalls in Hk.
    do 8 (destruct k as [|k]; [injection Hk as <-; unfold LoadScriptHash_ecall, LoadTxHash_ecall, LoadCell_ecall,
      LoadInput_ecall, LoadHeader_ecall, LoadWitness_ecall, LoadCode_ecall, Debugger_ecall; cbn [nth];
      repeat case_decide; (by left) || (right; set_unfold; tauto)|]). done. }
  intros Hf Hg Hij. destruct (H i f Hf) as [?|Hi]; [by left|]. destruct (H j g Hg) as [?|Hj]; [by right|].
  apply lookup_lt_Some in Hf, Hg. cbn in Hf, Hg. exfalso. apply Hij. clear -Hi Hj Hf Hg. destruct i as [|[|[|[|[|[|[|[|i]]]]]]]]; destruct j as [|[|[|[|[|[|[|[|j]]]]]]]];
    try lia; cbn in Hi, Hj; set_unfold; lia.
Qed.

(** ** Cells of a group *)

(** What a field of a cell is as bytes. *)
Definition field_bytes (field : CellField) (output : CellOutput) : option Bytes :=
  match field with
  | FieldCapacity => Some (u64_to_le_bytes (co_capacity output))
  | FieldData => Some (co_data output)
  | FieldDataHash => Some (h256_as_bytes (data_hash blake2b output))
  | FieldLock => Some (finish_script (fbs_script (co_lock output)))
  | FieldLockHash => Some (h256_as_bytes (Script_hash blake2b (co_lock output)))
  | FieldType => (fun t => finish_script (fbs_script t)) <$> co_type output
  | FieldTypeHash => (fun t => h256_as_bytes (Script_hash blake2b t)) <$> co_type output
  end.

Lemma load_by_field_spec m field output :
  CellField_parse (register m A5) = Ok field ->
  cell_load_by_field blake2b finish_script m output =
  match field_bytes field output with
  | Some data => load_item m data
  | None => Ok (m, ITEM_MISSING, 0)
  end.
Proof. intros Hf. unfold cell_load_by_field. rewrite Hf, bind_ret_l. by destruct field; cbn; try destruct (co_type output). Qed.

Lemma copied_set m data m' r v : copied m data m' -> copied m data (set_register m' r v).
Proof.
  intros [H1 H2 H3]. split.
  - rewrite <- H1 at 2. apply read_outside. intros; apply memory_set.
  - rewrite <- H2. f_equal. apply read_outside. intros; apply memory_set.
  - intros x ? ?. rewrite memory_set. by apply H3.
Qed.

Lemma copied_same m data m' m'' : copied m data m' -> (forall x, memory m'' x = memory m' x) -> copied m data m''.
Proof.
  intros [H1 H2 H3] Hm. split.
  - rewrite <- H1 at 2. by apply read_outside.
  - rewrite <- H2. f_equal. by apply read_outside.
  - intros x ? ?. rewrite Hm. by apply H3.
Qed.

Lemma source_parse_group e : Source_parse (Source_u64 (SourceGroup e)) = Ok (SourceGroup e).
Proof. by destruct e. Qed.

End sound.

(** ** Example: a machine with a flat memory *)
Module MachineExample.
Record Flat := mkFlat { fl_regs : Reg -> Z; fl_mem : Z -> Z; fl_used : Z; fl_limit : Z }.

Definition MEMORY : Z := 4096.
Definition in_memory (a n : Z) : Prop := 0 <= a /\ a + n <= MEMORY.
#[export] Instance in_memory_dec a n : Decision (in_memory a n).
Proof. unfold in_memory. apply _. Defined.
Definition flat_store (m : Flat) (a : Z) (bs : Bytes) : outcome MachineError Flat :=
  if decide (in_memory a (len bs)) then Ok (mkFlat (fl_regs m) (overwrite a bs (fl_mem m)) (fl_used m) (fl_limit m))
  else Err (MachineFault 1).

#[export] Instance Flat_machine : SupportMachine Flat := {|
  register := fl_regs;
  set_register m r v := mkFlat (fun r' => if decide (r = r') then v else fl_regs m r') (fl_mem m) (fl_used m) (fl_limit m);
  load8 m a := if decide (in_memory a 1) then Ok (fl_mem m a) else Err (MachineFault 1);
  load64 m a := if decide (in_memory a 8) then Ok (le_combine (read (fl_mem m) a 8)) else Err (MachineFault 1);
  store64 m a v := flat_store m a (u64_to_le_bytes v);
  store_bytes := flat_store;
  init_pages m a n _ bs o := flat_store m a (default [] bs ++ replicate (Z.to_nat (n - len (default [] bs))) 0);
  add_cycles m n := if decide (fl_used m + n <= fl_limit m)
                    then Ok (mkFlat (fl_regs m) (fl_mem m) (fl_used m + n) (fl_limit m)) else Err (MachineFault 2)
|}.

Lemma flat_store_Ok m a bs : in_memory a (len bs) ->
  flat_store m a bs = Ok (mkFlat (fl_regs m) (overwrite a bs (fl_mem m)) (fl_used m) (fl_limit m)).
Proof. intros H. unfold flat_store. by rewrite decide_True. Qed.

Lemma flat_store_no_panic m a bs : flat_store m a bs <> Panic.
Proof. unfold flat_store. by case_decide. Qed.

#[export] Instance Flat_laws : MachineLaws Flat.
Proof.
  refine {| memory := fl_mem; used := fl_used; limit := fl_limit; accessible m a n := in_memory a n |}; try done.
  - intros m a Ha. cbn. by rewrite decide_True.
  - intros m a v Ha. cbn. rewrite flat_store_Ok by done. by eexists.
  - intros m a bs Ha. cbn. rewrite flat_store_Ok by done. by eexists.
  - intros m n Hn. cbn. rewrite decide_True by done. by eexists.
  - intros m a. cbn. by case_decide.
  - intros. apply flat_store_no_panic.
  - intros. apply flat_store_no_panic.
  - intros. apply flat_store_no_panic.
  - intros m n. cbn. by case_decide.
Defined.

Definition digest (bs : Bytes) : H256 := foldl (fun acc b => (acc * 257 + b + 1) mod 1000003) 7 bs.
Definition no_bytes {A} (_ : A) : Bytes := [].
(** A program asks for the lock hash of the first input of its group. *)
Definition asking (number offset third fourth fifth : Z) : Flat :=
  mkFlat (fun r => match r with A0 => 100 | A1 => 200 | A2 => offset | A3 => third | A4 => fourth | A5 => fifth | A7 => number end)
    (fun x => if decide (x = 200) then 40 else 0) 0 1000000.
Definition verifier : VerifierState :=
  ok_value (mkVerifier MergeExample.rtx ∅ ∅ ∅ ∅) (TransactionScriptsVerifier_new digest MergeExample.loader MergeExample.rtx).
Definition group_hash : H256 := Script_hash digest MergeExample.lock1.
Definition first_group : ScriptGroup := default (ScriptGroup_new MergeExample.lock1) (vs_lock_groups verifier !! group_hash).
Definition asked : Flat := asking LOAD_CELL_BY_FIELD_SYSCALL_NUMBER 0 0 (Source_u64 (SourceGroup EntryInput)) 4.
End MachineExample.

Section witnesses.
Import MachineExample.


(** The two calls that panic. *)
Definition panicking_hash : Flat := asking LOAD_SCRIPT_HASH_SYSCALL_NUMBER 33 0 0 2.
Definition panicking_code : Flat := asking LOAD_CODE_SYSCALL_NUMBER 1 (U64_SIZE - 1) 0 2.
Definition code_output : CellOutput := mkCellOutput 100 [1; 2] simple_script None.
Definition code_meta : CellMeta := mkCellMeta (Some code_output) (mkCellOutPoint 20 0) None false 100 None.
Definition code_cell : LoadCell := mkLoadCell [code_meta] [] [] [] [].

Lemma syscall_panics_witness :
  LoadScriptHash_ecall (h256_as_bytes 5) panicking_hash = Panic /\
  LoadCode_ecall MergeExample.loader 1 2 code_cell panicking_code = Panic.
Proof.
  split.
  - destruct (syscall_panics MergeExample.loader 1 2 panicking_hash 5 code_cell (SourceTransaction EntryOutput)
      code_meta code_output) as [H _]; [vm_compute; reflexivity..|].
    apply H. split; [by_compute|]. split; [eexists; vm_compute; reflexivity|by_compute].
  - destruct (syscall_panics MergeExample.loader 1 2 panicking_code 5 code_cell (SourceTransaction EntryOutput)
      code_meta code_output) as [_ H]; [vm_compute; reflexivity..|]. apply H. by_compute.
Defined.

Lemma syscalls_disjoint_witness :
  LoadTxHash_ecall (build_load_tx_hash verifier) panicking_hash = Ok (panicking_hash, false).
Proof.
  destruct (syscalls_disjoint digest MergeExample.loader 1 2 4096 no_bytes no_bytes no_bytes no_bytes no_bytes no_bytes
    verifier first_group panicking_hash 0 1 _ _ eq_refl eq_refl) as [H|H]; [done| |exact H].
  exfalso. revert H. vm_compute. done.
Defined.
End witnesses.
