(* ===== verification/PeerStore.v ===== *)
(** * Addresses of peers and the peer store

    [network/src/network_group.rs], [network/src/peer_store.rs],
    [peer_store/types.rs] and the store on SQLite,
    [peer_store/sqlite/db.rs] and [peer_store/sqlite/peer_store.rs].  A table is
    the list of its rows and a statement is what it does to the rows.  A peer id is
    its bytes; the columns that hold an address or a network group in bytes hold the
    value itself, which the bytes determine.  Times are milliseconds unless a name
    says seconds. *)
From S2P Require Import Prelude.

(** ** The surroundings of a call

    The clocks, the order in which a hash map or a query without an order gives
    its elements, the random choices, whether the service takes a command to dial,
    and whether the rows of a query are read when they are iterated over (as
    [rusqlite] documents) or at once. *)
Record Env := mkEnv {
  env_now : Z;
  env_instant : Z;
  env_order : forall A : Type, list A -> list A;
  env_shuffle : forall A : Type, list A -> list A;
  env_choose : forall A : Type, list A -> option A;
  env_dial : bool;
  env_lazy_rows : bool
}.
Arguments env_order _ {A} l.
Arguments env_shuffle _ {A} l.
Arguments env_choose _ {A} l.

Record EnvLaws (env : Env) : Prop := {
  order_perm : forall (A : Type) (l : list A), env_order env l ≡ₚ l;
  shuffle_perm : forall (A : Type) (l : list A), env_shuffle env l ≡ₚ l;
  choose_in : forall (A : Type) (l : list A) a, env_choose env l = Some a -> a ∈ l;
  choose_some : forall (A : Type) (l : list A), l <> [] -> is_Some (env_choose env l)
}.

(** [sort_by_key], which is stable. *)
Fixpoint insert_by_key {A} (key : A -> Z) (a : A) (l : list A) : list A :=
  match l with
  | [] => [a]
  | b :: l => if decide (key a <= key b) then a :: b :: l else b :: insert_by_key key a l
  end.
Definition sort_by_key {A} (key : A -> Z) (l : list A) : list A := foldr (insert_by_key key) [] l.

(** ** Addresses *)

Abbreviation PeerId := Bytes (only parsing).

(** The components of an address: an IPv4 address has four octets, an IPv6
    address sixteen. *)
Inductive Protocol :=
| Ip4 (octets : Bytes)
| Ip6 (octets : Bytes)
| Tcp (port : Z)
| P2p (hash : Bytes)
| OtherProtocol (code : Z) (data : Bytes).
Abbreviation Multiaddr := (list Protocol) (only parsing).

#[export] Instance Protocol_eq_dec : EqDecision Protocol.
Proof. solve_decision. Defined.
#[export] Instance Protocol_countable : Countable Protocol.
Proof.
  refine (inj_countable'
    (fun p => match p with
      | Ip4 o => (0%Z, 0%Z, o) | Ip6 o => (1%Z, 0%Z, o) | Tcp port => (2%Z, port, []) | P2p h => (3%Z, 0%Z, h)
      | OtherProtocol c d => (4%Z, c, d) end)
    (fun '(tag, n, o) => if decide (tag = 0%Z) then Ip4 o else if decide (tag = 1%Z) then Ip6 o
      else if decide (tag = 2%Z) then Tcp n else if decide (tag = 3%Z) then P2p o else OtherProtocol n o) _).
  by intros [].
Defined.

Inductive IpAddr := V4 (octets : Bytes) | V6 (octets : Bytes).

Inductive Group := NoGroup | LocalNetwork | IP4 (bits : Bytes) | IP6 (bits : Bytes).
#[export] Instance Group_eq_dec : EqDecision Group.
Proof. solve_decision. Defined.

(** [IpAddr::is_loopback] and [Ipv6Addr::to_ipv4]. *)
Definition is_loopback (ip : IpAddr) : bool :=
  match ip with
  | V4 octets => bool_decide (head octets = Some 127)
  | V6 octets => bool_decide (octets = replicate 15 0 ++ [1])
  end.
Definition to_ipv4 (octets : Bytes) : option Bytes :=
  if decide (take 10 octets = replicate 10 0 /\
    (take 2 (drop 10 octets) = [0; 0] \/ take 2 (drop 10 octets) = [255; 255]))
  then Some (drop 12 octets) else None.

Fixpoint extract_ip_addr (self : Multiaddr) : option IpAddr :=
  match self with
  | [] => None
  | Ip4 ipv4 :: _ => Some (V4 ipv4)
  | Ip6 ipv6 :: _ => Some (V6 ipv6)
  | _ :: self => extract_ip_addr self
  end.

Definition extract_ip_addr_binary (self : Multiaddr) : option Bytes :=
  (fun ip => match ip with V4 octets => octets | V6 octets => octets end) <$> extract_ip_addr self.

Definition network_group (self : Multiaddr) : Group :=
  match extract_ip_addr self with
  | Some ip_addr =>
      if is_loopback ip_addr then LocalNetwork
      else match ip_addr with
      | V4 bits => IP4 (take 2 bits)
      | V6 ipv6 =>
          match to_ipv4 ipv6 with
          | Some bits => IP4 (take 2 bits)
          | None => IP6 (take 4 ipv6)
          end
      end
  | None => NoGroup
  end.

(** ** The data of the store *)

Definition PEER_STORE_LIMIT : Z := 8192.
Definition BAN_LIST_CLEAR_EXPIRES_SIZE : Z := 1024.
Definition DEFAULT_ADDRS : Z := 3.
Definition MAX_ADDRS : Z := 3.
Definition ADDR_TIMEOUT_MS : Z := 7 * 24 * 3600 * 1000.
Definition ADDR_MAX_RETRIES : Z := 3.
Definition ADDR_MAX_FAILURES : Z := 10.

Record PeerScoreConfig := mkPeerScoreConfig { default_score : Z; ban_score : Z; ban_timeout : Z }.
Definition PeerScoreConfig_default : PeerScoreConfig := mkPeerScoreConfig 100 40 (24 * 3600 * 1000).

Inductive Status := Connected | Disconnected | UnknownStatus.
#[export] Instance Status_eq_dec : EqDecision Status.
Proof. solve_decision. Defined.
Definition status_to_u8 (status : Status) : Z :=
  match status with Connected => 0 | Disconnected => 1 | UnknownStatus => 2 end.
Definition u8_to_status (i : Z) : Status :=
  if decide (i = 0) then Connected else if decide (i = 1) then Disconnected else UnknownStatus.

Inductive ReportResult := ReportOk | ReportBanned.

Inductive SessionType := Inbound | Outbound.
#[export] Instance SessionType_eq_dec : EqDecision SessionType.
Proof. solve_decision. Defined.
Definition is_inbound (ty : SessionType) : bool := match ty with Inbound => true | Outbound => false end.
Definition is_outbound (ty : SessionType) : bool := negb (is_inbound ty).
Definition bool_to_endpoint (is_inbound : bool) : SessionType := if is_inbound then Inbound else Outbound.

Inductive Behaviour := TestGood | TestBad.
Definition Behaviour_score (b : Behaviour) : Z := match b with TestGood => 10 | TestBad => -10 end.

Record PeerInfo := mkPeerInfo {
  pi_peer_id : PeerId; pi_connected_addr : Multiaddr; pi_score : Z; pi_status : Status;
  pi_session_type : SessionType; pi_ban_time_ms : Z; pi_last_connected_at_ms : Z
}.
Definition PeerInfo_new (peer_id : PeerId) (connected_addr : Multiaddr) (score : Z) (session_type : SessionType)
    (last_connected_at_ms : Z) : PeerInfo :=
  mkPeerInfo peer_id connected_addr score UnknownStatus session_type 0 last_connected_at_ms.

Record PeerAddr := mkPeerAddr {
  pa_peer_id : PeerId; pa_addr : Multiaddr; pa_last_connected_at_ms : Z; pa_last_tried_at_ms : Z;
  pa_attempts_count : Z
}.
Definition PeerAddr_new (peer_id : PeerId) (addr : Multiaddr) (last_connected_at_ms : Z) : PeerAddr :=
  mkPeerAddr peer_id addr last_connected_at_ms 0 0.

Section times.
Context {E : Type}.

Definition tried_in_last_minute (self : PeerAddr) (now_ms : Z) : outcome E bool :=
  limit ← now_ms -64 60000;
  Ok (bool_decide (limit <= pa_last_tried_at_ms self)).

Definition is_terrible (self : PeerAddr) (now_ms : Z) : outcome E bool :=
  tried ← tried_in_last_minute self now_ms;
  if (tried : bool) then Ok false
  else if bool_decide (pa_last_connected_at_ms self = 0) && bool_decide (ADDR_MAX_RETRIES <= pa_attempts_count self)
  then Ok true
  else
    age ← now_ms -64 pa_last_connected_at_ms self;
    Ok (bool_decide (ADDR_TIMEOUT_MS < age) && bool_decide (ADDR_MAX_FAILURES <= pa_attempts_count self)).
End times.

Definition mark_tried (self : PeerAddr) (tried_at_ms : Z) : PeerAddr :=
  mkPeerAddr (pa_peer_id self) (pa_addr self) (pa_last_connected_at_ms self) tried_at_ms
    (saturating_add U32_SIZE (pa_attempts_count self) 1).
Definition mark_connected (self : PeerAddr) (connected_at_ms : Z) : PeerAddr :=
  mkPeerAddr (pa_peer_id self) (pa_addr self) connected_at_ms (pa_last_tried_at_ms self) 0.

(** ** The tables *)

Definition secs_to_millis (secs : Z) : Z := secs * 1000.
Definition millis_to_secs (millis : Z) : Z := cast U32_SIZE (millis / 1000).

Record PeerInfoRow := mkPeerInfoRow {
  ir_peer_id : PeerId; ir_connected_addr : Multiaddr; ir_network_group : Group; ir_score : Z; ir_status : Z;
  ir_endpoint : bool; ir_ban_time_secs : Z; ir_last_connected_at_secs : Z
}.
Record PeerAddrRow := mkPeerAddrRow {
  ar_peer_id : PeerId; ar_addr : Multiaddr; ar_last_connected_at_secs : Z; ar_last_tried_at_secs : Z;
  ar_attempts_count : Z
}.
Record Conn := mkConn {
  peer_info : list PeerInfoRow; peer_addr : list PeerAddrRow; ban_table : list (Bytes * Z)
}.
Definition set_peer_info (conn : Conn) (rows : list PeerInfoRow) : Conn :=
  mkConn rows (peer_addr conn) (ban_table conn).
Definition set_peer_addr (conn : Conn) (rows : list PeerAddrRow) : Conn :=
  mkConn (peer_info conn) rows (ban_table conn).
Definition set_ban_table (conn : Conn) (rows : list (Bytes * Z)) : Conn :=
  mkConn (peer_info conn) (peer_addr conn) rows.

(** Peers. *)
Definition insert_info (conn : Conn) (peer : PeerInfo) : Conn :=
  let row := mkPeerInfoRow (pi_peer_id peer) (pi_connected_addr peer) (network_group (pi_connected_addr peer))
    (pi_score peer) (status_to_u8 (pi_status peer)) (is_inbound (pi_session_type peer)) 0
    (millis_to_secs (pi_last_connected_at_ms peer)) in
  set_peer_info conn (filter (fun r => ir_peer_id r <> pi_peer_id peer) (peer_info conn) ++ [row]).

Definition row_info (row : PeerInfoRow) : PeerInfo :=
  mkPeerInfo (ir_peer_id row) (ir_connected_addr row) (ir_score row) (u8_to_status (ir_status row))
    (bool_to_endpoint (ir_endpoint row)) (secs_to_millis (ir_ban_time_secs row))
    (secs_to_millis (ir_last_connected_at_secs row)).

Definition get_by_peer_id (conn : Conn) (peer_id : PeerId) : option PeerInfo :=
  row_info <$> head (filter (fun r => ir_peer_id r = peer_id) (peer_info conn)).

Definition get_or_insert (conn : Conn) (peer : PeerInfo) : Conn * PeerInfo :=
  match get_by_peer_id conn (pi_peer_id peer) with
  | Some peer => (conn, peer)
  | None => (insert_info conn peer, peer)
  end.

(** [UPDATE peer_info SET ... WHERE peer_id = ...], and how many rows it changed. *)
Definition update_rows (conn : Conn) (peer_id : PeerId) (f : PeerInfoRow -> PeerInfoRow) : Conn :=
  set_peer_info conn ((fun r => if decide (ir_peer_id r = peer_id) then f r else r) <$> peer_info conn).

Definition update_info (conn : Conn) (peer_id : PeerId) (connected_addr : Multiaddr) (endpoint : SessionType)
    (last_connected_at_ms : Z) : Conn * Z :=
  (update_rows conn peer_id (fun r =>
     mkPeerInfoRow (ir_peer_id r) connected_addr (ir_network_group r) (ir_score r) (ir_status r)
       (is_inbound endpoint) (ir_ban_time_secs r) (millis_to_secs last_connected_at_ms)),
   len (filter (fun r => ir_peer_id r = peer_id) (peer_info conn))).

Definition delete_info (conn : Conn) (peer_id : PeerId) : Conn :=
  set_peer_info conn (filter (fun r => ir_peer_id r <> peer_id) (peer_info conn)).

Definition update_score (conn : Conn) (peer_id : PeerId) (score : Z) : Conn :=
  update_rows conn peer_id (fun r =>
    mkPeerInfoRow (ir_peer_id r) (ir_connected_addr r) (ir_network_group r) score (ir_status r)
      (ir_endpoint r) (ir_ban_time_secs r) (ir_last_connected_at_secs r)).

Definition set_status (r : PeerInfoRow) (status : Z) : PeerInfoRow :=
  mkPeerInfoRow (ir_peer_id r) (ir_connected_addr r) (ir_network_group r) (ir_score r) status
    (ir_endpoint r) (ir_ban_time_secs r) (ir_last_connected_at_secs r).

Definition db_update_status (conn : Conn) (peer_id : PeerId) (status : Status) : Conn :=
  update_rows conn peer_id (fun r => set_status r (status_to_u8 status)).

Definition db_reset_status (conn : Conn) : Conn :=
  set_peer_info conn ((fun r =>
    if decide (ir_status r <> status_to_u8 Disconnected) then set_status r (status_to_u8 Disconnected) else r)
    <$> peer_info conn).

Definition group_count (conn : Conn) (g : Group) : Z :=
  len (filter (fun r => ir_network_group r = g) (peer_info conn)).

(** The query for the group fails when the table is empty. *)
Definition largest_network_group (env : Env) (conn : Conn) : option (list PeerInfo) :=
  let groups := env_order env (remove_dups (ir_network_group <$> peer_info conn)) in
  g ← head (sort_by_key (fun g => - group_count conn g) groups);
  Some (row_info <$> env_order env (filter (fun r => ir_network_group r = g) (peer_info conn))).

(** Addresses of peers. *)
Definition count_addrs (conn : Conn) (peer_id : PeerId) : Z :=
  len (filter (fun r => ar_peer_id r = peer_id) (peer_addr conn)).

Definition is_p2p (proto : Protocol) : bool := match proto with P2p _ => true | _ => false end.

(** The number of attempts is read from the fifth column of the query, which is
    the time of the last try a second time. *)
Definition get_addr (conn : Conn) (peer_id : PeerId) (addr : Multiaddr) : option PeerAddr :=
  (fun r => mkPeerAddr (ar_peer_id r) (ar_addr r) (secs_to_millis (ar_last_connected_at_secs r))
     (secs_to_millis (ar_last_tried_at_secs r)) (ar_last_tried_at_secs r))
  <$> head (filter (fun r => ar_peer_id r = peer_id /\ ar_addr r = addr) (peer_addr conn)).

Definition insert_addr (conn : Conn) (paddr : PeerAddr) : Conn :=
  let addr := filter (fun proto => is_p2p proto = false) (pa_addr paddr) in
  let row := mkPeerAddrRow (pa_peer_id paddr) addr (millis_to_secs (pa_last_connected_at_ms paddr))
    (millis_to_secs (pa_last_tried_at_ms paddr)) (pa_attempts_count paddr) in
  set_peer_addr conn
    (filter (fun r => ~ (ar_peer_id r = pa_peer_id paddr /\ ar_addr r = addr)) (peer_addr conn) ++ [row]).

Definition row_addr (r : PeerAddrRow) : PeerAddr :=
  mkPeerAddr (ar_peer_id r) (ar_addr r) (secs_to_millis (ar_last_connected_at_secs r))
    (secs_to_millis (ar_last_tried_at_secs r)) (ar_attempts_count r).

Definition get_addrs (env : Env) (conn : Conn) (peer_id : PeerId) (count : Z) : list PeerAddr :=
  row_addr <$> take (Z.to_nat count) (env_order env (filter (fun r => ar_peer_id r = peer_id) (peer_addr conn))).

Definition delete_addr (conn : Conn) (peer_id : PeerId) (addr : Multiaddr) : Conn :=
  set_peer_addr conn (filter (fun r => ~ (ar_peer_id r = peer_id /\ ar_addr r = addr)) (peer_addr conn)).

Definition delete_by_peer_id (conn : Conn) (peer_id : PeerId) : Conn :=
  set_peer_addr conn (filter (fun r => ar_peer_id r <> peer_id) (peer_addr conn)).

(** The random selections; [strftime('%s','now')] is the time in seconds. *)
Definition select_random (env : Env) (conn : Conn) (count : Z) (p : PeerInfoRow -> bool) : list PeerId :=
  take (Z.to_nat count) (env_shuffle env (ir_peer_id <$> filter (fun r => p r = true) (peer_info conn))).
Definition not_banned_row (env : Env) (r : PeerInfoRow) : bool :=
  bool_decide (ir_ban_time_secs r < env_now env / 1000).
Definition not_connected_row (r : PeerInfoRow) : bool := bool_decide (ir_status r <> status_to_u8 Connected).

Definition get_random_peers (env : Env) (conn : Conn) (count expired_at_ms : Z) : list PeerId :=
  select_random env conn count (fun r => not_banned_row env r &&
    bool_decide (millis_to_secs expired_at_ms < ir_last_connected_at_secs r)).
Definition get_peers_to_attempt (env : Env) (conn : Conn) (count : Z) : list PeerId :=
  select_random env conn count (fun r => not_connected_row r && not_banned_row env r).
Definition get_peers_to_feeler (env : Env) (conn : Conn) (count expired_at_ms : Z) : list PeerId :=
  select_random env conn count (fun r => not_connected_row r &&
    bool_decide (ir_last_connected_at_secs r < millis_to_secs expired_at_ms) && not_banned_row env r).

(** Bans. *)
Definition insert_ban_record (conn : Conn) (ip : Bytes) (ban_time_ms : Z) : Conn :=
  set_ban_table conn (filter (fun r => r.1 <> ip) (ban_table conn) ++ [(ip, millis_to_secs ban_time_ms)]).

Definition get_ban_records (conn : Conn) (now_ms : Z) : list (Bytes * Z) :=
  (fun r => (r.1, secs_to_millis r.2)) <$> filter (fun r => millis_to_secs now_ms < r.2) (ban_table conn).

(** The rows of the query are collected after the rows have been deleted. *)
Definition db_clear_expires (env : Env) (conn : Conn) (now_ms : Z) : Conn * list Bytes :=
  let expired conn := fst <$> filter (fun r => r.2 < millis_to_secs now_ms) (ban_table conn) in
  let conn' := set_ban_table conn (filter (fun r => ~ (r.2 < millis_to_secs now_ms)) (ban_table conn)) in
  (conn', expired (if env_lazy_rows env then conn' else conn)).

(** ** The store *)

Record PeerStore := mkPeerStore {
  ps_bootnodes : list (PeerId * Multiaddr);
  ps_config : PeerScoreConfig;
  ps_ban_list : gmap Bytes Z;
  ps_conn : Conn
}.
Definition set_conn (self : PeerStore) (conn : Conn) : PeerStore :=
  mkPeerStore (ps_bootnodes self) (ps_config self) (ps_ban_list self) conn.
Definition set_bans (self : PeerStore) (bans : gmap Bytes Z) : PeerStore :=
  mkPeerStore (ps_bootnodes self) (ps_config self) bans (ps_conn self).

Definition clear_expires_banned_ip (env : Env) (self : PeerStore) : PeerStore :=
  let '(conn, ips) := db_clear_expires env (ps_conn self) (env_now env) in
  set_conn (set_bans self (foldl (fun m ip => delete ip m) (ps_ban_list self) ips)) conn.

Definition load_banlist (env : Env) (self : PeerStore) : PeerStore :=
  let self := clear_expires_banned_ip env self in
  set_bans self (foldl (fun m r => <[r.1 := r.2]> m) (ps_ban_list self)
    (get_ban_records (ps_conn self) (env_now env))).

(** The tables are created only when there are none. *)
Definition PeerStore_new (env : Env) (conn : Conn) (config : PeerScoreConfig) : PeerStore :=
  load_banlist env (mkPeerStore [] config ∅ (db_reset_status conn)).

Definition is_banned (env : Env) (self : PeerStore) (addr : Multiaddr) : bool :=
  match extract_ip_addr_binary addr with
  | Some ip => match ps_ban_list self !! ip with
               | Some ban_time => bool_decide (env_now env < ban_time)
               | None => false
               end
  | None => false
  end.

Section operations.
Context {E : Type}.
Local Abbreviation result := (outcome E).

Definition ban_addr (env : Env) (self : PeerStore) (addr : Multiaddr) (timeout : Z) : result PeerStore :=
  match extract_ip_addr_binary addr with
  | None => Ok self
  | Some ip =>
      ban_time ← env_now env +64 cast U64_SIZE timeout;
      let self := set_conn self (insert_ban_record (ps_conn self) ip ban_time) in
      let self := set_bans self (<[ip := ban_time]> (ps_ban_list self)) in
      Ok (if decide (BAN_LIST_CLEAR_EXPIRES_SIZE < Z.of_nat (size (ps_ban_list self)))
          then clear_expires_banned_ip env self else self)
  end.

(** [Iterator::min_by_key] takes the first of several. *)
Definition min_by_key {A} (key : A -> Z) (l : list A) : option A := head (sort_by_key key l).

(** [None] is the error of the code. *)
Definition check_store_limit (env : Env) (self : PeerStore) : result (option PeerStore) :=
  let conn := ps_conn self in
  if decide (cast U32_SIZE (len (peer_info conn)) < PEER_STORE_LIMIT) then Ok (Some self)
  else
    peers ← expect (largest_network_group env conn);
    not_seen_timeout ← env_now env -64 ADDR_TIMEOUT_MS;
    match min_by_key pi_score (filter (fun peer => pi_last_connected_at_ms peer < not_seen_timeout) peers) with
    | None => Ok None
    | Some candidate =>
        if decide (default_score (ps_config self) <= pi_score candidate) then Ok None
        else Ok (Some (set_conn self (delete_by_peer_id (delete_info conn (pi_peer_id candidate)) (pi_peer_id candidate))))
    end.

(** Delete the terrible addresses; how many there were. *)
Definition delete_terrible (env : Env) (acc : Conn * Z) (paddr : PeerAddr) : result (Conn * Z) :=
  let '(conn, n) := acc in
  terrible ← is_terrible paddr (env_now env);
  Ok (if (terrible : bool) then (delete_addr conn (pa_peer_id paddr) (pa_addr paddr), n + 1) else (conn, n)).

Definition check_limit_and_evict_peer_addrs (env : Env) (self : PeerStore) (peer_id : PeerId) : result PeerStore :=
  if decide (count_addrs (ps_conn self) peer_id < MAX_ADDRS) then Ok self
  else
    let peer_addrs := get_addrs env (ps_conn self) peer_id MAX_ADDRS in
    '(conn, terrible_addrs_count) ← try_fold (delete_terrible env) (ps_conn self, 0) peer_addrs;
    if decide (0 < terrible_addrs_count) then Ok (set_conn self conn)
    else Ok (set_conn self
      match sort_by_key pa_last_connected_at_ms peer_addrs with
      | old :: _ => delete_addr conn (pa_peer_id old) (pa_addr old)
      | [] => conn
      end).

Definition fetch_peer_info (self : PeerStore) (peer_id : PeerId) : PeerStore * PeerInfo :=
  let '(conn, peer) := get_or_insert (ps_conn self)
    (PeerInfo_new peer_id [] (default_score (ps_config self)) Inbound 0) in
  (set_conn self conn, peer).

Definition add_connected_peer (env : Env) (self : PeerStore) (peer_id : PeerId) (addr : Multiaddr)
    (session_type : SessionType) : result PeerStore :=
  checked ← check_store_limit env self;
  match checked with
  | None => Ok self
  | Some self =>
      let now := env_now env in
      let '(conn, affected_lines) := update_info (ps_conn self) peer_id addr session_type now in
      let conn := if decide (0 < affected_lines) then conn
        else insert_info conn (PeerInfo_new peer_id addr (default_score (ps_config self)) session_type now) in
      Ok (set_conn self
        (if is_outbound session_type then
           match get_addr conn peer_id addr with
           | Some paddr => insert_addr conn (mark_connected paddr now)
           | None => insert_addr conn (PeerAddr_new peer_id addr now)
           end
         else conn))
  end.

Definition add_discovered_addr (env : Env) (self : PeerStore) (peer_id : PeerId) (addr : Multiaddr)
    : result PeerStore :=
  self ← check_limit_and_evict_peer_addrs env self peer_id;
  let '(self, peer) := fetch_peer_info self peer_id in
  Ok (set_conn self (insert_addr (ps_conn self) (PeerAddr_new (pi_peer_id peer) addr 0))).

Definition update_peer_addr (env : Env) (self : PeerStore) (paddr : PeerAddr) : result PeerStore :=
  self ← check_limit_and_evict_peer_addrs env self (pa_peer_id paddr);
  Ok (set_conn self (insert_addr (ps_conn self) paddr)).

(** [i32::saturating_add]. *)
Definition saturating_add_i32 (a b : Z) : Z := Z.max (-2147483648) (Z.min 2147483647 (a + b)).

Definition report (env : Env) (self : PeerStore) (peer_id : PeerId) (behaviour : Behaviour)
    : result (PeerStore * ReportResult) :=
  let '(self, peer) := fetch_peer_info self peer_id in
  if is_banned env self (pi_connected_addr peer) then Ok (self, ReportBanned)
  else
    let score := saturating_add_i32 (pi_score peer) (Behaviour_score behaviour) in
    if decide (score < ban_score (ps_config self)) then
      self ← ban_addr env self (pi_connected_addr peer) (ban_timeout (ps_config self));
      Ok (self, ReportBanned)
    else Ok (set_conn self (update_score (ps_conn self) (pi_peer_id peer) score), ReportOk).

Definition update_status (self : PeerStore) (peer_id : PeerId) (status : Status) : PeerStore :=
  set_conn self (db_update_status (ps_conn self) peer_id status).

Definition peer_status (self : PeerStore) (peer_id : PeerId) : Status :=
  default UnknownStatus (pi_status <$> get_by_peer_id (ps_conn self) peer_id).

Definition add_bootnode (self : PeerStore) (peer_id : PeerId) (addr : Multiaddr) : PeerStore :=
  mkPeerStore (ps_bootnodes self ++ [(peer_id, addr)]) (ps_config self) (ps_ban_list self) (ps_conn self).

(** The first address that is neither banned nor terrible. *)
Fixpoint find_usable (env : Env) (self : PeerStore) (paddrs : list PeerAddr) : result (option PeerAddr) :=
  match paddrs with
  | [] => Ok None
  | paddr :: paddrs =>
      if is_banned env self (pa_addr paddr) then find_usable env self paddrs
      else
        terrible ← is_terrible paddr (env_now env);
        if (terrible : bool) then find_usable env self paddrs else Ok (Some paddr)
  end.

Definition usable_addrs (env : Env) (self : PeerStore) (peers : list PeerId) : result (list PeerAddr) :=
  found ← try_map (fun peer_id =>
    find_usable env self (env_shuffle env (get_addrs env (ps_conn self) peer_id DEFAULT_ADDRS))) peers;
  Ok (omap id (found : list (option PeerAddr))).

Definition peers_to_attempt (env : Env) (self : PeerStore) (count : Z) : result (list PeerAddr) :=
  usable_addrs env self (get_peers_to_attempt env (ps_conn self) count).

Definition random_peers (env : Env) (self : PeerStore) (count : Z) : result (list PeerAddr) :=
  expired ← env_now env -64 ADDR_TIMEOUT_MS;
  usable_addrs env self (get_random_peers env (ps_conn self) count expired).

(** The search for an address to feel deletes the terrible ones on its way. *)
Fixpoint find_feeler (env : Env) (self : PeerStore) (paddrs : list PeerAddr) : result (PeerStore * option PeerAddr) :=
  match paddrs with
  | [] => Ok (self, None)
  | paddr :: paddrs =>
      terrible ← is_terrible paddr (env_now env);
      if (terrible : bool) then
        find_feeler env (set_conn self (delete_addr (ps_conn self) (pa_peer_id paddr) (pa_addr paddr))) paddrs
      else if is_banned env self (pa_addr paddr) then find_feeler env self paddrs
      else
        tried ← tried_in_last_minute paddr (env_now env);
        if (tried : bool) then find_feeler env self paddrs else Ok (self, Some paddr)
  end.

Definition feeler_of (env : Env) (acc : PeerStore * list PeerAddr) (peer_id : PeerId)
    : result (PeerStore * list PeerAddr) :=
  let '(self, found) := acc in
  '(self, paddr) ← find_feeler env self
    (sort_by_key pa_last_connected_at_ms (get_addrs env (ps_conn self) peer_id DEFAULT_ADDRS));
  Ok (self, found ++ option_list paddr).

Definition peers_to_feeler (env : Env) (self : PeerStore) (count : Z) : result (PeerStore * list PeerAddr) :=
  expired ← env_now env -64 ADDR_TIMEOUT_MS;
  try_fold (feeler_of env) (self, []) (get_peers_to_feeler env (ps_conn self) count expired).

Definition bootnodes (env : Env) (self : PeerStore) (count : Z) : result (list (PeerId * Multiaddr)) :=
  paddrs ← peers_to_attempt env self count;
  let peers := (fun paddr => (pa_peer_id paddr, pa_addr paddr)) <$> paddrs in
  Ok (if decide (len peers < count) then
        foldl (fun peers peer => if decide (peer ∈ peers) then peers else peers ++ [peer]) peers (ps_bootnodes self)
      else peers).
End operations.
