(* ===== verification/PeerRegistry.v ===== *)
(** * The registry of connected peers

    [network/src/peer.rs] and [network/src/peer_registry.rs]: who is accepted, who
    is evicted, and how many connections there are.  An [Instant] is a number of
    milliseconds.  The fields [identify_info] and [is_feeler] of a peer are never
    changed after it is made and are left out. *)
From S2P Require Import Prelude PeerStore.

Definition EVICTION_PROTECT_PEERS : nat := 8.
Definition U64_MAX : Z := U64_SIZE - 1.

Record Peer := mkPeer {
  p_address : Multiaddr;
  p_peer_id : PeerId;
  p_last_ping_time : option Z;
  p_last_message_time : option Z;
  p_ping : option Z;
  p_connected_time : Z;
  p_session_id : Z;
  p_session_type : SessionType;
  p_protocols : gmap Z Bytes;
  p_is_reserved : bool
}.

Definition Peer_new (env : Env) (session_id : Z) (session_type : SessionType) (peer_id : PeerId)
    (address : Multiaddr) (is_reserved : bool) : Peer :=
  mkPeer address peer_id None None None (env_instant env) session_id session_type ∅ is_reserved.

Definition Peer_is_outbound (self : Peer) : bool := is_outbound (p_session_type self).
Definition Peer_is_inbound (self : Peer) : bool := is_inbound (p_session_type self).
Definition Peer_network_group (self : Peer) : Group := network_group (p_address self).

Inductive PeerError :=
| SessionExists (session_id : Z)
| PeerIdExists (peer_id : PeerId)
| NonReserved
| Banned
| ReachMaxInboundLimit
| ReachMaxOutboundLimit.

Record PeerRegistry := mkPeerRegistry {
  pr_peers : gmap Z Peer;
  pr_max_inbound : Z;
  pr_max_outbound : Z;
  pr_reserved_only : bool;
  pr_reserved_peers : gset PeerId;
  pr_feeler_peers : gset PeerId
}.
Definition set_peers (self : PeerRegistry) (peers : gmap Z Peer) : PeerRegistry :=
  mkPeerRegistry peers (pr_max_inbound self) (pr_max_outbound self) (pr_reserved_only self)
    (pr_reserved_peers self) (pr_feeler_peers self).
Definition set_feelers (self : PeerRegistry) (feelers : gset PeerId) : PeerRegistry :=
  mkPeerRegistry (pr_peers self) (pr_max_inbound self) (pr_max_outbound self) (pr_reserved_only self)
    (pr_reserved_peers self) feelers.

Record ConnectionStatus := mkConnectionStatus {
  cs_total : Z; cs_unreserved_inbound : Z; cs_unreserved_outbound : Z; cs_max_inbound : Z; cs_max_outbound : Z
}.

Definition PeerRegistry_new (max_inbound max_outbound : Z) (reserved_only : bool) (reserved_peers : list PeerId)
    : PeerRegistry :=
  mkPeerRegistry ∅ max_inbound max_outbound reserved_only (list_to_set reserved_peers) ∅.

(** [HashMap::values]. *)
Definition peer_values (env : Env) (self : PeerRegistry) : list Peer := env_order env (map_to_list (pr_peers self)).*2.

(** ** Eviction *)

Definition sort_then_drop {A} (key : A -> Z) (n : nat) (l : list A) : list A :=
  let l := sort_by_key key l in
  if decide (n < length l)%nat then take (length l - n) l else l.

(** The seconds that the two comparisons look at. *)
Definition ping_secs (peer : Peer) : Z := from_option (fun p => p / 1000) U64_MAX (p_ping peer).
Definition message_secs (env : Env) (peer : Peer) : Z :=
  from_option (fun t => (env_instant env - t) / 1000) U64_MAX (p_last_message_time peer).

Definition evictable (peer : Peer) : bool := Peer_is_inbound peer && negb (p_is_reserved peer).

(** Those that are left when the protected peers are taken out. *)
Definition unprotected (env : Env) (candidate_peers : list Peer) : list Peer :=
  let candidate_peers := sort_then_drop (fun peer => - ping_secs peer) EVICTION_PROTECT_PEERS candidate_peers in
  let candidate_peers := sort_then_drop (fun peer => - message_secs env peer) EVICTION_PROTECT_PEERS candidate_peers in
  let protect_peers := (length candidate_peers / 2)%nat in
  sort_then_drop (fun peer => - p_connected_time peer) protect_peers candidate_peers.

Fixpoint push_group (groups : list (Group * list Peer)) (peer : Peer) : list (Group * list Peer) :=
  match groups with
  | [] => [(Peer_network_group peer, [peer])]
  | (g, members) :: groups =>
      if decide (g = Peer_network_group peer) then (g, members ++ [peer]) :: groups
      else (g, members) :: push_group groups peer
  end.

(** [Iterator::max_by_key] takes the last of several. *)
Definition max_by_key {A} (key : A -> Z) (l : list A) : option A :=
  foldl (fun best a => match best with
    | Some b => if decide (key b <= key a) then Some a else Some b
    | None => Some a end) None l.

Definition try_evict_inbound_peer (env : Env) (self : PeerRegistry) : option Z :=
  let candidate_peers := filter (fun peer => evictable peer = true) (peer_values env self) in
  let groups := foldl push_group [] (unprotected env candidate_peers) in
  let evict_group := default [] (max_by_key len (env_order env groups.*2)) in
  p_session_id <$> env_choose env evict_group.

(** ** The operations *)

Definition add_feeler (self : PeerRegistry) (peer_id : PeerId) : PeerRegistry :=
  set_feelers self ({[peer_id]} ∪ pr_feeler_peers self).
Definition remove_feeler (self : PeerRegistry) (peer_id : PeerId) : PeerRegistry :=
  set_feelers self (pr_feeler_peers self ∖ {[peer_id]}).
Definition is_feeler (self : PeerRegistry) (peer_id : PeerId) : bool := bool_decide (peer_id ∈ pr_feeler_peers self).

Definition get_peer (self : PeerRegistry) (session_id : Z) : option Peer := pr_peers self !! session_id.

(** [get_peer_mut] with a change of the peer; whether there was one. *)
Definition update_peer (self : PeerRegistry) (session_id : Z) (f : Peer -> Peer) : PeerRegistry * bool :=
  match pr_peers self !! session_id with
  | Some peer => (set_peers self (<[session_id := f peer]> (pr_peers self)), true)
  | None => (self, false)
  end.

Definition remove_peer (self : PeerRegistry) (session_id : Z) : PeerRegistry * option Peer :=
  (set_peers self (delete session_id (pr_peers self)), pr_peers self !! session_id).

Definition get_key_by_peer_id (env : Env) (self : PeerRegistry) (peer_id : PeerId) : option Z :=
  p_session_id <$> head (filter (fun peer => p_peer_id peer = peer_id) (peer_values env self)).

Definition remove_peer_by_peer_id (env : Env) (self : PeerRegistry) (peer_id : PeerId) : PeerRegistry * option Peer :=
  match get_key_by_peer_id env self peer_id with
  | Some session_id => remove_peer self session_id
  | None => (self, None)
  end.

Definition connected_peers (env : Env) (self : PeerRegistry) : list Z := env_order env (map_to_list (pr_peers self)).*1.

Section operations.
Context {E : Type}.

Definition count_peer (counts : Z * Z) (peer : Peer) : outcome E (Z * Z) :=
  let '(unreserved_inbound, unreserved_outbound) := counts in
  if Peer_is_outbound peer then
    n ← add_w U32_SIZE unreserved_outbound 1; Ok (unreserved_inbound, n)
  else
    n ← add_w U32_SIZE unreserved_inbound 1; Ok (n, unreserved_outbound).

Definition connection_status (env : Env) (self : PeerRegistry) : outcome E ConnectionStatus :=
  '(unreserved_inbound, unreserved_outbound) ←
    try_fold count_peer (0, 0) (filter (fun peer => p_is_reserved peer = false) (peer_values env self));
  Ok (mkConnectionStatus (cast U32_SIZE (Z.of_nat (size (pr_peers self)))) unreserved_inbound unreserved_outbound
        (pr_max_inbound self) (pr_max_outbound self)).
End operations.

(** The checks of a peer that is not reserved, and the peer that makes room. *)
Definition make_room (env : Env) (self : PeerRegistry) (remote_addr : Multiaddr) (session_type : SessionType)
    (peer_store : PeerStore) : outcome PeerError (PeerRegistry * option Peer) :=
  if pr_reserved_only self then Err NonReserved
  else if is_banned env peer_store remote_addr then Err Banned
  else
    connection_status ← connection_status env self;
    if is_inbound session_type then
      if decide (pr_max_inbound self <= cs_unreserved_inbound connection_status) then
        match try_evict_inbound_peer env self with
        | Some evicted_session => Ok (remove_peer self evicted_session)
        | None => Err ReachMaxInboundLimit
        end
      else Ok (self, None)
    else if decide (pr_max_outbound self <= cs_unreserved_outbound connection_status) then Err ReachMaxOutboundLimit
    else Ok (self, None).

Definition accept_peer (env : Env) (self : PeerRegistry) (peer_id : PeerId) (remote_addr : Multiaddr)
    (session_id : Z) (session_type : SessionType) (peer_store : PeerStore)
    : outcome PeerError (PeerRegistry * PeerStore * option Peer) :=
  if decide (is_Some (pr_peers self !! session_id)) then Err (SessionExists session_id)
  else if decide (is_Some (get_key_by_peer_id env self peer_id)) then Err (PeerIdExists peer_id)
  else
    let is_reserved := bool_decide (peer_id ∈ pr_reserved_peers self) in
    '(self, evicted_peer) ← (if is_reserved then Ok (self, None)
                             else make_room env self remote_addr session_type peer_store);
    peer_store ← add_connected_peer env peer_store peer_id remote_addr session_type;
    let peer := Peer_new env session_id session_type peer_id remote_addr is_reserved in
    Ok (set_peers self (<[session_id := peer]> (pr_peers self)), peer_store, evicted_peer).
