(* ===== verification/Network.v ===== *)
(** * The state of the network and its handlers

    [network/src/network.rs] (the network state, its event handler, the
    controller), the protocols ping, feeler, discovery and identify of
    [network/src/protocols] and the service that dials, [outbound_peer.rs].  What
    the code asks of the service of the package [p2p] is a list of commands; that
    package's reading of addresses and keys is the class [P2pUtils].  The module
    [Compress] is [network/src/compress.rs]. *)
From S2P Require Import Prelude PeerStore PeerRegistry.

Definition FEELER_PROTOCOL_ID : Z := 3.
Definition IDENTIFY_PROTOCOL_ID : Z := 2.
Definition FEELER_CONNECTION_COUNT : Z := 5.
Definition MAX_RETURN_LISTEN_ADDRS : Z := 10.
Definition ADDR_LIMIT : Z := 3.
Definition U8_MAX : Z := 255.

Class P2pUtils := {
  multihash_from_bytes : Bytes -> option Bytes;
  peer_id_from_bytes : Bytes -> option PeerId;
  extract_peer_id : Multiaddr -> option PeerId;
  multiaddr_to_socketaddr : Multiaddr -> option (IpAddr * Z);
  is_reachable : IpAddr -> bool
}.

Inductive Command :=
| Disconnect (session_id : Z)
| Dial (addr : Multiaddr) (target : Z)
| OpenProtocols (session_id : Z) (protos : list Z)
| SendAddrs (addrs : list Multiaddr).

Definition is_dial (c : Command) : bool := match c with Dial _ _ => true | _ => false end.

(** A session; the key of the remote end gives its peer id. *)
Record SessionContext := mkSessionContext {
  sc_id : Z; sc_address : Multiaddr; sc_ty : SessionType; sc_peer_id : option PeerId
}.

(** ** Configuration *)

Record NetworkConfig := mkNetworkConfig {
  cfg_reserved_only : bool;
  cfg_max_peers : Z;
  cfg_max_outbound_peers : Z;
  cfg_discovery_local_address : bool;
  cfg_connect_outbound_interval : Z;
  cfg_listen_addresses : list Multiaddr;
  cfg_public_addresses : list Multiaddr;
  cfg_bootnodes : list Multiaddr;
  cfg_reserved_peers : list Multiaddr
}.
Inductive ConfigError := BadAddress.

Record NetworkState := mkNetworkState {
  ns_registry : PeerRegistry;
  ns_store : PeerStore;
  ns_original_listened : list Multiaddr;
  ns_dialing : gmap PeerId Z;
  ns_protocol_ids : gset Z;
  ns_listened : gmap Multiaddr Z;
  ns_disconnecting : gset Z;
  ns_local_peer_id : PeerId;
  ns_config : NetworkConfig
}.
Definition set_registry (self : NetworkState) (reg : PeerRegistry) : NetworkState :=
  mkNetworkState reg (ns_store self) (ns_original_listened self) (ns_dialing self) (ns_protocol_ids self)
    (ns_listened self) (ns_disconnecting self) (ns_local_peer_id self) (ns_config self).
Definition set_store (self : NetworkState) (store : PeerStore) : NetworkState :=
  mkNetworkState (ns_registry self) store (ns_original_listened self) (ns_dialing self) (ns_protocol_ids self)
    (ns_listened self) (ns_disconnecting self) (ns_local_peer_id self) (ns_config self).
Definition set_dialing (self : NetworkState) (dialing : gmap PeerId Z) : NetworkState :=
  mkNetworkState (ns_registry self) (ns_store self) (ns_original_listened self) dialing (ns_protocol_ids self)
    (ns_listened self) (ns_disconnecting self) (ns_local_peer_id self) (ns_config self).
Definition set_listened (self : NetworkState) (listened : gmap Multiaddr Z) : NetworkState :=
  mkNetworkState (ns_registry self) (ns_store self) (ns_original_listened self) (ns_dialing self)
    (ns_protocol_ids self) listened (ns_disconnecting self) (ns_local_peer_id self) (ns_config self).
Definition set_disconnecting (self : NetworkState) (sessions : gset Z) : NetworkState :=
  mkNetworkState (ns_registry self) (ns_store self) (ns_original_listened self) (ns_dialing self)
    (ns_protocol_ids self) (ns_listened self) sessions (ns_local_peer_id self) (ns_config self).
Definition push_original (self : NetworkState) (addrs : list Multiaddr) : NetworkState :=
  mkNetworkState (ns_registry self) (ns_store self) (ns_original_listened self ++ addrs) (ns_dialing self)
    (ns_protocol_ids self) (ns_listened self) (ns_disconnecting self) (ns_local_peer_id self) (ns_config self).

Section network.
Context {utils : P2pUtils}.

(** An address of the configuration ends in the peer id. *)
Definition split_peer (addr : Multiaddr) : outcome ConfigError (PeerId * Multiaddr) :=
  match last addr with
  | Some (P2p key) =>
      peer_id ← ok_or (peer_id_from_bytes key) BadAddress;
      Ok (peer_id, take (length addr - 1) addr)
  | _ => Err BadAddress
  end.
Definition reserved_peers (self : NetworkConfig) : outcome ConfigError (list (PeerId * Multiaddr)) :=
  try_map split_peer (cfg_reserved_peers self).
Definition config_bootnodes (self : NetworkConfig) : outcome ConfigError (list (PeerId * Multiaddr)) :=
  try_map split_peer (cfg_bootnodes self).
Definition max_inbound_peers {E} (self : NetworkConfig) : outcome E Z :=
  cfg_max_peers self -64 cfg_max_outbound_peers self.

Definition from_config (env : Env) (conn : Conn) (local_peer_id : PeerId) (protocol_ids : gset Z)
    (config : NetworkConfig) : outcome ConfigError NetworkState :=
  let listened := list_to_map ((fun addr => (addr, U8_MAX)) <$>
    cfg_listen_addresses config ++ cfg_public_addresses config) in
  let peer_store := PeerStore_new env conn PeerScoreConfig_default in
  bootnodes ← config_bootnodes config;
  let peer_store := foldl (fun s '(peer_id, addr) => add_bootnode s peer_id addr) peer_store bootnodes in
  reserved ← reserved_peers config;
  max_inbound ← max_inbound_peers config;
  Ok (mkNetworkState
    (PeerRegistry_new max_inbound (cfg_max_outbound_peers config) (cfg_reserved_only config) reserved.*1)
    peer_store [] ∅ protocol_ids listened ∅ local_peer_id config).

Context {E : Type}.
Local Abbreviation result := (outcome E).

(** ** Reports and bans *)

Definition disconnect_peer (env : Env) (self : NetworkState) (peer_id : PeerId) : NetworkState * list Command :=
  match get_key_by_peer_id env (ns_registry self) peer_id with
  | Some session_id =>
      (set_registry self (remove_peer (ns_registry self) session_id).1, [Disconnect session_id])
  | None => (self, [])
  end.

Definition report_peer (env : Env) (self : NetworkState) (peer_id : PeerId) (behaviour : Behaviour)
    : result (NetworkState * list Command) :=
  '(store, r) ← report env (ns_store self) peer_id behaviour;
  let self := set_store self store in
  match r with
  | ReportBanned => Ok (disconnect_peer env self peer_id)
  | ReportOk => Ok (self, [])
  end.

Definition report_session (env : Env) (self : NetworkState) (session_id : Z) (behaviour : Behaviour)
    : result (NetworkState * list Command) :=
  match get_peer (ns_registry self) session_id with
  | Some peer => report_peer env self (p_peer_id peer) behaviour
  | None => Ok (self, [])
  end.

Definition ban_peer (env : Env) (self : NetworkState) (peer_id : PeerId) (timeout : Z)
    : result (NetworkState * list Command) :=
  let '(reg, peer_opt) := remove_peer_by_peer_id env (ns_registry self) peer_id in
  let self := set_registry self reg in
  match peer_opt with
  | Some peer =>
      store ← ban_addr env (ns_store self) (p_address peer) timeout;
      Ok (set_store self store, [Disconnect (p_session_id peer)])
  | None => Ok (self, [])
  end.

Definition ban_session (env : Env) (self : NetworkState) (session_id : Z) (timeout : Z)
    : result (NetworkState * list Command) :=
  match get_peer (ns_registry self) session_id with
  | Some peer => ban_peer env self (p_peer_id peer) timeout
  | None => Ok (self, [])
  end.

(** ** Accepting and dialling *)

Definition state_accept_peer (env : Env) (self : NetworkState) (peer_id : PeerId) (session : SessionContext)
    : outcome PeerError (NetworkState * option Peer) :=
  '(reg, store, evicted) ← accept_peer env (ns_registry self) peer_id (sc_address session) (sc_id session)
    (sc_ty session) (ns_store self);
  Ok (set_store (set_registry self reg) (update_status store peer_id Connected), evicted).

Definition can_dial (env : Env) (self : NetworkState) (peer_id : PeerId) (addr : Multiaddr) : bool :=
  negb (bool_decide (ns_local_peer_id self = peer_id)
    || bool_decide (is_Some (ns_listened self !! addr))
    || (bool_decide (is_Some (get_key_by_peer_id env (ns_registry self) peer_id))
        || is_feeler (ns_registry self) peer_id)
    || bool_decide (is_Some (ns_dialing self !! peer_id))).

Definition dial_success (self : NetworkState) (peer_id : PeerId) : NetworkState :=
  set_dialing self (delete peer_id (ns_dialing self)).

Definition dial_failed (self : NetworkState) (peer_id : PeerId) : NetworkState :=
  let self := set_registry self (remove_feeler (ns_registry self) peer_id) in
  set_dialing self (delete peer_id (ns_dialing self)).

(** [env_dial] tells whether the service takes the command. *)
Definition dial (env : Env) (self : NetworkState) (peer_id : PeerId) (addr : Multiaddr) (target : Z)
    : NetworkState * list Command :=
  if can_dial env self peer_id addr then
    match multihash_from_bytes peer_id with
    | Some peer_id_hash =>
        let addr := addr ++ [P2p peer_id_hash] in
        if env_dial env
        then (set_dialing self (<[peer_id := env_instant env]> (ns_dialing self)), [Dial addr target])
        else (self, [])
    | None => (self, [])
    end
  else (self, []).

Definition dial_identify (env : Env) (self : NetworkState) (peer_id : PeerId) (addr : Multiaddr)
    : NetworkState * list Command := dial env self peer_id addr IDENTIFY_PROTOCOL_ID.
Definition dial_feeler (env : Env) (self : NetworkState) (peer_id : PeerId) (addr : Multiaddr)
    : NetworkState * list Command := dial env self peer_id addr FEELER_PROTOCOL_ID.

(** Run a handler on every element and put the commands together. *)
Definition for_commands {A} (f : NetworkState -> A -> NetworkState * list Command) (self : NetworkState)
    (l : list A) : NetworkState * list Command :=
  foldl (fun acc a => let '(self, cs) := f acc.1 a in (self, acc.2 ++ cs)) (self, []) l.

(** ** The event handler *)

Definition handle_dialer_error (self : NetworkState) (address : Multiaddr) (connect_self : bool)
    : result (NetworkState * list Command) :=
  let self := if connect_self
    then set_listened self (<[filter (fun proto => is_p2p proto = false) address := U8_MAX]> (ns_listened self))
    else self in
  peer_id ← expect (extract_peer_id address);
  Ok (dial_failed self peer_id, []).

Definition session_open (env : Env) (self : NetworkState) (session : SessionContext)
    : result (NetworkState * list Command) :=
  peer_id ← expect (sc_peer_id session);
  let self := dial_success self peer_id in
  if is_feeler (ns_registry self) peer_id then Ok (self, [])
  else match state_accept_peer env self peer_id session with
  | Ok (self, Some evicted_peer) => Ok (self, [Disconnect (p_session_id evicted_peer)])
  | Ok (self, None) => Ok (self, [])
  | Err _ => Ok (self, [Disconnect (sc_id session)])
  | Panic => Panic
  end.

Definition session_close (self : NetworkState) (session : SessionContext) : result (NetworkState * list Command) :=
  peer_id ← expect (sc_peer_id session);
  let self := set_registry self (remove_feeler (ns_registry self) peer_id) in
  let self := set_disconnecting self (ns_disconnecting self ∖ {[sc_id session]}) in
  let '(reg, removed) := remove_peer (ns_registry self) (sc_id session) in
  let self := set_registry self reg in
  Ok (match removed with
      | Some _ => set_store self (update_status (ns_store self) peer_id Disconnected)
      | None => self
      end, []).

Definition add_protocol (proto_id : Z) (version : Bytes) (peer : Peer) : Peer :=
  mkPeer (p_address peer) (p_peer_id peer) (p_last_ping_time peer) (p_last_message_time peer) (p_ping peer)
    (p_connected_time peer) (p_session_id peer) (p_session_type peer) (<[proto_id := version]> (p_protocols peer))
    (p_is_reserved peer).
Definition set_message_time (t : Z) (peer : Peer) : Peer :=
  mkPeer (p_address peer) (p_peer_id peer) (p_last_ping_time peer) (Some t) (p_ping peer)
    (p_connected_time peer) (p_session_id peer) (p_session_type peer) (p_protocols peer) (p_is_reserved peer).
Definition set_ping (t duration : Z) (peer : Peer) : Peer :=
  mkPeer (p_address peer) (p_peer_id peer) (Some t) (p_last_message_time peer) (Some duration)
    (p_connected_time peer) (p_session_id peer) (p_session_type peer) (p_protocols peer) (p_is_reserved peer).

Definition proto_connected (self : NetworkState) (session : SessionContext) (proto_id : Z) (version : Bytes)
    : result (NetworkState * list Command) :=
  let '(reg, found) := update_peer (ns_registry self) (sc_id session) (add_protocol proto_id version) in
  let self := set_registry self reg in
  if found then Ok (self, []) else _ ← expect (sc_peer_id session); Ok (self, []).

Definition proto_received (env : Env) (self : NetworkState) (session : SessionContext)
    : NetworkState * list Command :=
  let session_id := sc_id session in
  let '(reg, found) := update_peer (ns_registry self) session_id (set_message_time (env_instant env)) in
  let self := set_registry self reg in
  if negb found && negb (bool_decide (session_id ∈ ns_disconnecting self))
  then (set_disconnecting self ({[session_id]} ∪ ns_disconnecting self), [Disconnect session_id])
  else (self, []).

(** ** Ping, feeler, controller *)

Definition pong (env : Env) (self : NetworkState) (peer_id : PeerId) (duration : Z) : NetworkState :=
  match get_key_by_peer_id env (ns_registry self) peer_id with
  | Some session_id =>
      set_registry self (update_peer (ns_registry self) session_id (set_ping (env_instant env) duration)).1
  | None => self
  end.

(** A timeout or an error of the ping protocol. *)
Definition ping_failed (env : Env) (self : NetworkState) (peer_id : PeerId) : NetworkState * list Command :=
  let '(reg, removed) := remove_peer_by_peer_id env (ns_registry self) peer_id in
  (set_registry self reg, match removed with Some peer => [Disconnect (p_session_id peer)] | None => [] end).

Definition feeler_connected (env : Env) (self : NetworkState) (session : SessionContext)
    : result (NetworkState * list Command) :=
  peer_id ← expect (sc_peer_id session);
  store ← add_connected_peer env (ns_store self) peer_id (sc_address session) (sc_ty session);
  Ok (set_store self store, [Disconnect (sc_id session)]).

Definition feeler_disconnected (self : NetworkState) (session : SessionContext)
    : result (NetworkState * list Command) :=
  peer_id ← expect (sc_peer_id session);
  Ok (set_registry self (remove_feeler (ns_registry self) peer_id), []).

Definition remove_node (env : Env) (self : NetworkState) (peer_id : PeerId) : NetworkState * list Command :=
  disconnect_peer env self peer_id.

(** ** The service that dials *)

Definition mark_and_store (env : Env) (acc : PeerStore * list PeerAddr) (paddr : PeerAddr)
    : result (PeerStore * list PeerAddr) :=
  let '(store, paddrs) := acc in
  let paddr := mark_tried paddr (env_now env) in
  store ← update_peer_addr env store paddr;
  Ok (store, paddrs ++ [paddr]).

Definition dial_attempt (env : Env) (feeler : bool) (self : NetworkState) (paddr : PeerAddr)
    : NetworkState * list Command :=
  if feeler then
    let self := set_registry self (add_feeler (ns_registry self) (pa_peer_id paddr)) in
    dial_feeler env self (pa_peer_id paddr) (pa_addr paddr)
  else dial_identify env self (pa_peer_id paddr) (pa_addr paddr).

Definition dial_peers (env : Env) (self : NetworkState) (feeler : bool) (count : Z)
    : result (NetworkState * list Command) :=
  n ← add_w U32_SIZE count 5;
  '(store, paddrs) ← (if feeler then peers_to_feeler env (ns_store self) n
    else paddrs ← peers_to_attempt env (ns_store self) n; Ok (ns_store self, paddrs));
  '(store, paddrs) ← try_fold (mark_and_store env) (store, []) (take (Z.to_nat count) paddrs);
  Ok (for_commands (dial_attempt env feeler) (set_store self store) paddrs).

(** A tick of the timer: [last_connect] is the time of the last dialling. *)
Definition outbound_tick (env : Env) (self : NetworkState) (last_connect : option Z)
    : result (NetworkState * option Z * list Command) :=
  if (match last_connect with
      | Some time => bool_decide (cfg_connect_outbound_interval (ns_config self) < env_instant env - time)
      | None => true
      end)
  then
    status ← connection_status env (ns_registry self);
    new_outbound ← cs_max_outbound status -64 cs_unreserved_outbound status;
    '(self, cs) ← (if decide (0 < new_outbound) then dial_peers env self false new_outbound
                   else dial_peers env self true FEELER_CONNECTION_COUNT);
    Ok (self, Some (env_instant env), cs)
  else Ok (self, last_connect, []).

(** Dialling when the network starts; [listening] are the addresses the service
    listens on. *)
Definition network_start (env : Env) (self : NetworkState) (listening : list Multiaddr)
    : result (NetworkState * list Command) :=
  let self := push_original self listening in
  reserved ← unwrap (reserved_peers (ns_config self));
  let dial_all self peers := for_commands (fun self '(peer_id, addr) => dial_identify env self peer_id addr) self peers in
  let '(self, cs) := dial_all self reserved in
  nodes ← bootnodes env (ns_store self) (Z.max (cfg_max_outbound_peers (ns_config self) / 2) 1);
  let '(self, cs') := dial_all self nodes in
  Ok (self, cs ++ cs').

(** ** Discovery *)

Inductive DiscoveryEvent :=
| DiscoveryConnected (session_id : Z) (peer_id : option PeerId)
| DiscoveryDisconnected (session_id : Z)
| AddNewAddrs (session_id : Z) (addrs : list Multiaddr)
| Misbehave (session_id : Z)
| GetRandom (n : Z).

Definition is_valid_addr (self : NetworkState) (addr : Multiaddr) : bool :=
  cfg_discovery_local_address (ns_config self) ||
  match multiaddr_to_socketaddr addr with Some (ip, _) => is_reachable ip | None => false end.

Definition discover (env : Env) (store : PeerStore) (addr : Multiaddr) : result PeerStore :=
  match extract_peer_id addr with
  | Some peer_id => add_discovered_addr env store peer_id addr
  | None => Ok store
  end.

Definition addr_with_id (paddr : PeerAddr) : option Multiaddr :=
  (fun hash => pa_addr paddr ++ [P2p hash]) <$> multihash_from_bytes (pa_peer_id paddr).

Definition handle_discovery (env : Env) (self : NetworkState) (sessions : gmap Z PeerId) (event : DiscoveryEvent)
    : result (NetworkState * gmap Z PeerId * list Command) :=
  match event with
  | DiscoveryConnected session_id (Some peer_id) => Ok (self, <[session_id := peer_id]> sessions, [])
  | DiscoveryConnected _ None => Ok (self, sessions, [])
  | DiscoveryDisconnected session_id => Ok (self, delete session_id sessions, [])
  | AddNewAddrs session_id addrs =>
      match sessions !! session_id with
      | Some _ =>
          store ← try_fold (discover env) (ns_store self) (filter (fun addr => is_valid_addr self addr = true) addrs);
          Ok (set_store self store, sessions, [])
      | None => Ok (self, sessions, [])
      end
  | Misbehave _ => Ok (self, sessions, [])
  | GetRandom n =>
      paddrs ← random_peers env (ns_store self) (cast U32_SIZE n);
      let addrs := omap addr_with_id (filter (fun paddr => is_valid_addr self (pa_addr paddr) = true) paddrs) in
      Ok (self, sessions, [SendAddrs addrs])
  end.

(** ** Identify *)

Record Identify := mkIdentify { id_name : Bytes; id_flags : Z }.
Definition FULL_NODE : Z := 1.

(** The table of the message; a flag that is not sent is 0. *)
Record FbsIdentify := mkFbsIdentify { fi_flag : Z; fi_name : option Bytes }.

Definition identify_encode (self : Identify) : FbsIdentify := mkFbsIdentify (id_flags self) (Some (id_name self)).

(** [message] is what [get_root] makes of the data. *)
Definition identify_verify (self : Identify) (message : option FbsIdentify) : option Z :=
  match message with
  | Some (mkFbsIdentify flag (Some raw_name)) =>
      if decide (id_name self <> raw_name) then None else if decide (flag = 0) then None else Some flag
  | _ => None
  end.

Definition flags_contain (self flags : Z) : bool := bool_decide (Z.land self flags = flags).

Definition received_identify (env : Env) (self : NetworkState) (identify : Identify) (session : SessionContext)
    (message : option FbsIdentify) : list Command :=
  match identify_verify identify message with
  | None => [Disconnect (sc_id session)]
  | Some flags =>
      if is_outbound (sc_ty session) then
        if flags_contain flags (id_flags identify) then
          [OpenProtocols (sc_id session)
            (env_order env (elements (filter (fun id => id <> FEELER_PROTOCOL_ID) (ns_protocol_ids self))))]
        else [Disconnect (sc_id session)]
      else []
  end.

Definition listened_addresses (env : Env) (self : NetworkState) (count : Z) : list (Multiaddr * Z) :=
  take (Z.to_nat count) (env_order env (map_to_list (ns_listened self))).

Definition listen_addrs (env : Env) (self : NetworkState) : list Multiaddr :=
  (take (Z.to_nat MAX_RETURN_LISTEN_ADDRS)
    (sort_by_key snd (listened_addresses env self (MAX_RETURN_LISTEN_ADDRS * 2)))).*1.

Definition add_remote_listen_addrs (env : Env) (self : NetworkState) (peer_id : PeerId) (addrs : list Multiaddr)
    : result NetworkState :=
  store ← try_fold (fun store addr => add_discovered_addr env store peer_id addr) (ns_store self) addrs;
  Ok (set_store self store).

(** The observed address with the port the node listens on. *)
Definition transform_addr (addr : Multiaddr) (listen_port : Z) : Multiaddr :=
  omap (fun proto => match proto with
    | P2p _ => None | Tcp _ => Some (Tcp listen_port) | value => Some value end) addr.

Definition reachable_ports (addrs : list Multiaddr) : list Z :=
  omap (fun addr => match multiaddr_to_socketaddr addr with
    | Some (ip, port) => if is_reachable ip then Some port else None
    | None => None end) addrs.

Definition add_observed_addr (env : Env) (self : NetworkState) (addr : Multiaddr) (ty : SessionType)
    : result NetworkState :=
  if is_inbound ty then Ok self
  else
    store ← try_fold (fun store port => add_discovered_addr env store (ns_local_peer_id self) (transform_addr addr port))
      (ns_store self) (reachable_ports (listen_addrs env self));
    Ok (set_store self store).

(** ** Events *)

Inductive NetworkEvent :=
| EvStart (listening : list Multiaddr)
| EvDialerError (address : Multiaddr) (connect_self : bool)
| EvProtocolError (session_id : Z)
| EvSessionOpen (session : SessionContext)
| EvSessionClose (session : SessionContext)
| EvProtoConnected (session : SessionContext) (proto_id : Z) (version : Bytes)
| EvProtoReceived (session : SessionContext)
| EvPong (peer_id : PeerId) (duration : Z)
| EvPingFailed (peer_id : PeerId)
| EvFeelerConnected (session : SessionContext)
| EvFeelerDisconnected (session : SessionContext)
| EvDiscovery (event : DiscoveryEvent)
| EvIdentify (identify : Identify) (session : SessionContext) (message : option FbsIdentify)
| EvRemoteListenAddrs (peer_id : PeerId) (addrs : list Multiaddr)
| EvObservedAddr (addr : Multiaddr) (ty : SessionType)
| EvTick
| EvReport (session_id : Z) (behaviour : Behaviour)
| EvBan (session_id timeout : Z)
| EvDisconnect (session_id : Z)
| EvAddNode (peer_id : PeerId) (addr : Multiaddr)
| EvRemoveNode (peer_id : PeerId).

(** The network with the records of the services for discovery and dialling. *)
Record Network := mkNetwork { nw_state : NetworkState; nw_sessions : gmap Z PeerId; nw_last_connect : option Z }.

Definition network_handle (env : Env) (self : NetworkState) (event : NetworkEvent)
    : result (NetworkState * list Command) :=
  match event with
  | EvStart listening => network_start env self listening
  | EvDialerError address connect_self => handle_dialer_error self address connect_self
  | EvProtocolError session_id | EvDisconnect session_id => Ok (self, [Disconnect session_id])
  | EvSessionOpen session => session_open env self session
  | EvSessionClose session => session_close self session
  | EvProtoConnected session proto_id version => proto_connected self session proto_id version
  | EvProtoReceived session => Ok (proto_received env self session)
  | EvPong peer_id duration => Ok (pong env self peer_id duration, [])
  | EvPingFailed peer_id => Ok (ping_failed env self peer_id)
  | EvFeelerConnected session => feeler_connected env self session
  | EvFeelerDisconnected session => feeler_disconnected self session
  | EvIdentify identify session message => Ok (self, received_identify env self identify session message)
  | EvRemoteListenAddrs peer_id addrs => self ← add_remote_listen_addrs env self peer_id addrs; Ok (self, [])
  | EvObservedAddr addr ty => self ← add_observed_addr env self addr ty; Ok (self, [])
  | EvReport session_id behaviour => report_session env self session_id behaviour
  | EvBan session_id timeout => ban_session env self session_id timeout
  | EvAddNode peer_id addr => Ok (dial_identify env self peer_id addr)
  | EvRemoveNode peer_id => Ok (remove_node env self peer_id)
  | EvDiscovery _ | EvTick => Ok (self, [])
  end.

Definition network_step (env : Env) (self : Network) (event : NetworkEvent) : result (Network * list Command) :=
  match event with
  | EvDiscovery event =>
      '(state, sessions, cs) ← handle_discovery env (nw_state self) (nw_sessions self) event;
      Ok (mkNetwork state sessions (nw_last_connect self), cs)
  | EvTick =>
      '(state, last_connect, cs) ← outbound_tick env (nw_state self) (nw_last_connect self);
      Ok (mkNetwork state (nw_sessions self) last_connect, cs)
  | _ =>
      '(state, cs) ← network_handle env (nw_state self) event;
      Ok (mkNetwork state (nw_sessions self) (nw_last_connect self), cs)
  end.

(** A run: the events with their surroundings, and the commands they cause. *)
Fixpoint network_run (self : Network) (events : list (Env * NetworkEvent)) : result (Network * list Command) :=
  match events with
  | [] => Ok (self, [])
  | (env, event) :: events =>
      '(self, cs) ← network_step env self event;
      '(self, cs') ← network_run self events;
      Ok (self, cs ++ cs')
  end.
End network.

(** ** Compression of messages: [network/src/compress.rs]

    A message is sent with a byte in front of it that says whether it is
    compressed.  The compression is that of the package [snap]. *)
Module Compress.
Class Snappy := {
  compress_vec : Bytes -> option Bytes;
  decompress_vec : Bytes -> option Bytes
}.
(** What was compressed is decompressed to itself. *)
Class SnappyLaws `{Snappy} : Prop :=
  snappy_inverse input output : compress_vec input = Some output -> decompress_vec output = Some input.

Definition COMPRESSION_SIZE_THRESHOLD : Z := 1024.
Definition UNCOMPRESS_FLAG : Z := 0.
Definition COMPRESS_FLAG : Z := 128.
Inductive IoError := InvalidDataError.

Section compress.
Context `{HS : Snappy}.

Definition Message_from_raw (data : Bytes) : Bytes := [UNCOMPRESS_FLAG] ++ data.

Definition set_compress_flag {E} (inner : Bytes) : outcome E Bytes :=
  match inner with [] => Panic | _ :: rest => Ok (COMPRESS_FLAG :: rest) end.
Definition compress_flag {E} (inner : Bytes) : outcome E bool :=
  b ← expect (inner !! 0%nat); Ok (negb (bool_decide (Z.land b COMPRESS_FLAG = 0))).

Definition Message_compress {E} (inner : Bytes) : outcome E Bytes :=
  if decide (COMPRESSION_SIZE_THRESHOLD < len inner) then
    let '(front, input) := (take 1 inner, drop 1 inner) in
    match compress_vec input with
    | Some res => set_compress_flag (front ++ res)
    | None => Ok (front ++ input)
    end
  else Ok inner.

Definition Message_decompress (inner : Bytes) : outcome IoError Bytes :=
  if decide (inner = []) then Err InvalidDataError
  else
    flag ← compress_flag inner;
    if flag : bool then ok_or (decompress_vec (drop 1 inner)) InvalidDataError else Ok (drop 1 inner).

Definition compress {E} (src : Bytes) : outcome E Bytes := Message_compress (Message_from_raw src).
Definition decompress (src : Bytes) : outcome IoError Bytes := Message_decompress src.

(** Every message is received as it was sent, whether it is compressed, too short for it, or cannot be
    compressed. *)
Lemma compress_round_trip `{!SnappyLaws} src :
  exists sent, compress (E := IoError) src = Ok sent /\ decompress sent = Ok src.
Proof.
  assert (decompress (UNCOMPRESS_FLAG :: src) = Ok src) as Hplain
    by (unfold decompress, Message_decompress; by rewrite decide_False by done).
  unfold compress, Message_compress, Message_from_raw. cbn [app take drop]. rewrite drop_0. cbn [take app].
  case_decide as Hl; [|eauto].
  destruct (compress_vec src) as [res|] eqn:Hc; [|eauto]. eexists. split; [reflexivity|].
  unfold decompress, Message_decompress. rewrite decide_False by done. cbn. rewrite take_0, drop_0. cbn. by rewrite (snappy_inverse _ _ Hc).
Qed.

(** An empty message is refused; nothing that is received makes the node panic. *)
Lemma decompress_returns src : decompress src <> Panic.
Proof.
  unfold decompress, Message_decompress. case_decide; [done|]. destruct src as [|b rest]; [done|]. cbn.
  destruct (negb _); [|done]. by destruct (decompress_vec _).
Qed.
End compress.
End Compress.
