(* ===== verification/RegistrySound.v ===== *)
(** * Eviction and the limits of the registry

    The invariant of the registry of peers that every operation keeps, and whom
    the eviction of an inbound peer protects. *)
From S2P Require Import Prelude PeerStore PeerRegistry.

(** ** Sorting *)
Section sorts.
Context {A : Type} (key : A -> Z).

Lemma insert_by_key_perm a l : insert_by_key key a l ≡ₚ a :: l.
Proof. induction l as [|b l IH]; cbn; [done|]. case_decide; [done|]. rewrite IH. constructor. Qed.

Lemma sort_by_key_perm l : sort_by_key key l ≡ₚ l.
Proof. induction l as [|a l IH]; [done|]. cbn. rewrite insert_by_key_perm. by f_equiv. Qed.

Let le a b := key a <= key b.

Lemma insert_by_key_sorted a l : StronglySorted le l -> StronglySorted le (insert_by_key key a l).
Proof.
  induction 1 as [|b l Hl IH Hb]; cbn; [by repeat constructor|]. case_decide as Hab.
  - constructor; [by constructor|]. constructor; [done|]. eapply Forall_impl; [exact Hb|]. unfold le. intros; lia.
  - constructor; [done|]. rewrite insert_by_key_perm. constructor; [unfold le; lia|done].
Qed.

Lemma sort_by_key_sorted l : StronglySorted le (sort_by_key key l).
Proof. induction l as [|a l IH]; [constructor|]. by apply insert_by_key_sorted. Qed.

Lemma sorted_split l n : StronglySorted le l -> forall a b, a ∈ take n l -> b ∈ drop n l -> key a <= key b.
Proof.
  intros Hl. revert n. induction Hl as [|c l Hl IH Hc]; intros [|n] a b Ha Hb; cbn in *;
    [by set_solver|by set_solver|by set_solver|].
  apply elem_of_cons in Ha as [->|Ha]; [|by eapply IH].
  rewrite Forall_forall in Hc. apply Hc. rewrite <- (take_drop n l). set_solver.
Qed.

(** What is dropped has the largest keys, and how many those are. *)
Lemma sort_then_drop_spec n l : exists dropped,
  l ≡ₚ dropped ++ sort_then_drop key n l /\
  length dropped = (if decide (n < length l)%nat then n else 0%nat) /\
  (forall a b, a ∈ sort_then_drop key n l -> b ∈ dropped -> key a <= key b).
Proof.
  unfold sort_then_drop. rewrite (Permutation_length (sort_by_key_perm l)). case_decide as Hn.
  - exists (drop (length l - n) (sort_by_key key l)). split_and!.
    + rewrite (Permutation_app_comm (drop _ _)), take_drop. by rewrite sort_by_key_perm.
    + rewrite length_drop, (Permutation_length (sort_by_key_perm l)). lia.
    + apply sorted_split, sort_by_key_sorted.
  - exists []. split_and!; [by rewrite sort_by_key_perm|done|set_solver].
Qed.
End sorts.

(** ** Groups *)

Definition group_size (g : Group) (l : list Peer) : Z := len (filter (fun p => Peer_network_group p = g) l).

(** The groups that are collected: distinct, and each with its peers in order. *)
Definition grouped (groups : list (Group * list Peer)) (l : list Peer) : Prop :=
  NoDup groups.*1 /\
  (forall g members, (g, members) ∈ groups -> members <> [] /\ members = filter (fun p => Peer_network_group p = g) l) /\
  (forall p, p ∈ l -> Peer_network_group p ∈ groups.*1).

Lemma push_group_keys groups p : (push_group groups p).*1 =
  if decide (Peer_network_group p ∈ groups.*1) then groups.*1 else groups.*1 ++ [Peer_network_group p].
Proof.
  induction groups as [|[g members] groups IH]; cbn; [done|]. destruct (decide (g = Peer_network_group p)) as [->|Hg]; cbn.
  - by rewrite decide_True by set_solver.
  - rewrite IH. repeat case_decide; try done; set_solver.
Qed.

Lemma push_group_members groups p g members : NoDup groups.*1 -> (g, members) ∈ push_group groups p ->
  (g <> Peer_network_group p /\ (g, members) ∈ groups) \/
  (g = Peer_network_group p /\ exists old, members = old ++ [p] /\
    ((g, old) ∈ groups \/ (old = [] /\ g ∉ groups.*1))).
Proof.
  induction groups as [|[h ms] groups IH]; cbn; intros Hnd Hin.
  - apply list_elem_of_singleton in Hin as [= -> ->]. right. split; [done|]. exists []. set_solver.
  - apply NoDup_cons in Hnd as [Hh Hnd]. case_decide as Hg; apply elem_of_cons in Hin as [[= -> ->]|Hin].
    + right. split; [done|]. exists ms. set_solver.
    + destruct (decide (g = Peer_network_group p)) as [->|]; [|left; set_solver].
      exfalso. apply Hh. rewrite Hg. by apply (list_elem_of_fmap_2 fst _ (_, members)).
    + left. set_solver.
    + destruct (IH Hnd Hin) as [[? ?]|(? & old & ? & [?|[-> ?]])]; [left; set_solver|..];
        right; (split; [done|]); eexists; (split; [done|]); set_solver.
Qed.

Lemma grouped_push groups l p : grouped groups l -> grouped (push_group groups p) (l ++ [p]).
Proof.
  intros (Hnd & Hm & Hall). split_and!.
  - rewrite push_group_keys. case_decide; [done|]. apply NoDup_app. split_and!; [done|set_solver|apply NoDup_singleton].
  - intros g members Hin. apply push_group_members in Hin as [[Hg Hin]|(-> & old & -> & Hold)]; [|split; [by destruct old|]|done];
      rewrite filter_app, filter_cons, filter_nil.
    + rewrite decide_False, app_nil_r by congruence. by apply Hm.
    + rewrite decide_True by done. f_equal. destruct Hold as [Hold|[-> Hn]]; [by apply Hm|].
      symmetry. apply elem_of_nil_inv. intros q [Heq Hq]%list_elem_of_filter. apply Hn. rewrite <- Heq. by apply Hall.
  - intros q Hq. rewrite push_group_keys. apply elem_of_app in Hq as [Hq%Hall|Hq%list_elem_of_singleton]; [|subst q]; case_decide; set_solver.
Qed.

Lemma grouped_all l : grouped (foldl push_group [] l) l.
Proof.
  induction l as [|p l IH] using rev_ind; [by split_and!; [constructor|set_solver..]|].
  rewrite foldl_app. by apply grouped_push.
Qed.

Lemma max_by_key_spec {A} (key : A -> Z) l : match max_by_key key l with
  | Some a => a ∈ l /\ forall b, b ∈ l -> key b <= key a
  | None => l = [] end.
Proof.
  unfold max_by_key. induction l as [|b l IH] using rev_ind; [done|]. rewrite foldl_app. cbn.
  destruct (foldl _ None l) as [a|]; [|subst; set_solver]. destruct IH as [Ha Hmax].
  case_decide; (split; [set_solver|]); intros c [Hc%Hmax|Hc%list_elem_of_singleton]%elem_of_app; [|subst c| |subst c]; lia.
Qed.

(** ** Eviction *)

Section eviction.
Context (env : Env) (Henv : EnvLaws env).

Lemma peer_values_in reg p : p ∈ peer_values env reg <-> exists sid, pr_peers reg !! sid = Some p.
Proof.
  unfold peer_values. rewrite (order_perm _ Henv), list_elem_of_fmap. split.
  - intros ([sid q] & -> & Hin%elem_of_map_to_list). eauto.
  - intros [sid Hp]. exists (sid, p). by rewrite elem_of_map_to_list.
Qed.

(** Three rounds of protection: the candidates split into the protected of each
    round and the rest. *)
Lemma unprotected_spec candidates : exists pinged talking old,
  let rest := unprotected env candidates in
  candidates ≡ₚ pinged ++ talking ++ old ++ rest /\
  length pinged = (if decide (8 < length candidates)%nat then 8%nat else 0%nat) /\
  length talking = (if decide (8 < length candidates - length pinged)%nat then 8%nat else 0%nat) /\
  (length old = length (old ++ rest) / 2)%nat /\
  (forall p q, p ∈ talking ++ old ++ rest -> q ∈ pinged -> ping_secs q <= ping_secs p) /\
  (forall p q, p ∈ old ++ rest -> q ∈ talking -> message_secs env q <= message_secs env p) /\
  (forall p q, p ∈ rest -> q ∈ old -> p_connected_time q <= p_connected_time p).
Proof.
  unfold unprotected. set (l1 := sort_then_drop _ EVICTION_PROTECT_PEERS candidates).
  set (l2 := sort_then_drop _ EVICTION_PROTECT_PEERS l1).
  destruct (sort_then_drop_spec (fun p => - ping_secs p) EVICTION_PROTECT_PEERS candidates) as (d1 & H1 & L1 & O1).
  destruct (sort_then_drop_spec (fun p => - message_secs env p) EVICTION_PROTECT_PEERS l1) as (d2 & H2 & L2 & O2).
  destruct (sort_then_drop_spec (fun p => - p_connected_time p) (length l2 / 2) l2) as (d3 & H3 & L3 & O3).
  fold l1 in H1, O1. fold l2 in H2, O2. set (rest := sort_then_drop _ (length l2 / 2) l2) in *.
  exists d1, d2, d3. cbv zeta. split_and!.
  - by rewrite H1, H2, H3.
  - exact L1.
  - rewrite L2. replace (length l1) with (length candidates - length d1)%nat; [done|].
    rewrite (Permutation_length H1), length_app. lia.
  - rewrite <- (Permutation_length H3), L3. case_decide as Hn; [done|].
    destruct l2; [done|]. exfalso. apply Hn. apply Nat.div_lt; cbn; lia.
  - intros p q Hp Hq. cut (- ping_secs p <= - ping_secs q); [lia|]. apply O1; [|done]. by rewrite H2, H3.
  - intros p q Hp Hq. cut (- message_secs env p <= - message_secs env q); [lia|]. apply O2; [|done]. by rewrite H3.
  - intros p q Hp Hq. cut (- p_connected_time p <= - p_connected_time q); [lia|]. by apply O3.
Qed.

Lemma evict_group_spec rest group : max_by_key len (env_order env (foldl push_group [] rest).*2) = Some group ->
  forall p, p ∈ group -> p ∈ rest /\ forall q, q ∈ rest -> group_size (Peer_network_group q) rest <= group_size (Peer_network_group p) rest.
Proof.
  intros Hmax p Hp. pose proof (max_by_key_spec len (env_order env (foldl push_group [] rest).*2)) as H.
  rewrite Hmax in H. destruct H as [Hin Hle]. destruct (grouped_all rest) as (Hnd & Hm & Hall).
  rewrite (order_perm _ Henv) in Hin. apply list_elem_of_fmap in Hin as ([g members] & -> & Hin). cbn in *.
  destruct (Hm _ _ Hin) as [_ Hg]. rewrite Hg in Hp. apply list_elem_of_filter in Hp as [Hpg Hp]. split; [done|].
  intros q Hq. destruct (proj1 (list_elem_of_fmap fst _ _) (Hall q Hq)) as ([h ms] & Hh & Hin'). cbn in Hh.
  unfold group_size. rewrite Hpg, <- Hg. destruct (Hm _ _ Hin') as [_ Hms]. rewrite Hh, <- Hms. apply Hle.
  rewrite (order_perm _ Henv). by apply (list_elem_of_fmap_2 snd _ (h, ms)).
Qed.

Lemma evict_group_some rest : rest <> [] -> exists group, group <> [] /\
  max_by_key len (env_order env (foldl push_group [] rest).*2) = Some group.
Proof.
  intros Hr. destruct (grouped_all rest) as (_ & Hm & Hall).
  pose proof (max_by_key_spec len (env_order env (foldl push_group [] rest).*2)) as H.
  destruct (max_by_key _ _) as [group|] eqn:Hmax.
  - exists group. split; [|done]. destruct H as [Hin _]. rewrite (order_perm _ Henv) in Hin.
    apply list_elem_of_fmap in Hin as ([g members] & -> & Hin). by destruct (Hm _ _ Hin).
  - exfalso. pose proof (order_perm _ Henv _ (foldl push_group [] rest).*2) as Hp. rewrite H in Hp.
    apply Permutation_nil_l, symmetry, fmap_nil_inv in Hp. destruct rest as [|p rest]; [done|].
    specialize (Hall p ltac:(set_solver)). rewrite Hp in Hall. set_solver.
Qed.

Lemma try_evict_some reg : (exists sid p, pr_peers reg !! sid = Some p /\ evictable p = true) ->
  is_Some (try_evict_inbound_peer env reg).
Proof.
  intros (sid & p & Hp & He). unfold try_evict_inbound_peer.
  set (candidates := filter _ (peer_values env reg)).
  assert (p ∈ candidates) as Hin by (apply list_elem_of_filter; split; [done|]; apply peer_values_in; eauto).
  destruct (unprotected_spec candidates) as (d1 & d2 & d3 & Hsplit & L1 & L2 & L3 & _). cbv zeta in *.
  set (rest := unprotected env candidates) in *.
  assert (rest <> []) as Hrest.
  { intros ->. rewrite !app_nil_r in Hsplit, L3. pose proof (Permutation_length Hsplit) as Hlen.
    rewrite !length_app in Hlen. assert (length candidates <> 0)%nat by (destruct candidates; [set_solver|done]).
    assert (length d3 = 0)%nat as H3 by (destruct d3; [done|]; cbn [length] in *; pose proof (Nat.div_lt (S (length d3)) 2); lia).
    repeat case_decide; lia. }
  destruct (evict_group_some rest Hrest) as (group & Hg & Hmax). rewrite Hmax. cbn.
  destruct (choose_some _ Henv _ group Hg) as [q ->]. by eexists.
Qed.
End eviction.

(** ** The invariant of the registry *)

Definition unreserved_in (p : Peer) : bool := evictable p.
Definition unreserved_out (p : Peer) : bool := Peer_is_outbound p && negb (p_is_reserved p).
Definition peer_count (kind : Peer -> bool) (peers : gmap Z Peer) : nat :=
  size (filter (fun kv => kind kv.2 = true) peers).

Record registry_ok (reg : PeerRegistry) : Prop := {
  ro_session : forall sid p, pr_peers reg !! sid = Some p -> p_session_id p = sid;
  ro_unique : forall i j p q, pr_peers reg !! i = Some p -> pr_peers reg !! j = Some q ->
    p_peer_id p = p_peer_id q -> i = j;
  ro_reserved : forall sid p, pr_peers reg !! sid = Some p ->
    p_is_reserved p = bool_decide (p_peer_id p ∈ pr_reserved_peers reg);
  ro_inbound : Z.of_nat (peer_count unreserved_in (pr_peers reg)) <= pr_max_inbound reg;
  ro_outbound : Z.of_nat (peer_count unreserved_out (pr_peers reg)) <= pr_max_outbound reg;
  ro_widths : u32 (pr_max_inbound reg) /\ u32 (pr_max_outbound reg)
}.

Lemma peer_count_delete kind peers sid : (peer_count kind (delete sid peers) <= peer_count kind peers)%nat.
Proof. unfold peer_count. rewrite map_filter_delete. apply map_subseteq_size, delete_subseteq. Qed.

Lemma peer_count_evict kind peers sid p : peers !! sid = Some p -> kind p = true ->
  peer_count kind peers = S (peer_count kind (delete sid peers)).
Proof.
  intros Hp Hk. unfold peer_count. rewrite map_filter_delete.
  rewrite map_size_delete_Some; [|by exists p; apply map_lookup_filter_Some]. 
  assert (0 < size (filter (fun kv => kind kv.2 = true) peers))%nat; [|lia].
  apply Nat.neq_0_lt_0. intros H0%map_size_empty_inv.
  assert (filter (fun kv : Z * Peer => kind kv.2 = true) peers !! sid = Some p) as H by by apply map_lookup_filter_Some.
  by rewrite H0 in H.
Qed.

Lemma peer_count_insert kind peers sid p : peers !! sid = None ->
  peer_count kind (<[sid := p]> peers) = (if kind p then S (peer_count kind peers) else peer_count kind peers).
Proof.
  intros Hn. unfold peer_count. destruct (kind p) eqn:Hk.
  - rewrite map_filter_insert_True by done. apply map_size_insert_None. apply map_lookup_filter_None. by left.
  - rewrite map_filter_insert_False by (cbn; congruence). by rewrite delete_id.
Qed.

(** The same peers with other times and protocols. *)
Lemma peer_count_update kind peers sid p q : peers !! sid = Some p -> kind q = kind p ->
  peer_count kind (<[sid := q]> peers) = peer_count kind peers.
Proof.
  intros Hp Hk. rewrite <- insert_delete_eq, peer_count_insert by apply lookup_delete_eq. rewrite Hk.
  destruct (kind p) eqn:Hkp; [by rewrite (peer_count_evict _ _ _ _ Hp Hkp)|].
  unfold peer_count. rewrite map_filter_delete. apply map_size_delete_None. 
  apply map_lookup_filter_None. right. intros p' Hp'. simplify_eq. cbn. congruence.
Qed.

Lemma remove_peer_ok reg sid : registry_ok reg -> registry_ok (remove_peer reg sid).1.
Proof.
  intros []. split; cbn; [| | | | |done].
  - intros ? ? [_ ?]%lookup_delete_Some. eauto.
  - intros ? ? ? ? [_ ?]%lookup_delete_Some [_ ?]%lookup_delete_Some. eauto.
  - intros ? ? [_ ?]%lookup_delete_Some. eauto.
  - pose proof (peer_count_delete unreserved_in (pr_peers reg) sid). lia.
  - pose proof (peer_count_delete unreserved_out (pr_peers reg) sid). lia.
Qed.

Lemma set_feelers_ok reg feelers : registry_ok reg -> registry_ok (set_feelers reg feelers).
Proof. by intros []. Qed.

(** The changes of a peer that the handlers make. *)
Definition same_peer (p q : Peer) : Prop :=
  p_address p = p_address q /\ p_peer_id p = p_peer_id q /\ p_session_id p = p_session_id q /\
  p_session_type p = p_session_type q /\ p_is_reserved p = p_is_reserved q.

Lemma update_peer_ok reg sid f : (forall p, same_peer p (f p)) -> registry_ok reg -> registry_ok (update_peer reg sid f).1.
Proof.
  intros Hf []. unfold update_peer. destruct (pr_peers reg !! sid) as [p|] eqn:Hp; [|by split].
  destruct (Hf p) as (Ha & Hi & Hs & Ht & Hr). split; cbn; [| | | | |done].
  - intros ? ? [[<- <-]|[? ?]]%lookup_insert_Some; [|eauto]. rewrite <- Hs. eauto.
  - intros ? ? ? ? [[<- <-]|[? ?]]%lookup_insert_Some [[<- <-]|[? ?]]%lookup_insert_Some; rewrite <-?Hi; eauto.
  - intros ? ? [[<- <-]|[? ?]]%lookup_insert_Some; [|eauto]. rewrite <- Hr, <- Hi. eauto.
  - rewrite (peer_count_update _ _ _ _ _ Hp); [done|]. unfold unreserved_in, evictable, Peer_is_inbound. by rewrite Ht, Hr.
  - rewrite (peer_count_update _ _ _ _ _ Hp); [done|]. unfold unreserved_out, Peer_is_outbound. by rewrite Ht, Hr.
Qed.

Section limits.
Context (env : Env) (Henv : EnvLaws env).

Lemma get_key_by_peer_id_spec reg peer_id : registry_ok reg ->
  match get_key_by_peer_id env reg peer_id with
  | Some sid => exists p, pr_peers reg !! sid = Some p /\ p_peer_id p = peer_id
  | None => forall sid p, pr_peers reg !! sid = Some p -> p_peer_id p <> peer_id
  end.
Proof.
  intros Hok. unfold get_key_by_peer_id. destruct (filter _ _) as [|p l] eqn:Hf; cbn.
  - intros sid p Hp Hid. assert (p ∈ @nil Peer) as H; [|set_solver]. rewrite <- Hf. apply list_elem_of_filter.
    split; [done|]. apply peer_values_in; eauto.
  - assert (p ∈ filter (fun p => p_peer_id p = peer_id) (peer_values env reg)) as [Hid Hin]%list_elem_of_filter by (rewrite Hf; set_solver).
    apply peer_values_in in Hin as [sid Hp]; [|done]. exists p. by rewrite (ro_session _ Hok _ _ Hp).
Qed.

Lemma get_key_found reg sid p : registry_ok reg -> pr_peers reg !! sid = Some p ->
  get_key_by_peer_id env reg (p_peer_id p) = Some sid.
Proof.
  intros Hok Hp. pose proof (get_key_by_peer_id_spec reg (p_peer_id p) Hok) as H.
  destruct (get_key_by_peer_id _ _ _) as [sid'|]; [|by eapply H in Hp].
  destruct H as (q & Hq & Hid). f_equal. by eapply ro_unique.
Qed.

Lemma values_count kind reg : len (filter (fun p => kind p = true) (peer_values env reg)) =
  Z.of_nat (peer_count kind (pr_peers reg)).
Proof.
  unfold peer_values, len, peer_count. f_equal. rewrite (order_perm _ Henv).
  induction (pr_peers reg) as [|sid p m Hm IH] using map_ind; [done|].
  change (size (filter _ (<[sid:=p]> m))) with (peer_count kind (<[sid:=p]> m)).
  rewrite peer_count_insert by done. rewrite map_to_list_insert by done. rewrite fmap_cons, filter_cons.
  destruct (kind p) eqn:Hk; [rewrite decide_True by done|rewrite decide_False by (cbn; congruence)]; cbn; by rewrite IH.
Qed.

Lemma count_peers_spec {E} l i o :
  0 <= i -> 0 <= o -> i + len (filter (fun p => Peer_is_inbound p = true) l) < U32_SIZE ->
  o + len (filter (fun p => Peer_is_outbound p = true) l) < U32_SIZE ->
  try_fold (count_peer (E := E)) (i, o) l =
    Ok (i + len (filter (fun p => Peer_is_inbound p = true) l), o + len (filter (fun p => Peer_is_outbound p = true) l)).
Proof.
  revert i o. induction l as [|p l IH]; intros i o Hi Ho; [rewrite !filter_nil, len_nil; intros; cbn; by rewrite !Z.add_0_r|].
  rewrite !filter_cons. cbn [try_fold count_peer]. unfold Peer_is_outbound, is_outbound, Peer_is_inbound in *.
  pose proof (Zle_0_nat (length (filter (fun p => is_inbound (p_session_type p) = true) l))).
  pose proof (Zle_0_nat (length (filter (fun p => negb (is_inbound (p_session_type p)) = true) l))).
  destruct (is_inbound (p_session_type p)) eqn:Hin; cbn [negb].
  - rewrite (decide_True (P := true = true)), (decide_False (P := false = true)), len_cons by done. intros H1 H2.
    unfold len in *. rewrite add_w_eq, !bind_ret_l, IH by lia. do 2 f_equal. lia.
  - rewrite (decide_True (P := true = true)), (decide_False (P := false = true)), len_cons by done. intros H1 H2.
    unfold len in *. rewrite add_w_eq, !bind_ret_l, IH by lia. do 2 f_equal. lia.
Qed.

(** The counts of the code are those of the invariant, and do not overflow. *)
Lemma connection_status_spec {E} reg : registry_ok reg -> exists total,
  connection_status (E := E) env reg =
    Ok (mkConnectionStatus total (Z.of_nat (peer_count unreserved_in (pr_peers reg)))
          (Z.of_nat (peer_count unreserved_out (pr_peers reg))) (pr_max_inbound reg) (pr_max_outbound reg)).
Proof.
  intros Hok. eexists. unfold connection_status.
  assert (forall f, filter (fun p => f p = true) (filter (fun p => p_is_reserved p = false) (peer_values env reg)) =
    filter (fun p => f p && negb (p_is_reserved p) = true) (peer_values env reg)) as Hff.
  { intros f. rewrite list_filter_filter. apply list_filter_iff. intros p. destruct (p_is_reserved p), (f p); naive_solver. }
  pose proof (values_count unreserved_in reg) as Hi. pose proof (values_count unreserved_out reg) as Ho.
  destruct (ro_widths _ Hok) as [[_ ?] [_ ?]]. pose proof (ro_inbound _ Hok). pose proof (ro_outbound _ Hok).
  unfold unreserved_in, evictable, unreserved_out in Hi, Ho.
  rewrite count_peers_spec; rewrite ?Hff; unfold unreserved_in, evictable, unreserved_out in *;
    [|lia|lia|rewrite Hi; lia|rewrite Ho; lia].
  by rewrite bind_ret_l, Hi, Ho.
Qed.

(** ** Accepting a peer *)

Lemma try_evict_in reg sid : registry_ok reg -> try_evict_inbound_peer env reg = Some sid -> exists p rest,
  rest = unprotected env (filter (fun p => evictable p = true) (peer_values env reg)) /\
  pr_peers reg !! sid = Some p /\ evictable p = true /\ p ∈ rest /\
  forall q, q ∈ rest -> group_size (Peer_network_group q) rest <= group_size (Peer_network_group p) rest.
Proof.
  intros Hok. unfold try_evict_inbound_peer. set (candidates := filter _ (peer_values env reg)).
  set (rest := unprotected env candidates). destruct (max_by_key _ _) as [group|] eqn:Hmax; cbn.
  - destruct (env_choose env group) as [p|] eqn:Hc; cbn; [|done]. intros [= <-].
    destruct (evict_group_spec env Henv rest group Hmax p (choose_in _ Henv _ _ _ Hc)) as [Hin Hg].
    assert (p ∈ candidates) as [He Hp]%list_elem_of_filter.
    { destruct (unprotected_spec env candidates) as (d1 & d2 & d3 & Hsplit & _). rewrite Hsplit. set_solver. }
    apply (peer_values_in env Henv) in Hp as [sid Hp]. rewrite (ro_session _ Hok _ _ Hp). exists p, rest. done.
  - destruct (env_choose env []) as [p|] eqn:Hc; [|done]. apply (choose_in _ Henv) in Hc. set_solver.
Qed.

(** Room is made within the limits, and by taking out one inbound peer at most. *)
Lemma make_room_ok reg addr ty store reg' evicted : registry_ok reg ->
  make_room env reg addr ty store = Ok (reg', evicted) ->
  registry_ok reg' /\ is_banned env store addr = false /\ pr_reserved_only reg = false /\
  (reg' = reg /\ evicted = None \/ exists p, evicted = Some p /\ reg' = (remove_peer reg (p_session_id p)).1) /\
  if is_inbound ty then Z.of_nat (peer_count unreserved_in (pr_peers reg')) < pr_max_inbound reg
  else Z.of_nat (peer_count unreserved_out (pr_peers reg')) < pr_max_outbound reg.
Proof.
  intros Hok. unfold make_room. destruct (pr_reserved_only reg); [done|]. destruct (is_banned _ _ _); [done|].
  destruct (connection_status_spec (E := PeerError) reg Hok) as [total ->]. rewrite bind_ret_l. cbn.
  destruct (is_inbound ty); case_decide as Hmax; [|intros [= <- <-]; split_and!; [done..|by left|lia]|done|intros [= <- <-]; split_and!; [done..|by left|lia]].
  destruct (try_evict_inbound_peer env reg) as [sid|] eqn:Hev; [|done]. intros [= <- <-].
  destruct (try_evict_in reg sid Hok Hev) as (p & rest & _ & Hp & He & _). pose proof (ro_session _ Hok _ _ Hp) as Hs. subst sid.
  split_and!; [by apply remove_peer_ok|done|done|right; eauto|]. cbn.
  pose proof (peer_count_evict unreserved_in _ _ _ Hp He). pose proof (ro_inbound _ Hok). lia.
Qed.

Lemma accept_peer_ok reg peer_id addr sid ty store reg' store' evicted : registry_ok reg ->
  accept_peer env reg peer_id addr sid ty store = Ok (reg', store', evicted) ->
  registry_ok reg' /\ (pr_max_inbound reg', pr_max_outbound reg', pr_reserved_only reg', pr_reserved_peers reg') =
    (pr_max_inbound reg, pr_max_outbound reg, pr_reserved_only reg, pr_reserved_peers reg) /\
  pr_feeler_peers reg' = pr_feeler_peers reg /\
  add_connected_peer (E := PeerError) env store peer_id addr ty = Ok store' /\
  let peer := Peer_new env sid ty peer_id addr (bool_decide (peer_id ∈ pr_reserved_peers reg)) in
  (p_is_reserved peer = true \/ is_banned env store addr = false) /\
  pr_peers reg !! sid = None /\
  pr_peers reg' = <[sid := peer]> (match evicted with Some p => delete (p_session_id p) (pr_peers reg) | None => pr_peers reg end).
Proof.
  intros Hok. unfold accept_peer. case_decide as Hsid; [done|]. case_decide as Hid; [done|].
  apply eq_None_not_Some in Hsid, Hid.
  pose proof (get_key_by_peer_id_spec reg peer_id Hok) as Hnew. rewrite Hid in Hnew.
  intros ([reg1 ev] & Hroom & H)%bind_Ok. apply bind_Ok in H as (store1 & Hstore & [= <- <- <-]).
  set (reserved := bool_decide (peer_id ∈ pr_reserved_peers reg)) in *.
  assert (registry_ok reg1 /\ pr_feeler_peers reg1 = pr_feeler_peers reg /\
    (pr_max_inbound reg1, pr_max_outbound reg1, pr_reserved_only reg1, pr_reserved_peers reg1) =
    (pr_max_inbound reg, pr_max_outbound reg, pr_reserved_only reg, pr_reserved_peers reg) /\
    (reserved = true \/ is_banned env store addr = false) /\
    pr_peers reg1 = (match ev with Some p => delete (p_session_id p) (pr_peers reg) | None => pr_peers reg end) /\
    (reserved = true \/ if is_inbound ty then Z.of_nat (peer_count unreserved_in (pr_peers reg1)) < pr_max_inbound reg1
     else Z.of_nat (peer_count unreserved_out (pr_peers reg1)) < pr_max_outbound reg1)) as (Hok1 & Hf & Hres & Hban & Hpeers & Hcount).
  { destruct reserved; [injection Hroom as <- <-; split_and!; auto|].
    apply make_room_ok in Hroom as (? & ? & _ & [[-> ->]|(p & -> & ->)] & ?); [| |done]; split_and!; auto. }
  assert (forall i q, pr_peers reg1 !! i = Some q -> pr_peers reg !! i = Some q) as Hsub.
  { intros i q. rewrite Hpeers. destruct ev; [by intros [_ ?]%lookup_delete_Some|done]. }
  assert (pr_peers reg1 !! sid = None) as Hfree by (apply eq_None_not_Some; intros [q Hq%Hsub]; congruence).
  injection Hres as Hmi Hmo Hro Hres.
  split; [|split_and!; [cbn; congruence|done|done|done|done|by rewrite <- Hpeers]].
  destruct Hok1. split; cbn; [| | | | |done].
  - intros ? ? [[<- <-]|[? ?]]%lookup_insert_Some; [done|eauto].
  - intros i j p q [[<- <-]|[Hi Hp]]%lookup_insert_Some [[<- <-]|[Hj Hq]]%lookup_insert_Some; [done| | |eauto]; cbn; intros Heq.
    + by destruct (Hnew _ _ (Hsub _ _ Hq)).
    + by destruct (Hnew _ _ (Hsub _ _ Hp)).
  - intros ? ? [[<- <-]|[? ?]]%lookup_insert_Some; [by rewrite Hres|eauto].
  - rewrite peer_count_insert by done. unfold unreserved_in at 1, evictable, Peer_is_inbound. cbn.
    destruct reserved, (is_inbound ty) eqn:Hty; cbn; try done. destruct Hcount; [done|]. lia.
  - rewrite peer_count_insert by done. unfold unreserved_out at 1, Peer_is_outbound, is_outbound. cbn.
    destruct reserved, (is_inbound ty) eqn:Hty; cbn; try done. destruct Hcount; [done|]. lia.
Qed.

(** ** The evicted peer *)

(** C17. An inbound peer can be evicted exactly when there is one that is not
    reserved.  The evicted one is none of the eight with the shortest ping, of the
    eight of the others that talked last and of the half of the rest that is
    connected longest, as far as there are so many; and of those that are left no
    network group has more peers than its own. *)
Theorem eviction_protects reg : registry_ok reg ->
  let candidates := filter (fun p => evictable p = true) (peer_values env reg) in
  (try_evict_inbound_peer env reg = None <-> forall sid p, pr_peers reg !! sid = Some p -> evictable p = false) /\
  forall sid, try_evict_inbound_peer env reg = Some sid -> exists p pinged talking old rest,
    pr_peers reg !! sid = Some p /\ p ∈ rest /\ candidates ≡ₚ pinged ++ talking ++ old ++ rest /\
    length pinged = (if decide (8 < length candidates)%nat then 8%nat else 0%nat) /\
    length talking = (if decide (8 < length candidates - length pinged)%nat then 8%nat else 0%nat) /\
    (length old = length (old ++ rest) / 2)%nat /\
    Forall (fun q => ping_secs q <= ping_secs p) pinged /\
    Forall (fun q => message_secs env q <= message_secs env p) talking /\
    Forall (fun q => p_connected_time q <= p_connected_time p) old /\
    Forall (fun q => group_size (Peer_network_group q) rest <= group_size (Peer_network_group p) rest) rest.
Proof.
  intros Hok candidates. split.
  - split.
    + intros Hn sid p Hp. destruct (evictable p) eqn:He; [|done].
      destruct (try_evict_some env Henv reg) as [? ?]; [eauto|congruence].
    + intros Hall. destruct (try_evict_inbound_peer env reg) as [sid|] eqn:Hev; [|done].
      apply try_evict_in in Hev as (p & _ & _ & Hp & He & _); [|done]. by rewrite (Hall _ _ Hp) in He.
  - intros sid Hev. apply try_evict_in in Hev as (p & rest & Hrest & Hp & _ & Hin & Hg); [|done].
    destruct (unprotected_spec env candidates) as (d1 & d2 & d3 & Hsplit & L1 & L2 & L3 & O1 & O2 & O3).
    cbv zeta in *. fold candidates in Hrest. rewrite <- Hrest in *. exists p, d1, d2, d3, rest.
    split_and!; try done; apply Forall_forall; intros q Hq; eauto; [apply O1|apply O2]; set_solver.
Qed.
End limits.
