(* ===== verification/NetworkSound.v ===== *)
(** * What the network keeps

    Over every run of the network: the limits on connections, and the bans.  What
    the handlers do to the registry and to the bans is stated once
    ([registry_step], [bans_step]); the theorems follow from these relations. *)
From S2P Require Import Prelude PeerStore PeerRegistry RegistrySound Network.

(** ** The store: who touches the bans *)

Definition bans_of (s : PeerStore) : gmap Bytes Z * list (Bytes * Z) * PeerScoreConfig :=
  (ps_ban_list s, ban_table (ps_conn s), ps_config s).

Section stores.
Context {E : Type} (env : Env).
Local Abbreviation Ok := (Ok (E := E)).

Lemma bans_set_conn s conn : ban_table conn = ban_table (ps_conn s) -> bans_of (set_conn s conn) = bans_of s.
Proof. intros H. unfold bans_of. cbn. by rewrite H. Qed.

Lemma check_store_limit_bans s s' : check_store_limit env s = Ok (Some s') -> bans_of s' = bans_of s.
Proof.
  unfold check_store_limit. case_decide as Hlim; [by intros [= <-]|]. intros (peers & _ & H)%bind_Ok.
  apply bind_Ok in H as (limit & _ & H). destruct (min_by_key _ _); [|done]. case_decide; [done|]. by injection H as <-.
Qed.

Lemma check_limit_bans s peer_id s' : check_limit_and_evict_peer_addrs env s peer_id = Ok s' -> bans_of s' = bans_of s.
Proof.
  unfold check_limit_and_evict_peer_addrs. case_decide as Hlim; [by intros [= <-]|].
  intros ([conn n] & Hf & H)%bind_Ok. assert (ban_table conn = ban_table (ps_conn s)) as Hb.
  { apply (try_fold_inv _ (fun _ acc => ban_table acc.1 = ban_table (ps_conn s))) in Hf; [done|done|].
    intros _ a [c k] [c' k'] Hc (t & _ & Heq)%bind_Ok. destruct t; injection Heq as <- <-; done. }
  case_decide; injection H as <-; apply bans_set_conn; [done|]. by destruct (sort_by_key _ _).
Qed.

Lemma fetch_peer_info_bans s peer_id : bans_of (fetch_peer_info s peer_id).1 = bans_of s.
Proof. unfold fetch_peer_info, get_or_insert. by destruct (get_by_peer_id _ _). Qed.

Lemma add_connected_peer_bans s peer_id addr ty s' : add_connected_peer env s peer_id addr ty = Ok s' -> bans_of s' = bans_of s.
Proof.
  unfold add_connected_peer. intros ([s1|] & Hc & H)%bind_Ok; [|by injection H as <-].
  rewrite <- (check_store_limit_bans _ _ Hc). injection H as <-. apply bans_set_conn. cbn.
  repeat case_decide; destruct (is_outbound ty); try done; by destruct (get_addr _ _ _).
Qed.

Lemma add_discovered_addr_bans s peer_id addr s' : add_discovered_addr env s peer_id addr = Ok s' -> bans_of s' = bans_of s.
Proof.
  unfold add_discovered_addr. intros (s1 & Hc & H)%bind_Ok. rewrite <- (check_limit_bans _ _ _ Hc).
  rewrite <- (fetch_peer_info_bans s1 peer_id). destruct (fetch_peer_info s1 peer_id) as [s2 peer]. by injection H as <-.
Qed.

Lemma update_peer_addr_bans s paddr s' : update_peer_addr env s paddr = Ok s' -> bans_of s' = bans_of s.
Proof.
  unfold update_peer_addr. intros (s1 & Hc & H)%bind_Ok. rewrite <- (check_limit_bans _ _ _ Hc). by injection H as <-.
Qed.

Lemma fold_bans {A B} (f : B -> A -> outcome E B) (store : B -> PeerStore) l b b' :
  (forall a b b', f b a = Ok b' -> bans_of (store b') = bans_of (store b)) ->
  try_fold f b l = Ok b' -> bans_of (store b') = bans_of (store b).
Proof.
  intros Hf H. apply (try_fold_inv _ (fun _ x => bans_of (store x) = bans_of (store b))) in H; [done|done|].
  intros _ a x y Hx Hy. by rewrite (Hf _ _ _ Hy).
Qed.

Lemma find_feeler_bans paddrs s s' r : find_feeler env s paddrs = Ok (s', r) -> bans_of s' = bans_of s.
Proof.
  revert s. induction paddrs as [|a l IH]; intros s; cbn; [by intros [= <- <-]|].
  intros ([] & _ & H)%bind_Ok; [by rewrite (IH _ H)|]. destruct (is_banned _ _ _); [by apply IH|].
  apply bind_Ok in H as ([] & _ & H); [by apply IH|]. by injection H as <- <-.
Qed.

Lemma peers_to_feeler_bans s n s' l : peers_to_feeler env s n = Ok (s', l) -> bans_of s' = bans_of s.
Proof.
  unfold peers_to_feeler. intros (expired & _ & H)%bind_Ok. apply (fold_bans _ fst) in H; [done|].
  intros peer_id [s1 l1] [s2 l2] ([s3 r] & Hf & Heq)%bind_Ok. injection Heq as <- <-. by apply find_feeler_bans in Hf.
Qed.
End stores.

(** ** Bans in memory and in the table *)

(** The times that fit into the seconds of the table. *)
Definition SECS_LIMIT : Z := U32_SIZE * 1000.

(** Up to time [T] the ban list and the table agree, but for expired bans. *)
Record ban_ok (T : Z) (s : PeerStore) : Prop := {
  bo_nodup : NoDup (ban_table (ps_conn s)).*1;
  bo_width : Forall (fun r => u32 r.2) (ban_table (ps_conn s));
  bo_table : forall ip secs, (ip, secs) ∈ ban_table (ps_conn s) ->
    match ps_ban_list s !! ip with Some t => secs = t / 1000 | None => secs <= T / 1000 end;
  bo_list : forall ip t, ps_ban_list s !! ip = Some t -> 0 <= t < SECS_LIMIT /\
    ((ip, t / 1000) ∈ ban_table (ps_conn s) \/ t / 1000 < T / 1000)
}.

Lemma ban_ok_same T s s' : bans_of s' = bans_of s -> ban_ok T s -> ban_ok T s'.
Proof. unfold bans_of. intros [= Hl Ht Hc] [Hnd Hw Htab Hlist]. by split; rewrite ?Hl, ?Ht. Qed.

Lemma Forall_kept {A} (P Q : A -> Prop) `{!forall a, Decision (Q a)} l : Forall P l -> Forall P (filter Q l).
Proof. rewrite !Forall_forall. intros Hl a [_ Ha]%list_elem_of_filter. by apply Hl. Qed.

Lemma millis_to_secs_eq t : 0 <= t < SECS_LIMIT -> millis_to_secs t = t / 1000.
Proof.
  intros Ht. unfold millis_to_secs, cast, SECS_LIMIT in *. apply Z.mod_small. split; [apply Z.div_pos; lia|].
  apply Z.div_lt_upper_bound; lia.
Qed.

Lemma lookup_foldl_delete (m : gmap Bytes Z) ips k :
  foldl (fun m ip => delete ip m) m ips !! k = (if decide (k ∈ ips) then None else m !! k).
Proof.
  revert m. induction ips as [|ip ips IH]; intros m; cbn; [by rewrite decide_False by set_solver|].
  rewrite IH. destruct (decide (k = ip)) as [->|].
  - rewrite lookup_delete_eq, (decide_True (P := ip ∈ ip :: ips)) by set_solver. by case_decide.
  - rewrite lookup_delete_ne by done. repeat case_decide; set_solver.
Qed.

Lemma table_unique (table : list (Bytes * Z)) ip a b : NoDup table.*1 -> (ip, a) ∈ table -> (ip, b) ∈ table -> a = b.
Proof.
  intros Hnd [i Hi]%list_elem_of_lookup [j Hj]%list_elem_of_lookup.
  assert (i = j) as ->; [|congruence]. eapply NoDup_lookup; [exact Hnd|..]; rewrite list_lookup_fmap, ?Hi, ?Hj; done.
Qed.

Section bans.
Context (env : Env) (T : Z).
Hypothesis Hnow : 0 <= env_now env <= T.
Hypothesis Hlimit : env_now env < SECS_LIMIT.

(** Clearing takes out expired bans only, and from the list only those that it
    takes out of the table. *)
Lemma clear_expires_ok s : ban_ok T s -> ban_ok T (clear_expires_banned_ip env s) /\
  forall ip t, ps_ban_list s !! ip = Some t -> env_now env / 1000 <= t / 1000 ->
    ps_ban_list (clear_expires_banned_ip env s) !! ip = Some t.
Proof.
  intros [Hnd Hw Ht Hl]. unfold clear_expires_banned_ip, db_clear_expires. cbn.
  rewrite (millis_to_secs_eq (env_now env)) by lia. set (now := env_now env / 1000).
  set (kept := filter (fun r : Bytes * Z => ~ r.2 < now) (ban_table (ps_conn s))).
  set (ips := fst <$> filter (fun r : Bytes * Z => r.2 < now) (ban_table (if env_lazy_rows env then _ else _))).
  assert (forall ip, ip ∈ ips -> exists secs, (ip, secs) ∈ ban_table (ps_conn s) /\ secs < now) as Hips.
  { intros ip ([i secs] & -> & [Hlt Hin]%list_elem_of_filter)%list_elem_of_fmap. exists secs. split; [|done].
    destruct (env_lazy_rows env); [|done]. by apply list_elem_of_filter in Hin as [_ ?]. }
  assert (forall ip t, ps_ban_list s !! ip = Some t -> now <= t / 1000 ->
    foldl (fun m ip => delete ip m) (ps_ban_list s) ips !! ip = Some t) as Hkeep.
  { intros ip t Hip Hlt. rewrite lookup_foldl_delete. case_decide as Hin; [|done].
    destruct (Hips _ Hin) as (secs & Hrow & Hexp). pose proof (Ht _ _ Hrow) as Hrow'. rewrite Hip in Hrow'. lia. }
  split; [|exact Hkeep]. split; cbn.
  - eapply sublist_NoDup; [exact Hnd|]. apply fmap_sublist, sublist_filter.
  - by apply Forall_kept.
  - intros ip secs [Hge Hin]%list_elem_of_filter. rewrite lookup_foldl_delete. case_decide as Hdel; [|by apply Ht].
    destruct (Hips _ Hdel) as (secs' & Hin' & Hlt). cbn in Hge. by rewrite (table_unique _ _ _ _ Hnd Hin Hin') in Hge.
  - intros ip t. rewrite lookup_foldl_delete. case_decide; [done|]. intros Hip. destruct (Hl _ _ Hip) as [? Hrow]. split; [done|].
    destruct (decide (t / 1000 < now)) as [Hlt|Hge].
    + right. pose proof (Z.div_le_mono (env_now env) T 1000 ltac:(lia) ltac:(lia)). unfold now in *. lia.
    + destruct Hrow as [Hrow|?]; [|by right]. left. by apply list_elem_of_filter.
Qed.

Lemma ban_addr_ok {E} s addr timeout s' : ban_ok T s -> 0 <= timeout < U64_SIZE -> env_now env + timeout < SECS_LIMIT ->
  ban_addr (E := E) env s addr timeout = Ok s' -> ban_ok T s' /\
  forall ip t, env_now env / 1000 <= t / 1000 ->
    (if decide (extract_ip_addr_binary addr = Some ip) then t = env_now env + timeout else ps_ban_list s !! ip = Some t) ->
    ps_ban_list s' !! ip = Some t.
Proof.
  intros Hok Ht Hend. unfold ban_addr. destruct (extract_ip_addr_binary addr) as [ip0|] eqn:Hip.
  2: { intros [= <-]. split; [done|]. intros ip t _. by rewrite decide_False by done. }
  unfold cast. rewrite Z.mod_small by done. rewrite add_w_eq, bind_ret_l by (unfold SECS_LIMIT in *; lia).
  set (end_ := env_now env + timeout) in *. intros H. injection H as H.
  set (s1 := set_bans _ _) in H.
  assert (ban_ok T s1) as Hok1.
  { destruct Hok as [Hnd Hw Htab Hl]. split; cbn.
    - rewrite fmap_app. apply NoDup_app. split_and!;
        [|by intros x (r & -> & [Hne _]%list_elem_of_filter)%list_elem_of_fmap Hx%list_elem_of_singleton|apply NoDup_singleton].
      eapply sublist_NoDup; [exact Hnd|]. apply fmap_sublist, sublist_filter.
    - apply Forall_app. split; [by apply Forall_kept|]. apply Forall_singleton. cbn. unfold millis_to_secs, cast.
      apply Z.mod_pos_bound. done.
    - intros ip secs [[Hne Hin]%list_elem_of_filter|[= -> ->]%list_elem_of_singleton]%elem_of_app.
      + cbn in Hne. rewrite lookup_insert_ne by done. by apply Htab.
      + by rewrite lookup_insert_eq, millis_to_secs_eq by lia.
    - intros ip t [[<- <-]|[Hne Hip']]%lookup_insert_Some.
      + split; [lia|]. left. rewrite millis_to_secs_eq by lia. set_solver.
      + destruct (Hl _ _ Hip') as [? [Hrow|?]]; (split; [done|]); [left|by right].
        apply elem_of_app. left. by apply list_elem_of_filter. }
  assert (forall ip t, (if decide (Some ip0 = Some ip) then t = end_ else ps_ban_list s !! ip = Some t) ->
    ps_ban_list s1 !! ip = Some t) as Hs1.
  { intros ip t. destruct (decide (Some ip0 = Some ip)) as [Heq|Heq].
    - intros ->. simplify_eq. apply lookup_insert_eq.
    - intros Hl. cbn. rewrite lookup_insert_ne; [done|congruence]. }
  case_decide; subst s'; [|by split; [|eauto]].
  destruct (clear_expires_ok s1 Hok1) as [Hok2 Hkeep]. split; [done|eauto].
Qed.
End bans.

(** ** The steps of the registry and of the bans *)

Definition limits_of (reg : PeerRegistry) : Z * Z * bool * gset PeerId :=
  (pr_max_inbound reg, pr_max_outbound reg, pr_reserved_only reg, pr_reserved_peers reg).

(** The peers of [reg'] are peers of [reg]. *)
Definition registry_less (reg reg' : PeerRegistry) : Prop := registry_ok reg ->
  registry_ok reg' /\ limits_of reg' = limits_of reg /\ forall sid p, pr_peers reg' !! sid = Some p ->
    exists q, pr_peers reg !! sid = Some q /\ same_peer q p.

Lemma same_peer_refl p : same_peer p p.
Proof. by repeat split. Qed.
Lemma less_refl reg : registry_less reg reg.
Proof. intros Hok. split_and!; [done|done|]. eauto using same_peer_refl. Qed.
Lemma less_trans reg1 reg2 reg3 : registry_less reg1 reg2 -> registry_less reg2 reg3 -> registry_less reg1 reg3.
Proof.
  intros H12 H23 Hok. destruct (H12 Hok) as (Hok2 & ? & H12'). destruct (H23 Hok2) as (Hok3 & ? & H23').
  split_and!; [done|congruence|].
  intros sid p (q & (r & ? & ?)%H12' & ?)%H23'. exists r. unfold same_peer in *. intuition congruence.
Qed.
Lemma less_remove reg sid : registry_less reg (remove_peer reg sid).1.
Proof.
  intros Hok. split_and!; [by apply remove_peer_ok|done|]. cbn. intros i p [_ ?]%lookup_delete_Some. eauto using same_peer_refl.
Qed.
Lemma less_feelers reg feelers : registry_less reg (set_feelers reg feelers).
Proof. intros Hok. split_and!; [by apply set_feelers_ok|done|]. eauto using same_peer_refl. Qed.
Lemma less_update reg sid f : (forall p, same_peer p (f p)) -> registry_less reg (update_peer reg sid f).1.
Proof.
  intros Hf Hok. split; [by apply update_peer_ok|]. unfold update_peer.
  destruct (pr_peers reg !! sid) as [p|] eqn:Hp; cbn; (split; [done|]); [|eauto using same_peer_refl].
  intros i q [[<- <-]|[_ ?]]%lookup_insert_Some; eauto using same_peer_refl.
Qed.
Create HintDb network.
#[local] Hint Resolve less_refl less_remove less_feelers : network.

Lemma less_remove_id env reg peer_id : registry_less reg (remove_peer_by_peer_id env reg peer_id).1.
Proof. unfold remove_peer_by_peer_id. destruct (get_key_by_peer_id _ _ _); auto with network. Qed.

Section steps.
Context {utils : P2pUtils} {E : Type}.
Local Abbreviation Ok := (Ok (E := E)).

(** A new peer is reserved or was not banned when it came. *)
Definition registry_step (env : Env) (store : PeerStore) (reg reg' : PeerRegistry) : Prop := registry_ok reg ->
  registry_ok reg' /\ limits_of reg' = limits_of reg /\ forall sid p, pr_peers reg' !! sid = Some p ->
    (exists q, pr_peers reg !! sid = Some q /\ same_peer q p) \/ p_is_reserved p = true \/
    is_banned env store (p_address p) = false.

(** An event bans one address at most: as it is told to, or one that is not banned. *)
Definition bans_step (env : Env) (event : NetworkEvent) (s s' : PeerStore) : Prop :=
  bans_of s' = bans_of s \/ exists s0 addr timeout, bans_of s0 = bans_of s /\ ban_addr (E := E) env s0 addr timeout = Ok s' /\
    ((exists sid, event = EvBan sid timeout) \/ timeout = ban_timeout (ps_config s) /\ is_banned env s addr = false).

Definition state_step (env : Env) (event : NetworkEvent) (self self' : NetworkState) : Prop :=
  registry_step env (ns_store self) (ns_registry self) (ns_registry self') /\
  bans_step env event (ns_store self) (ns_store self').

Lemma step_less env event self self' : registry_less (ns_registry self) (ns_registry self') ->
  bans_of (ns_store self') = bans_of (ns_store self) -> state_step env event self self'.
Proof.
  intros Hless Hb. split; [|by left]. intros Hok. destruct (Hless Hok) as (? & ? & Hp). split_and!; [done|done|].
  intros sid p Hin%Hp. by left.
Qed.

Lemma is_banned_same env s s' addr : bans_of s' = bans_of s -> is_banned env s' addr = is_banned env s addr.
Proof. unfold bans_of, is_banned. intros [= -> _ _]. done. Qed.

Lemma dial_same env self peer_id addr target :
  ns_registry (dial env self peer_id addr target).1 = ns_registry self /\
  ns_store (dial env self peer_id addr target).1 = ns_store self.
Proof. unfold dial. destruct (can_dial _ _ _ _), (multihash_from_bytes peer_id), (env_dial env); done. Qed.

Lemma for_commands_inv {A} (P : NetworkState -> Prop) (f : NetworkState -> A -> NetworkState * list Command) l self :
  (forall s a, P s -> P (f s a).1) -> P self -> P (for_commands f self l).1.
Proof.
  intros Hf Hself. unfold for_commands.
  cut (forall acc : NetworkState * list Command, P acc.1 ->
    P (foldl (fun acc a => let '(s, cs) := f acc.1 a in (s, acc.2 ++ cs)) acc l).1); [by intros H; apply H|].
  induction l as [|a l IH]; intros acc Ha; [done|]. cbn. apply IH. pose proof (Hf _ a Ha). by destruct (f acc.1 a).
Qed.

Lemma disconnect_peer_step env self peer_id :
  registry_less (ns_registry self) (ns_registry (disconnect_peer env self peer_id).1) /\
  ns_store (disconnect_peer env self peer_id).1 = ns_store self.
Proof. unfold disconnect_peer. destruct (get_key_by_peer_id _ _ _); (split; [apply less_remove || apply less_refl|done]). Qed.

Lemma report_step env event self sid behaviour self' cs :
  report_session env self sid behaviour = Ok (self', cs) -> state_step env event self self'.
Proof.
  unfold report_session. destruct (get_peer _ _) as [peer|]; [|intros [= <- <-]; by apply step_less; auto with network].
  unfold report_peer. intros ([store r] & Hr & H)%bind_Ok.
  assert (registry_less (ns_registry self) (ns_registry self') /\ ns_store self' = store) as [Hreg Hst].
  { destruct r; injection H as H; [subst; auto with network|].
    pose proof (disconnect_peer_step env (set_store self store) (p_peer_id peer)) as Hd. rewrite H in Hd. done. }
  unfold report in Hr. pose proof (fetch_peer_info_bans (ns_store self) (p_peer_id peer)) as Hb.
  destruct (fetch_peer_info _ _) as [s1 info]. cbn in Hb.
  destruct (is_banned env s1 _) eqn:Hban; [injection Hr as <- <-; apply step_less; [done|by rewrite Hst]|]. case_decide.
  - apply bind_Ok in Hr as (s2 & Hs2 & [= <- <-]).
    split; [intros Hok; destruct (Hreg Hok) as (? & ? & Hp); split_and!; [done|done|]; intros ? ? ?%Hp; by left|].
    right. exists s1, (pi_connected_addr info), (ban_timeout (ps_config s1)). split_and!; [done|by rewrite Hst|right].
    rewrite <- (is_banned_same _ _ _ _ Hb). split; [|done]. unfold bans_of in Hb. congruence.
  - injection Hr as Hr _. apply step_less; [done|]. rewrite Hst, <- Hr, <- Hb. done.
Qed.

Lemma ban_step env self sid timeout self' cs :
  ban_session env self sid timeout = Ok (self', cs) -> state_step env (EvBan sid timeout) self self'.
Proof.
  unfold ban_session. destruct (get_peer _ _) as [peer|]; [|intros [= <- <-]; by apply step_less; auto with network].
  unfold ban_peer. pose proof (less_remove_id env (ns_registry self) (p_peer_id peer)) as Hless.
  destruct (remove_peer_by_peer_id _ _ _) as [reg [p|]]; cbn in *; [|intros [= <- <-]; by apply step_less].
  intros (store & Hs & [= <- <-])%bind_Ok. split.
  - intros Hok. destruct (Hless Hok) as (? & ? & Hp). split_and!; [done|done|]. intros ? ? ?%Hp. by left.
  - right. exists (ns_store self), (p_address p), timeout. eauto.
Qed.

Lemma session_open_step env event self session self' cs : EnvLaws env ->
  session_open env self session = Ok (self', cs) -> state_step env event self self'.
Proof.
  intros Henv. unfold session_open. intros (peer_id & _ & H)%bind_Ok. set (s0 := dial_success self peer_id) in *.
  destruct (is_feeler _ _); [injection H as <- <-; by apply step_less; auto with network|].
  destruct (state_accept_peer env s0 peer_id session) as [[s1 ev]|e|] eqn:Ha; [|injection H as <- <-; by apply step_less; auto with network|done].
  assert (self' = s1) as -> by (destruct ev; by injection H). clear H.
  unfold state_accept_peer in Ha. apply bind_Ok in Ha as ([[reg store] ev'] & Ha & [= <- <-]).
  split; cbn.
  - intros Hok. apply (accept_peer_ok env Henv _ _ _ _ _ _ _ _ _ Hok) in Ha as (Hok' & Hlim & _ & _ & Hnew & _ & Hpeers).
    split_and!; [done|exact Hlim|]. intros sid p. rewrite Hpeers. intros [[<- <-]|[_ Hp]]%lookup_insert_Some; [right; exact Hnew|].
    left. exists p. split; [|apply same_peer_refl]. destruct ev'; [by apply lookup_delete_Some in Hp as [_ ?]|done].
  - left. unfold accept_peer in Ha. do 2 (case_decide; [done|]). apply bind_Ok in Ha as ([reg1 ev1] & _ & Ha).
    apply bind_Ok in Ha as (store1 & Hs & [= <- <- <-]). by apply add_connected_peer_bans in Hs.
Qed.

Lemma session_close_step env event self session self' cs :
  session_close self session = Ok (self', cs) -> state_step env event self self'.
Proof.
  unfold session_close. intros (peer_id & _ & [= <- <-])%bind_Ok. cbn. apply step_less.
  - destruct (pr_peers _ !! _); cbn; exact (less_trans _ _ _ (less_feelers _ _) (less_remove _ _)).
  - by destruct (pr_peers _ !! _).
Qed.

Lemma dial_peers_step env event self feeler count self' cs :
  dial_peers env self feeler count = Ok (self', cs) -> state_step env event self self'.
Proof.
  unfold dial_peers. intros (n & _ & H)%bind_Ok. apply bind_Ok in H as ([store paddrs] & Hp & H).
  apply bind_Ok in H as ([store' paddrs'] & Hm & H). injection H as H.
  assert (bans_of store = bans_of (ns_store self)) as Hb.
  { destruct feeler; [by apply peers_to_feeler_bans in Hp|]. apply bind_Ok in Hp as (l & _ & [= <- _]). done. }
  apply (fold_bans _ fst) in Hm; cbn in Hm.
  2: { intros a [s1 l1] [s2 l2] (s3 & Hs & [= <- _])%bind_Ok. by apply update_peer_addr_bans in Hs. }
  assert (registry_less (ns_registry self) (ns_registry self') /\ ns_store self' = store') as [Hr Hs].
  { change self' with ((self', cs).1). rewrite <- H.
    apply (for_commands_inv (fun s => registry_less (ns_registry self) (ns_registry s) /\ ns_store s = store')); [|by split; [apply less_refl|]].
    intros s a [Hr Hs]. unfold dial_attempt, dial_feeler, dial_identify. destruct feeler;
      match goal with |- context [dial ?e ?x ?y ?z ?t] => destruct (dial_same e x y z t) as [-> ->] end; [|done].
    split; [|done]. exact (less_trans _ _ _ Hr (less_feelers _ _)). }
  apply step_less; [done|]. by rewrite Hs, Hm.
Qed.

Lemma network_start_step env event self listening self' cs :
  network_start env self listening = Ok (self', cs) -> state_step env event self self'.
Proof.
  unfold network_start. intros (reserved & _ & H)%bind_Ok.
  pose (P s := ns_registry s = ns_registry self /\ ns_store s = ns_store self).
  assert (forall peers s, P s -> P (for_commands (fun s '(peer_id, addr) => dial_identify env s peer_id addr) s peers).1) as Hd.
  { intros peers s Hs. apply for_commands_inv; [|done]. intros s1 [peer_id addr] [H1 H2]. unfold P, dial_identify.
    destruct (dial_same env s1 peer_id addr IDENTIFY_PROTOCOL_ID) as [-> ->]. done. }
  pose proof (Hd reserved (push_original self listening) ltac:(done)) as H1.
  destruct (for_commands _ _ reserved) as [s1 cs1]. apply bind_Ok in H as (nodes & _ & H).
  pose proof (Hd nodes s1 H1) as H2. destruct (for_commands _ s1 nodes) as [s2 cs2]. injection H as <- _.
  destruct H2 as [Hr Hs]. cbn in Hr, Hs. apply step_less; [rewrite Hr; apply less_refl|by rewrite Hs].
Qed.

Lemma network_handle_step env event self self' cs : EnvLaws env ->
  network_handle env self event = Ok (self', cs) -> state_step env event self self'.
Proof.
  intros Henv. destruct event; cbn [network_handle]; try (intros [= <- <-]; by apply step_less; auto with network).
  - apply network_start_step.
  - intros (peer_id & _ & [= <- _])%bind_Ok. destruct connect_self; apply step_less; try done; apply less_feelers.
  - by apply session_open_step.
  - apply session_close_step.
  - unfold proto_connected. pose proof (less_update (ns_registry self) (sc_id session) (add_protocol proto_id version) ltac:(done)) as Hl.
    destruct (update_peer _ _ _) as [reg []]; [intros [= <- _]|intros (? & _ & [= <- _])%bind_Ok]; by apply step_less.
  - unfold proto_received. pose proof (less_update (ns_registry self) (sc_id session) (set_message_time (env_instant env)) ltac:(done)) as Hl.
    destruct (update_peer _ _ _) as [reg found]. case_match; intros [= <- _]; by apply step_less.
  - unfold pong. destruct (get_key_by_peer_id _ _ _); intros [= <- _]; apply step_less; try done; auto with network. by apply less_update.
  - unfold ping_failed. pose proof (less_remove_id env (ns_registry self) peer_id).
    destruct (remove_peer_by_peer_id _ _ _) as [reg r]. intros [= <- _]. by apply step_less.
  - intros (peer_id & _ & H)%bind_Ok. apply bind_Ok in H as (store & Hs & [= <- _]). apply add_connected_peer_bans in Hs.
    by apply step_less; auto with network.
  - intros (peer_id & _ & [= <- _])%bind_Ok. apply step_less; [apply less_feelers|done].
  - intros (s & Hs & [= <- _])%bind_Ok. apply bind_Ok in Hs as (store & Hs & [= <-]). apply step_less; [auto with network|].
    apply (fold_bans _ id) in Hs; [done|]. intros a b b'. apply add_discovered_addr_bans.
  - intros (s & Hs & [= <- _])%bind_Ok. unfold add_observed_addr in Hs.
    destruct (is_inbound ty); [injection Hs as <-; by apply step_less; auto with network|].
    apply bind_Ok in Hs as (store & Hs & [= <-]). apply step_less; [auto with network|].
    apply (fold_bans _ id) in Hs; [done|]. intros a b b'. apply add_discovered_addr_bans.
  - apply report_step.
  - apply ban_step.
  - intros [= H]. destruct (dial_same env self peer_id addr IDENTIFY_PROTOCOL_ID) as [Hr Hs].
    unfold dial_identify in H. rewrite H in Hr, Hs. cbn in Hr, Hs. apply step_less; [rewrite Hr; apply less_refl|by rewrite Hs].
  - intros [= H]. destruct (disconnect_peer_step env self peer_id) as [Hr Hs]. unfold remove_node in H. rewrite H in Hr, Hs.
    apply step_less; [done|]. cbn in Hs. by rewrite Hs.
Qed.

Lemma network_step_step env event nw nw' cs : EnvLaws env -> network_step env nw event = Ok (nw', cs) ->
  state_step env event (nw_state nw) (nw_state nw').
Proof.
  intros Henv. destruct event; cbn [network_step];
    try (intros ([state cs'] & H & [= <- _])%bind_Ok; by apply (network_handle_step env) in H).
  - intros ([[state sessions] cs'] & H & [= <- _])%bind_Ok. cbn. destruct event as [sid [p|]|sid|sid addrs|sid|n]; cbn in H;
      try (injection H as <- <- _; by apply step_less; auto with network).
    + destruct (_ !! sid); [|injection H as <- <- _; by apply step_less; auto with network].
      apply bind_Ok in H as (store & Hs & [= <- _ _]). apply step_less; [auto with network|].
      apply (fold_bans _ id) in Hs; [done|]. intros a b b'. unfold discover.
      destruct (extract_peer_id a); [apply add_discovered_addr_bans|by intros [= <-]].
    + apply bind_Ok in H as (l & _ & [= <- _ _]). by apply step_less; auto with network.
  - intros ([[state last] cs'] & H & [= <- _])%bind_Ok. cbn. unfold outbound_tick in H.
    case_match; [|injection H as <- _ _; by apply step_less; auto with network].
    apply bind_Ok in H as (status & _ & H). apply bind_Ok in H as (n & _ & H). apply bind_Ok in H as ([s2 cs2] & H & [= <- _ _]).
    case_decide; eapply dial_peers_step, H.
Qed.
End steps.

(** ** Starting with the table of an earlier run *)

Definition table_ok (table : list (Bytes * Z)) : Prop :=
  NoDup table.*1 /\ Forall (fun r => u32 r.2) table.

Lemma lookup_foldl_insert (rows : list (Bytes * Z)) (m : gmap Bytes Z) ip t : NoDup rows.*1 ->
  (foldl (fun m r => (<[r.1 := r.2]> m)) m rows) !! ip = Some t <->
  (ip, t) ∈ rows \/ ((ip ∉ rows.*1) /\ m !! ip = Some t).
Proof.
  revert m. induction rows as [|[i v] rows IH]; intros m Hnd; [cbn; set_solver|].
  cbn in *. apply NoDup_cons in Hnd as [Hi Hnd]. rewrite IH, elem_of_cons, not_elem_of_cons by done.
  assert ((i, v) ∈ rows -> i ∈ rows.*1) by (intros; by apply (list_elem_of_fmap_2 fst _ (i, v))).
  assert ((i, t) ∈ rows -> i ∈ rows.*1) by (intros; by apply (list_elem_of_fmap_2 fst _ (i, t))).
  rewrite lookup_insert_Some. destruct (decide (i = ip)) as [->|]; naive_solver.
Qed.

Section restarts.
Context (env : Env) (T : Z) (conn : Conn) (config : PeerScoreConfig).
Hypothesis Hnow : 0 <= env_now env <= T.
Hypothesis Hlimit : env_now env < SECS_LIMIT.
Hypothesis Htable : table_ok (ban_table conn).

Lemma PeerStore_new_bans ip t : ps_ban_list (PeerStore_new env conn config) !! ip = Some t <->
  exists secs, (ip, secs) ∈ ban_table conn /\ env_now env / 1000 < secs /\ t = secs * 1000.
Proof.
  destruct Htable as [Hnd Hsecs]. unfold PeerStore_new, load_banlist. cbn. rewrite (millis_to_secs_eq (env_now env)) by lia.
  set (rows := filter (fun r : Bytes * Z => ~ r.2 < env_now env / 1000) (ban_table conn)).
  set (live := filter (fun r : Bytes * Z => env_now env / 1000 < r.2) rows).
  assert (NoDup ((fun r => (r.1, secs_to_millis r.2)) <$> live).*1) as Hnd'.
  { rewrite <- list_fmap_compose. eapply sublist_NoDup; [exact Hnd|]. etrans; apply fmap_sublist, sublist_filter. }
  rewrite lookup_foldl_insert by done. rewrite lookup_foldl_delete, lookup_empty. split.
  - intros [(r & [= -> ->] & [Hr1 [_ Hr]%list_elem_of_filter]%list_elem_of_filter)%list_elem_of_fmap|[_ H]];
      [|by case_decide]. exists r.2. by destruct r.
  - intros (secs & Hin & Hlt & ->). left. apply list_elem_of_fmap. exists (ip, secs). split; [done|].
    apply list_elem_of_filter. split; [done|]. apply list_elem_of_filter. split; [cbn; lia|done].
Qed.

Lemma PeerStore_new_ok : ban_ok T (PeerStore_new env conn config).
Proof.
  destruct Htable as [Hnd Hsecs]. assert (ban_table (ps_conn (PeerStore_new env conn config)) =
    filter (fun r => ~ r.2 < env_now env / 1000) (ban_table conn)) as Hrows.
  { unfold PeerStore_new, load_banlist. cbn. by rewrite (millis_to_secs_eq (env_now env)) by lia. }
  split; rewrite ?Hrows.
  - eapply sublist_NoDup; [exact Hnd|]. apply fmap_sublist, sublist_filter.
  - by apply Forall_kept.
  - intros ip secs [Hge Hin]%list_elem_of_filter. cbn in Hge. destruct (ps_ban_list _ !! ip) as [t|] eqn:Hip.
    + apply PeerStore_new_bans in Hip as (secs' & Hin' & _ & ->). rewrite Z.div_mul by done. by eapply table_unique.
    + destruct (decide (env_now env / 1000 < secs)) as [Hlt|].
      * by rewrite (proj2 (PeerStore_new_bans ip (secs * 1000))) in Hip by eauto.
      * pose proof (Z.div_le_mono (env_now env) T 1000 ltac:(lia) ltac:(lia)). lia.
  - intros ip t (secs & Hin & Hlt & ->)%PeerStore_new_bans. rewrite Z.div_mul by done.
    rewrite Forall_forall in Hsecs. pose proof (Hsecs _ Hin) as [Hs0 Hs1]. cbn in Hs0, Hs1. unfold SECS_LIMIT. split; [lia|].
    left. apply list_elem_of_filter. split; [cbn; lia|done].
Qed.
End restarts.

(** ** Reachable networks *)

Section reach.
Context {utils : P2pUtils} {E : Type} (config : NetworkConfig) (T : Z).
Local Abbreviation Ok := (Ok (E := E)).

(** Times are at most [T], and the ends of bans fit into the table. *)
Definition event_ok (e : Env * NetworkEvent) : Prop :=
  EnvLaws e.1 /\ 0 <= env_now e.1 <= T /\
  match e.2 with EvBan _ timeout => 0 <= timeout /\ env_now e.1 + timeout < SECS_LIMIT | _ => True end.

Inductive network_reachable : Network -> Prop :=
| reach_start env conn local_peer_id protocol_ids state :
    0 <= env_now env <= T -> table_ok (ban_table conn) ->
    from_config env conn local_peer_id protocol_ids config = Prelude.Ok state ->
    network_reachable (mkNetwork state ∅ None)
| reach_step nw env event nw' cs :
    network_reachable nw -> event_ok (env, event) -> network_step env nw event = Ok (nw', cs) ->
    network_reachable nw'.

Lemma reach_run events : forall nw nw' cs, network_reachable nw -> Forall event_ok events ->
  network_run nw events = Ok (nw', cs) -> network_reachable nw'.
Proof.
  induction events as [|[env event] events IH]; intros nw nw' cs Hreach Hev; cbn [network_run].
  - intros [= <- _]. done.
  - apply Forall_cons in Hev as [Hev Hevs]. intros ([nw1 cs1] & Hstep & H)%bind_Ok.
    apply bind_Ok in H as ([nw2 cs2] & Hrun & [= -> _]). eapply IH; [|done|done]. by eapply reach_step.
Qed.

Hypothesis Hwidths : u32 (cfg_max_peers config) /\ u32 (cfg_max_outbound_peers config).
Hypothesis HT : T + ban_timeout PeerScoreConfig_default < SECS_LIMIT.

Record network_ok (nw : Network) : Prop := {
  no_registry : registry_ok (ns_registry (nw_state nw));
  no_bans : ban_ok T (ns_store (nw_state nw));
  no_score : ps_config (ns_store (nw_state nw)) = PeerScoreConfig_default;
  no_limits : pr_max_inbound (ns_registry (nw_state nw)) + pr_max_outbound (ns_registry (nw_state nw)) =
    cfg_max_peers config
}.

(** What a step does to the bans, under the invariant. *)
Lemma bans_step_ok env event s s' : event_ok (env, event) -> ban_ok T s -> ps_config s = PeerScoreConfig_default ->
  bans_step (E := E) env event s s' ->
  ban_ok T s' /\ ps_config s' = PeerScoreConfig_default /\
  forall ip t, ps_ban_list s !! ip = Some t -> env_now env < t ->
    exists t', ps_ban_list s' !! ip = Some t' /\
      (t' = t \/ exists sid timeout, event = EvBan sid timeout /\ t' = env_now env + timeout).
Proof.
  intros (Henv & Hnow & Hban) Hok Hcfg. unfold bans_step. cbn in *. assert (ban_timeout PeerScoreConfig_default = 86400000) as Hto by done.
  intros [Hsame|(s0 & addr & timeout & Hsame & Ha & Hwhy)].
  { split_and!; [by eapply ban_ok_same|unfold bans_of in Hsame; congruence|].
    intros ip t Hip _. exists t. unfold bans_of in Hsame. injection Hsame as -> _ _. auto. }
  assert (0 <= timeout < U64_SIZE /\ env_now env + timeout < SECS_LIMIT) as [Htime Hend].
  { unfold SECS_LIMIT in *. destruct Hwhy as [[sid ->]|[-> _]]; [lia|]. rewrite Hcfg, Hto. lia. }
  apply (ban_ok_same _ _ _ Hsame) in Hok. assert (env_now env < SECS_LIMIT) as Hlim by lia.
  destruct (ban_addr_ok env T Hnow Hlim s0 addr timeout s' Hok Htime Hend Ha) as [Hok' Hkeep].
  assert (ps_config s' = ps_config s0) as Hcfg'.
  { unfold ban_addr in Ha. destruct (extract_ip_addr_binary addr); [|by injection Ha as <-].
    apply bind_Ok in Ha as (e & _ & [= <-]). by case_decide. }
  unfold bans_of in Hsame. injection Hsame as Hlist _ Hc. split_and!; [done|congruence|].
  intros ip t Hip Hlt. pose proof (Z.div_le_mono (env_now env) t 1000 ltac:(lia) ltac:(lia)) as Hdiv.
  destruct (decide (extract_ip_addr_binary addr = Some ip)) as [Haddr|Haddr].
  - destruct Hwhy as [[sid ->]|[_ Hnot]].
    + exists (env_now env + timeout). split; [|by right; eauto]. apply Hkeep; [apply Z.div_le_mono; lia|]. by rewrite decide_True.
    + exfalso. unfold is_banned in Hnot. rewrite Haddr, Hip in Hnot. by rewrite bool_decide_eq_false in Hnot.
  - exists t. split; [|by left]. apply Hkeep; [done|]. rewrite decide_False by done. congruence.
Qed.

Lemma network_reachable_ok nw : network_reachable nw -> network_ok nw.
Proof.
  induction 1 as [env conn local protos state Hnow Htab Hnew|nw env event nw' cs _ IH Hev Hstep].
  - unfold from_config in Hnew. apply bind_Ok in Hnew as (nodes & _ & H). apply bind_Ok in H as (reserved & _ & H).
    apply bind_Ok in H as (max_in & Hmax & [= <-]). unfold max_inbound_peers in Hmax. apply sub_w_Ok in Hmax as [-> Hle].
    set (s0 := PeerStore_new env conn PeerScoreConfig_default).
    assert (forall s, bans_of s = bans_of s0 -> bans_of (foldl (fun s '(peer_id, addr) => add_bootnode s peer_id addr) s nodes) = bans_of s0) as Hb.
    { induction nodes as [|[peer_id addr] nodes IHn]; intros s Hs; [done|]. cbn. by apply IHn. }
    specialize (Hb s0 eq_refl). assert (ban_timeout PeerScoreConfig_default = 86400000) by done. split; cbn.
    + split; cbn; try done; unfold peer_count; rewrite ?map_filter_empty, ?map_size_empty; unfold in_range in *; lia.
    + apply (ban_ok_same _ _ _ Hb). apply PeerStore_new_ok; [done|lia|done].
    + unfold bans_of in Hb. injection Hb as _ _ ->. done.
    + lia.
  - destruct IH as [Hreg Hbans Hscore Hlim]. destruct Hev as (Henv & Hnow & Hban).
    destruct (network_step_step env event nw nw' cs Henv Hstep) as [Hr Hb].
    destruct (Hr Hreg) as (Hreg' & Hlim' & _). destruct (bans_step_ok env event _ _ ltac:(done) Hbans Hscore Hb) as (? & ? & _).
    split; [done|done|done|]. unfold limits_of in Hlim'. injection Hlim' as -> -> _ _. done.
Qed.

(** C15. In every reachable state of the network the counts of the registry do not
    overflow and are within the limits, which add up to the configured number of
    peers, and no peer has two sessions; so the number of connections that the
    service dials for does not underflow. *)
Theorem connections_bounded nw env : network_reachable nw -> EnvLaws env ->
  let reg := ns_registry (nw_state nw) in
  exists status new_outbound, connection_status env reg = Ok status /\
    cs_unreserved_inbound status <= cs_max_inbound status /\
    cs_max_outbound status -64 cs_unreserved_outbound status = Ok new_outbound /\
    cs_max_inbound status + cs_max_outbound status = cfg_max_peers config /\
    (forall i j p q, pr_peers reg !! i = Some p -> pr_peers reg !! j = Some q -> p_peer_id p = p_peer_id q -> i = j).
Proof.
  intros Hreach Henv reg. destruct (network_reachable_ok nw Hreach) as [Hok _ _ Hlim]. fold reg in Hok, Hlim.
  destruct (connection_status_spec env Henv (E := E) reg Hok) as [total Hs]. do 2 eexists. split; [exact Hs|]. cbn.
  pose proof (ro_inbound _ Hok). pose proof (ro_outbound _ Hok).
  split_and!; [lia|apply sub_w_eq; lia|done|exact (ro_unique _ Hok)].
Qed.

(** ** Bans *)

Lemma ban_session_spec env nw sid timeout nw1 cs p : registry_ok (ns_registry (nw_state nw)) -> EnvLaws env ->
  pr_peers (ns_registry (nw_state nw)) !! sid = Some p ->
  network_step env nw (EvBan sid timeout) = Ok (nw1, cs) ->
  cs = [Disconnect sid] /\ pr_peers (ns_registry (nw_state nw1)) = delete sid (pr_peers (ns_registry (nw_state nw))) /\
  ban_addr env (ns_store (nw_state nw)) (p_address p) timeout = Ok (ns_store (nw_state nw1)).
Proof.
  intros Hok Henv Hp. cbn [network_step]. intros ([state cs'] & H & [= <- <-])%bind_Ok. cbn in H.
  unfold ban_session, get_peer, ban_peer, remove_peer_by_peer_id in H. rewrite Hp in H.
  rewrite (get_key_found env Henv _ _ _ Hok Hp) in H. cbn in H. rewrite Hp in H.
  apply bind_Ok in H as (store & Hs & [= <- <-]). cbn. by rewrite (ro_session _ Hok _ _ Hp).
Qed.

(** The later events: they come before the end of the ban and do not shorten it. *)
Definition during_ban (end_ : Z) (e : Env * NetworkEvent) : Prop :=
  event_ok e /\ env_now e.1 < end_ /\
  match e.2 with EvBan _ timeout => end_ <= env_now e.1 + timeout | _ => True end.

Lemma during_ban_run end_ ip events : Forall (during_ban end_) events -> forall nw nw' cs, network_reachable nw ->
  (exists t, ps_ban_list (ns_store (nw_state nw)) !! ip = Some t /\ end_ <= t) ->
  network_run nw events = Ok (nw', cs) ->
  forall sid q, pr_peers (ns_registry (nw_state nw')) !! sid = Some q ->
    extract_ip_addr_binary (p_address q) = Some ip -> p_is_reserved q = true \/
    exists q0, pr_peers (ns_registry (nw_state nw)) !! sid = Some q0 /\ same_peer q0 q.
Proof.
  induction 1 as [|[env event] events (Hev & Hbefore & Hkeep) _ IH]; intros nw nw' cs Hreach (t & Hip & Ht); cbn [network_run].
  { intros [= <- _] sid q Hq _. right. eauto using same_peer_refl. }
  intros ([nw1 cs1] & Hstep & H)%bind_Ok. apply bind_Ok in H as ([nw2 cs2] & Hrun & [= -> _]).
  pose proof (reach_step _ _ _ _ _ Hreach Hev Hstep) as Hreach1. destruct (network_reachable_ok nw Hreach) as [Hreg Hbans Hscore _].
  destruct (network_step_step env event nw nw1 cs1 (proj1 Hev) Hstep) as [Hr Hb]. cbn in Hbefore, Hkeep.
  destruct (Hr Hreg) as (_ & _ & Hpeers). destruct (bans_step_ok env event _ _ Hev Hbans Hscore Hb) as (_ & _ & Hlist).
  assert (exists t', ps_ban_list (ns_store (nw_state nw1)) !! ip = Some t' /\ end_ <= t') as Hban1.
  { destruct (Hlist ip t Hip ltac:(lia)) as (t' & Hip' & [->|(sid & timeout & -> & ->)]); eauto. }
  intros sid q Hq Hqip. destruct (IH nw1 nw' cs2 Hreach1 Hban1 Hrun sid q Hq Hqip) as [?|(q1 & Hq1 & Hsame)]; [by left|].
  destruct Hsame as (Ha & Hi & Hs & Hty & Hres).
  destruct (Hpeers sid q1 Hq1) as [(q0 & Hq0 & Hsame0)|[Hr1|Hnot]].
  - right. exists q0. split; [done|]. unfold same_peer in *. intuition congruence.
  - left. congruence.
  - exfalso. unfold is_banned in Hnot. rewrite Ha, Hqip, Hip in Hnot. rewrite bool_decide_eq_false in Hnot. lia.
Qed.

(** C16. When a session is banned it is removed and disconnected, and whatever
    happens until the ban ends, except for a shorter ban, every session from its
    address that is registered then is reserved or was registered before. *)
Theorem ban_lasts nw env sid timeout nw1 cs p ip events nw2 cs2 :
  let end_ := env_now env + timeout in
  network_reachable nw -> event_ok (env, EvBan sid timeout) ->
  pr_peers (ns_registry (nw_state nw)) !! sid = Some p -> extract_ip_addr_binary (p_address p) = Some ip ->
  network_step env nw (EvBan sid timeout) = Ok (nw1, cs) ->
  Forall (during_ban end_) events -> network_run nw1 events = Ok (nw2, cs2) ->
  cs = [Disconnect sid] /\ pr_peers (ns_registry (nw_state nw1)) !! sid = None /\
  forall sid' q, pr_peers (ns_registry (nw_state nw2)) !! sid' = Some q ->
    extract_ip_addr_binary (p_address q) = Some ip -> p_is_reserved q = true \/
    exists q0, pr_peers (ns_registry (nw_state nw1)) !! sid' = Some q0 /\ same_peer q0 q.
Proof.
  intros end_ Hreach Hev Hp Hip Hstep Hduring Hrun. destruct (network_reachable_ok nw Hreach) as [Hreg Hbans Hscore _].
  pose proof Hev as (Henv & Hnow & Ht0 & Hend). cbn in Henv, Hnow, Ht0, Hend.
  destruct (ban_session_spec env nw sid timeout nw1 cs p Hreg Henv Hp Hstep) as (-> & Hdel & Hb).
  pose proof (reach_step _ _ _ _ _ Hreach Hev Hstep) as Hreach1.
  assert (ban_timeout PeerScoreConfig_default = 86400000) as Hto by done.
  assert (env_now env < SECS_LIMIT) as Hlim by lia. assert (0 <= timeout < U64_SIZE) as Htime by (unfold SECS_LIMIT in *; lia).
  destruct (ban_addr_ok env T Hnow Hlim _ _ _ _ Hbans Htime Hend Hb) as [_ Hset].
  split_and!; [done|rewrite Hdel; apply lookup_delete_eq|].
  apply (during_ban_run end_ ip events Hduring nw1 nw2 cs2 Hreach1); [|done].
  exists end_. split; [|lia]. apply Hset; [apply Z.div_le_mono; lia|]. by rewrite decide_True.
Qed.

(** C18. The bans survive a restart up to the second: an address is banned by the
    new store exactly when its ban ends in a later second; peers are disconnected
    and otherwise as they were. *)
Theorem bans_survive_restart nw env env' score addr : network_reachable nw ->
  T <= env_now env -> 0 <= env_now env <= env_now env' -> env_now env' < SECS_LIMIT ->
  let old := ns_store (nw_state nw) in
  let new := PeerStore_new env (ps_conn old) score in
  (is_banned env' new addr = true <-> exists ip t, extract_ip_addr_binary addr = Some ip /\
    ps_ban_list old !! ip = Some t /\ env_now env' / 1000 < t / 1000) /\
  peer_addr (ps_conn new) = peer_addr (ps_conn old) /\
  peer_info (ps_conn new) = (fun r => set_status r (status_to_u8 Disconnected)) <$> peer_info (ps_conn old).
Proof.
  intros Hreach HTle Hle Hlim' old new. destruct (network_reachable_ok nw Hreach) as [_ [Hnd Hw Htab Hl] _ _]. fold old in Hnd, Hw, Htab, Hl.
  split_and!; [|done|].
  - unfold is_banned. pose proof (Z.div_le_mono T (env_now env) 1000 ltac:(lia) HTle) as HT1.
    pose proof (Z.div_le_mono (env_now env) (env_now env') 1000 ltac:(lia) ltac:(lia)) as HT2.
    assert (forall ip t, ps_ban_list new !! ip = Some t <-> exists secs, (ip, secs) ∈ ban_table (ps_conn old) /\
      env_now env / 1000 < secs /\ t = secs * 1000) as Hnew.
    { intros ip t. apply (PeerStore_new_bans env (env_now env)); [lia|lia|done]. }
    destruct (extract_ip_addr_binary addr) as [ip|]; [|naive_solver]. split.
    + destruct (ps_ban_list new !! ip) as [t|] eqn:Hip; [|done]. rewrite bool_decide_eq_true. intros Hlt.
      apply Hnew in Hip as (secs & Hin & Hs & ->). pose proof (Htab _ _ Hin) as Hrow.
      destruct (ps_ban_list old !! ip) as [t|] eqn:Hold; [|lia]. exists ip, t. split_and!; [done|done|].
      rewrite <- Hrow. apply Z.div_lt_upper_bound; lia.
    + intros (ip' & t & [= <-] & Hold & Hlt). destruct (Hl _ _ Hold) as [_ [Hin|Hexp]]; [|lia].
      rewrite (proj2 (Hnew ip (t / 1000 * 1000))) by (exists (t / 1000); split_and!; [done|lia|done]).
      apply bool_decide_eq_true. pose proof (Z.mod_pos_bound (env_now env') 1000 ltac:(done)).
      pose proof (Z.div_mod (env_now env') 1000 ltac:(done)). lia.
  - unfold new, PeerStore_new, load_banlist. cbn. apply list_fmap_ext. intros i r _. case_decide as Hs; [done|].
    destruct r as [? ? ? ? st ? ? ?]. cbn in *. by subst st.
Qed.
End reach.
