(* ===== verification/PeerGaps.v ===== *)
(** * What the network does not do

    Peers that the service means to feel are never dialled and are shut out, and a
    peer that is taken out of the registry before its session closes is never
    dialled again.  With a small network, on which the theorems on the network
    are applied. *)
From S2P Require Import Prelude Fixtures PeerStore PeerRegistry RegistrySound Network NetworkSound.

Section gaps.
Context {utils : P2pUtils} {E : Type}.
Local Abbreviation Ok := (Ok (E := E)).

(** ** Feelers *)

(** A peer is entered as a feeler before it is dialled, and a feeler is not dialled. *)
Lemma dial_attempt_feeler env self paddr :
  dial_attempt env true self paddr = (set_registry self (add_feeler (ns_registry self) (pa_peer_id paddr)), []).
Proof.
  unfold dial_attempt, dial_feeler, dial. set (self' := set_registry self _).
  assert (is_feeler (ns_registry self') (pa_peer_id paddr) = true) as Hf by (apply bool_decide_eq_true; set_solver).
  unfold can_dial. rewrite Hf. by rewrite !orb_true_r.
Qed.

Lemma feelers_loop env paddrs self : exists feelers,
  for_commands (dial_attempt env true) self paddrs = (set_registry self (set_feelers (ns_registry self) feelers), []) /\
  feelers = list_to_set (pa_peer_id <$> paddrs) ∪ pr_feeler_peers (ns_registry self).
Proof.
  eexists. split; [|done]. unfold for_commands. revert self. induction paddrs as [|a l IH]; intros self.
  - cbn. rewrite (left_id_L ∅ (∪)). by destruct self as [[] ? ? ? ? ? ? ? ?].
  - cbn [foldl]. rewrite dial_attempt_feeler, IH. cbn. do 3 f_equal. set_solver.
Qed.

(** When the service wants to feel peers, it dials none of those that the store
    offers; it enters them as feelers, and from then on they cannot be dialled and
    are not registered when they connect. *)
Theorem feelers_never_dialled env self count self' cs :
  dial_peers env self true count = Ok (self', cs) ->
  exists n store offered, peers_to_feeler env (ns_store self) n = Ok (store, offered) /\
    cs = [] /\ ns_dialing self' = ns_dialing self /\ pr_peers (ns_registry self') = pr_peers (ns_registry self) /\
    forall paddr env' addr session, paddr ∈ take (Z.to_nat count) offered ->
      can_dial env' self' (pa_peer_id paddr) addr = false /\
      (sc_peer_id session = Some (pa_peer_id paddr) ->
       session_open env' self' session = Ok (dial_success self' (pa_peer_id paddr), [])).
Proof.
  unfold dial_peers. intros (n & _ & H)%bind_Ok. apply bind_Ok in H as ([store offered] & Hoff & H).
  apply bind_Ok in H as ([store' marked] & Hm & H). destruct (feelers_loop env marked (set_store self store')) as (feelers & Hf & Hset).
  rewrite Hf in H. injection H as <- <-. exists n, store, offered. cbn. split_and!; try done.
  intros paddr env' addr session Hin.
  assert (pa_peer_id <$> marked = pa_peer_id <$> take (Z.to_nat count) offered) as Hids.
  { apply (try_fold_inv _ (fun done acc => pa_peer_id <$> acc.2 = pa_peer_id <$> done)) in Hm; [done|done|].
    intros done a [s l] [s' l'] Hl (s1 & _ & [= <- <-])%bind_Ok. cbn in *. by rewrite !fmap_app, Hl. }
  assert (is_feeler (set_feelers (ns_registry self) feelers) (pa_peer_id paddr) = true) as Hfeel.
  { unfold is_feeler. cbn. apply bool_decide_eq_true. rewrite Hset, Hids. apply elem_of_union. left.
    apply elem_of_list_to_set. by apply list_elem_of_fmap_2. }
  split.
  - unfold can_dial. cbn. rewrite Hfeel. by rewrite !orb_true_r.
  - intros Hid. unfold session_open. rewrite Hid. cbn. by rewrite Hfeel.
Qed.

(** ** Peers that are removed before their session closes *)

Lemma select_random_in env conn count p id : EnvLaws env -> id ∈ select_random env conn count p ->
  exists r, r ∈ peer_info conn /\ ir_peer_id r = id /\ p r = true.
Proof.
  intros Henv Hin. unfold select_random in Hin. apply elem_of_take in Hin as (i & Hi & _).
  apply list_elem_of_lookup_2 in Hi. rewrite (shuffle_perm _ Henv) in Hi.
  apply list_elem_of_fmap in Hi as (r & -> & [Hp Hr]%list_elem_of_filter). eauto.
Qed.

Lemma get_addrs_id env conn id n paddr : EnvLaws env -> paddr ∈ get_addrs env conn id n -> pa_peer_id paddr = id.
Proof.
  intros Henv (r & -> & Hr)%list_elem_of_fmap. apply elem_of_take in Hr as (i & Hi & _).
  apply list_elem_of_lookup_2 in Hi. rewrite (order_perm _ Henv) in Hi. by apply list_elem_of_filter in Hi as [? _].
Qed.

Lemma find_usable_in env s l paddr : find_usable env s l = Ok (Some paddr) -> paddr ∈ l.
Proof.
  induction l as [|a l IH]; cbn; [done|]. destruct (is_banned _ _ _); [intros ?%IH; set_solver|].
  intros ([] & _ & H)%bind_Ok; [apply IH in H; set_solver|]. injection H as <-. set_solver.
Qed.

Lemma usable_addrs_ids env s ids l paddr : EnvLaws env -> usable_addrs env s ids = Ok l -> paddr ∈ l -> pa_peer_id paddr ∈ ids.
Proof.
  intros Henv. unfold usable_addrs. intros (found & Hf & [= <-])%bind_Ok Hin.
  apply list_elem_of_omap in Hin as (o & Ho & Heq). unfold id in Heq. subst o. apply try_map_Ok in Hf.
  apply list_elem_of_lookup in Ho as [i Hi]. destruct (Forall2_lookup_r _ _ _ _ _ Hf Hi) as (id & Hid & Hfind).
  apply find_usable_in in Hfind. rewrite (shuffle_perm _ Henv) in Hfind. apply get_addrs_id in Hfind; [|done].
  rewrite Hfind. by eapply list_elem_of_lookup_2.
Qed.

Lemma find_feeler_in env l : forall s s' paddr, find_feeler env s l = Ok (s', Some paddr) -> paddr ∈ l.
Proof.
  induction l as [|a l IH]; intros s s' paddr; cbn; [done|].
  intros ([] & _ & H)%bind_Ok; [apply IH in H; set_solver|]. destruct (is_banned _ _ _); [apply IH in H; set_solver|].
  apply bind_Ok in H as ([] & _ & H); [apply IH in H; set_solver|]. injection H as _ <-. set_solver.
Qed.

Lemma peers_to_feeler_ids env s n s' l paddr : EnvLaws env -> peers_to_feeler env s n = Ok (s', l) -> paddr ∈ l ->
  exists r, r ∈ peer_info (ps_conn s) /\ ir_peer_id r = pa_peer_id paddr /\ not_connected_row r = true.
Proof.
  intros Henv. unfold peers_to_feeler. intros (expired & _ & Hf)%bind_Ok Hin.
  set (ids := get_peers_to_feeler env (ps_conn s) n expired) in Hf.
  assert (forall a, a ∈ (s', l).2 -> pa_peer_id a ∈ ids) as Hall.
  { apply (try_fold_inv (E := E) (feeler_of env) (fun done acc => forall a, a ∈ acc.2 -> pa_peer_id a ∈ done) ids (s, [])); [set_solver| |exact Hf].
    intros done id [s1 l1] [s2 l2] Hl ([s3 o] & Hff & [= <- <-])%bind_Ok a [Ha|Ha]%elem_of_app; cbn in *; [set_solver|].
    destruct o as [b|]; [|set_solver]. apply list_elem_of_singleton in Ha as ->. apply find_feeler_in in Hff.
    rewrite sort_by_key_perm in Hff. apply get_addrs_id in Hff; [|done]. rewrite Hff. set_solver. }
  apply Hall, (select_random_in env _ _ _ _ Henv) in Hin as (r & Hr & Hid & Hp). exists r.
  rewrite !andb_true_iff in Hp. naive_solver.
Qed.

(** A peer the store takes for connected is not offered. *)
Lemma connected_not_offered env s n id : EnvLaws env -> NoDup (ir_peer_id <$> peer_info (ps_conn s)) ->
  peer_status s id = Connected ->
  (forall l, peers_to_attempt env s n = Ok l -> id ∉ pa_peer_id <$> l) /\
  (forall s' l, peers_to_feeler env s n = Ok (s', l) -> id ∉ pa_peer_id <$> l).
Proof.
  intros Henv Hnd Hst. assert (forall r, r ∈ peer_info (ps_conn s) -> ir_peer_id r = id -> not_connected_row r = false) as Hrow.
  { intros r Hr Hid. unfold peer_status, get_by_peer_id in Hst.
    assert (r ∈ filter (fun r => ir_peer_id r = id) (peer_info (ps_conn s))) as Hf by by apply list_elem_of_filter.
    destruct (filter _ _) as [|r0 rs] eqn:Hfe; [set_solver|]. cbn in Hst.
    assert (r0 ∈ filter (fun r => ir_peer_id r = id) (peer_info (ps_conn s))) as [Hid0 Hr0]%list_elem_of_filter by (rewrite Hfe; set_solver).
    apply list_elem_of_lookup in Hr as [i Hi], Hr0 as [j Hj].
    assert (i = j) as -> by (apply (NoDup_lookup _ i j id Hnd); rewrite list_lookup_fmap, ?Hi, ?Hj; cbn; congruence).
    assert (r0 = r) as -> by congruence. unfold not_connected_row. apply bool_decide_eq_false.
    unfold u8_to_status in Hst. repeat case_decide; done || tauto. }
  split.
  - intros l Hl (paddr & -> & Hin)%list_elem_of_fmap. unfold peers_to_attempt in Hl. apply (usable_addrs_ids _ _ _ _ _ Henv Hl) in Hin.
    apply select_random_in in Hin as (r & Hr & Hid & Hp); [|done]. rewrite (Hrow r Hr Hid) in Hp. done.
  - intros s' l Hl (paddr & -> & Hin)%list_elem_of_fmap. destruct (peers_to_feeler_ids _ _ _ _ _ _ Henv Hl Hin) as (r & Hr & Hid & Hp).
    rewrite (Hrow r Hr Hid) in Hp. done.
Qed.

Lemma update_status_known s id status : peer_status s id <> UnknownStatus -> peer_status (update_status s id status) id = status.
Proof.
  unfold peer_status, get_by_peer_id, update_status. cbn. induction (peer_info (ps_conn s)) as [|r rows IH]; [done|].
  rewrite fmap_cons, !filter_cons. destruct (decide (ir_peer_id r = id)) as [Hid|Hid].
  - rewrite decide_True by done. intros _. cbn. by destruct status.
  - rewrite decide_False by done. exact IH.
Qed.

(** A peer that fails to answer a ping is taken out of the registry and its
    session is closed, but the store goes on to take it for connected and does not
    offer it any more; without the failure the close of the session would mark it
    as disconnected. *)
Theorem removed_peer_not_redialled nw env1 env2 sid p addr ty nw' cs :
  let id := p_peer_id p in
  let session := mkSessionContext sid addr ty (Some id) in
  registry_ok (ns_registry (nw_state nw)) -> EnvLaws env1 -> pr_peers (ns_registry (nw_state nw)) !! sid = Some p ->
  NoDup (ir_peer_id <$> peer_info (ps_conn (ns_store (nw_state nw)))) ->
  peer_status (ns_store (nw_state nw)) id = Connected ->
  network_run nw [(env1, EvPingFailed id); (env2, EvSessionClose session)] = Ok (nw', cs) ->
  cs = [Disconnect sid] /\ pr_peers (ns_registry (nw_state nw')) !! sid = None /\
  (forall env n, EnvLaws env ->
    (forall l, peers_to_attempt env (ns_store (nw_state nw')) n = Ok l -> id ∉ pa_peer_id <$> l) /\
    (forall s l, peers_to_feeler env (ns_store (nw_state nw')) n = Ok (s, l) -> id ∉ pa_peer_id <$> l)) /\
  exists nw2 cs2, network_run nw [(env2, EvSessionClose session)] = Ok (nw2, cs2) /\
    peer_status (ns_store (nw_state nw2)) id = Disconnected.
Proof.
  intros id session Hok Henv Hp Hnd Hst Hrun. pose proof (get_key_found env1 Henv _ _ _ Hok Hp) as Hkey.
  cbn in Hrun. unfold ping_failed, remove_peer_by_peer_id in Hrun. fold id in Hkey. rewrite Hkey in Hrun. cbn in Hrun.
  rewrite Hp, lookup_delete_eq in Hrun. cbn in Hrun. injection Hrun as <- <-. cbn.
  rewrite (ro_session _ Hok _ _ Hp). split_and!; [done|by rewrite lookup_delete_eq|by intros; apply connected_not_offered|].
  rewrite Hp. do 2 eexists. split; [done|]. cbn. apply update_status_known. by rewrite Hst.
Qed.
End gaps.

(** ** A small network *)
Module NetworkExample.

#[local] Instance utils : P2pUtils := {|
  multihash_from_bytes := Some;
  peer_id_from_bytes := Some;
  extract_peer_id addr := match last addr with Some (P2p hash) => Some hash | _ => None end;
  multiaddr_to_socketaddr addr := (fun ip => (ip, 8115)) <$> extract_ip_addr addr;
  is_reachable ip := negb (is_loopback ip)
|}.

(** The clock at [t] milliseconds; lists are taken as they are. *)
Definition at_time (t : Z) : Env := mkEnv t t (fun _ l => l) (fun _ l => l) (fun _ l => head l) true true.
Lemma at_time_laws t : EnvLaws (at_time t).
Proof. split; cbn; [done|done|by intros A [|b l] a [= <-]; left|by intros A [|b l]; [|eauto]]. Qed.

Definition t0 : Z := 1000000000.
Definition horizon : Z := 2000000000.

(** Four places for outbound peers, twenty for inbound ones. *)
Definition config : NetworkConfig := mkNetworkConfig false 24 4 false 15000 [] [] [] [].
Definition fresh : NetworkState :=
  ok_value (mkNetworkState (PeerRegistry_new 0 0 true []) (mkPeerStore [] PeerScoreConfig_default ∅ (mkConn [] [] [])) [] ∅ ∅ ∅ ∅ [] config)
    (from_config (at_time t0) (mkConn [] [] []) [0] {[2; 3]} config).

Definition peer_session (i : Z) : SessionContext :=
  mkSessionContext i [Ip4 [10; i mod 3; 0; i]; Tcp 8115] Inbound (Some [i]).
Definition opens : list (Env * NetworkEvent) :=
  (fun i => (at_time (t0 + i), EvSessionOpen (peer_session i))) <$> seqZ 1 20.
Definition pongs : list (Env * NetworkEvent) :=
  (fun i => (at_time (t0 + 100 + i), EvPong [i] (i * 1000))) <$> seqZ 1 12.

Definition full : Network := (ok_value (mkNetwork fresh ∅ None, []) (network_run (E := unit) (mkNetwork fresh ∅ None) (opens ++ pongs))).1.

Lemma fresh_reachable : network_reachable (E := unit) config horizon (mkNetwork fresh ∅ None).
Proof.
  apply (reach_start _ _ (at_time t0) (mkConn [] [] []) [0] {[2; 3]}); [by_compute|by split; constructor|].
  apply ok_value_eq. by_compute.
Qed.

Lemma full_run : network_run (E := unit) (mkNetwork fresh ∅ None) (opens ++ pongs) = Ok (full, (ok_value (mkNetwork fresh ∅ None, [])
  (network_run (E := unit) (mkNetwork fresh ∅ None) (opens ++ pongs))).2).
Proof. unfold full. rewrite <- surjective_pairing. apply ok_value_eq. vm_compute. done. Qed.

Lemma full_reachable : network_reachable (E := unit) config horizon full.
Proof.
  refine (reach_run _ _ (opens ++ pongs) _ _ _ fresh_reachable _ full_run).
  apply Forall_app. split.
  - unfold opens. apply Forall_fmap, Forall_forall. intros i Hi%elem_of_seqZ. split; [apply at_time_laws|]. cbn. unfold t0, horizon. lia.
  - unfold pongs. apply Forall_fmap, Forall_forall. intros i Hi%elem_of_seqZ. split; [apply at_time_laws|]. cbn. unfold t0, horizon. lia.
Qed.

Lemma widths : u32 (cfg_max_peers config) /\ u32 (cfg_max_outbound_peers config).
Proof. by_compute. Qed.
Lemma horizon_early : horizon + ban_timeout PeerScoreConfig_default < SECS_LIMIT.
Proof. by_compute. Qed.

Lemma connections_bounded_witness : size (pr_peers (ns_registry (nw_state full))) = 20%nat /\
  exists status new_outbound, connection_status (at_time t0) (ns_registry (nw_state full)) = Ok (E := unit) status /\
    cs_unreserved_inbound status <= cs_max_inbound status /\
    cs_max_outbound status -64 cs_unreserved_outbound status = Ok (E := unit) new_outbound.
Proof.
  split; [by_compute|].
  destruct (connections_bounded (E := unit) config horizon widths horizon_early full (at_time t0) full_reachable (at_time_laws t0))
    as (status & new & H1 & H2 & H3 & _). exists status, new. exact (conj H1 (conj H2 H3)).
Defined.

Lemma eviction_protects_witness : length (filter (fun p => evictable p = true) (peer_values (at_time t0) (ns_registry (nw_state full)))) = 20%nat /\
  exists sid p, try_evict_inbound_peer (at_time t0) (ns_registry (nw_state full)) = Some sid /\
    pr_peers (ns_registry (nw_state full)) !! sid = Some p.
Proof.
  split; [by_compute|].
  destruct (eviction_protects (at_time t0) (at_time_laws t0) (ns_registry (nw_state full))
    (no_registry _ _ _ (network_reachable_ok _ _ widths horizon_early _ full_reachable))) as [Hnone Hsome].
  destruct (try_evict_inbound_peer (at_time t0) (ns_registry (nw_state full))) as [sid|] eqn:Hev.
  - destruct (Hsome sid eq_refl) as (p & _ & _ & _ & _ & Hp & _). exists sid, p. exact (conj eq_refl Hp).
  - exfalso. revert Hev. vm_compute. discriminate.
Defined.

(** Peer 3 is banned for five minutes; another peer from its address comes, is
    sent away, and a third one leaves. *)
Definition ban3 : Env * NetworkEvent := (at_time (t0 + 1000), EvBan 3 300000).
Definition banned : Network * list Command := ok_value (full, []) (network_step (E := unit) ban3.1 full ban3.2).
Definition rival : SessionContext := mkSessionContext 30 [Ip4 [10; 0; 0; 3]; Tcp 9000] Inbound (Some [30]).
Definition later : list (Env * NetworkEvent) :=
  [(at_time (t0 + 2000), EvSessionOpen rival); (at_time (t0 + 3000), EvSessionClose (peer_session 4))].
Definition after_later : Network * list Command := ok_value (banned.1, []) (network_run (E := unit) banned.1 later).

Lemma ban3_ok : event_ok horizon ban3.
Proof. split; [apply at_time_laws|by_compute]. Qed.

Lemma ban_lasts_witness : banned.2 = [Disconnect 3] /\ after_later.2 = [Disconnect 30] /\
  forall sid q, pr_peers (ns_registry (nw_state after_later.1)) !! sid = Some q ->
    extract_ip_addr_binary (p_address q) = Some [10; 0; 0; 3] -> p_is_reserved q = true \/
    exists q0, pr_peers (ns_registry (nw_state banned.1)) !! sid = Some q0 /\ same_peer q0 q.
Proof.
  assert (exists p, pr_peers (ns_registry (nw_state full)) !! 3 = Some p /\
    extract_ip_addr_binary (p_address p) = Some [10; 0; 0; 3]) as (p & Hp & Hip).
  { destruct (pr_peers (ns_registry (nw_state full)) !! 3) as [p|] eqn:Hp.
    - exists p. split; [done|]. change p with (default p (Some p)). rewrite <- Hp. vm_compute. done.
    - exfalso. revert Hp. vm_compute. discriminate. }
  assert (network_step (E := unit) ban3.1 full ban3.2 = Ok (banned.1, banned.2)) as Hstep.
  { rewrite <- surjective_pairing. apply ok_value_eq. vm_compute. done. }
  assert (network_run (E := unit) banned.1 later = Ok (after_later.1, after_later.2)) as Hrun.
  { rewrite <- surjective_pairing. apply ok_value_eq. vm_compute. done. }
  destruct (ban_lasts (E := unit) config horizon widths horizon_early full ban3.1 3 300000 banned.1 banned.2 p [10; 0; 0; 3]
    later after_later.1 after_later.2 full_reachable ban3_ok Hp Hip Hstep) as (H1 & _ & H3); [|exact Hrun|].
  - repeat constructor; try apply at_time_laws; try done; vm_compute; done.
  - refine (conj H1 (conj _ H3)). vm_compute. done.
Defined.

Lemma banned_reachable : network_reachable (E := unit) config horizon banned.1.
Proof.
  refine (reach_step _ _ _ _ _ _ banned.2 full_reachable ban3_ok _). rewrite <- surjective_pairing.
  apply ok_value_eq. vm_compute. done.
Qed.

Lemma bans_survive_restart_witness :
  let old := ns_store (nw_state banned.1) in
  let new := PeerStore_new (at_time horizon) (ps_conn old) PeerScoreConfig_default in
  let new' := PeerStore_new (at_time (t0 + 2000)) (ps_conn old) PeerScoreConfig_default in
  peer_addr (ps_conn new) = peer_addr (ps_conn old) /\
  is_banned (at_time (t0 + 299000)) new' [Ip4 [10; 0; 0; 3]] = true /\
  (is_banned (at_time horizon) new [Ip4 [10; 0; 0; 3]] = true <-> exists ip t, extract_ip_addr_binary [Ip4 [10; 0; 0; 3]] = Some ip /\
    ps_ban_list old !! ip = Some t /\ env_now (at_time horizon) / 1000 < t / 1000).
Proof.
  cbv zeta. destruct (bans_survive_restart (E := unit) config horizon widths horizon_early banned.1 (at_time horizon) (at_time horizon)
    PeerScoreConfig_default [Ip4 [10; 0; 0; 3]] banned_reachable) as (H1 & H2 & _); [done|done|done|].
  refine (conj H2 (conj _ H1)). vm_compute. done.
Defined.

(** A peer is discovered, and the service feels for peers. *)
Definition discovered : NetworkState :=
  (ok_value (nw_state full, []) (network_handle (E := unit) (at_time (t0 + 500)) (nw_state full)
    (EvRemoteListenAddrs [50] [[Ip4 [11; 0; 0; 1]; Tcp 8115]]))).1.
Definition felt : NetworkState * list Command :=
  ok_value (discovered, []) (dial_peers (E := unit) (at_time (t0 + 600)) discovered true 5).

Lemma feelers_never_dialled_witness : is_feeler (ns_registry felt.1) [50] = true /\ felt.2 = [] /\
  ns_dialing felt.1 = ns_dialing discovered.
Proof.
  assert (dial_peers (E := unit) (at_time (t0 + 600)) discovered true 5 = Ok (felt.1, felt.2)) as H.
  { rewrite <- surjective_pairing. apply ok_value_eq. vm_compute. done. }
  destruct (feelers_never_dialled _ _ _ _ _ H) as (n & store & offered & _ & Hcs & Hdial & _).
  refine (conj _ (conj Hcs Hdial)). vm_compute. done.
Defined.

Lemma removed_peer_not_redialled_witness : exists p nw' cs,
  pr_peers (ns_registry (nw_state full)) !! 5 = Some p /\
  network_run (E := unit) full [(at_time t0, EvPingFailed (p_peer_id p));
    (at_time t0, EvSessionClose (mkSessionContext 5 [] Inbound (Some (p_peer_id p))))] = Ok (nw', cs) /\
  cs = [Disconnect 5] /\ pr_peers (ns_registry (nw_state nw')) !! 5 = None.
Proof.
  destruct (pr_peers (ns_registry (nw_state full)) !! 5) as [p|] eqn:Hp; [|exfalso; revert Hp; vm_compute; discriminate].
  assert (p_peer_id p = [5]) as Hid by (change p with (default p (Some p)); rewrite <- Hp; vm_compute; done).
  set (run := network_run (E := unit) full [(at_time t0, EvPingFailed (p_peer_id p));
    (at_time t0, EvSessionClose (mkSessionContext 5 [] Inbound (Some (p_peer_id p))))]).
  assert (run = Ok ((ok_value (full, []) run).1, (ok_value (full, []) run).2)) as Hrun.
  { rewrite <- surjective_pairing. apply ok_value_eq. unfold run. rewrite Hid. vm_compute. done. }
  destruct (removed_peer_not_redialled (E := unit) full (at_time t0) (at_time t0) 5 p [] Inbound
    (ok_value (full, []) run).1 (ok_value (full, []) run).2
    (no_registry _ _ _ (network_reachable_ok _ _ widths horizon_early _ full_reachable)) (at_time_laws t0) Hp) as (H1 & H2 & _);
    [by_compute|rewrite Hid; vm_compute; done|exact Hrun|].
  exists p. do 2 eexists. exact (conj eq_refl (conj Hrun (conj H1 H2))).
Defined.
End NetworkExample.
