(* ===== verification/FlatBody.v ===== *)
(** * Block bodies as flat bytes

    [store/src/flat_block_body.rs]: every field of every transaction is encoded
    on its own and the encodings are concatenated; the addresses that are computed
    beside them make it possible to read one transaction, one output or the hash
    of a transaction without the rest.  The encodings are those of the package
    [bincode]. *)
From S2P Require Import Prelude Capacity ByteStrings Transactions.

(** An encoding: [enc] is [serialize], its length is [serialized_size], and
    [dec] is [deserialize], which ignores the bytes behind a value. *)
Record Codec (A : Type) := mkCodec { enc : A -> Bytes; dec : Bytes -> option A }.
Arguments mkCodec {A} _ _.
Arguments enc {A} _ _.
Arguments dec {A} _ _.

Definition codec_ok {A} (c : Codec A) : Prop := forall a rest, dec c (enc c a ++ rest) = Some a.

(** The encodings of the fields of a transaction. *)
Class BodyCodecs := {
  c_fields : Codec (list Z);
  c_version : Codec Z;
  c_deps : Codec (list OutPoint);
  c_inputs : Codec (list CellInput);
  c_output : Codec CellOutput;
  c_witnesses : Codec (list (list Bytes));
  c_h256 : Codec H256
}.

(** Values are read back, and an array of nine [usize] has one size. *)
Class BodyCodecsLaws `{BodyCodecs} : Prop := {
  fields_ok : codec_ok c_fields;
  version_ok : codec_ok c_version;
  deps_ok : codec_ok c_deps;
  inputs_ok : codec_ok c_inputs;
  output_ok : codec_ok c_output;
  witnesses_ok : codec_ok c_witnesses;
  h256_ok : codec_ok c_h256;
  fields_size l1 l2 : length l1 = 9%nat -> length l2 = 9%nat -> len (enc c_fields l1) = len (enc c_fields l2)
}.

(** ** Addresses *)
Inductive BincodeError := DeserializeError.
Definition TRANSACTION_FIELDS_SIZE : nat := 9.
Definition TRANSACTION_TOTAL_SIZE_INDEX : nat := 0.
Definition TRANSACTION_OUTPUTS_INDEX : nat := 4.
Definition TRANSACTION_HASH_INDEX : nat := 6.

Record CellOutputAddress := mkOutputAddress { oa_offset : Z; oa_length : Z }.
Record TransactionAddressInner := mkAddressInner {
  ta_index : Z;
  ta_offset : Z;
  ta_length : Z;
  ta_header : list Z;
  ta_outputs_addresses : list CellOutputAddress
}.
Record TransactionAddressStored := mkAddressStored {
  ts_inner : TransactionAddressInner; ts_block_hash : H256 }.

Definition into_stored (self : TransactionAddressInner) (block_hash : H256) : TransactionAddressStored :=
  mkAddressStored self block_hash.

(** [bytes.get(a..b)]. *)
Definition get_range (bytes : Bytes) (a b : Z) : option Bytes :=
  if decide (a <= b <= len bytes) then Some (take (Z.to_nat (b - a)) (drop (Z.to_nat a) bytes)) else None.

Section flat_body.
Context `{BodyCodecs}.
Local Abbreviation result := (outcome BincodeError).

Definition deserialize {A} (c : Codec A) (bytes : Bytes) : result A := ok_or (dec c bytes) DeserializeError.
Definition serialized_size {A} (c : Codec A) (a : A) : Z := len (enc c a).
(** [&bytes[a..b]] and [&bytes[a..]]. *)
Definition slice_range (bytes : Bytes) (a b : Z) : result Bytes := expect (get_range bytes a b).
Definition slice_from (bytes : Bytes) (a : Z) : result Bytes := slice_range bytes a (len bytes).

(** ** Sizes *)
Definition push_output (acc : Z * list CellOutputAddress) (size : Z) : result (Z * list CellOutputAddress) :=
  let '(offset, addresses) := acc in
  next ← offset +64 size;
  Ok (next, addresses ++ [mkOutputAddress offset size]).

Definition push_field (header : list Z) (p : nat * Z) : result (list Z) :=
  let '(idx, size) := p in
  start ← expect (header !! idx);
  next ← start +64 size;
  let header := <[S idx := next]> header in
  total ← expect (header !! TRANSACTION_TOTAL_SIZE_INDEX);
  total ← total +64 size;
  Ok (<[TRANSACTION_TOTAL_SIZE_INDEX := total]> header).

Definition serialized_transaction_size (tx : Transaction) : result (list Z * list CellOutputAddress) :=
  let header := replicate TRANSACTION_FIELDS_SIZE 0 in
  '(size_outputs, output_addresses) ←
    try_fold push_output (0, []) (serialized_size c_output <$> tx_outputs tx);
  header ← try_fold push_field header (enumerate
    [serialized_size c_fields header;
     serialized_size c_version (tx_version tx);
     serialized_size c_deps (tx_deps tx);
     serialized_size c_inputs (tx_inputs tx);
     size_outputs;
     serialized_size c_witnesses (tx_witnesses tx);
     serialized_size c_h256 (tx_hash tx);
     serialized_size c_h256 (tx_witness_hash tx)]);
  base ← expect (header !! TRANSACTION_OUTPUTS_INDEX);
  output_addresses ← try_map (fun addr =>
    offset ← oa_offset addr +64 base;
    Ok (mkOutputAddress offset (oa_length addr))) output_addresses;
  Ok (header, output_addresses).

Definition push_address (acc : Z * list TransactionAddressInner)
    (p : nat * (list Z * list CellOutputAddress)) : result (Z * list TransactionAddressInner) :=
  let '(offset, addresses) := acc in
  let '(index, (header, outputs_addresses)) := p in
  length ← expect (header !! TRANSACTION_TOTAL_SIZE_INDEX);
  next ← offset +64 length;
  Ok (next, addresses ++ [mkAddressInner (Z.of_nat index) offset length header outputs_addresses]).

Definition serialize_block_body_size (txs : list Transaction) : result (Z * list TransactionAddressInner) :=
  tx_indexes ← try_map serialized_transaction_size txs;
  try_fold push_address (0, []) (enumerate tx_indexes).

(** ** Bytes *)
Definition serialize_transaction (header : list Z) (tx : Transaction) : Bytes :=
  enc c_fields header ++ enc c_version (tx_version tx) ++ enc c_deps (tx_deps tx)
  ++ enc c_inputs (tx_inputs tx) ++ concat (enc c_output <$> tx_outputs tx)
  ++ enc c_witnesses (tx_witnesses tx) ++ enc c_h256 (tx_hash tx) ++ enc c_h256 (tx_witness_hash tx).

Definition serialize_block_body (txs : list Transaction) : result (Bytes * list TransactionAddressInner) :=
  '(total_size, tx_addresses) ← serialize_block_body_size txs;
  bytes ← try_fold (fun bytes '(idx, tx) =>
    address ← expect (tx_addresses !! idx);
    Ok (bytes ++ serialize_transaction (ta_header address) tx)) [] (enumerate txs);
  Ok (bytes, tx_addresses).

Definition deserialize_output (tx : Bytes) (addr : CellOutputAddress) : result CellOutput :=
  stop ← oa_offset addr +64 oa_length addr;
  bytes ← slice_range tx (oa_offset addr) stop;
  deserialize c_output bytes.

(** The field of a transaction at an index of its header. *)
Definition deserialize_field {A} (c : Codec A) (tx : Bytes) (header : list Z) (index : nat) : result A :=
  start ← expect (header !! index);
  bytes ← slice_from tx start;
  deserialize c bytes.

Definition deserialize_transaction (tx : Bytes) (output_addresses : list CellOutputAddress)
    : result Transaction :=
  header ← deserialize c_fields tx;
  version ← deserialize_field c_version tx header 1;
  deps ← deserialize_field c_deps tx header 2;
  inputs ← deserialize_field c_inputs tx header 3;
  outputs ← try_map (deserialize_output tx) output_addresses;
  witnesses ← deserialize_field c_witnesses tx header 5;
  hash ← deserialize_field c_h256 tx header TRANSACTION_HASH_INDEX;
  witness_hash ← deserialize_field c_h256 tx header 7;
  Ok (mkTransaction version deps inputs outputs witnesses hash witness_hash).

Definition deserialize_transaction_hash (tx : Bytes) : result H256 :=
  header ← deserialize c_fields tx;
  deserialize_field c_h256 tx header TRANSACTION_HASH_INDEX.

Definition transaction_slice (bytes : Bytes) (addr : TransactionAddressInner) : result Bytes :=
  stop ← ta_offset addr +64 ta_length addr;
  slice_range bytes (ta_offset addr) stop.

Definition deserialize_block_body (bytes : Bytes) (tx_addresses : list TransactionAddressInner)
    : result (list Transaction) :=
  try_map (fun addr =>
    tx ← transaction_slice bytes addr;
    deserialize_transaction tx (ta_outputs_addresses addr)) tx_addresses.

Definition deserialize_block_body_for_hashes_only (bytes : Bytes)
    (tx_addresses : list TransactionAddressInner) : result (list H256) :=
  try_map (fun addr =>
    tx ← transaction_slice bytes addr;
    deserialize_transaction_hash tx) tx_addresses.
End flat_body.

(** ** What is written, in closed form *)
Section written.
Context `{BodyCodecs}.

Fixpoint output_addresses_from (start : Z) (sizes : list Z) : list CellOutputAddress :=
  match sizes with
  | [] => []
  | size :: sizes => mkOutputAddress start size :: output_addresses_from (start + size) sizes
  end.

Definition field_sizes (tx : Transaction) : list Z :=
  [serialized_size c_fields (replicate 9 0); serialized_size c_version (tx_version tx);
   serialized_size c_deps (tx_deps tx); serialized_size c_inputs (tx_inputs tx);
   sum_z (serialized_size c_output <$> tx_outputs tx);
   serialized_size c_witnesses (tx_witnesses tx);
   serialized_size c_h256 (tx_hash tx); serialized_size c_h256 (tx_witness_hash tx)].

Definition tx_size (tx : Transaction) : Z := sum_z (field_sizes tx).
Definition field_start (tx : Transaction) (n : nat) : Z := sum_z (take n (field_sizes tx)).
Definition tx_header (tx : Transaction) : list Z := tx_size tx :: (field_start tx <$> seq 1 8).
Definition tx_outputs_addresses (tx : Transaction) : list CellOutputAddress :=
  output_addresses_from (field_start tx 4) (serialized_size c_output <$> tx_outputs tx).
Definition tx_bytes (tx : Transaction) : Bytes := serialize_transaction (tx_header tx) tx.

Fixpoint addresses_from (index start : Z) (txs : list Transaction) : list TransactionAddressInner :=
  match txs with
  | [] => []
  | tx :: txs =>
      mkAddressInner index start (tx_size tx) (tx_header tx) (tx_outputs_addresses tx)
      :: addresses_from (index + 1) (start + tx_size tx) txs
  end.
Definition body_size (txs : list Transaction) : Z := sum_z (tx_size <$> txs).
Definition body_bytes (txs : list Transaction) : Bytes := concat (tx_bytes <$> txs).
(** The body has a length that is a [usize]. *)
Definition body_fits (txs : list Transaction) : Prop := body_size txs < U64_SIZE.
End written.

(** ** Lemmas *)
Section sizes.
Context `{HC : BodyCodecs}.

Lemma size_nonneg {A} (c : Codec A) a : 0 <= serialized_size c a.
Proof. apply len_nonneg. Qed.

Lemma sizes_nonneg {A} (c : Codec A) l : Forall (fun x => 0 <= x) (serialized_size c <$> l).
Proof. apply Forall_fmap, Forall_true. intros. apply size_nonneg. Qed.

Lemma field_sizes_nonneg tx : Forall (fun x => 0 <= x) (field_sizes tx).
Proof.
  repeat (constructor; [first [apply size_nonneg|apply sum_z_nonneg, sizes_nonneg]|]). constructor.
Qed.

Lemma sum_z_firstn n l : Forall (fun x => 0 <= x) l -> 0 <= sum_z (take n l) <= sum_z l.
Proof.
  intros Hl. rewrite <- (take_drop n l) in Hl at 1. apply Forall_app in Hl as [H1 H2].
  rewrite <- (take_drop n l) at 3. rewrite sum_z_app.
  pose proof (sum_z_nonneg _ H1). pose proof (sum_z_nonneg _ H2). lia.
Qed.

Lemma field_start_bound tx n : 0 <= field_start tx n <= tx_size tx.
Proof. apply sum_z_firstn, field_sizes_nonneg. Qed.

Lemma tx_size_nonneg tx : 0 <= tx_size tx.
Proof. apply sum_z_nonneg, field_sizes_nonneg. Qed.

Lemma push_outputs start acc sizes :
  Forall (fun x => 0 <= x) sizes -> start + sum_z sizes < U64_SIZE ->
  try_fold push_output (start, acc) sizes
  = Ok (start + sum_z sizes, acc ++ output_addresses_from start sizes).
Proof.
  intros Hs. revert start acc. induction Hs as [|size sizes Hz Hs IH]; intros start acc Hlt; simpl in *.
  - by rewrite Z.add_0_r, app_nil_r.
  - pose proof (sum_z_nonneg _ Hs). outcome_arith. rewrite IH by lia.
    rewrite <- app_assoc. do 2 f_equal. lia.
Qed.

Lemma shift_outputs base start sizes :
  0 <= base -> Forall (fun x => 0 <= x) sizes -> base + start + sum_z sizes < U64_SIZE ->
  try_map (fun addr => offset ← oa_offset addr +64 base;
    Ok (E := BincodeError) (mkOutputAddress offset (oa_length addr))) (output_addresses_from start sizes)
  = Ok (output_addresses_from (base + start) sizes).
Proof.
  intros Hb Hs. revert start. induction Hs as [|size sizes Hz Hs IH]; intros start Hlt; simpl in *; [done|].
  pose proof (sum_z_nonneg _ Hs). outcome_arith. rewrite IH by lia. simpl.
  by rewrite (Z.add_comm start), Z.add_assoc.
Qed.

Lemma push_fields a b c d e f g h :
  Forall (fun x => 0 <= x) [a; b; c; d; e; f; g; h] -> sum_z [a; b; c; d; e; f; g; h] < U64_SIZE ->
  try_fold push_field (replicate 9 0) (enumerate [a; b; c; d; e; f; g; h])
  = Ok (sum_z [a; b; c; d; e; f; g; h]
        :: ((fun n => sum_z (take n [a; b; c; d; e; f; g; h])) <$> seq 1 8)).
Proof.
  intros Hpos Hlt. repeat (apply Forall_cons in Hpos as [? Hpos]). simpl in Hlt.
  cbn -[Z.add add_w sum_z]. repeat (outcome_arith; cbn -[Z.add add_w sum_z]).
  cbn [sum_z foldr take fmap list_fmap seq].
  f_equal. repeat (apply (f_equal2 cons); [lia|]). done.
Qed.

Lemma serialized_transaction_size_eq tx :
  tx_size tx < U64_SIZE ->
  serialized_transaction_size tx = Ok (tx_header tx, tx_outputs_addresses tx).
Proof.
  intros Hlt. pose proof (field_sizes_nonneg tx) as Hpos.
  pose proof (field_start_bound tx 4) as Hb4. pose proof (field_start_bound tx 5) as Hb5.
  assert (field_start tx 5 = field_start tx 4 + sum_z (serialized_size c_output <$> tx_outputs tx)) as H5.
  { unfold field_start, field_sizes. cbn [take sum_z foldr]. lia. }
  unfold serialized_transaction_size. rewrite push_outputs; [|apply sizes_nonneg|lia].
  cbn beta iota delta [mbind outcome_bind]. rewrite app_nil_l, Z.add_0_l, push_fields by done.
  cbn beta iota delta [mbind outcome_bind]. change (expect _) with (Ok (E := BincodeError) (field_start tx 4)).
  cbn beta iota delta [mbind outcome_bind].
  rewrite shift_outputs; [|lia|apply sizes_nonneg|lia]. by rewrite Z.add_0_r.
Qed.
End sizes.

Section body.
Context `{HC : BodyCodecs} `{!BodyCodecsLaws}.

Lemma len_concat {A} (l : list (list A)) : len (concat l) = sum_z (len <$> l).
Proof. induction l as [|x l IH]; simpl; [done|]. by rewrite len_app, IH. Qed.

Lemma tx_bytes_size tx : len (tx_bytes tx) = tx_size tx.
Proof.
  unfold tx_bytes, serialize_transaction, tx_size, field_sizes, serialized_size. rewrite !len_app.
  rewrite (fields_size (tx_header tx) (replicate 9 0)) by done. rewrite len_concat, <- list_fmap_compose.
  cbn [sum_z foldr]. unfold compose. lia.
Qed.

Lemma body_bytes_size txs : len (body_bytes txs) = body_size txs.
Proof.
  unfold body_bytes, body_size. rewrite len_concat, <- list_fmap_compose. f_equal.
  apply list_fmap_ext. intros i tx _. apply tx_bytes_size.
Qed.

Lemma body_size_nonneg txs : 0 <= body_size txs.
Proof. rewrite <- body_bytes_size. apply len_nonneg. Qed.

Lemma body_size_cons tx txs : body_size (tx :: txs) = tx_size tx + body_size txs.
Proof. done. Qed.

Lemma tx_fits tx txs : body_fits txs -> tx ∈ txs -> tx_size tx < U64_SIZE.
Proof.
  unfold body_fits. intros Hf (l1 & l2 & ->)%list_elem_of_split.
  unfold body_size in Hf. rewrite fmap_app, fmap_cons, sum_z_app in Hf. cbn [sum_z foldr] in Hf.
  pose proof (body_size_nonneg l1) as H1. pose proof (body_size_nonneg l2) as H2. unfold body_size in H1, H2. unfold sum_z in *. lia.
Qed.

Lemma push_addresses start acc (txs : list Transaction) (k : nat) :
  0 <= start -> start + body_size txs < U64_SIZE ->
  try_fold push_address (start, acc)
    (imap (fun i tx => ((k + i)%nat, (tx_header tx, tx_outputs_addresses tx))) txs)
  = Ok (start + body_size txs, acc ++ addresses_from (Z.of_nat k) start txs).
Proof.
  revert start acc k. induction txs as [|tx txs IH]; intros start acc k H0 Hlt.
  { simpl. by rewrite Z.add_0_r, app_nil_r. }
  rewrite body_size_cons in *. pose proof (tx_size_nonneg tx). pose proof (body_size_nonneg txs).
  cbn [imap try_fold push_address]. change (expect _) with (Ok (E := BincodeError) (tx_size tx)).
  outcome_arith. rewrite (imap_ext _ (fun i tx => ((S k + i)%nat, (tx_header tx, tx_outputs_addresses tx))))
    by (intros; simpl; do 2 f_equal; lia).
  rewrite IH by lia. rewrite <- app_assoc, Z.add_assoc, Nat.add_0_r, Nat2Z.inj_succ. done.
Qed.

Lemma serialize_block_body_size_eq txs :
  body_fits txs -> serialize_block_body_size txs = Ok (body_size txs, addresses_from 0 0 txs).
Proof.
  intros Hf. unfold serialize_block_body_size.
  assert (try_map serialized_transaction_size txs
    = Ok ((fun tx => (tx_header tx, tx_outputs_addresses tx)) <$> txs)) as ->.
  { apply try_map_Ok, Forall2_fmap_r, Forall_Forall2_diag, Forall_forall. intros tx Hin.
    by apply serialized_transaction_size_eq, (tx_fits _ txs). }
  rewrite bind_ret_l. unfold enumerate. rewrite imap_fmap.
  apply (push_addresses 0 [] txs 0); [lia|exact Hf].
Qed.

Lemma addresses_from_lookup index start txs k :
  addresses_from index start txs !! k =
  (fun tx => mkAddressInner (index + Z.of_nat k) (start + body_size (take k txs)) (tx_size tx)
    (tx_header tx) (tx_outputs_addresses tx)) <$> txs !! k.
Proof.
  revert index start k. induction txs as [|tx txs IH]; intros index start k; [done|].
  destruct k as [|k]; simpl; [by rewrite !Z.add_0_r|]. rewrite IH, body_size_cons, Z.add_assoc.
  replace (index + 1 + Z.of_nat k) with (index + Z.of_nat (S k)) by lia. done.
Qed.

Lemma write_transactions (addresses : list TransactionAddressInner) (txs : list Transaction) (k : nat) bytes :
  (forall i tx, txs !! i = Some tx -> exists a, addresses !! (k + i)%nat = Some a /\ ta_header a = tx_header tx) ->
  try_fold (fun bytes '(idx, tx) =>
    address ← expect (addresses !! idx);
    Ok (E := BincodeError) (bytes ++ serialize_transaction (ta_header address) tx)) bytes
    (imap (fun i tx => ((k + i)%nat, tx)) txs)
  = Ok (bytes ++ body_bytes txs).
Proof.
  revert k bytes. induction txs as [|tx txs IH]; intros k bytes Ha; [cbn; by rewrite app_nil_r|].
  cbn [imap try_fold]. destruct (Ha 0%nat tx eq_refl) as (a & -> & Hh). cbn [expect]. rewrite !bind_ret_l, Hh.
  rewrite (imap_ext _ (fun i tx => ((S k + i)%nat, tx))) by (intros; simpl; f_equal; lia).
  rewrite IH; [unfold body_bytes; cbn; by rewrite <- app_assoc|].
  intros i tx' Hi. rewrite Nat.add_succ_comm. by apply Ha.
Qed.

(** What the store writes for a body. *)
Lemma serialize_block_body_eq txs :
  body_fits txs -> serialize_block_body txs = Ok (body_bytes txs, addresses_from 0 0 txs).
Proof.
  intros Hf. unfold serialize_block_body. rewrite serialize_block_body_size_eq by done.
  rewrite bind_ret_l. unfold enumerate.
  change (imap pair txs) with (imap (fun i tx => ((0 + i)%nat, tx)) txs).
  rewrite (write_transactions _ txs 0); [done|].
  intros i tx Hi. simpl. rewrite addresses_from_lookup, Hi. by eexists.
Qed.
End body.

(** ** Reading *)
Lemma get_range_mid pre mid post a b :
  a = len pre -> b = a + len mid -> get_range (pre ++ mid ++ post) a b = Some mid.
Proof.
  intros -> ->. unfold get_range. rewrite !len_app. pose proof (len_nonneg mid). pose proof (len_nonneg post).
  rewrite decide_True by lia. f_equal. replace (len pre + len mid - len pre) with (len mid) by lia.
  unfold len. by rewrite !Nat2Z.id, drop_app_length, take_app_length.
Qed.

Section reading.
Context `{HC : BodyCodecs} `{HL : !BodyCodecsLaws}.

Lemma slice_from_app pre rest : slice_from (pre ++ rest) (len pre) = Ok rest.
Proof.
  unfold slice_from, slice_range. rewrite <- (app_nil_r rest) at 1.
  rewrite (get_range_mid pre rest []); [done..|]. by rewrite len_app.
Qed.

Lemma deserialize_field_ok {A} (c : Codec A) pre a post header i :
  codec_ok c -> header !! i = Some (len pre) ->
  deserialize_field c (pre ++ enc c a ++ post) header i = Ok a.
Proof.
  intros Hc Hi. unfold deserialize_field. rewrite Hi. cbn [expect]. rewrite bind_ret_l, slice_from_app.
  rewrite bind_ret_l. unfold deserialize. by rewrite Hc.
Qed.

Definition tx_fields (tx : Transaction) : list Bytes :=
  [enc c_fields (tx_header tx); enc c_version (tx_version tx); enc c_deps (tx_deps tx);
   enc c_inputs (tx_inputs tx); concat (enc c_output <$> tx_outputs tx);
   enc c_witnesses (tx_witnesses tx); enc c_h256 (tx_hash tx); enc c_h256 (tx_witness_hash tx)].

Lemma tx_bytes_fields tx : tx_bytes tx = concat (tx_fields tx).
Proof. unfold tx_bytes, serialize_transaction, tx_fields. cbn [concat]. by rewrite app_nil_r. Qed.

Lemma tx_fields_sizes tx : len <$> tx_fields tx = field_sizes tx.
Proof.
  unfold tx_fields, field_sizes, serialized_size. cbn [fmap list_fmap].
  rewrite (fields_size (tx_header tx) (replicate 9 0)) by done. by rewrite len_concat, <- list_fmap_compose.
Qed.

Lemma field_start_len tx n : field_start tx n = len (concat (take n (tx_fields tx))).
Proof. unfold field_start. by rewrite <- tx_fields_sizes, <- fmap_take, len_concat. Qed.

Lemma tx_bytes_split tx n field :
  tx_fields tx !! n = Some field ->
  tx_bytes tx = concat (take n (tx_fields tx)) ++ field ++ concat (drop (S n) (tx_fields tx)).
Proof.
  intros Hf. rewrite tx_bytes_fields. rewrite <- (take_drop_middle _ _ _ Hf) at 1.
  by rewrite concat_app.
Qed.

Lemma read_field {A} (c : Codec A) tx n a :
  codec_ok c -> tx_fields tx !! n = Some (enc c a) -> (1 <= n)%nat ->
  deserialize_field c (tx_bytes tx) (tx_header tx) n = Ok a.
Proof.
  intros Hc Hf Hn. rewrite (tx_bytes_split _ _ _ Hf). apply deserialize_field_ok; [done|].
  apply lookup_lt_Some in Hf. change (length (tx_fields tx)) with 8%nat in Hf.
  rewrite <- field_start_len. unfold tx_header. destruct n as [|n]; [lia|].
  rewrite lookup_cons_ne_0, Nat.pred_succ, list_lookup_fmap, lookup_seq_lt by lia. done.
Qed.

Lemma dec_enc {A} (c : Codec A) a : codec_ok c -> dec c (enc c a) = Some a.
Proof. intros Hc. rewrite <- (app_nil_r (enc c a)). apply Hc. Qed.

Lemma read_output pre o post :
  len pre + serialized_size c_output o < U64_SIZE ->
  deserialize_output (pre ++ enc c_output o ++ post)
    (mkOutputAddress (len pre) (serialized_size c_output o)) = Ok o.
Proof.
  intros Hlt. unfold deserialize_output. cbn [oa_offset oa_length]. rewrite add_w_eq, bind_ret_l by lia.
  unfold slice_range. rewrite get_range_mid by done. cbn [expect]. rewrite bind_ret_l.
  unfold deserialize. by rewrite dec_enc by apply output_ok.
Qed.

Lemma read_outputs pre outputs post start :
  start = len pre -> len (pre ++ concat (enc c_output <$> outputs) ++ post) < U64_SIZE ->
  try_map (deserialize_output (pre ++ concat (enc c_output <$> outputs) ++ post))
    (output_addresses_from start (serialized_size c_output <$> outputs)) = Ok outputs.
Proof.
  intros ->. revert pre. induction outputs as [|o outputs IH]; intros pre Hlt; [done|].
  cbn [fmap list_fmap concat output_addresses_from try_map] in *. rewrite <- app_assoc in *.
  pose proof (len_nonneg (concat (enc c_output <$> outputs) ++ post)) as Hr.
  rewrite read_output, bind_ret_l by (rewrite !(len_app pre), !(len_app (enc _ _)) in Hlt; unfold serialized_size; lia).
  specialize (IH (pre ++ enc c_output o)). rewrite <- app_assoc in IH.
  change (serialized_size c_output o) with (len (enc c_output o)). rewrite <- len_app. by rewrite IH.
Qed.

Lemma deserialize_tx_bytes tx :
  tx_size tx < U64_SIZE ->
  deserialize_transaction (tx_bytes tx) (tx_outputs_addresses tx) = Ok tx.
Proof.
  intros Hlt. unfold deserialize_transaction.
  assert (deserialize c_fields (tx_bytes tx) = Ok (tx_header tx)) as ->.
  { unfold deserialize, tx_bytes, serialize_transaction. by rewrite fields_ok. }
  rewrite bind_ret_l.
  rewrite (read_field _ tx 1 (tx_version tx)) by (done || apply version_ok || lia).
  rewrite bind_ret_l, (read_field _ tx 2 (tx_deps tx)) by (done || apply deps_ok || lia).
  rewrite bind_ret_l, (read_field _ tx 3 (tx_inputs tx)) by (done || apply inputs_ok || lia).
  rewrite bind_ret_l. unfold tx_outputs_addresses.
  rewrite (tx_bytes_split tx 4 (concat (enc c_output <$> tx_outputs tx))) at 1 by done.
  rewrite read_outputs; [|apply field_start_len|by rewrite <- tx_bytes_split, tx_bytes_size].
  rewrite bind_ret_l, (read_field _ tx 5 (tx_witnesses tx)) by (done || apply witnesses_ok || lia).
  rewrite bind_ret_l, (read_field _ tx TRANSACTION_HASH_INDEX (tx_hash tx))
    by (done || apply h256_ok || (unfold TRANSACTION_HASH_INDEX; lia)).
  rewrite bind_ret_l, (read_field _ tx 7 (tx_witness_hash tx)) by (done || apply h256_ok || lia).
  rewrite bind_ret_l. by destruct tx.
Qed.

Lemma deserialize_tx_hash tx : deserialize_transaction_hash (tx_bytes tx) = Ok (tx_hash tx).
Proof.
  unfold deserialize_transaction_hash.
  assert (deserialize c_fields (tx_bytes tx) = Ok (tx_header tx)) as ->.
  { unfold deserialize, tx_bytes, serialize_transaction. by rewrite fields_ok. }
  rewrite bind_ret_l. apply read_field; [apply h256_ok|done|unfold TRANSACTION_HASH_INDEX; lia].
Qed.
End reading.

Section body_reading.
Context `{HC : BodyCodecs} `{HL : !BodyCodecsLaws}.

Lemma body_split txs i tx :
  txs !! i = Some tx ->
  body_bytes txs = body_bytes (take i txs) ++ tx_bytes tx ++ body_bytes (drop (S i) txs).
Proof.
  intros Hi. rewrite <- (take_drop_middle _ _ _ Hi) at 1. unfold body_bytes.
  by rewrite fmap_app, concat_app.
Qed.

Lemma body_offset_fits txs i tx :
  body_fits txs -> txs !! i = Some tx -> 0 <= body_size (take i txs) /\ body_size (take i txs) + tx_size tx < U64_SIZE.
Proof.
  unfold body_fits. intros Hf Hi. rewrite <- body_bytes_size, (body_split _ _ _ Hi), !len_app in Hf.
  rewrite !body_bytes_size, tx_bytes_size in Hf. pose proof (body_size_nonneg (drop (S i) txs)).
  pose proof (body_size_nonneg (take i txs)). lia.
Qed.

(** The bytes an address of the body names are those of the transaction. *)
Lemma read_body_tx txs i a :
  body_fits txs -> addresses_from 0 0 txs !! i = Some a ->
  exists tx, txs !! i = Some tx /\ ta_outputs_addresses a = tx_outputs_addresses tx /\
    ta_offset a + ta_length a < U64_SIZE /\
    get_range (body_bytes txs) (ta_offset a) (ta_offset a + ta_length a) = Some (tx_bytes tx).
Proof.
  intros Hf Ha. rewrite addresses_from_lookup in Ha. destruct (txs !! i) as [tx|] eqn:Hi; [|done].
  injection Ha as <-. cbn [ta_offset ta_length ta_outputs_addresses].
  destruct (body_offset_fits _ _ _ Hf Hi). exists tx. split_and!; [done..|lia|].
  rewrite (body_split _ _ _ Hi). apply get_range_mid; by rewrite ?body_bytes_size, ?tx_bytes_size.
Qed.

Lemma output_addresses_lookup start sizes j :
  output_addresses_from start sizes !! j =
  (fun size => mkOutputAddress (start + sum_z (take j sizes)) size) <$> sizes !! j.
Proof.
  revert start j. induction sizes as [|size sizes IH]; intros start j; [done|].
  destruct j as [|j]; cbn [output_addresses_from lookup list_lookup take sum_z foldr fmap option_fmap option_map].
  - by rewrite Z.add_0_r.
  - etransitivity; [apply IH|]. by rewrite Z.add_assoc.
Qed.

Lemma tx_output_split tx j o :
  tx_outputs tx !! j = Some o -> exists pre post,
    tx_bytes tx = pre ++ enc c_output o ++ post /\
    tx_outputs_addresses tx !! j = Some (mkOutputAddress (len pre) (serialized_size c_output o)).
Proof.
  intros Ho. unfold tx_outputs_addresses. rewrite output_addresses_lookup, list_lookup_fmap, Ho. cbn [fmap option_fmap option_map].
  set (outs := enc c_output <$> tx_outputs tx).
  assert (outs !! j = Some (enc c_output o)) as Hj by (unfold outs; by rewrite list_lookup_fmap, Ho).
  eexists (concat (take 4 (tx_fields tx)) ++ concat (take j outs)),
    (concat (drop (S j) outs) ++ concat (drop 5 (tx_fields tx))). split.
  - rewrite (tx_bytes_split tx 4 (concat outs)) by done.
    rewrite <- (take_drop_middle _ _ _ Hj) at 1. rewrite concat_app. cbn [concat]. by rewrite <- !app_assoc.
  - rewrite len_app, <- field_start_len. do 3 f_equal. unfold outs.
    by rewrite len_concat, <- !fmap_take, <- list_fmap_compose.
Qed.

(** And so are the bytes of one output. *)
Lemma read_body_output txs i a tx j addr :
  body_fits txs -> addresses_from 0 0 txs !! i = Some a -> txs !! i = Some tx ->
  ta_outputs_addresses a !! j = Some addr -> exists o,
    tx_outputs tx !! j = Some o /\
    ta_offset a + oa_offset addr + oa_length addr < U64_SIZE /\ 0 <= oa_length addr /\
    get_range (body_bytes txs) (ta_offset a + oa_offset addr)
      (ta_offset a + oa_offset addr + oa_length addr) = Some (enc c_output o).
Proof.
  intros Hf Ha Hi Hj. rewrite addresses_from_lookup, Hi in Ha. injection Ha as <-.
  cbn [ta_offset ta_length ta_outputs_addresses] in *. rewrite Z.add_0_l.
  destruct (tx_outputs tx !! j) as [o|] eqn:Ho; swap 1 2.
  { unfold tx_outputs_addresses in Hj. by rewrite output_addresses_lookup, list_lookup_fmap, Ho in Hj. }
  destruct (tx_output_split tx j o Ho) as (pre & post & Hb & Hj'). rewrite Hj in Hj'. injection Hj' as ->.
  cbn [oa_offset oa_length]. exists o. split; [done|].
  destruct (body_offset_fits _ _ _ Hf Hi) as [_ Hlt]. rewrite <- tx_bytes_size, Hb, !len_app in Hlt.
  pose proof (len_nonneg post). unfold serialized_size. split; [lia|]. split; [apply len_nonneg|].
  rewrite (body_split _ _ _ Hi), Hb, <- !app_assoc, app_assoc.
  apply get_range_mid; [|done]. by rewrite len_app, body_bytes_size.
Qed.

Lemma read_body txs {A} (f : Bytes -> list CellOutputAddress -> outcome BincodeError A) (g : Transaction -> A) :
  body_fits txs ->
  (forall tx, tx ∈ txs -> f (tx_bytes tx) (tx_outputs_addresses tx) = Ok (g tx)) ->
  try_map (fun addr => tx ← transaction_slice (body_bytes txs) addr; f tx (ta_outputs_addresses addr))
    (addresses_from 0 0 txs) = Ok (g <$> txs).
Proof.
  intros Hf Hg. apply try_map_Ok, Forall2_same_length_lookup_2.
  { rewrite length_fmap. clear. generalize 0 at 1 as n. generalize 0 as m.
    induction txs as [|tx txs IH]; intros m n; simpl; auto. }
  intros i a y Ha Hy. destruct (read_body_tx _ _ _ Hf Ha) as (tx & Hi & Ho & Hlt & Hr).
  rewrite list_lookup_fmap, Hi in Hy. injection Hy as <-. unfold transaction_slice.
  rewrite add_w_eq, bind_ret_l by done. unfold slice_range. rewrite Hr. cbn [expect].
  rewrite bind_ret_l, Ho. apply Hg. by eapply list_elem_of_lookup_2.
Qed.

Lemma deserialize_block_body_eq txs :
  body_fits txs -> deserialize_block_body (body_bytes txs) (addresses_from 0 0 txs) = Ok txs.
Proof.
  intros Hf. rewrite <- (list_fmap_id txs) at 3. apply (read_body txs deserialize_transaction id Hf).
  intros tx Hin. by apply deserialize_tx_bytes, (tx_fits _ txs).
Qed.

Lemma deserialize_hashes_eq txs :
  body_fits txs ->
  deserialize_block_body_for_hashes_only (body_bytes txs) (addresses_from 0 0 txs) = Ok (tx_hash <$> txs).
Proof.
  intros Hf. apply (read_body txs (fun tx _ => deserialize_transaction_hash tx) tx_hash Hf).
  intros tx _. apply deserialize_tx_hash.
Qed.
End body_reading.

(** ** The round trip *)
Section round_trip.
Context `{HC : BodyCodecs} `{HL : !BodyCodecsLaws}.

(** C24. A body is read back as it was written, whole, by its hashes, by transaction and by output:
    for a body whose size is a [usize], [serialize_block_body] succeeds; the two decoders return the
    transactions and their hashes; the bytes at the address of a transaction decode to that
    transaction; and the bytes of the body at the offset of the transaction plus that of an output decode to
    the output. *)
Theorem block_body_round_trip txs :
  body_fits txs -> exists bytes addresses,
    serialize_block_body txs = Ok (bytes, addresses) /\
    deserialize_block_body bytes addresses = Ok txs /\
    deserialize_block_body_for_hashes_only bytes addresses = Ok (tx_hash <$> txs) /\
    forall i tx, txs !! i = Some tx -> exists a serialized,
      addresses !! i = Some a /\
      get_range bytes (ta_offset a) (ta_offset a + ta_length a) = Some serialized /\
      deserialize_transaction serialized (ta_outputs_addresses a) = Ok tx /\
      forall j o, tx_outputs tx !! j = Some o -> exists addr output,
        ta_outputs_addresses a !! j = Some addr /\
        get_range bytes (ta_offset a + oa_offset addr) (ta_offset a + oa_offset addr + oa_length addr) = Some output /\
        dec c_output output = Some o.
Proof.
  intros Hf. exists (body_bytes txs), (addresses_from 0 0 txs).
  split; [by apply serialize_block_body_eq|]. split; [by apply deserialize_block_body_eq|].
  split; [by apply deserialize_hashes_eq|]. intros i tx Hi.
  assert (exists a, addresses_from 0 0 txs !! i = Some a) as [a Ha] by (rewrite addresses_from_lookup, Hi; by eexists).
  destruct (read_body_tx _ _ _ Hf Ha) as (tx' & Hi' & Ho & _ & Hr). rewrite Hi in Hi'. injection Hi' as <-.
  exists a, (tx_bytes tx). split_and!; [done..| |].
  - rewrite Ho. apply deserialize_tx_bytes. eapply tx_fits; [done|]. by eapply list_elem_of_lookup_2.
  - intros j o Hj. destruct (tx_output_split tx j o Hj) as (pre & post & _ & Haddr). rewrite <- Ho in Haddr.
    destruct (read_body_output _ _ _ _ _ _ Hf Ha Hi Haddr) as (o' & Hj' & _ & _ & Hb). rewrite Hj in Hj'. injection Hj' as <-.
    eexists _, _. split_and!; [done..|]. by rewrite dec_enc by apply output_ok.
Qed.
End round_trip.

(** ** Example: values of any type as one number *)
Module CodecExample.
Definition codec {A} `{Countable A} : Codec A :=
  mkCodec (fun a => [Zpos (encode a)]) (fun l => match l with Zpos n :: _ => decode n | _ => None end).

Lemma codec_example_ok {A} `{Countable A} : codec_ok (codec (A := A)).
Proof. intros a rest. cbn. apply decode_encode. Qed.

#[export] Instance CellInput_countable : Countable CellInput.
Proof.
  refine (inj_countable' (fun x => (ci_previous_output x, ci_since x)) (fun '(a, b) => mkCellInput a b) _). by intros [].
Defined.
#[export] Instance Script_countable : Countable Script.
Proof.
  refine (inj_countable' (fun x => (script_args x, script_code_hash x)) (fun '(a, b) => mkScript a b) _). by intros [].
Defined.
#[export] Instance CellOutput_countable : Countable CellOutput.
Proof.
  refine (inj_countable' (fun x => (co_capacity x, co_data x, co_lock x, co_type x))
    (fun '(a, b, c, d) => mkCellOutput a b c d) _). by intros [].
Defined.

#[export] Instance example_codecs : BodyCodecs :=
  {| c_fields := codec; c_version := codec; c_deps := codec; c_inputs := codec; c_output := codec;
     c_witnesses := codec; c_h256 := codec |}.
#[export] Instance example_codecs_laws : BodyCodecsLaws.
Proof. by split; try apply codec_example_ok. Qed.

Definition cell (capacity : Z) : CellOutput := mkCellOutput capacity [1; 2] (mkScript [] 0) None.
Definition body : list Transaction :=
  [mkTransaction 0 [] [new_cellbase_input 1] [cell 100] [] 11 12;
   mkTransaction 0 [] [mkCellInput OutPoint_null 0] [cell 60; cell 40] [[[3]]] 21 22].
Lemma body_example_fits : body_fits body.
Proof. reflexivity. Qed.

(** The second output of the second transaction, read by its address alone. *)
Lemma block_body_round_trip_witness : exists bytes addresses,
  serialize_block_body body = Ok (bytes, addresses) /\
  deserialize_block_body bytes addresses = Ok body /\
  exists a addr output, addresses !! 1%nat = Some a /\ ta_outputs_addresses a !! 1%nat = Some addr /\
    get_range bytes (ta_offset a + oa_offset addr) (ta_offset a + oa_offset addr + oa_length addr) = Some output /\
    dec c_output output = Some (cell 40).
Proof.
  destruct (block_body_round_trip body body_example_fits) as (bytes & addresses & Hs & Hd & _ & Ha).
  exists bytes, addresses. split; [exact Hs|]. split; [exact Hd|].
  destruct (Ha 1%nat _ eq_refl) as (a & serialized & Ha1 & _ & _ & Ho).
  destruct (Ho 1%nat _ eq_refl) as (addr & output & H1 & H2 & H3). exists a, addr, output. auto.
Defined.
End CodecExample.
