(* ===== verification/KeyValue.v ===== *)
(** * Key-value databases

    [db/src]: the trait [KeyValueDB] with its batches as a class, what the store
    relies on as laws, and the three implementations: the database in memory, the
    wrapper of RocksDB and the cache in front of another database. *)
From S2P Require Import Prelude ByteStrings FlatBody LinkedMap.

Inductive DbError := DBError.

Inductive BatchOperation :=
| BInsert (col : Z) (key value : Bytes)
| BDelete (col : Z) (key : Bytes).
Definition op_col (op : BatchOperation) : Z :=
  match op with BInsert col _ _ => col | BDelete col _ => col end.

(** A read moves the entries of a cache, so it returns the database.  The
    callback of [traverse] is the step of a fold. *)
Class KeyValueDB (D B : Type) := {
  db_read : D -> Z -> Bytes -> outcome DbError (option Bytes * D);
  db_partial_read : D -> Z -> Bytes -> Z * Z -> outcome DbError (option Bytes * D);
  db_traverse {S} : D -> Z -> (S -> Bytes * Bytes -> outcome DbError S) -> S -> outcome DbError S;
  db_batch : D -> outcome DbError B;
  dbatch_insert : D -> B -> Z -> Bytes -> Bytes -> outcome DbError B;
  dbatch_delete : D -> B -> Z -> Bytes -> outcome DbError B;
  dbatch_commit : D -> B -> outcome DbError D
}.

(** ** The contents of a database *)
Definition Contents : Type := Z -> Bytes -> option Bytes.

Definition put (column : Bytes -> option Bytes) (key : Bytes) (value : option Bytes) : Bytes -> option Bytes :=
  fun k => if decide (k = key) then value else column k.

Definition apply_op (val : Contents) (op : BatchOperation) : Contents :=
  match op with
  | BInsert col key value => fun c => if decide (c = col) then put (val c) key (Some value) else val c
  | BDelete col key => fun c => if decide (c = col) then put (val c) key None else val c
  end.
Definition apply_ops (val : Contents) (ops : list BatchOperation) : Contents := foldl apply_op val ops.

(** What a database promises.  [db_val] are its contents, [db_has] its columns;
    [batch_ops] are the operations a batch holds.  A batch that was made for a
    database remains one when the database is read or written. *)
Class DbSpec (D B : Type) := {
  db_inv : D -> Prop;
  db_has : D -> Z -> Prop;
  db_val : D -> Contents;
  batch_for : D -> B -> Prop;
  batch_ops : B -> list BatchOperation
}.

Definition db_step {D B} `{DbSpec D B} (d d' : D) : Prop :=
  db_inv d' /\ (forall c, db_has d' c <-> db_has d c) /\ (forall b, batch_for d b -> batch_for d' b).

Definition batch_step {D B} `{DbSpec D B} (d : D) (b b' : B) (op : BatchOperation) : Prop :=
  batch_for d b' /\ batch_ops b' = batch_ops b ++ [op].

Class KeyValueLaws (D B : Type) `{KeyValueDB D B} `{!DbSpec D B} : Prop := {
  db_read_law d c k : db_inv d -> db_has d c -> exists d',
    db_read d c k = Ok (db_val d c k, d') /\ db_step d d' /\ db_val d' = db_val d;
  db_partial_read_law d c k a b : db_inv d -> db_has d c -> exists d',
    db_partial_read d c k (a, b) = Ok (v ← db_val d c k; get_range v a b, d') /\
    db_step d d' /\ db_val d' = db_val d;
  db_traverse_law d c : db_inv d -> db_has d c -> exists entries,
    NoDup entries.*1 /\ (forall k v, (k, v) ∈ entries <-> db_val d c k = Some v) /\
    (forall S (f : S -> Bytes * Bytes -> outcome DbError S) x, db_traverse d c f x = try_fold f x entries);
  db_batch_law d : db_inv d -> exists b, db_batch d = Ok b /\ batch_for d b /\ batch_ops b = [];
  dbatch_insert_law d b c k v : batch_for d b -> db_has d c -> exists b',
    dbatch_insert d b c k v = Ok b' /\ batch_step d b b' (BInsert c k v);
  dbatch_delete_law d b c k : batch_for d b -> db_has d c -> exists b',
    dbatch_delete d b c k = Ok b' /\ batch_step d b b' (BDelete c k);
  dbatch_commit_law d b : db_inv d -> batch_for d b -> exists d',
    dbatch_commit d b = Ok d' /\ db_step d d' /\
    (forall c k, db_has d c -> db_val d' c k = apply_ops (db_val d) (batch_ops b) c k)
}.

(** ** [MemoryKeyValueDB]

    [mem_order] is the order in which a hash map yields its entries. *)
Class MemOrder := mem_order : gmap Bytes Bytes -> list (Bytes * Bytes).
Class MemOrderLaw `{MemOrder} : Prop := mem_order_perm m : mem_order m ≡ₚ map_to_list m.

Record MemoryKeyValueDB := mkMemory { mem_table : gmap Z (gmap Bytes Bytes) }.
Record MemoryDbBatch := mkMemoryBatch { mem_operations : list BatchOperation }.

Definition mem_open (cols : nat) : MemoryKeyValueDB :=
  mkMemory (list_to_map ((fun idx => (Z.of_nat idx, ∅)) <$> seq 0 cols)).

Definition mem_apply (table : gmap Z (gmap Bytes Bytes)) (op : BatchOperation) : gmap Z (gmap Bytes Bytes) :=
  match op with
  | BInsert col key value =>
      match table !! col with Some map => <[col := <[key := value]> map]> table | None => table end
  | BDelete col key =>
      match table !! col with Some map => <[col := delete key map]> table | None => table end
  end.

#[export] Instance Memory_db `{MemOrder} : KeyValueDB MemoryKeyValueDB MemoryDbBatch := {|
  db_read self col key :=
    match mem_table self !! col with
    | None => Err DBError
    | Some map => Ok (map !! key, self)
    end;
  db_partial_read self col key range :=
    match mem_table self !! col with
    | None => Err DBError
    | Some map => Ok (data ← map !! key; get_range data range.1 range.2, self)
    end;
  db_traverse S self col callback x :=
    match mem_table self !! col with
    | None => Err DBError
    | Some map => try_fold callback x (mem_order map)
    end;
  db_batch self := Ok (mkMemoryBatch []);
  dbatch_insert self batch col key value :=
    Ok (mkMemoryBatch (mem_operations batch ++ [BInsert col key value]));
  dbatch_delete self batch col key :=
    Ok (mkMemoryBatch (mem_operations batch ++ [BDelete col key]));
  dbatch_commit self batch := Ok (mkMemory (foldl mem_apply (mem_table self) (mem_operations batch)))
|}.

#[export] Instance Memory_spec : DbSpec MemoryKeyValueDB MemoryDbBatch := {|
  db_inv d := True;
  db_has d c := is_Some (mem_table d !! c);
  db_val d c k := m ← mem_table d !! c; m !! k;
  batch_for d b := True;
  batch_ops b := mem_operations b
|}.

Lemma mem_apply_val table op c k :
  is_Some (table !! c) ->
  (m ← mem_apply table op !! c; m !! k) = apply_op (fun c k => m ← table !! c; m !! k) op c k.
Proof.
  intros [m Hm]. destruct op as [c' k' v|c' k']; cbn [mem_apply apply_op]; unfold put.
  all: case_decide as Hc; [subst c'; rewrite Hm, lookup_insert_eq; simpl|].
  2, 4: destruct (table !! c') as [m'|] eqn:Hc'; [rewrite lookup_insert_ne by congruence|]; done.
  - case_decide as Hk; [subst; by rewrite lookup_insert_eq|]. by rewrite lookup_insert_ne by congruence.
  - case_decide as Hk; [subst; by rewrite lookup_delete_eq|]. by rewrite lookup_delete_ne by congruence.
Qed.

Lemma mem_apply_has table op c : is_Some (mem_apply table op !! c) <-> is_Some (table !! c).
Proof.
  destruct op as [c' k' v|c' k']; cbn [mem_apply]; destruct (table !! c') eqn:?; [|done|..|done].
  all: rewrite lookup_insert_is_Some; destruct (decide (c' = c)); naive_solver.
Qed.

(** Operations that agree on a column agree on it afterwards. *)
Lemma apply_op_ext val val' op c :
  (forall k, val c k = val' c k) -> forall k, apply_op val op c k = apply_op val' op c k.
Proof.
  intros Hv k. destruct op; cbn [apply_op]; unfold put; repeat case_decide; auto.
Qed.

Lemma apply_ops_ext val val' ops c :
  (forall k, val c k = val' c k) -> forall k, apply_ops val ops c k = apply_ops val' ops c k.
Proof.
  unfold apply_ops. revert val val'. induction ops as [|op ops IH]; intros val val' Hv; [exact Hv|].
  apply IH. by apply apply_op_ext.
Qed.

Lemma apply_ops_cons val op ops : apply_ops val (op :: ops) = apply_ops (apply_op val op) ops.
Proof. done. Qed.

Lemma apply_ops_app val ops1 ops2 : apply_ops val (ops1 ++ ops2) = apply_ops (apply_ops val ops1) ops2.
Proof. apply foldl_app. Qed.

Lemma mem_apply_all_has table ops c : is_Some (foldl mem_apply table ops !! c) <-> is_Some (table !! c).
Proof.
  revert table. induction ops as [|op ops IH]; intros table; [done|]. cbn [foldl].
  by rewrite IH, mem_apply_has.
Qed.

Lemma mem_apply_all table ops c k :
  is_Some (table !! c) ->
  (m ← foldl mem_apply table ops !! c; m !! k) = apply_ops (fun c k => m ← table !! c; m !! k) ops c k.
Proof.
  revert table. induction ops as [|op ops IH]; intros table Hc; [done|]. cbn [foldl].
  rewrite IH, apply_ops_cons by by apply mem_apply_has. apply apply_ops_ext. intros k'. by apply mem_apply_val.
Qed.

#[export] Instance Memory_laws `{MemOrderLaw} : KeyValueLaws MemoryKeyValueDB MemoryDbBatch.
Proof.
  split.
  - intros d c k _ [m Hm]. exists d. cbn in *. rewrite Hm. done.
  - intros d c k a b _ [m Hm]. exists d. cbn in *. rewrite Hm. done.
  - intros d c _ [m Hm]. exists (mem_order m). cbn in *. rewrite Hm. split_and!; [..|done].
    + rewrite mem_order_perm. apply NoDup_fst_map_to_list.
    + intros k v. rewrite mem_order_perm. apply elem_of_map_to_list.
  - intros d _. by eexists.
  - intros d b c k v _ _. by eexists.
  - intros d b c k _ _. by eexists.
  - intros d b _ _. eexists. split; [reflexivity|]. split.
    + split_and!; [done| |done]. intros c. apply mem_apply_all_has.
    + intros c k Hc. by apply mem_apply_all.
Qed.

Lemma mem_open_val n c k : db_val (mem_open n) c k = None.
Proof.
  cbn. destruct ((list_to_map ((fun idx => (Z.of_nat idx, ∅)) <$> seq 0 n) : gmap Z (gmap Bytes Bytes)) !! c) as [m|] eqn:Hm; [|done].
  apply elem_of_list_to_map_2, list_elem_of_fmap in Hm as (i & [= -> ->] & _). apply lookup_empty.
Qed.

(** ** [RocksDB]

    The interface of the package [rocksdb]; a column family is named by the
    number of its column.  A write is atomic. *)
Class RocksApi (R : Type) := {
  cf_exists : R -> Z -> bool;
  get_cf : R -> Z -> Bytes -> outcome DbError (option Bytes);
  full_iterator_cf : R -> Z -> outcome DbError (list (Bytes * Bytes));
  write : R -> list BatchOperation -> outcome DbError R
}.
Class RocksLaws (R : Type) `{RocksApi R} := {
  rocks_val : R -> Contents;
  get_cf_law r c k : cf_exists r c = true -> get_cf r c k = Ok (rocks_val r c k);
  full_iterator_law r c : cf_exists r c = true -> exists entries,
    full_iterator_cf r c = Ok entries /\ NoDup entries.*1 /\
    (forall k v, (k, v) ∈ entries <-> rocks_val r c k = Some v);
  write_law r ops : Forall (fun op => cf_exists r (op_col op) = true) ops -> exists r',
    write r ops = Ok r' /\ (forall c, cf_exists r' c = cf_exists r c) /\
    (forall c k, rocks_val r' c k = apply_ops (rocks_val r) ops c k)
}.

Record RocksDB (R : Type) := mkRocks { rocks_inner : R }.
Record RocksdbBatch := mkRocksBatch { wb : list BatchOperation }.
Arguments mkRocks {R} _.
Arguments rocks_inner {R} _.

Section rocks.
Context {R : Type} `{RocksApi R}.

Definition cf_handle (db : R) (col : Z) : outcome DbError unit := ensure (cf_exists db col) DBError.

#[export] Instance Rocks_db : KeyValueDB (RocksDB R) RocksdbBatch := {|
  db_read self col key :=
    _ ← cf_handle (rocks_inner self) col;
    v ← get_cf (rocks_inner self) col key;
    Ok (v, self);
  db_partial_read self col key range :=
    _ ← cf_handle (rocks_inner self) col;
    v ← get_cf (rocks_inner self) col key;
    Ok (vi ← v; get_range vi range.1 range.2, self);
  db_traverse S self col callback x :=
    _ ← cf_handle (rocks_inner self) col;
    iter ← full_iterator_cf (rocks_inner self) col;
    try_fold callback x iter;
  db_batch self := Ok (mkRocksBatch []);
  dbatch_insert self batch col key value :=
    _ ← cf_handle (rocks_inner self) col;
    Ok (mkRocksBatch (wb batch ++ [BInsert col key value]));
  dbatch_delete self batch col key :=
    _ ← cf_handle (rocks_inner self) col;
    Ok (mkRocksBatch (wb batch ++ [BDelete col key]));
  dbatch_commit self batch :=
    db ← write (rocks_inner self) (wb batch);
    Ok (mkRocks db)
|}.

Context {HL : RocksLaws R}.

#[export] Instance Rocks_spec : DbSpec (RocksDB R) RocksdbBatch := {|
  db_inv d := True;
  db_has d c := cf_exists (rocks_inner d) c = true;
  db_val d := rocks_val (rocks_inner d);
  batch_for d b := Forall (fun op => cf_exists (rocks_inner d) (op_col op) = true) (wb b);
  batch_ops b := wb b
|}.

#[export] Instance Rocks_laws : KeyValueLaws (RocksDB R) RocksdbBatch.
Proof.
  split; cbn; unfold cf_handle, db_step, batch_step; cbn.
  - intros d c k _ Hc. exists d. by rewrite Hc, get_cf_law.
  - intros d c k a b _ Hc. exists d. by rewrite Hc, get_cf_law.
  - intros d c _ Hc. destruct (full_iterator_law _ _ Hc) as (entries & He & Hnd & Hin). exists entries.
    split_and!; [done..|]. intros S f x. by rewrite Hc, He.
  - intros d _. eexists. split_and!; [reflexivity|constructor|done].
  - intros d b c k v Hb Hc. rewrite Hc. eexists. split_and!; [reflexivity| |done].
    apply Forall_app. split; [done|]. by constructor.
  - intros d b c k Hb Hc. rewrite Hc. eexists. split_and!; [reflexivity| |done].
    apply Forall_app. split; [done|]. by constructor.
  - intros d b _ Hb. destruct (write_law _ _ Hb) as (r' & -> & Hcf & Hv). eexists. split; [reflexivity|].
    cbn. split; [|by intros c k _]. split_and!; [done| |].
    + intros c. by rewrite Hcf.
    + intros b' Hb'. eapply Forall_impl; [exact Hb'|]. intros op. cbn. by rewrite Hcf.
Qed.
End rocks.

(** ** [CacheDB]

    The caches of some columns in front of another database.  Only a commit fills
    them: first the batch of the inner database is committed, then the operations
    on the cached columns are applied to the caches. *)
Section cachedb.
Context {D B : Type} `{HD : KeyValueDB D B} {L : Type -> Type} `{HLru : !LruCache Bytes L}.

Record CacheDB := mkCacheDB { cdb_db : D; cdb_cache : gmap Z (L Bytes) }.
(** The batch has the table of the caches, of which it looks at the columns. *)
Record CacheDBBatch := mkCacheBatch {
  cb_inner : B; cb_cols : gset Z; cb_operations : list BatchOperation }.

Definition CacheDB_new (db : D) (cols : list (Z * Z)) : CacheDB :=
  mkCacheDB db (list_to_map ((fun '(idx, capacity) => (idx, lru_new capacity)) <$> reverse cols)).

Definition cache_apply (cache : gmap Z (L Bytes)) (op : BatchOperation) : gmap Z (L Bytes) :=
  match op with
  | BInsert col key value => alter (lru_insert key value) col cache
  | BDelete col key => alter (lru_remove key) col cache
  end.

Definition cache_push (batch : CacheDBBatch) (op : BatchOperation) : list BatchOperation :=
  if decide (op_col op ∈ cb_cols batch) then cb_operations batch ++ [op] else cb_operations batch.

(** [get_refresh]. *)
Definition cache_get (cache : gmap Z (L Bytes)) (col : Z) (key : Bytes) : option Bytes :=
  cache ← cache !! col; lru_get key cache.
Definition cache_refresh (cache : gmap Z (L Bytes)) (col : Z) (key : Bytes) : gmap Z (L Bytes) :=
  alter (lru_refresh key) col cache.

#[export] Instance Cache_db : KeyValueDB CacheDB CacheDBBatch := {|
  db_read self col key :=
    let cache := cache_refresh (cdb_cache self) col key in
    match cache_get (cdb_cache self) col key with
    | Some value => Ok (Some value, mkCacheDB (cdb_db self) cache)
    | None => '(v, db) ← db_read (cdb_db self) col key; Ok (v, mkCacheDB db cache)
    end;
  db_partial_read self col key range :=
    let cache := cache_refresh (cdb_cache self) col key in
    match cache_get (cdb_cache self) col key with
    | Some data => Ok (get_range data range.1 range.2, mkCacheDB (cdb_db self) cache)
    | None => '(v, db) ← db_partial_read (cdb_db self) col key range; Ok (v, mkCacheDB db cache)
    end;
  db_traverse S self col callback x := db_traverse (cdb_db self) col callback x;
  db_batch self :=
    inner ← db_batch (cdb_db self);
    Ok (mkCacheBatch inner (dom (cdb_cache self)) []);
  dbatch_insert self batch col key value :=
    inner ← dbatch_insert (cdb_db self) (cb_inner batch) col key value;
    Ok (mkCacheBatch inner (cb_cols batch) (cache_push batch (BInsert col key value)));
  dbatch_delete self batch col key :=
    inner ← dbatch_delete (cdb_db self) (cb_inner batch) col key;
    Ok (mkCacheBatch inner (cb_cols batch) (cache_push batch (BDelete col key)));
  dbatch_commit self batch :=
    db ← dbatch_commit (cdb_db self) (cb_inner batch);
    Ok (mkCacheDB db (foldl cache_apply (cdb_cache self) (cb_operations batch)))
|}.
End cachedb.
Arguments CacheDB D L : clear implicits.
Arguments CacheDBBatch B : clear implicits.

(** *** The cache answers what the database would *)
Section coherence.
Context {D B : Type} `{HD : KeyValueDB D B} `{HS : !DbSpec D B} `{HK : !KeyValueLaws D B}.
Context {L : Type -> Type} `{HLru : !LruCache Bytes L} `{HLL : !LruLaws Bytes L}.

Definition coherent (cache : gmap Z (L Bytes)) (val : Contents) (has : Z -> Prop) : Prop :=
  forall c k v, cache_get cache c k = Some v -> has c -> val c k = Some v.

#[export] Instance Cache_spec : DbSpec (CacheDB D L) (CacheDBBatch B) := {|
  db_inv d := db_inv (cdb_db d) /\ coherent (cdb_cache d) (db_val (cdb_db d)) (db_has (cdb_db d));
  db_has d := db_has (cdb_db d);
  db_val d := db_val (cdb_db d);
  batch_for d b := batch_for (cdb_db d) (cb_inner b) /\ cb_cols b = dom (cdb_cache d) /\
    cb_operations b = filter (fun op => op_col op ∈ cb_cols b) (batch_ops (cb_inner b));
  batch_ops b := batch_ops (cb_inner b)
|}.

Lemma cache_get_alter (f : L Bytes -> L Bytes) cache col c k :
  cache_get (alter f col cache) c k
  = if decide (c = col) then l ← cache !! c; lru_get k (f l) else cache_get cache c k.
Proof.
  unfold cache_get. case_decide as Hc.
  - subst. rewrite lookup_alter_eq. by destruct (cache !! col).
  - by rewrite lookup_alter_ne by congruence.
Qed.

Lemma coherent_refresh cache val has col key :
  coherent cache val has -> coherent (cache_refresh cache col key) val has.
Proof.
  intros Hco c k v. unfold cache_refresh. rewrite cache_get_alter. case_decide; [|apply Hco].
  intros Hg. apply Hco. unfold cache_get. destruct (cache !! c); cbn in *; [|done]. by rewrite lru_get_refresh in Hg.
Qed.

Lemma coherent_apply cache val has op :
  coherent cache val has -> coherent (cache_apply cache op) (apply_op val op) has.
Proof.
  intros Hco c k v. destruct op as [col key value|col key]; cbn [cache_apply apply_op]; rewrite cache_get_alter.
  all: unfold put; case_decide as Hc; [|apply Hco].
  all: intros Hg Hh; assert (forall w, lru_get k <$> cache !! c = Some (Some w) -> val c k = Some w) as Hold
    by (intros w Hw; apply Hco; [|done]; unfold cache_get; destruct (cache !! c); cbn in *; congruence).
  all: destruct (cache !! c) as [l|]; cbn in *; [|done].
  - apply lru_get_insert in Hg as [[-> ->]|[Hne Hg]]; [by rewrite decide_True|].
    rewrite decide_False by done. apply Hold. by rewrite Hg.
  - apply lru_get_remove in Hg as [Hne Hg]. rewrite decide_False by done. apply Hold. by rewrite Hg.
Qed.

Lemma coherent_skip cache val has op :
  coherent cache val has -> op_col op ∉ dom cache -> coherent cache (apply_op val op) has.
Proof.
  intros Hco Hn c k v Hg Hh. assert (c <> op_col op) as Hne.
  { intros ->. apply Hn, elem_of_dom. unfold cache_get in Hg. destruct (cache !! op_col op); [by eexists|done]. }
  destruct op; cbn in *; rewrite decide_False by done; by apply Hco.
Qed.

Lemma dom_cache_apply cache op : dom (cache_apply cache op) = dom cache.
Proof. destruct op; apply dom_alter_L. Qed.

Lemma dom_cache_apply_all cache ops : dom (foldl cache_apply cache ops) = dom cache.
Proof.
  revert cache. induction ops as [|op ops IH]; intros cache; [done|]. cbn. by rewrite IH, dom_cache_apply.
Qed.

Lemma coherent_commit cache val has ops :
  coherent cache val has ->
  coherent (foldl cache_apply cache (filter (fun op => op_col op ∈ dom cache) ops)) (apply_ops val ops) has.
Proof.
  unfold apply_ops. revert cache val. induction ops as [|op ops IH]; intros cache val Hco; [done|].
  rewrite filter_cons. cbn [foldl]. case_decide as Hin.
  - cbn [foldl]. rewrite <- (dom_cache_apply cache op). apply IH. by apply coherent_apply.
  - apply IH. by apply coherent_skip.
Qed.

Lemma coherent_ext cache val val' has has' :
  coherent cache val has -> (forall c, has' c -> has c) -> (forall c k, has c -> val' c k = val c k) ->
  coherent cache val' has'.
Proof. intros Hco Hh Hv c k v Hg Hc. rewrite Hv by auto. by apply Hco; [|apply Hh]. Qed.

Lemma db_step_refl (d : D) : db_inv d -> db_step d d.
Proof. by split. Qed.

Lemma cache_step (d : CacheDB D L) db c k :
  db_inv d -> db_step (cdb_db d) db -> db_val db = db_val (cdb_db d) ->
  db_step d (mkCacheDB db (cache_refresh (cdb_cache d) c k)).
Proof.
  intros [Hi Hco] (Hi' & Hh & Hb) Hv. unfold db_step. cbn. split_and!; [done| |done|].
  - rewrite Hv. apply (coherent_ext _ (db_val (cdb_db d)) _ (db_has (cdb_db d))); [by apply coherent_refresh| |done].
    intros. by apply Hh.
  - intros b (? & -> & ?). split_and!; [auto|unfold cache_refresh; by rewrite dom_alter_L|done].
Qed.

Lemma cache_push_ops (d : CacheDB D L) b inner op :
  batch_for d b -> batch_step (cdb_db d) (cb_inner b) inner op ->
  batch_step d b (mkCacheBatch inner (cb_cols b) (cache_push b op)) op.
Proof.
  intros (Hb & Hc & Ho) [Hb' Hi]. split; [|done]. cbn. split_and!; [done..|].
  rewrite Hi, filter_app, <- Ho, filter_cons. unfold cache_push. case_decide; [done|]. by rewrite filter_nil, app_nil_r.
Qed.

#[export] Instance Cache_laws : KeyValueLaws (CacheDB D L) (CacheDBBatch B).
Proof.
  split.
  - intros d c k Hd Hc. pose proof Hd as [Hi Hco]. cbn. destruct (cache_get (cdb_cache d) c k) as [v|] eqn:Hg.
    + eexists. split; [by rewrite (Hco _ _ _ Hg Hc)|]. split; [|done]. by apply cache_step, eq_refl; [|apply db_step_refl].
    + destruct (db_read_law _ c k Hi Hc) as (db & -> & Hs & Hv). eexists. split; [done|]. split; [by apply cache_step|done].
  - intros d c k a b Hd Hc. pose proof Hd as [Hi Hco]. cbn. destruct (cache_get (cdb_cache d) c k) as [v|] eqn:Hg.
    + eexists. split; [by rewrite (Hco _ _ _ Hg Hc)|]. split; [|done]. by apply cache_step, eq_refl; [|apply db_step_refl].
    + destruct (db_partial_read_law _ c k a b Hi Hc) as (db & -> & Hs & Hv). eexists. split; [done|].
      split; [by apply cache_step|done].
  - intros d c [Hi Hco] Hc. exact (db_traverse_law (cdb_db d) c Hi Hc).
  - intros d [Hi Hco]. destruct (db_batch_law _ Hi) as (b & Hb & Hf & Ho). cbn. rewrite Hb. eexists.
    split; [done|]. cbn. by rewrite Ho.
  - intros d b c k v Hb Hc. destruct (dbatch_insert_law _ _ c k v (proj1 Hb) Hc) as (b' & Hi & Hs). cbn. rewrite Hi.
    eexists. split; [done|]. by apply cache_push_ops.
  - intros d b c k Hb Hc. destruct (dbatch_delete_law _ _ c k (proj1 Hb) Hc) as (b' & Hi & Hs). cbn. rewrite Hi.
    eexists. split; [done|]. by apply cache_push_ops.
  - intros d b [Hi Hco] (Hf & Hc & Ho). destruct (dbatch_commit_law _ _ Hi Hf) as (db & Hcm & (Hi' & Hh & Hb) & Hv).
    cbn. rewrite Hcm. eexists. split; [done|]. split; [|done]. unfold db_step. cbn. split_and!; [done| |done|].
    + rewrite Ho, Hc. eapply coherent_ext; [by apply coherent_commit|intros; by apply Hh|done].
    + intros b' (? & -> & ?). split_and!; [auto|by rewrite dom_cache_apply_all|done].
Qed.
End coherence.

(** ** Runs of a database *)
Inductive DbEvent :=
| ERead (col : Z) (key : Bytes)
| EPartialRead (col : Z) (key : Bytes) (range : Z * Z)
| ECommit (operations : list BatchOperation).

Section runs.
Context {D B : Type} `{HD : KeyValueDB D B}.

Definition push_op (d : D) (batch : B) (op : BatchOperation) : outcome DbError B :=
  match op with
  | BInsert col key value => dbatch_insert d batch col key value
  | BDelete col key => dbatch_delete d batch col key
  end.

(** The values that are read, and the database. *)
Definition db_event (d : D) (event : DbEvent) : outcome DbError (list (option Bytes) * D) :=
  match event with
  | ERead col key => '(v, d) ← db_read d col key; Ok ([v], d)
  | EPartialRead col key range => '(v, d) ← db_partial_read d col key range; Ok ([v], d)
  | ECommit operations =>
      batch ← db_batch d;
      batch ← try_fold (push_op d) batch operations;
      d ← dbatch_commit d batch;
      Ok ([], d)
  end.
Fixpoint db_run (d : D) (events : list DbEvent) : outcome DbError (list (option Bytes)) :=
  match events with
  | [] => Ok []
  | event :: events => '(out, d) ← db_event d event; outs ← db_run d events; Ok (out ++ outs)
  end.

Definition event_cols (event : DbEvent) : list Z :=
  match event with
  | ERead col _ | EPartialRead col _ _ => [col]
  | ECommit operations => op_col <$> operations
  end.
End runs.

(** What the contents answer. *)
Definition contents_event (val : Contents) (event : DbEvent) : list (option Bytes) * Contents :=
  match event with
  | ERead col key => ([val col key], val)
  | EPartialRead col key range => ([v ← val col key; get_range v range.1 range.2], val)
  | ECommit operations => ([], apply_ops val operations)
  end.
Fixpoint contents_run (val : Contents) (events : list DbEvent) : list (option Bytes) :=
  match events with
  | [] => []
  | event :: events => let '(out, val) := contents_event val event in out ++ contents_run val events
  end.

Section runs_spec.
Context {D B : Type} `{HD : KeyValueDB D B} `{HS : !DbSpec D B} `{HK : !KeyValueLaws D B}.

Lemma push_ops_law d b ops :
  batch_for d b -> Forall (fun op => db_has d (op_col op)) ops -> exists b',
    try_fold (push_op d) b ops = Ok b' /\ batch_for d b' /\ batch_ops b' = batch_ops b ++ ops.
Proof.
  intros Hb Hops. revert b Hb. induction Hops as [|op ops Hop _ IH]; intros b Hb.
  { exists b. by rewrite app_nil_r. }
  assert (exists b1, push_op d b op = Ok b1 /\ batch_step d b b1 op) as (b1 & Hp & Hb1 & Ho1)
    by (destruct op; [by apply dbatch_insert_law|by apply dbatch_delete_law]).
  destruct (IH b1 Hb1) as (b2 & Hf & Hb2 & Ho2). exists b2. cbn [try_fold]. rewrite Hp, bind_ret_l.
  split_and!; [done..|]. by rewrite Ho2, Ho1, <- app_assoc.
Qed.

Lemma db_event_law d val event :
  db_inv d -> (forall c k, db_has d c -> val c k = db_val d c k) -> Forall (db_has d) (event_cols event) ->
  exists d', db_event d event = Ok ((contents_event val event).1, d') /\ db_inv d' /\
    (forall c, db_has d' c <-> db_has d c) /\
    (forall c k, db_has d' c -> (contents_event val event).2 c k = db_val d' c k).
Proof.
  intros Hi Hv Hc. destruct event as [c k|c k [a b]|ops]; cbn in Hc.
  - rewrite Forall_singleton in Hc. destruct (db_read_law d c k Hi Hc) as (d' & Hr & (Hi' & Hh & _) & Hv').
    exists d'. cbn. rewrite Hr, Hv by done. split_and!; [done..|]. intros. rewrite Hv'. by apply Hv, Hh.
  - rewrite Forall_singleton in Hc. destruct (db_partial_read_law d c k a b Hi Hc) as (d' & Hr & (Hi' & Hh & _) & Hv').
    exists d'. cbn. rewrite Hr, Hv by done. split_and!; [done..|]. intros. rewrite Hv'. by apply Hv, Hh.
  - destruct (db_batch_law d Hi) as (b & Hb & Hbf & Hbo). rewrite Forall_fmap in Hc.
    destruct (push_ops_law d b ops Hbf Hc) as (b' & Hp & Hbf' & Hbo').
    destruct (dbatch_commit_law d b' Hi Hbf') as (d' & Hcm & (Hi' & Hh & _) & Hv'). exists d'.
    cbn. rewrite Hb, bind_ret_l, Hp, bind_ret_l, Hcm, bind_ret_l. split_and!; [done..|].
    intros c k Hcc. apply Hh in Hcc. rewrite Hv', Hbo', Hbo by done. apply apply_ops_ext. intros. by apply Hv.
Qed.

Lemma db_run_law d val events :
  db_inv d -> (forall c k, db_has d c -> val c k = db_val d c k) ->
  Forall (fun event => Forall (db_has d) (event_cols event)) events ->
  db_run d events = Ok (contents_run val events).
Proof.
  intros Hi Hv He. revert d val Hi Hv He. induction events as [|event events IH]; intros d val Hi Hv He; [done|].
  apply Forall_cons in He as [He Hes]. destruct (db_event_law d val event Hi Hv He) as (d' & Hd & Hi' & Hh & Hv').
  cbn. rewrite Hd, bind_ret_l. destruct (contents_event val event) as [out val']. cbn in *.
  rewrite (IH d' val' Hi' Hv'); [done|]. eapply Forall_impl; [exact Hes|]. intros ev Hev.
  eapply Forall_impl; [exact Hev|]. intros c. apply Hh.
Qed.
End runs_spec.

Section transparent.
Context {D B : Type} `{HD : KeyValueDB D B} `{HS : !DbSpec D B} `{HK : !KeyValueLaws D B}.
Context {L : Type -> Type} `{HLru : !LruCache Bytes L} `{HLL : !LruLaws Bytes L}.

Lemma CacheDB_new_inv (d : D) cols : db_inv d -> db_inv (CacheDB_new (L := L) d cols).
Proof.
  intros Hd. split; [done|]. intros c k v Hg _. exfalso. unfold cache_get, CacheDB_new in Hg. cbn in Hg.
  destruct (list_to_map _ !! c) as [l|] eqn:Hl; [|done]. cbn in Hg. apply elem_of_list_to_map_2 in Hl.
  apply list_elem_of_fmap in Hl as ([c' n] & [= -> ->] & _). by rewrite lru_get_new in Hg.
Qed.

(** C25. A cache in front of a database is not observable: over any sequence of reads,
    partial reads and committed batches, a [CacheDB] over a database that keeps
    its contract, with caches of any columns and any sizes, answers what the
    database alone answers, and neither fails.  This holds whichever entries the
    caches drop. *)
Theorem cachedb_transparent (d : D) (cols : list (Z * Z)) (events : list DbEvent) :
  db_inv d -> Forall (fun event => Forall (db_has d) (event_cols event)) events ->
  exists out, db_run d events = Ok out /\ db_run (CacheDB_new (L := L) d cols) events = Ok out.
Proof.
  intros Hd He. exists (contents_run (db_val d) events). split; [by apply db_run_law|].
  apply db_run_law; [by apply CacheDB_new_inv|done|done].
Qed.
End transparent.

(** ** Example: two columns, one of them cached *)
Module KeyValueExample.
#[export] Instance order : MemOrder := map_to_list.
#[export] Instance order_law : MemOrderLaw.
Proof. by intros m. Qed.

Definition events : list DbEvent :=
  [ECommit [BInsert 0 [1] [5; 4; 3; 2]; BInsert 1 [1] [7]]; ERead 0 [1]; EPartialRead 0 [1] (1, 3);
   ECommit [BDelete 0 [1]; BInsert 1 [1] [8]]; ERead 0 [1]; ERead 1 [1]].

Lemma events_columns : Forall (fun event => Forall (db_has (mem_open 2)) (event_cols event)) events.
Proof. repeat constructor; by eexists. Qed.

Lemma cachedb_transparent_witness :
  db_run (CacheDB_new (L := AssocList Bytes) (mem_open 2) [(0, 10)]) events
  = Ok [Some [5; 4; 3; 2]; Some [4; 3]; None; Some [8]].
Proof.
  assert (db_inv (mem_open 2)) as Hinv by exact I.
  destruct (cachedb_transparent (L := AssocList Bytes) (mem_open 2) [(0, 10)] events Hinv events_columns) as (out & Hd & ->).
  assert (Ok out = Ok (E := DbError) [Some [5; 4; 3; 2]; Some [4; 3]; None; Some [8]]) as H; [|exact H].
  rewrite <- Hd. vm_compute. reflexivity.
Defined.
End KeyValueExample.
