(* ===== verification/StoreBytes.v ===== *)
(** * The chain store on a key-value database

    [store/src/store.rs] as it is written: [ChainKVStore] encodes keys and values,
    reads parts of block bodies by their addresses and keeps two caches.
    [ChainStore] models the same operations on typed maps; [StoreRefines] proves
    that the two agree. *)
From S2P Require Import Prelude Capacity ByteStrings Transactions Blocks CellSet Cells Epochs ChainStore ChainService LinkedMap FlatBody KeyValue.

Definition COLUMNS : Z := 14.
Definition COLUMN_INDEX : Z := 0.
Definition COLUMN_BLOCK_HEADER : Z := 1.
Definition COLUMN_BLOCK_BODY : Z := 2.
Definition COLUMN_BLOCK_UNCLE : Z := 3.
Definition COLUMN_META : Z := 4.
Definition COLUMN_TRANSACTION_ADDR : Z := 5.
Definition COLUMN_EXT : Z := 6.
Definition COLUMN_BLOCK_TRANSACTION_ADDRESSES : Z := 7.
Definition COLUMN_BLOCK_PROPOSAL_IDS : Z := 8.
Definition COLUMN_CELL_META : Z := 9.
Definition COLUMN_BLOCK_EPOCH : Z := 10.
Definition COLUMN_EPOCH : Z := 11.
Definition COLUMN_CELL_SET : Z := 12.
Definition COLUMN_UNCLES : Z := 13.

(** The bytes of ["TIP_HEADER"] and ["CURRENT_EPOCH"]. *)
Definition META_TIP_HEADER_KEY : Bytes := [84; 73; 80; 95; 72; 69; 65; 68; 69; 82].
Definition META_CURRENT_EPOCH_KEY : Bytes := [67; 85; 82; 82; 69; 78; 84; 95; 69; 80; 79; 67; 72].

(** The encodings of the values, by [bincode].  The hash of a header and the
    output of a cell's metadata are marked [serde(skip)]. *)
Class StoreCodecs := {
  body_codecs :: BodyCodecs;
  c_header : Codec (RawHeader * Seal);
  c_uncles : Codec (list (RawHeader * Seal * list Bytes));
  c_proposals : Codec (list Bytes);
  c_addresses : Codec (list TransactionAddressInner);
  c_address : Codec TransactionAddressStored;
  c_ext : Codec BlockExt;
  c_number : Codec Z;
  c_cell_meta : Codec (CellOutPoint * option BlockInfo * bool * Capacity * option H256);
  c_epoch : Codec EpochExt;
  c_tx_meta : Codec TransactionMeta
}.

(** A [u64] is encoded by its eight bytes in little-endian order. *)
Class StoreCodecsLaws `{StoreCodecs} : Prop := {
  body_codecs_laws :: BodyCodecsLaws;
  header_ok : codec_ok c_header;
  uncles_ok : codec_ok c_uncles;
  proposals_ok : codec_ok c_proposals;
  addresses_ok : codec_ok c_addresses;
  address_ok : codec_ok c_address;
  ext_ok : codec_ok c_ext;
  number_ok n : u64 n -> dec c_number (u64_to_le_bytes n) = Some n;
  cell_meta_ok : codec_ok c_cell_meta;
  epoch_ok : codec_ok c_epoch;
  tx_meta_ok : codec_ok c_tx_meta
}.

Record TransactionAddress := mkTxAddress { txa_block_hash : H256; txa_offset : Z; txa_length : Z }.

Section store_bytes.
Context `{HC : StoreCodecs} {D B : Type} `{HD : !KeyValueDB D B}.
Context {LH LO : Type -> Type} `{!LruCache H256 LH} `{!LruCache (H256 * Z) LO}.
Context (blake2b_256 : Bytes -> H256) (serialize_uncles : list UncleBlock -> Bytes)
  (merkle_root : list H256 -> H256).

Record ChainKVStore := mkKVStore {
  ks_db : D;
  ks_header_cache : LH Header;
  ks_cell_output_cache : LO CellOutput
}.

Definition kv_with_config (db : D) (header_cache_size cell_output_cache_size : Z) : ChainKVStore :=
  mkKVStore db (lru_new header_cache_size) (lru_new cell_output_cache_size).

(** The methods change the caches, and those of the database, and may panic. *)
Definition M (A : Type) : Type := ChainKVStore -> outcome DbError (A * ChainKVStore).
#[global] Instance M_ret : MRet M := fun A a s => Ok (a, s).
#[global] Instance M_bind : MBind M := fun A B f m s => '(a, s) ← m s; f a s.
Definition lift {A} (m : outcome DbError A) : M A := fun s => a ← m; Ok (a, s).

(** [Option::map] and [Option::and_then]. *)
Definition opt_map {A C} (f : A -> M C) (o : option A) : M (option C) :=
  match o with Some a => c ← f a; mret (Some c) | None => mret None end.
Definition opt_and_then {A C} (f : A -> M (option C)) (o : option A) : M (option C) :=
  match o with Some a => f a | None => mret None end.

Definition kv_get (col : Z) (key : Bytes) : M (option Bytes) := fun s =>
  '(v, db) ← unwrap (db_read (ks_db s) col key);
  Ok (v, mkKVStore db (ks_header_cache s) (ks_cell_output_cache s)).
Definition kv_partial_get (col : Z) (key : Bytes) (range : Z * Z) : M (option Bytes) := fun s =>
  '(v, db) ← unwrap (db_partial_read (ks_db s) col key range);
  Ok (v, mkKVStore db (ks_header_cache s) (ks_cell_output_cache s)).
(** [deserialize(raw).expect(..)]. *)
Definition decode {A} (c : Codec A) (raw : Bytes) : M A := lift (expect (dec c raw)).
Definition decode_h256 (raw : Bytes) : M H256 := lift (expect (h256_from_slice raw)).
Definition usize_add (a b : Z) : M Z := lift (a +64 b).

(** ** Reading *)
Definition make_header (raw : RawHeader) (seal : Seal) : Header :=
  Header_new blake2b_256 (fun raw seal => enc c_header (raw, seal)) raw seal.

Definition header_cached (hash : H256) : M (option Header) := fun s =>
  Ok (lru_get hash (ks_header_cache s),
      mkKVStore (ks_db s) (lru_refresh hash (ks_header_cache s)) (ks_cell_output_cache s)).
Definition cache_header (hash : H256) (header : Header) : M unit := fun s =>
  Ok (tt, mkKVStore (ks_db s) (lru_insert hash header (ks_header_cache s)) (ks_cell_output_cache s)).
Definition output_cached (tx_hash : H256) (index : Z) : M (option CellOutput) := fun s =>
  Ok (lru_get (tx_hash, index) (ks_cell_output_cache s),
      mkKVStore (ks_db s) (ks_header_cache s) (lru_refresh (tx_hash, index) (ks_cell_output_cache s))).
Definition cache_output (tx_hash : H256) (index : Z) (output : CellOutput) : M unit := fun s =>
  Ok (tt, mkKVStore (ks_db s) (ks_header_cache s)
        (lru_insert (tx_hash, index) output (ks_cell_output_cache s))).

Definition kv_get_block_header (hash : H256) : M (option Header) :=
  cached ← header_cached hash;
  match cached with
  | Some header => mret (Some header)
  | None =>
      raw ← kv_get COLUMN_BLOCK_HEADER (h256_as_bytes hash);
      opt_map (fun raw =>
        '(raw, seal) ← decode c_header raw;
        let header := mkHeader raw seal hash in
        _ ← cache_header hash header;
        mret header) raw
  end.

Definition kv_get_block_uncles (h : H256) : M (option (list UncleBlock)) :=
  raw ← kv_get COLUMN_BLOCK_UNCLE (h256_as_bytes h);
  opt_map (fun raw =>
    uncles ← decode c_uncles raw;
    mret ((fun '(raw, seal, proposals) => mkUncleBlock (make_header raw seal) proposals) <$> uncles)) raw.

Definition kv_get_block_proposal_txs_ids (h : H256) : M (option (list Bytes)) :=
  raw ← kv_get COLUMN_BLOCK_PROPOSAL_IDS (h256_as_bytes h);
  opt_map (decode c_proposals) raw.

(** The addresses and the body of a block, read by one of the two decoders. *)
Definition read_stored_body {A}
    (read : Bytes -> list TransactionAddressInner -> outcome BincodeError A) (h : H256) : M (option A) :=
  serialized_addresses ← kv_get COLUMN_BLOCK_TRANSACTION_ADDRESSES (h256_as_bytes h);
  opt_and_then (fun serialized_addresses =>
    tx_addresses ← decode c_addresses serialized_addresses;
    serialized_body ← kv_get COLUMN_BLOCK_BODY (h256_as_bytes h);
    opt_map (fun serialized_body => lift (unwrap (read serialized_body tx_addresses))) serialized_body)
    serialized_addresses.
Definition kv_get_block_body (h : H256) : M (option (list Transaction)) :=
  read_stored_body deserialize_block_body h.
Definition kv_get_block_txs_hashes (h : H256) : M (option (list H256)) :=
  read_stored_body deserialize_block_body_for_hashes_only h.

Definition kv_get_block (h : H256) : M (option Block) :=
  header ← kv_get_block_header h;
  opt_map (fun header =>
    transactions ← kv_get_block_body h;
    transactions ← lift (expect transactions);
    uncles ← kv_get_block_uncles h;
    uncles ← lift (expect uncles);
    proposals ← kv_get_block_proposal_txs_ids h;
    proposals ← lift (expect proposals);
    mret (BlockBuilder_build blake2b_256 (fun raw seal => enc c_header (raw, seal)) serialize_uncles
            merkle_root (h_raw header) (h_seal header) uncles transactions proposals)) header.

Definition kv_is_uncle (hash : H256) : M bool :=
  v ← kv_get COLUMN_UNCLES (h256_as_bytes hash);
  mret (bool_decide (is_Some v)).

Definition kv_get_block_ext (block_hash : H256) : M (option BlockExt) :=
  raw ← kv_get COLUMN_EXT (h256_as_bytes block_hash);
  opt_map (decode c_ext) raw.

Definition kv_get_block_hash (number : Z) : M (option H256) :=
  raw ← kv_get COLUMN_INDEX (u64_to_le_bytes number);
  opt_map decode_h256 raw.

Definition kv_get_block_number (hash : H256) : M (option Z) :=
  raw ← kv_get COLUMN_INDEX (h256_as_bytes hash);
  opt_map (decode c_number) raw.

Definition kv_get_tip_header : M (option Header) :=
  raw ← kv_get COLUMN_META META_TIP_HEADER_KEY;
  opt_and_then (fun raw => h ← decode_h256 raw; kv_get_block_header h) raw.

Definition kv_get_current_epoch_ext : M (option EpochExt) :=
  raw ← kv_get COLUMN_META META_CURRENT_EPOCH_KEY;
  opt_map (decode c_epoch) raw.

Definition kv_get_epoch_ext (hash : H256) : M (option EpochExt) :=
  raw ← kv_get COLUMN_EPOCH (h256_as_bytes hash);
  opt_map (decode c_epoch) raw.

Definition kv_get_epoch_index (number : Z) : M (option H256) :=
  raw ← kv_get COLUMN_EPOCH (u64_to_le_bytes number);
  opt_map decode_h256 raw.

Definition kv_get_block_epoch_index (block_hash : H256) : M (option H256) :=
  raw ← kv_get COLUMN_BLOCK_EPOCH (h256_as_bytes block_hash);
  opt_map decode_h256 raw.

(** The bytes of the transaction at an address, decoded. *)
Definition read_stored_tx (block_hash : H256) (inner : TransactionAddressInner) : M (option Transaction) :=
  stop ← usize_add (ta_offset inner) (ta_length inner);
  serialized ← kv_partial_get COLUMN_BLOCK_BODY (h256_as_bytes block_hash) (ta_offset inner, stop);
  opt_map (fun serialized =>
    lift (unwrap (deserialize_transaction serialized (ta_outputs_addresses inner)))) serialized.

Definition kv_stored_address (h : H256) : M (option TransactionAddressStored) :=
  raw ← kv_get COLUMN_TRANSACTION_ADDR (h256_as_bytes h);
  opt_map (decode c_address) raw.

Definition kv_get_transaction (h : H256) : M (option (Transaction * H256)) :=
  addr ← kv_stored_address h;
  opt_and_then (fun addr =>
    tx ← read_stored_tx (ts_block_hash addr) (ts_inner addr);
    opt_map (fun tx => mret (tx, ts_block_hash addr)) tx) addr.

Definition kv_get_transaction_address (h : H256) : M (option TransactionAddress) :=
  stored ← kv_stored_address h;
  opt_map (fun stored =>
    mret (mkTxAddress (ts_block_hash stored) (ta_offset (ts_inner stored)) (ta_length (ts_inner stored)))) stored.

Definition kv_get_cell_meta (tx_hash : H256) (index : Z) : M (option CellMeta) :=
  raw ← kv_get COLUMN_CELL_META (CellKey_calculate tx_hash index);
  opt_map (fun raw =>
    '(out_point, block_info, cellbase, capacity, data_hash) ← decode c_cell_meta raw;
    mret (mkCellMeta None out_point block_info cellbase capacity data_hash)) raw.

Definition kv_get_cellbase (h : H256) : M (option Transaction) :=
  serialized_addresses ← kv_get COLUMN_BLOCK_TRANSACTION_ADDRESSES (h256_as_bytes h);
  opt_and_then (fun serialized_addresses =>
    addresses ← decode c_addresses serialized_addresses;
    cellbase_address ← lift (expect (addresses !! 0%nat));
    read_stored_tx h cellbase_address) serialized_addresses.

Definition kv_get_cell_output (tx_hash : H256) (index : Z) : M (option CellOutput) :=
  cached ← output_cached tx_hash index;
  match cached with
  | Some cell_output => mret (Some cell_output)
  | None =>
      stored ← kv_stored_address tx_hash;
      opt_and_then (fun stored =>
        opt_and_then (fun addr =>
          output_offset ← usize_add (ta_offset (ts_inner stored)) (oa_offset addr);
          stop ← usize_add output_offset (oa_length addr);
          serialized ← kv_partial_get COLUMN_BLOCK_BODY (h256_as_bytes (ts_block_hash stored)) (output_offset, stop);
          opt_map (fun serialized =>
            cell_output ← decode c_output serialized;
            _ ← cache_output tx_hash index cell_output;
            mret cell_output) serialized)
          (ta_outputs_addresses (ts_inner stored) !! Z.to_nat index)) stored
  end.

Definition kv_traverse_cell_set {S} (callback : S -> H256 * TransactionMeta -> outcome DbError S) (x : S)
    (self : ChainKVStore) : outcome DbError S :=
  db_traverse (ks_db self) COLUMN_CELL_SET (fun x '(hash_slice, tx_meta_bytes) =>
    tx_hash ← expect (h256_from_slice hash_slice);
    tx_meta ← expect (dec c_tx_meta tx_meta_bytes);
    callback x (tx_hash, tx_meta)) x.
End store_bytes.
Arguments ChainKVStore D LH LO : clear implicits.

(** ** Writing

    [DefaultStoreBatch]: every method adds operations to the batch. *)
Section store_batch.
Context `{HC : StoreCodecs} {D B : Type} `{HD : !KeyValueDB D B}.
Context (blake2b_256 : Bytes -> H256) (d : D).

Definition insert_raw (batch : B) (col : Z) (key value : Bytes) : outcome DbError B :=
  dbatch_insert d batch col key value.
Definition insert_serialize {T} (c : Codec T) (batch : B) (col : Z) (key : Bytes) (item : T) : outcome DbError B :=
  dbatch_insert d batch col key (enc c item).
Definition batch_remove (batch : B) (col : Z) (key : Bytes) : outcome DbError B :=
  dbatch_delete d batch col key.

Definition header_kernel (h : Header) : RawHeader * Seal := (h_raw h, h_seal h).
Definition uncle_kernel (u : UncleBlock) : RawHeader * Seal * list Bytes :=
  (header_kernel (uncle_header u), uncle_proposals u).

Definition kv_insert_block (batch : B) (block : Block) : outcome DbError B :=
  let hash := h256_as_bytes (b_hash block) in
  batch ← insert_serialize c_header batch COLUMN_BLOCK_HEADER hash (header_kernel (b_header block));
  batch ← insert_serialize c_uncles batch COLUMN_BLOCK_UNCLE hash (uncle_kernel <$> b_uncles block);
  batch ← insert_serialize c_proposals batch COLUMN_BLOCK_PROPOSAL_IDS hash (b_proposals block);
  '(block_data, block_addresses) ← unwrap (serialize_block_body (b_transactions block));
  batch ← insert_raw batch COLUMN_BLOCK_BODY hash block_data;
  insert_serialize c_addresses batch COLUMN_BLOCK_TRANSACTION_ADDRESSES hash block_addresses.

Definition kv_insert_block_ext (batch : B) (block_hash : H256) (ext : BlockExt) : outcome DbError B :=
  insert_serialize c_ext batch COLUMN_EXT (h256_as_bytes block_hash) ext.

(** The metadata without the output, which is not encoded. *)
Definition meta_kernel (m : CellMeta) : CellOutPoint * option BlockInfo * bool * Capacity * option H256 :=
  (cm_out_point m, cm_block_info m, cm_cellbase m, cm_capacity m, cm_data_hash m).

Definition attach_output (block : Block) (tx_hash : H256) (cellbase : bool) (batch : B) (p : nat * CellOutput)
    : outcome DbError B :=
  let '(index, output) := p in
  let out_point := mkCellOutPoint tx_hash (cast U32_SIZE (Z.of_nat index)) in
  let store_key := CellKey_calculate (cop_tx_hash out_point) (cop_index out_point) in
  let cell_meta := mkCellMeta None out_point
    (Some (mkBlockInfo (h_number (b_header block)) (h_epoch (b_header block))))
    cellbase (co_capacity output) (Some (data_hash blake2b_256 output)) in
  insert_serialize c_cell_meta batch COLUMN_CELL_META store_key (meta_kernel cell_meta).

Definition attach_transaction (block : Block) (batch : B) (p : nat * (Transaction * TransactionAddressInner))
    : outcome DbError B :=
  let '(id, (tx, addr)) := p in
  batch ← insert_serialize c_address batch COLUMN_TRANSACTION_ADDR (h256_as_bytes (tx_hash tx))
    (into_stored addr (b_hash block));
  let cellbase := bool_decide (id = 0%nat) in
  try_fold (attach_output block (tx_hash tx) cellbase) batch (enumerate (tx_outputs tx)).

Definition kv_attach_block (batch : B) (block : Block) : outcome DbError B :=
  let hash := h256_as_bytes (b_hash block) in
  '(_, tx_addresses) ← unwrap (serialize_block_body_size (b_transactions block));
  batch ← try_fold (attach_transaction block) batch (enumerate (zip (b_transactions block) tx_addresses));
  let number := u64_to_le_bytes (b_number block) in
  batch ← insert_raw batch COLUMN_INDEX number hash;
  batch ← try_fold (fun batch uncle => insert_raw batch COLUMN_UNCLES (h256_as_bytes (uncle_hash uncle)) [])
    batch (b_uncles block);
  insert_raw batch COLUMN_INDEX hash number.

Definition detach_transaction (batch : B) (tx : Transaction) : outcome DbError B :=
  batch ← batch_remove batch COLUMN_TRANSACTION_ADDR (h256_as_bytes (tx_hash tx));
  try_fold (fun batch index =>
    batch_remove batch COLUMN_CELL_META (CellKey_calculate (tx_hash tx) (cast U32_SIZE (Z.of_nat index))))
    batch (seq 0 (length (tx_outputs tx))).

Definition kv_detach_block (batch : B) (block : Block) : outcome DbError B :=
  batch ← try_fold detach_transaction batch (b_transactions block);
  batch ← try_fold (fun batch uncle => batch_remove batch COLUMN_UNCLES (h256_as_bytes (uncle_hash uncle)))
    batch (b_uncles block);
  batch ← batch_remove batch COLUMN_INDEX (u64_to_le_bytes (b_number block));
  batch_remove batch COLUMN_INDEX (h256_as_bytes (b_hash block)).

Definition kv_insert_tip_header (batch : B) (h : Header) : outcome DbError B :=
  insert_raw batch COLUMN_META META_TIP_HEADER_KEY (h256_as_bytes (h_hash h)).

Definition kv_insert_block_epoch_index (batch : B) (block_hash epoch_hash : H256) : outcome DbError B :=
  insert_raw batch COLUMN_BLOCK_EPOCH (h256_as_bytes block_hash) (h256_as_bytes epoch_hash).

Definition kv_insert_epoch_ext (batch : B) (hash : H256) (epoch : EpochExt) : outcome DbError B :=
  let epoch_index := h256_as_bytes hash in
  let epoch_number := u64_to_le_bytes (ep_number epoch) in
  batch ← insert_serialize c_epoch batch COLUMN_EPOCH epoch_index epoch;
  insert_raw batch COLUMN_EPOCH epoch_number epoch_index.

Definition kv_insert_current_epoch_ext (batch : B) (epoch : EpochExt) : outcome DbError B :=
  insert_serialize c_epoch batch COLUMN_META META_CURRENT_EPOCH_KEY epoch.

Definition kv_update_cell_set (batch : B) (tx_hash : H256) (meta : TransactionMeta) : outcome DbError B :=
  insert_serialize c_tx_meta batch COLUMN_CELL_SET (h256_as_bytes tx_hash) meta.

Definition kv_delete_cell_set (batch : B) (tx_hash : H256) : outcome DbError B :=
  batch_remove batch COLUMN_CELL_SET (h256_as_bytes tx_hash).

(** [ChainStore::init]. *)
Definition kv_init (consensus : Consensus) : outcome DbError D :=
  let genesis := genesis_block consensus in
  let epoch := genesis_epoch_ext consensus in
  batch ← db_batch d;
  ext ← genesis_ext genesis;
  batch ← try_fold (fun batch tx => kv_update_cell_set batch (tx_hash tx) (genesis_meta genesis tx))
    batch (b_transactions genesis);
  batch ← kv_insert_block batch genesis;
  batch ← kv_insert_block_ext batch (b_hash genesis) ext;
  batch ← kv_insert_tip_header batch (b_header genesis);
  batch ← kv_insert_current_epoch_ext batch epoch;
  batch ← kv_insert_block_epoch_index batch (b_hash genesis) (ep_last_block_hash_in_previous_epoch epoch);
  batch ← kv_insert_epoch_ext batch (ep_last_block_hash_in_previous_epoch epoch) epoch;
  batch ← kv_attach_block batch genesis;
  dbatch_commit d batch.
End store_batch.
