(* ===== verification/StoreRefines.v ===== *)
(** * The store on bytes implements the store on maps

    [represents s cells val]: the contents [val] of a database are the encoding of
    the typed store [s] of [ChainStore] and of the column [cells] of the cell set.
    Every method of a batch keeps this relation along with the typed operation,
    and every read gives the typed answer, through the caches. *)
From S2P Require Import Prelude Capacity ByteStrings Transactions Blocks CellSet Cells Epochs ChainStore ChainService LinkedMap FlatBody KeyValue StoreBytes.

(** ** Keys *)
Lemma h256_as_bytes_inj h h' : u256 h -> u256 h' -> h256_as_bytes h = h256_as_bytes h' -> h = h'.
Proof.
  intros Hh Hh' Heq. apply h256_from_as_bytes in Hh, Hh'. rewrite Heq in Hh. congruence.
Qed.

Lemma u64_to_le_bytes_inj n n' : u64 n -> u64 n' -> u64_to_le_bytes n = u64_to_le_bytes n' -> n = n'.
Proof.
  intros Hn Hn' Heq. unfold u64_to_le_bytes in Heq.
  rewrite <- (le_combine_split_range 8 n), <- (le_combine_split_range 8 n') by done. by rewrite Heq.
Qed.

Lemma CellKey_calculate_inj h i h' i' :
  u256 h -> u32 i -> u256 h' -> u32 i' -> CellKey_calculate h i = CellKey_calculate h' i' -> h = h' /\ i = i'.
Proof.
  intros Hh Hi Hh' Hi' Heq. pose proof (CellKey_calculate_deconstruct (E := unit) h i Hh Hi) as H1.
  rewrite Heq, CellKey_calculate_deconstruct in H1 by done. injection H1 as -> ->. done.
Qed.

Lemma h256_key_not_number h n : h256_as_bytes h <> u64_to_le_bytes n.
Proof.
  intros Heq. apply (f_equal length) in Heq. rewrite length_h256_as_bytes in Heq.
  unfold u64_to_le_bytes in Heq. by rewrite length_le_split in Heq.
Qed.

(** ** Columns *)
Lemma put_eq column k v : put column k v k = v.
Proof. unfold put. by rewrite decide_True. Qed.
Lemma put_ne column k v k' : k' <> k -> put column k v k' = column k'.
Proof. intros Hk. unfold put. by rewrite decide_False. Qed.

Lemma put_Some column k w k' v : put column k w k' = Some v -> k' = k \/ column k' = Some v.
Proof. unfold put. case_decide; auto. Qed.

Section column.
Context {K V : Type} `{Countable K} (P : K -> Prop) (key : K -> Bytes).
Context (key_inj : forall x y, P x -> P y -> key x = key y -> x = y).

(** The entries of a map under the keys of a column. *)
Definition column_of (column : Bytes -> option Bytes) (f : V -> option Bytes) (m : gmap K V) : Prop :=
  forall x, P x -> column (key x) = m !! x ≫= f.

Lemma column_insert column f m x v bytes :
  P x -> f v = Some bytes -> column_of column f m -> column_of (put column (key x) (Some bytes)) f (<[x := v]> m).
Proof.
  intros Hx Hf Hc y Hy. destruct (decide (y = x)) as [->|Hne].
  - by rewrite put_eq, lookup_insert_eq.
  - rewrite lookup_insert_ne by done. rewrite put_ne by (intros ?; auto). by apply Hc.
Qed.

Lemma column_delete column f m x :
  P x -> column_of column f m -> column_of (put column (key x) None) f (delete x m).
Proof.
  intros Hx Hc y Hy. destruct (decide (y = x)) as [->|Hne].
  - by rewrite put_eq, lookup_delete_eq.
  - rewrite lookup_delete_ne by done. rewrite put_ne by (intros ?; auto). by apply Hc.
Qed.

(** Keys of another shape leave the column alone. *)
Lemma column_other column f m k v :
  (forall x, key x <> k) -> column_of column f m -> column_of (put column k v) f m.
Proof. intros Hk Hc x Hx. rewrite put_ne by apply Hk. by apply Hc. Qed.
End column.

(** ** The relation *)
Section represents.
Context `{HC : StoreCodecs} (blake2b_256 : Bytes -> H256) (serialize_uncles : list UncleBlock -> Bytes)
  (merkle_root : list H256 -> H256).

(** The columns that are written together for a block. *)
Definition block_columns : list (Z * (Block -> Bytes)) :=
  [(COLUMN_BLOCK_HEADER, fun b => enc c_header (header_kernel (b_header b)));
   (COLUMN_BLOCK_UNCLE, fun b => enc c_uncles (uncle_kernel <$> b_uncles b));
   (COLUMN_BLOCK_PROPOSAL_IDS, fun b => enc c_proposals (b_proposals b));
   (COLUMN_BLOCK_BODY, fun b => body_bytes (b_transactions b));
   (COLUMN_BLOCK_TRANSACTION_ADDRESSES, fun b => enc c_addresses (addresses_from 0 0 (b_transactions b)))].

Definition stored_address (blocks : gmap Z Block) (p : H256 * nat) : option Bytes :=
  b ← blocks !! p.1;
  a ← addresses_from 0 0 (b_transactions b) !! p.2;
  Some (enc c_address (into_stored a p.1)).

(** A block as the builder makes it, with uncles as they are received. *)
Definition block_built (b : Block) : Prop :=
  BlockBuilder_build blake2b_256 (fun raw seal => enc c_header (raw, seal)) serialize_uncles merkle_root
    (h_raw (b_header b)) (h_seal (b_header b)) (b_uncles b) (b_transactions b) (b_proposals b) = b /\
  Forall (fun u => make_header blake2b_256 (h_raw (uncle_header u)) (h_seal (uncle_header u)) = uncle_header u) (b_uncles b).

(** The hashes and the number of a block have their types. *)
Definition block_typed (b : Block) : Prop :=
  u256 (b_hash b) /\ u64 (b_number b) /\ Forall (fun u => u256 (uncle_hash u)) (b_uncles b) /\
  Forall (fun tx => u256 (tx_hash tx)) (b_transactions b) /\ body_fits (b_transactions b).

Definition uncle_mark (uncles : gset H256) (h : H256) : option Bytes := if decide (h ∈ uncles) then Some [] else None.

Record represents (s : StoreData) (cells : gmap Z TransactionMeta) (val : Contents) : Prop := {
  rp_blocks c f : (c, f) ∈ block_columns -> column_of u256 h256_as_bytes (val c) (Some ∘ f) (sd_blocks s);
  rp_ext : column_of u256 h256_as_bytes (val COLUMN_EXT) (Some ∘ enc c_ext) (sd_ext s);
  rp_hash_of : column_of u64 u64_to_le_bytes (val COLUMN_INDEX) (Some ∘ h256_as_bytes) (sd_hash_of s);
  rp_number_of : column_of u256 h256_as_bytes (val COLUMN_INDEX) (Some ∘ u64_to_le_bytes) (sd_number_of s);
  rp_uncles h : u256 h -> val COLUMN_UNCLES (h256_as_bytes h) = uncle_mark (sd_uncles s) h;
  rp_tx_addr : column_of u256 h256_as_bytes (val COLUMN_TRANSACTION_ADDR) (stored_address (sd_blocks s)) (sd_tx_addr s);
  rp_cell_meta : column_of (fun p => u256 p.1 /\ u32 p.2) (fun p => CellKey_calculate p.1 p.2)
    (val COLUMN_CELL_META) (Some ∘ enc c_cell_meta ∘ meta_kernel) (sd_cell_meta s);
  rp_epoch_ext : column_of u256 h256_as_bytes (val COLUMN_EPOCH) (Some ∘ enc c_epoch) (sd_epoch_ext s);
  rp_epoch_index : column_of u64 u64_to_le_bytes (val COLUMN_EPOCH) (Some ∘ h256_as_bytes) (sd_epoch_index s);
  rp_block_epoch : column_of u256 h256_as_bytes (val COLUMN_BLOCK_EPOCH) (Some ∘ h256_as_bytes) (sd_block_epoch s);
  rp_tip : val COLUMN_META META_TIP_HEADER_KEY = h256_as_bytes <$> sd_tip s;
  rp_current_epoch : val COLUMN_META META_CURRENT_EPOCH_KEY = enc c_epoch <$> sd_current_epoch s;
  rp_cells : column_of u256 h256_as_bytes (val COLUMN_CELL_SET) (Some ∘ enc c_tx_meta) cells;
  rp_cell_keys k v : val COLUMN_CELL_SET k = Some v -> exists h, u256 h /\ k = h256_as_bytes h
}.

(** What holds of the typed store, so that its values can be read back. *)
Record store_typed (s : StoreData) (cells : gmap Z TransactionMeta) : Prop := {
  st_blocks h b : sd_blocks s !! h = Some b -> b_hash b = h /\ block_typed b /\ block_built b;
  st_tx_addr h p : sd_tx_addr s !! h = Some p -> is_Some (stored_address (sd_blocks s) p);
  st_tx_hash h p b tx : sd_tx_addr s !! h = Some p -> sd_blocks s !! p.1 = Some b ->
    b_transactions b !! p.2 = Some tx -> tx_hash tx = h;
  st_cell_meta k m : sd_cell_meta s !! k = Some m -> cm_cell_output m = None;
  st_hash_of n h : sd_hash_of s !! n = Some h -> u256 h;
  st_number_of h n : sd_number_of s !! h = Some n -> u64 n;
  st_epoch_index n h : sd_epoch_index s !! n = Some h -> u256 h;
  st_block_epoch b h : sd_block_epoch s !! b = Some h -> u256 h;
  st_tip h : sd_tip s = Some h -> u256 h;
  st_cells h m : cells !! h = Some m -> u256 h
}.
End represents.

(** ** The operations of a batch *)
Inductive StoreOp :=
| OpBlock (block : Block)
| OpBlockExt (block_hash : H256) (ext : BlockExt)
| OpTip (header : Header)
| OpCurrentEpoch (epoch : EpochExt)
| OpBlockEpoch (block_hash epoch_hash : H256)
| OpEpoch (hash : H256) (epoch : EpochExt)
| OpAttach (block : Block)
| OpDetach (block : Block)
| OpUpdateCells (tx_hash : H256) (meta : TransactionMeta)
| OpDeleteCells (tx_hash : H256).

Section operations.
Context `{HC : StoreCodecs} (blake2b_256 : Bytes -> H256) (serialize_uncles : list UncleBlock -> Bytes)
  (merkle_root : list H256 -> H256).
Local Abbreviation built := (block_built blake2b_256 serialize_uncles merkle_root).

(** On the typed store and the cell set. *)
Definition typed_op (op : StoreOp) (p : StoreData * gmap Z TransactionMeta) : StoreData * gmap Z TransactionMeta :=
  let '(s, cells) := p in
  match op with
  | OpBlock block => (insert_block block s, cells)
  | OpBlockExt h ext => (insert_block_ext h ext s, cells)
  | OpTip header => (insert_tip_header header s, cells)
  | OpCurrentEpoch epoch => (insert_current_epoch_ext epoch s, cells)
  | OpBlockEpoch h e => (insert_block_epoch_index h e s, cells)
  | OpEpoch h epoch => (insert_epoch_ext h epoch s, cells)
  | OpAttach block => (attach_block blake2b_256 block s, cells)
  | OpDetach block => (detach_block block s, cells)
  | OpUpdateCells h m => (s, <[h := m]> cells)
  | OpDeleteCells h => (s, delete h cells)
  end.

(** On a batch of the database. *)
Definition kv_op {D B} `{KeyValueDB D B} (d : D) (batch : B) (op : StoreOp) : outcome DbError B :=
  match op with
  | OpBlock block => kv_insert_block d batch block
  | OpBlockExt h ext => kv_insert_block_ext d batch h ext
  | OpTip header => kv_insert_tip_header d batch header
  | OpCurrentEpoch epoch => kv_insert_current_epoch_ext d batch epoch
  | OpBlockEpoch h e => kv_insert_block_epoch_index d batch h e
  | OpEpoch h epoch => kv_insert_epoch_ext d batch h epoch
  | OpAttach block => kv_attach_block blake2b_256 d batch block
  | OpDetach block => kv_detach_block d batch block
  | OpUpdateCells h m => kv_update_cell_set d batch h m
  | OpDeleteCells h => kv_delete_cell_set d batch h
  end.

(** When an operation may be applied: its arguments have their types, a hash names one
    block, and a block is stored before it is attached. *)
Definition op_ok (s : StoreData) (op : StoreOp) : Prop :=
  match op with
  | OpBlock block => block_typed block /\ built block /\
      (forall b, sd_blocks s !! b_hash block = Some b -> b = block)
  | OpBlockExt h _ | OpUpdateCells h _ | OpDeleteCells h => u256 h
  | OpTip header => u256 (h_hash header)
  | OpCurrentEpoch _ => True
  | OpBlockEpoch h e => u256 h /\ u256 e
  | OpEpoch h epoch => u256 h /\ u64 (ep_number epoch)
  | OpAttach block => block_typed block /\ sd_blocks s !! b_hash block = Some block
  | OpDetach block => block_typed block
  end.

(** What an operation adds to a batch. *)
Definition metas_ops (metas : list (Z * Z * CellMeta)) : list BatchOperation :=
  (fun '(k, m) => BInsert COLUMN_CELL_META (CellKey_calculate k.1 k.2) (enc c_cell_meta (meta_kernel m))) <$> metas.
Definition tx_address (txs : list Transaction) (i : nat) (tx : Transaction) : TransactionAddressInner :=
  mkAddressInner (Z.of_nat i) (body_size (take i txs)) (tx_size tx) (tx_header tx) (tx_outputs_addresses tx).
Definition attach_tx_ops (block : Block) (p : nat * Transaction) : list BatchOperation :=
  BInsert COLUMN_TRANSACTION_ADDR (h256_as_bytes (tx_hash p.2))
    (enc c_address (into_stored (tx_address (b_transactions block) p.1 p.2) (b_hash block)))
  :: metas_ops (tx_cell_metas blake2b_256 block p.1 p.2).
Definition detach_tx_ops (tx : Transaction) : list BatchOperation :=
  BDelete COLUMN_TRANSACTION_ADDR (h256_as_bytes (tx_hash tx))
  :: ((fun index => BDelete COLUMN_CELL_META (CellKey_calculate (tx_hash tx) (cast U32_SIZE (Z.of_nat index))))
      <$> seq 0 (length (tx_outputs tx))).

Definition op_list (op : StoreOp) : list BatchOperation :=
  match op with
  | OpBlock block => (fun '(c, f) => BInsert c (h256_as_bytes (b_hash block)) (f block)) <$> block_columns
  | OpBlockExt h ext => [BInsert COLUMN_EXT (h256_as_bytes h) (enc c_ext ext)]
  | OpTip header => [BInsert COLUMN_META META_TIP_HEADER_KEY (h256_as_bytes (h_hash header))]
  | OpCurrentEpoch epoch => [BInsert COLUMN_META META_CURRENT_EPOCH_KEY (enc c_epoch epoch)]
  | OpBlockEpoch h e => [BInsert COLUMN_BLOCK_EPOCH (h256_as_bytes h) (h256_as_bytes e)]
  | OpEpoch h epoch =>
      [BInsert COLUMN_EPOCH (h256_as_bytes h) (enc c_epoch epoch);
       BInsert COLUMN_EPOCH (u64_to_le_bytes (ep_number epoch)) (h256_as_bytes h)]
  | OpAttach block =>
      concat (attach_tx_ops block <$> enumerate (b_transactions block))
      ++ [BInsert COLUMN_INDEX (u64_to_le_bytes (b_number block)) (h256_as_bytes (b_hash block))]
      ++ ((fun uncle => BInsert COLUMN_UNCLES (h256_as_bytes (uncle_hash uncle)) []) <$> b_uncles block)
      ++ [BInsert COLUMN_INDEX (h256_as_bytes (b_hash block)) (u64_to_le_bytes (b_number block))]
  | OpDetach block =>
      concat (detach_tx_ops <$> b_transactions block)
      ++ ((fun uncle => BDelete COLUMN_UNCLES (h256_as_bytes (uncle_hash uncle))) <$> b_uncles block)
      ++ [BDelete COLUMN_INDEX (u64_to_le_bytes (b_number block));
          BDelete COLUMN_INDEX (h256_as_bytes (b_hash block))]
  | OpUpdateCells h m => [BInsert COLUMN_CELL_SET (h256_as_bytes h) (enc c_tx_meta m)]
  | OpDeleteCells h => [BDelete COLUMN_CELL_SET (h256_as_bytes h)]
  end.
End operations.

Lemma try_fold_fmap {E A B C} (f : B -> A -> outcome E B) (g : C -> A) l b :
  try_fold f b (g <$> l) = try_fold (fun b x => f b (g x)) b l.
Proof. revert b. induction l as [|x l IH]; intros b; cbn; [done|]. destruct (f b (g x)); cbn; auto. Qed.

(** *** A method adds its operations *)
Section pushes.
Context `{HC : StoreCodecs} `{HCL : !StoreCodecsLaws}.
Context {D B : Type} `{HD : !KeyValueDB D B} `{HS : !DbSpec D B} `{HK : !KeyValueLaws D B}.
Context (blake2b_256 : Bytes -> H256) (d : D).
Context (has_columns : forall c, 0 <= c < COLUMNS -> db_has d c).

Definition pushes (b : B) (ops : list BatchOperation) (m : outcome DbError B) : Prop :=
  exists b', m = Ok b' /\ batch_for d b' /\ batch_ops b' = batch_ops b ++ ops.

Lemma pushes_insert b c k v :
  batch_for d b -> 0 <= c < COLUMNS -> pushes b [BInsert c k v] (dbatch_insert d b c k v).
Proof.
  intros Hb Hc. destruct (dbatch_insert_law d b c k v Hb (has_columns c Hc)) as (b' & Hi & Hs). by exists b'.
Qed.

Lemma pushes_delete b c k :
  batch_for d b -> 0 <= c < COLUMNS -> pushes b [BDelete c k] (dbatch_delete d b c k).
Proof.
  intros Hb Hc. destruct (dbatch_delete_law d b c k Hb (has_columns c Hc)) as (b' & Hi & Hs). by exists b'.
Qed.

Lemma pushes_bind b ops1 ops2 m f :
  pushes b ops1 m -> (forall b', batch_for d b' -> pushes b' ops2 (f b')) -> pushes b (ops1 ++ ops2) (m ≫= f).
Proof.
  intros (b1 & -> & Hb1 & Ho1) Hf. destruct (Hf b1 Hb1) as (b2 & Hm & Hb2 & Ho2). exists b2.
  split; [done|]. split; [done|]. by rewrite Ho2, Ho1, app_assoc.
Qed.

Lemma pushes_cons b op ops m f :
  pushes b [op] m -> (forall b', batch_for d b' -> pushes b' ops (f b')) -> pushes b (op :: ops) (m ≫= f).
Proof. apply (pushes_bind b [op] ops). Qed.

Lemma pushes_fold {A} (f : B -> A -> outcome DbError B) (g : A -> list BatchOperation) l b :
  batch_for d b -> (forall b x, x ∈ l -> batch_for d b -> pushes b (g x) (f b x)) ->
  pushes b (concat (g <$> l)) (try_fold f b l).
Proof.
  intros Hb Hf. revert b Hb. induction l as [|x l IH]; intros b Hb.
  { exists b. cbn. by rewrite app_nil_r. }
  cbn. apply pushes_bind; [apply Hf; [left|done]|]. intros b' Hb'. apply IH; [|done].
  intros b0 x0 Hx0. apply Hf. by right.
Qed.

Lemma pushes_fold1 {A} (f : B -> A -> outcome DbError B) (g : A -> BatchOperation) l b :
  batch_for d b -> (forall b x, x ∈ l -> batch_for d b -> pushes b [g x] (f b x)) ->
  pushes b (g <$> l) (try_fold f b l).
Proof.
  intros Hb Hf. replace (g <$> l) with (concat ((fun x => [g x]) <$> l)); [by apply pushes_fold|].
  clear. induction l; cbn; congruence.
Qed.

Lemma addresses_imap txs : addresses_from 0 0 txs = imap (tx_address txs) txs.
Proof.
  apply list_eq. intros i. rewrite addresses_from_lookup, list_lookup_imap. by destruct (txs !! i).
Qed.

Lemma enumerate_zip_addresses txs :
  enumerate (zip txs (addresses_from 0 0 txs)) = (fun p => (p.1, (p.2, tx_address txs p.1 p.2))) <$> enumerate txs.
Proof.
  rewrite addresses_imap. unfold enumerate. apply list_eq. intros i.
  rewrite list_lookup_fmap, !list_lookup_imap, lookup_zip_with, list_lookup_imap.
  by destruct (txs !! i).
Qed.

Lemma in_columns c : bool_decide (0 <= c < COLUMNS) = true -> 0 <= c < COLUMNS.
Proof. apply bool_decide_eq_true. Qed.

Ltac push1 := first [apply pushes_insert|apply pushes_delete]; [assumption|by apply in_columns].

Lemma insert_block_pushes b block :
  body_fits (b_transactions block) -> batch_for d b ->
  pushes b (op_list blake2b_256 (OpBlock block)) (kv_insert_block d b block).
Proof.
  intros Hf Hb. unfold kv_insert_block, op_list, block_columns, insert_serialize, insert_raw. cbn [fmap list_fmap].
  do 3 (apply pushes_cons; [push1|intros ? ?]).
  rewrite serialize_block_body_eq by done. cbn [unwrap]. rewrite bind_ret_l.
  apply pushes_cons; [push1|intros ? ?]. push1.
Qed.

Lemma attach_tx_pushes block b id tx :
  batch_for d b ->
  pushes b (attach_tx_ops blake2b_256 block (id, tx))
    (attach_transaction blake2b_256 d block b (id, (tx, tx_address (b_transactions block) id tx))).
Proof.
  intros Hb. unfold attach_transaction, attach_tx_ops, insert_serialize. cbn [fst snd].
  apply pushes_cons; [push1|]. intros b' Hb'. unfold metas_ops, tx_cell_metas.
  unfold enumerate.
  match goal with |- pushes _ ?l _ => replace l with
    ((fun p => BInsert COLUMN_CELL_META (CellKey_calculate (tx_hash tx) (cast U32_SIZE (Z.of_nat p.1)))
        (enc c_cell_meta (meta_kernel (mkCellMeta None (mkCellOutPoint (tx_hash tx) (cast U32_SIZE (Z.of_nat p.1)))
          (Some (mkBlockInfo (h_number (b_header block)) (h_epoch (b_header block))))
          (bool_decide (id = 0%nat)) (co_capacity p.2) (Some (data_hash blake2b_256 p.2))))))
     <$> imap pair (tx_outputs tx)) end.
  2: { apply list_eq. intros i. rewrite !list_lookup_fmap, !list_lookup_imap, ?list_lookup_fmap.
       by destruct (tx_outputs tx !! i). }
  apply pushes_fold1; [done|]. intros b0 [index output] _ Hb0. push1.
Qed.

Lemma attach_block_pushes b block :
  body_fits (b_transactions block) -> batch_for d b ->
  pushes b (op_list blake2b_256 (OpAttach block)) (kv_attach_block blake2b_256 d b block).
Proof.
  intros Hf Hb. unfold kv_attach_block, op_list, insert_raw. rewrite serialize_block_body_size_eq by done.
  cbn [unwrap]. rewrite bind_ret_l, enumerate_zip_addresses. apply pushes_bind.
  - rewrite try_fold_fmap.
    apply pushes_fold; [done|]. intros b0 [id tx] _ Hb0. by apply attach_tx_pushes.
  - intros b1 Hb1. apply pushes_cons; [push1|]. intros b2 Hb2. apply pushes_bind.
    + apply pushes_fold1; [done|]. intros. push1.
    + intros b3 Hb3. push1.
Qed.

Lemma detach_block_pushes b block :
  batch_for d b -> pushes b (op_list blake2b_256 (OpDetach block)) (kv_detach_block d b block).
Proof.
  intros Hb. unfold kv_detach_block, op_list, batch_remove. apply pushes_bind.
  - apply pushes_fold; [done|]. intros b0 tx _ Hb0. unfold detach_transaction, detach_tx_ops, batch_remove.
    apply pushes_cons; [push1|]. intros b1 Hb1. apply pushes_fold1; [done|]. intros. push1.
  - intros b1 Hb1. apply pushes_bind; [apply pushes_fold1; [done|]; intros; push1|].
    intros b2 Hb2. apply pushes_cons; [push1|]. intros b3 Hb3. push1.
Qed.

Lemma kv_op_pushes serialize_uncles merkle_root s b op :
  op_ok blake2b_256 serialize_uncles merkle_root s op -> batch_for d b ->
  pushes b (op_list blake2b_256 op) (kv_op blake2b_256 d b op).
Proof.
  intros Hop Hb. destruct op; cbn [kv_op].
  all: unfold kv_insert_block_ext, kv_insert_tip_header, kv_insert_current_epoch_ext, kv_insert_block_epoch_index,
    kv_insert_epoch_ext, kv_update_cell_set, kv_delete_cell_set, insert_serialize, insert_raw, batch_remove; cbn [op_list].
  all: try solve [push1].
  - apply insert_block_pushes; [apply Hop|done].
  - apply pushes_cons; [push1|]. intros. push1.
  - apply attach_block_pushes; [apply Hop|done].
  - by apply detach_block_pushes.
Qed.
End pushes.

(** *** The operations keep the relation *)
Section keeps.
Context `{HC : StoreCodecs} `{HCL : !StoreCodecsLaws}.
Context (blake2b_256 : Bytes -> H256) (serialize_uncles : list UncleBlock -> Bytes)
  (merkle_root : list H256 -> H256).
Local Abbreviation typed := (store_typed blake2b_256 serialize_uncles merkle_root).

(** The relation between the two stores. *)
Definition related (p : StoreData * gmap Z TransactionMeta) (val : Contents) : Prop :=
  represents p.1 p.2 val /\ typed p.1 p.2.

Lemma column_of_ext {K V} `{Countable K} (P : K -> Prop) key column (f f' : V -> option Bytes) (m : gmap K V) :
  (forall x v, m !! x = Some v -> f v = f' v) -> column_of P key column f m -> column_of P key column f' m.
Proof. intros Hf Hc x Hx. rewrite Hc by done. destruct (m !! x) eqn:Hm; cbn; [by eapply Hf|done]. Qed.

(** The columns of blocks, when the operation is on another one. *)
Ltac same_block_columns :=
  match goal with
  | Hb : forall c f, (c, f) ∈ block_columns -> _ |- forall c f, (c, f) ∈ block_columns -> _ =>
      let c := fresh "c" in let f := fresh "f" in let Hin := fresh "Hin" in
      intros c f Hin; specialize (Hb c f Hin);
      repeat (apply elem_of_cons in Hin as [[= -> ->]|Hin]; [exact Hb|]);
      by apply not_elem_of_nil in Hin
  end.

Lemma stored_address_insert blocks block p v :
  (forall b, blocks !! b_hash block = Some b -> b = block) ->
  stored_address blocks p = Some v -> stored_address (<[b_hash block := block]> blocks) p = Some v.
Proof.
  intros Hb. unfold stored_address. destruct (decide (p.1 = b_hash block)) as [->|Hne].
  - rewrite lookup_insert_eq. destruct (blocks !! b_hash block) as [b|]; [|done]. by rewrite (Hb b eq_refl).
  - by rewrite lookup_insert_ne.
Qed.

Lemma related_block block s cells val :
  op_ok blake2b_256 serialize_uncles merkle_root s (OpBlock block) -> related (s, cells) val ->
  related (insert_block block s, cells) (apply_ops val (op_list blake2b_256 (OpBlock block))).
Proof.
  intros (Hty & Hbu & Hnew) [Hr Ht]. cbn [fst snd] in *.
  assert (forall h p, sd_tx_addr s !! h = Some p ->
    stored_address (sd_blocks s) p = stored_address (<[b_hash block := block]> (sd_blocks s)) p) as Ha.
  { intros h p Hp. destruct (st_tx_addr _ _ _ _ _ Ht h p Hp) as [v Hv]. rewrite Hv. symmetry.
    by apply stored_address_insert. }
  split; cbn [fst snd].
  - destruct Hr as [Hb ? ? ? ? Htx]. split; try assumption.
    + intros c f Hin. specialize (Hb c f Hin).
      repeat (apply elem_of_cons in Hin as [[= -> ->]|Hin];
        [apply column_insert; [by apply h256_as_bytes_inj|apply Hty|done|exact Hb]|]).
      by apply not_elem_of_nil in Hin.
    + apply (column_of_ext _ _ _ (stored_address (sd_blocks s))); [exact Ha|exact Htx].
  - destruct Ht as [Hb Hta Hth]. split; try assumption; cbn [sd_blocks insert_block].
    + intros h b [[<- <-]|[Hne Hl]]%lookup_insert_Some; [done|by apply Hb].
    + intros h p Hp. rewrite <- (Ha h p Hp). by apply (Hta h).
    + intros h p b tx Hp Hl Hi. destruct (Hta h p Hp) as [v Hv].
      unfold stored_address in Hv. destruct (sd_blocks s !! p.1) as [b'|] eqn:Hb'; [|done].
      apply (Hth h p b' tx); [done..|]. apply lookup_insert_Some in Hl as [[Heq <-]|[_ Hl]]; [|congruence].
      rewrite <- Heq in Hb'. by rewrite (Hnew _ Hb').
Qed.

(** The operations that write one entry or two. *)
Lemma related_simple op s cells val :
  match op with OpBlock _ | OpAttach _ | OpDetach _ => False | _ => True end ->
  op_ok blake2b_256 serialize_uncles merkle_root s op -> related (s, cells) val ->
  related (typed_op blake2b_256 op (s, cells)) (apply_ops val (op_list blake2b_256 op)).
Proof.
  intros Hs Hop [Hr Ht]. destruct op; try contradiction; cbn [op_ok] in Hop; cbn [typed_op].
  all: split; cbn [fst snd]; [destruct Hr; split; try assumption; try same_block_columns|destruct Ht; split; try assumption].
  - by apply column_insert; [apply h256_as_bytes_inj|..].
  - done.
  - cbn. by intros h [= <-].
  - done.
  - apply column_insert; [by apply h256_as_bytes_inj|apply Hop|done..].
  - cbn. intros b h [[<- <-]|[_ Hl]]%lookup_insert_Some; [apply Hop|eauto].
  - apply column_other; [intros x; apply h256_key_not_number|].
    apply column_insert; [by apply h256_as_bytes_inj|apply Hop|done..].
  - apply column_insert; [by apply u64_to_le_bytes_inj|apply Hop|done|].
    apply column_other; [intros x Hx; by eapply h256_key_not_number|done].
  - cbn. intros n h [[<- <-]|[_ Hl]]%lookup_insert_Some; [apply Hop|eauto].
  - by apply column_insert; [apply h256_as_bytes_inj|..].
  - intros k v [->|Hv]%put_Some; eauto.
  - intros h m [[<- <-]|[_ Hl]]%lookup_insert_Some; [done|eauto].
  - by apply column_delete; [apply h256_as_bytes_inj|..].
  - intros k v [->|Hv]%put_Some; eauto.
  - intros h m [_ Hl]%lookup_delete_Some. eauto.
Qed.

(** **** Attaching and detaching, entry by entry *)
Definition index_store (s : StoreData) (hash_of : gmap Z H256) (number_of : gmap Z Z) (uncles : gset H256)
    (st : gmap Z (H256 * nat) * gmap (Z * Z) CellMeta) : StoreData :=
  mkStore (sd_blocks s) (sd_ext s) hash_of number_of uncles st.1 st.2
    (sd_epoch_ext s) (sd_epoch_index s) (sd_block_epoch s) (sd_tip s) (sd_current_epoch s).

Ltac related_tac :=
  intros [Hr Ht]; split; cbn [fst snd];
  [destruct Hr; split; try assumption; try same_block_columns|destruct Ht; split; try assumption].

Section entries.
Context (s : StoreData) (cells : gmap Z TransactionMeta) (ho : gmap Z H256) (no : gmap Z Z) (un : gset H256).
Context (ta : gmap Z (H256 * nat)) (cm : gmap (Z * Z) CellMeta) (val : Contents).

Lemma cell_key_inj (x y : Z * Z) :
  u256 x.1 /\ u32 x.2 -> u256 y.1 /\ u32 y.2 -> CellKey_calculate x.1 x.2 = CellKey_calculate y.1 y.2 -> x = y.
Proof.
  intros [H1 H2] [H3 H4] Heq. destruct (CellKey_calculate_inj _ _ _ _ H1 H2 H3 H4 Heq), x, y. by simplify_eq/=.
Qed.

Lemma related_meta k m :
  u256 k.1 -> u32 k.2 -> cm_cell_output m = None ->
  related (index_store s ho no un (ta, cm), cells) val ->
  related (index_store s ho no un (ta, <[k := m]> cm), cells)
    (apply_op val (BInsert COLUMN_CELL_META (CellKey_calculate k.1 k.2) (enc c_cell_meta (meta_kernel m)))).
Proof.
  intros H1 H2 Hm. related_tac.
  - by apply (column_insert _ (fun p : Z * Z => CellKey_calculate p.1 p.2) cell_key_inj).
  - cbn. intros k' m' [[<- <-]|[_ Hl]]%lookup_insert_Some; eauto.
Qed.

Lemma related_no_meta k :
  u256 k.1 -> u32 k.2 -> related (index_store s ho no un (ta, cm), cells) val ->
  related (index_store s ho no un (ta, delete k cm), cells)
    (apply_op val (BDelete COLUMN_CELL_META (CellKey_calculate k.1 k.2))).
Proof.
  intros H1 H2. related_tac.
  - by apply (column_delete _ (fun p : Z * Z => CellKey_calculate p.1 p.2) cell_key_inj).
  - cbn. intros k' m' [_ Hl]%lookup_delete_Some. eauto.
Qed.

Lemma related_addr h p v :
  u256 h -> stored_address (sd_blocks s) p = Some v ->
  (forall b tx, sd_blocks s !! p.1 = Some b -> b_transactions b !! p.2 = Some tx -> tx_hash tx = h) ->
  related (index_store s ho no un (ta, cm), cells) val ->
  related (index_store s ho no un (<[h := p]> ta, cm), cells)
    (apply_op val (BInsert COLUMN_TRANSACTION_ADDR (h256_as_bytes h) v)).
Proof.
  intros Hh Hp Hth. related_tac.
  - by apply column_insert; [apply h256_as_bytes_inj|..].
  - cbn. intros h' p' [[<- <-]|[_ Hl]]%lookup_insert_Some; [by rewrite Hp|eauto].
  - cbn. intros h' p' b tx [[<- <-]|[_ Hl]]%lookup_insert_Some; eauto.
Qed.

Lemma related_no_addr h :
  u256 h -> related (index_store s ho no un (ta, cm), cells) val ->
  related (index_store s ho no un (delete h ta, cm), cells)
    (apply_op val (BDelete COLUMN_TRANSACTION_ADDR (h256_as_bytes h))).
Proof.
  intros Hh. related_tac.
  - by apply column_delete; [apply h256_as_bytes_inj|..].
  - cbn. intros h' p' [_ Hl]%lookup_delete_Some. eauto.
  - cbn. intros h' p' b tx [_ Hl]%lookup_delete_Some. eauto.
Qed.

Lemma related_hash_of n h :
  u64 n -> u256 h -> related (index_store s ho no un (ta, cm), cells) val ->
  related (index_store s (<[n := h]> ho) no un (ta, cm), cells)
    (apply_op val (BInsert COLUMN_INDEX (u64_to_le_bytes n) (h256_as_bytes h))).
Proof.
  intros Hn Hh. related_tac.
  - by apply column_insert; [apply u64_to_le_bytes_inj|..].
  - apply column_other; [intros x; apply h256_key_not_number|done].
  - cbn. intros n' h' [[<- <-]|[_ Hl]]%lookup_insert_Some; eauto.
Qed.

Lemma related_number_of h n :
  u256 h -> u64 n -> related (index_store s ho no un (ta, cm), cells) val ->
  related (index_store s ho (<[h := n]> no) un (ta, cm), cells)
    (apply_op val (BInsert COLUMN_INDEX (h256_as_bytes h) (u64_to_le_bytes n))).
Proof.
  intros Hn Hh. related_tac.
  - apply column_other; [intros x Hx; by eapply h256_key_not_number|done].
  - by apply column_insert; [apply h256_as_bytes_inj|..].
  - cbn. intros n' h' [[<- <-]|[_ Hl]]%lookup_insert_Some; eauto.
Qed.

Lemma related_no_hash n :
  u64 n -> related (index_store s ho no un (ta, cm), cells) val ->
  related (index_store s (delete n ho) no un (ta, cm), cells) (apply_op val (BDelete COLUMN_INDEX (u64_to_le_bytes n))).
Proof.
  intros Hn. related_tac.
  - by apply column_delete; [apply u64_to_le_bytes_inj|..].
  - apply column_other; [intros x; apply h256_key_not_number|done].
  - cbn. intros n' h' [_ Hl]%lookup_delete_Some. eauto.
Qed.

Lemma related_no_number h :
  u256 h -> related (index_store s ho no un (ta, cm), cells) val ->
  related (index_store s ho (delete h no) un (ta, cm), cells) (apply_op val (BDelete COLUMN_INDEX (h256_as_bytes h))).
Proof.
  intros Hn. related_tac.
  - apply column_other; [intros x Hx; by eapply h256_key_not_number|done].
  - by apply column_delete; [apply h256_as_bytes_inj|..].
  - cbn. intros n' h' [_ Hl]%lookup_delete_Some. eauto.
Qed.

Lemma related_uncle h :
  u256 h -> related (index_store s ho no un (ta, cm), cells) val ->
  related (index_store s ho no (un ∪ {[h]}) (ta, cm), cells) (apply_op val (BInsert COLUMN_UNCLES (h256_as_bytes h) [])).
Proof.
  intros Hh. related_tac. intros h' Hh'. cbn [sd_uncles index_store]. unfold uncle_mark.
  destruct (decide (h' = h)) as [->|Hne].
  - rewrite decide_True by set_solver. apply put_eq.
  - etransitivity; [apply put_ne; intros ?%h256_as_bytes_inj; done|]. rewrite rp_uncles0 by done.
    unfold uncle_mark. cbn. apply decide_ext. set_solver.
Qed.

Lemma related_no_uncle h :
  u256 h -> related (index_store s ho no un (ta, cm), cells) val ->
  related (index_store s ho no (un ∖ {[h]}) (ta, cm), cells) (apply_op val (BDelete COLUMN_UNCLES (h256_as_bytes h))).
Proof.
  intros Hh. related_tac. intros h' Hh'. cbn [sd_uncles index_store]. unfold uncle_mark.
  destruct (decide (h' = h)) as [->|Hne].
  - rewrite decide_False by set_solver. apply put_eq.
  - etransitivity; [apply put_ne; intros ?%h256_as_bytes_inj; done|]. rewrite rp_uncles0 by done.
    unfold uncle_mark. cbn. apply decide_ext. set_solver.
Qed.
End entries.

Section loops.
Context (s : StoreData) (cells : gmap Z TransactionMeta).

Lemma u32_cast i : u32 (cast U32_SIZE i).
Proof. apply Z.mod_pos_bound. lia. Qed.

Lemma related_metas metas ho no un ta cm val :
  Forall (fun p => (u256 p.1.1 /\ u32 p.1.2) /\ cm_cell_output p.2 = None) metas ->
  related (index_store s ho no un (ta, cm), cells) val ->
  related (index_store s ho no un (ta, fold_left (fun m '(k, v) => <[k := v]> m) metas cm), cells)
    (apply_ops val (metas_ops metas)).
Proof.
  intros Hm. revert cm val. induction Hm as [|[k m] metas [[H1 H2] H3] _ IH]; intros cm val Hr; [done|].
  cbn [fold_left metas_ops fmap list_fmap]. rewrite apply_ops_cons. apply IH. by apply related_meta.
Qed.

Lemma tx_cell_metas_ok block i tx :
  u256 (tx_hash tx) ->
  Forall (fun p => (u256 p.1.1 /\ u32 p.1.2) /\ cm_cell_output p.2 = None) (tx_cell_metas blake2b_256 block i tx).
Proof.
  intros Hh. apply Forall_lookup. intros j p Hj. unfold tx_cell_metas in Hj. rewrite list_lookup_imap in Hj.
  destruct (tx_outputs tx !! j); [|done]. injection Hj as <-. cbn. split; [|done]. split; [done|apply u32_cast].
Qed.

Lemma related_attach_tx block i tx ho no un st val :
  block_typed block -> sd_blocks s !! b_hash block = Some block -> b_transactions block !! i = Some tx ->
  related (index_store s ho no un st, cells) val ->
  related (index_store s ho no un (attach_tx blake2b_256 block st (i, tx)), cells)
    (apply_ops val (attach_tx_ops blake2b_256 block (i, tx))).
Proof.
  intros (Hh & _ & _ & Htx & Hf) Hb Hi Hr. destruct st as [ta cm]. unfold attach_tx, attach_tx_ops. cbn [fst snd].
  assert (u256 (tx_hash tx)) as Hth by (rewrite Forall_lookup in Htx; eauto).
  rewrite apply_ops_cons. apply related_metas; [by apply tx_cell_metas_ok|].
  apply related_addr; [done| | |done].
  - unfold stored_address. cbn [fst snd]. rewrite Hb. cbn [mbind option_bind].
    by rewrite addresses_imap, list_lookup_imap, Hi.
  - cbn. intros b tx'. rewrite Hb. intros [= <-]. rewrite Hi. by intros [= <-].
Qed.

Lemma related_attach_txs block l ho no un st val :
  block_typed block -> sd_blocks s !! b_hash block = Some block ->
  (forall p, p ∈ l -> b_transactions block !! p.1 = Some p.2) ->
  related (index_store s ho no un st, cells) val ->
  related (index_store s ho no un (fold_left (attach_tx blake2b_256 block) l st), cells)
    (apply_ops val (concat (attach_tx_ops blake2b_256 block <$> l))).
Proof.
  intros Hty Hb. revert st val. induction l as [|[i tx] l IH]; intros st val Hl Hr; [done|].
  cbn [fold_left fmap list_fmap concat]. rewrite apply_ops_app. apply IH; [intros p Hp; apply Hl; by right|].
  apply related_attach_tx; [done..| |done]. apply (Hl (i, tx)). left.
Qed.

Lemma related_uncles l ho no un st val :
  Forall (fun u => u256 (uncle_hash u)) l -> related (index_store s ho no un st, cells) val ->
  related (index_store s ho no (un ∪ list_to_set (uncle_hash <$> l)) st, cells)
    (apply_ops val ((fun uncle => BInsert COLUMN_UNCLES (h256_as_bytes (uncle_hash uncle)) []) <$> l)).
Proof.
  intros Hl. destruct st as [ta cm]. revert un val. induction Hl as [|u l Hu _ IH]; intros un val Hr.
  { cbn. by rewrite union_empty_r_L. }
  cbn [fmap list_fmap list_to_set]. rewrite apply_ops_cons, union_assoc_L. apply IH. by apply related_uncle.
Qed.

Lemma related_no_uncles l ho no un st val :
  Forall (fun u => u256 (uncle_hash u)) l -> related (index_store s ho no un st, cells) val ->
  related (index_store s ho no (un ∖ list_to_set (uncle_hash <$> l)) st, cells)
    (apply_ops val ((fun uncle => BDelete COLUMN_UNCLES (h256_as_bytes (uncle_hash uncle))) <$> l)).
Proof.
  intros Hl. destruct st as [ta cm]. revert un val. induction Hl as [|u l Hu _ IH]; intros un val Hr.
  { cbn. by rewrite difference_empty_L. }
  cbn [fmap list_fmap list_to_set]. rewrite apply_ops_cons, <- difference_difference_l_L. apply IH. by apply related_no_uncle.
Qed.

Lemma related_attach block val :
  block_typed block -> sd_blocks s !! b_hash block = Some block -> related (s, cells) val ->
  related (attach_block blake2b_256 block s, cells) (apply_ops val (op_list blake2b_256 (OpAttach block))).
Proof.
  intros Hty Hb Hr. pose proof Hty as (Hh & Hn & Hu & _). cbn [op_list]. rewrite !apply_ops_app.
  replace (attach_block blake2b_256 block s) with
    (index_store s (<[b_number block := b_hash block]> (sd_hash_of s)) (<[b_hash block := b_number block]> (sd_number_of s))
      (sd_uncles s ∪ list_to_set (uncle_hash <$> b_uncles block))
      (fold_left (attach_tx blake2b_256 block) (enumerate (b_transactions block)) (sd_tx_addr s, sd_cell_meta s)))
    by (unfold attach_block, index_store; by destruct (fold_left _ _ _)).
  assert (related (index_store s (sd_hash_of s) (sd_number_of s) (sd_uncles s) (sd_tx_addr s, sd_cell_meta s), cells) val)
    as Hr' by (by destruct s).
  apply (related_attach_txs block (enumerate (b_transactions block))) in Hr'; [|done..|].
  2: { intros [i tx] Hin. by apply elem_of_enumerate. }
  destruct (fold_left _ _ _) as [ta cm]. apply related_number_of; [done..|].
  apply related_uncles; [done|]. by apply related_hash_of.
Qed.

Lemma related_detach_outputs (l : list nat) h ho no un ta cm val :
  u256 h -> related (index_store s ho no un (ta, cm), cells) val ->
  related (index_store s ho no un
      (ta, fold_left (fun m index => delete (h, cast U32_SIZE (Z.of_nat index)) m) l cm), cells)
    (apply_ops val ((fun index => BDelete COLUMN_CELL_META (CellKey_calculate h (cast U32_SIZE (Z.of_nat index)))) <$> l)).
Proof.
  intros Hh. revert cm val. induction l as [|i l IH]; intros cm val Hr; [done|].
  cbn [fmap list_fmap fold_left]. rewrite apply_ops_cons. apply IH.
  apply (related_no_meta _ _ _ _ _ _ _ _ (h, cast U32_SIZE (Z.of_nat i))); [done|apply u32_cast|done].
Qed.

Lemma related_detach_txs l ho no un st val :
  Forall (fun tx => u256 (tx_hash tx)) l -> related (index_store s ho no un st, cells) val ->
  related (index_store s ho no un (fold_left detach_tx l st), cells)
    (apply_ops val (concat (detach_tx_ops <$> l))).
Proof.
  intros Hl. revert st val. induction Hl as [|tx l Hh _ IH]; intros [ta cm] val Hr; [done|].
  cbn [fold_left fmap list_fmap concat]. rewrite apply_ops_app. apply IH. unfold detach_tx_ops, detach_tx.
  rewrite apply_ops_cons. apply related_detach_outputs; [done|]. by apply related_no_addr.
Qed.

Lemma related_detach block val :
  block_typed block -> related (s, cells) val ->
  related (detach_block block s, cells) (apply_ops val (op_list blake2b_256 (OpDetach block))).
Proof.
  intros (Hh & Hn & Hu & Htx & _) Hr. cbn [op_list]. rewrite !apply_ops_app.
  replace (detach_block block s) with
    (index_store s (delete (b_number block) (sd_hash_of s)) (delete (b_hash block) (sd_number_of s))
      (sd_uncles s ∖ list_to_set (uncle_hash <$> b_uncles block))
      (fold_left detach_tx (b_transactions block) (sd_tx_addr s, sd_cell_meta s)))
    by (unfold detach_block, index_store; by destruct (fold_left _ _ _)).
  assert (related (index_store s (sd_hash_of s) (sd_number_of s) (sd_uncles s) (sd_tx_addr s, sd_cell_meta s), cells) val)
    as Hr' by (by destruct s).
  apply (related_detach_txs (b_transactions block)) in Hr'; [|done].
  destruct (fold_left _ _ _) as [ta cm]. rewrite !apply_ops_cons.
  apply related_no_number; [done|]. apply related_no_hash; [done|]. by apply related_no_uncles.
Qed.
End loops.

Lemma related_op op p val :
  op_ok blake2b_256 serialize_uncles merkle_root p.1 op -> related p val ->
  related (typed_op blake2b_256 op p) (apply_ops val (op_list blake2b_256 op)).
Proof.
  destruct p as [s cells]. intros Hop Hr. destruct op; try solve [by apply related_simple].
  - by apply related_block.
  - destruct Hop. by apply related_attach.
  - by apply related_detach.
Qed.

(** A batch: its operations one after the other, each applied to what the ones before left. *)
Fixpoint batch_ok (p : StoreData * gmap Z TransactionMeta) (ops : list StoreOp) : Prop :=
  match ops with
  | [] => True
  | op :: ops =>
      op_ok blake2b_256 serialize_uncles merkle_root p.1 op /\ batch_ok (typed_op blake2b_256 op p) ops
  end.
Definition typed_ops (ops : list StoreOp) (p : StoreData * gmap Z TransactionMeta) : StoreData * gmap Z TransactionMeta :=
  foldl (fun p op => typed_op blake2b_256 op p) p ops.

Lemma related_ops ops p val :
  batch_ok p ops -> related p val ->
  related (typed_ops ops p) (apply_ops val (concat (op_list blake2b_256 <$> ops))).
Proof.
  revert p val. induction ops as [|op ops IH]; intros p val Hok Hr; [done|]. destruct Hok as [Hop Hok].
  cbn [fmap list_fmap concat]. rewrite apply_ops_app. apply IH; [done|]. by apply related_op.
Qed.
End keeps.
