(* ===== verification/StoreSound.v ===== *)
(** * Reads and commits of the chain store

    On a database that represents a typed store, with caches that hold what was
    stored at some time, committing a batch gives a database that represents the
    typed result, and every read gives the typed answer and leaves the relation
    as it is. *)
From S2P Require Import Prelude Capacity ByteStrings Transactions Blocks Fixtures CellSet Cells Epochs ChainStore ChainService LinkedMap FlatBody KeyValue StoreBytes StoreRefines.

Section sound.
Context `{HC : StoreCodecs} `{HCL : !StoreCodecsLaws}.
Context {D B : Type} `{HD : !KeyValueDB D B} `{HS : !DbSpec D B} `{HK : !KeyValueLaws D B}.
Context {LH LO : Type -> Type} `{HLH : !LruCache H256 LH} `{HLO : !LruCache (H256 * Z) LO}.
Context `{HLH' : !LruLaws H256 LH} `{HLO' : !LruLaws (H256 * Z) LO}.
Context (blake2b_256 : Bytes -> H256) (serialize_uncles : list UncleBlock -> Bytes)
  (merkle_root : list H256 -> H256).
Local Abbreviation related := (related blake2b_256 serialize_uncles merkle_root).
Local Abbreviation batch_ok := (batch_ok blake2b_256 serialize_uncles merkle_root).
Local Abbreviation Pair := (StoreData * gmap Z TransactionMeta)%type.
Local Abbreviation Store := (ChainKVStore D LH LO).
Local Abbreviation M := (M (D := D) (LH := LH) (LO := LO)).

(** An output of a transaction in a stored block, of the main chain or not. *)
Definition stored_output (s : StoreData) (h : H256) (index : Z) (o : CellOutput) : Prop :=
  exists bh b tx, sd_blocks s !! bh = Some b /\ tx ∈ b_transactions b /\ tx_hash tx = h /\
    tx_outputs tx !! Z.to_nat index = Some o.

Record kv_ok (p : Pair) (st : Store) : Prop := {
  ko_inv : db_inv (ks_db st);
  ko_columns c : 0 <= c < COLUMNS -> db_has (ks_db st) c;
  ko_related : related p (db_val (ks_db st));
  ko_headers h header : lru_get h (ks_header_cache st) = Some header -> get_block_header p.1 h = Some header;
  ko_outputs h i o : lru_get (h, i) (ks_cell_output_cache st) = Some o -> stored_output p.1 h i o
}.

(** ** Commits *)
Definition kv_commit (d : D) (ops : list StoreOp) : outcome DbError D :=
  batch ← db_batch d;
  batch ← try_fold (kv_op blake2b_256 d) batch ops;
  dbatch_commit d batch.

Lemma related_ext p val val' :
  (forall c k, 0 <= c < COLUMNS -> val' c k = val c k) -> related p val -> related p val'.
Proof.
  intros Hv [Hr Ht]. split; [|done]. destruct Hr as [Hb]. split; unfold column_of in *.
  2-13: intros; rewrite Hv by (by apply in_columns); match goal with H : _ |- _ => by apply H end.
  - intros c f Hin x Hx. rewrite Hv; [by apply Hb|].
    repeat (apply elem_of_cons in Hin as [[= -> ->]|Hin]; [by apply in_columns|]). by apply not_elem_of_nil in Hin.
  - intros k v. rewrite Hv by (by apply in_columns). apply rp_cell_keys.
Qed.

(** Stored blocks stay. *)
Lemma typed_ops_blocks ops p :
  batch_ok p ops -> sd_blocks p.1 ⊆ sd_blocks (typed_ops blake2b_256 ops p).1.
Proof.
  revert p. induction ops as [|op ops IH]; intros p Hok; [done|]. destruct Hok as [Hop Hok].
  etransitivity; [|by apply IH]. destruct p as [s cells], op as [block| | | | | |block|block| |]; cbn; try done.
  - destruct Hop as (_ & _ & Hnew). cbn in Hnew. destruct (sd_blocks s !! b_hash block) as [b|] eqn:Hb.
    + rewrite (Hnew b eq_refl) in Hb. by rewrite insert_id.
    + by apply insert_subseteq.
  - unfold attach_block. by destruct (fold_left _ _ _).
  - unfold detach_block. by destruct (fold_left _ _ _).
Qed.

Lemma batch_ok_each p ops op :
  batch_ok p ops -> op ∈ ops -> exists s, op_ok blake2b_256 serialize_uncles merkle_root s op.
Proof.
  revert p. induction ops as [|op' ops IH]; intros p Hok Hin; [by apply not_elem_of_nil in Hin|].
  destruct Hok as [Hop Hok]. apply elem_of_cons in Hin as [->|Hin]; eauto.
Qed.

Lemma kv_commit_ok p st ops :
  kv_ok p st -> batch_ok p ops -> exists d',
    kv_commit (ks_db st) ops = Ok d' /\
    kv_ok (typed_ops blake2b_256 ops p) (mkKVStore d' (ks_header_cache st) (ks_cell_output_cache st)).
Proof.
  intros [Hi Hc Hr Hh Ho] Hok. unfold kv_commit. destruct (db_batch_law _ Hi) as (b & -> & Hb & Hops).
  rewrite bind_ret_l.
  assert (pushes (ks_db st) b (concat (op_list blake2b_256 <$> ops)) (try_fold (kv_op blake2b_256 (ks_db st)) b ops))
    as (b' & -> & Hb' & Hops').
  { apply pushes_fold; [done|]. intros b0 op Hin Hb0. destruct (batch_ok_each p ops op Hok Hin) as [s Hs].
    by eapply kv_op_pushes. }
  rewrite bind_ret_l. destruct (dbatch_commit_law _ _ Hi Hb') as (d' & Hd & (Hi' & Hc' & _) & Hv). exists d'.
  split; [done|]. pose proof (typed_ops_blocks _ _ Hok) as Hsub. split; cbn.
  - done.
  - intros c Hcc. by apply Hc', Hc.
  - apply (related_ext _ (apply_ops (db_val (ks_db st)) (concat (op_list blake2b_256 <$> ops)))).
    + intros c k Hcc. rewrite Hv by auto. by rewrite Hops', Hops.
    + by apply related_ops.
  - intros h header Hg. apply Hh in Hg. unfold get_block_header in *. apply fmap_Some in Hg as (b1 & Hb1 & ->).
    by rewrite (lookup_weaken _ _ _ _ Hb1 Hsub).
  - intros h i o Hg. destruct (Ho h i o Hg) as (bh & b1 & tx & Hb1 & Hrest). exists bh, b1, tx.
    split; [by eapply lookup_weaken|done].
Qed.

(** ** Reads

    [m] runs from every store in the relation and gives a result with [Q]. *)
Definition yields {A} (p : Pair) (m : M A) (Q : A -> Prop) : Prop :=
  forall st, kv_ok p st -> exists a st', m st = Ok (a, st') /\ kv_ok p st' /\ Q a.
Definition answers {A} (p : Pair) (m : M A) (a : A) : Prop := yields p m (fun x => x = a).

Section rules.
Context (p : Pair).

Lemma yields_ret {A} (a : A) (Q : A -> Prop) : Q a -> yields p (mret a) Q.
Proof. intros HQ st Hst. by exists a, st. Qed.

Lemma yields_lift {A} (m : outcome DbError A) a (Q : A -> Prop) : m = Ok a -> Q a -> yields p (lift m) Q.
Proof. intros -> HQ st Hst. by exists a, st. Qed.

Lemma yields_bind {A C} (m : M A) (f : A -> M C) (Q : A -> Prop) (R : C -> Prop) :
  yields p m Q -> (forall a, Q a -> yields p (f a) R) -> yields p (m ≫= f) R.
Proof.
  intros Hm Hf st Hst. destruct (Hm st Hst) as (a & st1 & Hm1 & Hst1 & HQ).
  destruct (Hf a HQ st1 Hst1) as (c & st2 & Hf2 & Hst2 & HR). exists c, st2.
  unfold mbind, M_bind. rewrite Hm1. done.
Qed.

Lemma yields_mono {A} (m : M A) (Q R : A -> Prop) : yields p m Q -> (forall a, Q a -> R a) -> yields p m R.
Proof. intros Hm HQ st Hst. destruct (Hm st Hst) as (a & st' & ? & ? & ?). exists a, st'. auto. Qed.

(** Run a method whose answer is known. *)
Lemma answers_bind {A C} (m : M A) (f : A -> M C) a (R : C -> Prop) :
  answers p m a -> yields p (f a) R -> yields p (m ≫= f) R.
Proof. intros Hm Hf. eapply yields_bind; [exact Hm|]. by intros ? ->. Qed.

Lemma answers_opt_map {A C} (f : A -> M C) (o : option A) (g : A -> C) :
  (forall a, o = Some a -> answers p (f a) (g a)) -> answers p (opt_map f o) (g <$> o).
Proof.
  intros Hf. destruct o as [a|]; cbn; [|by apply yields_ret].
  eapply answers_bind; [by apply Hf|]. by apply yields_ret.
Qed.

Lemma get_answers c k : 0 <= c < COLUMNS -> forall st, kv_ok p st -> exists st',
  kv_get c k st = Ok (db_val (ks_db st) c k, st') /\ kv_ok p st' /\ db_val (ks_db st') = db_val (ks_db st).
Proof.
  intros Hc st [Hi Hcol Hr Hh Ho]. destruct (db_read_law _ c k Hi (Hcol c Hc)) as (d' & Hd & (Hi' & Hc' & _) & Hv).
  eexists. unfold kv_get. rewrite Hd. cbn. split; [reflexivity|]. cbn. split; [|done].
  split; cbn; [done|intros; by apply Hc', Hcol|by rewrite Hv|done..].
Qed.

(** A read of a key whose value the relation tells. *)
Lemma get_yields c k v :
  0 <= c < COLUMNS -> (forall val, related p val -> val c k = v) -> answers p (kv_get c k) v.
Proof.
  intros Hc Hv st Hst. destruct (get_answers c k Hc st Hst) as (st' & Hg & Hst' & _).
  exists v, st'. rewrite Hg, (Hv (db_val (ks_db st))) by apply Hst. done.
Qed.

Lemma partial_get_yields c k a b v :
  0 <= c < COLUMNS -> (forall val, related p val -> (x ← val c k; get_range x a b) = v) ->
  answers p (kv_partial_get c k (a, b)) v.
Proof.
  intros Hc Hv st [Hi Hcol Hr Hh Ho].
  destruct (db_partial_read_law _ c k a b Hi (Hcol c Hc)) as (d' & Hd & (Hi' & Hc' & _) & Hval).
  eexists v, _. unfold kv_partial_get. rewrite Hd. cbn [unwrap]. rewrite bind_ret_l, (Hv _ Hr). split; [done|].
  split; [|done]. split; cbn; [done|intros; by apply Hc', Hcol|by rewrite Hval|done..].
Qed.

Lemma decode_answers {A} (c : Codec A) a : codec_ok c -> answers p (decode c (enc c a)) a.
Proof. intros Hc. eapply yields_lift; [|done]. by rewrite dec_enc. Qed.

Lemma decode_h256_answers h : u256 h -> answers p (decode_h256 (h256_as_bytes h)) h.
Proof. intros Hh. eapply yields_lift; [|done]. by rewrite h256_from_as_bytes. Qed.

Lemma usize_add_answers a b : a + b < U64_SIZE -> answers p (usize_add a b) (a + b).
Proof. intros Hlt. eapply yields_lift; [|done]. by apply add_w_eq. Qed.
End rules.

Section reads.
Context (p : Pair).

Lemma read_column {K V W} `{Countable K} (P : K -> Prop) key c (e : V -> Bytes) (m : gmap K V) x
    (f : Bytes -> M W) (g : V -> W) :
  0 <= c < COLUMNS -> P x -> (forall val, related p val -> column_of P key (val c) (Some ∘ e) m) ->
  (forall v, m !! x = Some v -> answers p (f (e v)) (g v)) ->
  answers p (raw ← kv_get c (key x); opt_map f raw) (g <$> m !! x).
Proof.
  intros Hc Hx Hcol Hf. apply (answers_bind _ _ _ (e <$> m !! x)).
  - apply get_yields; [done|]. intros val Hr. rewrite (Hcol val Hr x Hx). by destruct (m !! x).
  - destruct (m !! x) as [v|]; cbn; [|by apply yields_ret].
    eapply answers_bind; [by apply Hf|]. by apply yields_ret.
Qed.

Lemma read_column_id {K V} `{Countable K} (P : K -> Prop) key c (e : V -> Bytes) (m : gmap K V) x (f : Bytes -> M V) :
  0 <= c < COLUMNS -> P x -> (forall val, related p val -> column_of P key (val c) (Some ∘ e) m) ->
  (forall v, m !! x = Some v -> answers p (f (e v)) v) ->
  answers p (raw ← kv_get c (key x); opt_map f raw) (m !! x).
Proof. intros Hc Hx Hcol Hf. rewrite <- (option_fmap_id (m !! x)). by apply (read_column P key c e). Qed.

(** What the relation says of the typed store can be used in a read. *)
Lemma yields_typed {A} (m : M A) Q :
  (store_typed blake2b_256 serialize_uncles merkle_root p.1 p.2 -> yields p m Q) -> yields p m Q.
Proof. intros Hm st Hst. by apply Hm; [apply Hst|]. Qed.

Lemma ext_answers h : u256 h -> answers p (kv_get_block_ext h) (get_block_ext p.1 h).
Proof.
  intros Hh. apply (read_column_id u256 h256_as_bytes COLUMN_EXT (enc c_ext)); [by apply in_columns|done| |].
  - by intros val [[] _].
  - intros v _. apply decode_answers, ext_ok.
Qed.

Lemma hash_answers n : u64 n -> answers p (kv_get_block_hash n) (get_block_hash p.1 n).
Proof.
  intros Hn. apply yields_typed. intros Ht.
  apply (read_column_id u64 u64_to_le_bytes COLUMN_INDEX h256_as_bytes); [by apply in_columns|done| |].
  - by intros val [[] _].
  - intros h Hh. by eapply decode_h256_answers, st_hash_of.
Qed.

Lemma number_answers h : u256 h -> answers p (kv_get_block_number h) (get_block_number p.1 h).
Proof.
  intros Hh. apply yields_typed. intros Ht.
  apply (read_column_id u256 h256_as_bytes COLUMN_INDEX u64_to_le_bytes); [by apply in_columns|done| |].
  - by intros val [[] _].
  - intros n Hn. eapply yields_lift; [|done]. by rewrite number_ok by (by eapply st_number_of).
Qed.

Lemma epoch_ext_answers h : u256 h -> answers p (kv_get_epoch_ext h) (get_epoch_ext p.1 h).
Proof.
  intros Hh. apply (read_column_id u256 h256_as_bytes COLUMN_EPOCH (enc c_epoch)); [by apply in_columns|done| |].
  - by intros val [[] _].
  - intros v _. apply decode_answers, epoch_ok.
Qed.

Lemma epoch_index_answers n : u64 n -> answers p (kv_get_epoch_index n) (get_epoch_index p.1 n).
Proof.
  intros Hn. apply yields_typed. intros Ht.
  apply (read_column_id u64 u64_to_le_bytes COLUMN_EPOCH h256_as_bytes); [by apply in_columns|done| |].
  - by intros val [[] _].
  - intros h Hh. by eapply decode_h256_answers, st_epoch_index.
Qed.

Lemma block_epoch_answers h : u256 h -> answers p (kv_get_block_epoch_index h) (get_block_epoch_index p.1 h).
Proof.
  intros Hn. apply yields_typed. intros Ht.
  apply (read_column_id u256 h256_as_bytes COLUMN_BLOCK_EPOCH h256_as_bytes); [by apply in_columns|done| |].
  - by intros val [[] _].
  - intros e He. by eapply decode_h256_answers, st_block_epoch.
Qed.

Lemma current_epoch_answers : answers p kv_get_current_epoch_ext (sd_current_epoch p.1).
Proof.
  apply (answers_bind _ _ _ (enc c_epoch <$> sd_current_epoch p.1)).
  - apply get_yields; [by apply in_columns|]. by intros val [[] _].
  - destruct (sd_current_epoch p.1) as [e|]; cbn; [|by apply yields_ret].
    eapply answers_bind; [apply decode_answers, epoch_ok|]. by apply yields_ret.
Qed.

Lemma cell_meta_answers h i : u256 h -> u32 i -> answers p (kv_get_cell_meta h i) (get_cell_meta p.1 h i).
Proof.
  intros Hh Hi. apply yields_typed. intros Ht.
  apply (read_column_id (fun p : Z * Z => u256 p.1 /\ u32 p.2) (fun p => CellKey_calculate p.1 p.2)
    COLUMN_CELL_META (enc c_cell_meta ∘ meta_kernel) _ (h, i)); [by apply in_columns|done| |].
  - by intros val [[] _].
  - intros m Hm. unfold compose, meta_kernel. eapply answers_bind; [apply decode_answers, cell_meta_ok|].
    apply yields_ret. pose proof (st_cell_meta _ _ _ _ _ Ht _ _ Hm). destruct m. cbn in *. by subst.
Qed.

Lemma is_uncle_answers h : u256 h -> answers p (kv_is_uncle h) (is_uncle p.1 h).
Proof.
  intros Hh. apply (answers_bind _ _ _ (uncle_mark (sd_uncles p.1) h)).
  - apply get_yields; [by apply in_columns|]. intros val [[] _]. auto.
  - apply yields_ret. unfold uncle_mark, is_uncle. apply bool_decide_ext.
    case_decide; split; [by intros|by intros|by intros []|done].
Qed.

(** *** Blocks *)
Lemma block_column c f h :
  u256 h -> 0 <= c < COLUMNS -> (c, f) ∈ block_columns ->
  answers p (kv_get c (h256_as_bytes h)) (f <$> sd_blocks p.1 !! h).
Proof.
  intros Hh Hc Hin. apply get_yields; [done|]. intros val [[Hb] _]. rewrite (Hb c f Hin h Hh).
  by destruct (sd_blocks p.1 !! h).
Qed.

Ltac in_blocks := unfold block_columns; repeat first [apply list_elem_of_here|apply list_elem_of_further].

Lemma uncles_answers h : u256 h -> answers p (kv_get_block_uncles blake2b_256 h) (get_block_uncles p.1 h).
Proof.
  intros Hh. apply yields_typed. intros Ht. unfold kv_get_block_uncles, get_block_uncles.
  eapply answers_bind; [eapply block_column; [done|by apply in_columns|in_blocks]|].
  destruct (sd_blocks p.1 !! h) as [b|] eqn:Hb; cbn; [|by apply yields_ret].
  destruct (st_blocks _ _ _ _ _ Ht h b Hb) as (_ & _ & _ & Hu).
  eapply answers_bind; [eapply answers_bind; [apply decode_answers, uncles_ok|by apply yields_ret]|].
  apply yields_ret. f_equal. rewrite <- list_fmap_compose. rewrite <- (list_fmap_id (b_uncles b)) at 2.
  apply list_fmap_ext. intros i u Hi. rewrite Forall_lookup in Hu. specialize (Hu i u Hi). cbn in *.
  unfold header_kernel in *. rewrite Hu. by destruct u.
Qed.

Lemma proposals_answers h : u256 h -> answers p (kv_get_block_proposal_txs_ids h) (get_block_proposal_txs_ids p.1 h).
Proof.
  intros Hh. unfold kv_get_block_proposal_txs_ids, get_block_proposal_txs_ids.
  eapply answers_bind; [eapply block_column; [done|by apply in_columns|in_blocks]|].
  destruct (sd_blocks p.1 !! h) as [b|]; cbn; [|by apply yields_ret].
  eapply answers_bind; [apply decode_answers, proposals_ok|]. by apply yields_ret.
Qed.

Lemma stored_body_answers {A} (read : Bytes -> list TransactionAddressInner -> outcome BincodeError A) g h :
  u256 h -> (forall txs, body_fits txs -> read (body_bytes txs) (addresses_from 0 0 txs) = Ok (g txs)) ->
  answers p (read_stored_body read h) ((fun b => g (b_transactions b)) <$> sd_blocks p.1 !! h).
Proof.
  intros Hh Hg. apply yields_typed. intros Ht. unfold read_stored_body.
  eapply answers_bind; [eapply block_column; [done|by apply in_columns|in_blocks]|].
  destruct (sd_blocks p.1 !! h) as [b|] eqn:Hb; cbn [fmap option_fmap option_map opt_and_then]; [|by apply yields_ret].
  destruct (st_blocks _ _ _ _ _ Ht h b Hb) as (_ & (_ & _ & _ & _ & Hf) & _).
  eapply answers_bind; [apply decode_answers, addresses_ok|].
  eapply answers_bind; [eapply block_column; [done|by apply in_columns|in_blocks]|].
  rewrite Hb. cbn. eapply answers_bind; [|by apply yields_ret].
  eapply yields_lift; [|done]. by rewrite Hg.
Qed.

Lemma body_answers h : u256 h -> answers p (kv_get_block_body h) (get_block_body p.1 h).
Proof. intros Hh. apply (stored_body_answers _ id); [done|]. intros. by apply deserialize_block_body_eq. Qed.

Lemma txs_hashes_answers h : u256 h -> answers p (kv_get_block_txs_hashes h) (get_block_txs_hashes p.1 h).
Proof.
  intros Hh. apply (stored_body_answers _ (fmap tx_hash)); [done|]. intros. by apply deserialize_hashes_eq.
Qed.

Lemma header_cached_yields h :
  yields p (header_cached h) (fun o => forall header, o = Some header -> get_block_header p.1 h = Some header).
Proof.
  intros st [Hi Hc Hr Hh Ho]. eexists _, _. split; [reflexivity|]. split; [|by apply Hh].
  split; cbn; [done..| |done]. intros h' header. rewrite lru_get_refresh. apply Hh.
Qed.

Lemma cache_header_answers h header :
  get_block_header p.1 h = Some header -> answers p (cache_header h header) tt.
Proof.
  intros Hg st [Hi Hc Hr Hh Ho]. eexists _, _. split; [reflexivity|]. split; [|done].
  split; cbn; [done..| |done]. intros h' header' [[-> ->]|[_ ?]]%lru_get_insert; [done|by apply Hh].
Qed.

Lemma header_answers h : u256 h -> answers p (kv_get_block_header h) (get_block_header p.1 h).
Proof.
  intros Hh. apply yields_typed. intros Ht. unfold kv_get_block_header.
  eapply yields_bind; [apply header_cached_yields|]. intros [header|] Hc; [apply yields_ret; by rewrite (Hc header eq_refl)|].
  clear Hc. eapply answers_bind; [eapply block_column; [done|by apply in_columns|in_blocks]|].
  assert (forall header, get_block_header p.1 h = Some header -> header = mkHeader (h_raw header) (h_seal header) h) as Hhash.
  { unfold get_block_header. intros header (b & Hb & ->)%fmap_Some.
    destruct (st_blocks _ _ _ _ _ Ht h b Hb) as (<- & _). unfold b_hash. by destruct (b_header b). }
  unfold get_block_header in *. destruct (sd_blocks p.1 !! h) as [b|] eqn:Hb; cbn; [|by apply yields_ret].
  specialize (Hhash _ eq_refl). unfold header_kernel.
  eapply answers_bind; [|by apply yields_ret].
  eapply answers_bind; [apply decode_answers, header_ok|]. cbv beta iota zeta. rewrite <- Hhash.
  eapply answers_bind; [apply cache_header_answers; unfold get_block_header; by rewrite Hb|]. by apply yields_ret.
Qed.

Lemma tip_answers : answers p kv_get_tip_header (get_tip_header p.1).
Proof.
  apply yields_typed. intros Ht. apply (answers_bind _ _ _ (h256_as_bytes <$> sd_tip p.1)).
  - apply get_yields; [by apply in_columns|]. by intros val [[] _].
  - unfold get_tip_header. destruct (sd_tip p.1) as [h|] eqn:Hh; cbn; [|by apply yields_ret].
    pose proof (st_tip _ _ _ _ _ Ht h Hh).
    eapply answers_bind; [by apply decode_h256_answers|]. by apply header_answers.
Qed.

Lemma block_answers h :
  u256 h -> answers p (kv_get_block blake2b_256 serialize_uncles merkle_root h) (get_block p.1 h).
Proof.
  intros Hh. apply yields_typed. intros Ht. unfold kv_get_block.
  eapply answers_bind; [by apply header_answers|]. unfold get_block, get_block_header.
  destruct (sd_blocks p.1 !! h) as [b|] eqn:Hb; cbn [fmap option_fmap option_map opt_map]; [|by apply yields_ret].
  destruct (st_blocks _ _ _ _ _ Ht h b Hb) as (_ & _ & Hbuilt & _).
  eapply answers_bind; [|by apply yields_ret].
  eapply answers_bind; [by apply body_answers|]. unfold get_block_body. rewrite Hb.
  eapply answers_bind; [by eapply yields_lift|].
  eapply answers_bind; [by apply uncles_answers|]. unfold get_block_uncles. rewrite Hb.
  eapply answers_bind; [by eapply yields_lift|].
  eapply answers_bind; [by apply proposals_answers|]. unfold get_block_proposal_txs_ids. rewrite Hb.
  eapply answers_bind; [by eapply yields_lift|]. by apply yields_ret.
Qed.

(** *** Transactions *)
Lemma stored_tx_answers h b i a :
  sd_blocks p.1 !! h = Some b -> addresses_from 0 0 (b_transactions b) !! i = Some a ->
  answers p (read_stored_tx h a) (b_transactions b !! i).
Proof.
  intros Hb Ha. apply yields_typed. intros Ht.
  destruct (st_blocks _ _ _ _ _ Ht h b Hb) as (Hh & (Hu & _ & _ & _ & Hf) & _). rewrite Hh in Hu.
  destruct (read_body_tx _ _ _ Hf Ha) as (tx & Hi & Ho & Hlt & Hr). unfold read_stored_tx.
  eapply answers_bind; [by apply usize_add_answers|]. rewrite Hi.
  apply (answers_bind _ _ _ (Some (tx_bytes tx))).
  - apply partial_get_yields; [by apply in_columns|]. intros val [[Hc] _].
    rewrite (Hc COLUMN_BLOCK_BODY (fun b => body_bytes (b_transactions b)) ltac:(in_blocks) h Hu), Hb. exact Hr.
  - cbn. eapply answers_bind; [|by apply yields_ret]. eapply yields_lift; [|done]. rewrite Ho.
    rewrite deserialize_tx_bytes; [done|]. eapply tx_fits; [done|]. by eapply list_elem_of_lookup_2.
Qed.

(** The entry of a transaction: its block, its place and its address. *)
Definition address_entry (h : H256) (o : option TransactionAddressStored) : Prop :=
  match o with
  | None => sd_tx_addr p.1 !! h = None
  | Some stored => exists b i, sd_tx_addr p.1 !! h = Some (ts_block_hash stored, i) /\
      sd_blocks p.1 !! ts_block_hash stored = Some b /\
      addresses_from 0 0 (b_transactions b) !! i = Some (ts_inner stored)
  end.

Lemma stored_address_yields h : u256 h -> yields p (kv_stored_address h) (address_entry h).
Proof.
  intros Hh. apply yields_typed. intros Ht. unfold kv_stored_address.
  apply (answers_bind _ _ _ (sd_tx_addr p.1 !! h ≫= stored_address (sd_blocks p.1))).
  { apply get_yields; [by apply in_columns|]. intros val [[] _]. auto. }
  destruct (sd_tx_addr p.1 !! h) as [[bh i]|] eqn:Hp; [|by apply yields_ret].
  destruct (st_tx_addr _ _ _ _ _ Ht h _ Hp) as [v Hv]. cbn [mbind option_bind]. unfold stored_address in *. cbn [fst snd] in *.
  destruct (sd_blocks p.1 !! bh) as [b|] eqn:Hb; [|done]. cbn in *.
  destruct (addresses_from 0 0 (b_transactions b) !! i) as [a|] eqn:Ha; [|done]. cbn in *.
  eapply answers_bind; [apply decode_answers, address_ok|]. apply yields_ret. cbn. by exists b, i.
Qed.

Lemma transaction_answers h : u256 h -> answers p (kv_get_transaction h) (get_transaction p.1 h).
Proof.
  intros Hh. unfold kv_get_transaction, get_transaction. eapply yields_bind; [by apply stored_address_yields|].
  intros [stored|] He; cbn in He; [|rewrite He; by apply yields_ret].
  destruct He as (b & i & Hp & Hb & Ha). rewrite Hp. cbn [mbind option_bind opt_and_then]. rewrite Hb. cbn [mbind option_bind].
  eapply answers_bind; [by eapply stored_tx_answers|].
  destruct (b_transactions b !! i) as [tx|]; cbn; [|by apply yields_ret].
  eapply answers_bind; [by apply yields_ret|]. by apply yields_ret.
Qed.

Lemma transaction_address_yields h :
  u256 h -> yields p (kv_get_transaction_address h) (fun r =>
    txa_block_hash <$> r = get_transaction_address p.1 h /\
    forall a, r = Some a -> exists b tx, sd_blocks p.1 !! txa_block_hash a = Some b /\
      get_range (body_bytes (b_transactions b)) (txa_offset a) (txa_offset a + txa_length a) = Some (tx_bytes tx) /\
      tx_hash tx = h).
Proof.
  intros Hh. apply yields_typed. intros Ht. unfold kv_get_transaction_address, get_transaction_address.
  eapply yields_bind; [by apply stored_address_yields|].
  intros [stored|] He; cbn in He; [|rewrite He; by apply yields_ret].
  destruct He as (b & i & Hp & Hb & Ha). rewrite Hp. cbn.
  eapply answers_bind; [by apply yields_ret|]. apply yields_ret. split; [done|]. intros a [= <-]. cbn.
  destruct (st_blocks _ _ _ _ _ Ht _ b Hb) as (_ & (_ & _ & _ & _ & Hf) & _).
  destruct (read_body_tx _ _ _ Hf Ha) as (tx & Hi & _ & _ & Hr). exists b, tx. split_and!; [done..|].
  by apply (st_tx_hash _ _ _ _ _ Ht h _ b tx Hp).
Qed.

Lemma cellbase_answers h :
  u256 h -> (forall b, sd_blocks p.1 !! h = Some b -> b_transactions b <> []) ->
  answers p (kv_get_cellbase h) (get_cellbase p.1 h).
Proof.
  intros Hh Hne. unfold kv_get_cellbase, get_cellbase.
  eapply answers_bind; [eapply block_column; [done|by apply in_columns|in_blocks]|].
  destruct (sd_blocks p.1 !! h) as [b|] eqn:Hb; cbn; [|by apply yields_ret].
  specialize (Hne b eq_refl).
  assert (exists a, addresses_from 0 0 (b_transactions b) !! 0%nat = Some a) as [a Ha]
    by (destruct (b_transactions b); [done|by eexists]).
  eapply answers_bind; [apply decode_answers, addresses_ok|]. rewrite Ha.
  eapply answers_bind; [by eapply yields_lift|]. rewrite head_lookup. by apply stored_tx_answers.
Qed.

(** *** Outputs *)
Lemma output_cached_yields h i :
  yields p (output_cached h i) (fun r => forall o, r = Some o -> stored_output p.1 h i o).
Proof.
  intros st [Hi Hc Hr Hh Ho]. eexists _, _. split; [reflexivity|]. split; [|by apply Ho].
  split; cbn; [done..|]. intros h' i' o. rewrite lru_get_refresh. apply Ho.
Qed.

Lemma cache_output_answers h i o : stored_output p.1 h i o -> answers p (cache_output h i o) tt.
Proof.
  intros Hs st [Hi Hc Hr Hh Ho]. eexists _, _. split; [reflexivity|]. split; [|done].
  split; cbn; [done..|]. intros h' i' o' [[[= -> ->] ->]|[_ ?]]%lru_get_insert; [done|by apply Ho].
Qed.

(** A hash names one transaction among the stored blocks. *)
Definition tx_hashes_unique (s : StoreData) : Prop :=
  forall h1 b1 h2 b2 tx1 tx2, sd_blocks s !! h1 = Some b1 -> sd_blocks s !! h2 = Some b2 ->
    tx1 ∈ b_transactions b1 -> tx2 ∈ b_transactions b2 -> tx_hash tx1 = tx_hash tx2 -> tx1 = tx2.

Lemma stored_output_unique s h i o o' :
  tx_hashes_unique s -> stored_output s h i o -> stored_output s h i o' -> o = o'.
Proof.
  intros Hu (h1 & b1 & tx1 & Hb1 & Ht1 & Hh1 & Ho1) (h2 & b2 & tx2 & Hb2 & Ht2 & Hh2 & Ho2).
  assert (tx1 = tx2) as -> by (apply (Hu h1 b1 h2 b2); [done..|congruence]). congruence.
Qed.

Lemma get_cell_output_stored h i o :
  store_typed blake2b_256 serialize_uncles merkle_root p.1 p.2 ->
  get_cell_output p.1 h i = Some o -> stored_output p.1 h i o.
Proof.
  intros Ht. unfold get_cell_output. destruct (sd_tx_addr p.1 !! h) as [[bh k]|] eqn:Hp; [|done]. cbn.
  destruct (sd_blocks p.1 !! bh) as [b|] eqn:Hb; [|done]. cbn.
  destruct (b_transactions b !! k) as [tx|] eqn:Hk; [|done]. cbn. intros Ho. exists bh, b, tx.
  split_and!; [done|by eapply list_elem_of_lookup_2| |done]. by apply (st_tx_hash _ _ _ _ _ Ht h _ b tx Hp).
Qed.

(** Without the cache: what the typed store says. *)
Lemma read_output_answers h i stored :
  address_entry h (Some stored) ->
  answers p (opt_and_then (fun addr =>
      output_offset ← usize_add (ta_offset (ts_inner stored)) (oa_offset addr);
      stop ← usize_add output_offset (oa_length addr);
      serialized ← kv_partial_get COLUMN_BLOCK_BODY (h256_as_bytes (ts_block_hash stored)) (output_offset, stop);
      opt_map (fun serialized =>
        cell_output ← decode c_output serialized;
        _ ← cache_output h i cell_output;
        mret cell_output) serialized)
      (ta_outputs_addresses (ts_inner stored) !! Z.to_nat i))
    (get_cell_output p.1 h i).
Proof.
  intros (b & k & Hp & Hb & Ha). apply yields_typed. intros Ht.
  destruct (st_blocks _ _ _ _ _ Ht _ b Hb) as (Hh & (Hu & _ & _ & _ & Hf) & _). rewrite Hh in Hu.
  destruct (read_body_tx _ _ _ Hf Ha) as (tx & Hk & Hoa & _ & _).
  pose proof (get_cell_output_stored h i) as Hst.
  assert (get_cell_output p.1 h i = tx_outputs tx !! Z.to_nat i) as Heq.
  { unfold get_cell_output. rewrite Hp. cbn. rewrite Hb. cbn. by rewrite Hk. }
  rewrite Heq in *. destruct (ta_outputs_addresses (ts_inner stored) !! Z.to_nat i) as [addr|] eqn:Hi.
  - destruct (read_body_output _ _ _ _ _ _ Hf Ha Hk Hi) as (o & Ho & Hlt & Hlen & Hr). rewrite Ho in *. cbn [opt_and_then].
    eapply answers_bind; [apply usize_add_answers; lia|]. eapply answers_bind; [by apply usize_add_answers|].
    apply (answers_bind _ _ _ (Some (enc c_output o))).
    + apply partial_get_yields; [by apply in_columns|]. intros val [[Hc] _].
      rewrite (Hc COLUMN_BLOCK_BODY (fun b => body_bytes (b_transactions b)) ltac:(in_blocks) _ Hu), Hb. exact Hr.
    + cbn. eapply answers_bind; [|by apply yields_ret].
      eapply answers_bind; [apply decode_answers, output_ok|].
      eapply answers_bind; [by apply cache_output_answers, Hst|]. by apply yields_ret.
  - cbn. apply yields_ret. destruct (tx_outputs tx !! Z.to_nat i) as [o|] eqn:Ho; [|done].
    destruct (tx_output_split tx _ o Ho) as (pre & post & _ & Hj). by rewrite Hoa, Hj in Hi.
Qed.

(** With the cache: the same, or an output of a stored transaction. *)
Lemma cell_output_yields h i :
  u256 h -> yields p (kv_get_cell_output h i) (fun r =>
    r = get_cell_output p.1 h i \/ exists o, r = Some o /\ stored_output p.1 h i o).
Proof.
  intros Hh. unfold kv_get_cell_output. eapply yields_bind; [apply output_cached_yields|]. intros [o|] Hc.
  - apply yields_ret. right. exists o. auto.
  - eapply yields_bind; [by apply stored_address_yields|]. intros [stored|] He; cbn [opt_and_then].
    + eapply yields_mono; [by apply read_output_answers|]. intros r ->. by left.
    + apply yields_ret. left. cbn in He. unfold get_cell_output. by rewrite He.
Qed.

(** When hashes name one transaction, the cache differs from the typed store only on the outputs
    of transactions that are no longer on the main chain. *)
Lemma cell_output_unique h i :
  u256 h -> tx_hashes_unique p.1 -> yields p (kv_get_cell_output h i) (fun r =>
    r = get_cell_output p.1 h i \/
    (get_cell_output p.1 h i = None /\ exists o, r = Some o /\ stored_output p.1 h i o)).
Proof.
  intros Hh Hu. apply yields_typed. intros Ht. eapply yields_mono; [by apply cell_output_yields|].
  intros r [->|(o & -> & Hs)]; [by left|].
  destruct (get_cell_output p.1 h i) as [o'|] eqn:Ho; [left|right; eauto].
  f_equal. eapply stored_output_unique; [done..|]. by apply get_cell_output_stored.
Qed.

(** *** The cell set *)
Definition cell_entry (e : H256 * TransactionMeta) : Bytes * Bytes := (h256_as_bytes e.1, enc c_tx_meta e.2).

Lemma Forall_exists_fmap {A C} (g : A -> C) (Q : A -> Prop) l :
  Forall (fun e => exists a, e = g a /\ Q a) l -> exists l', l = g <$> l' /\ Forall Q l'.
Proof.
  induction 1 as [|e l (a & -> & Ha) _ (l' & -> & Hl')]; [by exists []|]. exists (a :: l'). split; [done|by constructor].
Qed.

Lemma traverse_decodes entries S (callback : S -> H256 * TransactionMeta -> outcome DbError S) x :
  Forall (fun e => u256 e.1) entries ->
  try_fold (fun x '(hash_slice, tx_meta_bytes) =>
    tx_hash ← expect (h256_from_slice hash_slice);
    tx_meta ← expect (dec c_tx_meta tx_meta_bytes);
    callback x (tx_hash, tx_meta)) x (cell_entry <$> entries) = try_fold callback x entries.
Proof.
  intros He. rewrite try_fold_fmap. revert x. induction He as [|[h m] entries Hh _ IH]; intros x; [done|].
  cbn [try_fold cell_entry fst snd]. rewrite h256_from_as_bytes, dec_enc by (done || apply tx_meta_ok).
  cbn [expect]. rewrite !bind_ret_l. destruct (callback x (h, m)); cbn; auto.
Qed.

Lemma traverse_cells st :
  kv_ok p st -> exists entries, entries ≡ₚ map_to_list p.2 /\
    forall S (callback : S -> H256 * TransactionMeta -> outcome DbError S) x,
      kv_traverse_cell_set callback x st = try_fold callback x entries.
Proof.
  intros [Hi Hc [Hr Ht] _ _].
  assert (db_has (ks_db st) COLUMN_CELL_SET) as Hcs by (apply Hc; by apply in_columns).
  destruct (db_traverse_law _ COLUMN_CELL_SET Hi Hcs) as (raw & Hnd & Hin & Hf).
  destruct (Forall_exists_fmap cell_entry (fun e => u256 e.1 /\ p.2 !! e.1 = Some e.2) raw) as (entries & -> & He).
  { apply Forall_forall. intros [k v] Hkv. apply Hin in Hkv. destruct (rp_cell_keys _ _ _ Hr k v Hkv) as (h & Hh & ->).
    pose proof (rp_cells _ _ _ Hr h Hh) as Hcell. rewrite Hkv in Hcell. destruct (p.2 !! h) as [m|] eqn:Hm; [|done].
    injection Hcell as ->. by exists (h, m). }
  exists entries. rewrite Forall_forall in He. split.
  - apply NoDup_Permutation; [by apply NoDup_fmap_1 with (f := cell_entry), (NoDup_fmap_1 fst)|apply NoDup_map_to_list|].
    intros [h m]. rewrite elem_of_map_to_list. split; [intros Hm; by destruct (He _ Hm)|]. intros Hm.
    pose proof (st_cells _ _ _ _ _ Ht h m Hm) as Hh. pose proof (rp_cells _ _ _ Hr h Hh) as Hv. rewrite Hm in Hv.
    apply Hin, list_elem_of_fmap in Hv as ([h' m'] & Hk & Hin'). apply (f_equal fst) in Hk.
    pose proof (He _ Hin') as [Hh' Hm'].
    assert (h = h') as <- by (by apply h256_as_bytes_inj). cbn in Hm'. congruence.
  - intros S callback x. unfold kv_traverse_cell_set. rewrite Hf. apply traverse_decodes, Forall_forall.
    intros e Hin'. by apply He.
Qed.
End reads.

(** ** The start *)
Lemma with_config_ok p st a b : kv_ok p st -> kv_ok p (kv_with_config (ks_db st) a b).
Proof. intros [Hi Hc Hr _ _]. split; cbn; [done..| |]; intros *; by rewrite lru_get_new. Qed.

(** Nothing is stored. *)
Definition fresh (d : D) : Prop :=
  db_inv d /\ (forall c, 0 <= c < COLUMNS -> db_has d c) /\ (forall c k, db_val d c k = None).

Lemma fresh_ok d a b : fresh d -> kv_ok (empty_store, ∅) (kv_with_config d a b).
Proof.
  intros (Hi & Hc & Hv). split; cbn; [done..| | |].
  2, 3: intros *; by rewrite lru_get_new.
  split; cbn; split; cbn; unfold column_of; intros; rewrite ?Hv in *; rewrite ?lookup_empty in *; try done.
Qed.

Definition init_ops (genesis : Block) (epoch : EpochExt) (ext : BlockExt) : list StoreOp :=
  ((fun tx => OpUpdateCells (tx_hash tx) (genesis_meta genesis tx)) <$> b_transactions genesis)
  ++ [OpBlock genesis; OpBlockExt (b_hash genesis) ext; OpTip (b_header genesis); OpCurrentEpoch epoch;
      OpBlockEpoch (b_hash genesis) (ep_last_block_hash_in_previous_epoch epoch);
      OpEpoch (ep_last_block_hash_in_previous_epoch epoch) epoch; OpAttach genesis].

(** A genesis block that can be stored. *)
Definition genesis_fine (consensus : Consensus) : Prop :=
  let genesis := genesis_block consensus in
  let epoch := genesis_epoch_ext consensus in
  block_typed genesis /\ block_built blake2b_256 serialize_uncles merkle_root genesis /\
  is_ok (genesis_ext (E := DbError) genesis) = true /\
  u256 (ep_last_block_hash_in_previous_epoch epoch) /\ u64 (ep_number epoch).

Lemma batch_ok_app p ops1 ops2 :
  batch_ok p (ops1 ++ ops2) <-> batch_ok p ops1 /\ batch_ok (typed_ops blake2b_256 ops1 p) ops2.
Proof.
  revert p. induction ops1 as [|op ops1 IH]; intros p; [cbn; tauto|]. cbn. rewrite IH. unfold typed_ops. cbn. tauto.
Qed.

Lemma update_cells_ok genesis txs s cells :
  Forall (fun tx => u256 (tx_hash tx)) txs ->
  let ops := (fun tx => OpUpdateCells (tx_hash tx) (genesis_meta genesis tx)) <$> txs in
  batch_ok (s, cells) ops /\
  typed_ops blake2b_256 ops (s, cells)
  = (s, foldl (fun (disk : gmap Z TransactionMeta) tx => <[tx_hash tx := genesis_meta genesis tx]> disk) cells txs).
Proof.
  intros Htx. revert cells. induction Htx as [|tx txs Hh _ IH]; intros cells; [done|]. cbn.
  destruct (IH (<[tx_hash tx := genesis_meta genesis tx]> cells)) as [H1 H2]. split; [done|]. exact H2.
Qed.

Lemma init_ops_ok consensus ext s cells :
  genesis_fine consensus -> genesis_ext (E := DbError) (genesis_block consensus) = Ok ext ->
  store_init blake2b_256 consensus empty_store ∅ = Ok (E := DbError) (s, cells) ->
  batch_ok (empty_store, ∅) (init_ops (genesis_block consensus) (genesis_epoch_ext consensus) ext) /\
  typed_ops blake2b_256 (init_ops (genesis_block consensus) (genesis_epoch_ext consensus) ext) (empty_store, ∅) = (s, cells).
Proof.
  intros (Hty & Hbu & _ & He & Hn) Hext Hs. unfold store_init in Hs. rewrite Hext, bind_ret_l in Hs.
  pose proof Hty as (Hh & _ & _ & Htx & _). injection Hs as <- <-.
  destruct (update_cells_ok (genesis_block consensus) _ empty_store ∅ Htx) as [H1 H2]. unfold init_ops. split.
  - apply batch_ok_app. split; [done|]. rewrite H2. cbn [StoreRefines.batch_ok typed_op fst snd]. split_and!; try done.
    cbn. by rewrite lookup_insert_eq.
  - unfold typed_ops in *. by rewrite foldl_app, H2.
Qed.

Lemma kv_init_commit d consensus ext :
  genesis_ext (E := DbError) (genesis_block consensus) = Ok ext -> is_ok (db_batch d) = true ->
  kv_init blake2b_256 d consensus
  = kv_commit d (init_ops (genesis_block consensus) (genesis_epoch_ext consensus) ext).
Proof.
  intros Hext Hb. unfold kv_init, kv_commit, init_ops. destruct (db_batch d) as [b| |]; [|done..].
  rewrite !bind_ret_l, Hext, bind_ret_l, try_fold_app, try_fold_fmap. cbn [try_fold kv_op].
  destruct (try_fold _ b _) as [b1| |]; [|done..]. rewrite !bind_ret_l.
  destruct (kv_insert_block d b1 _) as [b2| |]; [|done..]. rewrite !bind_ret_l.
  destruct (kv_insert_block_ext d b2 _ _) as [b3| |]; [|done..]. rewrite !bind_ret_l.
  destruct (kv_insert_tip_header d b3 _) as [b4| |]; [|done..]. rewrite !bind_ret_l.
  destruct (kv_insert_current_epoch_ext d b4 _) as [b5| |]; [|done..]. rewrite !bind_ret_l.
  destruct (kv_insert_block_epoch_index d b5 _ _) as [b6| |]; [|done..]. rewrite !bind_ret_l.
  destruct (kv_insert_epoch_ext d b6 _ _) as [b7| |]; [|done..]. rewrite !bind_ret_l.
  by destruct (kv_attach_block blake2b_256 d b7 _).
Qed.

Lemma kv_init_ok d consensus a b :
  fresh d -> genesis_fine consensus -> exists d' s cells,
    kv_init blake2b_256 d consensus = Ok d' /\
    store_init blake2b_256 consensus empty_store ∅ = Ok (E := DbError) (s, cells) /\
    kv_ok (s, cells) (kv_with_config d' a b).
Proof.
  intros Hd Hg. pose proof Hg as (_ & _ & Hext & _).
  destruct (genesis_ext (genesis_block consensus)) as [ext| |] eqn:He; [|done..].
  assert (exists s cells, store_init blake2b_256 consensus empty_store ∅ = Ok (E := DbError) (s, cells)) as (s & cells & Hs)
    by (unfold store_init; rewrite He; by eexists _, _).
  destruct (init_ops_ok consensus ext s cells Hg He Hs) as [Hok Hty].
  destruct (kv_commit_ok _ _ _ (fresh_ok d a b Hd) Hok) as (d' & Hc & Hok'). rewrite Hty in Hok'.
  exists d', s, cells. split_and!; [|done|by apply (with_config_ok _ _ a b) in Hok'].
  rewrite (kv_init_commit d consensus ext He); [exact Hc|].
  destruct (db_batch_law d (proj1 Hd)) as (b0 & -> & _). done.
Qed.

(** ** Histories

    Commits, reads that fill the caches, and restarts, which drop them. *)
Inductive StoreEvent :=
| EvCommit (ops : list StoreOp)
| EvHeader (h : H256)
| EvOutput (h : H256) (index : Z)
| EvRestart (header_cache_size cell_output_cache_size : Z).

Definition kv_event (st : Store) (event : StoreEvent) : outcome DbError Store :=
  match event with
  | EvCommit ops =>
      d ← kv_commit (ks_db st) ops;
      Ok (mkKVStore d (ks_header_cache st) (ks_cell_output_cache st))
  | EvHeader h => '(_, st) ← kv_get_block_header h st; Ok st
  | EvOutput h index => '(_, st) ← kv_get_cell_output h index st; Ok st
  | EvRestart a b => Ok (kv_with_config (ks_db st) a b)
  end.
Definition typed_event (p : Pair) (event : StoreEvent) : Pair :=
  match event with EvCommit ops => typed_ops blake2b_256 ops p | _ => p end.
Definition event_ok (p : Pair) (event : StoreEvent) : Prop :=
  match event with
  | EvCommit ops => batch_ok p ops
  | EvHeader h | EvOutput h _ => u256 h
  | EvRestart _ _ => True
  end.
Fixpoint events_ok (p : Pair) (events : list StoreEvent) : Prop :=
  match events with
  | [] => True
  | event :: events => event_ok p event /\ events_ok (typed_event p event) events
  end.

Lemma kv_event_ok p st event :
  kv_ok p st -> event_ok p event -> exists st', kv_event st event = Ok st' /\ kv_ok (typed_event p event) st'.
Proof.
  intros Hst He. destruct event as [ops|h|h i|a b]; cbn in *.
  - destruct (kv_commit_ok p st ops Hst He) as (d' & -> & Hok). by eexists.
  - destruct (header_answers p h He st Hst) as (r & st' & -> & Hok & _). by exists st'.
  - destruct (cell_output_yields p h i He st Hst) as (r & st' & -> & Hok & _). by exists st'.
  - eexists. split; [reflexivity|]. by apply with_config_ok.
Qed.

Lemma kv_events_ok p st events :
  kv_ok p st -> events_ok p events -> exists st',
    try_fold kv_event st events = Ok st' /\ kv_ok (foldl typed_event p events) st'.
Proof.
  revert p st. induction events as [|event events IH]; intros p st Hst He; [by exists st|].
  destruct He as [He Hes]. destruct (kv_event_ok p st event Hst He) as (st1 & H1 & Hst1).
  destruct (IH _ _ Hst1 Hes) as (st2 & H2 & Hst2). exists st2. cbn. by rewrite H1, bind_ret_l.
Qed.

(** C6. The store on bytes implements the store on maps.  On a fresh database, of any
    implementation that keeps the contract, [init] succeeds; after it, whatever
    batches are committed, whatever is read in between and however often the
    store is opened again with empty caches, every commit succeeds and the
    database and the caches represent the result of the typed operations. *)
Theorem store_commits_refine d consensus events a b s cells :
  fresh d -> genesis_fine consensus ->
  store_init blake2b_256 consensus empty_store ∅ = Ok (E := DbError) (s, cells) -> events_ok (s, cells) events ->
  exists d' st, kv_init blake2b_256 d consensus = Ok d' /\
    try_fold kv_event (kv_with_config d' a b) events = Ok st /\
    kv_ok (foldl typed_event (s, cells) events) st.
Proof.
  intros Hd Hg Hs He. destruct (kv_init_ok d consensus a b Hd Hg) as (d' & s' & cells' & Hi & Hs' & Hok).
  rewrite Hs in Hs'. injection Hs' as <- <-.
  destruct (kv_events_ok _ _ _ Hok He) as (st & Hev & Hst). by exists d', st.
Qed.

End sound.

(** ** Example: a block that is attached, read and detached *)
Module StoreBytesExample.
Import CodecExample KeyValueExample.

(** A header is written field by field, so that its hash can be its number. *)
Definition header_codec : Codec (RawHeader * Seal) := mkCodec
  (fun '(r, s) => [raw_version r; raw_parent_hash r; raw_timestamp r; raw_number r; raw_transactions_root r;
     raw_proposals_hash r; raw_witnesses_root r; raw_difficulty r; raw_uncles_hash r; raw_uncles_count r;
     raw_epoch r; seal_nonce s; len (seal_proof s)] ++ seal_proof s)
  (fun l => match l with
   | v :: ph :: t :: n :: tr :: pp :: wr :: df :: uh :: uc :: e :: nonce :: size :: rest =>
       Some (mkRawHeader v ph t n tr pp wr df uh uc e, mkSeal nonce (take (Z.to_nat size) rest))
   | _ => None
   end).

Lemma header_codec_ok : codec_ok header_codec.
Proof. intros [[] []] rest. cbn. unfold len. by rewrite Nat2Z.id, take_app_length. Qed.

Definition number_codec : Codec Z := mkCodec u64_to_le_bytes (fun l => Some (le_combine (take 8 l))).

#[export] Instance CellOutputAddress_eq_dec : EqDecision CellOutputAddress.
Proof. solve_decision. Defined.
#[export] Instance CellOutputAddress_countable : Countable CellOutputAddress.
Proof.
  refine (inj_countable' (fun x => (oa_offset x, oa_length x)) (fun '(a, b) => mkOutputAddress a b) _). by intros [].
Defined.
#[export] Instance TransactionAddressInner_eq_dec : EqDecision TransactionAddressInner.
Proof. solve_decision. Defined.
#[export] Instance TransactionAddressInner_countable : Countable TransactionAddressInner.
Proof.
  refine (inj_countable' (fun x => (ta_index x, (ta_offset x, (ta_length x, (ta_header x, ta_outputs_addresses x)))))
    (fun '(a, (b, (c, (d, e)))) => mkAddressInner a b c d e) _). by intros [].
Defined.
#[export] Instance TransactionAddressStored_eq_dec : EqDecision TransactionAddressStored.
Proof. solve_decision. Defined.
#[export] Instance TransactionAddressStored_countable : Countable TransactionAddressStored.
Proof.
  refine (inj_countable' (fun x => (ts_inner x, ts_block_hash x)) (fun '(a, b) => mkAddressStored a b) _). by intros [].
Defined.
#[export] Instance RawHeader_countable : Countable RawHeader.
Proof.
  refine (inj_countable' (fun r => [raw_version r; raw_parent_hash r; raw_timestamp r; raw_number r;
     raw_transactions_root r; raw_proposals_hash r; raw_witnesses_root r; raw_difficulty r; raw_uncles_hash r;
     raw_uncles_count r; raw_epoch r])
    (fun l => match l with
     | [v; ph; t; n; tr; pp; wr; df; uh; uc; e] => mkRawHeader v ph t n tr pp wr df uh uc e
     | _ => mkRawHeader 0 0 0 0 0 0 0 0 0 0 0
     end) _). by intros [].
Defined.
#[export] Instance Seal_countable : Countable Seal.
Proof.
  refine (inj_countable' (fun x => (seal_nonce x, seal_proof x)) (fun '(a, b) => mkSeal a b) _). by intros [].
Defined.
#[export] Instance DaoStats_countable : Countable DaoStats.
Proof.
  refine (inj_countable' (fun x => (accumulated_rate x, accumulated_capacity x)) (fun '(a, b) => mkDaoStats a b) _). by intros [].
Defined.
#[export] Instance BlockExt_countable : Countable BlockExt.
Proof.
  refine (inj_countable' (fun x => (received_at x, (Blocks.total_difficulty x, (total_uncles_count x, (verified x, (dao_stats x, txs_fees x))))))
    (fun '(a, (b, (c, (d, (e, f))))) => mkBlockExt a b c d e f) _). by intros [].
Defined.
#[export] Instance BlockInfo_countable : Countable BlockInfo.
Proof.
  refine (inj_countable' (fun x => (bi_number x, bi_epoch x)) (fun '(a, b) => mkBlockInfo a b) _). by intros [].
Defined.
#[export] Instance EpochExt_countable : Countable EpochExt.
Proof.
  refine (inj_countable' (fun e => [ep_number e; ep_block_reward e; ep_remainder_reward e;
      ep_last_block_hash_in_previous_epoch e; ep_start_number e; ep_length e; ep_difficulty e])
    (fun l => match l with [a; b; c; d; e; f; g] => mkEpochExt a b c d e f g | _ => mkEpochExt 0 0 0 0 0 0 0 end) _).
  by intros [].
Defined.
#[export] Instance TransactionMeta_countable : Countable TransactionMeta.
Proof.
  refine (inj_countable' (fun x => (meta_block_number x, (meta_epoch_number x, (meta_cellbase x, dead_cell x))))
    (fun '(a, (b, (c, d))) => mkMeta a b c d) _). by intros [].
Defined.

#[export] Instance store_codecs : StoreCodecs := {|
  StoreBytes.body_codecs := example_codecs; c_header := header_codec; c_uncles := codec; c_proposals := codec;
  c_addresses := codec; c_address := codec; c_ext := codec; c_number := number_codec; c_cell_meta := codec;
  c_epoch := codec; c_tx_meta := codec |}.
#[export] Instance store_codecs_laws : StoreCodecsLaws.
Proof.
  split; try apply codec_example_ok; [apply example_codecs_laws|apply header_codec_ok|].
  intros n Hn. cbn. f_equal. rewrite take_ge by (unfold u64_to_le_bytes; by rewrite length_le_split).
  by apply le_combine_split_range.
Qed.

Definition blake2b (bytes : Bytes) : H256 := 100 + default 0 (bytes !! 3%nat).
Definition no_uncles (us : list UncleBlock) : Bytes := [].
Definition root (hashes : list H256) : H256 := len hashes.
Definition block (number parent : Z) (txs : list Transaction) : Block :=
  BlockBuilder_build blake2b (fun raw seal => enc c_header (raw, seal)) no_uncles root
    (mkRawHeader 0 parent 0 number 0 0 0 1 0 0 0) (mkSeal 0 []) [] txs [].
Definition genesis : Block := block 0 0 [simple_tx 10 [OutPoint_null] 2].
Definition next : Block := block 1 100 [simple_tx 20 [new_cell 10 0] 1].
Definition consensus : Consensus := Consensus_default genesis.

Definition attach_events : list StoreEvent :=
  [EvCommit [OpBlock next; OpBlockExt 101 (mkBlockExt 0 2 0 (Some true) (mkDaoStats 0 0) []); OpAttach next;
     OpTip (b_header next); OpUpdateCells 20 (mkMeta 1 0 false [false])];
   EvHeader 101; EvOutput 20 0].
Definition detach_events : list StoreEvent := [EvCommit [OpDetach next; OpTip (b_header genesis); OpDeleteCells 20]].

Definition start : StoreData * gmap Z TransactionMeta :=
  ok_value (empty_store, ∅) (store_init (E := DbError) blake2b consensus empty_store ∅).

Lemma start_eq : store_init (E := DbError) blake2b consensus empty_store ∅ = Ok (start.1, start.2).
Proof. apply ok_pair_eq. vm_compute. reflexivity. Qed.

Lemma fresh_memory : fresh (mem_open 14).
Proof.
  split_and!; [done| |].
  - intros c Hc. apply (range_check (fun c => db_has (mem_open 14) c) 0 13); [|unfold COLUMNS in Hc; lia].
    repeat (constructor; [by eexists|]). constructor.
  - apply mem_open_val.
Qed.

#[export] Instance body_fits_dec txs : Decision (body_fits txs).
Proof. unfold body_fits. apply _. Defined.

Lemma block_typed_check b :
  (bool_decide (u256 (b_hash b)) && bool_decide (u64 (b_number b)) && bool_decide (Forall (fun u => u256 (uncle_hash u)) (b_uncles b))
  && bool_decide (Forall (fun tx => u256 (tx_hash tx)) (b_transactions b)) && bool_decide (body_fits (b_transactions b))) = true ->
  block_typed b.
Proof. rewrite !andb_true_iff, !bool_decide_eq_true. unfold block_typed. tauto. Qed.

Lemma genesis_typed : block_typed genesis.
Proof. apply block_typed_check. vm_compute. reflexivity. Qed.
Lemma next_typed : block_typed next.
Proof. apply block_typed_check. vm_compute. reflexivity. Qed.
Lemma genesis_built : block_built blake2b no_uncles root genesis.
Proof. split; [vm_compute; reflexivity|constructor]. Qed.
Lemma next_built : block_built blake2b no_uncles root next.
Proof. split; [vm_compute; reflexivity|constructor]. Qed.
Lemma consensus_fine : genesis_fine blake2b no_uncles root consensus.
Proof.
  split; [apply genesis_typed|]. split; [apply genesis_built|]. split; [vm_compute; reflexivity|]. by_compute.
Qed.

Lemma start_blocks : sd_blocks start.1 !! b_hash next = None.
Proof. vm_compute. reflexivity. Qed.

Lemma attach_events_ok : events_ok blake2b no_uncles root start attach_events.
Proof.
  cbn [events_ok attach_events event_ok batch_ok op_ok typed_event typed_op].
  split_and!; try exact I; try apply next_typed; try apply next_built; try by_compute.
  intros b. by rewrite start_blocks.
Qed.

Lemma all_events_ok :
  events_ok blake2b no_uncles root start (attach_events ++ [EvRestart 1 1] ++ detach_events).
Proof.
  cbn [events_ok attach_events detach_events app event_ok batch_ok op_ok typed_event typed_op].
  split_and!; try exact I; try apply next_typed; try apply next_built; try by_compute.
  intros b. by rewrite start_blocks.
Qed.

(** A block is stored, attached and read, the store is opened again, and the block is detached. *)
Lemma store_commits_refine_witness : exists d' (st : ChainKVStore MemoryKeyValueDB (AssocList H256) (AssocList (H256 * Z))),
  kv_init blake2b (mem_open 14) consensus = Ok d' /\
  try_fold (kv_event blake2b) (kv_with_config d' 4096 128) (attach_events ++ [EvRestart 1 1] ++ detach_events) = Ok st /\
  kv_ok blake2b no_uncles root (foldl (typed_event blake2b) start (attach_events ++ [EvRestart 1 1] ++ detach_events)) st.
Proof.
  exact (store_commits_refine blake2b no_uncles root (mem_open 14) consensus
    (attach_events ++ [EvRestart 1 1] ++ detach_events) 4096 128 start.1 start.2
    fresh_memory consensus_fine start_eq all_events_ok).
Defined.


Definition Store : Type := ChainKVStore MemoryKeyValueDB (AssocList H256) (AssocList (H256 * Z)).
Definition detached : outcome DbError Store :=
  d' ← kv_init blake2b (mem_open 14) consensus;
  try_fold (kv_event blake2b) (kv_with_config d' 4096 128) (attach_events ++ detach_events).

(** The cache of outputs is not cleared by [detach_block]: the output of a transaction that has left the main
    chain is still answered, until it is dropped or the store is opened again. *)
Lemma detached_output_cached :
  fst <$> (st ← detached; kv_get_cell_output 20 0 st) = Ok (Some (simple_output 10000000000)) /\
  get_cell_output (foldl (typed_event blake2b) start (attach_events ++ detach_events)).1 20 0 = None.
Proof. split; vm_compute; reflexivity. Qed.
End StoreBytesExample.
