(* ===== verification/Bech32.v ===== *)
(** * Bech32 addresses

    [util/crypto/src/bech32/mod.rs]: the encoding of addresses.  Strings are lists
    of their bytes.  The checksum is the remainder of a polynomial over the field of 32
    elements; what is needed of it is that one step of [polymod] is linear for
    the exclusive or. *)
From S2P Require Import Prelude.

Inductive Bech32Error :=
| InvalidChecksum | InvalidLength | InvalidChar (b : Z) | InvalidData (b : Z) | MissingSeparator | MixedCase.

Definition GEN : list Z := [0x3b6a57b2; 0x26508e6d; 0x1ea119fa; 0x3d4233dd; 0x2a1462b3].
Definition SEP : Z := 49.

(** The codes of [qpzry9x8gf2tvdw0s3jn54khce6mua7l]. *)
Definition CHARSET : list Z :=
  [113; 112; 122; 114; 121; 57; 120; 56; 103; 102; 50; 116; 118; 100; 119; 48;
   115; 51; 106; 110; 53; 52; 107; 104; 99; 101; 54; 109; 117; 97; 55; 108].

Definition CHARSET_IDX : list Z :=
  [-1; -1; -1; -1; -1; -1; -1; -1; -1; -1; -1; -1; -1; -1; -1; -1; -1; -1; -1; -1; -1; -1; -1; -1;
   -1; -1; -1; -1; -1; -1; -1; -1; -1; -1; -1; -1; -1; -1; -1; -1; -1; -1; -1; -1; -1; -1; -1; -1;
   15; -1; 10; 17; 21; 20; 26; 30; 7; 5; -1; -1; -1; -1; -1; -1; -1; 29; -1; 24; 13; 25; 9; 8; 23;
   -1; 18; 22; 31; 27; 19; -1; 1; 0; 3; 16; 11; 28; 12; 14; 6; 4; 2; -1; -1; -1; -1; -1; -1; 29;
   -1; 24; 13; 25; 9; 8; 23; -1; 18; 22; 31; 27; 19; -1; 1; 0; 3; 16; 11; 28; 12; 14; 6; 4; 2; -1;
   -1; -1; -1; -1].

Record Bech32 := mkBech32 { bech_hrp : Bytes; bech_data : Bytes }.

(** ** The checksum *)
Definition polymod_step (chk v : Z) : Z :=
  let b := cast 256 (Z.shiftr chk 25) in
  let chk := Z.lxor (Z.shiftl (Z.land chk 0x1ffffff) 5) v in
  fold_left (fun chk '(i, g) => if decide (Z.land (Z.shiftr b (Z.of_nat i)) 1 = 1) then Z.lxor chk g else chk)
    (enumerate GEN) chk.
Definition polymod (values : Bytes) : Z := fold_left polymod_step values 1.

Definition hrp_expand (hrp : Bytes) : Bytes :=
  ((fun x => Z.shiftr x 5) <$> hrp) ++ [0] ++ ((fun x => Z.land x 0x1f) <$> hrp).

Definition verify_checksum (hrp data : Bytes) : bool := bool_decide (polymod (hrp_expand hrp ++ data) = 1).

Definition create_checksum (hrp data : Bytes) : Bytes :=
  let values := hrp_expand hrp ++ data ++ replicate 6 0 in
  let plm := Z.lxor (polymod values) 1 in
  (fun x => Z.land (Z.shiftr plm (5 * (5 - Z.of_nat x))) 0x1f) <$> seq 0 6.

(** ** Encoding and decoding *)
Definition bech32_encode (self : Bech32) : outcome Bech32Error Bytes :=
  match bech_hrp self with
  | [] => Err InvalidLength
  | _ =>
      let combined := bech_data self ++ create_checksum (bech_hrp self) (bech_data self) in
      try_fold (fun encoded p =>
        if decide (32 <= p) then Err (InvalidData p)
        else c ← expect (CHARSET !! Z.to_nat p); Ok (encoded ++ [c])) (bech_hrp self ++ [SEP]) combined
  end.

Definition is_ascii_lowercase (b : Z) : bool := bool_decide (97 <= b <= 122).
Definition is_ascii_uppercase (b : Z) : bool := bool_decide (65 <= b <= 90).
Definition is_ascii_digit (b : Z) : bool := bool_decide (48 <= b <= 57).
Definition to_ascii_lowercase (b : Z) : Z := if is_ascii_uppercase b then b + 32 else b.

(** [s.rsplitn(2, SEP)] when the separator occurs: what is in front of the last one and what is
    behind it. *)
Fixpoint rsplit (s : Bytes) : option (Bytes * Bytes) :=
  match s with
  | [] => None
  | b :: s =>
      match rsplit s with
      | Some (hrp, data) => Some (b :: hrp, data)
      | None => if decide (b = SEP) then Some ([], s) else None
      end
  end.

(** The bytes so far and whether lower and upper case letters were seen. *)
Definition scan_state : Type := Bytes * bool * bool.

Definition scan_hrp (st : scan_state) (b : Z) : outcome Bech32Error scan_state :=
  let '(bytes, has_lower, has_upper) := st in
  if decide (b < 33 \/ 126 < b) then Err (InvalidChar b)
  else Ok (bytes ++ [to_ascii_lowercase b], has_lower || is_ascii_lowercase b, has_upper || is_ascii_uppercase b).

Definition scan_data (st : scan_state) (b : Z) : outcome Bech32Error scan_state :=
  let '(bytes, has_lower, has_upper) := st in
  if negb (is_ascii_digit b || is_ascii_uppercase b || is_ascii_lowercase b) then Err (InvalidChar b)
  else if decide (b = 49 \/ b = 98 \/ b = 105 \/ b = 111) then Err (InvalidChar b)
  else
    index ← expect (CHARSET_IDX !! Z.to_nat (to_ascii_lowercase b));
    Ok (bytes ++ [cast 256 index], has_lower || is_ascii_lowercase b, has_upper || is_ascii_uppercase b).

Definition bech32_decode (s : Bytes) : outcome Bech32Error Bech32 :=
  if decide (len s < 8 \/ 90 < len s) then Err InvalidLength
  else
    match rsplit s with
    | None => Err MissingSeparator
    | Some (raw_hrp, raw_data) =>
        if decide (raw_hrp = [] \/ len raw_data < 6) then Err InvalidLength
        else
          '(hrp_bytes, lower, upper) ← try_fold scan_hrp ([], false, false) raw_hrp;
          '(data_bytes, lower, upper) ← try_fold scan_data ([], lower, upper) raw_data;
          if lower && upper then Err MixedCase
          else if negb (verify_checksum hrp_bytes data_bytes) then Err InvalidChecksum
          else Ok (mkBech32 hrp_bytes (take (length data_bytes - 6) data_bytes))
    end.

(** ** One step is linear *)
Ltac xor_solve :=
  apply Z.bits_inj'; let n := fresh "n" in intros n ?; rewrite !Z.lxor_spec, ?Z.bits_0;
  repeat match goal with |- context [Z.testbit ?x n] => destruct (Z.testbit x n) end; done.

Definition gen_sum (c : Z) : Z :=
  fold_left (fun x '(i, g) => Z.lxor x (if Z.testbit c (25 + Z.of_nat i) then g else 0)) (enumerate GEN) 0.
Definition shift_in (c : Z) : Z := Z.lxor (Z.shiftl (Z.land c 0x1ffffff) 5) (gen_sum c).

Lemma lxor_range a b n : 0 <= n -> 0 <= a < 2 ^ n -> 0 <= b < 2 ^ n -> 0 <= Z.lxor a b < 2 ^ n.
Proof.
  intros Hn Ha Hb. replace (Z.lxor a b) with (Z.lxor a b mod 2 ^ n); [apply Z.mod_pos_bound; lia|].
  rewrite <- (Z.mod_small a (2 ^ n)), <- (Z.mod_small b (2 ^ n)) at 2 by lia.
  apply Z.bits_inj'. intros m Hm. rewrite Z.lxor_spec. destruct (decide (m < n)).
  - rewrite !Z.mod_pow2_bits_low, Z.lxor_spec by lia. done.
  - rewrite !Z.mod_pow2_bits_high by lia. done.
Qed.

Lemma bit_of_b c i :
  0 <= i < 5 -> Z.land (Z.shiftr (cast 256 (Z.shiftr c 25)) i) 1 = 1 <-> Z.testbit c (25 + i) = true.
Proof.
  intros Hi. replace 1 with (Z.ones 1) at 1 by done. rewrite Z.land_ones by lia. change (2 ^ 1) with 2.
  rewrite <- Z.bit0_mod, Z.shiftr_spec by lia. unfold cast. change 256 with (2 ^ 8).
  rewrite Z.mod_pow2_bits_low, Z.shiftr_spec by lia. replace (0 + i + 25) with (25 + i) by lia.
  by destruct (Z.testbit c (25 + i)).
Qed.

Lemma gen_if c i x g :
  0 <= i < 5 ->
  (if decide (Z.land (Z.shiftr (cast 256 (Z.shiftr c 25)) i) 1 = 1) then Z.lxor x g else x)
  = Z.lxor x (if Z.testbit c (25 + i) then g else 0).
Proof.
  intros Hi. pose proof (bit_of_b c i Hi) as HP. case_decide; destruct (Z.testbit c (25 + i)); rewrite ?Z.lxor_0_r; naive_solver.
Qed.

Lemma gen_sum_start c (l : list (nat * Z)) x :
  fold_left (fun x '(i, g) => Z.lxor x (if Z.testbit c (25 + Z.of_nat i) then g else 0)) l x
  = Z.lxor x (fold_left (fun x '(i, g) => Z.lxor x (if Z.testbit c (25 + Z.of_nat i) then g else 0)) l 0).
Proof.
  revert x. induction l as [|[i g] l IH]; intros x; cbn [fold_left]; [by rewrite Z.lxor_0_r|].
  rewrite IH. rewrite (IH (Z.lxor 0 _)), Z.lxor_0_l. by rewrite Z.lxor_assoc.
Qed.

Lemma gen_fold c (l : list (nat * Z)) x :
  Forall (fun p => Z.of_nat p.1 < 5) l ->
  fold_left (fun chk '(i, g) =>
    if decide (Z.land (Z.shiftr (cast 256 (Z.shiftr c 25)) (Z.of_nat i)) 1 = 1) then Z.lxor chk g else chk) l x
  = fold_left (fun x '(i, g) => Z.lxor x (if Z.testbit c (25 + Z.of_nat i) then g else 0)) l x.
Proof.
  intros Hl. revert x. induction Hl as [|[i g] l Hi _ IH]; intros x; cbn [fold_left]; [done|].
  cbn in Hi. by rewrite gen_if, IH by lia.
Qed.

Lemma polymod_step_eq c v : polymod_step c v = Z.lxor (shift_in c) v.
Proof.
  unfold polymod_step, shift_in. rewrite gen_fold by (by repeat constructor). rewrite gen_sum_start.
  fold (gen_sum c). xor_solve.
Qed.

Lemma gen_sum_lxor a b : gen_sum (Z.lxor a b) = Z.lxor (gen_sum a) (gen_sum b).
Proof.
  unfold gen_sum. induction (enumerate GEN) as [|[i g] l IH]; [done|]. cbn [fold_left].
  rewrite !Z.lxor_0_l, (gen_sum_start (Z.lxor a b) l), (gen_sum_start a l), (gen_sum_start b l), IH, Z.lxor_spec.
  destruct (Z.testbit a _), (Z.testbit b _); cbn [xorb]; xor_solve.
Qed.

Lemma shift_in_lxor a b : shift_in (Z.lxor a b) = Z.lxor (shift_in a) (shift_in b).
Proof.
  unfold shift_in. rewrite gen_sum_lxor.
  assert (Z.land (Z.lxor a b) 0x1ffffff = Z.lxor (Z.land a 0x1ffffff) (Z.land b 0x1ffffff)) as ->.
  { apply Z.bits_inj'. intros n Hn. rewrite Z.land_spec, !Z.lxor_spec, !Z.land_spec.
    by destruct (Z.testbit a n), (Z.testbit b n), (Z.testbit 0x1ffffff n). }
  rewrite Z.shiftl_lxor. xor_solve.
Qed.

Lemma shift_in_small c : 0 <= c < 2 ^ 25 -> shift_in c = Z.shiftl c 5.
Proof.
  intros Hc. unfold shift_in. change 0x1ffffff with (Z.ones 25). rewrite Z.land_ones, Z.mod_small by lia.
  replace (gen_sum c) with 0; [by rewrite Z.lxor_0_r|]. unfold gen_sum. symmetry.
  assert (forall i, 0 <= i -> Z.testbit c (25 + i) = false) as Hb.
  { intros i Hi. destruct (decide (c = 0)) as [->|Hz]; [apply Z.bits_0|].
    apply Z.bits_above_log2; [lia|]. apply Z.lt_le_trans with 25; [|lia]. apply Z.log2_lt_pow2; lia. }
  induction (enumerate GEN) as [|[i g] l IH]; [done|]. cbn [fold_left]. by rewrite Hb by lia.
Qed.

Lemma gen_sum_range c : 0 <= gen_sum c < 2 ^ 30.
Proof.
  unfold gen_sum. assert (Forall (fun p => 0 <= p.2 < 2 ^ 30) (enumerate GEN)) as Hg by (repeat constructor; cbn; lia).
  assert (forall x, 0 <= x < 2 ^ 30 -> 0 <= fold_left (fun x '(i, g) =>
    Z.lxor x (if Z.testbit c (25 + Z.of_nat i) then g else 0)) (enumerate GEN) x < 2 ^ 30) as H; [|by apply H].
  induction Hg as [|[i g] l Hi _ IH]; intros x Hx; [done|]. cbn [fold_left]. apply IH.
  apply lxor_range; [lia|done|]. cbn in Hi. destruct (Z.testbit c _); lia.
Qed.

Lemma shift_in_range c : 0 <= shift_in c < 2 ^ 30.
Proof.
  apply lxor_range; [lia| |apply gen_sum_range]. change 0x1ffffff with (Z.ones 25).
  rewrite Z.land_ones, Z.shiftl_mul_pow2 by lia. pose proof (Z.mod_pos_bound c (2 ^ 25)). lia.
Qed.

(** ** The checksum verifies *)
Lemma polymod_lxor ds a b :
  fold_left polymod_step ds (Z.lxor a b)
  = Z.lxor (fold_left polymod_step (replicate (length ds) 0) a) (fold_left polymod_step ds b).
Proof.
  revert a b. induction ds as [|d ds IH]; intros a b; [done|]. cbn [fold_left replicate length].
  rewrite <- IH. f_equal. rewrite !polymod_step_eq, shift_in_lxor. xor_solve.
Qed.

Definition digits (p : Z) : Bytes := (fun x => Z.land (Z.shiftr p (5 * (5 - Z.of_nat x))) 0x1f) <$> seq 0 6.

Lemma length_digits p : length (digits p) = 6%nat.
Proof. done. Qed.

Lemma digit_step q : 0 <= q < 2 ^ 30 -> polymod_step (Z.shiftr q 5) (Z.land q 0x1f) = q.
Proof.
  intros Hq. rewrite polymod_step_eq, shift_in_small.
  - apply Z.bits_inj'. intros n Hn. rewrite Z.lxor_spec. change 0x1f with (Z.ones 5). rewrite Z.land_ones by lia.
    destruct (decide (n < 5)).
    + by rewrite Z.shiftl_spec_low, Z.mod_pow2_bits_low, xorb_false_l by lia.
    + rewrite Z.shiftl_spec, Z.shiftr_spec, Z.mod_pow2_bits_high, xorb_false_r by lia. f_equal. lia.
  - rewrite Z.shiftr_div_pow2 by lia. split; [apply Z.div_pos; lia|]. apply Z.div_lt_upper_bound; lia.
Qed.

Lemma digit_next p k k' :
  0 <= p < 2 ^ 30 -> 0 <= k -> k' = k + 5 ->
  polymod_step (Z.shiftr p k') (Z.land (Z.shiftr p k) 0x1f) = Z.shiftr p k.
Proof.
  intros Hp Hk ->. rewrite <- Z.shiftr_shiftr by lia. apply digit_step.
  rewrite Z.shiftr_div_pow2 by lia. split; [apply Z.div_pos; lia|].
  apply Z.le_lt_trans with p; [|lia]. apply Z.div_le_upper_bound; [lia|]. assert (0 < 2 ^ k) by lia. nia.
Qed.

Lemma digits_fold p : 0 <= p < 2 ^ 30 -> fold_left polymod_step (digits p) 0 = p.
Proof.
  intros Hp. assert (Z.shiftr p 30 = 0) as H0 by (rewrite Z.shiftr_div_pow2 by lia; by apply Z.div_small).
  replace (fold_left polymod_step (digits p) 0) with (fold_left polymod_step (digits p) (Z.shiftr p 30)) by (by rewrite H0).
  change (digits p) with [Z.land (Z.shiftr p 25) 31; Z.land (Z.shiftr p 20) 31; Z.land (Z.shiftr p 15) 31;
    Z.land (Z.shiftr p 10) 31; Z.land (Z.shiftr p 5) 31; Z.land (Z.shiftr p 0) 31].
  cbn [fold_left].
  rewrite (digit_next p 25 30), (digit_next p 20 25), (digit_next p 15 20), (digit_next p 10 15),
    (digit_next p 5 10), (digit_next p 0 5) by (done || lia).
  apply Z.shiftr_0_r.
Qed.

Lemma zeros_range c : 0 <= fold_left polymod_step (replicate 6 0) c < 2 ^ 30.
Proof. cbn [replicate fold_left]. rewrite polymod_step_eq, Z.lxor_0_r. apply shift_in_range. Qed.

Lemma create_checksum_digits hrp data :
  create_checksum hrp data
  = digits (Z.lxor (fold_left polymod_step (replicate 6 0) (polymod (hrp_expand hrp ++ data))) 1).
Proof. unfold create_checksum, polymod. by rewrite app_assoc, fold_left_app. Qed.

Lemma checksum_verifies hrp data : verify_checksum hrp (data ++ create_checksum hrp data) = true.
Proof.
  apply bool_decide_eq_true. rewrite create_checksum_digits, app_assoc. unfold polymod at 1. rewrite fold_left_app.
  fold (polymod (hrp_expand hrp ++ data)). set (c := polymod (hrp_expand hrp ++ data)).
  rewrite <- (Z.lxor_0_r c) at 2. rewrite polymod_lxor, length_digits.
  pose proof (zeros_range c) as Hz. revert Hz. generalize (fold_left polymod_step (replicate 6 0) c). intros z Hz.
  rewrite digits_fold by (apply lxor_range; lia). by rewrite <- Z.lxor_assoc, Z.lxor_nilpotent.
Qed.

Lemma land_31 a : 0 <= Z.land a 0x1f < 32.
Proof. change 0x1f with (Z.ones 5). rewrite Z.land_ones by lia. by apply Z.mod_pos_bound. Qed.

Lemma checksum_small hrp data : Forall (fun p => 0 <= p < 32) (create_checksum hrp data).
Proof.
  rewrite create_checksum_digits. unfold digits. apply Forall_fmap, Forall_true. intros x. apply land_31.
Qed.

(** ** Reading what was written *)
Definition char_of (p : Z) : Z := nth (Z.to_nat p) CHARSET 0.

Lemma char_of_lookup p : 0 <= p < 32 -> CHARSET !! Z.to_nat p = Some (char_of p).
Proof.
  intros Hp. unfold char_of.
  destruct (lookup_lt_is_Some_2 CHARSET (Z.to_nat p)) as [c Hc]; [change (length CHARSET) with 32%nat; lia|].
  by rewrite Hc, (nth_lookup_Some _ _ _ _ Hc).
Qed.

Definition char_ok (p : Z) : bool :=
  let c := char_of p in
  (is_ascii_digit c || is_ascii_lowercase c) && negb (is_ascii_uppercase c)
  && negb (bool_decide (c = 49 \/ c = 98 \/ c = 105 \/ c = 111))
  && bool_decide (CHARSET_IDX !! Z.to_nat c = Some p).

Lemma char_ok_all p : 0 <= p < 32 -> char_ok p = true.
Proof.
  intros Hp. apply (range_check (fun p => char_ok p = true) 0 31); [|lia].
  refine (bool_decide_unpack _ _). vm_compute. exact I.
Qed.

Lemma encode_loop l start :
  Forall (fun p => 0 <= p < 32) l ->
  try_fold (fun encoded p =>
    if decide (32 <= p) then Err (InvalidData p)
    else c ← expect (CHARSET !! Z.to_nat p); Ok (encoded ++ [c])) start l = Ok (start ++ (char_of <$> l)).
Proof.
  intros Hl. revert start. induction Hl as [|p l Hp _ IH]; intros start; [cbn; by rewrite app_nil_r|].
  cbn [try_fold]. rewrite decide_False by lia. rewrite char_of_lookup by done. cbn [expect]. rewrite !bind_ret_l, IH.
  by rewrite <- app_assoc.
Qed.

Lemma rsplit_none l : SEP ∉ l -> rsplit l = None.
Proof.
  induction l as [|b l IH]; intros Hn; [done|]. apply not_elem_of_cons in Hn as [Hb Hl]. cbn.
  by rewrite IH, decide_False by done.
Qed.

Lemma rsplit_app hrp l : SEP ∉ l -> rsplit (hrp ++ [SEP] ++ l) = Some (hrp, l).
Proof.
  intros Hl. induction hrp as [|b hrp IH]; cbn; [by rewrite rsplit_none|]. cbn in IH. by rewrite IH.
Qed.

Lemma scan_hrp_plain hrp st lower :
  Forall (fun b => 33 <= b <= 126 /\ is_ascii_uppercase b = false) hrp ->
  exists lower', try_fold scan_hrp (st, lower, false) hrp = Ok (st ++ hrp, lower', false).
Proof.
  intros Hh. revert st lower. induction Hh as [|b hrp [Hb Hu] _ IH]; intros st lower.
  { exists lower. by rewrite app_nil_r. }
  cbn [try_fold scan_hrp]. rewrite decide_False by lia. rewrite bind_ret_l. unfold to_ascii_lowercase. rewrite Hu.
  destruct (IH (st ++ [b]) (lower || is_ascii_lowercase b)) as [lower' H]. exists lower'. cbn [orb].
  by rewrite H, <- app_assoc.
Qed.

Lemma scan_data_chars l st lower :
  Forall (fun p => 0 <= p < 32) l ->
  exists lower', try_fold scan_data (st, lower, false) (char_of <$> l) = Ok (st ++ l, lower', false).
Proof.
  intros Hl. revert st lower. induction Hl as [|p l Hp _ IH]; intros st lower.
  { exists lower. by rewrite app_nil_r. }
  pose proof (char_ok_all p Hp) as Hc. unfold char_ok in Hc.
  rewrite !andb_true_iff, !negb_true_iff, bool_decide_eq_false, bool_decide_eq_true in Hc.
  destruct Hc as [[[Ha Hu] Hx] Hi]. cbn [fmap list_fmap try_fold scan_data].
  replace (is_ascii_digit (char_of p) || is_ascii_uppercase (char_of p) || is_ascii_lowercase (char_of p))
    with true by (rewrite Hu, orb_false_r; done).
  cbn [negb]. rewrite decide_False by done. unfold to_ascii_lowercase. rewrite Hu, Hi. cbn [expect]. rewrite !bind_ret_l.
  unfold cast. rewrite Z.mod_small by lia.
  destruct (IH (st ++ [p]) (lower || is_ascii_lowercase (char_of p))) as [lower' H]. exists lower'. cbn [orb].
  by rewrite H, <- app_assoc.
Qed.

Lemma char_not_sep l : Forall (fun p => 0 <= p < 32) l -> SEP ∉ char_of <$> l.
Proof.
  intros Hl (p & Hp & Hin)%list_elem_of_fmap. rewrite Forall_forall in Hl. pose proof (char_ok_all p (Hl p Hin)) as Hc.
  unfold char_ok in Hc. rewrite <- Hp in Hc. by vm_compute in Hc.
Qed.

(** C28. An encoded address decodes to what was encoded: for a human-readable part of characters 33 to 126 without
    capitals, data of five-bit values and a length of at most 90 in all, [encode] succeeds and
    [decode] of the string returns the same two parts; in particular the checksum verifies. *)
Theorem bech32_round_trip b :
  bech_hrp b <> [] -> Forall (fun c => 33 <= c <= 126 /\ is_ascii_uppercase c = false) (bech_hrp b) ->
  Forall (fun p => 0 <= p < 32) (bech_data b) -> len (bech_hrp b) + 7 + len (bech_data b) <= 90 ->
  exists s, bech32_encode b = Ok s /\ len s = len (bech_hrp b) + 7 + len (bech_data b) /\ bech32_decode s = Ok b.
Proof.
  intros Hne Hh Hd Hlen. destruct b as [hrp data]. cbn [bech_hrp bech_data] in *.
  set (sum := create_checksum hrp data). pose proof (checksum_small hrp data) as Hsum. fold sum in Hsum.
  assert (Forall (fun p => 0 <= p < 32) (data ++ sum)) as Hall by (by apply Forall_app).
  exists (hrp ++ [SEP] ++ (char_of <$> data ++ sum)).
  assert (len (hrp ++ [SEP] ++ (char_of <$> data ++ sum)) = len hrp + 7 + len data) as Hl.
  { unfold len. rewrite !length_app, length_fmap, length_app. unfold sum. rewrite create_checksum_digits, length_digits. cbn. lia. }
  split; [|split; [done|]].
  - unfold bech32_encode. cbn [bech_hrp bech_data]. destruct hrp; [done|].
    fold sum. rewrite encode_loop by done. by rewrite <- app_assoc.
  - assert (1 <= len hrp) by (destruct hrp; [done|]; rewrite len_cons; pose proof (len_nonneg hrp); lia).
    pose proof (len_nonneg data). unfold bech32_decode. rewrite decide_False by lia.
    rewrite rsplit_app by (by apply char_not_sep). rewrite decide_False.
    2: { intros [?|Hs]; [done|]. unfold len in Hs. rewrite length_fmap, length_app in Hs.
         unfold sum in Hs. rewrite create_checksum_digits, length_digits in Hs. lia. }
    destruct (scan_hrp_plain hrp [] false Hh) as [lower ->]. rewrite bind_ret_l.
    destruct (scan_data_chars (data ++ sum) [] lower Hall) as [lower' ->]. rewrite bind_ret_l.
    rewrite andb_false_r. cbn [app]. rewrite checksum_verifies. cbn [negb]. do 2 f_equal.
    rewrite length_app. unfold sum at 1. rewrite create_checksum_digits, length_digits, Nat.add_sub. apply take_app_length.
Qed.

(** The example of the documentation: [bech321qpz4nc4pe]. *)
Lemma bech32_round_trip_witness :
  bech32_decode [98; 101; 99; 104; 51; 50; 49; 113; 112; 122; 52; 110; 99; 52; 112; 101]
  = Ok (mkBech32 [98; 101; 99; 104; 51; 50] [0; 1; 2]).
Proof.
  destruct (bech32_round_trip (mkBech32 [98; 101; 99; 104; 51; 50] [0; 1; 2])) as (s & Hs & _ & Hd).
  - discriminate.
  - repeat constructor; done.
  - repeat constructor; done.
  - vm_compute. discriminate.
  - assert (Ok s = Ok (E := Bech32Error) [98; 101; 99; 104; 51; 50; 49; 113; 112; 122; 52; 110; 99; 52; 112; 101]) as Heq
      by (rewrite <- Hs; vm_compute; reflexivity).
    injection Heq as ->. exact Hd.
Defined.

(** The letters that the data part excludes are excluded in lower case only: [A1BL99TPG] decodes, to data that is not a
    five-bit value and that [encode] refuses. *)
Lemma capital_b_decodes :
  bech32_decode [65; 49; 66; 76; 57; 57; 84; 80; 71] = Ok (mkBech32 [97] [255]) /\
  bech32_encode (mkBech32 [97] [255]) = Err (InvalidData 255).
Proof. split; vm_compute; reflexivity. Qed.

(** [encode] takes a human-readable part with capitals and gives a string that [decode] refuses. *)
Lemma capital_hrp_refused :
  (s ← bech32_encode (mkBech32 [65; 66] [0; 1; 2]); bech32_decode s) = Err MixedCase.
Proof. vm_compute. reflexivity. Qed.
