(* ===== verification/NetTime.v ===== *)
(** * The clock of the node against its peers

    [sync/src/net_time_checker.rs]: the offsets of the peers' clocks are sampled
    and a warning is given when their median is too large. *)
From stdpp Require Import sorting.
From S2P Require Import Prelude Fixtures MedianTime.

Definition TOLERANT_OFFSET : Z := 7200000.
Definition MIN_SAMPLES : Z := 5.
Definition MAX_SAMPLES : Z := 11.

Record NetTimeChecker := mkChecker {
  tolerant_offset : Z;
  max_samples : Z;
  min_samples : Z;
  samples : list Z
}.
Definition NetTimeChecker_new (min_samples max_samples tolerant_offset : Z) : NetTimeChecker :=
  mkChecker tolerant_offset max_samples min_samples [].
Definition NetTimeChecker_default : NetTimeChecker := NetTimeChecker_new MIN_SAMPLES MAX_SAMPLES TOLERANT_OFFSET.

(** The operations of [i64]. *)
Definition i64 (x : Z) : Prop := - 2 ^ 63 <= x < 2 ^ 63.
Definition add_i64 {E} (a b : Z) : outcome E Z := if decide (- 2 ^ 63 <= a + b < 2 ^ 63) then Ok (a + b) else Panic.
Definition abs_i64 {E} (a : Z) : outcome E Z := if decide (a = - 2 ^ 63) then Panic else Ok (Z.abs a).
(** [x as i64]. *)
Definition wrap_i64 (x : Z) : Z := (x + 2 ^ 63) mod 2 ^ 64 - 2 ^ 63.

Definition add_sample (self : NetTimeChecker) (offset : Z) : NetTimeChecker :=
  let samples := samples self ++ [offset] in
  let samples := if decide (max_samples self < len samples) then drop 1 samples else samples in
  mkChecker (tolerant_offset self) (max_samples self) (min_samples self) samples.

Definition median_offset {E} (self : NetTimeChecker) : outcome E (option Z) :=
  if decide (samples self = [] \/ len (samples self) < min_samples self) then Ok None
  else
    let sorted := merge_sort Z.le (samples self) in
    let i := (length sorted / 2)%nat in
    if decide (length sorted mod 2 = 0)%nat then
      a ← expect (sorted !! (i - 1)%nat);
      b ← expect (sorted !! i);
      sum ← add_i64 a b;
      Ok (Some (Z.quot sum 2))
    else Ok (sorted !! i).

Definition check (self : NetTimeChecker) : outcome Z unit :=
  network_offset ← median_offset self;
  match network_offset with
  | None => Ok tt
  | Some network_offset =>
      a ← abs_i64 network_offset;
      if decide (tolerant_offset self < a) then Err network_offset else Ok tt
  end.

(** ** The protocol

    [connected] gives the time that is sent.  [received] has the timestamp of the
    message, if it can be read; the result is the checker, whether the peer is
    banned, and the offset of a warning. *)
Definition net_time_connected (is_inbound : option bool) (now : Z) : option Z :=
  match is_inbound with Some true => Some now | _ => None end.

Definition net_time_received {E} (self : NetTimeChecker) (now : Z) (timestamp : option Z)
    : outcome E (NetTimeChecker * bool * option Z) :=
  match timestamp with
  | None => Ok (self, true, None)
  | Some timestamp =>
      let self := add_sample self (wrap_i64 (now - timestamp)) in
      match check self with
      | Ok _ => Ok (self, false, None)
      | Err offset => Ok (self, false, Some offset)
      | Panic => Panic
      end
  end.

(** ** Lemmas *)
Definition within (lo hi : Z) (l : list Z) : nat := length (filter (fun x => lo <= x <= hi) l).

Lemma within_below lo hi l :
  lo <= hi + 1 -> (within lo hi l + below lo l = below (hi + 1) l)%nat.
Proof.
  intros Hle. unfold within, below. induction l as [|x l IH]; [done|]. rewrite !filter_cons.
  repeat case_decide; cbn [length]; lia.
Qed.

Lemma below_length bound l : (below bound l <= length l)%nat.
Proof. apply length_filter. Qed.

(** An element of the sorted list with fewer than half on either side. *)
Lemma sorted_within lo hi l k m :
  merge_sort Z.le l !! k = Some m -> lo <= hi + 1 ->
  (below lo l <= k)%nat -> (k < below (hi + 1) l)%nat -> lo <= m <= hi.
Proof.
  intros Hm Hle H1 H2. pose proof (StronglySorted_merge_sort Z.le l) as Hs.
  rewrite <- (below_perm lo _ _ (merge_sort_Permutation Z.le l)) in H1.
  rewrite <- (below_perm (hi + 1) _ _ (merge_sort_Permutation Z.le l)) in H2.
  apply (below_sorted _ _ _ lo Hs Hm) in H1. destruct (decide (hi + 1 <= m)) as [Hgt|]; [|lia].
  apply (below_sorted _ _ _ (hi + 1) Hs Hm) in Hgt. lia.
Qed.

Lemma median_offset_within {E} self lo hi :
  samples self <> [] -> min_samples self <= len (samples self) -> - 2 ^ 62 <= lo -> hi < 2 ^ 62 ->
  (length (samples self) < 2 * within lo hi (samples self))%nat ->
  exists m, median_offset (E := E) self = Ok (Some m) /\ lo <= m <= hi.
Proof.
  intros Hne Hmin Hlo Hhi Hmaj. unfold median_offset. rewrite decide_False by (intros [?|?]; [done|lia]).
  set (l := samples self) in *. assert (lo <= hi + 1) as Hle.
  { destruct (decide (lo <= hi + 1)); [done|]. exfalso. unfold within in Hmaj.
    replace (filter _ l) with (@nil Z) in Hmaj; [simpl in Hmaj; lia|]. symmetry. apply elem_of_nil_inv.
    intros x [Hx _]%list_elem_of_filter. lia. }
  pose proof (within_below lo hi l Hle) as Hw. pose proof (below_length (hi + 1) l) as Hb.
  assert (length (merge_sort Z.le l) = length l) as Hlen by (by rewrite merge_sort_Permutation).
  pose proof (Nat.div_mod_eq (length l) 2) as Hd. pose proof (Nat.mod_upper_bound (length l) 2 ltac:(lia)).
  rewrite Hlen. destruct (lookup_lt_is_Some_2 (merge_sort Z.le l) (length l / 2)) as [b Hbk]; [lia|].
  pose proof (sorted_within lo hi l _ b Hbk Hle ltac:(lia) ltac:(lia)) as Hb2. case_decide as Hmod.
  - destruct (lookup_lt_is_Some_2 (merge_sort Z.le l) (length l / 2 - 1)) as [a Hak]; [lia|].
    pose proof (sorted_within lo hi l _ a Hak Hle ltac:(lia) ltac:(lia)) as Ha2.
    rewrite Hak, Hbk. cbn [expect]. rewrite !bind_ret_l. unfold add_i64. rewrite decide_True by lia. rewrite bind_ret_l.
    eexists. split; [done|]. Z.to_euclidean_division_equations. lia.
  - exists b. by rewrite Hbk.
Qed.

(** The majority of the samples decides: when more than half of the samples lie between two bounds,
    the median offset exists and lies between them, so that a minority of the samples can neither cause
    nor suppress a warning; and the number of samples never exceeds the maximum. *)
Theorem net_time_majority self lo hi :
  samples self <> [] -> min_samples self <= len (samples self) -> - 2 ^ 62 <= lo -> hi < 2 ^ 62 ->
  (length (samples self) < 2 * within lo hi (samples self))%nat ->
  exists m, lo <= m <= hi /\
    check self = (if decide (tolerant_offset self < Z.abs m) then Err m else Ok tt) /\
    (forall offset, 0 < max_samples self -> len (samples self) <= max_samples self ->
      len (samples (add_sample self offset)) <= max_samples self).
Proof.
  intros Hne Hmin Hlo Hhi Hmaj. destruct (median_offset_within (E := Z) self lo hi Hne Hmin Hlo Hhi Hmaj) as (m & Hm & Hr).
  exists m. split; [done|]. split.
  - unfold check. rewrite Hm, bind_ret_l. unfold abs_i64. by rewrite decide_False, bind_ret_l by lia.
  - intros offset Hmax Hlen. unfold add_sample. cbn [samples]. rewrite len_app. case_decide as Hd.
    + unfold len in *. rewrite length_drop, length_app. simpl in *. lia.
    + rewrite len_app in *. lia.
Qed.

Lemma net_time_majority_witness :
  check (mkChecker TOLERANT_OFFSET MAX_SAMPLES MIN_SAMPLES [9000000; 9000000; -5; 9000000; 8000000; 10; 9000000])
  = Err 9000000.
Proof.
  destruct (net_time_majority
    (mkChecker TOLERANT_OFFSET MAX_SAMPLES MIN_SAMPLES [9000000; 9000000; -5; 9000000; 8000000; 10; 9000000]) 9000000 9000000)
    as (m & Hm & Hc & _).
  - discriminate.
  - vm_compute. discriminate.
  - lia.
  - lia.
  - vm_compute. lia.
  - assert (m = 9000000) as -> by lia. exact Hc.
Defined.

(** Five messages of one peer, with a timestamp [2^63] ahead of the node's clock, make the handler panic: the median is the
    least [i64] and has no absolute value. *)
Lemma net_time_flood (now : Z) :
  try_fold (fun self timestamp => fst <$> (fst <$> net_time_received (E := unit) self now (Some timestamp)))
    NetTimeChecker_default (replicate 5 (now + 2 ^ 63)) = Panic.
Proof.
  assert (wrap_i64 (now - (now + 2 ^ 63)) = - 2 ^ 63) as Hw.
  { unfold wrap_i64. replace (now - (now + 2 ^ 63) + 2 ^ 63) with 0 by lia. done. }
  cbn [replicate try_fold]. unfold net_time_received. rewrite Hw. vm_compute. reflexivity.
Qed.

(** With an even number of samples the sum of the two in the middle overflows: three messages [2^63 - 1] behind are
    enough, when the third of the honest peers is ahead. *)
Lemma net_time_sum_overflows :
  check (mkChecker TOLERANT_OFFSET MAX_SAMPLES MIN_SAMPLES [3; -1; 4; 2 ^ 63 - 1; 2 ^ 63 - 1; 2 ^ 63 - 1]) = Panic.
Proof. vm_compute. reflexivity. Qed.
