(* ===== verification/Alerts.v ===== *)
(** * Alerts

    [util/multisig], [util/network-alert] and the methods of the RPC that use
    them: an alert is a message that is shown to the users of the nodes; it
    counts when enough of the configured keys have signed it.  The recovery of a
    public key from a signature is the one of the package [secp256k1]. *)
From S2P Require Import Prelude ByteStrings LinkedMap PeerStore RegistrySound.

(** ** Signatures *)
Definition Pubkey : Type := Bytes.
Definition Signature : Type := Bytes.
Definition SECP_N : Z := 0xfffffffffffffffffffffffffffffffebaaedce6af48a03bbfd25e8cd0364141.
Definition SECP_ONE : Z := 1.

Definition Signature_r (self : Signature) : Bytes := take 32 self.
Definition Signature_s (self : Signature) : Bytes := take 32 (drop 32 self).
Definition Signature_v (self : Signature) : Z := nth 64 self 0.
Definition Signature_from_slice (data : Bytes) : option Signature :=
  if decide (len data <> 65) then None else Some data.

Definition Signature_is_valid (self : Signature) : bool :=
  match h256_from_slice (Signature_r self) with
  | None => false
  | Some h_r =>
      match h256_from_slice (Signature_s self) with
      | None => false
      | Some h_s =>
          bool_decide (Signature_v self <= 1) && bool_decide (h_r < SECP_N) && bool_decide (SECP_ONE <= h_r)
          && bool_decide (h_s < SECP_N) && bool_decide (SECP_ONE <= h_s)
      end
  end.

Inductive MultisigError :=
| SigCountOverflow
| SigNotEnough
| Threshold (threshold pass_sigs : Z).

Section alerts.
(** [Signature::recover], for a message and a signature. *)
Context (recover : H256 -> Signature -> option Pubkey).

(** The filter on recovered keys, with the set of the keys used so far. *)
Fixpoint fresh_keys (pks used_pks : gset Pubkey) (recovered : list Pubkey) : list Pubkey :=
  match recovered with
  | [] => []
  | rec_pk :: recovered =>
      if decide (rec_pk ∈ pks /\ rec_pk ∉ used_pks)
      then rec_pk :: fresh_keys pks ({[rec_pk]} ∪ used_pks) recovered
      else fresh_keys pks used_pks recovered
  end.

Definition verify_m_of_n (message : H256) (m_threshold : Z) (sigs : list Signature) (pks : gset Pubkey)
    : outcome MultisigError unit :=
  if decide (Z.of_nat (size pks) < len sigs) then Err SigCountOverflow
  else if decide (len sigs < m_threshold) then Err SigNotEnough
  else
    let verified_sig_count := len (take (Z.to_nat m_threshold) (fresh_keys pks ∅ (omap (recover message) sigs))) in
    if decide (verified_sig_count < m_threshold) then Err (Threshold m_threshold verified_sig_count) else Ok tt.

(** ** The alert *)
Record Alert := mkAlert {
  al_id : Z;
  al_cancel : Z;
  al_min_version : option Bytes;
  al_max_version : option Bytes;
  al_priority : Z;
  al_notice_until : Z;
  al_message : Bytes;
  al_signatures : list Bytes
}.
#[global] Instance Alert_eq_dec : EqDecision Alert.
Proof. solve_decision. Defined.

Context (blake2b_256 : Bytes -> H256) (serialize : Alert -> Bytes).

Definition alert_hash (self : Alert) : H256 :=
  blake2b_256 (serialize (mkAlert (al_id self) (al_cancel self) (al_min_version self) (al_max_version self)
    (al_priority self) (al_notice_until self) (al_message self) [])).

(** The threshold and the public keys of the configuration. *)
Record Verifier := mkVerifier { signatures_threshold : Z; pubkeys : gset Pubkey }.

Definition alert_signatures (alert : Alert) : list Signature :=
  omap (fun sig_data =>
    sig ← Signature_from_slice sig_data;
    if Signature_is_valid sig then Some sig else None) (al_signatures alert).

Definition verify_signatures (self : Verifier) (alert : Alert) : outcome MultisigError unit :=
  verify_m_of_n (alert_hash alert) (signatures_threshold self) (alert_signatures alert) (pubkeys self).

(** ** The notifier *)
Context {LC LK : Type -> Type} `{HLC : !LruCache Z LC} `{HLK : !LruCache Z LK}.

Record Notifier := mkNotifier {
  cancel_filter : LC unit;
  received_alerts : gmap Z Alert;
  noticed_alerts : list Alert;
  client_version : Bytes
}.
Definition CANCEL_FILTER_SIZE : Z := 128.
Definition Notifier_new (client_version : Bytes) : Notifier :=
  mkNotifier (lru_new CANCEL_FILTER_SIZE) ∅ [] client_version.

Definition has_received (self : Notifier) (id : Z) : bool :=
  bool_decide (is_Some (received_alerts self !! id)) || bool_decide (is_Some (lru_get id (cancel_filter self))).

Definition notifier_cancel (self : Notifier) (cancel_id : Z) : Notifier :=
  mkNotifier (lru_insert cancel_id tt (cancel_filter self)) (delete cancel_id (received_alerts self))
    (filter (fun a => al_id a <> cancel_id) (noticed_alerts self)) (client_version self).

(** [String: Ord] compares the bytes. *)
Fixpoint string_lt (a b : Bytes) : bool :=
  match a, b with
  | _, [] => false
  | [], _ :: _ => true
  | x :: a, y :: b => bool_decide (x < y) || bool_decide (x = y) && string_lt a b
  end.

(** Whether the client's version is in the range of the alert. *)
Definition version_in_range (version : Bytes) (alert : Alert) : bool :=
  match al_min_version alert with Some min_v => negb (string_lt version min_v) | None => true end
  && match al_max_version alert with Some max_v => negb (string_lt max_v version) | None => true end.

Definition notifier_add (self : Notifier) (alert : Alert) : Notifier :=
  if has_received self (al_id alert) then self
  else
    let self := if decide (0 < al_cancel alert) then notifier_cancel self (al_cancel alert) else self in
    let received := <[al_id alert := alert]> (received_alerts self) in
    let noticed :=
      if negb (version_in_range (client_version self) alert) then noticed_alerts self
      else if decide (alert ∈ noticed_alerts self) then noticed_alerts self
      else sort_by_key (fun a => U32_SIZE - 1 - al_priority a) (noticed_alerts self ++ [alert]) in
    mkNotifier (cancel_filter self) received noticed (client_version self).

Definition notifier_clear_expired (self : Notifier) (now : Z) : Notifier :=
  mkNotifier (cancel_filter self) (filter (fun p => now < al_notice_until p.2) (received_alerts self))
    (filter (fun a => now < al_notice_until a) (noticed_alerts self)) (client_version self).

(** ** The relayer and the RPC *)
Definition KNOWN_LIST_SIZE : Z := 64.
Record AlertRelayer := mkAlertRelayer {
  ar_notifier : Notifier;
  ar_verifier : Verifier;
  ar_known_lists : LK (gset Z)
}.
Definition AlertRelayer_new (client_version : Bytes) (verifier : Verifier) : AlertRelayer :=
  mkAlertRelayer (Notifier_new client_version) verifier (lru_new KNOWN_LIST_SIZE).

Definition with_notifier (self : AlertRelayer) (n : Notifier) : AlertRelayer :=
  mkAlertRelayer n (ar_verifier self) (ar_known_lists self).

Definition mark_as_known (self : AlertRelayer) (peer alert_id : Z) : AlertRelayer * bool :=
  match lru_get peer (ar_known_lists self) with
  | Some alert_ids =>
      (mkAlertRelayer (ar_notifier self) (ar_verifier self)
         (lru_insert peer ({[alert_id]} ∪ alert_ids) (lru_refresh peer (ar_known_lists self))),
       negb (bool_decide (alert_id ∈ alert_ids)))
  | None =>
      (mkAlertRelayer (ar_notifier self) (ar_verifier self) (lru_insert peer {[alert_id]} (ar_known_lists self)), true)
  end.

(** What a handler does to the network. *)
Inductive AlertAction :=
| SendAlert (peer : Z) (alert : Alert)
| BroadcastAlert (alert : Alert)
| BanPeer (peer : Z).

Definition alert_connected (self : AlertRelayer) (now peer : Z) : AlertRelayer * list AlertAction :=
  let n := notifier_clear_expired (ar_notifier self) now in
  (with_notifier self n, (fun p => SendAlert peer p.2) <$> map_to_list (received_alerts n)).

(** The peers that do not know the alert yet, in the order they are asked for. *)
Definition select_peers (self : AlertRelayer) (alert_id : Z) (peers : list Z) : AlertRelayer * list Z :=
  fold_left (fun '(self, selected) peer =>
    let '(self, new) := mark_as_known self peer alert_id in
    (self, if new then selected ++ [peer] else selected)) peers (self, []).

(** [message] is the alert that was read from the data, if it could be. *)
Definition alert_received (self : AlertRelayer) (peer : Z) (message : option Alert) (connected_peers : list Z)
    : AlertRelayer * list AlertAction :=
  match message with
  | None => (self, [BanPeer peer])
  | Some alert =>
      if has_received (ar_notifier self) (al_id alert) then (self, [])
      else
        match verify_signatures (ar_verifier self) alert with
        | Ok _ =>
            let self := (mark_as_known self peer (al_id alert)).1 in
            let '(self, selected_peers) := select_peers self (al_id alert) connected_peers in
            (with_notifier self (notifier_add (ar_notifier self) alert), (fun p => SendAlert p alert) <$> selected_peers)
        | _ => (self, [BanPeer peer])
        end
  end.

(** [AlertRpc::send_alert]; [None] is an error. *)
Definition send_alert (self : AlertRelayer) (now : Z) (alert : Alert) : option (AlertRelayer * list AlertAction) :=
  if decide (al_notice_until alert < now) then None
  else
    match verify_signatures (ar_verifier self) alert with
    | Ok _ => Some (with_notifier self (notifier_add (ar_notifier self) alert), [BroadcastAlert alert])
    | _ => None
    end.

(** The alerts that the RPC [get_blockchain_info] shows. *)
Definition shown_alerts (self : AlertRelayer) (now : Z) : AlertRelayer * list Alert :=
  let n := notifier_clear_expired (ar_notifier self) now in (with_notifier self n, noticed_alerts n).

Inductive AlertEvent :=
| AlConnected (now peer : Z)
| AlReceived (peer : Z) (message : option Alert) (connected_peers : list Z)
| AlSend (now : Z) (alert : Alert)
| AlShow (now : Z).

Definition alert_step (self : AlertRelayer) (event : AlertEvent) : AlertRelayer :=
  match event with
  | AlConnected now peer => (alert_connected self now peer).1
  | AlReceived peer message connected_peers => (alert_received self peer message connected_peers).1
  | AlSend now alert => match send_alert self now alert with Some (self, _) => self | None => self end
  | AlShow now => (shown_alerts self now).1
  end.
Definition alert_run (self : AlertRelayer) (events : list AlertEvent) : AlertRelayer := foldl alert_step self events.
End alerts.

(** ** What a verified alert has *)
Section verified.
Context (recover : H256 -> Signature -> option Pubkey).

Lemma fresh_keys_spec pks used l :
  NoDup (fresh_keys pks used l) /\
  (forall k, k ∈ fresh_keys pks used l <-> k ∈ l /\ k ∈ pks /\ k ∉ used).
Proof.
  revert used. induction l as [|x l IH]; intros used; cbn [fresh_keys].
  { split; [constructor|]. intros k. split; [by intros ?%not_elem_of_nil|by intros [?%not_elem_of_nil _]]. }
  case_decide as Hx.
  - destruct (IH ({[x]} ∪ used)) as [Hnd Hin]. split.
    + constructor; [|done]. rewrite Hin. set_solver.
    + intros k. rewrite !elem_of_cons, Hin. destruct (decide (k = x)) as [->|]; set_solver.
  - destruct (IH used) as [Hnd Hin]. split; [done|]. intros k. rewrite Hin, elem_of_cons. naive_solver.
Qed.

(** The keys of the configuration that have signed. *)
Definition signers (message : H256) (sigs : list Signature) (pks : gset Pubkey) : gset Pubkey :=
  list_to_set (omap (recover message) sigs) ∩ pks.

Lemma fresh_keys_signers message sigs pks :
  length (fresh_keys pks ∅ (omap (recover message) sigs)) = size (signers message sigs pks).
Proof.
  destruct (fresh_keys_spec pks ∅ (omap (recover message) sigs)) as [Hnd Hin].
  rewrite <- (size_list_to_set (C := gset Pubkey) _ Hnd). f_equal. apply set_eq. intros k.
  rewrite elem_of_list_to_set, Hin. unfold signers. rewrite elem_of_intersection, elem_of_list_to_set. set_solver.
Qed.

Lemma omap_shorter {A B} (f : A -> option B) l : (length (omap f l) <= length l)%nat.
Proof. induction l as [|x l IH]; cbn; [lia|]. destruct (f x); cbn; lia. Qed.

(** [verify_m_of_n], exactly: there are not more signatures than keys, and the signatures come from at least
    [m] different keys of the set. *)
Lemma verify_m_of_n_spec message m sigs pks :
  0 <= m ->
  verify_m_of_n recover message m sigs pks = Ok tt <->
  len sigs <= Z.of_nat (size pks) /\ m <= Z.of_nat (size (signers message sigs pks)).
Proof.
  intros Hm. unfold verify_m_of_n. rewrite <- fresh_keys_signers. set (l := fresh_keys _ _ _).
  assert (len l <= len sigs) as Hl.
  { unfold l, len. rewrite fresh_keys_signers. unfold signers.
    transitivity (Z.of_nat (size (list_to_set (C := gset Pubkey) (omap (recover message) sigs)))).
    - apply inj_le, subseteq_size. set_solver.
    - apply inj_le. rewrite size_list_to_set_le. apply omap_shorter. }
  unfold len in *. rewrite length_take. repeat case_decide; split; intros Hx; try done; lia.
Qed.

Context (blake2b_256 : Bytes -> H256) (serialize : Alert -> Bytes).
Context {LC LK : Type -> Type} `{HLC : !LruCache Z LC} `{HLK : !LruCache Z LK}.
Local Abbreviation verify := (verify_signatures recover blake2b_256 serialize).
Local Abbreviation step := (alert_step recover blake2b_256 serialize (LC := LC) (LK := LK)).

Record notifier_ok (v : Verifier) (n : Notifier (LC := LC)) : Prop := {
  no_received id a : received_alerts n !! id = Some a -> al_id a = id /\ verify v a = Ok tt;
  no_noticed a : a ∈ noticed_alerts n -> received_alerts n !! al_id a = Some a;
  no_sorted : StronglySorted (fun a b => al_priority b <= al_priority a) (noticed_alerts n)
}.

Lemma StronglySorted_filter {A} (R : A -> A -> Prop) (P : A -> Prop) `{forall x, Decision (P x)} l :
  StronglySorted R l -> StronglySorted R (filter P l).
Proof.
  induction 1 as [|x l Hl IH Hx]; [constructor|]. rewrite filter_cons. case_decide; [|done].
  constructor; [done|]. rewrite Forall_forall in *. intros y [_ Hy]%list_elem_of_filter. auto.
Qed.

Lemma StronglySorted_mono {A} (R R' : A -> A -> Prop) l :
  (forall a b, R a b -> R' a b) -> StronglySorted R l -> StronglySorted R' l.
Proof. intros HR. induction 1 as [|x l Hl IH Hx]; constructor; [done|]. eapply Forall_impl; [exact Hx|]. auto. Qed.

Lemma notifier_cancel_ok v n id : notifier_ok v n -> notifier_ok v (notifier_cancel n id).
Proof.
  intros [Hr Hn Hs]. split; cbn.
  - intros id' a [_ Ha]%lookup_delete_Some. by apply Hr.
  - intros a [Hne Ha]%list_elem_of_filter. rewrite lookup_delete_ne by congruence. by apply Hn.
  - by apply StronglySorted_filter.
Qed.

Lemma notifier_clear_ok v n now : notifier_ok v n -> notifier_ok v (notifier_clear_expired n now).
Proof.
  intros [Hr Hn Hs]. split; cbn.
  - intros id a [Ha _]%map_lookup_filter_Some. by apply Hr.
  - intros a [Hu Ha]%list_elem_of_filter. apply map_lookup_filter_Some. split; [by apply Hn|done].
  - by apply StronglySorted_filter.
Qed.

Lemma notifier_add_ok v n alert : notifier_ok v n -> verify v alert = Ok tt -> notifier_ok v (notifier_add n alert).
Proof.
  intros Hok Hv. unfold notifier_add. destruct (has_received n (al_id alert)) eqn:Hh; [done|].
  set (n1 := if decide (0 < al_cancel alert) then notifier_cancel n (al_cancel alert) else n).
  assert (notifier_ok v n1 /\ received_alerts n1 !! al_id alert = None) as [[Hr Hn Hs] Hnone].
  { unfold has_received in Hh. apply orb_false_iff in Hh as [Hh%bool_decide_eq_false _]. apply eq_None_not_Some in Hh.
    unfold n1. case_decide; split; [by apply notifier_cancel_ok| |done|done]. cbn. rewrite lookup_delete_None. by right. }
  assert (forall a, a ∈ noticed_alerts n1 -> <[al_id alert := alert]> (received_alerts n1) !! al_id a = Some a) as Hold.
  { intros a Ha. apply Hn in Ha. rewrite lookup_insert_ne; [done|]. intros Heq. rewrite <- Heq in Ha. congruence. }
  split; cbn.
  - intros id a [[<- <-]|[_ Ha]]%lookup_insert_Some; [done|by apply Hr].
  - intros a. destruct (negb _); [apply Hold|]. case_decide; [apply Hold|]. rewrite sort_by_key_perm, elem_of_app.
    intros [Ha| ->%list_elem_of_singleton]; [by apply Hold|apply lookup_insert_eq].
  - destruct (negb _); [done|]. case_decide; [done|].
    eapply StronglySorted_mono; [|apply sort_by_key_sorted]. cbn. intros; lia.
Qed.

Definition relayer_ok (v : Verifier) (self : AlertRelayer (LC := LC) (LK := LK)) : Prop :=
  ar_verifier self = v /\ notifier_ok v (ar_notifier self).

Lemma mark_as_known_same self peer id :
  ar_verifier (mark_as_known (LC := LC) (LK := LK) self peer id).1 = ar_verifier self /\
  ar_notifier (mark_as_known (LC := LC) (LK := LK) self peer id).1 = ar_notifier self.
Proof. unfold mark_as_known. by destruct (lru_get peer _). Qed.

Lemma select_peers_same self id peers :
  ar_verifier (select_peers (LC := LC) (LK := LK) self id peers).1 = ar_verifier self /\
  ar_notifier (select_peers (LC := LC) (LK := LK) self id peers).1 = ar_notifier self.
Proof.
  unfold select_peers. set (f := fun '(self, selected) peer => _).
  enough (forall selected, ar_verifier (fold_left f peers (self, selected)).1 = ar_verifier self /\
    ar_notifier (fold_left f peers (self, selected)).1 = ar_notifier self) as H by apply H.
  revert self. induction peers as [|peer peers IH]; intros self selected; [done|]. cbn [fold_left]. unfold f at 2 4.
  destruct (mark_as_known_same self peer id) as [<- <-]. destruct (mark_as_known self peer id) as [self' new]. apply IH.
Qed.

Lemma alert_step_ok v self event : relayer_ok v self -> relayer_ok v (step self event).
Proof.
  intros [Hv Hok]. destruct event as [now peer|peer message peers|now alert|now]; cbn.
  - split; [done|]. by apply notifier_clear_ok.
  - unfold alert_received. destruct message as [alert|]; [|done]. destruct (has_received _ _); [done|].
    destruct (verify_signatures _ _ _ _ _) as [[]| |] eqn:Hver; [|done..].
    destruct (mark_as_known_same self peer (al_id alert)) as [H1 H2].
    destruct (mark_as_known self peer (al_id alert)) as [self1 new]. cbn in *.
    destruct (select_peers_same self1 (al_id alert) peers) as [H3 H4].
    destruct (select_peers self1 (al_id alert) peers) as [self2 selected]. cbn in *.
    split; cbn; [congruence|]. rewrite H4, H2. apply notifier_add_ok; [done|]. by rewrite <- Hv.
  - unfold send_alert. case_decide; [done|]. destruct (verify_signatures _ _ _ _ _) as [[]| |] eqn:Hver; [|done..].
    split; [done|]. cbn. apply notifier_add_ok; [done|]. by rewrite <- Hv.
  - split; [done|]. by apply notifier_clear_ok.
Qed.

(** C29. Only alerts that enough key holders signed are stored or shown: after any sequence of connections, messages of peers,
    calls of the RPC and queries, every alert the node has received or noticed carries signatures of its hash from at
    least the threshold of different configured keys; the noticed alerts are among the received ones and are ordered by
    priority. *)
Theorem alerts_signed v version events :
  0 <= signatures_threshold v ->
  let n := ar_notifier (alert_run recover blake2b_256 serialize
    (AlertRelayer_new (LC := LC) (LK := LK) version v) events) in
  (forall id a, received_alerts n !! id = Some a -> al_id a = id /\
    signatures_threshold v <=
      Z.of_nat (size (signers (alert_hash blake2b_256 serialize a) (alert_signatures a) (pubkeys v)))) /\
  (forall a, a ∈ noticed_alerts n -> received_alerts n !! al_id a = Some a) /\
  StronglySorted (fun a b => al_priority b <= al_priority a) (noticed_alerts n).
Proof.
  intros Ht n. assert (relayer_ok v (alert_run recover blake2b_256 serialize
    (AlertRelayer_new (LC := LC) (LK := LK) version v) events)) as [_ [Hr Hn Hs]].
  { unfold alert_run. assert (relayer_ok v (AlertRelayer_new (LC := LC) (LK := LK) version v)) as H0.
    { split; [done|]. split; cbn; [by intros ? ? ?%lookup_empty_Some|by intros ? ?%not_elem_of_nil|constructor]. }
    revert H0. generalize (AlertRelayer_new (LC := LC) (LK := LK) version v).
    induction events as [|event events IH]; intros self H0; [done|]. cbn. apply IH. by apply alert_step_ok. }
  split_and!; [|done|done]. intros id a Ha. destruct (Hr id a Ha) as [Hid Hv]. split; [done|].
  unfold verify_signatures in Hv. by apply verify_m_of_n_spec in Hv as [_ ?].
Qed.
End verified.

(** ** Example: two keys, both needed *)
Module AlertExample.
Definition signature (key : Z) : Bytes := replicate 31 0 ++ [key] ++ replicate 31 0 ++ [1] ++ [0].
Definition recover (message : H256) (sig : Signature) : option Pubkey := Some [nth 31 sig 0].
Definition blake2b (bytes : Bytes) : H256 := 0.
Definition serialize (alert : Alert) : Bytes := [].
Definition verifier : Verifier := mkVerifier 2 {[ [7]; [8]; [9] ]}.
Definition alert (id : Z) (min max : option Bytes) : Alert :=
  mkAlert id 0 min max 1 1000 [] [signature 7; signature 9].
Definition bytes_0_9_0 : Bytes := [48; 46; 57; 46; 48].
Definition bytes_0_15_0 : Bytes := [48; 46; 49; 53; 46; 48].
Definition relayer : AlertRelayer (LC := AssocList Z) (LK := AssocList Z) :=
  AlertRelayer_new bytes_0_9_0 verifier.
Definition events : list AlertEvent :=
  [AlReceived 1 (Some (alert 5 None None)) [1; 2];
   AlReceived 2 (Some (mkAlert 6 0 None None 1 1000 [] [signature 7; signature 7])) [1; 2]].

Lemma alerts_signed_witness :
  2 <= Z.of_nat (size (signers recover 0 (alert_signatures (alert 5 None None)) (pubkeys verifier))).
Proof.
  destruct (alerts_signed recover blake2b serialize (LC := AssocList Z) (LK := AssocList Z) verifier bytes_0_9_0 events
    ltac:(discriminate)) as [Hr _].
  apply (Hr 5 (alert 5 None None)). vm_compute. reflexivity.
Defined.

(** An alert that has expired is accepted from a peer, relayed and shown as received, though the RPC refuses it. *)
Lemma expired_alert_relayed :
  let '(relayer1, actions) := alert_received recover blake2b serialize relayer 1 (Some (alert 5 None None)) [1; 2] in
  actions = [SendAlert 2 (alert 5 None None)] /\
  received_alerts (ar_notifier relayer1) !! 5 = Some (alert 5 None None) /\
  send_alert recover blake2b serialize relayer 2000 (alert 5 None None) = None.
Proof. vm_compute. done. Qed.

(** Versions are compared as strings: an alert for the versions up to 0.15.0 is not noticed by a node of version 0.9.0. *)
Lemma version_compared_as_string :
  noticed_alerts (ar_notifier (alert_received recover blake2b serialize relayer 1
    (Some (alert 5 None (Some bytes_0_15_0))) []).1) = [].
Proof. vm_compute. reflexivity. Qed.
End AlertExample.
